(* ===== verification/_CoqProject ===== *)
-Q . S2P
Prelude.v
GoStrings.v
Model.v
BaseModel.v
Tuple.v
Eval.v
EvalSpec.v
EvalProofs.v
Engine.v
Batch.v
Fragment.v
TupleStore.v
StoreProps.v
Decision.v
DecisionProps.v
Clients.v
AuthzHTTP.v
AuthzProps.v
AuthzClaims.v
AdminClient.v
OrgTree.v
Org.v
OrgStore.v
OrgEffects.v
OrgProps.v
OrgClaims.v
OrgHTTP.v
OrgHTTPProps.v
ModuleKit.v
ModuleRules.v
OrgReads.v
OrgReadsClaims.v
Helpdesk.v
HelpdeskHTTP.v
HelpdeskProps.v
HelpdeskStore.v
HelpdeskAgents.v
HelpdeskClaims.v
Notification.v
NotifWorker.v
NotifDelivery.v
NotifPolicy.v
NotifHTTP.v
NotifProps.v
NotifClaims.v
Docs.v
DocsHTTP.v
DocsProps.v
DocsTables.v
DocsClaims.v
SqlScan.v
SqlTokens.v
SqlProps.v
Timesheet.v
TimesheetProps.v
TimesheetHTTP.v
TimesheetService.v
TimesheetTables.v
TimesheetClaims.v
Registry.v
RegistrySeed.v
RegistryHTTP.v
RegistryEffects.v
RegistryTables.v
RegistryService.v
RegistrySeeded.v
RegistryClaims.v
Identity.v
IdentityKC.v
IdentityHTTP.v
IdentityProps.v
IdentityClaims.v
Summary.v
Mux.v
Gateway.v
GatewayRoutes.v
GatewayClaims.v
GatewayPaths.v
GatewayCatalog.v
Platform.v
