(* ===== verification/Prelude.v ===== *)
(** * Kiban: a verification library

    Kiban is a multi-tenant platform: foundation services (identity, registry, org,
    authz, gateway) and modules (docs, timesheet, helpdesk, notification) behind one
    access decision.  This library models the services and modules from their tables to
    their routes, the decision they share, the edge in front of them, and the scanner
    that fences a module's migrations.

    ** The program and its model

    - *Relation models* (internal/authz/engine/model.go, base.go, model.json):
      [Model] has the expressions, the JSON subset wall, loading, merging and
      validation; [BaseModel] is model.json as data, loaded by the same [LoadModel].
    - *Tuples and evaluation* (engine/eval.go): [Tuple] has rows and tables; [Eval]
      has [check], [evalExpr], [evalThis], [evalTupleToUserset] and
      [subjectInCompany] as programs over four effects (a query, a memo load, a memo
      store, a failure), so that one definition serves a single check and the
      concurrent batch.  [EvalSpec] defines the least relation a model and a set of
      tuples declare, without memo, cuts or fences; [EvalProofs] proves the programs
      against it; [Engine] has the top-level theorems.
    - *Batches* (engine/batch.go): [Batch] runs the worker goroutines as a step
      relation that interleaves single effects on the shared memo.
    - *Module fragments* (internal/authz/fragment): [Fragment] has [Load], which
      merges enabled fragments into the base model, and the check that answers false
      for the types of modules that are off.
    - *Tuple store* (internal/authz/store): [TupleStore] has every writer as a
      transaction over the tables authz.tuple, authz.grant_ledger and
      authz.default_grant, in which any statement may fail; [StoreProps] its theorems.
    - *Decision* (internal/authz/decision): [Decision] has [Evaluate] and
      [EvaluateBatch] over a record [Deps] of dependency answers (the Go interfaces);
      [DecisionProps] an independent list of gates and the theorems.
    - *Authz service* (internal/authz: clients.go, service.go, http.go,
      platform_role.go, summary.go): [Clients] has the identity, registry and org
      clients over HTTP answers and builds the [Deps] the service uses; [AuthzHTTP] the
      handlers as functions from the tables and the audit log to a reply and their next
      state; [AuthzProps] and [AuthzClaims] the theorems; [Summary] the access summary.
    - *Administration client* (internal/authz/client/adminauthz.go): [AdminClient] has
      the question the services ask before an administrative call, and how they read
      the reply; [AdminClient.authz_backed] says that its 200 replies are
      [AuthzHTTP.handleCan]'s.
    - *Organisation* (internal/org, and the constraints and triggers of its
      migrations): [OrgTree] has the unit forest and the recursive queries; [Org] the
      tables, errors, the transaction monad and one function per statement; [OrgStore]
      one per method, the tuples it writes through [TupleStore] included; [OrgEffects],
      [OrgProps] and [OrgClaims] what committed calls do; [OrgHTTP] and [OrgHTTPProps]
      the routes that change state; [OrgReads] and [OrgReadsClaims] the listings, their
      pages and the routes that read.
    - *Module kit* (modulekit): [ModuleKit] has the programs the modules, the registry
      and identity are written in: a request as a tree of calls (a transaction, a
      question to the authorization service, to org or to another service) that other
      requests interleave with, its runs, and the rules that carry an invariant through
      them; [ModuleRules] what each client call means at the authorization service's
      own handlers.
    - *Modules*: helpdesk ([Helpdesk], [HelpdeskHTTP], [HelpdeskProps],
      [HelpdeskStore], [HelpdeskAgents], [HelpdeskClaims]); notification
      ([Notification] the store, [NotifWorker] and [NotifDelivery] the delivery worker
      as a step relation with its outcomes, [NotifPolicy] the webhook policy,
      [NotifHTTP], [NotifProps], [NotifClaims]); docs ([Docs], [DocsHTTP],
      [DocsProps], [DocsTables], [DocsClaims]); timesheet ([Timesheet],
      [TimesheetProps], [TimesheetHTTP], [TimesheetService], [TimesheetTables],
      [TimesheetClaims]).  In each the first file has the store with its constraints,
      the HTTP file one program per route.
    - *Migration scanner* (internal/modvalidate/sqlscan.go): [SqlScan] has the
      tokenizer and the rule table; [SqlTokens] the source texts as lexemes, white
      space and comments, and the tokenizer on them; [SqlProps] the theorems.
    - *Registry* (internal/registry): [Registry] has the tables, the queries, the
      capabilities, registration and enablement; [RegistrySeed] the seed at boot,
      statement by statement; [RegistryHTTP] the routes; [RegistryEffects] the walk
      over the dependencies and the effect of each transaction; [RegistryTables],
      [RegistryService] and [RegistrySeeded] the invariants; [RegistryClaims] the
      theorems.
    - *Identity* (internal/identity): [Identity] has the accounts and the
      second-factor policies; [IdentityKC] the Keycloak client over arbitrary answers,
      the synchronisation, and the cache of the enabled flag as a step relation;
      [IdentityHTTP] the routes; [IdentityProps] and [IdentityClaims] the theorems.
    - *Gateway* (internal/gateway): [Mux] is the multiplexer of net/http; [Gateway]
      has the guards and the proxies as functions from a request to a reply or the
      outbound request; [GatewayRoutes] the route tables and the wrappers around them;
      [GatewayClaims] who is let through, [GatewayPaths] which paths are forwarded
      at all; [GatewayCatalog] the shared snapshot of the registry's modules, as a step
      relation on the calls in progress.
    - *The platform*: [Platform] puts the authorization service in front of identity,
      registry and org, each answering with what its own handlers compute.

    [Prelude] (this file) has what they share: results, the state and error monad,
    loops, string functions of Go's strings package, and the proof automation;
    [GoStrings] the rest of the text functions.

    ** What the theorems show

    - C1 to C4: a check answers what the model and the tuples declare, whatever the row
      order; it answers whenever the graph fits the depth fence; it never runs out of
      recursion; the concurrent batch gives those same answers in request order, under
      every interleaving.
    - C5 to C7: what loads is inside the subset and resolved; decoding inverts encoding;
      the effective model is the base plus exactly the active fragments of enabled
      modules, each type with its owner.
    - C8, C9: the decision is the first gate that does not pass, and the conditions
      under which it allows.
    - C10, C11: the grants endpoint is fail-closed and authorised; a superadmin always
      remains.  C16: what the access summary shows.
    - C12: what an allowed request means across the services: an active account that
      Keycloak said was enabled, an active company, an active membership or a platform
      operator, a module that was ready, and the declared relation.
    - C13, C14: whatever the gateway forwards it forwards for a verified caller entitled
      to that very request, in the company it names or that owns what it names, and which
      paths never leave the edge.  C15: one refresh of the catalog at a
      time, and how soon a module that is switched off is off.
    - C17 to C21: org's tuples are exactly the facts its rows state, over every history,
      but for the calls, races among them, that C17 names; its tables stay well-formed;
      without such calls the engine and org agree on membership; a
      request changes a company's rows only for a superadmin or an administrator of that
      company, whatever commits in between; directories are read by members.
    - C22 to C29: the modules.  Tickets, messages and documents change for callers who
      were allowed to change them; the tables keep their constraints; jobs follow their
      state machine and a lost lease settles nothing; a webhook is only dialled at an
      address the policy allows; a document row is never without its owner's tuples.
    - C30 to C34: the registry.  What can keep the stored fragments from loading, and that
      no two share a type unless two writers overlapped; a capability is ready exactly when
      the module and all it depends on are; who may enable and register; what enabling
      does, errors included; what a boot seeds.
    - C35: the scanner's verdict depends on the lexemes of a text and not on its layout.
    - C36 to C38: identity.  Policies change for superadmins and never below the global
      one; what a synchronisation attempts; how old a cached answer can be.
    - C39, C40: timesheet.  Entries and submissions change for the member or the
      approver, and a reply shows rows of the company; submissions form one version chain
      per week and approved ones are final.

    Examples exhibit behaviours that differ from what the code or its comments mean:
    [DecisionProps.EvaluateBatch_global_differs], [AuthzClaims.second_anchor_accepted],
    [OrgClaims.relink_keeps_old_account], [OrgClaims.create_and_assign_unanchored],
    [OrgClaims.create_and_assign_stale_holder], [OrgClaims.move_to_missing_parent],
    [OrgClaims.update_race_loses_membership], [OrgClaims.update_race_keeps_membership],
    [OrgClaims.unlink_race_keeps_account], [OrgClaims.group_add_race_keeps_tuple],
    [OrgReadsClaims.directory_repeats], [SqlProps.comment_panics],
    [SqlProps.create_schema_elements], [SqlProps.from_list_tail],
    [SqlProps.comment_hides_statement], [SqlProps.form_feed_hides_table],
    [SqlProps.continuation_hides_statement],
    [TimesheetProps.upsert_race], [HelpdeskClaims.rebinding_hides_agent],
    [HelpdeskClaims.status_race], [NotifPolicy.zoned_unspecified_dialled],
    [NotifPolicy.resolver_failure_is_final], [NotifPolicy.unroutable_allowed],
    [NotifClaims.repeated_recipient_fails], [NotifClaims.far_page_fails],
    [DocsClaims.refused_document_owned], [DocsClaims.unlinked_keeps_access],
    [DocsClaims.failed_upgrade_shown], [RegistryClaims.app_breaks_every_check],
    [RegistryClaims.short_feature_panics], [RegistryClaims.app_takes_builtin],
    [RegistryClaims.seed_races_registration], [RegistryClaims.registrations_race],
    [IdentityClaims.global_raise_leaves_override],
    [IdentityClaims.optional_method_unchecked],
    [IdentityClaims.stale_true_outlives_ttl],
    [GatewayPaths.keycloak_through_escapes] and
    [GatewayClaims.directory_reaches_by_kcsub].

    ** Conventions, bounds and fuel

    Go strings are byte strings; a [(T, error)] result is [result E T] with the error
    kept; maps are gmaps and sets gsets where iteration order cannot be seen, and
    where it can be the order is an argument or the theorem quantifies over it.
    PostgreSQL is the tables and the statements' documented behaviour: a transaction
    commits as one step, a statement on the pool commits by itself, and any statement
    may fail.  At READ COMMITTED what a transaction read without a lock may be out of
    date when it writes: in the org store it is an argument, which may be any database
    ([Org.unlocked]); the ownership query of a registration is a step of its own, before
    the transaction ([Registry.seeFragments]).  The order of rows is the [Database]
    argument; collation, the folding of ILIKE and the order of ties in a listing are
    parameters.  Text columns hold no NUL byte,
    which PostgreSQL guarantees ([clean_table], [nul_free]): the memo's keys use it as a
    separator.  Ids are numbers; the ids the database draws are arguments of the calls
    that insert.  Times are integers, in the units the code compares: seconds for the
    timesheet, microseconds for docs and notification; hours are rationals, stored as
    hundredths.
    Fragments are kept as they were sent.

    The recursion of [check] has fuel [topFuel] = [MaxDepth] + 2, and C3 proves that
    the depth fence always comes first.  [tokenize] has the length of the source as
    fuel, one turn per byte at most ([SqlTokens.tokenizeN_enough]), and the scanner's
    list loops have the number of tokens, each turn consuming one at least.
    A walk up the unit tree ([OrgTree.chain]) has the number of units as fuel, which
    [OrgTree.path_chain] proves enough in a forest; the 32 levels of a subtree query
    are the query's own.  The recursive query over the dependencies has one round more
    than there are dependencies, after which [RegistryEffects] proves that it adds
    nothing.

    Parameters stand for code outside the repository: bearer verification (jwx), UUID
    parsing and printing, Unicode case mapping of non-ASCII text, SHA-256, and what the
    other end of a call answers.  Keycloak's answers are arbitrary, a function of the
    requests sent before.

    ** Not modelled

    - Installation (internal/bootstrap), process set-up (cmd), pools, metrics, logging
      and the HTTP servers (internal/httpx, internal/obs): one-shot I/O and wiring.
    - JWT verification and the refresh of its keys: calls into jwx.
    - The module validator's other rules (internal/modvalidate): file reading, YAML
      decoding and comparisons of fields.
    - Notification's mailer and the posting of a webhook: a delivery is its outcome.
    - Of the gateway: what an upstream answers, the rewriting of Keycloak's pages, the
      files of the shell and the aggregated metrics page.
    - Wire field names, error wording, audit payloads and time stamps that nothing reads.
    - The engine's comparison harness and benchmark, the repository's tools, the SDKs
      and the front end: they drive or wrap the above, the latter in other languages. *)

From stdpp Require Import base gmap strings list.
From Stdlib Require Import Ascii.

(** ** Results of fallible operations

    A Go function that returns [(T, error)] becomes a function into
    [result E T]; the error value is kept, because several properties are about
    which error a caller sees. *)

Inductive result (E A : Type) : Type :=
| Ok (a : A)
| Err (e : E).
Arguments Ok {E A} a.
Arguments Err {E A} e.

Definition result_bind {E A B} (r : result E A) (k : A -> result E B) : result E B :=
  match r with
  | Ok a => k a
  | Err e => Err e
  end.

Definition is_ok {E A} (r : result E A) : bool :=
  match r with Ok _ => true | Err _ => false end.

Declare Scope kiban_scope.
Delimit Scope kiban_scope with kiban.
Notation "'let!' x ':=' r 'in' k" := (result_bind r (fun x => k))
  (at level 10, x binder, r at level 100, k at level 200) : kiban_scope.
Open Scope kiban_scope.

Lemma result_bind_ok {E A B} (r : result E A) (k : A -> result E B) b :
  result_bind r k = Ok b <-> exists a, r = Ok a /\ k a = Ok b.
Proof. destruct r; simpl; naive_solver. Qed.

Lemma is_ok_true {E A} (r : result E A) : is_ok r = true <-> exists a, r = Ok a.
Proof. destruct r; simpl; naive_solver. Qed.

(** ** State and errors

    Code that threads a state (a transaction's view of the tables, the evidence a
    decision collects) and may stop early: the state after a stop is not kept,
    because the code that reads it is skipped. *)

Abbreviation SE S E A := (S -> result E (A * S)%type).

Definition tret {S E A} (a : A) : SE S E A := fun s => Ok (a, s).
Definition tfail {S E A} (e : E) : SE S E A := fun _ => Err e.
Definition tbind {S E A B} (m : SE S E A) (k : A -> SE S E B) : SE S E B :=
  fun s => match m s with Ok (a, s') => k a s' | Err e => Err e end.

Notation "'let*' x ':=' m 'in' k" := (tbind m (fun x => k))
  (at level 10, x binder, m at level 100, k at level 200) : kiban_scope.

Lemma tbind_ok {S E A B} (m : SE S E A) (k : A -> SE S E B) s b s' :
  tbind m k s = Ok (b, s') <-> exists a s1, m s = Ok (a, s1) /\ k a s1 = Ok (b, s').
Proof. unfold tbind. destruct (m s) as [[a s1]|e]; naive_solver. Qed.

Lemma tbind_assoc {S E A B C} (m : SE S E A) (k : A -> SE S E B) (h : B -> SE S E C) s :
  tbind (tbind m k) h s = tbind m (fun a => tbind (k a) h) s.
Proof. unfold tbind. by destruct (m s) as [[a s1]|e]. Qed.

(** Runs a check over a list and stops at its first error, the shape of a Go
    [for] loop whose body returns early on a non-nil error. *)
Section for_each.
Context {E A : Type} (f : A -> result E unit).

Fixpoint for_each (l : list A) : result E unit :=
  match l with
  | [] => Ok tt
  | x :: l' => let! _ := f x in for_each l'
  end.
End for_each.

(** Decodes a list element by element and stops at the first error. *)
Fixpoint collect {E A} (l : list (result E A)) : result E (list A) :=
  match l with
  | [] => Ok []
  | r :: l' => let! x := r in let! xs := collect l' in Ok (x :: xs)
  end.

Lemma collect_ok {E A} (l : list (result E A)) xs :
  collect l = Ok xs <-> l = Ok <$> xs.
Proof.
  revert xs. induction l as [|r l IH]; intros xs; simpl.
  - destruct xs; naive_solver.
  - rewrite result_bind_ok. setoid_rewrite result_bind_ok. split.
    + intros (x & -> & ys & H & [= <-]). apply IH in H as ->. done.
    + destruct xs as [|x xs]; [done|]. intros [= -> ->].
      exists x. split; [done|]. exists xs. by rewrite (proj2 (IH xs)).
Qed.

Lemma for_each_ok {E A} (f : A -> result E unit) l :
  for_each f l = Ok tt <-> Forall (fun x => f x = Ok tt) l.
Proof.
  induction l as [|x l IH]; simpl; [split; auto|].
  rewrite result_bind_ok, Forall_cons, <- IH.
  split; [intros [[] [? ?]] | intros [? ?]]; eauto.
Qed.

Lemma for_each_err {E A} (f : A -> result E unit) l e :
  for_each f l = Err e -> exists x, x ∈ l /\ f x = Err e.
Proof.
  induction l as [|x l IH]; simpl; [done|].
  destruct (f x) as [[]|e'] eqn:Hf; simpl; intros H.
  - destruct (IH H) as (y & ? & ?). exists y. split; [by right|done].
  - exists x. split; [by left|congruence].
Qed.

(** ** Strings

    Go strings are byte strings; a Rocq [string] is the same sequence of 8-bit
    characters. *)

Definition NUL : ascii := Ascii.zero.

Fixpoint has_char (c : ascii) (s : string) : bool :=
  match s with
  | EmptyString => false
  | String d s' => Ascii.eqb c d || has_char c s'
  end.

Lemma has_char_app c a b : has_char c (a +:+ b) = has_char c a || has_char c b.
Proof. induction a; simpl; [done|]. by rewrite IHa, orb_assoc. Qed.

Lemma append_assoc (a b c : string) : (a +:+ b) +:+ c = a +:+ b +:+ c.
Proof.
  induction a as [|x a IH]; [done|]. change (String x ((a +:+ b) +:+ c) = String x (a +:+ b +:+ c)). by rewrite IH.
Qed.

Lemma length_append (a b : string) : String.length (a +:+ b) = String.length a + String.length b.
Proof. induction a as [|x a IH]; [done|]. change (S (String.length (a +:+ b)) = S (String.length a) + String.length b). lia. Qed.

Lemma append_inj_r (a b x : string) : a +:+ x = b +:+ x -> a = b.
Proof.
  revert b. induction a as [|c a IH]; intros [|d b] H; [done| | |].
  - apply (f_equal String.length) in H. rewrite !length_append in H. cbn in H. lia.
  - apply (f_equal String.length) in H. rewrite !length_append in H. cbn in H. lia.
  - injection H as -> H. by rewrite (IH b H).
Qed.

(** A separator that occurs in neither left component splits a concatenation in
    one way only. *)
Lemma app_sep_inj c a b x y :
  has_char c a = false -> has_char c b = false ->
  a +:+ String c x = b +:+ String c y -> a = b /\ x = y.
Proof.
  revert b. induction a as [|d a IH]; intros [|e b]; cbn; intros Ha Hb H.
  - naive_solver.
  - injection H as -> H. by rewrite Ascii.eqb_refl in Hb.
  - injection H as -> H. by rewrite Ascii.eqb_refl in Ha.
  - apply orb_false_iff in Ha as [_ Ha]. apply orb_false_iff in Hb as [_ Hb].
    injection H as -> H. destruct (IH b Ha Hb H) as [-> ->]. done.
Qed.

(** [strings.HasPrefix] and [strings.TrimPrefix]. *)
Fixpoint HasPrefix (s p : string) {struct p} : bool :=
  match p, s with
  | EmptyString, _ => true
  | String c p', String d s' => Ascii.eqb c d && HasPrefix s' p'
  | String _ _, EmptyString => false
  end.

Fixpoint drop_str (n : nat) (s : string) : string :=
  match n, s with
  | O, _ => s
  | S n', String _ s' => drop_str n' s'
  | S _, EmptyString => EmptyString
  end.

Definition TrimPrefix (s p : string) : string :=
  if HasPrefix s p then drop_str (String.length p) s else s.

Lemma HasPrefix_spec s p : HasPrefix s p = true <-> exists t, s = p +:+ t.
Proof.
  revert s. induction p as [|c p IH]; intros s; simpl.
  - split; [by exists s | done].
  - destruct s as [|d s]; [split; [done | by intros [t Ht]]|].
    rewrite andb_true_iff, Ascii.eqb_eq, IH. split.
    + intros [-> [t ->]]. by exists t.
    + intros [t Ht]. injection Ht as -> ->. eauto.
Qed.

Lemma drop_str_app p t : drop_str (String.length p) (p +:+ t) = t.
Proof. induction p; simpl; auto. Qed.

Lemma TrimPrefix_app p t : TrimPrefix (p +:+ t) p = t.
Proof.
  unfold TrimPrefix. destruct (HasPrefix (p +:+ t) p) eqn:E.
  - apply drop_str_app.
  - enough (HasPrefix (p +:+ t) p = true) by congruence.
    apply HasPrefix_spec. eauto.
Qed.

(** [strings.Cut] at a one-byte separator: [None] when it does not occur. *)
Fixpoint Cut (s : string) (sep : ascii) : option (string * string) :=
  match s with
  | EmptyString => None
  | String c s' =>
      if Ascii.eqb c sep then Some (EmptyString, s')
      else match Cut s' sep with
           | Some (a, b) => Some (String c a, b)
           | None => None
           end
  end.

Lemma Cut_spec s sep a b :
  Cut s sep = Some (a, b) <-> s = a +:+ String sep b /\ has_char sep a = false.
Proof.
  revert a b. induction s as [|c s IH]; intros a b; cbn.
  - split; [done|]. intros [H _]. by destruct a.
  - destruct (Ascii.eqb_spec c sep) as [->|Hne].
    + split; [by intros [= <- <-]|]. intros [H Ha]. destruct a as [|d a]; cbn in *; [by injection H as ->|].
      injection H as <- _. by rewrite Ascii.eqb_refl in Ha.
    + destruct (Cut s sep) as [[x y]|] eqn:E.
      * destruct (proj1 (IH x y) eq_refl) as [-> Hx]. split.
        { intros [= <- <-]. split; [done|]. cbn. rewrite Hx, orb_false_r.
          apply Ascii.eqb_neq. congruence. }
        intros [H Ha]. destruct a as [|d a]; cbn in *; [by injection H as ->|]. injection H as <- H.
        apply orb_false_iff in Ha as [_ Ha]. by destruct (app_sep_inj sep x a y b Hx Ha H) as [-> ->].
      * split; [done|]. intros [H Ha]. destruct a as [|d a]; cbn in *; [by injection H as ->|]. injection H as <- ->.
        apply orb_false_iff in Ha as [_ Ha]. by specialize (proj2 (IH a b) (conj eq_refl Ha)).
Qed.

(** ** Boolean views *)

Definition seqb (a b : string) : bool := bool_decide (a = b).

Lemma seqb_true a b : seqb a b = true <-> a = b.
Proof. apply bool_decide_eq_true. Qed.

Lemma seqb_false a b : seqb a b = false <-> a <> b.
Proof. apply bool_decide_eq_false. Qed.

Lemma seqb_refl a : seqb a a = true.
Proof. by apply seqb_true. Qed.

(** ** Proof automation *)

Create HintDb kiban.
Create Rewrite HintDb kiban.
#[export] Hint Rewrite @result_bind_ok @andb_true_iff @orb_true_iff @negb_true_iff
  @andb_false_iff @orb_false_iff @negb_false_iff @seqb_true @seqb_false : kiban.

(** Splits the boolean guards and result binds in every hypothesis. *)
Ltac breakb :=
  repeat (progress (autorewrite with kiban in *; destruct_and?; simplify_eq/=)
          || match goal with H : exists _, _ |- _ => destruct H end).

(** Case analysis on the scrutinee of the first [if] or [match] of a
    hypothesis, keeping the equation. *)
Ltac case_on H :=
  match type of H with
  | context [if ?b then _ else _] => destruct b eqn:?
  | context [match ?x with _ => _ end] => destruct x eqn:?
  end; simplify_eq/=.
