(* ===== verification/GoStrings.v ===== *)
(** * Text functions of the Go standard library

    strings.TrimSpace, ToUpper and Fields, and the code patterns the stores share.
    On text of ASCII bytes they are defined here; text with a byte over 127 goes
    through the Unicode tables, which are a parameter. *)

From stdpp Require Import base strings list.
From Stdlib Require Import Ascii.
From S2P Require Import Prelude.

(** What the functions do to text with a byte over 127. *)
Class Unicode := {
  unicodeTrimSpace : string -> string;
  unicodeToUpper : string -> string;
  unicodeFields : string -> list string
}.

Fixpoint all_chars (p : ascii -> bool) (s : string) : bool :=
  match s with EmptyString => true | String c s' => p c && all_chars p s' end.

Lemma all_chars_app p a b : all_chars p (a +:+ b) = all_chars p a && all_chars p b.
Proof. induction a; simpl; [done|]. by rewrite IHa, andb_assoc. Qed.

Lemma all_chars_impl (p q : ascii -> bool) s :
  (forall c, p c = true -> q c = true) -> all_chars p s = true -> all_chars q s = true.
Proof.
  intros Hpq. induction s as [|c s IH]; simpl; [done|]. rewrite !andb_true_iff. intros [? ?]. auto.
Qed.

Definition is_ascii (c : ascii) : bool := (N_of_ascii c <? 128)%N.
Definition ascii_text (s : string) : bool := all_chars is_ascii s.

(** unicode.IsSpace on ASCII: tab, line feed, vertical tab, form feed, carriage
    return and space. *)
Definition is_space (c : ascii) : bool :=
  let n := N_of_ascii c in ((9 <=? n) && (n <=? 13) || (n =? 32))%N.

Definition upper (c : ascii) : ascii :=
  let n := N_of_ascii c in if ((97 <=? n) && (n <=? 122))%N then ascii_of_N (n - 32) else c.

Fixpoint trim_left (s : string) : string :=
  match s with
  | EmptyString => EmptyString
  | String c s' => if is_space c then trim_left s' else s
  end.

Fixpoint trim_right (s : string) : string :=
  match s with
  | EmptyString => EmptyString
  | String c s' =>
      match trim_right s' with
      | EmptyString => if is_space c then EmptyString else String c EmptyString
      | t => String c t
      end
  end.

Fixpoint map_text (f : ascii -> ascii) (s : string) : string :=
  match s with EmptyString => EmptyString | String c s' => String (f c) (map_text f s') end.

(** The fields of a text; [cur] is the field being read. *)
Fixpoint fields_from (cur s : string) : list string :=
  let flush := if seqb cur "" then [] else [cur] in
  match s with
  | EmptyString => flush
  | String c s' =>
      if is_space c then flush ++ fields_from EmptyString s'
      else fields_from (cur +:+ String c EmptyString) s'
  end.

(** strings.Join *)
Fixpoint Join (l : list string) (sep : string) : string :=
  match l with
  | [] => EmptyString
  | [x] => x
  | x :: l' => x +:+ sep +:+ Join l' sep
  end.

(** strings.Split for a one-byte separator. *)
Fixpoint Split (sep : ascii) (s : string) : list string :=
  match s with
  | EmptyString => [""]
  | String c rest =>
      if bool_decide (c = sep) then "" :: Split sep rest
      else match Split sep rest with
           | seg :: segs => String c seg :: segs
           | [] => [String c ""]
           end
  end.

Section text.
Context `{Unicode}.

Definition TrimSpace (s : string) : string :=
  if ascii_text s then trim_right (trim_left s) else unicodeTrimSpace s.
Definition ToUpper (s : string) : string :=
  if ascii_text s then map_text upper s else unicodeToUpper s.
Definition Fields (s : string) : list string :=
  if ascii_text s then fields_from EmptyString s else unicodeFields s.
End text.

(** The character class [A-Z0-9_-]. *)
Definition code_char (c : ascii) : bool :=
  let n := N_of_ascii c in
  (((65 <=? n) && (n <=? 90)) || ((48 <=? n) && (n <=? 57)) || (n =? 95) || (n =? 45))%N.

(** ^[A-Z0-9_-]{lo,hi}$ *)
Definition matchesCode (lo hi : nat) (code : string) : bool :=
  all_chars code_char code && (lo <=? String.length code)%nat && (String.length code <=? hi)%nat.

(** PostgreSQL's char_length of UTF-8 text: the bytes that do not continue a
    character. *)
Fixpoint charLength (s : string) : nat :=
  match s with
  | EmptyString => 0
  | String c s' =>
      let n := N_of_ascii c in
      (if (128 <=? n)%N && (n <? 192)%N then 0 else 1) + charLength s'
  end.

Lemma charLength_le s : charLength s <= String.length s.
Proof. induction s as [|c s IH]; simpl; [lia|]. destruct (_ && _); simpl; lia. Qed.

(** ** A code in normal form is left alone *)

Lemma is_space_code c : code_char c = true -> is_space c = false.
Proof. destruct c as [[] [] [] [] [] [] [] []]; done. Qed.
Lemma upper_code c : code_char c = true -> upper c = c.
Proof. destruct c as [[] [] [] [] [] [] [] []]; done. Qed.
Lemma is_ascii_code c : code_char c = true -> is_ascii c = true.
Proof. destruct c as [[] [] [] [] [] [] [] []]; done. Qed.

Lemma trim_left_code s : all_chars code_char s = true -> trim_left s = s.
Proof. destruct s as [|c s]; simpl; [done|]. rewrite andb_true_iff. intros [Hc _]. by rewrite is_space_code. Qed.

Lemma trim_right_code s : all_chars code_char s = true -> trim_right s = s.
Proof.
  induction s as [|c s IH]; simpl; [done|]. rewrite andb_true_iff. intros [Hc Hs]. rewrite (IH Hs), (is_space_code c Hc).
  by destruct s.
Qed.

Lemma map_upper_code s : all_chars code_char s = true -> map_text upper s = s.
Proof. induction s as [|c s IH]; simpl; [done|]. rewrite andb_true_iff. intros [Hc Hs]. by rewrite upper_code, IH. Qed.

Lemma append_nil_r (s : string) : s +:+ "" = s.
Proof. induction s as [|c s IH]; [done|]. change (String c (s +:+ "") = String c s). by rewrite IH. Qed.

Lemma fields_code cur s :
  all_chars code_char s = true -> cur +:+ s <> "" -> fields_from cur s = [cur +:+ s].
Proof.
  revert cur. induction s as [|c s IH]; intros cur; simpl.
  - intros _. rewrite append_nil_r. intros Hne. by rewrite (proj2 (seqb_false cur "") Hne).
  - rewrite andb_true_iff. intros [Hc Hs] _. rewrite (is_space_code c Hc), IH, append_assoc; [done..|].
    rewrite append_assoc. by destruct cur.
Qed.
