(* ===== verification/Model.v ===== *)
(** * The authorization model language

    internal/authz/engine/model.go, expr_accessors.go and base.go: relation
    expressions over the supported Zanzibar subset, their decoding from JSON with
    the subset wall, the model-level validations and the merge of a module
    fragment into the platform model.  JSON documents are syntax trees here (the
    byte-level grammar belongs to encoding/json); what encoding/json does with a
    tree, as far as the source relies on it, is written out. *)

From stdpp Require Import base gmap strings list.
From Stdlib Require Import Ascii.
From S2P Require Import Prelude.

(** ** JSON documents *)

Inductive json : Type :=
| JNull
| JBool (b : bool)
| JNum (lexeme : string)
| JStr (s : string)
| JArr (l : list json)
| JObj (kvs : list (string * json)).

(** The number of entries of the Go map an object decodes into: a repeated key is
    one entry. *)
Definition key_count (kvs : list (string * json)) : nat :=
  length (remove_dups (fst <$> kvs)).

(** ** Relation expressions *)

(** [TupleToUserset]: the `X from tupleset` construct. *)
Record TupleToUserset := mkTTU {
  Tupleset : string;
  ComputedUserset : string
}.

(** [Expr] with its five kinds.  The Go struct keeps a kind tag and one field per
    kind; UnmarshalJSON is the only constructor and fills the tag's own field, so
    the tagged union is an inductive type. *)
Inductive Expr : Type :=
| kindThis
| kindComputedUserset (computedUserset : string)
| kindTupleToUserset (tupleToUserset : TupleToUserset)
| kindUnion (union : list Expr)
| kindIntersection (intersection : list Expr).

(** The induction principle that reaches the children of a union or an
    intersection. *)
Section Expr_rect.
Context (P : Expr -> Prop).
Context (Hthis : P kindThis).
Context (Hcu : forall r, P (kindComputedUserset r)).
Context (Httu : forall t, P (kindTupleToUserset t)).
Context (Hunion : forall es, Forall P es -> P (kindUnion es)).
Context (Hinter : forall es, Forall P es -> P (kindIntersection es)).

Fixpoint Expr_nested_ind (e : Expr) : P e :=
  let children := fix go (es : list Expr) : Forall P es :=
    match es with
    | [] => Forall_nil_2 P
    | x :: es' => Forall_cons_2 P x es' (Expr_nested_ind x) (go es')
    end in
  match e with
  | kindThis => Hthis
  | kindComputedUserset r => Hcu r
  | kindTupleToUserset t => Httu t
  | kindUnion es => Hunion es (children es)
  | kindIntersection es => Hinter es (children es)
  end.
End Expr_rect.

(** Why a document is refused. *)
Inductive model_error : Type :=
| NotJSON
| NotAnObject
| KeyCount (n : nat)
| BadType (key : string)
| ThisFalse
| ComputedUsersetEmpty
| TupleToUsersetEmpty
| UnionEmpty
| IntersectionTooSmall
| OutsideSubset (key : string)
| ModelEmpty
| SelfRefUndefined (typ rel target : string)
| DuplicateType (typ : string)
| TargetUndefined (typ rel target : string)
| AnchorMissing (typ : string).

(** ** Decoding *)

(** encoding/json matches struct field names case-insensitively (Unicode simple
    folding): ASCII letters, and the long s U+017F, the only other character that
    folds to a letter of the two field names. *)
Definition lower_ascii (c : ascii) : ascii :=
  let n := N_of_ascii c in
  if ((65 <=? n) && (n <=? 90))%N then ascii_of_N (n + 32) else c.

Fixpoint fold_name (s : string) : string :=
  match s with
  | EmptyString => EmptyString
  | String c s' =>
      match s' with
      | String d s'' =>
          if (N_of_ascii c =? 197)%N && (N_of_ascii d =? 191)%N
          then String "s" (fold_name s'')
          else String (lower_ascii c) (fold_name s')
      | EmptyString => String (lower_ascii c) EmptyString
      end
  end.

Definition decode_string_field (v : json) (old : string) : result model_error string :=
  match v with
  | JStr s => Ok s
  | JNull => Ok old
  | _ => Err (BadType "tupleToUserset")
  end.

(** [json.Unmarshal] into a [TupleToUserset]: unknown keys are ignored, a repeated
    key overwrites, null leaves the field as it is. *)
Fixpoint decode_ttu_fields (kvs : list (string * json)) (t : TupleToUserset)
    : result model_error TupleToUserset :=
  match kvs with
  | [] => Ok t
  | (k, v) :: kvs' =>
      if seqb (fold_name k) "tupleset" then
        let! s := decode_string_field v (Tupleset t) in
        decode_ttu_fields kvs' (mkTTU s (ComputedUserset t))
      else if seqb (fold_name k) "computeduserset" then
        let! s := decode_string_field v (ComputedUserset t) in
        decode_ttu_fields kvs' (mkTTU (Tupleset t) s)
      else decode_ttu_fields kvs' t
  end.

Definition decode_ttu (v : json) : result model_error TupleToUserset :=
  match v with
  | JObj kvs => decode_ttu_fields kvs (mkTTU "" "")
  | JNull => Ok (mkTTU "" "")
  | _ => Err (BadType "tupleToUserset")
  end.

(** A [[]Expr] target: null leaves the slice nil, an array decodes its elements. *)
Definition decode_children (k : string) (v : json) (children : list (result model_error Expr))
    : result model_error (list Expr) :=
  match v with
  | JArr _ => collect children
  | JNull => Ok []
  | _ => Err (BadType k)
  end.

(** The [switch k] of [Expr.UnmarshalJSON] for the object's one key; [children]
    are the decoded elements when the value is an array. *)
Definition decode_entry (k : string) (v : json) (children : list (result model_error Expr))
    : result model_error Expr :=
  if seqb k "this" then
    match v with
    | JBool true => Ok kindThis
    | JBool false | JNull => Err ThisFalse
    | _ => Err (BadType k)
    end
  else if seqb k "computedUserset" then
    match v with
    | JStr s => if seqb s "" then Err ComputedUsersetEmpty else Ok (kindComputedUserset s)
    | JNull => Err ComputedUsersetEmpty
    | _ => Err (BadType k)
    end
  else if seqb k "tupleToUserset" then
    let! t := decode_ttu v in
    if seqb (Tupleset t) "" || seqb (ComputedUserset t) ""
    then Err TupleToUsersetEmpty else Ok (kindTupleToUserset t)
  else if seqb k "union" then
    let! es := decode_children k v children in
    if (length es =? 0)%nat then Err UnionEmpty else Ok (kindUnion es)
  else if seqb k "intersection" then
    let! es := decode_children k v children in
    if (length es <? 2)%nat then Err IntersectionTooSmall else Ok (kindIntersection es)
  else Err (OutsideSubset k).

(** [Expr.UnmarshalJSON].  With exactly one distinct key, the entry Go's map holds
    for it is the object's last one. *)
Fixpoint UnmarshalJSON (data : json) : result model_error Expr :=
  match data with
  | JNull => Err (KeyCount 0)
  | JObj kvs =>
      if negb (key_count kvs =? 1)%nat then Err (KeyCount (key_count kvs))
      else
        (fix last_entry (kvs : list (string * json)) : result model_error Expr :=
          match kvs with
          | [] => Err (KeyCount 0)
          | [(k, v)] =>
              decode_entry k v (match v with JArr l => UnmarshalJSON <$> l | _ => [] end)
          | _ :: kvs' => last_entry kvs'
          end) kvs
  | _ => Err NotAnObject
  end.

(** ** Models *)

(** [Model]: object type -> relation name -> definition expression. *)
Abbreviation Relations := (gmap string Expr).
Abbreviation Model := (gmap string (gmap string Expr)).

(** A JSON object decoded into a Go map: every value is decoded, a repeated key
    keeps its last value, null is the nil map. *)
Definition decode_map {A} (decode : json -> result model_error A) (data : json)
    : result model_error (gmap string A) :=
  match data with
  | JNull => Ok ∅
  | JObj kvs =>
      let! vs := collect ((fun kv => let! a := decode kv.2 in Ok (kv.1, a)) <$> kvs) in
      Ok (list_to_map (reverse vs))
  | _ => Err NotAnObject
  end.

Section validation.
Context (m : Model) (typ rel : string).

(** [validateSelfRefs] *)
Fixpoint validateSelfRefs (e : Expr) : result model_error unit :=
  match e with
  | kindThis => Ok tt
  | kindComputedUserset cu =>
      match m !! typ ≫= (.!! cu) with
      | Some _ => Ok tt
      | None => Err (SelfRefUndefined typ rel cu)
      end
  | kindTupleToUserset t =>
      match m !! typ ≫= (.!! Tupleset t) with
      | Some _ => Ok tt
      | None => Err (SelfRefUndefined typ rel (Tupleset t))
      end
  | kindUnion es | kindIntersection es => for_each validateSelfRefs es
  end.

(** The recursive [walk] of [ValidateTupleToUsersetTargets]; [defined] is the set
    of relation names defined on some type. *)
Fixpoint walkTargets (defined : gset string) (e : Expr) : result model_error unit :=
  match e with
  | kindTupleToUserset t =>
      if decide (ComputedUserset t ∈ defined) then Ok tt
      else Err (TargetUndefined typ rel (ComputedUserset t))
  | kindUnion es | kindIntersection es => for_each (walkTargets defined) es
  | _ => Ok tt
  end.
End validation.

(** The nested [for typ, rels := range m { for rel, expr := range rels }]. *)
Definition for_each_relation (f : string -> string -> Expr -> result model_error unit)
    (m : Model) : result model_error unit :=
  for_each (fun tr => for_each (fun re => f tr.1 re.1 re.2) (map_to_list tr.2)) (map_to_list m).

(** [LoadModel]; [None] is input that is not a JSON document. *)
Definition LoadModel (data : option json) : result model_error Model :=
  match data with
  | None => Err NotJSON
  | Some j =>
      let! m := decode_map (decode_map UnmarshalJSON) j in
      if decide (size m = 0)%nat then Err ModelEmpty
      else
        let! _ := for_each_relation (fun typ rel e => validateSelfRefs m typ rel e) m in
        Ok m
  end.

(** The second loop of [Model.Merge]: copies the entries of [other] into [out] and
    refuses a type that [out] already holds. *)
Fixpoint merge_entries (entries : list (string * Relations)) (out : Model)
    : result model_error Model :=
  match entries with
  | [] => Ok out
  | (k, v) :: entries' =>
      match out !! k with
      | Some _ => Err (DuplicateType k)
      | None => merge_entries entries' (<[k := v]> out)
      end
  end.

(** [Model.Merge] *)
Definition Merge (m other : Model) : result model_error Model :=
  merge_entries (map_to_list other) m.

Definition definedRelations (m : Model) : gset string :=
  map_fold (fun _ rels acc => dom rels ∪ acc) ∅ m.

(** [Model.ValidateTupleToUsersetTargets] *)
Definition ValidateTupleToUsersetTargets (m : Model) : result model_error unit :=
  let defined := definedRelations m in
  for_each_relation (fun typ rel e => walkTargets typ rel defined e) m.

(** [Expr.IsThis] *)
Definition IsThis (e : Expr) : bool :=
  match e with kindThis => true | _ => false end.

(** [Model.ValidateCompanyModuleAnchor] *)
Definition ValidateCompanyModuleAnchor (m : Model) : result model_error unit :=
  for_each (fun tr =>
    match tr.2 !! "company_module" with
    | Some anchor => if IsThis anchor then Ok tt else Err (AnchorMissing tr.1)
    | None => Err (AnchorMissing tr.1)
    end) (map_to_list m).

(** ** Encoding, for the round trip *)

Fixpoint encode (e : Expr) : json :=
  match e with
  | kindThis => JObj [("this", JBool true)]
  | kindComputedUserset r => JObj [("computedUserset", JStr r)]
  | kindTupleToUserset t =>
      JObj [("tupleToUserset",
             JObj [("tupleset", JStr (Tupleset t)); ("computedUserset", JStr (ComputedUserset t))])]
  | kindUnion es => JObj [("union", JArr (encode <$> es))]
  | kindIntersection es => JObj [("intersection", JArr (encode <$> es))]
  end.

(** What every decoded expression satisfies: names are not empty, a union has a
    child and an intersection has two. *)
Fixpoint wf_expr (e : Expr) : bool :=
  match e with
  | kindThis => true
  | kindComputedUserset r => negb (seqb r "")
  | kindTupleToUserset t => negb (seqb (Tupleset t) "") && negb (seqb (ComputedUserset t) "")
  | kindUnion es => negb (length es =? 0)%nat && forallb wf_expr es
  | kindIntersection es => negb (length es <? 2)%nat && forallb wf_expr es
  end.

(** Same-object references resolve on [rels], the relations of the object's own
    type. *)
Fixpoint self_refs_ok (rels : Relations) (e : Expr) : bool :=
  match e with
  | kindThis => true
  | kindComputedUserset r => bool_decide (is_Some (rels !! r))
  | kindTupleToUserset t => bool_decide (is_Some (rels !! Tupleset t))
  | kindUnion es | kindIntersection es => forallb (self_refs_ok rels) es
  end.

(** ** Lemmas *)

Lemma forallb_Forall' {A} (f : A -> bool) l : forallb f l = true <-> Forall (fun x => f x = true) l.
Proof. rewrite forallb_forall, Forall_forall. setoid_rewrite list_elem_of_In. done. Qed.

Lemma negb_orb_false a b : a || b = false -> negb a && negb b = true.
Proof. by destruct a, b. Qed.

Lemma decode_entry_wf k v cs e :
  Forall (fun r => forall e', r = Ok e' -> wf_expr e' = true) cs ->
  decode_entry k v cs = Ok e -> wf_expr e = true.
Proof.
  intros Hcs. unfold decode_entry.
  assert (Hch : forall es, decode_children k v cs = Ok es -> forallb wf_expr es = true).
  { intros es H. unfold decode_children in H. destruct v; simplify_eq/=; try done.
    apply collect_ok in H as ->. apply forallb_Forall'.
    rewrite Forall_fmap in Hcs. eapply Forall_impl; [exact Hcs|]. simpl. eauto. }
  destruct (seqb k "this"); [destruct v as [|[]| | | |]; naive_solver|].
  destruct (seqb k "computedUserset").
  { destruct v; try done. destruct (seqb s "") eqn:E; intros; simplify_eq/=. by rewrite E. }
  destruct (seqb k "tupleToUserset").
  { rewrite result_bind_ok. intros (t & _ & H). case_on H. by apply negb_orb_false. }
  destruct (seqb k "union"); [|destruct (seqb k "intersection"); [|done]];
    rewrite result_bind_ok; intros (es & Hes & H); case_on H;
    by apply andb_true_intro; split; [rewrite negb_true_iff|apply Hch].
Qed.

(** The last entry of a non-empty entry list. *)
Lemma UnmarshalJSON_obj kvs k v :
  last kvs = Some (k, v) ->
  UnmarshalJSON (JObj kvs) =
    if negb (key_count kvs =? 1)%nat then Err (KeyCount (key_count kvs))
    else decode_entry k v (match v with JArr l => UnmarshalJSON <$> l | _ => [] end).
Proof.
  intros Hlast. simpl. destruct (negb _); [done|].
  induction kvs as [|[k' v'] [|kv kvs] IH]; simplify_eq/=; auto.
Qed.

(** The induction principle that reaches the documents nested in an object. *)
Section json_rect.
Context (P : json -> Prop).
Context (Hatom : forall j, match j with JArr _ | JObj _ => False | _ => True end -> P j).
Context (Harr : forall l, Forall P l -> P (JArr l)).
Context (Hobj : forall kvs, Forall (fun kv => P kv.2) kvs -> P (JObj kvs)).

Fixpoint json_nested_ind (j : json) : P j :=
  match j with
  | JArr l => Harr l ((fix go (l : list json) : Forall P l :=
      match l with
      | [] => Forall_nil_2 P
      | x :: l' => Forall_cons_2 P x l' (json_nested_ind x) (go l')
      end) l)
  | JObj kvs => Hobj kvs ((fix go (kvs : list (string * json)) : Forall (fun kv => P kv.2) kvs :=
      match kvs with
      | [] => Forall_nil_2 _
      | (k, v) :: kvs' => Forall_cons_2 (fun kv => P kv.2) (k, v) kvs' (json_nested_ind v) (go kvs')
      end) kvs)
  | JNull => Hatom JNull I
  | JBool b => Hatom (JBool b) I
  | JNum n => Hatom (JNum n) I
  | JStr s => Hatom (JStr s) I
  end.
End json_rect.

Lemma UnmarshalJSON_wf_aux j :
  (forall e, UnmarshalJSON j = Ok e -> wf_expr e = true) /\
  (forall l, j = JArr l -> Forall (fun x => forall e, UnmarshalJSON x = Ok e -> wf_expr e = true) l).
Proof.
  induction j as [j Hj|l IH|kvs IH] using json_nested_ind.
  - destruct j; naive_solver.
  - split; [done|]. intros l' [= <-]. eapply Forall_impl; [exact IH|]. naive_solver.
  - split; [|done]. intros e He. destruct (last kvs) as [[k v]|] eqn:Hl.
    + rewrite (UnmarshalJSON_obj _ _ _ Hl) in He. case_on He.
      eapply decode_entry_wf; [|exact He].
      apply last_Some in Hl as [kvs' ->]. apply Forall_app in IH as [_ IH].
      apply Forall_singleton in IH as [_ IH]. simpl in IH.
      destruct v; auto. rewrite Forall_fmap. by apply IH.
    + apply last_None in Hl as ->. done.
Qed.

Lemma UnmarshalJSON_wf j e : UnmarshalJSON j = Ok e -> wf_expr e = true.
Proof. apply UnmarshalJSON_wf_aux. Qed.

Lemma encode_decode e : wf_expr e = true -> UnmarshalJSON (encode e) = Ok e.
Proof.
  assert (Hch : forall es, Forall (fun e => wf_expr e = true -> UnmarshalJSON (encode e) = Ok e) es ->
    forallb wf_expr es = true -> collect (UnmarshalJSON <$> (encode <$> es)) = Ok es).
  { intros es IH Hwf. apply collect_ok. apply forallb_Forall' in Hwf.
    rewrite <- list_fmap_compose. apply list_fmap_ext. intros i x Hx. simpl.
    rewrite Forall_lookup in IH, Hwf. eauto. }
  induction e as [|r|t|es IH|es IH] using Expr_nested_ind; simpl; intros Hwf; try done.
  - unfold decode_entry. simpl. apply negb_true_iff in Hwf. by rewrite Hwf.
  - destruct t as [ts cu]. unfold decode_entry. simpl in *. apply andb_true_iff in Hwf as [H1 H2].
    apply negb_true_iff in H1, H2. by rewrite H1, H2.
  - apply andb_true_iff in Hwf as [H1 H2]. apply negb_true_iff in H1.
    unfold decode_entry, decode_children. simpl. rewrite (Hch es IH H2). simpl. by rewrite H1.
  - apply andb_true_iff in Hwf as [H1 H2]. apply negb_true_iff in H1.
    unfold decode_entry, decode_children. simpl. rewrite (Hch es IH H2). simpl. by rewrite H1.
Qed.

Lemma decode_map_lookup {A} (decode : json -> result model_error A) j (m : gmap string A) k a :
  decode_map decode j = Ok m -> m !! k = Some a -> exists v, decode v = Ok a.
Proof.
  destruct j; simpl; try done; [naive_solver|].
  rewrite result_bind_ok. intros (vs & Hvs & [= <-]) Hk.
  apply elem_of_list_to_map_2 in Hk. rewrite elem_of_reverse in Hk.
  apply collect_ok in Hvs.
  assert (Hin : Ok (E:=model_error) (k, a) ∈ Ok <$> vs) by (apply list_elem_of_fmap; eauto).
  rewrite <- Hvs in Hin. apply list_elem_of_fmap in Hin as ([k' v] & H & _).
  symmetry in H. simpl in H. apply result_bind_ok in H as (a' & H1 & [= <- <-]). eauto.
Qed.

Lemma for_each_relation_ok f m :
  for_each_relation f m = Ok tt <->
  forall typ rels rel e, m !! typ = Some rels -> rels !! rel = Some e -> f typ rel e = Ok tt.
Proof.
  unfold for_each_relation. rewrite for_each_ok, Forall_forall. split.
  - intros H typ rels rel e Ht Hr. specialize (H (typ, rels)).
    rewrite elem_of_map_to_list, for_each_ok, Forall_forall in H.
    apply (H Ht (rel, e)). by apply elem_of_map_to_list.
  - intros H [typ rels] Ht%elem_of_map_to_list. apply for_each_ok, Forall_forall.
    intros [rel e] Hr%elem_of_map_to_list. simpl in *. eauto.
Qed.

Lemma for_each_forallb {E A} (f : A -> result E unit) (g : A -> bool) l :
  Forall (fun x => f x = Ok tt <-> g x = true) l ->
  for_each f l = Ok tt <-> forallb g l = true.
Proof.
  intros H. rewrite for_each_ok, forallb_Forall'. induction H; [split; auto|].
  rewrite !Forall_cons. naive_solver.
Qed.

Lemma validateSelfRefs_ok m typ rel rels e :
  m !! typ = Some rels ->
  validateSelfRefs m typ rel e = Ok tt <-> self_refs_ok rels e = true.
Proof.
  intros Ht. induction e as [|r|t|es IH|es IH] using Expr_nested_ind; simpl; try done;
    rewrite ?Ht; simpl; try by apply for_each_forallb.
  - destruct (rels !! r); simpl; naive_solver.
  - destruct (rels !! Tupleset t); simpl; naive_solver.
Qed.

Definition wf_model (m : Model) : Prop :=
  forall typ rels rel e, m !! typ = Some rels -> rels !! rel = Some e ->
    wf_expr e = true /\ self_refs_ok rels e = true.

Lemma LoadModel_inv data m :
  LoadModel data = Ok m -> m <> ∅ /\ wf_model m.
Proof.
  destruct data as [j|]; simpl; [|done].
  rewrite result_bind_ok. intros (m' & Hm & H). case_decide as Hsz; [done|].
  apply result_bind_ok in H as ([] & Hrefs & [= ->]). split.
  { intros ->. by apply Hsz. }
  intros typ rels rel e Ht Hr. split.
  - destruct (decode_map_lookup _ _ _ _ _ Hm Ht) as (v & Hv).
    destruct (decode_map_lookup _ _ _ _ _ Hv Hr) as (w & Hw).
    by eapply UnmarshalJSON_wf.
  - rewrite for_each_relation_ok in Hrefs. by eapply (validateSelfRefs_ok m typ rel), Hrefs.
Qed.

Lemma merge_entries_ok entries out m' :
  NoDup entries.*1 ->
  merge_entries entries out = Ok m' <->
  out ##ₘ list_to_map entries /\ m' = out ∪ list_to_map entries.
Proof.
  revert out. induction entries as [|[k v] entries IH]; intros out Hnd; simpl.
  - rewrite map_union_empty. split; [intros [= ->]|intros [_ ->]]; [|done].
    split; [apply map_disjoint_empty_r|done].
  - apply NoDup_cons in Hnd as [Hk Hnd]. simpl in Hk.
    assert (Hk' : (list_to_map entries : Model) !! k = None) by by apply not_elem_of_list_to_map_1.
    destruct (out !! k) eqn:Ho.
    + split; [done|]. intros [Hd _]. apply map_disjoint_insert_r in Hd as [? _]. congruence.
    + rewrite IH by done. rewrite map_disjoint_insert_l, map_disjoint_insert_r.
      rewrite <- insert_union_l, <- insert_union_r by done. naive_solver.
Qed.

Lemma Merge_ok m other m' :
  Merge m other = Ok m' <-> m ##ₘ other /\ m' = m ∪ other.
Proof.
  unfold Merge. rewrite merge_entries_ok by apply NoDup_fst_map_to_list.
  by rewrite list_to_map_to_list.
Qed.

Lemma Merge_err m other e :
  Merge m other = Err e -> exists k, e = DuplicateType k /\ is_Some (m !! k) /\ is_Some (other !! k).
Proof.
  unfold Merge. assert (H : forall en out, NoDup en.*1 -> (forall k v, (k, v) ∈ en -> other !! k = Some v) ->
    (forall k v, (k, v) ∈ en -> out !! k = m !! k) -> merge_entries en out = Err e ->
    exists k, e = DuplicateType k /\ is_Some (m !! k) /\ is_Some (other !! k)).
  { induction en as [|[k v] en IH]; simpl; intros out Hnd Hin Ho H; [done|].
    apply NoDup_cons in Hnd as [Hk Hnd].
    destruct (out !! k) eqn:Hok.
    - simplify_eq/=. exists k. rewrite <- (Ho k v), (Hin k v), Hok by left. eauto.
    - apply IH in H; auto.
      + intros k' v' ?. apply Hin. by right.
      + intros k' v' Hkv. rewrite lookup_insert_ne; [apply (Ho k' v'); by right|].
        intros <-. apply Hk. apply list_elem_of_fmap. by exists (k, v'). }
  intros He. eapply H; [apply NoDup_fst_map_to_list| | |exact He].
  - by intros k v ?%elem_of_map_to_list.
  - done.
Qed.

Lemma elem_of_definedRelations m r :
  r ∈ definedRelations m <-> exists typ rels, m !! typ = Some rels /\ is_Some (rels !! r).
Proof.
  unfold definedRelations. revert r.
  apply (map_fold_weak_ind (fun acc m => forall r, r ∈ acc <->
    exists typ rels, m !! typ = Some rels /\ is_Some (rels !! r))).
  - intros r. split; [set_solver|]. intros (? & ? & H & _). by rewrite lookup_empty in H.
  - intros t rels m' acc Ht IH r. rewrite elem_of_union, elem_of_dom, IH. split.
    + intros [H|(t' & rels' & Hm & Hr)].
      * exists t, rels. by rewrite lookup_insert_eq.
      * exists t', rels'. rewrite lookup_insert_ne by congruence. done.
    + intros (t' & rels' & Hm & Hr). rewrite lookup_insert in Hm. case_decide; naive_solver.
Qed.

(** Every tupleToUserset target of [e] is a relation of some type of [m]. *)
Fixpoint targets_ok (m : Model) (e : Expr) : Prop :=
  match e with
  | kindTupleToUserset t => exists typ rels, m !! typ = Some rels /\ is_Some (rels !! ComputedUserset t)
  | kindUnion es | kindIntersection es => (fix all (es : list Expr) : Prop :=
      match es with [] => True | e' :: es' => targets_ok m e' /\ all es' end) es
  | _ => True
  end.

Lemma walkTargets_ok m typ rel e :
  walkTargets typ rel (definedRelations m) e = Ok tt <-> targets_ok m e.
Proof.
  induction e as [|r|t|es IH|es IH] using Expr_nested_ind; simpl; try done.
  - case_decide as H; rewrite elem_of_definedRelations in H; naive_solver.
  - induction IH as [|e es He Hes IH]; simpl; [done|].
    rewrite result_bind_ok, <- IH, <- He. split; [intros ([] & ? & ?)|intros [? ?]]; eauto.
  - induction IH as [|e es He Hes IH]; simpl; [done|].
    rewrite result_bind_ok, <- IH, <- He. split; [intros ([] & ? & ?)|intros [? ?]]; eauto.
Qed.

Lemma ValidateTupleToUsersetTargets_ok m :
  ValidateTupleToUsersetTargets m = Ok tt <->
  forall typ rels rel e, m !! typ = Some rels -> rels !! rel = Some e -> targets_ok m e.
Proof.
  unfold ValidateTupleToUsersetTargets. rewrite for_each_relation_ok.
  by setoid_rewrite walkTargets_ok.
Qed.

Lemma ValidateCompanyModuleAnchor_ok m :
  ValidateCompanyModuleAnchor m = Ok tt <->
  forall typ rels, m !! typ = Some rels -> rels !! "company_module" = Some kindThis.
Proof.
  unfold ValidateCompanyModuleAnchor. rewrite for_each_ok, Forall_forall. split.
  - intros H typ rels Ht. specialize (H (typ, rels)). rewrite elem_of_map_to_list in H.
    specialize (H Ht). simpl in H. destruct (rels !! "company_module") as [[]|]; simplify_eq/=; done.
  - intros H [typ rels] Ht%elem_of_map_to_list. simpl. by rewrite (H _ _ Ht).
Qed.

(** ** Properties *)

(** C5. A model that loads is well formed: it is not empty, every computedUserset
    and every tupleset names a relation of the same object type, unions have a
    child, intersections at least two, and no referenced name is empty, at any
    nesting depth. *)
Theorem LoadModel_wf data m : LoadModel data = Ok m -> m <> ∅ /\ wf_model m.
Proof. apply LoadModel_inv. Qed.

Definition demoDocument : json :=
  JObj [("doc", JObj [("owner", JObj [("this", JBool true)]);
    ("viewer", JObj [("union", JArr [JObj [("this", JBool true)]; JObj [("computedUserset", JStr "owner")]])])])].

Lemma LoadModel_wf_witness :
  match LoadModel (Some demoDocument) with
  | Ok m => m <> ∅ /\ wf_model m
  | Err _ => False
  end.
Proof.
  assert (Hok : is_ok (LoadModel (Some demoDocument)) = true) by (vm_compute; reflexivity).
  destruct (LoadModel (Some demoDocument)) as [m|e] eqn:E; [|discriminate Hok].
  exact (LoadModel_wf _ m E).
Defined.

(** C6. Decoding inverts encoding exactly on the expressions of the subset: an
    expression survives the round trip through JSON if and only if it is one the
    subset wall lets through. *)
Theorem UnmarshalJSON_roundtrip e : wf_expr e = true <-> UnmarshalJSON (encode e) = Ok e.
Proof. split; [apply encode_decode|apply UnmarshalJSON_wf]. Qed.

(** Merging two models unions them if no type is declared twice and names a
    doubly declared type otherwise; a merge that succeeds gives the same model in
    either order, so the effective model does not depend on the order fragments
    are read in. *)
Theorem Merge_spec m other :
  match Merge m other with
  | Ok m' => m ##ₘ other /\ m' = m ∪ other /\ Merge other m = Ok m'
  | Err e => exists k, e = DuplicateType k /\ is_Some (m !! k) /\ is_Some (other !! k)
  end.
Proof.
  destruct (Merge m other) as [m'|e] eqn:H; [|by apply Merge_err].
  apply Merge_ok in H as [Hd ->]. split; [done|]. split; [done|].
  apply Merge_ok. split; [done|]. by apply map_union_comm.
Qed.
