(* ===== verification/BaseModel.v ===== *)
(** * The platform base model

    internal/authz/engine/model.json as a document, and base.go, which embeds and
    loads it: [BaseModel] is what [LoadModel] makes of the document, and the
    document does load, so the package's init panic is never reached. *)

From stdpp Require Import base gmap strings list.
From S2P Require Import Prelude Model.

Declare Scope model_scope.
Local Definition this : json := JObj [("this", JBool true)].
Local Definition cu (r : string) : json := JObj [("computedUserset", JStr r)].
Local Definition any (l : list json) : json := JObj [("union", JArr l)].
Local Notation "r 'from' ts" :=
  (JObj [("tupleToUserset", JObj [("tupleset", JStr ts); ("computedUserset", JStr r)])])
  (at level 9, ts at level 8) : model_scope.
Local Open Scope model_scope.

(** model.json *)
Definition modelJSON : json := JObj [
  ("user", JObj []);
  ("system", JObj [
    ("superadmin", this)]);
  ("module", JObj [
    ("system", this);
    ("admin", any [this; "superadmin" from "system"]);
    ("editor", any [this; cu "admin"])]);
  ("company", JObj [
    ("system", this);
    ("admin", any [this; "superadmin" from "system"]);
    ("viewer", any [this; cu "admin"]);
    ("member", this)]);
  ("company_module", JObj [
    ("system", this);
    ("company", this);
    ("member", any [this; "member" from "company"; cu "admin"]);
    ("admin", any [this; "admin" from "company"; "superadmin" from "system"]);
    ("editor", any [this; cu "admin"]);
    ("submitter", this);
    ("approver", this);
    ("viewer", any [this; cu "editor"; cu "submitter"; cu "approver"; cu "admin"])]);
  ("module_role_binding", JObj [
    ("system", this);
    ("company_module", this);
    ("member", this);
    ("admin", any ["admin" from "company_module"; "superadmin" from "system"])]);
  ("access_bundle", JObj [
    ("system", this);
    ("company_module", this);
    ("manager", this);
    ("member", this);
    ("admin", any ["admin" from "company_module"; "superadmin" from "system"])]);
  ("access_segment", JObj [
    ("system", this);
    ("company_module", this);
    ("bundle", this);
    ("viewer", this);
    ("editor", this);
    ("owner", this);
    ("admin", any [this; "admin" from "company_module"; "superadmin" from "system"])]);
  ("member_directory", JObj [
    ("system", this);
    ("company_module", this);
    ("admin", any ["admin" from "company_module"; "superadmin" from "system"]);
    ("owner", any [this; cu "admin"]);
    ("editor", any [this; cu "owner"; cu "admin"; "editor" from "company_module"]);
    ("viewer", any [this; cu "editor"; cu "owner"; cu "admin"]);
    ("create", any [this; cu "admin"]);
    ("import", any [this; cu "admin"]);
    ("export", any [this; cu "admin"])]);
  ("member", JObj [
    ("system", this);
    ("company_module", this);
    ("directory", this);
    ("mapped_user", this);
    ("admin", any ["admin" from "company_module"; "superadmin" from "system"]);
    ("owner", any [this; "owner" from "directory"; cu "admin"]);
    ("editor", any [this; cu "owner"; "editor" from "directory"; cu "admin"; "editor" from "company_module"]);
    ("viewer", any [this; cu "editor"; cu "owner"; "viewer" from "directory"; cu "admin"])]);
  ("project_directory", JObj [
    ("system", this);
    ("company_module", this);
    ("admin", any ["admin" from "company_module"; "superadmin" from "system"]);
    ("owner", any [this; cu "admin"]);
    ("editor", any [this; cu "owner"; cu "admin"; "editor" from "company_module"]);
    ("viewer", any [this; cu "editor"; cu "owner"; cu "admin"]);
    ("create", any [this; cu "admin"]);
    ("import", any [this; cu "admin"]);
    ("export", any [this; cu "admin"])]);
  ("project", JObj [
    ("system", this);
    ("company_module", this);
    ("directory", this);
    ("admin", any ["admin" from "company_module"; "superadmin" from "system"]);
    ("owner", any ["owner" from "directory"; cu "admin"]);
    ("editor", any ["editor" from "directory"; cu "owner"; cu "admin"; "editor" from "company_module"]);
    ("viewer", any [cu "editor"; "viewer" from "directory"; cu "admin"]);
    ("can_assign", any [cu "owner"; cu "admin"])]);
  ("timesheet_entry", JObj [
    ("system", this);
    ("company_module", this);
    ("member", this);
    ("project", this);
    ("admin", any [this; "admin" from "company_module"; "superadmin" from "system"]);
    ("owner", any [this; "mapped_user" from "member"; cu "admin"]);
    ("viewer", any [this; "mapped_user" from "member"; "viewer" from "project"; cu "admin"]);
    ("editor", any [this; "mapped_user" from "member"; cu "admin"; "editor" from "company_module"]);
    ("can_edit", any [cu "editor"; cu "owner"])]);
  ("submission", JObj [
    ("system", this);
    ("company_module", this);
    ("member", this);
    ("admin", any [this; "admin" from "company_module"; "superadmin" from "system"]);
    ("owner", any [this; "mapped_user" from "member"; cu "admin"]);
    ("viewer", any [this; "mapped_user" from "member"; cu "admin"; "editor" from "company_module"])]);
  ("position", JObj [
    ("company", this);
    ("holder", this)]);
  ("group", JObj [
    ("company", this);
    ("member", this)]);
  ("document", JObj [
    ("system", this);
    ("member", this);
    ("project", this);
    ("timesheet_entry", this);
    ("submission", this);
    ("admin", any [this; "admin" from "member"; "admin" from "project"; "admin" from "timesheet_entry"; "admin" from "submission"; "superadmin" from "system"]);
    ("owner", any [this; "owner" from "member"; "owner" from "project"; "owner" from "timesheet_entry"; "owner" from "submission"; cu "admin"]);
    ("editor", any [this; "editor" from "member"; "editor" from "project"; "editor" from "timesheet_entry"; cu "owner"; cu "admin"]);
    ("viewer", any [this; "viewer" from "member"; "viewer" from "project"; "viewer" from "timesheet_entry"; "viewer" from "submission"; cu "editor"; cu "owner"; cu "admin"]);
    ("shared_viewer", this)])].

(** [mustLoadBaseModel] and [BaseModel]; [None] is the init panic. *)
Definition mustLoadBaseModel : option Model :=
  match LoadModel (Some modelJSON) with
  | Ok m => Some m
  | Err _ => None
  end.

Definition BaseModel : Model := default ∅ mustLoadBaseModel.

(** [IsBaseType] *)
Definition IsBaseType (typ : string) : bool := bool_decide (is_Some (BaseModel !! typ)).

Lemma BaseModel_loads : mustLoadBaseModel = Some BaseModel.
Proof.
  unfold BaseModel. assert (H : bool_decide (is_Some mustLoadBaseModel) = true) by (vm_compute; reflexivity).
  apply bool_decide_eq_true in H as [m ->]. done.
Qed.

(** Proofs use the base model through lookups; only evaluation unfolds it. *)
#[global] Opaque BaseModel.
