(* ===== verification/Tuple.v ===== *)
(** * Relation tuples

    The rows of authz.tuple (migrations/authz/0002_authz_tables.sql): six text
    columns under a primary key that spans all of them, so the table is a finite
    set of tuples. *)

From stdpp Require Import base gmap strings list.
From S2P Require Import Prelude.

(** internal/authz/store.Tuple *)
Record Tuple := mkTuple {
  ObjectType : string;
  ObjectID : string;
  Relation : string;
  SubjectType : string;
  SubjectID : string;
  SubjectRelation : string
}.

#[export] Instance Tuple_eq_dec : EqDecision Tuple.
Proof. solve_decision. Defined.

#[export] Instance Tuple_countable : Countable Tuple.
Proof.
  refine (inj_countable'
    (fun t => (ObjectType t, ObjectID t, Relation t, SubjectType t, SubjectID t, SubjectRelation t))
    (fun '(a, b, c, d, e, f) => mkTuple a b c d e f) _).
  by intros [].
Defined.

Abbreviation Table := (gset Tuple).

(** engine.tupleRow: the subject columns of a row. *)
Record tupleRow := mkRow {
  subjectType : string;
  subjectID : string;
  subjectRelation : string
}.

Definition row_of (t : Tuple) : tupleRow :=
  mkRow (SubjectType t) (SubjectID t) (SubjectRelation t).

(** The tuples of one (object, relation), the lookup shape of sqlTupleRows. *)
Definition on_object (t i r : string) (tp : Tuple) : Prop :=
  ObjectType tp = t /\ ObjectID tp = i /\ Relation tp = r.

#[export] Instance on_object_dec t i r tp : Decision (on_object t i r tp).
Proof. unfold on_object. apply _. Defined.

(** What SELECT subject_type, subject_id, subject_relation ... returns, in some
    order. *)
Definition tuple_rows (tbl : Table) (t i r : string) : list tupleRow :=
  row_of <$> elements (filter (on_object t i r) tbl).

Lemma elem_of_tuple_rows tbl t i r row :
  row ∈ tuple_rows tbl t i r <->
  mkTuple t i r (subjectType row) (subjectID row) (subjectRelation row) ∈ tbl.
Proof.
  unfold tuple_rows. rewrite list_elem_of_fmap. setoid_rewrite elem_of_elements.
  setoid_rewrite elem_of_filter. unfold on_object, row_of. split.
  - by intros ([] & -> & (<- & <- & <-) & H).
  - destruct row. intros H. eexists. split; [|split; [|exact H]]; done.
Qed.

(** The text columns hold no NUL character (PostgreSQL refuses one in text). *)
Definition nul_free (s : string) : Prop := has_char NUL s = false.

Definition clean_table (tbl : Table) : Prop :=
  forall tp, tp ∈ tbl -> nul_free (SubjectType tp) /\ nul_free (SubjectID tp).
