(* ===== verification/EvalSpec.v ===== *)
(** * What a relation check means

    The declarative reading of the model language: [grants] is the least relation
    closed under the five constructs over the rows of authz.tuple.  It has no
    memo, no in-progress set, no depth fence and no errors.  [holdsN V n] is its
    n-round approximation with the nodes of [V] cut out; it connects the least
    relation to the evaluator, whose in-progress set cuts the nodes on the current
    path. *)

From stdpp Require Import base gmap strings list.
From S2P Require Import Prelude Model Tuple Eval.

Abbreviation node := (string * string * string)%type.

Section spec.
Context (model : Model) (tbl : Table) (subjType subjID companyID : string).

Definition rel_def (t r : string) : option Expr := model !! t ≫= (.!! r).

(** Whether a userset subject counts in a check bound to [companyID]: positions
    and groups carry their company, members are listed by it, any other subject
    type is not scoped.  No company: every subject counts. *)
Definition in_company (t i : string) : bool :=
  if seqb companyID "" then true
  else if seqb t "position" || seqb t "group" then
    bool_decide (mkTuple t i "company" "company" companyID "" ∈ tbl)
  else if seqb t "member" then
    bool_decide (mkTuple "company" companyID "member" "member" i "mapped_user" ∈ tbl)
  else true.

Inductive grants : string -> string -> string -> Prop :=
| grants_def t i r e :
    rel_def t r = Some e -> satisfies t i r e -> grants t i r
with satisfies : string -> string -> string -> Expr -> Prop :=
| sat_direct t i r :
    mkRow subjType subjID "" ∈ tuple_rows tbl t i r -> satisfies t i r kindThis
| sat_userset t i r row :
    row ∈ tuple_rows tbl t i r -> subjectRelation row <> "" ->
    in_company (subjectType row) (subjectID row) = true ->
    grants (subjectType row) (subjectID row) (subjectRelation row) ->
    satisfies t i r kindThis
| sat_computed t i r r' :
    grants t i r' -> satisfies t i r (kindComputedUserset r')
| sat_tuple_to_userset t i r ttu row :
    row ∈ tuple_rows tbl t i (Tupleset ttu) -> subjectRelation row = "" ->
    grants (subjectType row) (subjectID row) (ComputedUserset ttu) ->
    satisfies t i r (kindTupleToUserset ttu)
| sat_union t i r es e :
    e ∈ es -> satisfies t i r e -> satisfies t i r (kindUnion es)
| sat_intersection t i r es :
    (forall e, e ∈ es -> satisfies t i r e) -> satisfies t i r (kindIntersection es).

(** ** Satisfaction relative to what the referenced nodes answer *)

Definition row_this (P : string -> string -> string -> Prop) (row : tupleRow) : Prop :=
  if seqb (subjectRelation row) ""
  then subjectType row = subjType /\ subjectID row = subjID
  else in_company (subjectType row) (subjectID row) = true /\
       P (subjectType row) (subjectID row) (subjectRelation row).

Definition row_ttu (P : string -> string -> string -> Prop) (cu : string) (row : tupleRow) : Prop :=
  subjectRelation row = "" /\ P (subjectType row) (subjectID row) cu.

Fixpoint satP (P : string -> string -> string -> Prop) (t i r : string) (e : Expr) : Prop :=
  match e with
  | kindThis => exists row, row ∈ tuple_rows tbl t i r /\ row_this P row
  | kindComputedUserset r' => P t i r'
  | kindTupleToUserset ttu =>
      exists row, row ∈ tuple_rows tbl t i (Tupleset ttu) /\ row_ttu P (ComputedUserset ttu) row
  | kindUnion es => (fix any (es : list Expr) : Prop :=
      match es with [] => False | e' :: es' => satP P t i r e' \/ any es' end) es
  | kindIntersection es => (fix all (es : list Expr) : Prop :=
      match es with [] => True | e' :: es' => satP P t i r e' /\ all es' end) es
  end.

Lemma row_this_mono (P Q : string -> string -> string -> Prop) row :
  (forall t i r, P t i r -> Q t i r) -> row_this P row -> row_this Q row.
Proof. unfold row_this. intros H. case_match; naive_solver. Qed.

Lemma satP_union P t i r es : satP P t i r (kindUnion es) <-> exists e, e ∈ es /\ satP P t i r e.
Proof.
  simpl. induction es as [|e es IH]; [split; [done|]|].
  - intros (e & He & _). by apply not_elem_of_nil in He.
  - rewrite IH. setoid_rewrite elem_of_cons. naive_solver.
Qed.

Lemma satP_intersection P t i r es :
  satP P t i r (kindIntersection es) <-> forall e, e ∈ es -> satP P t i r e.
Proof.
  simpl. induction es as [|e es IH]; [split; [|done]|].
  - intros _ e He. by apply not_elem_of_nil in He.
  - rewrite IH. setoid_rewrite elem_of_cons. naive_solver.
Qed.

Lemma satP_mono (P Q : string -> string -> string -> Prop) t i r e :
  (forall t i r, P t i r -> Q t i r) -> satP P t i r e -> satP Q t i r e.
Proof.
  intros HPQ. induction e as [|r'|ttu|es IH|es IH] using Expr_nested_ind.
  - intros (row & ? & ?). exists row. eauto using row_this_mono.
  - apply HPQ.
  - intros (row & ? & ? & ?). exists row. unfold row_ttu. eauto.
  - rewrite !satP_union. rewrite Forall_forall in IH. naive_solver.
  - rewrite !satP_intersection. rewrite Forall_forall in IH. naive_solver.
Qed.

(** ** Rounds *)

Fixpoint holdsN (V : gset node) (n : nat) (t i r : string) : Prop :=
  match n with
  | O => False
  | S n' => (t, i, r) ∉ V /\ exists e, rel_def t r = Some e /\ satP (holdsN V n') t i r e
  end.

Definition holds (V : gset node) (t i r : string) : Prop := exists n, holdsN V n t i r.

Lemma holdsN_S V n t i r : holdsN V n t i r -> holdsN V (S n) t i r.
Proof.
  revert t i r. induction n as [|n IH]; intros t i r; [done|].
  intros (HV & e & He & Hs). split; [done|]. exists e. split; [done|].
  eapply satP_mono; [|exact Hs]. apply IH.
Qed.

Lemma holdsN_le V n m t i r : (n <= m)%nat -> holdsN V n t i r -> holdsN V m t i r.
Proof. induction 1; auto using holdsN_S. Qed.

Lemma holdsN_antitone V V' n t i r : V ⊆ V' -> holdsN V' n t i r -> holdsN V n t i r.
Proof.
  intros HV. revert t i r. induction n as [|n IH]; intros t i r; [done|].
  intros (Hn & e & He & Hs). split; [set_solver|]. exists e. split; [done|].
  eapply satP_mono; [|exact Hs]. apply IH.
Qed.

Lemma holds_antitone V V' t i r : V ⊆ V' -> holds V' t i r -> holds V t i r.
Proof. intros HV [n Hn]. exists n. by eapply holdsN_antitone. Qed.

(** Finitely many nodes support a satisfied expression, so a bounded number of
    rounds does. *)
Lemma satP_compact V t i r e :
  satP (holds V) t i r e -> exists n, satP (holdsN V n) t i r e.
Proof.
  induction e as [|r'|ttu|es IH|es IH] using Expr_nested_ind.
  - intros (row & Hin & H). unfold row_this in H. destruct (seqb (subjectRelation row) "") eqn:E.
    + exists 0, row. unfold row_this. by rewrite E.
    + destruct H as [Hc [n Hn]]. exists n, row. unfold row_this. by rewrite E.
  - done.
  - intros (row & Hin & Hr & [n Hn]). exists n, row. done.
  - rewrite satP_union. intros (e & Hin & H). rewrite Forall_forall in IH.
    destruct (IH e Hin H) as [n Hn]. exists n. apply satP_union. eauto.
  - rewrite satP_intersection. intros H.
    assert (exists n, forall e, e ∈ es -> satP (holdsN V n) t i r e) as [n Hn].
    { induction IH as [|e es He _ IHes]; [exists 0; intros e He; by apply not_elem_of_nil in He|].
      destruct (He ltac:(apply H; left)) as [n1 H1].
      destruct IHes as [n2 H2]; [intros; apply H; by right|].
      exists (n1 `max` n2). intros e' [->|He']%elem_of_cons.
      - eapply satP_mono; [|exact H1]. intros. eapply holdsN_le; [|done]. lia.
      - eapply satP_mono; [|exact (H2 _ He')]. intros. eapply holdsN_le; [|done]. lia. }
    exists n. by apply satP_intersection.
Qed.

Lemma holds_unfold V t i r :
  holds V t i r <-> (t, i, r) ∉ V /\ exists e, rel_def t r = Some e /\ satP (holds V) t i r e.
Proof.
  split.
  - intros [[|n] Hn]; [done|]. destruct Hn as (HV & e & He & Hs). split; [done|].
    exists e. split; [done|]. eapply satP_mono; [|exact Hs]. intros. by exists n.
  - intros (HV & e & He & [n Hn]%satP_compact). exists (S n). split; eauto.
Qed.

(** ** A node never needs itself

    A node that holds with [V] cut out has its defining expression satisfied with
    the node itself cut out as well: the first round that reaches it uses only
    nodes reached before. *)

Lemma holdsN_avoid V n t i r t' i' r' :
  ~ holdsN V n t i r -> holdsN V n t' i' r' -> holdsN ({[(t, i, r)]} ∪ V) n t' i' r'.
Proof.
  revert t' i' r'. induction n as [|n IH]; intros t' i' r' Hno; [done|].
  intros Hx. pose proof Hx as (HV & e & He & Hs). split.
  - rewrite not_elem_of_union, not_elem_of_singleton. split; [|done]. by intros [= -> -> ->].
  - exists e. split; [done|]. eapply satP_mono; [|exact Hs]. intros. apply IH; [|done].
    by intros ?%holdsN_S.
Qed.

#[local] Instance row_this_dec P row :
  (forall t i r, Decision (P t i r)) -> Decision (row_this P row).
Proof. intros HP. unfold row_this. destruct (seqb _ _); apply _. Defined.

#[local] Instance row_ttu_dec P cu row :
  (forall t i r, Decision (P t i r)) -> Decision (row_ttu P cu row).
Proof. intros HP. unfold row_ttu. apply _. Defined.

Lemma satP_dec (P : string -> string -> string -> Prop) t i r e :
  (forall t i r, Decision (P t i r)) -> Decision (satP P t i r e).
Proof.
  intros HP. revert e. fix go 1. intros [|r'|ttu|es|es]; simpl.
  - destruct (decide (Exists (row_this P) (tuple_rows tbl t i r))) as [H|H];
      rewrite Exists_exists in H; [left; exact H|right; exact H].
  - apply HP.
  - destruct (decide (Exists (row_ttu P (ComputedUserset ttu)) (tuple_rows tbl t i (Tupleset ttu)))) as [H|H];
      rewrite Exists_exists in H; [left; exact H|right; exact H].
  - revert es. fix loop 1. intros [|e es]; [right; by intros []|].
    destruct (go e); [left; simpl; by left|]. destruct (loop es); [left; simpl; by right|]. right; simpl; naive_solver.
  - revert es. fix loop 1. intros [|e es]; [left; exact I|].
    destruct (go e); [|right; simpl; naive_solver]. destruct (loop es); [left; simpl; by split|]. right; simpl; naive_solver.
Defined.

#[export] Instance holdsN_dec V n t i r : Decision (holdsN V n t i r).
Proof.
  revert t i r. induction n as [|n IH]; intros t i r; simpl; [right; by intros []|].
  destruct (decide ((t, i, r) ∈ V)); [right; naive_solver|].
  destruct (rel_def t r) as [e|] eqn:He; [|right; naive_solver].
  destruct (satP_dec (holdsN V n) t i r e IH); [left|right]; naive_solver.
Defined.

Lemma holds_remove V t i r :
  holds V t i r -> exists e, rel_def t r = Some e /\ satP (holds ({[(t, i, r)]} ∪ V)) t i r e.
Proof.
  intros [n Hn].
  assert (exists n, holdsN V (S n) t i r /\ ~ holdsN V n t i r) as (k & Hk & Hno).
  { induction n as [|n IH]; [done|]. destruct (decide (holdsN V n t i r)); [by apply IH|by exists n]. }
  destruct Hk as (_ & e & He & Hs). exists e. split; [done|].
  eapply satP_mono; [|exact Hs]. intros. exists k. by apply holdsN_avoid.
Qed.

(** ** The two readings agree *)

Lemma satisfies_satP t i r e : satisfies t i r e <-> satP grants t i r e.
Proof.
  split.
  - induction e as [|r'|ttu|es IH|es IH] using Expr_nested_ind; intros H; inversion H; subst.
    + eexists. split; [done|]. unfold row_this. by simpl.
    + exists row. split; [done|]. unfold row_this. by rewrite (proj2 (seqb_false _ _)).
    + done.
    + exists row. done.
    + apply satP_union. rewrite Forall_forall in IH. eauto.
    + apply satP_intersection. rewrite Forall_forall in IH. eauto.
  - induction e as [|r'|ttu|es IH|es IH] using Expr_nested_ind.
    + intros (row & Hin & H). unfold row_this in H. destruct (seqb (subjectRelation row) "") eqn:E.
      * apply seqb_true in E. destruct row as [a b c], H as [H1 H2]; simpl in *; subst. by apply sat_direct.
      * apply seqb_false in E. destruct H. by eapply sat_userset.
    + apply sat_computed.
    + intros (row & Hin & H1 & H2). by eapply sat_tuple_to_userset.
    + rewrite satP_union. intros (e & He & Hs). rewrite Forall_forall in IH.
      eapply sat_union; [done|]. by apply IH.
    + rewrite satP_intersection. intros Hs. rewrite Forall_forall in IH.
      apply sat_intersection. intros e He. apply IH; auto.
Qed.

Lemma holdsN_grants n t i r : holdsN ∅ n t i r -> grants t i r.
Proof.
  revert t i r. induction n as [|n IH]; intros t i r; [done|].
  intros (_ & e & He & Hs). eapply grants_def; [exact He|].
  apply satisfies_satP. eapply satP_mono; [|exact Hs]. apply IH.
Qed.

Lemma grants_holds t i r : grants t i r -> holds ∅ t i r
with satisfies_holds t i r e : satisfies t i r e -> satP (holds ∅) t i r e.
Proof.
  - intros [t' i' r' e He Hs]. apply holds_unfold. split; [set_solver|]. exists e. auto.
  - intros H; destruct H as [t i r Hin|t i r row Hin Hr Hc Hg|t i r r' Hg|t i r ttu row Hin Hr Hg|t i r es e Hin Hs|t i r es Hs].
    + eexists. split; [done|]. unfold row_this. by simpl.
    + exists row. split; [done|]. unfold row_this. rewrite (proj2 (seqb_false _ _)) by done. auto.
    + simpl. auto.
    + exists row. split; [done|]. split; auto.
    + apply satP_union. eauto.
    + apply satP_intersection. eauto.
Qed.

Lemma grants_iff_holds t i r : grants t i r <-> holds ∅ t i r.
Proof. split; [apply grants_holds|]. intros [n Hn]. by eapply holdsN_grants. Qed.
End spec.
