(* ===== verification/EvalProofs.v ===== *)
(** * The evaluator computes the declared relation

    A weakest-precondition calculus for [prog], whose rule for a memo lookup
    assumes only that stored entries are true of the table and whose rule for a
    query assumes only that the rows come back in some order, and the proof that
    [check] meets its specification under it.  Nothing here depends on who else
    writes the memo, so the same result serves one check and a concurrent batch. *)

From stdpp Require Import base gmap strings list.
From S2P Require Import Prelude Model Tuple Eval EvalSpec.

Lemma memoKey_inj t i r t' i' r' :
  nul_free t -> nul_free i -> nul_free t' -> nul_free i' ->
  memoKey t i r = memoKey t' i' r' -> (t, i, r) = (t', i', r').
Proof.
  unfold memoKey. intros Ht Hi Ht' Hi' H.
  apply app_sep_inj in H as [-> H]; [|done..].
  apply app_sep_inj in H as [-> ->]; done.
Qed.

(** ** Program logic *)

Section wp.
Context (tbl : Table) (may_fail : Prop) (valid : string -> bool -> Prop).

(** How the database may answer a query: the rows of the table in some order, or,
    if [may_fail], a failure. *)
Definition answers (t i r : string) (res : result check_error (list tupleRow)) : Prop :=
  match res with
  | Ok rows => rows ≡ₚ tuple_rows tbl t i r
  | Err e => e = QUERY_FAILED /\ may_fail
  end.

Fixpoint wp {A} (p : prog A) (Q : A -> Prop) : Prop :=
  match p with
  | Ret a => Q a
  | Load key k => forall o, (forall v, o = Some v -> valid key v) -> wp (k o) Q
  | Store key v k => valid key v /\ wp k Q
  | Fetch t i r k => forall res, answers t i r res -> wp (k res) Q
  end.

Lemma wp_mono {A} (p : prog A) (Q Q' : A -> Prop) :
  (forall a, Q a -> Q' a) -> wp p Q -> wp p Q'.
Proof. intros HQ. induction p; simpl; naive_solver. Qed.

Lemma wp_bind {A B} (p : prog A) (f : A -> prog B) Q :
  wp p (fun a => wp (f a) Q) -> wp (bind p f) Q.
Proof. induction p; simpl; naive_solver. Qed.

Lemma wp_run {A} (db : Database) (p : prog A) Q memo q :
  (forall n t i r, answers t i r (db n t i r)) ->
  (forall key v, memo !! key = Some v -> valid key v) ->
  wp p Q -> Q (run db memo q p).
Proof.
  intros Hdb. revert memo q. induction p as [a|key k IH|key v k IH|t i r k IH]; intros memo q Hm Hp; simpl in *.
  - done.
  - apply IH; auto.
  - destruct Hp as [Hv Hp]. apply IH; [|done]. intros key' v' Hk.
    rewrite lookup_insert in Hk. case_decide; naive_solver.
  - apply IH; auto.
Qed.
End wp.

Section correctness.
Context (model : Model) (tbl : Table) (subjType subjID companyID : string).
Context (may_fail : Prop).
Context (Hclean : clean_table tbl).

Abbreviation Grants := (grants model tbl subjType subjID companyID).
Abbreviation Holds := (holds model tbl subjType subjID companyID).
Abbreviation InCompany := (in_company tbl companyID).
Abbreviation RowThis := (row_this tbl subjType subjID companyID).
Abbreviation Sat := (satP tbl subjType subjID companyID).

(** A memo entry is right for the nodes it stands for. *)
Definition memo_valid (key : string) (v : bool) : Prop :=
  forall t i r, nul_free t -> nul_free i -> memoKey t i r = key -> (v = true <-> Grants t i r).

Abbreviation WP := (wp tbl may_fail memo_valid).

(** What an evaluation that started in [st] may end with.  [yes] is the question
    asked, [yesV] the same question with the in-progress nodes cut out.  A false
    with no cut beneath it is definitive; under a cut it only says that the
    answer does not follow without the in-progress nodes. *)
Definition post (st : evalState) (yes yesV safe : Prop) (o : outcome) : Prop :=
  visiting o.1 = visiting st /\ (cuts st <= cuts o.1)%nat /\
  match o.2 with
  | Ok true => yes
  | Ok false => (cuts o.1 = cuts st -> ~ yes) /\ ~ yesV
  | Err e => e <> OUT_OF_FUEL /\ (safe -> e = QUERY_FAILED /\ may_fail)
  end.

Lemma post_weaken st (y y' v v' s s' : Prop) o :
  (y <-> y') -> (v' -> v) -> (s' -> s) -> post st y v s o -> post st y' v' s' o.
Proof. unfold post. destruct o as [st' [[]|e]]; naive_solver. Qed.

Lemma post_query_failed st (y v s : Prop) : may_fail -> post st y v s (st, Err QUERY_FAILED).
Proof. unfold post. simpl. auto. Qed.

Lemma post_or st st' (y1 v1 s1 y2 v2 s2 : Prop) o :
  post st y1 v1 s1 (st', Ok false) -> post st' y2 v2 s2 o ->
  post st (y1 \/ y2) (v1 \/ v2) (s1 /\ s2) o.
Proof.
  unfold post; simpl. intros (H1 & H2 & H3 & H4) (G1 & G2 & G3).
  split; [congruence|]. split; [lia|]. destruct o as [st'' [[]|e]]; simpl in *.
  - by right.
  - destruct G3 as [G3 G4]. split; [|naive_solver]. intros Hc [Hy|Hy]; [apply H3|apply G3]; auto; lia.
  - naive_solver.
Qed.

Lemma post_or_stop st st' (y1 v1 s1 y2 v2 s2 : Prop) res :
  res <> Ok false -> post st y1 v1 s1 (st', res) -> post st (y1 \/ y2) (v1 \/ v2) (s1 /\ s2) (st', res).
Proof. unfold post. destruct res as [[]|e]; simpl; naive_solver. Qed.

Lemma post_and st st' (y1 v1 s1 y2 v2 s2 : Prop) o :
  post st y1 v1 s1 (st', Ok true) -> post st' y2 v2 s2 o ->
  post st (y1 /\ y2) (v1 /\ v2) (s1 /\ s2) o.
Proof.
  unfold post; simpl. intros (H1 & H2 & H3) (G1 & G2 & G3).
  split; [congruence|]. split; [lia|]. destruct o as [st'' [[]|e]]; simpl in *.
  - done.
  - destruct G3 as [G3 G4]. split; [|naive_solver]. intros Hc [? Hy]. apply G3; auto; lia.
  - naive_solver.
Qed.

Lemma post_and_stop st st' (y1 v1 s1 y2 v2 s2 : Prop) res :
  res <> Ok true -> post st y1 v1 s1 (st', res) -> post st (y1 /\ y2) (v1 /\ v2) (s1 /\ s2) (st', res).
Proof. unfold post. destruct res as [[]|e]; simpl; naive_solver. Qed.

(** The in-progress set of [st] holds the keys of [V]. *)
Definition tracks (V : gset node) (st : evalState) : Prop :=
  forall t i r, nul_free t -> nul_free i -> memoKey t i r ∈ visiting st <-> (t, i, r) ∈ V.

Lemma tracks_eq V st st' : visiting st' = visiting st -> tracks V st -> tracks V st'.
Proof. unfold tracks. by intros ->. Qed.

Lemma tracks_add V st t i r c :
  nul_free t -> nul_free i -> tracks V st ->
  tracks ({[(t, i, r)]} ∪ V) (mkState ({[memoKey t i r]} ∪ visiting st) c).
Proof.
  intros Ht Hi HV t' i' r' Ht' Hi'. simpl. rewrite !elem_of_union, !elem_of_singleton, (HV t' i' r') by done.
  split; (intros [H|H]; [left|by right]); [by apply memoKey_inj in H|by simplify_eq].
Qed.

Lemma row_clean t i r row :
  row ∈ tuple_rows tbl t i r -> nul_free (subjectType row) /\ nul_free (subjectID row).
Proof. intros H%elem_of_tuple_rows. by apply Hclean in H. Qed.

(** ** The company filter *)

Lemma existsb_elem_of {A} (f : A -> bool) l : existsb f l = true <-> exists x, x ∈ l /\ f x = true.
Proof. rewrite existsb_exists. by setoid_rewrite list_elem_of_In. Qed.

Lemma anyRow_spec t i r res st si sr p :
  answers tbl may_fail t i r res ->
  (forall row, p row = true <-> row = mkRow st si sr) ->
  match anyRow p res with
  | Ok b => b = bool_decide (mkTuple t i r st si sr ∈ tbl)
  | Err e => e = QUERY_FAILED /\ may_fail
  end.
Proof.
  destruct res as [rows|e]; simpl; [|done]. intros Hrows Hp.
  apply eq_bool_prop_intro. rewrite bool_decide_spec, Is_true_true, existsb_elem_of.
  setoid_rewrite Hrows. setoid_rewrite elem_of_tuple_rows. setoid_rewrite Hp. split.
  - by intros (row & H & ->).
  - intros H. by exists (mkRow st si sr).
Qed.

Definition row_is (st si sr : string) (row : tupleRow) : bool :=
  seqb (subjectType row) st && seqb (subjectID row) si && seqb (subjectRelation row) sr.

Lemma row_is_spec st si sr row : row_is st si sr row = true <-> row = mkRow st si sr.
Proof. unfold row_is. destruct row; simpl. rewrite !andb_true_iff, !seqb_true. naive_solver. Qed.

Lemma subjectInCompany_wp t i :
  companyID <> "" ->
  WP (subjectInCompany companyID t i) (fun res =>
    match res with
    | Ok b => b = InCompany t i
    | Err e => e = QUERY_FAILED /\ may_fail
    end).
Proof.
  intros Hc. unfold subjectInCompany, in_company.
  rewrite (proj2 (seqb_false companyID "")) by done.
  destruct (seqb t "position" || seqb t "group"); [|destruct (seqb t "member"); [|done]]; simpl;
    intros res Hres; eapply anyRow_spec; eauto; intros row; apply row_is_spec.
Qed.

(** ** Expressions *)

Section expressions.
Context (chk : string -> string -> string -> evalState -> prog outcome).
Context (V : gset node) (safeN : node -> Prop).
Context (Hchk : forall t i r st, nul_free t -> nul_free i -> tracks V st ->
  WP (chk t i r st) (post st (Grants t i r) (Holds V t i r) (safeN (t, i, r)))).

Definition next_this (row : tupleRow) : bool :=
  negb (seqb (subjectRelation row) "") && InCompany (subjectType row) (subjectID row).

Lemma post_nil st (y v s : Prop) : ~ y -> ~ v -> post st y v s (st, Ok false).
Proof. unfold post. simpl. auto. Qed.

Lemma not_any_nil {A} (P : A -> Prop) : ~ exists y, y ∈ [] /\ P y.
Proof. intros (y & Hy & _). by apply not_elem_of_nil in Hy. Qed.

Lemma any_cons {A} (P : A -> Prop) x l :
  (exists y, y ∈ x :: l /\ P y) <-> P x \/ exists y, y ∈ l /\ P y.
Proof. setoid_rewrite elem_of_cons. naive_solver. Qed.

(** The specification of the row loop of [evalThis]. *)
Definition this_post (rows : list tupleRow) (st : evalState) : outcome -> Prop :=
  post st (exists row, row ∈ rows /\ RowThis Grants row)
          (exists row, row ∈ rows /\ RowThis (Holds V) row)
          (forall row, row ∈ rows -> next_this row = true ->
             safeN (subjectType row, subjectID row, subjectRelation row)).

Lemma row_this_direct P row :
  seqb (subjectRelation row) "" = true ->
  RowThis P row <-> subjectType row = subjType /\ subjectID row = subjID.
Proof. intros Hr. unfold row_this. by rewrite Hr. Qed.

Lemma row_this_userset P row :
  seqb (subjectRelation row) "" = false ->
  RowThis P row <-> InCompany (subjectType row) (subjectID row) = true /\
                    P (subjectType row) (subjectID row) (subjectRelation row).
Proof. intros Hr. unfold row_this. by rewrite Hr. Qed.

Lemma this_post_skip row rows st o :
  (forall P, ~ RowThis P row) -> this_post rows st o -> this_post (row :: rows) st o.
Proof.
  intros Hno. apply post_weaken; rewrite ?any_cons.
  - pose proof (Hno Grants). naive_solver.
  - pose proof (Hno (Holds V)). naive_solver.
  - intros H row' Hrow'. apply H. by right.
Qed.

(** A userset row of the company whose node answered [res]. *)
Lemma this_post_next row rows st st' res :
  seqb (subjectRelation row) "" = false ->
  InCompany (subjectType row) (subjectID row) = true ->
  post st (Grants (subjectType row) (subjectID row) (subjectRelation row))
          (Holds V (subjectType row) (subjectID row) (subjectRelation row))
          (safeN (subjectType row, subjectID row, subjectRelation row)) (st', res) ->
  (res <> Ok false -> this_post (row :: rows) st (st', res)) /\
  (res = Ok false -> forall o, this_post rows st' o -> this_post (row :: rows) st o).
Proof.
  intros Hr Hin Hp.
  assert (Hp' : post st (RowThis Grants row) (RowThis (Holds V) row)
    (safeN (subjectType row, subjectID row, subjectRelation row)) (st', res)).
  { eapply post_weaken; [..|exact Hp]; rewrite ?row_this_userset; tauto. }
  assert (Hnext : next_this row = true) by (unfold next_this; by rewrite Hr, Hin).
  assert (Hcons : forall o, post st (RowThis Grants row \/ exists y, y ∈ rows /\ RowThis Grants y)
      (RowThis (Holds V) row \/ exists y, y ∈ rows /\ RowThis (Holds V) y)
      (safeN (subjectType row, subjectID row, subjectRelation row) /\
       forall row0, row0 ∈ rows -> next_this row0 = true ->
         safeN (subjectType row0, subjectID row0, subjectRelation row0)) o ->
      this_post (row :: rows) st o).
  { intros o. apply post_weaken; rewrite ?any_cons; [done..|]. intros H.
    split; [apply H; [left|done]|intros; apply H; [by right|done]]. }
  split; intros Hres.
  - by apply Hcons, post_or_stop.
  - intros o Ho. subst res. apply Hcons. by eapply post_or.
Qed.

Lemma evalThisRows_wp t i r rows st :
  (forall row, row ∈ rows -> row ∈ tuple_rows tbl t i r) -> tracks V st ->
  WP (evalThisRows subjType subjID companyID chk rows st) (this_post rows st).
Proof.
  revert st. induction rows as [|row rows IH]; intros st Hin HV; cbn [evalThisRows].
  { by apply post_nil; apply not_any_nil. }
  assert (Hrows : forall row', row' ∈ rows -> row' ∈ tuple_rows tbl t i r) by (intros; apply Hin; by right).
  destruct (row_clean t i r row (Hin row ltac:(left))) as [Hct Hci].
  assert (Hskip : (forall P, ~ RowThis P row) ->
    WP (evalThisRows subjType subjID companyID chk rows st) (this_post (row :: rows) st)).
  { intros Hno. eapply wp_mono; [|by apply IH]. intros o. by apply this_post_skip. }
  destruct (seqb (subjectRelation row) "") eqn:Hr.
  - destruct (seqb (subjectType row) subjType && seqb (subjectID row) subjID) eqn:Hs.
    + rewrite andb_true_iff, !seqb_true in Hs.
      split; [done|]. split; [done|]. exists row. split; [left|]. by apply row_this_direct.
    + apply Hskip. intros P. rewrite row_this_direct by done.
      rewrite <- !seqb_true, <- andb_true_iff. by rewrite Hs.
  - apply wp_bind. apply wp_mono with (Q := fun res => match res with
      | Ok b => b = InCompany (subjectType row) (subjectID row)
      | Err e => e = QUERY_FAILED /\ may_fail end).
    2:{ destruct (seqb companyID "") eqn:Hco; simpl.
        - unfold in_company. by rewrite Hco.
        - apply subjectInCompany_wp. by apply seqb_false. }
    intros [[]|e] Hres.
    + apply wp_bind. eapply wp_mono; [|by apply Hchk]. intros [st' res] Hp.
      destruct (this_post_next row rows st st' res Hr (eq_sym Hres) Hp) as [Hstop Hgo].
      destruct res as [[]|e]; [by apply Hstop| |by apply Hstop].
      eapply wp_mono; [by apply Hgo|]. apply IH; [done|]. eapply tracks_eq; [|done]. apply Hp.
    + apply Hskip. intros P. rewrite row_this_userset, <- Hres by done. by intros [? _].
    + destruct Hres as [-> ?]. by apply post_query_failed.
Qed.

Definition ttu_post (cu : string) (rows : list tupleRow) (st : evalState) : outcome -> Prop :=
  post st (exists row, row ∈ rows /\ row_ttu Grants cu row)
          (exists row, row ∈ rows /\ row_ttu (Holds V) cu row)
          (forall row, row ∈ rows -> subjectRelation row = "" ->
             safeN (subjectType row, subjectID row, cu)).

Lemma ttu_post_next cu row rows st st' res :
  subjectRelation row = "" ->
  post st (Grants (subjectType row) (subjectID row) cu) (Holds V (subjectType row) (subjectID row) cu)
          (safeN (subjectType row, subjectID row, cu)) (st', res) ->
  (res <> Ok false -> ttu_post cu (row :: rows) st (st', res)) /\
  (res = Ok false -> forall o, ttu_post cu rows st' o -> ttu_post cu (row :: rows) st o).
Proof.
  intros Hr Hp.
  assert (Hp' : post st (row_ttu Grants cu row) (row_ttu (Holds V) cu row)
    (safeN (subjectType row, subjectID row, cu)) (st', res)).
  { eapply post_weaken; [..|exact Hp]; unfold row_ttu; tauto. }
  assert (Hcons : forall o, post st (row_ttu Grants cu row \/ exists y, y ∈ rows /\ row_ttu Grants cu y)
      (row_ttu (Holds V) cu row \/ exists y, y ∈ rows /\ row_ttu (Holds V) cu y)
      (safeN (subjectType row, subjectID row, cu) /\
       forall row0, row0 ∈ rows -> subjectRelation row0 = "" ->
         safeN (subjectType row0, subjectID row0, cu)) o ->
      ttu_post cu (row :: rows) st o).
  { intros o. apply post_weaken; rewrite ?any_cons; [done..|]. intros H.
    split; [apply H; [left|done]|intros; apply H; [by right|done]]. }
  split; intros Hres.
  - by apply Hcons, post_or_stop.
  - intros o Ho. subst res. apply Hcons. by eapply post_or.
Qed.

Lemma evalTTURows_wp t i ts cu rows st :
  (forall row, row ∈ rows -> row ∈ tuple_rows tbl t i ts) -> tracks V st ->
  WP (evalTTURows chk cu rows st) (ttu_post cu rows st).
Proof.
  revert st. induction rows as [|row rows IH]; intros st Hin HV; cbn [evalTTURows].
  { by apply post_nil; apply not_any_nil. }
  assert (Hrows : forall row', row' ∈ rows -> row' ∈ tuple_rows tbl t i ts) by (intros; apply Hin; by right).
  destruct (row_clean t i ts row (Hin row ltac:(left))) as [Hct Hci].
  destruct (seqb (subjectRelation row) "") eqn:Hr; simpl.
  - apply seqb_true in Hr. apply wp_bind. eapply wp_mono; [|by apply Hchk]. intros [st' res] Hp.
    destruct (ttu_post_next cu row rows st st' res Hr Hp) as [Hstop Hgo].
    destruct res as [[]|e]; [by apply Hstop| |by apply Hstop].
    eapply wp_mono; [by apply Hgo|]. apply IH; [done|]. eapply tracks_eq; [|done]. apply Hp.
  - apply seqb_false in Hr. eapply wp_mono; [|by apply IH]. intros o.
    apply post_weaken; rewrite ?any_cons; unfold row_ttu; try tauto.
    intros H row' Hrow'. apply H. by right.
Qed.

(** The nodes an expression refers to. *)
Fixpoint deps (t i r : string) (e : Expr) : list node :=
  match e with
  | kindThis => (fun row => (subjectType row, subjectID row, subjectRelation row))
                  <$> base.filter (fun row => next_this row = true) (tuple_rows tbl t i r)
  | kindComputedUserset r' => [(t, i, r')]
  | kindTupleToUserset ttu => (fun row => (subjectType row, subjectID row, ComputedUserset ttu))
                  <$> base.filter (fun row => subjectRelation row = "") (tuple_rows tbl t i (Tupleset ttu))
  | kindUnion es | kindIntersection es => concat (deps t i r <$> es)
  end.

Definition expr_post (t i r : string) (e : Expr) (st : evalState) : outcome -> Prop :=
  post st (Sat Grants t i r e) (Sat (Holds V) t i r e) (forall d, d ∈ deps t i r e -> safeN d).

Lemma deps_cons_safe t i r e es :
  (forall d, d ∈ concat (deps t i r <$> e :: es) -> safeN d) ->
  (forall d, d ∈ deps t i r e -> safeN d) /\ (forall d, d ∈ concat (deps t i r <$> es) -> safeN d).
Proof. simpl. setoid_rewrite elem_of_app. naive_solver. Qed.

Lemma evalExpr_wp t i r e st :
  nul_free t -> nul_free i -> tracks V st ->
  WP (evalExpr subjType subjID companyID chk t i r e st) (expr_post t i r e st).
Proof.
  intros Ht Hi. revert st. induction e as [|r'|ttu|es IH|es IH] using Expr_nested_ind; intros st HV.
  - intros [rows|e] Hans; [|destruct Hans as [-> ?]; by apply post_query_failed].
    eapply wp_mono; [|apply (evalThisRows_wp t i r); [intros row; by setoid_rewrite Hans|done]].
    intros o. apply post_weaken; simpl.
    + by setoid_rewrite Hans.
    + by setoid_rewrite Hans.
    + intros H row Hrow Hn. apply H, list_elem_of_fmap. exists row. split; [done|].
      rewrite list_elem_of_filter. by rewrite <- Hans.
  - eapply wp_mono; [|by apply Hchk]. intros o. apply post_weaken; simpl; [done..|].
    intros H. apply H. by left.
  - intros [rows|e] Hans; [|destruct Hans as [-> ?]; by apply post_query_failed].
    eapply wp_mono; [|apply (evalTTURows_wp t i (Tupleset ttu)); [intros row; by setoid_rewrite Hans|done]].
    intros o. apply post_weaken; simpl.
    + by setoid_rewrite Hans.
    + by setoid_rewrite Hans.
    + intros H row Hrow Hn. apply H, list_elem_of_fmap. exists row. split; [done|].
      rewrite list_elem_of_filter. by rewrite <- Hans.
  - unfold expr_post. cbn [evalExpr satP deps]. revert st HV.
    induction IH as [|e es He _ IHes]; intros st HV; [apply post_nil; by intros []|].
    apply wp_bind. eapply wp_mono; [|by apply He]. intros [st' res] Hp.
    destruct res as [[]|er].
    + eapply post_weaken; [..|by apply post_or_stop]; [done|done|apply deps_cons_safe].
    + eapply wp_mono; [|apply IHes; eapply tracks_eq; [|done]; apply Hp].
      intros o Ho. eapply post_weaken; [..|by eapply post_or]; [done|done|apply deps_cons_safe].
    + eapply post_weaken; [..|by apply post_or_stop]; [done|done|apply deps_cons_safe].
  - unfold expr_post. cbn [evalExpr satP deps]. revert st HV.
    induction IH as [|e es He _ IHes]; intros st HV; [done|].
    apply wp_bind. eapply wp_mono; [|by apply He]. intros [st' res] Hp.
    destruct res as [[]|er].
    + eapply wp_mono; [|apply IHes; eapply tracks_eq; [|done]; apply Hp].
      intros o Ho. eapply post_weaken; [..|by eapply post_and]; [done|done|apply deps_cons_safe].
    + eapply post_weaken; [..|by apply post_and_stop]; [done|done|apply deps_cons_safe].
    + eapply post_weaken; [..|by apply post_and_stop]; [done|done|apply deps_cons_safe].
Qed.
End expressions.

(** ** Checks *)

(** A finite set of nodes that is closed under reference, all of them defined by
    the model. *)
Definition closed (S : gset node) : Prop :=
  forall t i r, (t, i, r) ∈ S -> exists e, rel_def model t r = Some e /\
    forall d, d ∈ deps t i r e -> d ∈ S.

(** The node lies in a closed set small enough for the depth fence, and so do the
    nodes in progress. *)
Definition fenced (V : gset node) (depth : nat) (d : node) : Prop :=
  exists S, closed S /\ (size S <= MaxDepth + 1)%nat /\ d ∈ S /\ V ⊆ S /\ size V = depth.

Lemma fenced_depth V depth d : d ∉ V -> fenced V depth d -> (depth <= MaxDepth)%nat.
Proof.
  intros Hd (S & _ & Hsz & HdS & HV & <-).
  assert (size ({[d]} ∪ V) <= size S)%nat by (apply subseteq_size; set_solver).
  rewrite size_union, size_singleton in H by set_solver. lia.
Qed.

Lemma fenced_step V depth t i r e d :
  (t, i, r) ∉ V -> fenced V depth (t, i, r) -> rel_def model t r = Some e -> d ∈ deps t i r e ->
  fenced ({[(t, i, r)]} ∪ V) (S depth) d.
Proof.
  intros Hd (S & Hcl & Hsz & HdS & HV & <-) He Hdep. exists S.
  destruct (Hcl _ _ _ HdS) as (e' & He' & Hdeps). simplify_eq.
  split_and!; auto; [set_solver|]. rewrite size_union, size_singleton by set_solver. done.
Qed.

Lemma rel_def_split t r :
  rel_def model t r = match model !! t with Some rels => rels !! r | None => None end.
Proof. unfold rel_def. by destruct (model !! t). Qed.

(** The end of [check], once the defining expression has been evaluated. *)
Lemma check_finish t i r e depth st V st' res :
  nul_free t -> nul_free i -> tracks V st -> (t, i, r) ∉ V ->
  rel_def model t r = Some e ->
  expr_post ({[(t, i, r)]} ∪ V) (fenced ({[(t, i, r)]} ∪ V) (S depth)) t i r e
    (mkState ({[memoKey t i r]} ∪ visiting st) (cuts st)) (st', res) ->
  post st (Grants t i r) (Holds V t i r) (fenced V depth (t, i, r))
    (mkState (visiting st' ∖ {[memoKey t i r]}) (cuts st'), res).
Proof.
  intros Ht Hi HV HnV He (Hvis & Hcuts & Hres). simpl in *.
  assert (Hg : Grants t i r <-> Sat Grants t i r e).
  { split.
    - intros Hg. inversion Hg; simplify_eq. by apply satisfies_satP.
    - intros Hs. eapply grants_def; [exact He|]. by apply satisfies_satP. }
  split; simpl; [|split; [done|]].
  - rewrite Hvis. rewrite <- (HV t i r Ht Hi) in HnV. set_solver.
  - destruct res as [[]|er]; simpl in *.
    + by apply Hg.
    + rewrite Hg. destruct Hres as [H1 H2]. split; [done|].
      intros Hh. apply H2. destruct (holds_remove _ _ _ _ _ _ _ _ _ Hh) as (e' & He' & Hs). by simplify_eq.
    + destruct Hres as [H1 H2]. split; [done|]. intros Hf. apply H2.
      intros d Hdep. by eapply fenced_step.
Qed.

Lemma check_wp fuel t i r depth st V :
  (MaxDepth + 2 <= fuel + depth)%nat ->
  (depth <= MaxDepth + 1)%nat ->
  nul_free t -> nul_free i -> tracks V st ->
  WP (check model subjType subjID companyID fuel t i r depth st)
     (post st (Grants t i r) (Holds V t i r) (fenced V depth (t, i, r))).
Proof.
  revert t i r depth st V. induction fuel as [|fuel IH]; intros t i r depth st V Hf Hd Ht Hi HV.
  { lia. }
  cbn [check]. intros [v|] Hmemo.
  { pose proof (Hmemo v eq_refl t i r Ht Hi eq_refl) as Hv. split; [done|]. split; [done|].
    destruct v; simpl; [by apply Hv|]. assert (Hno : ~ Grants t i r) by (intros ?%Hv; done).
    split; [done|]. intros Hh. apply Hno, grants_iff_holds. eapply holds_antitone; [|exact Hh]. set_solver. }
  clear Hmemo. case_decide as Hvis.
  { split; [done|]. split; simpl; [lia|]. split; [lia|]. rewrite holds_unfold.
    apply HV in Hvis; [|done..]. naive_solver. }
  assert (HnV : (t, i, r) ∉ V) by (rewrite <- (HV t i r Ht Hi); done).
  destruct (MaxDepth <? depth)%nat eqn:Hdepth.
  { apply Nat.ltb_lt in Hdepth. split; [done|]. split; [done|]. split; [done|].
    intros Hfen%fenced_depth; [lia|done]. }
  apply Nat.ltb_ge in Hdepth.
  pose proof (rel_def_split t r) as Hdef.
  destruct (model !! t) as [rels|] eqn:Hm; [destruct (rels !! r) as [e|] eqn:Hr|].
  - apply wp_bind. eapply wp_mono; [|eapply evalExpr_wp with (V := {[(t, i, r)]} ∪ V)
      (safeN := fenced ({[(t, i, r)]} ∪ V) (S depth)); [|done|done|by apply tracks_add]].
    + intros [st' res] Hp. pose proof (check_finish _ _ _ _ _ _ _ _ _ Ht Hi HV HnV Hdef Hp) as Hpost.
      destruct res as [b|er]; [|exact Hpost]. simpl.
      destruct (b || (cuts st' =? cuts st)%nat) eqn:Hstore; [|exact Hpost]. split; [|exact Hpost].
      intros t' i' r' Ht' Hi' Hk. apply memoKey_inj in Hk; [|done..]. simplify_eq.
      destruct Hpost as (_ & _ & Hb). simpl in Hb. destruct b; [done|].
      apply Nat.eqb_eq in Hstore. split; [done|]. intros Hg. by apply Hb in Hg.
    + intros t' i' r' st'' Ht' Hi' HV'. apply IH; auto; lia.
  - split; [done|]. split; [done|]. split; [done|]. intros (S & Hcl & _ & HdS & _).
    destruct (Hcl _ _ _ HdS) as (e & He & _). congruence.
  - split; [done|]. split; [done|]. split; [done|]. intros (S & Hcl & _ & HdS & _).
    destruct (Hcl _ _ _ HdS) as (e & He & _). congruence.
Qed.

Lemma tracks_fresh : tracks ∅ freshState.
Proof. intros t i r _ _. simpl. set_solver. Qed.

Lemma topCheck_wp t i r st :
  nul_free t -> nul_free i -> visiting st = ∅ ->
  WP (topCheck model subjType subjID companyID t i r st)
     (post st (Grants t i r) (Holds ∅ t i r) (fenced ∅ 0 (t, i, r))).
Proof.
  intros Ht Hi Hst. apply check_wp; auto; unfold topFuel, MaxDepth; try lia.
  eapply tracks_eq; [|apply tracks_fresh]. done.
Qed.

(** The postcondition of a top-level check: both verdicts are exact. *)
Lemma top_post_exact t i r st o :
  post st (Grants t i r) (Holds ∅ t i r) (fenced ∅ 0 (t, i, r)) o ->
  match o.2 with
  | Ok b => b = true <-> Grants t i r
  | Err e => e <> OUT_OF_FUEL /\ (fenced ∅ 0 (t, i, r) -> e = QUERY_FAILED /\ may_fail)
  end.
Proof.
  intros (_ & _ & H). destruct o as [st' [[]|e]]; simpl in *; [done| |done].
  split; [done|]. intros Hg%grants_iff_holds. naive_solver.
Qed.
End correctness.
