(* ===== verification/Engine.v ===== *)
(** * Properties of a single check

    What [Engine.Check] and [Engine.CheckInCompany] promise to their callers, for
    every model, table, row order and pattern of query failures. *)

From stdpp Require Import base gmap strings list.
From S2P Require Import Prelude Model BaseModel Tuple Eval EvalSpec EvalProofs.

(** A database that answers every query from [tbl], in any order, and that may
    fail a query only if [may_fail]. *)
Definition db_answers (tbl : Table) (may_fail : Prop) (db : Database) : Prop :=
  forall n t i r, answers tbl may_fail t i r (db n t i r).

Lemma db_of_answers tbl : db_answers tbl False (db_of tbl).
Proof. intros n t i r. simpl. done. Qed.

Lemma check_outcome model tbl db may_fail t i r subjType subjID companyID :
  clean_table tbl -> nul_free t -> nul_free i -> db_answers tbl may_fail db ->
  match CheckInCompany model db t i r subjType subjID companyID with
  | Ok b => b = true <-> grants model tbl subjType subjID companyID t i r
  | Err e => e <> OUT_OF_FUEL /\
      (fenced model tbl companyID ∅ 0 (t, i, r) -> e = QUERY_FAILED /\ may_fail)
  end.
Proof.
  intros Hcl Ht Hi Hdb. unfold CheckInCompany.
  apply (top_post_exact _ _ _ _ _ may_fail t i r freshState).
  eapply wp_run; [exact Hdb| |by apply topCheck_wp]. intros key v H. by rewrite lookup_empty in H.
Qed.

Lemma Check_plain model db t i r subjType subjID :
  Check model db t i r subjType subjID = CheckInCompany model db t i r subjType subjID "".
Proof. reflexivity. Qed.

(** More tuples never take an answer away: the language has no negation. *)
Lemma in_company_mono tbl tbl' companyID t i :
  tbl ⊆ tbl' -> in_company tbl companyID t i = true -> in_company tbl' companyID t i = true.
Proof.
  intros Hsub. unfold in_company. repeat case_match; try done; rewrite !bool_decide_eq_true; set_solver.
Qed.

Lemma tuple_rows_mono tbl tbl' t i r row :
  tbl ⊆ tbl' -> row ∈ tuple_rows tbl t i r -> row ∈ tuple_rows tbl' t i r.
Proof. intros Hsub. rewrite !elem_of_tuple_rows. set_solver. Qed.

Lemma satP_table_mono tbl tbl' st si c (P Q : string -> string -> string -> Prop) t i r e :
  tbl ⊆ tbl' -> (forall t i r, P t i r -> Q t i r) ->
  satP tbl st si c P t i r e -> satP tbl' st si c Q t i r e.
Proof.
  intros Hsub HPQ. induction e as [|r'|ttu|es IH|es IH] using Expr_nested_ind.
  - intros (row & Hin & H). exists row. split; [by eapply tuple_rows_mono|].
    unfold row_this in *. case_match; [done|]. destruct H. eauto using in_company_mono.
  - apply HPQ.
  - intros (row & Hin & ? & ?). exists row. split; [by eapply tuple_rows_mono|]. split; auto.
  - rewrite !satP_union. rewrite Forall_forall in IH. naive_solver.
  - rewrite !satP_intersection. rewrite Forall_forall in IH. naive_solver.
Qed.

Lemma grants_table_mono model tbl tbl' st si c t i r :
  tbl ⊆ tbl' -> grants model tbl st si c t i r -> grants model tbl' st si c t i r.
Proof.
  intros Hsub. rewrite !grants_iff_holds. intros [n Hn]. exists n. revert t i r Hn.
  induction n as [|n IH]; intros t i r; [done|]. intros (HV & e & He & Hs). split; [done|].
  exists e. split; [done|]. eapply satP_table_mono; eauto.
Qed.

(** Dropping the company bound only adds answers. *)
Lemma grants_unbound model tbl st si c t i r :
  grants model tbl st si c t i r -> grants model tbl st si "" t i r.
Proof.
  rewrite !grants_iff_holds. intros [n Hn]. exists n. revert t i r Hn.
  induction n as [|n IH]; intros t i r; [done|]. intros (HV & e & He & Hs). split; [done|].
  exists e. split; [done|]. clear He HV.
  induction e as [|r'|ttu|es IHe|es IHe] using Expr_nested_ind.
  - destruct Hs as (row & Hin & H). exists row. split; [done|].
    unfold row_this in *. case_match; [done|]. destruct H. auto.
  - by apply IH.
  - destruct Hs as (row & Hin & ? & ?). exists row. split; [done|]. split; auto.
  - rewrite satP_union in *. rewrite Forall_forall in IHe. naive_solver.
  - rewrite satP_intersection in *. rewrite Forall_forall in IHe. naive_solver.
Qed.

(** A decision procedure for [closed], for concrete sets. *)
Definition closedb (model : Model) (tbl : Table) (companyID : string) (S : gset node) : bool :=
  forallb (fun d : node => match rel_def model d.1.1 d.2 with
    | Some e => forallb (fun d' => bool_decide (d' ∈ S)) (deps tbl companyID d.1.1 d.1.2 d.2 e)
    | None => false
    end) (elements S).

Lemma closedb_closed model tbl companyID S :
  closedb model tbl companyID S = true -> closed model tbl companyID S.
Proof.
  unfold closedb. rewrite forallb_Forall', Forall_forall. intros H t i r Hin.
  apply elem_of_elements, H in Hin. simpl in Hin. destruct (rel_def model t r) as [e|]; [|done].
  exists e. split; [done|]. rewrite forallb_Forall', Forall_forall in Hin.
  intros d Hd%Hin. by apply bool_decide_eq_true in Hd.
Qed.

(** ** Example tables *)

(** A document-style object type whose viewers are direct, a position's holders,
    or whoever the type's own [editor] relation names, and whose [editor] and
    [viewer] refer to each other through userset tuples. *)
Definition demoModel : Model :=
  <["doc" := <["viewer" := kindUnion [kindThis; kindComputedUserset "editor"]]>
             (<["editor" := kindThis]>
             (<["company_module" := kindThis]> ∅))]> BaseModel.

(** Two documents that name each other's viewers, and a position of company c1
    whose holder is alice. *)
Definition demoTable : Table := list_to_set [
  mkTuple "doc" "1" "viewer" "doc" "2" "viewer";
  mkTuple "doc" "2" "viewer" "doc" "1" "viewer";
  mkTuple "doc" "2" "editor" "position" "p" "holder";
  mkTuple "position" "p" "company" "company" "c1" "";
  mkTuple "position" "p" "holder" "user" "alice" "" ].

Lemma demoTable_clean : clean_table demoTable.
Proof.
  intros tp Htp. unfold demoTable in Htp. rewrite elem_of_list_to_set in Htp.
  rewrite !elem_of_cons in Htp. repeat (destruct Htp as [->|Htp]; [split; reflexivity|]).
  by apply not_elem_of_nil in Htp.
Qed.

(** ** Properties *)

(** C1. Exactness of a check.  Whatever order PostgreSQL returns rows in and
    whichever queries fail, a check that returns an answer returns the declared
    one: true if and only if the subject has the relation in the least relation
    the model and the tuples define.  In particular the cycle cuts and the memo
    (which skips a false computed under a cut) never change an answer. *)
Theorem CheckInCompany_exact model tbl db t i r subjType subjID companyID b :
  clean_table tbl -> nul_free t -> nul_free i -> db_answers tbl True db ->
  CheckInCompany model db t i r subjType subjID companyID = Ok b ->
  b = true <-> grants model tbl subjType subjID companyID t i r.
Proof.
  intros Hcl Ht Hi Hdb H.
  pose proof (check_outcome model tbl db True t i r subjType subjID companyID Hcl Ht Hi Hdb) as Ho.
  by rewrite H in Ho.
Qed.

Lemma CheckInCompany_exact_witness :
  grants demoModel demoTable "user" "alice" "c1" "doc" "1" "viewer" /\
  ~ grants demoModel demoTable "user" "bob" "c1" "doc" "1" "viewer".
Proof.
  assert (Hdb : db_answers demoTable True (db_of demoTable)) by (intros n t i r; simpl; done).
  split.
  - apply (CheckInCompany_exact demoModel demoTable (db_of demoTable) "doc" "1" "viewer" "user" "alice" "c1" true
             demoTable_clean eq_refl eq_refl Hdb); vm_compute; reflexivity.
  - intros H.
    apply (CheckInCompany_exact demoModel demoTable (db_of demoTable) "doc" "1" "viewer" "user" "bob" "c1" false
             demoTable_clean eq_refl eq_refl Hdb) in H; [discriminate H|vm_compute; reflexivity].
Defined.

(** C2. A check always answers on a small enough graph.  If the object's node lies
    in a set of at most [MaxDepth + 1] nodes that is closed under reference and
    defined by the model, and no query fails, the check returns an answer: tuple
    cycles are cut, never reported as DEPTH_EXCEEDED, and no unknown type or
    relation is met. *)
Theorem CheckInCompany_answers model tbl db S t i r subjType subjID companyID :
  clean_table tbl -> nul_free t -> nul_free i -> db_answers tbl False db ->
  closed model tbl companyID S -> (t, i, r) ∈ S -> (size S <= MaxDepth + 1)%nat ->
  exists b, CheckInCompany model db t i r subjType subjID companyID = Ok b.
Proof.
  intros Hcl Ht Hi Hdb HS Hin Hsz.
  pose proof (check_outcome model tbl db False t i r subjType subjID companyID Hcl Ht Hi Hdb) as Ho.
  destruct (CheckInCompany _ _ _ _ _ _ _ _) as [b|e]; [by exists b|].
  destruct Ho as [_ Ho]. destruct Ho as [_ []]. exists S. split_and!; auto; set_solver.
Qed.

Definition demoNodes : gset node := list_to_set [
  ("doc", "1", "viewer"); ("doc", "1", "editor"); ("doc", "2", "viewer"); ("doc", "2", "editor");
  ("position", "p", "holder")].

Lemma CheckInCompany_answers_witness :
  exists b, CheckInCompany demoModel (db_of demoTable) "doc" "1" "viewer" "user" "bob" "c1" = Ok b.
Proof.
  apply (CheckInCompany_answers demoModel demoTable (db_of demoTable) demoNodes "doc" "1" "viewer" "user" "bob" "c1"
    demoTable_clean eq_refl eq_refl (db_of_answers demoTable)).
  - apply closedb_closed. vm_compute. reflexivity.
  - refine (bool_decide_unpack _ _). vm_compute. exact I.
  - apply Nat.leb_le. vm_compute. reflexivity.
Defined.

(** C3. Errors of a check are the engine's own.  An evaluation always terminates
    within its depth fence: whatever the model, the table and the failures of the
    database, the only errors are an unknown type, an unknown relation, the depth
    fence and a failed query, never an exhausted recursion. *)
Theorem CheckInCompany_terminates model tbl db t i r subjType subjID companyID :
  clean_table tbl -> nul_free t -> nul_free i -> db_answers tbl True db ->
  CheckInCompany model db t i r subjType subjID companyID <> Err OUT_OF_FUEL.
Proof.
  intros Hcl Ht Hi Hdb H.
  pose proof (check_outcome model tbl db True t i r subjType subjID companyID Hcl Ht Hi Hdb) as Ho.
  rewrite H in Ho. by destruct Ho.
Qed.

Lemma CheckInCompany_terminates_witness :
  CheckInCompany BaseModel (fun _ _ _ _ => Err QUERY_FAILED) "company" "c1" "admin" "user" "bob" "" <> Err OUT_OF_FUEL.
Proof.
  apply (CheckInCompany_terminates BaseModel demoTable); [apply demoTable_clean|reflexivity..|].
  intros n t i r. split; reflexivity || exact I.
Defined.

(** Grants only add and revocations only remove.  If a subject passes a check
    over some tuples, no superset of those tuples makes the same check answer
    false, whatever order the rows come back in. *)
Theorem Check_monotone model tbl tbl' db db' t i r subjType subjID companyID :
  clean_table tbl' -> nul_free t -> nul_free i -> tbl ⊆ tbl' ->
  db_answers tbl True db -> db_answers tbl' True db' ->
  CheckInCompany model db t i r subjType subjID companyID = Ok true ->
  CheckInCompany model db' t i r subjType subjID companyID <> Ok false.
Proof.
  intros Hcl' Ht Hi Hsub Hdb Hdb' H H'.
  assert (Hcl : clean_table tbl) by (intros tp Htp; apply Hcl'; set_solver).
  pose proof (check_outcome model tbl db True t i r subjType subjID companyID Hcl Ht Hi Hdb) as Ho.
  pose proof (check_outcome model tbl' db' True t i r subjType subjID companyID Hcl' Ht Hi Hdb') as Ho'.
  rewrite H in Ho. rewrite H' in Ho'. assert (Hg := proj1 Ho eq_refl).
  apply (grants_table_mono _ _ tbl') in Hg; [|done]. by apply Ho' in Hg.
Qed.

Lemma Check_monotone_witness :
  CheckInCompany demoModel (db_of (list_to_set [mkTuple "doc" "1" "editor" "user" "zoe" ""; mkTuple "doc" "1" "viewer" "user" "bob" ""]))
    "doc" "1" "viewer" "user" "zoe" "c1" <> Ok false.
Proof.
  apply (Check_monotone demoModel (list_to_set [mkTuple "doc" "1" "editor" "user" "zoe" ""])
    (list_to_set [mkTuple "doc" "1" "editor" "user" "zoe" ""; mkTuple "doc" "1" "viewer" "user" "bob" ""])
    (db_of (list_to_set [mkTuple "doc" "1" "editor" "user" "zoe" ""]))).
  - intros tp Htp. rewrite elem_of_list_to_set, !elem_of_cons in Htp.
    destruct Htp as [->|[->|Htp]]; [split; reflexivity..|]. by apply not_elem_of_nil in Htp.
  - reflexivity.
  - reflexivity.
  - intros tp. rewrite !elem_of_list_to_set, !elem_of_cons. intros [->|Htp]; [by left|].
    by apply not_elem_of_nil in Htp.
  - intros n t i r. simpl. done.
  - intros n t i r. simpl. done.
  - vm_compute. reflexivity.
Defined.

(** The company bound only takes answers away: what [CheckInCompany] allows,
    the unbound [Check] never denies. *)
Theorem CheckInCompany_restricts model tbl db db' t i r subjType subjID companyID :
  clean_table tbl -> nul_free t -> nul_free i ->
  db_answers tbl True db -> db_answers tbl True db' ->
  CheckInCompany model db t i r subjType subjID companyID = Ok true ->
  Check model db' t i r subjType subjID <> Ok false.
Proof.
  intros Hcl Ht Hi Hdb Hdb' H H'. rewrite Check_plain in H'.
  pose proof (check_outcome model tbl db True t i r subjType subjID companyID Hcl Ht Hi Hdb) as Ho.
  pose proof (check_outcome model tbl db' True t i r subjType subjID "" Hcl Ht Hi Hdb') as Ho'.
  rewrite H in Ho. rewrite H' in Ho'. assert (Hg := proj1 Ho eq_refl).
  apply grants_unbound in Hg. by apply Ho' in Hg.
Qed.

Lemma CheckInCompany_restricts_witness :
  Check demoModel (db_of demoTable) "doc" "1" "viewer" "user" "alice" <> Ok false.
Proof.
  assert (Hdb : db_answers demoTable True (db_of demoTable)) by (intros n t i r; simpl; done).
  apply (CheckInCompany_restricts demoModel demoTable (db_of demoTable) (db_of demoTable) "doc" "1" "viewer" "user" "alice" "c1"
    demoTable_clean eq_refl eq_refl Hdb Hdb). vm_compute. reflexivity.
Defined.
