(* ===== verification/Batch.v ===== *)
(** * Concurrent batch checks

    internal/authz/engine/batch.go.  [BatchCan] hands its items through one channel
    to a pool of worker goroutines that share a memo.  The model is a transition
    system whose steps are the workers' effects, one at a time in any order: a
    memo lookup, a memo store, a query, taking the next job, or writing a result
    at the job's index.  Each worker keeps its own in-progress set and cut counter
    from one job to the next, as the code does. *)

From stdpp Require Import base gmap strings list relations.
From S2P Require Import Prelude Model BaseModel Tuple Eval EvalSpec EvalProofs Engine.

(** [BatchItem] *)
Record BatchItem := mkItem {
  ObjType : string;
  ObjID : string;
  Rel : string
}.

(** [BatchResult]; [Allowed] and [Err] are one result here. *)
Record BatchResult := mkBatchResult {
  Item : BatchItem;
  Verdict : result check_error bool
}.

(** The zero [BatchResult] that [make] fills the slice with. *)
Definition zeroResult : BatchResult := mkBatchResult (mkItem "" "" "") (Ok false).

(** [batchWorkers] *)
Definition batchWorkers : nat := 8.

Record job := mkJob { idx : nat; item : BatchItem }.

(** A worker goroutine: its [evalCtx], and the job it is evaluating with the rest
    of the evaluation. *)
Inductive worker : Type :=
| Idle (ec : evalState)
| Running (ec : evalState) (j : job) (rest : prog outcome).

Record batchState := mkBatch {
  shared : gmap string bool;
  jobs : list job;
  workers : list worker;
  results : list BatchResult
}.

(** [syncMapMemo.store] is LoadOrStore: the first value stays. *)
Definition loadOrStore (key : string) (v : bool) (m : gmap string bool) : gmap string bool :=
  match m !! key with
  | Some _ => m
  | None => <[key := v]> m
  end.

Definition indexed (items : list BatchItem) : list job := imap mkJob items.

(** [BatchCan] up to the point where the workers run. *)
Definition startBatch (items : list BatchItem) : batchState :=
  mkBatch ∅ (indexed items)
    (replicate (Nat.min batchWorkers (length items)) (Idle freshState))
    (replicate (length items) zeroResult).

Section batch.
Context (model : Model) (tbl : Table) (may_fail : Prop) (subjType subjID : string).

(** One step of one worker, on the memo, the channel and the results. *)
Inductive worker_step : worker -> gmap string bool -> list job -> list BatchResult ->
    worker -> gmap string bool -> list job -> list BatchResult -> Prop :=
| step_take ec j js m res :
    worker_step (Idle ec) m (j :: js) res
      (Running ec j (topCheck model subjType subjID "" (ObjType (item j)) (ObjID (item j)) (Rel (item j)) ec))
      m js res
| step_load ec j key k m js res :
    worker_step (Running ec j (Load key k)) m js res (Running ec j (k (m !! key))) m js res
| step_store ec j key v k m js res :
    worker_step (Running ec j (Store key v k)) m js res (Running ec j k) (loadOrStore key v m) js res
| step_fetch ec j t i r k rows m js res :
    answers tbl may_fail t i r rows ->
    worker_step (Running ec j (Fetch t i r k)) m js res (Running ec j (k rows)) m js res
| step_finish ec j ec' verdict m js res :
    worker_step (Running ec j (Ret (ec', verdict))) m js res
      (Idle ec') m js (<[idx j := mkBatchResult (item j) verdict]> res).

Inductive step : batchState -> batchState -> Prop :=
| step_worker w wk wk' m js ws res m' js' res' :
    ws !! w = Some wk ->
    worker_step wk m js res wk' m' js' res' ->
    step (mkBatch m js ws res) (mkBatch m' js' (<[w := wk']> ws) res').

(** [wg.Wait()] returns: the channel is drained and every worker is done. *)
Definition finished (s : batchState) : Prop :=
  jobs s = [] /\ Forall (fun wk => match wk with Idle _ => True | Running _ _ _ => False end) (workers s).

(** ** Invariant *)

Definition itemGrants (it : BatchItem) : Prop :=
  grants model tbl subjType subjID "" (ObjType it) (ObjID it) (Rel it).

Definition correctVerdict (it : BatchItem) (v : result check_error bool) : Prop :=
  match v with
  | Ok b => b = true <-> itemGrants it
  | Err e => e <> OUT_OF_FUEL /\
      (fenced model tbl "" ∅ 0 (ObjType it, ObjID it, Rel it) -> e = QUERY_FAILED /\ may_fail)
  end.

Abbreviation memoOk := (memo_valid model tbl subjType subjID "").

Definition workerOk (items : list BatchItem) (wk : worker) : Prop :=
  match wk with
  | Idle ec => visiting ec = ∅
  | Running ec j rest =>
      visiting ec = ∅ /\ items !! idx j = Some (item j) /\
      wp tbl may_fail memoOk rest
        (fun o => visiting o.1 = ∅ /\ correctVerdict (item j) o.2)
  end.

Definition runs (wk : worker) (j : job) : Prop :=
  match wk with Idle _ => False | Running _ j' _ => j' = j end.

(** Every item is still in the channel, being evaluated, or answered at its own
    index. *)
Definition accounted (items : list BatchItem) (s : batchState) : Prop :=
  forall n it, items !! n = Some it ->
    mkJob n it ∈ jobs s \/ (exists w wk, workers s !! w = Some wk /\ runs wk (mkJob n it)) \/
    exists v, results s !! n = Some (mkBatchResult it v) /\ correctVerdict it v.

Record invariant (items : list BatchItem) (s : batchState) : Prop := {
  inv_memo : forall key v, shared s !! key = Some v -> memoOk key v;
  inv_jobs : forall j, j ∈ jobs s -> items !! idx j = Some (item j);
  inv_workers : Forall (workerOk items) (workers s);
  inv_length : length (results s) = length items;
  inv_accounted : accounted items s
}.

Context (Hclean : clean_table tbl).

Definition cleanItem (it : BatchItem) : Prop := nul_free (ObjType it) /\ nul_free (ObjID it).

Lemma loadOrStore_lookup key v m key' v' :
  loadOrStore key v m !! key' = Some v' -> m !! key' = Some v' \/ (key' = key /\ v' = v).
Proof.
  unfold loadOrStore. destruct (m !! key) eqn:E; [by left|].
  rewrite lookup_insert. case_decide; naive_solver.
Qed.

Lemma elem_of_indexed items j : j ∈ indexed items <-> items !! idx j = Some (item j).
Proof.
  unfold indexed. rewrite elem_of_lookup_imap. destruct j as [n it]. simpl. split.
  - by intros (n' & it' & [= -> ->] & H).
  - intros H. by exists n, it.
Qed.

Lemma start_invariant items : invariant items (startBatch items).
Proof.
  split; simpl.
  - intros key v H. by rewrite lookup_empty in H.
  - intros j. by rewrite elem_of_indexed.
  - apply Forall_replicate. done.
  - apply length_replicate.
  - intros n it H. left. by apply elem_of_indexed.
Qed.

#[local] Opaque topCheck.

(** A worker's own step keeps what it owes. *)
Lemma worker_step_ok items wk m js res wk' m' js' res' :
  Forall cleanItem items ->
  (forall key v, m !! key = Some v -> memoOk key v) ->
  (forall j, j ∈ js -> items !! idx j = Some (item j)) ->
  workerOk items wk -> worker_step wk m js res wk' m' js' res' ->
  workerOk items wk' /\ (forall key v, m' !! key = Some v -> memoOk key v).
Proof.
  intros Hci Hm Hjs Hwk Hstep. destruct Hstep; simpl in *.
  - split; [|done]. assert (Hit : items !! idx j = Some (item j)) by (apply Hjs; left).
    split; [done|]. split; [done|]. apply (Forall_lookup_1 _ _ _ _ Hci) in Hit as [Ht Hi].
    eapply wp_mono; [|by apply topCheck_wp]. intros o Ho. split; [by destruct Ho as [-> _]|].
    by apply (top_post_exact _ _ _ _ _ may_fail _ _ _ ec).
  - destruct Hwk as (? & ? & Hwp). split; [|done]. split; [done|]. split; [done|]. apply Hwp; auto.
  - destruct Hwk as (? & ? & Hv & Hwp). split; [done|]. intros key' v' H'.
    apply loadOrStore_lookup in H' as [H'|[-> ->]]; auto.
  - destruct Hwk as (? & ? & Hwp). split; [|done]. split; [done|]. split; [done|]. apply Hwp; auto.
  - destruct Hwk as (? & ? & Hv & Hc). done.
Qed.

Lemma step_accounted items w wk m js ws res wk' m' js' res' :
  length res = length items -> ws !! w = Some wk -> workerOk items wk ->
  worker_step wk m js res wk' m' js' res' ->
  accounted items (mkBatch m js ws res) -> accounted items (mkBatch m' js' (<[w := wk']> ws) res').
Proof.
  intros Hlen Hw Hwk Hstep Hacc n it Hit. pose proof (lookup_lt_Some _ _ _ Hw) as Hlt.
  assert (Hother : forall w0 wk0, w0 <> w -> ws !! w0 = Some wk0 -> <[w := wk']> ws !! w0 = Some wk0).
  { intros w0 wk0 Hne Hw0. by rewrite list_lookup_insert_ne. }
  assert (Hself : <[w := wk']> ws !! w = Some wk') by by apply list_lookup_insert_eq.
  assert (Hn : (n < length res)%nat) by (rewrite Hlen; by eapply lookup_lt_Some).
  destruct (Hacc n it Hit) as [Hin|[(w0 & wk0 & Hw0 & Hr)|(v & Hv & Hc)]]; simpl in *.
  - destruct Hstep; simpl in *; try by left.
    apply elem_of_cons in Hin as [<-|Hin]; [|by left]. right. left. by exists w, (Running ec (mkJob n it) (topCheck model subjType subjID "" (ObjType it) (ObjID it) (Rel it) ec)).
  - destruct (decide (w0 = w)) as [->|Hne]; [|right; left; exists w0, wk0; by auto].
    simplify_eq. destruct Hstep; simpl in *; try done; try (right; left; eexists _, _; by split).
    subst j. right. right. exists verdict. simpl. split; [by apply list_lookup_insert_eq|]. apply Hwk.
  - right. right. destruct Hstep; simpl in *; eauto.
    destruct (decide (idx j = n)) as [<-|Hne]; [|exists v; by rewrite list_lookup_insert_ne].
    destruct Hwk as (_ & Hj & _ & Hc'). simplify_eq. exists verdict. split; [by apply list_lookup_insert_eq|done].
Qed.

Lemma step_invariant items s s' :
  Forall cleanItem items -> invariant items s -> step s s' -> invariant items s'.
Proof.
  intros Hci [Hm Hj Hws Hlen Hacc] Hstep.
  destruct Hstep as [w wk wk' m js ws res m' js' res' Hw Hstep]. simpl in *.
  pose proof (Forall_lookup_1 _ _ _ _ Hws Hw) as Hwk.
  destruct (worker_step_ok items wk m js res wk' m' js' res' Hci Hm Hj Hwk Hstep) as [Hwk' Hm'].
  split; simpl.
  - done.
  - intros j Hin. destruct Hstep; simpl in *; auto. apply Hj. by right.
  - by apply Forall_insert.
  - destruct Hstep; simpl in *; auto. by rewrite length_insert.
  - by eapply (step_accounted items w wk m js ws res wk' m').
Qed.

Lemma reachable_invariant items s :
  Forall cleanItem items -> rtc step (startBatch items) s -> invariant items s.
Proof.
  intros Hci Hrtc. eapply rtc_ind_r with (P := invariant items); eauto using start_invariant.
  intros. by eapply step_invariant.
Qed.

(** ** Progress and termination *)

Lemma idle_workers_dec ws :
  Forall (fun wk => match wk with Idle _ => True | Running _ _ _ => False end) ws \/
  exists w ec j p, ws !! w = Some (Running ec j p).
Proof.
  induction ws as [|[ec|ec j p] ws IH]; [by left|..].
  - destruct IH as [IH|(w & ? & ? & ? & ?)]; [left; by constructor|right].
    by exists (S w), x, x0, x1.
  - right. by exists 0, ec, j, p.
Qed.

Lemma running_can_step m js ws res w ec j p :
  ws !! w = Some (Running ec j p) -> exists s', step (mkBatch m js ws res) s'.
Proof.
  intros Hw. destruct p as [[ec' v]|key k|key v k|t i r k]; eexists; econstructor; eauto;
    econstructor. instantiate (1 := Ok (tuple_rows tbl t i r)). simpl. done.
Qed.

Lemma step_keeps_workers s s' : step s s' -> length (workers s') = length (workers s).
Proof. destruct 1. simpl. apply length_insert. Qed.

(** The shape of a worker that matters for termination. *)
Definition load (wk : worker) : option (prog outcome) :=
  match wk with Idle _ => None | Running _ _ p => Some p end.

Inductive shrinks : option (prog outcome) -> option (prog outcome) -> Prop :=
| shrinks_load key k o : shrinks (Some (k o)) (Some (Load key k))
| shrinks_store key v k : shrinks (Some k) (Some (Store key v k))
| shrinks_fetch t i r k rows : shrinks (Some (k rows)) (Some (Fetch t i r k))
| shrinks_ret o : shrinks None (Some (Ret o)).

Lemma shrinks_acc o : Acc shrinks o.
Proof.
  assert (Hnone : Acc shrinks None) by (constructor; intros y Hy; inversion Hy).
  destruct o as [p|]; [|done]. induction p; constructor; intros y Hy; inversion Hy; subst; auto.
Qed.

Inductive one_shrinks : list (option (prog outcome)) -> list (option (prog outcome)) -> Prop :=
| one_shrinks_here x y l : shrinks x y -> one_shrinks (x :: l) (y :: l)
| one_shrinks_later x l l' : one_shrinks l l' -> one_shrinks (x :: l) (x :: l').

Lemma one_shrinks_acc l : Acc one_shrinks l.
Proof.
  induction l as [|x l IHl]; [constructor; intros y Hy; inversion Hy|].
  revert x. induction IHl as [l _ IHl]. intros x. induction (shrinks_acc x) as [x _ IHx].
  constructor. intros y Hy. inversion Hy; subst; auto.
Qed.

Lemma one_shrinks_insert l w x y :
  l !! w = Some y -> shrinks x y -> one_shrinks (<[w := x]> l) l.
Proof.
  revert w. induction l as [|z l IH]; intros [|w] Hw Hs; simplify_eq/=; constructor; eauto.
Qed.

Lemma step_decreases s s' :
  step s s' ->
  (length (jobs s') < length (jobs s))%nat \/
  (jobs s' = jobs s /\ one_shrinks (load <$> workers s') (load <$> workers s)).
Proof.
  intros [w wk wk' m js ws res m' js' res' Hw Hstep]. simpl.
  assert (Hl : (load <$> ws) !! w = Some (load wk)) by (rewrite list_lookup_fmap, Hw; done).
  rewrite list_fmap_insert. destruct Hstep; simpl in *; [left; lia|right..];
    (split; [done|]); (eapply one_shrinks_insert; [exact Hl|]); constructor.
Qed.

Lemma step_wf : well_founded (fun s' s => step s s').
Proof.
  intros s. remember (length (jobs s)) as n eqn:Hn. revert s Hn.
  induction (lt_wf n) as [n _ IHn]. intros s Hn.
  remember (load <$> workers s) as l eqn:Hl. revert s Hn Hl.
  induction (one_shrinks_acc l) as [l _ IHl]. intros s Hn Hl. constructor. intros s' Hs.
  destruct (step_decreases s s' Hs) as [Hlt|[Hj Hsh]].
  - eapply IHn; [|reflexivity]. lia.
  - eapply IHl; [|by rewrite Hj|reflexivity]. by rewrite Hl.
Qed.
End batch.

(** ** A scheduler, for concrete runs *)

Section scheduler.
Context (model : Model) (tbl : Table) (subjType subjID : string).

(** What the given worker does next, with the database answering in table order. *)
Definition exec_worker (wk : worker) (m : gmap string bool) (js : list job) (res : list BatchResult)
    : option (worker * gmap string bool * list job * list BatchResult) :=
  match wk with
  | Idle ec =>
      match js with
      | [] => None
      | j :: js' => Some (Running ec j (topCheck model subjType subjID "" (ObjType (item j))
                            (ObjID (item j)) (Rel (item j)) ec), m, js', res)
      end
  | Running ec j (Load key k) => Some (Running ec j (k (m !! key)), m, js, res)
  | Running ec j (Store key v k) => Some (Running ec j k, loadOrStore key v m, js, res)
  | Running ec j (Fetch t i r k) => Some (Running ec j (k (Ok (tuple_rows tbl t i r))), m, js, res)
  | Running ec j (Ret (ec', v)) => Some (Idle ec', m, js, <[idx j := mkBatchResult (item j) v]> res)
  end.

(** Runs the workers named by the schedule, one effect each. *)
Fixpoint runSchedule (schedule : list nat) (s : batchState) : batchState :=
  match schedule with
  | [] => s
  | w :: schedule' =>
      match workers s !! w ≫= (fun wk => exec_worker wk (shared s) (jobs s) (results s)) with
      | Some (wk', m', js', res') =>
          runSchedule schedule' (mkBatch m' js' (<[w := wk']> (workers s)) res')
      | None => runSchedule schedule' s
      end
  end.

Lemma exec_worker_step may_fail wk m js res wk' m' js' res' :
  exec_worker wk m js res = Some (wk', m', js', res') ->
  worker_step model tbl may_fail subjType subjID wk m js res wk' m' js' res'.
Proof.
  destruct wk as [ec|ec j [[ec' v]|key k|key v k|t i r k]]; simpl; intros H; simplify_eq; try constructor.
  - destruct js; simplify_eq. constructor.
  - simpl. done.
Qed.

Lemma runSchedule_steps may_fail schedule s :
  rtc (step model tbl may_fail subjType subjID) s (runSchedule schedule s).
Proof.
  revert s. induction schedule as [|w schedule IH]; intros s; [apply rtc_refl|]. simpl.
  destruct (workers s !! w) as [wk|] eqn:Hw; simpl; [|apply IH].
  destruct (exec_worker _ _ _ _) as [[[[wk' m'] js'] res']|] eqn:He; [|apply IH].
  eapply rtc_l; [|apply IH]. destruct s. simpl in *. econstructor; [exact Hw|].
  by apply exec_worker_step.
Qed.
End scheduler.

(** ** Properties *)

(** C4. Batch results are exact and in request order.  However the workers'
    effects interleave on the shared memo and whichever queries fail, when the
    batch is done there is one result per item, at the item's own index and
    carrying that item, and an answer in it is the one the item's own check
    defines: sharing the memo between items and workers changes no answer. *)
Theorem BatchCan_exact model tbl subjType subjID items s :
  clean_table tbl -> Forall cleanItem items ->
  rtc (step model tbl True subjType subjID) (startBatch items) s -> finished s ->
  length (results s) = length items /\
  forall n it, items !! n = Some it ->
    exists v, results s !! n = Some (mkBatchResult it v) /\
      match v with
      | Ok b => b = true <-> grants model tbl subjType subjID "" (ObjType it) (ObjID it) (Rel it)
      | Err e => e <> OUT_OF_FUEL
      end.
Proof.
  intros Hcl Hci Hrtc [Hj Hw].
  destruct (reachable_invariant model tbl True subjType subjID Hcl items s Hci Hrtc) as [_ _ _ Hlen Hacc].
  split; [done|]. intros n it Hit.
  destruct (Hacc n it Hit) as [Hin|[(w & wk & Hw0 & Hr)|(v & Hv & Hc)]].
  - rewrite Hj in Hin. by apply not_elem_of_nil in Hin.
  - apply (Forall_lookup_1 _ _ _ _ Hw) in Hw0. by destruct wk.
  - exists v. split; [done|]. destruct v; [done|]. by destruct Hc.
Qed.

(** Four checks on the cyclic documents, and a schedule that alternates the
    workers' effects. *)
Definition demoItems : list BatchItem :=
  [mkItem "doc" "1" "viewer"; mkItem "doc" "2" "viewer"; mkItem "doc" "2" "editor"; mkItem "ghost" "1" "viewer"].

Definition demoSchedule : list nat := concat (replicate 40 [0; 1; 2; 3; 3; 1; 0]%nat).

Definition demoRun : batchState :=
  runSchedule demoModel demoTable "user" "alice" demoSchedule (startBatch demoItems).

Lemma BatchCan_exact_witness :
  length (results demoRun) = 4%nat /\
  grants demoModel demoTable "user" "alice" "" "doc" "1" "viewer".
Proof.
  assert (Hfin : finished demoRun).
  { split; [vm_compute; reflexivity|]. vm_compute. repeat constructor. }
  destruct (BatchCan_exact demoModel demoTable "user" "alice" demoItems demoRun demoTable_clean
    ltac:(repeat constructor) ltac:(apply runSchedule_steps) Hfin) as [Hlen Hres].
  split; [exact Hlen|].
  destruct (Hres 0%nat (mkItem "doc" "1" "viewer") eq_refl) as (v & Hv & Hg).
  assert (Hv' : results demoRun !! 0%nat = Some (mkBatchResult (mkItem "doc" "1" "viewer") (Ok true)))
    by (vm_compute; reflexivity).
  rewrite Hv' in Hv. injection Hv as <-. apply Hg. reflexivity.
Defined.

(** A batch never deadlocks and never runs forever: from every reachable state
    that is not done some worker can move, and there is no infinite execution, so
    [wg.Wait] returns under every scheduling of the goroutines. *)
Theorem BatchCan_terminates model tbl subjType subjID items :
  well_founded (fun s' s => step model tbl True subjType subjID s s') /\
  forall s, rtc (step model tbl True subjType subjID) (startBatch items) s ->
    finished s \/ exists s', step model tbl True subjType subjID s s'.
Proof.
  split; [apply step_wf|]. intros s Hrtc.
  assert (Hlen : length (workers s) = Nat.min batchWorkers (length items) /\
                 (length (jobs s) <= length items)%nat).
  { eapply rtc_ind_r with (P := fun s => length (workers s) = Nat.min batchWorkers (length items) /\
      (length (jobs s) <= length items)%nat); [|..|exact Hrtc].
    - simpl. unfold indexed. by rewrite length_replicate, length_imap.
    - intros s1 s2 _ Hs [H1 H2]. rewrite (step_keeps_workers _ _ _ _ _ _ _ Hs). split; [done|].
      destruct (step_decreases _ _ _ _ _ _ _ Hs) as [?|[-> _]]; lia. }
  destruct s as [m js ws res]. cbn [workers jobs] in Hlen. destruct Hlen as [Hws Hjs].
  destruct (idle_workers_dec ws) as [Hidle|(w & ec & j & p & Hw)]; [|right; by eapply running_can_step].
  destruct js as [|j js]; [by left|]. right. simpl in Hjs.
  destruct ws as [|[ec|] ws]; cbn [length] in Hws; [unfold batchWorkers in Hws; lia| |by inversion Hidle].
  eexists. eapply step_worker with (w := 0%nat); [reflexivity|constructor].
Qed.
