(* ===== verification/Fragment.v ===== *)
(** * Module fragments

    internal/authz/fragment: the effective model is the base model plus the
    fragments of the modules the registry reports as known and enabled; every
    other fragment is inert. *)

From stdpp Require Import base gmap strings list.
From S2P Require Import Prelude Model BaseModel Tuple Eval EvalSpec EvalProofs Engine.

(** [Row]: the fragment column as a parsed document ([None]: not JSON). *)
Record Row := mkFragment {
  ModuleKey : string;
  Fragment : option json;
  Active : bool
}.

(** [Loaded] *)
Record Loaded := mkLoaded {
  LModel : Model;
  AllowedTypes : gset string;
  TypeOwner : gmap string string;
  KnownEnabled : gmap string bool
}.

Inductive load_error : Type :=
| FetchFailed
| Invalid (moduleKey : string) (e : model_error)
| RedefinesBase (moduleKey typ : string)
| DeclaredTwice (moduleKey typ previous : string)
| EffectiveInvalid (e : model_error).

Definition with_module {A} (key : string) (r : result model_error A) : result load_error A :=
  match r with Ok a => Ok a | Err e => Err (Invalid key e) end.

(** [harvestTypeNames]; the caller ignores a failure. *)
Definition harvestTypeNames (fragment : option json) : gset string :=
  match fragment with
  | Some (JObj kvs) => list_to_set (fst <$> kvs)
  | _ => ∅
  end.

(** [knownEnabled[key]] on a Go map: a missing key is false. *)
Definition enabled (knownEnabled : gmap string bool) (key : string) : bool :=
  default false (knownEnabled !! key).

(** The loop [for t := range m] of [Load]: refuses base types and types another
    fragment declares, and records the owner of the others. *)
Fixpoint claimTypes (key : string) (types : list string) (owner : gmap string string)
    : result load_error (gmap string string) :=
  match types with
  | [] => Ok owner
  | t :: types' =>
      if IsBaseType t then Err (RedefinesBase key t)
      else match owner !! t with
           | Some prev => Err (DeclaredTwice key t prev)
           | None => claimTypes key types' (<[t := key]> owner)
           end
  end.

(** The variables [Load] updates: [merged], [allowed] and [owner]. *)
Record loadState := mkLoad {
  merged : Model;
  allowed : gset string;
  owner : gmap string string
}.

(** The body of the loop [for _, r := range rows]. *)
Definition loadRow (knownEnabled : gmap string bool) (r : Row) (s : loadState)
    : result load_error loadState :=
  let allowed' := harvestTypeNames (Fragment r) ∪ allowed s in
  if negb (enabled knownEnabled (ModuleKey r)) || negb (Active r)
  then Ok (mkLoad (merged s) allowed' (owner s))
  else
    let! m := with_module (ModuleKey r) (LoadModel (Fragment r)) in
    let! owner' := claimTypes (ModuleKey r) (fst <$> map_to_list m) (owner s) in
    let! _ := with_module (ModuleKey r) (ValidateCompanyModuleAnchor m) in
    let! merged' := with_module (ModuleKey r) (Merge (merged s) m) in
    Ok (mkLoad merged' allowed' owner').

Fixpoint loadRows (knownEnabled : gmap string bool) (rows : list Row) (s : loadState)
    : result load_error loadState :=
  match rows with
  | [] => Ok s
  | r :: rows' => let! s' := loadRow knownEnabled r s in loadRows knownEnabled rows' s'
  end.

Definition initialLoad : loadState := mkLoad BaseModel (dom BaseModel) ∅.

(** [Load]; [rows] is what [FetchRows] returned. *)
Definition Load (rows : result load_error (list Row)) (knownEnabled : gmap string bool)
    : result load_error Loaded :=
  let! rs := rows in
  let! s := loadRows knownEnabled rs initialLoad in
  match ValidateTupleToUsersetTargets (merged s) with
  | Err e => Err (EffectiveInvalid e)
  | Ok _ => Ok (mkLoaded (merged s) (allowed s) (owner s) knownEnabled)
  end.

(** Whether a type is known but not effective: declared by a fragment whose module
    is unknown, disabled or inactive. *)
Definition inert (l : Loaded) (objType : string) : bool :=
  match LModel l !! objType with
  | Some _ => false
  | None => bool_decide (objType ∈ AllowedTypes l)
  end.

(** [fragment.Check] *)
Definition FragmentCheck (db : Database) (l : Loaded) (objType objID rel subjType subjID : string)
    : result check_error bool :=
  if inert l objType then Ok false
  else Check (LModel l) db objType objID rel subjType subjID.

(** [fragment.CheckInCompany] *)
Definition FragmentCheckInCompany (db : Database) (l : Loaded)
    (objType objID rel subjType subjID companyID : string) : result check_error bool :=
  if inert l objType then Ok false
  else CheckInCompany (LModel l) db objType objID rel subjType subjID companyID.

(** ** Lemmas *)

Lemma with_module_ok {A} key (r : result model_error A) a : with_module key r = Ok a <-> r = Ok a.
Proof. destruct r; simpl; naive_solver. Qed.

(** Base types are tracked by domain membership, which does not unfold the base
    model. *)
Lemma IsBaseType_spec t : IsBaseType t = bool_decide (t ∈ dom BaseModel).
Proof. unfold IsBaseType. apply bool_decide_ext. by rewrite elem_of_dom. Qed.

Section base_types.
(** The base model's types, by name only. *)
Context (base : gset string) (Hbase : forall t, IsBaseType t = bool_decide (t ∈ base)).

Lemma claimTypes_ok key types own own' :
  NoDup types ->
  claimTypes key types own = Ok own' <->
  (forall t, t ∈ types -> t ∉ base /\ own !! t = None) /\
  own' = list_to_map ((.,key) <$> types) ∪ own.
Proof.
  revert own. induction types as [|t types IH]; intros own Hnd; simpl.
  - rewrite map_empty_union. split; [intros [= ->]|intros [_ ->]]; [|done].
    split; [|done]. intros t Ht. by apply not_elem_of_nil in Ht.
  - apply NoDup_cons in Hnd as [Ht Hnd].
    assert (Hnone : (list_to_map ((.,key) <$> types) : gmap string string) !! t = None).
    { apply not_elem_of_list_to_map_1. rewrite <- list_fmap_compose. simpl. by rewrite list_fmap_id. }
    rewrite Hbase. case_bool_decide as Hb.
    { split; [done|]. intros [H _]. by destruct (H t ltac:(left)). }
    destruct (own !! t) eqn:Ho.
    { split; [done|]. intros [H _]. destruct (H t ltac:(left)). congruence. }
    rewrite IH by done. rewrite <- insert_union_r, <- insert_union_l by done.
    setoid_rewrite elem_of_cons. split.
    + intros [H ->]. split; [|done]. intros t' [->|Ht']; [done|].
      destruct (H t' Ht') as [? H']. by apply lookup_insert_None in H' as [? _].
    + intros [H ->]. split; [|done]. intros t' Ht'. destruct (H t' (or_intror Ht')).
      split; [done|]. rewrite lookup_insert_ne; [done|]. by intros ->.
Qed.

Definition owners_of (key : string) (m : Model) : gmap string string := (fun _ => key) <$> m.

Lemma claimTypes_model key (m : Model) own own' :
  claimTypes key (fst <$> map_to_list m) own = Ok own' <->
  dom m ## base /\ dom m ## dom own /\ own' = owners_of key m ∪ own.
Proof.
  rewrite claimTypes_ok by apply NoDup_fst_map_to_list.
  assert (list_to_map ((.,key) <$> (fst <$> map_to_list m)) = owners_of key m) as ->.
  { unfold owners_of. rewrite <- (list_to_map_to_list m) at 2. rewrite <- list_to_map_fmap.
    f_equal. rewrite <- list_fmap_compose. apply list_fmap_ext. by intros i [? ?]. }
  assert (Hin : forall t, t ∈ fst <$> map_to_list m <-> t ∈ dom m).
  { intros t. rewrite list_elem_of_fmap, elem_of_dom. split.
    - intros ([t' x] & -> & H%elem_of_map_to_list). by exists x.
    - intros [x Hx%elem_of_map_to_list]. by exists (t, x). }
  setoid_rewrite Hin. setoid_rewrite <- not_elem_of_dom. rewrite !elem_of_disjoint. split.
  - intros [H ->]. split_and!; [intros t Ht; by apply H..|done].
  - intros (H1 & H2 & ->). split; [|done]. intros t Ht. split; intros Hx; [by eapply H1|by eapply H2].
Qed.

(** A row is effective when its module is known, enabled and the row active. *)
Definition effective (ke : gmap string bool) (r : Row) : bool :=
  enabled ke (ModuleKey r) && Active r.

Lemma loadRow_inert ke r s :
  effective ke r = false ->
  loadRow ke r s = Ok (mkLoad (merged s) (harvestTypeNames (Fragment r) ∪ allowed s) (owner s)).
Proof.
  unfold effective, loadRow. rewrite andb_false_iff, <- !negb_true_iff, <- orb_true_iff.
  by intros ->.
Qed.

Lemma loadRow_effective ke r s s' :
  effective ke r = true ->
  loadRow ke r s = Ok s' <->
  exists m, LoadModel (Fragment r) = Ok m /\ ValidateCompanyModuleAnchor m = Ok tt /\
    dom m ## base /\ dom m ## dom (owner s) /\ merged s ##ₘ m /\
    s' = mkLoad (merged s ∪ m) (harvestTypeNames (Fragment r) ∪ allowed s)
                (owners_of (ModuleKey r) m ∪ owner s).
Proof.
  unfold effective, loadRow. intros He.
  assert (negb (enabled ke (ModuleKey r)) || negb (Active r) = false) as ->.
  { apply andb_true_iff in He as [-> ->]. done. }
  rewrite result_bind_ok. split.
  - intros (m & Hm%with_module_ok & H). exists m.
    apply result_bind_ok in H as (own' & Hown%claimTypes_model & H). destruct Hown as (? & ? & ->).
    apply result_bind_ok in H as ([] & Ha%with_module_ok & H).
    apply result_bind_ok in H as (m' & Hmm%with_module_ok & [= <-]).
    apply Merge_ok in Hmm as [? ->]. done.
  - intros (m & Hm & Ha & Hb & Ho & Hd & ->). exists m. split; [by apply with_module_ok|].
    rewrite (proj2 (claimTypes_model _ _ _ _) (conj Hb (conj Ho eq_refl))). simpl.
    rewrite Ha. simpl. by rewrite (proj2 (Merge_ok _ _ _) (conj Hd eq_refl)).
Qed.

Lemma loadRow_claimed ke r s m e :
  effective ke r = true -> LoadModel (Fragment r) = Ok m ->
  claimTypes (ModuleKey r) (fst <$> map_to_list m) (owner s) = Err e -> loadRow ke r s = Err e.
Proof.
  intros [He Ha]%andb_true_iff Hm Hc. unfold loadRow. rewrite He, Ha. simpl. rewrite Hm. simpl. by rewrite Hc.
Qed.

(** ** What the loop maintains *)

(** The types of [merged] are the base types and the owned ones; an owned type's
    definition is the one its owner's fragment gives, with a direct anchor. *)
Record load_inv (ke : gmap string bool) (B : Model) (rows : list Row) (s : loadState) : Prop := {
  li_dom : dom (merged s) = base ∪ dom (owner s);
  li_disj : base ## dom (owner s);
  li_base : forall t rels, B !! t = Some rels -> merged s !! t = Some rels;
  li_owned : forall t key rels, owner s !! t = Some key -> merged s !! t = Some rels ->
    exists r m, r ∈ rows /\ ModuleKey r = key /\ effective ke r = true /\
      LoadModel (Fragment r) = Ok m /\ m !! t = Some rels /\
      rels !! "company_module" = Some kindThis;
  li_allowed : forall t, t ∈ allowed s <->
    t ∈ base \/ exists r, r ∈ rows /\ t ∈ harvestTypeNames (Fragment r);
  li_present : forall r, r ∈ rows -> effective ke r = true ->
    exists m, LoadModel (Fragment r) = Ok m /\ m ⊆ merged s /\ owners_of (ModuleKey r) m ⊆ owner s
}.

Lemma allowed_step rows r (old new : gset string) :
  (forall t, t ∈ old <-> t ∈ base \/ exists r, r ∈ rows /\ t ∈ harvestTypeNames (Fragment r)) ->
  new = harvestTypeNames (Fragment r) ∪ old ->
  forall t, t ∈ new <-> t ∈ base \/ exists r', r' ∈ rows ++ [r] /\ t ∈ harvestTypeNames (Fragment r').
Proof.
  intros H -> t. rewrite elem_of_union, H. setoid_rewrite elem_of_app.
  setoid_rewrite list_elem_of_singleton. split.
  - intros [?|[?|(r' & ? & ?)]]; eauto 6.
  - intros [?|(r' & [?| ->] & ?)]; eauto 6.
Qed.

Lemma load_inv_step ke B rows r s s' :
  dom B = base -> load_inv ke B rows s -> loadRow ke r s = Ok s' -> load_inv ke B (rows ++ [r]) s'.
Proof.
  intros HB [Hd Hdj Hb Ho Ha Hp] Hr. destruct (effective ke r) eqn:He.
  - apply loadRow_effective in Hr as (m & Hm & Hanc & Hmb & Hmo & Hmm & ->); [|done].
    assert (Hdomo : dom (owners_of (ModuleKey r) m) = dom m) by (unfold owners_of; apply dom_fmap_L).
    split; simpl.
    + rewrite !dom_union_L, Hd, Hdomo. clear -Hd. set_solver.
    + rewrite dom_union_L, Hdomo. clear -Hdj Hmb. set_solver.
    + intros t rels Ht. apply lookup_union_Some_l. by apply Hb.
    + intros t key rels Hk Ht. apply lookup_union_Some_raw in Hk as [Hk|[Hk1 Hk2]].
      * unfold owners_of in Hk. apply lookup_fmap_Some in Hk as (rels' & <- & Hmt).
        rewrite map_union_comm in Ht by done. rewrite (lookup_union_Some_l _ _ _ _ Hmt) in Ht.
        simplify_eq. exists r, m. rewrite elem_of_app, list_elem_of_singleton.
        split_and!; auto. by eapply ValidateCompanyModuleAnchor_ok.
      * assert (Hmt : m !! t = None).
        { unfold owners_of in Hk1. rewrite lookup_fmap in Hk1. by destruct (m !! t). }
        rewrite lookup_union_l in Ht by done.
        destruct (Ho t key rels Hk2 Ht) as (r' & m' & Hin & Hrest). exists r', m'.
        rewrite elem_of_app. auto.
    + by eapply allowed_step.
    + intros r' [Hr'|Hr'%list_elem_of_singleton]%elem_of_app He'.
      * destruct (Hp r' Hr' He') as (m' & Hm' & Hsub & Hown). exists m'. split_and!; [done|..].
        -- etrans; [exact Hsub|apply map_union_subseteq_l].
        -- etrans; [exact Hown|]. apply map_union_subseteq_r, map_disjoint_dom.
           rewrite Hdomo. clear -Hmo. set_solver.
      * subst r'. exists m. split_and!; [done|by apply map_union_subseteq_r|apply map_union_subseteq_l].
  - rewrite loadRow_inert in Hr by done. injection Hr as <-. split; simpl; auto.
    + intros t key rels Hk Ht. destruct (Ho t key rels Hk Ht) as (r' & m' & Hin & Hrest).
      exists r', m'. rewrite elem_of_app. auto.
    + by eapply allowed_step.
    + intros r' [Hr'|Hr'%list_elem_of_singleton]%elem_of_app He'; [by apply Hp|congruence].
Qed.

Lemma load_inv_rows ke B done_rows rows s s' :
  dom B = base -> load_inv ke B done_rows s -> loadRows ke rows s = Ok s' ->
  load_inv ke B (done_rows ++ rows) s'.
Proof.
  intros HB. revert done_rows s. induction rows as [|r rows IH]; intros done_rows s Hi Hr; simpl in Hr.
  - injection Hr as <-. by rewrite app_nil_r.
  - apply result_bind_ok in Hr as (s1 & H1 & H2).
    rewrite cons_middle, (assoc_L (++)). eapply IH; [|exact H2]. by eapply load_inv_step.
Qed.

(** ** The order of rows does not matter *)

Lemma loadRow_swap ke r1 r2 s s1 s2 :
  loadRow ke r1 s = Ok s1 -> loadRow ke r2 s1 = Ok s2 ->
  exists s1', loadRow ke r2 s = Ok s1' /\ loadRow ke r1 s1' = Ok s2.
Proof.
  destruct (effective ke r1) eqn:E1, (effective ke r2) eqn:E2; intros H1 H2.
  - apply loadRow_effective in H1 as (m1 & Hm1 & Ha1 & Hb1 & Ho1 & Hd1 & ->); [|done].
    apply loadRow_effective in H2 as (m2 & Hm2 & Ha2 & Hb2 & Ho2 & Hd2 & ->); [|done]. simpl in *.
    assert (Hdo : forall k m, dom (owners_of k m) = dom m) by (intros; unfold owners_of; apply dom_fmap_L).
    rewrite dom_union_L, Hdo in Ho2. apply map_disjoint_union_l in Hd2 as [Hd2 Hd12].
    eexists. split.
    + apply loadRow_effective; [done|]. exists m2. split_and!; auto. clear -Ho2. set_solver.
    + apply loadRow_effective; [done|]. exists m1. simpl. split_and!; auto.
      * rewrite dom_union_L, Hdo. clear -Ho1 Ho2. set_solver.
      * apply map_disjoint_union_l. split; [done|]. by apply map_disjoint_sym.
      * f_equal; [| |].
        -- rewrite <- !(assoc_L (∪) (merged s)). f_equal. by apply map_union_comm.
        -- clear. set_solver.
        -- rewrite !(assoc_L (∪)). f_equal. apply map_union_comm, map_disjoint_dom.
           rewrite !Hdo. clear -Ho2. set_solver.
  - apply loadRow_effective in H1 as (m1 & Hm1 & Ha1 & Hb1 & Ho1 & Hd1 & ->); [|done].
    rewrite loadRow_inert in H2 by done. injection H2 as <-. eexists. split; [by apply loadRow_inert|].
    apply loadRow_effective; [done|]. exists m1. simpl. split_and!; auto. f_equal. clear. set_solver.
  - rewrite loadRow_inert in H1 by done. injection H1 as <-.
    apply loadRow_effective in H2 as (m2 & Hm2 & Ha2 & Hb2 & Ho2 & Hd2 & ->); [|done]. simpl in *.
    eexists. split; [apply loadRow_effective; [done|]; exists m2; by split_and!|].
    rewrite loadRow_inert by done. simpl. do 2 f_equal. clear. set_solver.
  - rewrite loadRow_inert in H1 by done. injection H1 as <-.
    rewrite loadRow_inert in H2 by done. injection H2 as <-.
    eexists. split; [by apply loadRow_inert|]. rewrite loadRow_inert by done. simpl.
    do 2 f_equal. clear. set_solver.
Qed.

Lemma loadRows_perm ke rows rows' s s' :
  rows ≡ₚ rows' -> loadRows ke rows s = Ok s' -> loadRows ke rows' s = Ok s'.
Proof.
  intros Hp. revert s. induction Hp as [|r rows rows' _ IH|r1 r2 rows|rows1 rows2 rows3 _ IH1 _ IH2]; intros s Hr; simpl in *.
  - done.
  - apply result_bind_ok in Hr as (s1 & H1 & H2). rewrite H1. simpl. auto.
  - apply result_bind_ok in Hr as (s1 & H1 & H). apply result_bind_ok in H as (s2 & H2 & H3).
    destruct (loadRow_swap ke r2 r1 s s1 s2 H1 H2) as (s1' & H1' & H2').
    rewrite H1'. simpl. rewrite H2'. simpl. done.
  - auto.
Qed.
End base_types.

Lemma initial_inv ke : load_inv (dom BaseModel) ke BaseModel [] initialLoad.
Proof.
  unfold initialLoad. generalize BaseModel. intros B. split; simpl.
  - set_solver.
  - set_solver.
  - intros t rels Ht. exact Ht.
  - intros t key rels Hk. by rewrite lookup_empty in Hk.
  - intros t. split; [by left|]. intros [Ht|(r & Hr & _)]; [exact Ht|by apply not_elem_of_nil in Hr].
  - intros r Hr. by apply not_elem_of_nil in Hr.
Qed.

Lemma Load_inv rows ke l :
  Load (Ok rows) ke = Ok l ->
  exists s, loadRows ke rows initialLoad = Ok s /\
    load_inv (dom BaseModel) ke BaseModel rows s /\ l = mkLoaded (merged s) (allowed s) (owner s) ke.
Proof.
  unfold Load. cbn [result_bind]. intros H. apply result_bind_ok in H as (s & Hs & H).
  exists s. split; [exact Hs|]. split.
  - exact (load_inv_rows (dom BaseModel) IsBaseType_spec ke BaseModel [] rows initialLoad s eq_refl (initial_inv ke) Hs).
  - destruct (ValidateTupleToUsersetTargets (merged s)); [|discriminate H]. injection H as <-. reflexivity.
Qed.

Lemma unknown_type_error model db t i r st si c :
  model !! t = None -> CheckInCompany model db t i r st si c = Err (UNKNOWN_TYPE t).
Proof.
  intros Ht. unfold CheckInCompany, topCheck, topFuel. cbn [run check Nat.add MaxDepth].
  rewrite lookup_empty. simpl. by rewrite Ht.
Qed.

(** ** Properties *)

(** A row states a definition of a type: the module is known and enabled, the row
    active, and its fragment, which LoadModel accepts, defines the type so. *)
Definition states (ke : gmap string bool) (r : Row) (t : string) (rels : Relations) : Prop :=
  effective ke r = true /\ exists m, LoadModel (Fragment r) = Ok m /\ m !! t = Some rels.

(** C7. The effective model is the base model plus enabled fragments: exactly
    them, and all of them.  A type has a definition in it if and only if the base
    model or the active fragment of a known and enabled module gives it that
    definition.  Each such fragment loads, is in the model with every type it
    defines, touches no base type, is named by [TypeOwner] as the owner of its
    types (and nothing else is named an owner), and gives each the direct
    company_module anchor the decision layer binds objects through. *)
Theorem Load_effective rows ke l :
  Load (Ok rows) ke = Ok l ->
  (forall t rels, LModel l !! t = Some rels <->
     BaseModel !! t = Some rels \/ exists r, r ∈ rows /\ states ke r t rels) /\
  (forall r, r ∈ rows -> effective ke r = true -> exists m, LoadModel (Fragment r) = Ok m) /\
  (forall r t rels, r ∈ rows -> states ke r t rels ->
     t ∉ dom BaseModel /\ TypeOwner l !! t = Some (ModuleKey r) /\
     rels !! "company_module" = Some kindThis) /\
  (forall t key, TypeOwner l !! t = Some key ->
     exists r rels, r ∈ rows /\ ModuleKey r = key /\ states ke r t rels).
Proof.
  intros H. destruct (Load_inv rows ke l H) as (s & _ & Hinv & ->). clear H.
  revert Hinv. generalize BaseModel. intros B Hinv. simpl.
  assert (Hst : forall r t rels, r ∈ rows -> states ke r t rels ->
            merged s !! t = Some rels /\ owner s !! t = Some (ModuleKey r)).
  { intros r t rels Hr (He & m & Hm & Ht).
    destruct (li_present _ _ _ _ _ Hinv r Hr He) as (m' & Hm' & Hsub & Hown).
    assert (m' = m) as -> by congruence. split; [exact (lookup_weaken _ _ _ _ Ht Hsub)|]. refine (lookup_weaken _ _ _ _ _ Hown).
    unfold owners_of. by rewrite lookup_fmap, Ht. }
  assert (Hfrom : forall t key rels, owner s !! t = Some key -> merged s !! t = Some rels ->
            rels !! "company_module" = Some kindThis /\
            exists r, r ∈ rows /\ ModuleKey r = key /\ states ke r t rels).
  { intros t key rels Hk Ht.
    destruct (li_owned _ _ _ _ _ Hinv t key rels Hk Ht) as (r & m & Hr & Hkr & He & Hm & Hmt & Hc).
    split; [done|]. exists r. split; [exact Hr|]. split; [exact Hkr|]. split; [exact He|]. exists m. by split. }
  destruct Hinv as [Hd Hdj Hb _ _ Hp]. split_and!.
  - intros t rels. split; [|intros [HB|(r & Hr & Hs)]; [by apply Hb|by apply (Hst r)]].
    intros Ht. destruct (B !! t) as [rels'|] eqn:HB; [left; apply Hb in HB; congruence|]. right.
    assert (Hin : t ∈ dom (owner s)).
    { apply not_elem_of_dom in HB. apply elem_of_dom_2 in Ht. rewrite Hd in Ht. clear -Ht HB. set_solver. }
    apply elem_of_dom in Hin as [key Hkey].
    destruct (Hfrom t key rels Hkey Ht) as (_ & r & Hr & _ & Hs). exists r. split; [exact Hr|exact Hs].
  - intros r Hr He. destruct (Hp r Hr He) as (m & Hm & _). by exists m.
  - intros r t rels Hr Hs. destruct (Hst r t rels Hr Hs) as [Ht Ho]. split_and!.
    + apply elem_of_dom_2 in Ho. clear -Ho Hdj. set_solver.
    + exact Ho.
    + by apply (Hfrom t (ModuleKey r)).
  - intros t key Hk. assert (Hin : t ∈ dom (merged s)).
    { rewrite Hd. apply elem_of_dom_2 in Hk. clear -Hk. set_solver. }
    apply elem_of_dom in Hin as [rels Ht].
    destruct (Hfrom t key rels Hk Ht) as (_ & r & ? & ? & ?). by exists r, rels.
Qed.

(** An enabled module, a disabled one and one the registry does not know. *)
Definition demoDocsRow : Row :=
  mkFragment "docs" (Some (JObj [("document_page", JObj [("company_module", JObj [("this", JBool true)]);
     ("viewer", JObj [("this", JBool true)])])])) true.

Definition demoRows : list Row := [
  demoDocsRow;
  mkFragment "hr" (Some (JObj [("salary", JObj [("company_module", JObj [("this", JBool true)])])])) true;
  mkFragment "ghost" (Some (JObj [("spectre", JObj [])])) true].

Definition demoEnabled : gmap string bool := <["docs" := true]> (<["hr" := false]> ∅).

Definition demoLoaded : Loaded :=
  match Load (Ok demoRows) demoEnabled with
  | Ok l => l
  | Err _ => mkLoaded ∅ ∅ ∅ ∅
  end.

Lemma demo_loads : Load (Ok demoRows) demoEnabled = Ok demoLoaded.
Proof.
  unfold demoLoaded.
  assert (H : is_ok (Load (Ok demoRows) demoEnabled) = true) by (vm_compute; reflexivity).
  destruct (Load (Ok demoRows) demoEnabled); [reflexivity|discriminate H].
Qed.

Definition demoPageRelations : Relations := default ∅ (LModel demoLoaded !! "document_page").

Lemma Load_effective_witness :
  states demoEnabled demoDocsRow "document_page" demoPageRelations /\
  LModel demoLoaded !! "document_page" = Some demoPageRelations /\
  TypeOwner demoLoaded !! "document_page" = Some "docs" /\ LModel demoLoaded !! "salary" = None.
Proof.
  destruct (Load_effective demoRows demoEnabled demoLoaded demo_loads) as (Hiff & _ & Hst & _).
  assert (Hs : states demoEnabled demoDocsRow "document_page" demoPageRelations).
  { split; [vm_compute; reflexivity|]. eexists. split; vm_compute; reflexivity. }
  assert (Hin : demoDocsRow ∈ demoRows) by (apply list_elem_of_here).
  split; [exact Hs|]. split; [apply Hiff; right; exists demoDocsRow; split; [exact Hin|exact Hs]|].
  split; [exact (proj1 (proj2 (Hst _ _ _ Hin Hs)))|vm_compute; reflexivity].
Defined.

(** The effective model does not depend on the order in which the database
    returns the fragments: every order loads, and to the same result. *)
Theorem Load_order_independent rows rows' ke l :
  rows ≡ₚ rows' -> Load (Ok rows) ke = Ok l -> Load (Ok rows') ke = Ok l.
Proof.
  intros Hp. unfold Load. cbn [result_bind]. intros H. apply result_bind_ok in H as (s & Hs & H).
  apply (loadRows_perm (dom BaseModel) IsBaseType_spec ke rows rows' initialLoad s Hp) in Hs.
  rewrite Hs. exact H.
Qed.

Lemma Load_order_independent_witness :
  Load (Ok (reverse demoRows)) demoEnabled = Ok demoLoaded.
Proof.
  apply (Load_order_independent demoRows (reverse demoRows) demoEnabled demoLoaded); [|exact demo_loads].
  symmetry. apply reverse_Permutation.
Defined.

(** Inertness of modules that are not enabled.  A check on an object type
    that is not effective answers false if some stored fragment declares the type,
    whatever the tuples, and is an UNKNOWN_TYPE error if no fragment does; it
    never allows. *)
Theorem FragmentCheck_inert rows ke l db t i r subjType subjID :
  Load (Ok rows) ke = Ok l -> LModel l !! t = None ->
  FragmentCheck db l t i r subjType subjID =
    if existsb (fun row => bool_decide (t ∈ harvestTypeNames (Fragment row))) rows
    then Ok false else Err (UNKNOWN_TYPE t).
Proof.
  intros H Ht. destruct (Load_inv rows ke l H) as (s & _ & Hinv & ->). clear H. simpl in *.
  unfold FragmentCheck, inert. cbn [LModel AllowedTypes]. rewrite Ht, Check_plain, unknown_type_error by exact Ht.
  revert Hinv. generalize BaseModel. intros B [Hd Hdj Hb Ho Ha].
  assert (HnB : t ∉ dom B).
  { intros HB. apply elem_of_dom in HB as [rels HB]. apply Hb in HB. congruence. }
  specialize (Ha t). case_bool_decide as Hal; destruct (existsb _ rows) eqn:He; try reflexivity; exfalso.
  - apply Ha in Hal as [Hal|(row & Hr & Hh)]; [by apply HnB|].
    enough (existsb (fun row => bool_decide (t ∈ harvestTypeNames (Fragment row))) rows = true) by congruence.
    apply existsb_elem_of. exists row. split; [exact Hr|by apply bool_decide_eq_true].
  - apply existsb_elem_of in He as (row & Hr & Hh%bool_decide_eq_true). apply Hal, Ha. right. by exists row.
Qed.

Lemma FragmentCheck_inert_witness :
  FragmentCheck (db_of demoTable) demoLoaded "salary" "7" "viewer" "user" "alice" = Ok false /\
  FragmentCheck (db_of demoTable) demoLoaded "nothing" "7" "viewer" "user" "alice" = Err (UNKNOWN_TYPE "nothing").
Proof.
  split.
  - rewrite (FragmentCheck_inert demoRows demoEnabled demoLoaded (db_of demoTable) "salary" "7" "viewer" "user" "alice"
      demo_loads); vm_compute; reflexivity.
  - rewrite (FragmentCheck_inert demoRows demoEnabled demoLoaded (db_of demoTable) "nothing" "7" "viewer" "user" "alice"
      demo_loads); vm_compute; reflexivity.
Defined.
