(* ===== verification/TupleStore.v ===== *)
(** * The tuple store

    internal/authz/store: the operations that write authz.tuple,
    authz.grant_ledger and authz.default_grant inside a caller's transaction.
    A transaction is a state passing function that may fail at any statement; the
    caller rolls back on an error, so an error carries no state. *)

From stdpp Require Import base gmap strings list.
From S2P Require Import Prelude Tuple.

Inductive op : Type := grant | revoke.

#[export] Instance op_eq_dec : EqDecision op.
Proof. solve_decision. Defined.

(** A row of authz.grant_ledger; [lr_correlation] is NULL for an empty id. *)
Record LedgerRow := mkLedger {
  lr_actor : string;
  lr_tuple : Tuple;
  lr_op : op;
  lr_correlation : option string
}.

(** The three tables the package writes. *)
Record AuthzDB := mkDB {
  tuples : Table;
  ledger : list LedgerRow;
  defaults : gset (string * string)
}.

Inductive store_error : Type :=
| StatementFailed
| NoTuples
| EmptyField (t : Tuple)
| AnchorConflictError (t : Tuple)
| ShapeNotPermitted (t : Tuple)
| KeysRequired.

(** ** Transactions *)

(** The tables as the transaction sees them and the number of statements run. *)
Record txState := mkTx { tx_db : AuthzDB; statements : nat }.

Abbreviation Tx A := (SE txState store_error A).

(** A transaction from begin to commit, on the committed tables. *)
Definition runTx {A} (m : Tx A) (db : AuthzDB) : result store_error (A * AuthzDB) :=
  match m (mkTx db 0) with
  | Ok (a, s) => Ok (a, tx_db s)
  | Err e => Err e
  end.

Lemma runTx_ok {A} (m : Tx A) db a db' :
  runTx m db = Ok (a, db') <-> exists n, m (mkTx db 0) = Ok (a, mkTx db' n).
Proof.
  unfold runTx. destruct (m (mkTx db 0)) as [[a' [db1 n]]|e]; simpl; naive_solver.
Qed.

Section store.
(** Which statements of the transaction fail (a lost connection, a timeout). *)
Context (fails : nat -> bool).

(** One statement: it fails as a whole, or runs. *)
Definition exec {A} (stmt : AuthzDB -> result store_error (A * AuthzDB)) : Tx A :=
  fun s =>
    if fails (statements s) then Err StatementFailed
    else match stmt (tx_db s) with
         | Ok (a, db) => Ok (a, mkTx db (S (statements s)))
         | Err e => Err e
         end.

(** The rows the partial unique index tuple_one_anchor_per_object covers
    (migrations/authz/0012). *)
Definition is_anchor (t : Tuple) : bool :=
  seqb (Relation t) "company_module" && seqb (SubjectType t) "company_module".

Definition on_obj (t i : string) (tp : Tuple) : Prop := ObjectType tp = t /\ ObjectID tp = i.
#[export] Instance on_obj_dec t i tp : Decision (on_obj t i tp).
Proof. unfold on_obj. apply _. Defined.

Definition anchors_on (tbl : Table) (t i : string) : Table :=
  filter (fun tp => on_obj t i tp /\ is_anchor tp = true) tbl.

(** insertTupleSQL: ON CONFLICT on the primary key does nothing; a second anchor
    violates the index. *)
Definition insertTuple (tp : Tuple) (db : AuthzDB) : result store_error (nat * AuthzDB) :=
  if decide (tp ∈ tuples db) then Ok (0, db)
  else if is_anchor tp && bool_decide (anchors_on (tuples db) (ObjectType tp) (ObjectID tp) <> ∅)
  then Err (AnchorConflictError tp)
  else Ok (1, mkDB ({[tp]} ∪ tuples db) (ledger db) (defaults db)).

(** deleteTupleSQL *)
Definition deleteTuple (tp : Tuple) (db : AuthzDB) : result store_error (nat * AuthzDB) :=
  if decide (tp ∈ tuples db)
  then Ok (1, mkDB (tuples db ∖ {[tp]}) (ledger db) (defaults db))
  else Ok (0, db).

(** deleteObjectTuplesSQL, RETURNING the deleted rows. *)
Definition deleteObjectTuples (t i : string) (db : AuthzDB)
    : result store_error (list Tuple * AuthzDB) :=
  Ok (elements (filter (on_obj t i) (tuples db)),
      mkDB (filter (fun tp => ~ on_obj t i tp) (tuples db)) (ledger db) (defaults db)).

(** insertLedgerSQL *)
Definition insertLedger (row : LedgerRow) (db : AuthzDB) : result store_error (unit * AuthzDB) :=
  Ok (tt, mkDB (tuples db) (ledger db ++ [row]) (defaults db)).

Definition nullable (s : string) : option string := if seqb s "" then None else Some s.

(** The second loop of [revokeObjectRest]. *)
Fixpoint ledgerRevokes (actor : string) (corrID : option string) (gone : list Tuple) : Tx unit :=
  match gone with
  | [] => tret tt
  | t :: gone' =>
      let* _ := exec (insertLedger (mkLedger actor t revoke corrID)) in
      ledgerRevokes actor corrID gone'
  end.

(** [revokeObjectRest] *)
Definition revokeObjectRest (actor : string) (corrID : option string) (t i : string) : Tx unit :=
  let* gone := exec (deleteObjectTuples t i) in
  ledgerRevokes actor corrID gone.

Definition has_empty_field (t : Tuple) : bool :=
  seqb (ObjectType t) "" || seqb (ObjectID t) "" || seqb (Relation t) ""
  || seqb (SubjectType t) "" || seqb (SubjectID t) "".

(** The body of the loop of [writeTuples]. *)
Definition writeTuple (actor : string) (corrID : option string) (o : op) (tp : Tuple) : Tx unit :=
  if has_empty_field tp then tfail (EmptyField tp)
  else
    let* affected := exec (match o with grant => insertTuple tp | revoke => deleteTuple tp end) in
    if (affected =? 0)%nat then tret tt
    else
      let* _ := exec (insertLedger (mkLedger actor tp o corrID)) in
      if bool_decide (o = revoke) && is_anchor tp
      then revokeObjectRest actor corrID (ObjectType tp) (ObjectID tp)
      else tret tt.

Fixpoint writeTuplesLoop (actor : string) (corrID : option string) (o : op) (ts : list Tuple) : Tx unit :=
  match ts with
  | [] => tret tt
  | tp :: ts' =>
      let* _ := writeTuple actor corrID o tp in
      writeTuplesLoop actor corrID o ts'
  end.

(** [writeTuples] *)
Definition writeTuples (actor correlationID : string) (o : op) (ts : list Tuple) : Tx unit :=
  match ts with
  | [] => tfail NoTuples
  | _ => writeTuplesLoop actor (nullable correlationID) o ts
  end.

(** [Grant] and [Revoke] *)
Definition Grant (actor correlationID : string) (ts : list Tuple) : Tx unit :=
  writeTuples actor correlationID grant ts.
Definition Revoke (actor correlationID : string) (ts : list Tuple) : Tx unit :=
  writeTuples actor correlationID revoke ts.

(** [SystemPlatformID] *)
Definition SystemPlatformID : string := "platform".

(** [SuperadminTuple] *)
Definition SuperadminTuple (subjectID : string) : Tuple :=
  mkTuple "system" SystemPlatformID "superadmin" "user" subjectID "".

Definition superadmin_row (tp : Tuple) : Prop :=
  ObjectType tp = "system" /\ ObjectID tp = SystemPlatformID /\ Relation tp = "superadmin" /\
  SubjectType tp = "user" /\ SubjectRelation tp = "".
#[export] Instance superadmin_row_dec tp : Decision (superadmin_row tp).
Proof. unfold superadmin_row. apply _. Defined.

(** [CountSuperadmins] *)
Definition superadmins (tbl : Table) : nat := size (filter superadmin_row tbl).
Definition CountSuperadmins : Tx nat := exec (fun db => Ok (superadmins (tuples db), db)).

(** [AnchorOf]: the empty string when the object has no anchor. *)
Definition anchor_of (tbl : Table) (t i : string) : string :=
  match elements (anchors_on tbl t i) with
  | [] => ""
  | tp :: _ => SubjectID tp
  end.

(** [MemberOfCompany] *)
Definition member_of_company (tbl : Table) (companyID memberID : string) : bool :=
  bool_decide (mkTuple "company" companyID "member" "member" memberID "mapped_user" ∈ tbl).

(** [EnsureCompanyModuleAnchor] *)
Definition companyAnchor (companyID moduleKey : string) : Tuple :=
  mkTuple "company_module" (companyID +:+ "/" +:+ moduleKey) "company" "company" companyID "".

Definition EnsureCompanyModuleAnchor (actor correlationID companyID moduleKey : string) : Tx unit :=
  let* existed := exec (fun db => Ok (bool_decide (companyAnchor companyID moduleKey ∈ tuples db), db)) in
  if (existed : bool) then tret tt
  else Grant actor correlationID [companyAnchor companyID moduleKey].

Definition systemGrant (companyID moduleKey : string) : Tuple :=
  mkTuple "company_module" (companyID +:+ "/" +:+ moduleKey) "system" "system" SystemPlatformID "".

(** INSERT INTO authz.default_grant ... ON CONFLICT DO NOTHING RETURNING: whether
    this call claimed the pair. *)
Definition claimDefault (companyID moduleKey : string) (db : AuthzDB)
    : result store_error (bool * AuthzDB) :=
  if decide ((companyID, moduleKey) ∈ defaults db) then Ok (false, db)
  else Ok (true, mkDB (tuples db) (ledger db) ({[(companyID, moduleKey)]} ∪ defaults db)).

(** [EnsureDefaultGrant] *)
Definition EnsureDefaultGrant (actor correlationID companyID moduleKey : string) : Tx bool :=
  if seqb companyID "" || seqb moduleKey "" then tfail KeysRequired
  else
    let* _ := EnsureCompanyModuleAnchor actor correlationID companyID moduleKey in
    let* claimed := exec (claimDefault companyID moduleKey) in
    if (claimed : bool) then
      let* _ := Grant actor correlationID [systemGrant companyID moduleKey] in tret true
    else tret false.

(** The tuple shapes authz.revoke_position_or_member_tuple accepts
    (migrations/authz/0009). *)
Definition org_shape (t : Tuple) : bool :=
  let shape ot r st sr :=
    seqb (ObjectType t) ot && seqb (Relation t) r && seqb (SubjectType t) st && seqb (SubjectRelation t) sr in
  shape "position" "holder" "member" "mapped_user"
  || shape "member" "mapped_user" "user" ""
  || shape "group" "member" "member" "mapped_user"
  || shape "company" "member" "member" "mapped_user"
  || shape "position" "company" "company" ""
  || shape "group" "company" "company" "".

(** [RevokePositionOrMemberTuple] with the function it calls: one statement that
    deletes the tuple and records the revoke whether or not it was there. *)
Definition RevokePositionOrMemberTuple (actor correlationID : string) (t : Tuple) : Tx unit :=
  if has_empty_field t then tfail (EmptyField t)
  else exec (fun db =>
    if org_shape t
    then Ok (tt, mkDB (tuples db ∖ {[t]})
                   (ledger db ++ [mkLedger actor t revoke (nullable correlationID)]) (defaults db))
    else Err (ShapeNotPermitted t)).

(** ** Lemmas *)

Lemma exec_ok {A} (stmt : AuthzDB -> result store_error (A * AuthzDB)) s a s' :
  exec stmt s = Ok (a, s') ->
  fails (statements s) = false /\ stmt (tx_db s) = Ok (a, tx_db s') /\ statements s' = S (statements s).
Proof.
  unfold exec. destruct (fails (statements s)); [done|].
  destruct (stmt (tx_db s)) as [[a' db]|e] eqn:E; [|done]. intros [= <- <-]. done.
Qed.

Lemma elem_of_anchors_on tbl t i tp :
  tp ∈ anchors_on tbl t i <-> tp ∈ tbl /\ on_obj t i tp /\ is_anchor tp = true.
Proof. unfold anchors_on. rewrite elem_of_filter. naive_solver. Qed.

(** The unique index, as an invariant of the table. *)
Definition one_anchor (tbl : Table) : Prop :=
  forall a b, a ∈ tbl -> b ∈ tbl -> is_anchor a = true -> is_anchor b = true ->
    ObjectType a = ObjectType b -> ObjectID a = ObjectID b -> a = b.

Lemma one_anchor_subset tbl tbl' : tbl' ⊆ tbl -> one_anchor tbl -> one_anchor tbl'.
Proof. intros Hs H a b Ha Hb. apply H; set_solver. Qed.

Lemma one_anchor_insert tbl tp :
  (is_anchor tp = true -> anchors_on tbl (ObjectType tp) (ObjectID tp) = ∅) ->
  one_anchor tbl -> one_anchor ({[tp]} ∪ tbl).
Proof.
  intros Hno H.
  assert (Hfresh : forall c, c ∈ tbl -> is_anchor c = true -> is_anchor tp = true ->
    ObjectType c = ObjectType tp -> ObjectID c = ObjectID tp -> False).
  { intros c Hc Hca Htp Ht Hi. assert (Hin : c ∈ anchors_on tbl (ObjectType tp) (ObjectID tp)).
    { apply elem_of_anchors_on. done. }
    rewrite Hno in Hin by done. by apply not_elem_of_empty in Hin. }
  intros a b [->%elem_of_singleton|Ha]%elem_of_union [->%elem_of_singleton|Hb]%elem_of_union Haa Hab Ht Hi; auto.
  - exfalso. by apply (Hfresh b).
  - exfalso. by apply (Hfresh a).
Qed.

(** ** What each statement does to the tables *)

Definition apply_row (tbl : Table) (row : LedgerRow) : Table :=
  match lr_op row with
  | grant => {[lr_tuple row]} ∪ tbl
  | revoke => tbl ∖ {[lr_tuple row]}
  end.

(** Replays a piece of the ledger over a table. *)
Definition replay (tbl : Table) (rows : list LedgerRow) : Table := foldl apply_row tbl rows.

(** Replays a piece of the ledger, every row of which must be a real change. *)
Fixpoint replay_changes (tbl : Table) (rows : list LedgerRow) : option Table :=
  match rows with
  | [] => Some tbl
  | row :: rows' =>
      if decide (apply_row tbl row = tbl) then None
      else replay_changes (apply_row tbl row) rows'
  end.

Lemma replay_changes_app tbl rows rows' :
  replay_changes tbl (rows ++ rows') = replay_changes tbl rows ≫= (fun tbl' => replay_changes tbl' rows').
Proof. revert tbl. induction rows as [|row rows IH]; intros tbl; simpl; [done|]. case_decide; auto. Qed.

(** What a piece of a transaction leaves behind: the ledger grows by [rows], each
    under the caller's actor and correlation id, and replaying them takes the old
    tuples to the new ones, every row a real change. *)
Definition extends (actor : string) (corrID : option string) (db db' : AuthzDB) : Prop :=
  defaults db' = defaults db /\
  exists rows, ledger db' = ledger db ++ rows /\
    Forall (fun row => lr_actor row = actor /\ lr_correlation row = corrID) rows /\
    replay_changes (tuples db) rows = Some (tuples db').

Lemma extends_refl actor corrID db : extends actor corrID db db.
Proof. split; [done|]. exists []. by rewrite app_nil_r. Qed.

Lemma extends_trans actor corrID db1 db2 db3 :
  extends actor corrID db1 db2 -> extends actor corrID db2 db3 -> extends actor corrID db1 db3.
Proof.
  intros [Hd1 (r1 & Hl1 & Hf1 & Hr1)] [Hd2 (r2 & Hl2 & Hf2 & Hr2)].
  split; [congruence|]. exists (r1 ++ r2).
  rewrite Hl2, Hl1, (assoc_L (++)). split; [done|]. split; [by apply Forall_app|].
  rewrite replay_changes_app, Hr1. done.
Qed.

Lemma extends_one actor corrID db tbl' o tp :
  tbl' = apply_row (tuples db) (mkLedger actor tp o corrID) -> tbl' <> tuples db ->
  extends actor corrID db (mkDB tbl' (ledger db ++ [mkLedger actor tp o corrID]) (defaults db)).
Proof.
  intros -> Hne. split; [done|]. eexists. split; [done|]. split; [by repeat constructor|].
  cbn [replay_changes tuples]. by rewrite decide_False.
Qed.

Lemma ledgerRevokes_ok actor corrID gone s s' :
  ledgerRevokes actor corrID gone s = Ok (tt, s') ->
  tx_db s' = mkDB (tuples (tx_db s))
    (ledger (tx_db s) ++ ((fun t => mkLedger actor t revoke corrID) <$> gone)) (defaults (tx_db s)).
Proof.
  revert s. induction gone as [|t gone IH]; intros s; simpl.
  - intros [= <-]. rewrite app_nil_r. by destruct (tx_db s).
  - rewrite tbind_ok. intros ([] & s1 & Hs1%exec_ok & Hrest). destruct Hs1 as (_ & [= Hs1] & _).
    rewrite (IH _ Hrest), <- Hs1. simpl. by rewrite <- (assoc_L (++)).
Qed.

Lemma replay_revokes actor corrID gone tbl :
  NoDup gone -> (forall t, t ∈ gone -> t ∈ tbl) ->
  replay_changes tbl ((fun t => mkLedger actor t revoke corrID) <$> gone) = Some (tbl ∖ list_to_set gone).
Proof.
  revert tbl. induction gone as [|t gone IH]; intros tbl Hnd Hin; simpl.
  - f_equal. set_solver.
  - apply NoDup_cons in Hnd as [Ht Hnd]. unfold apply_row; simpl.
    assert (Htbl : t ∈ tbl) by (apply Hin; left).
    rewrite decide_False by (clear -Htbl; set_solver).
    rewrite IH; [f_equal; clear; set_solver|done|].
    intros t' Ht'. apply elem_of_difference. split; [apply Hin; by right|].
    rewrite elem_of_singleton. by intros ->.
Qed.

Lemma revokeObjectRest_ok actor corrID t i s s' :
  revokeObjectRest actor corrID t i s = Ok (tt, s') ->
  extends actor corrID (tx_db s) (tx_db s') /\
  tuples (tx_db s') = filter (fun tp => ~ on_obj t i tp) (tuples (tx_db s)).
Proof.
  unfold revokeObjectRest. rewrite tbind_ok. intros (gone & s1 & H1%exec_ok & Hrest%ledgerRevokes_ok).
  destruct H1 as (_ & [= <- Hs1] & _). rewrite Hrest, <- Hs1. simpl. split; [|done].
  split; [done|]. eexists. split; [done|]. split.
  - apply Forall_fmap, Forall_true. done.
  - simpl. rewrite replay_revokes.
    + f_equal. apply set_eq. intros x. rewrite elem_of_difference, elem_of_list_to_set, elem_of_elements, !elem_of_filter.
      destruct (decide (on_obj t i x)); naive_solver.
    + apply NoDup_elements.
    + intros x. rewrite elem_of_elements, elem_of_filter. by intros [_ ?].
Qed.

(** Which tuples a revoke of [ts] removes: the tuples named, and everything on an
    object whose anchor is among them. *)
Definition revoked (tbl : Table) (ts : list Tuple) (tp : Tuple) : Prop :=
  tp ∈ ts \/ exists a, a ∈ ts /\ is_anchor a = true /\ a ∈ tbl /\ on_obj (ObjectType a) (ObjectID a) tp.

Lemma writeTuple_grant_ok actor corrID tp s s' :
  writeTuple actor corrID grant tp s = Ok (tt, s') ->
  extends actor corrID (tx_db s) (tx_db s') /\
  tuples (tx_db s') = {[tp]} ∪ tuples (tx_db s) /\
  (one_anchor (tuples (tx_db s)) -> one_anchor (tuples (tx_db s'))).
Proof.
  unfold writeTuple. destruct (has_empty_field tp); [done|]. rewrite tbind_ok.
  intros (n & s1 & H1%exec_ok & H). destruct H1 as (_ & H1 & _).
  unfold insertTuple in H1. case_decide as Hin.
  { injection H1 as <- Hdb. simpl in H. injection H as <-. rewrite <- Hdb.
    split; [apply extends_refl|]. split; [clear -Hin; set_solver|done]. }
  destruct (is_anchor tp && bool_decide _) eqn:Hanc; [discriminate H1|]. injection H1 as <- Hdb. simpl in H.
  rewrite tbind_ok in H. destruct H as ([] & s2 & H2%exec_ok & H). destruct H2 as (_ & [= Hdb2] & _).
  injection H as <-. rewrite <- Hdb2, <- Hdb. simpl. split; [|split; [done|]].
  - apply extends_one; [done|]. clear -Hin. set_solver.
  - apply one_anchor_insert. intros Ha. rewrite Ha in Hanc. simpl in Hanc.
    apply bool_decide_eq_false in Hanc. by apply dec_stable.
Qed.

Lemma writeTuple_revoke_ok actor corrID tp s s' :
  writeTuple actor corrID revoke tp s = Ok (tt, s') ->
  extends actor corrID (tx_db s) (tx_db s') /\
  forall x, x ∈ tuples (tx_db s') <-> x ∈ tuples (tx_db s) /\ ~ revoked (tuples (tx_db s)) [tp] x.
Proof.
  unfold writeTuple. destruct (has_empty_field tp); [done|]. rewrite tbind_ok.
  intros (n & s1 & H1%exec_ok & H). destruct H1 as (_ & H1 & _). unfold revoked.
  setoid_rewrite list_elem_of_singleton. unfold deleteTuple in H1. case_decide as Hin.
  2:{ injection H1 as <- Hdb. simpl in H. injection H as <-. rewrite <- Hdb.
      split; [apply extends_refl|]. intros x. naive_solver. }
  injection H1 as <- Hdb. simpl in H.
  rewrite tbind_ok in H. destruct H as ([] & s2 & H2%exec_ok & H). destruct H2 as (_ & [= Hdb2] & _).
  rewrite <- Hdb in Hdb2. simpl in Hdb2.
  assert (Hext : extends actor corrID (tx_db s) (tx_db s2)).
  { rewrite <- Hdb2. apply extends_one; [done|]. clear -Hin. set_solver. }
  destruct (is_anchor tp) eqn:Ha.
  - apply revokeObjectRest_ok in H as [Hext2 Htup]. split; [by eapply extends_trans|].
    intros x. rewrite Htup, <- Hdb2, elem_of_filter. simpl. rewrite elem_of_difference, elem_of_singleton.
    unfold on_obj. naive_solver.
  - injection H as <-. split; [done|]. intros x. rewrite <- Hdb2. simpl.
    rewrite elem_of_difference, elem_of_singleton. split.
    + intros [? ?]. split; [done|]. intros [?|(a & -> & ? & _)]; congruence.
    + intros [? Hn]. split; [done|]. intros ->. apply Hn. by left.
Qed.

Lemma grantLoop_ok actor corrID ts s s' :
  writeTuplesLoop actor corrID grant ts s = Ok (tt, s') ->
  extends actor corrID (tx_db s) (tx_db s') /\
  tuples (tx_db s') = list_to_set ts ∪ tuples (tx_db s) /\
  (one_anchor (tuples (tx_db s)) -> one_anchor (tuples (tx_db s'))).
Proof.
  revert s. induction ts as [|tp ts IH]; intros s; simpl.
  - intros [= <-]. split; [apply extends_refl|]. split; [clear; set_solver|done].
  - rewrite tbind_ok. intros ([] & s1 & H1%writeTuple_grant_ok & H2%IH).
    destruct H1 as (He1 & Ht1 & Ho1), H2 as (He2 & Ht2 & Ho2).
    split; [by eapply extends_trans|]. split; [|by auto]. rewrite Ht2, Ht1. clear. set_solver.
Qed.

Lemma revokeLoop_ok actor corrID ts s s' :
  writeTuplesLoop actor corrID revoke ts s = Ok (tt, s') ->
  extends actor corrID (tx_db s) (tx_db s') /\
  forall x, x ∈ tuples (tx_db s') <-> x ∈ tuples (tx_db s) /\ ~ revoked (tuples (tx_db s)) ts x.
Proof.
  revert s. induction ts as [|tp ts IH]; intros s; simpl.
  - intros [= <-]. split; [apply extends_refl|]. intros x. unfold revoked.
    setoid_rewrite elem_of_nil. naive_solver.
  - rewrite tbind_ok. intros ([] & s1 & H1%writeTuple_revoke_ok & H2%IH).
    destruct H1 as (He1 & Ht1), H2 as (He2 & Ht2).
    split; [by eapply extends_trans|]. intros x. rewrite Ht2. unfold revoked in *.
    setoid_rewrite elem_of_cons. setoid_rewrite list_elem_of_singleton in Ht1. setoid_rewrite Ht1.
    split.
    + intros [[Hx Hn1] Hn2]. split; [done|]. intros [[->|Hts]|(a & [->|Ha] & Haa & Hat & Hon)].
      * apply Hn1. by left.
      * apply Hn2. by left.
      * apply Hn1. right. eauto.
      * apply Hn2. right. exists a. do 2 (split; [done|]). split; [|done]. split; [done|].
        intros [->|(a' & -> & Ha' & Hat' & Hon')]; apply Hn1; right; [by exists tp|].
        exists tp. do 3 (split; [done|]). destruct Hon as [? ?], Hon' as [? ?]. split; congruence.
    + intros [Hx Hn]. split; [split; [done|]|].
      * intros [->|(a & -> & Ha)]; apply Hn; [by left; left|]. right. exists tp. split; [by left|done].
      * intros [Hts|(a & Ha & Haa & [Hat _] & Hon)]; apply Hn; [by left; right|]. right. exists a. auto.
Qed.
End store.
