(* ===== verification/StoreProps.v ===== *)
(** * Properties of the tuple store *)

From stdpp Require Import base gmap strings list relations.
From S2P Require Import Prelude Tuple TupleStore.

Lemma writeTuples_loop fails actor corr o ts s s' :
  writeTuples fails actor corr o ts s = Ok (tt, s') ->
  ts <> [] /\ writeTuplesLoop fails actor (nullable corr) o ts s = Ok (tt, s').
Proof. unfold writeTuples. by destruct ts. Qed.

(** ** Success of a grant *)

Definition no_failure (n : nat) : bool := false.

Lemma insertTuple_total tp db :
  one_anchor ({[tp]} ∪ tuples db) -> exists n db', insertTuple tp db = Ok (n, db') /\
    tuples db' = {[tp]} ∪ tuples db.
Proof.
  intros Hone. unfold insertTuple. case_decide as Hin.
  { exists 0, db. split; [done|]. set_solver. }
  destruct (is_anchor tp && bool_decide _) eqn:Hanc; [exfalso|by eexists _, _].
  apply andb_true_iff in Hanc as [Ha Hne%bool_decide_eq_true].
  apply set_choose_L in Hne as [c Hc]. apply elem_of_anchors_on in Hc as (Hct & [Ht Hi] & Hca).
  assert (c = tp) as ->; [|done]. apply Hone; auto; set_solver.
Qed.

Lemma grantLoop_total actor corr ts s :
  Forall (fun tp => has_empty_field tp = false) ts ->
  one_anchor (list_to_set ts ∪ tuples (tx_db s)) ->
  exists s', writeTuplesLoop no_failure actor corr grant ts s = Ok (tt, s').
Proof.
  revert s. induction ts as [|tp ts IH]; intros s Hne Hone; simpl; [by eexists|].
  apply Forall_cons in Hne as [Htp Hne].
  destruct (insertTuple_total tp (tx_db s)) as (n & db' & Hins & Htups).
  { eapply one_anchor_subset; [|exact Hone]. set_solver. }
  assert (Hstep : exists s1, writeTuple no_failure actor corr grant tp s = Ok (tt, s1)).
  { unfold writeTuple, tbind, exec. rewrite Htp. simpl. rewrite Hins.
    destruct (n =? 0)%nat; by eexists. }
  destruct Hstep as [s1 Hs1]. unfold tbind. rewrite Hs1. apply IH; [done|].
  apply writeTuple_grant_ok in Hs1 as (_ & -> & _). eapply one_anchor_subset; [|exact Hone]. set_solver.
Qed.

(** ** Committed operations *)

Inductive storeOp : Type :=
| OpGrant (actor corr : string) (ts : list Tuple)
| OpRevoke (actor corr : string) (ts : list Tuple)
| OpRevokeOrg (actor corr : string) (t : Tuple)
| OpAnchor (actor corr companyID moduleKey : string)
| OpDefault (actor corr companyID moduleKey : string).

Definition runOp (fails : nat -> bool) (o : storeOp) : Tx bool :=
  match o with
  | OpGrant a c ts => let* _ := Grant fails a c ts in tret false
  | OpRevoke a c ts => let* _ := Revoke fails a c ts in tret false
  | OpRevokeOrg a c t => let* _ := RevokePositionOrMemberTuple fails a c t in tret false
  | OpAnchor a c cid mk => let* _ := EnsureCompanyModuleAnchor fails a c cid mk in tret false
  | OpDefault a c cid mk => EnsureDefaultGrant fails a c cid mk
  end.

(** One committed transaction of the package's writers. *)
Definition committed (db db' : AuthzDB) : Prop :=
  exists fails o b, runTx (runOp fails o) db = Ok (b, db').

Lemma Grant_ok fails actor corr ts s s' :
  Grant fails actor corr ts s = Ok (tt, s') ->
  ts <> [] /\ extends actor (nullable corr) (tx_db s) (tx_db s') /\
  tuples (tx_db s') = list_to_set ts ∪ tuples (tx_db s) /\
  (one_anchor (tuples (tx_db s)) -> one_anchor (tuples (tx_db s'))).
Proof. intros [Hne H]%writeTuples_loop. split; [done|]. by eapply grantLoop_ok. Qed.

Lemma EnsureAnchor_ok fails actor corr cid mk s s' :
  EnsureCompanyModuleAnchor fails actor corr cid mk s = Ok (tt, s') ->
  defaults (tx_db s') = defaults (tx_db s) /\
  tuples (tx_db s') = {[companyAnchor cid mk]} ∪ tuples (tx_db s) /\
  (one_anchor (tuples (tx_db s)) -> one_anchor (tuples (tx_db s'))).
Proof.
  unfold EnsureCompanyModuleAnchor. rewrite tbind_ok. intros (ex & s1 & H1%exec_ok & H).
  destruct H1 as (_ & [= <- Hdb] & _). case_bool_decide as Hin.
  - injection H as <-. rewrite <- Hdb. split; [done|]. split; [|done]. set_solver.
  - apply Grant_ok in H as (_ & [Hd _] & Ht & Ho). rewrite <- Hdb in *. split; [done|].
    split; [|done]. rewrite Ht. set_solver.
Qed.

Lemma systemGrant_anchor cid mk cid' mk' : systemGrant cid mk <> companyAnchor cid' mk'.
Proof. unfold systemGrant, companyAnchor. by intros [=]. Qed.

Lemma EnsureDefault_ok fails actor corr cid mk s b s' :
  EnsureDefaultGrant fails actor corr cid mk s = Ok (b, s') ->
  b = negb (bool_decide ((cid, mk) ∈ defaults (tx_db s))) /\
  defaults (tx_db s') = {[(cid, mk)]} ∪ defaults (tx_db s) /\
  tuples (tx_db s') = (if b then {[systemGrant cid mk]} else ∅) ∪ {[companyAnchor cid mk]} ∪ tuples (tx_db s) /\
  (one_anchor (tuples (tx_db s)) -> one_anchor (tuples (tx_db s'))).
Proof.
  unfold EnsureDefaultGrant. destruct (seqb cid "" || seqb mk ""); [done|]. rewrite tbind_ok.
  intros ([] & s1 & H1%EnsureAnchor_ok & H). destruct H1 as (Hd1 & Ht1 & Ho1).
  rewrite tbind_ok in H. destruct H as (claimed & s2 & H2%exec_ok & H). destruct H2 as (_ & H2 & _).
  unfold claimDefault in H2. rewrite Hd1 in H2. case_decide as Hin.
  - injection H2 as <- Hdb. injection H as <- <-. rewrite <- Hdb, bool_decide_true by done.
    split; [done|]. split; [set_solver|]. split; [|done]. set_solver.
  - injection H2 as <- Hdb. rewrite tbind_ok in H. destruct H as ([] & s3 & H3%Grant_ok & [= <- <-]).
    destruct H3 as (_ & [Hd3 _] & Ht3 & Ho3). rewrite <- Hdb in *. simpl in *.
    rewrite bool_decide_false by done. split; [done|]. split; [done|].
    split; [|by auto]. rewrite Ht3, Ht1. set_solver.
Qed.

Lemma committed_inv db db' :
  committed db db' ->
  defaults db ⊆ defaults db' /\ (one_anchor (tuples db) -> one_anchor (tuples db')).
Proof.
  intros (fails & o & b & H). apply runTx_ok in H as [n H].
  destruct o as [a c ts|a c ts|a c t|a c cid mk|a c cid mk]; simpl in H;
    try (apply tbind_ok in H as ([] & s1 & H & Hret); injection Hret as _ ->).
  - apply Grant_ok in H as (_ & [Hd _] & _ & Ho). simpl in *. rewrite Hd. auto.
  - apply writeTuples_loop in H as [_ H]. apply revokeLoop_ok in H as [[Hd _] Ht]. simpl in *.
    rewrite Hd. split; [done|]. apply one_anchor_subset. intros x. by rewrite Ht; intros [? _].
  - unfold RevokePositionOrMemberTuple in H. destruct (has_empty_field t); [done|].
    apply exec_ok in H as (_ & H & _). destruct (org_shape t); [|done]. injection H as <-. simpl.
    split; [done|]. apply one_anchor_subset. set_solver.
  - apply EnsureAnchor_ok in H as (Hd & _ & Ho). simpl in *. rewrite Hd. auto.
  - apply EnsureDefault_ok in H as (_ & Hd & _ & Ho). simpl in *. rewrite Hd. split; [set_solver|done].
Qed.

Lemma committed_star_inv db db' :
  rtc committed db db' ->
  defaults db ⊆ defaults db' /\ (one_anchor (tuples db) -> one_anchor (tuples db')).
Proof.
  induction 1 as [db|db1 db2 db3 H _ [IH1 IH2]]; [done|].
  apply committed_inv in H as [H1 H2]. split; [set_solver|auto].
Qed.

Lemma anchor_of_unique tbl a :
  one_anchor tbl -> a ∈ tbl -> is_anchor a = true ->
  anchor_of tbl (ObjectType a) (ObjectID a) = SubjectID a.
Proof.
  intros Hone Hin Ha. unfold anchor_of.
  assert (Hel : a ∈ elements (anchors_on tbl (ObjectType a) (ObjectID a))).
  { apply elem_of_elements, elem_of_anchors_on. done. }
  destruct (elements (anchors_on tbl (ObjectType a) (ObjectID a))) as [|b l] eqn:E; [by apply elem_of_nil in Hel|].
  assert (Hb : b ∈ anchors_on tbl (ObjectType a) (ObjectID a)).
  { apply elem_of_elements. rewrite E. left. }
  apply elem_of_anchors_on in Hb as (Hbt & [Ht Hi] & Hba). f_equal. by apply Hone.
Qed.

Lemma one_anchor_empty : one_anchor ∅.
Proof. intros a b Ha. by apply not_elem_of_empty in Ha. Qed.

Definition emptyDB : AuthzDB := mkDB ∅ [] ∅.

(** The tables after a transaction, and whether it commits with [a]. *)
Definition after {A} (m : Tx A) (db : AuthzDB) : AuthzDB :=
  match runTx m db with Ok (_, db') => db' | Err _ => db end.

Definition returns {A} `{EqDecision A} (a : A) (m : Tx A) (db : AuthzDB) : bool :=
  match runTx m db with Ok (a', _) => bool_decide (a' = a) | Err _ => false end.

Lemma runTx_after {A} `{EqDecision A} (a : A) (m : Tx A) db :
  returns a m db = true -> runTx m db = Ok (a, after m db).
Proof.
  unfold returns, after. destruct (runTx m db) as [[a' db']|e]; [|done].
  by intros ->%bool_decide_eq_true.
Qed.

Lemma committed_after fails o b db :
  returns b (runOp fails o) db = true -> committed db (after (runOp fails o) db).
Proof. intros H. exists fails, o, b. by apply runTx_after. Qed.

(** ** The properties *)

(** A committed Grant leaves exactly the old tuples and the granted ones, and
    its ledger rows are the change log of that step: all under the caller's actor
    and correlation id, each one a real change, and replaying them over the old
    tuples gives the new ones. The one-anchor-per-object index still holds. *)
Theorem Grant_adds fails actor corr ts db db' :
  runTx (Grant fails actor corr ts) db = Ok (tt, db') ->
  tuples db' = list_to_set ts ∪ tuples db /\
  extends actor (nullable corr) db db' /\
  (one_anchor (tuples db) -> one_anchor (tuples db')).
Proof. intros [n H]%runTx_ok. apply Grant_ok in H as (_ & He & Ht & Ho). done. Qed.

Definition demoGrantDB : AuthzDB := mkDB {[companyAnchor "acme" "docs"]} [] ∅.
Definition demoDocAnchor : Tuple := mkTuple "doc" "7" "company_module" "company_module" "acme/docs" "".
Definition demoDocOwner : Tuple := mkTuple "doc" "7" "owner" "user" "ann" "".

Lemma Grant_adds_witness :
  let db' := after (Grant no_failure "root" "" [demoDocAnchor; demoDocOwner]) demoGrantDB in
  tuples db' = list_to_set [demoDocAnchor; demoDocOwner] ∪ tuples demoGrantDB /\ length (ledger db') = 2.
Proof.
  split; [|vm_compute; reflexivity].
  apply (Grant_adds no_failure "root" "" [demoDocAnchor; demoDocOwner] demoGrantDB).
  apply runTx_after. vm_compute. reflexivity.
Defined.

(** A Grant of at least one tuple, all of their fields set and none of them a
    second anchor for an object, succeeds whenever the database answers. *)
Theorem Grant_total actor corr ts db :
  ts <> [] ->
  Forall (fun tp => has_empty_field tp = false) ts ->
  one_anchor (list_to_set ts ∪ tuples db) ->
  exists db', runTx (Grant no_failure actor corr ts) db = Ok (tt, db').
Proof.
  intros Hne Hf Hone. destruct (grantLoop_total actor (nullable corr) ts (mkTx db 0) Hf Hone) as [[db' n] H].
  exists db'. apply runTx_ok. exists n. unfold Grant, writeTuples. by destruct ts.
Qed.

Lemma Grant_total_witness :
  exists db', runTx (Grant no_failure "root" "c-1" [demoDocAnchor; demoDocOwner]) demoGrantDB = Ok (tt, db').
Proof.
  apply Grant_total.
  - intros H. discriminate H.
  - repeat constructor.
  - intros a b Ha Hb. simpl in Ha, Hb. unfold demoDocAnchor, demoDocOwner, companyAnchor in *.
    rewrite !elem_of_union, !elem_of_singleton in Ha, Hb. destruct_or?; subst; vm_compute; done.
Defined.

(** A committed Revoke removes the tuples it names, and with an anchor every
    tuple on the anchored object; it removes nothing else, and its ledger rows are
    the change log of the step. In particular no tuple survives on an object whose
    anchor was revoked. *)
Theorem Revoke_removes fails actor corr ts db db' :
  runTx (Revoke fails actor corr ts) db = Ok (tt, db') ->
  extends actor (nullable corr) db db' /\
  (forall x, x ∈ tuples db' <-> x ∈ tuples db /\ ~ revoked (tuples db) ts x) /\
  (forall a x, a ∈ ts -> is_anchor a = true -> a ∈ tuples db -> x ∈ tuples db' ->
    ~ on_obj (ObjectType a) (ObjectID a) x).
Proof.
  intros [n [_ H]%writeTuples_loop]%runTx_ok. apply revokeLoop_ok in H as [He Ht].
  split; [done|]. split; [done|]. intros a x Ha Haa Hat [_ Hx]%Ht Hon. apply Hx. right. eauto.
Qed.

Definition demoRevokeDB : AuthzDB := mkDB {[demoDocAnchor; demoDocOwner; companyAnchor "acme" "docs"]} [] ∅.

Lemma Revoke_removes_witness :
  demoDocOwner ∈ tuples demoRevokeDB /\
  ~ demoDocOwner ∈ tuples (after (Revoke no_failure "root" "" [demoDocAnchor]) demoRevokeDB).
Proof.
  split; [apply (bool_decide_unpack _); vm_compute; exact I|]. intros Hin.
  assert (Hrun : runTx (Revoke no_failure "root" "" [demoDocAnchor]) demoRevokeDB
    = Ok (tt, after (Revoke no_failure "root" "" [demoDocAnchor]) demoRevokeDB)).
  { apply runTx_after. vm_compute. reflexivity. }
  destruct (Revoke_removes no_failure "root" "" [demoDocAnchor] demoRevokeDB _ Hrun) as (_ & _ & Hno).
  apply (Hno demoDocAnchor demoDocOwner).
  - left.
  - vm_compute. reflexivity.
  - apply (bool_decide_unpack _). vm_compute. exact I.
  - exact Hin.
  - split; reflexivity.
Defined.

(** Whatever sequence of the package's writers commits from the empty tables,
    under whatever statement failures, no object has two anchors, so AnchorOf
    answers the subject of the anchor row whenever there is one. *)
Theorem anchors_unique db a :
  rtc committed emptyDB db -> a ∈ tuples db -> is_anchor a = true ->
  anchor_of (tuples db) (ObjectType a) (ObjectID a) = SubjectID a.
Proof.
  intros [_ Hone]%committed_star_inv. apply anchor_of_unique, Hone, one_anchor_empty.
Qed.

Definition demoOp1 : storeOp := OpDefault "root" "" "acme" "docs".
Definition demoOp2 : storeOp := OpGrant "ann" "" [demoDocAnchor; demoDocOwner].

Lemma anchors_unique_witness :
  let db := after (runOp no_failure demoOp2) (after (runOp no_failure demoOp1) emptyDB) in
  rtc committed emptyDB db /\ anchor_of (tuples db) "doc" "7" = "acme/docs".
Proof.
  intros db. assert (Hr : rtc committed emptyDB db).
  { eapply rtc_l; [|apply rtc_once].
    - apply (committed_after no_failure demoOp1 true). vm_compute. reflexivity.
    - apply (committed_after no_failure demoOp2 false). vm_compute. reflexivity. }
  split; [exact Hr|]. apply (anchors_unique db demoDocAnchor Hr); [|reflexivity].
  apply (bool_decide_unpack _). vm_compute. exact I.
Defined.

(** The default grant is applied once per company and module. After one
    EnsureDefaultGrant, and any sequence of commits since (a revoke of the default
    among them), a second call claims nothing and leaves the default tuple as it is:
    a revoked default stays revoked. *)
Theorem default_once fails1 fails2 a1 c1 a2 c2 cid mk db b1 db1 db2 b2 db3 :
  runTx (EnsureDefaultGrant fails1 a1 c1 cid mk) db = Ok (b1, db1) ->
  rtc committed db1 db2 ->
  runTx (EnsureDefaultGrant fails2 a2 c2 cid mk) db2 = Ok (b2, db3) ->
  b2 = false /\ (systemGrant cid mk ∈ tuples db3 <-> systemGrant cid mk ∈ tuples db2) /\
  tuples db3 = {[companyAnchor cid mk]} ∪ tuples db2.
Proof.
  intros [n1 H1%EnsureDefault_ok]%runTx_ok [Hd _]%committed_star_inv [n2 H2%EnsureDefault_ok]%runTx_ok.
  destruct H1 as (_ & Hd1 & _), H2 as (Hb2 & _ & Ht & _). simpl in *.
  rewrite bool_decide_true in Hb2 by set_solver. simpl in Hb2. subst b2.
  pose proof (systemGrant_anchor cid mk cid mk). rewrite Ht. split; [done|]. split; set_solver.
Qed.

Abbreviation demoDefault := (EnsureDefaultGrant no_failure "root" "" "acme" "docs").
Definition demoRevokeDefault : storeOp := OpRevoke "ann" "" [systemGrant "acme" "docs"].
Definition demoDB1 : AuthzDB := after demoDefault emptyDB.
Definition demoDB2 : AuthzDB := after (runOp no_failure demoRevokeDefault) demoDB1.
Definition demoDB3 : AuthzDB := after demoDefault demoDB2.

Lemma demo_first : runTx demoDefault emptyDB = Ok (true, demoDB1).
Proof. unfold demoDB1. apply (runTx_after true demoDefault emptyDB). vm_compute. reflexivity. Qed.
Lemma demo_second : runTx demoDefault demoDB2 = Ok (false, demoDB3).
Proof. unfold demoDB3. apply (runTx_after false demoDefault demoDB2). vm_compute. reflexivity. Qed.
Lemma demo_between : rtc committed demoDB1 demoDB2.
Proof.
  apply rtc_once. unfold demoDB2. apply (committed_after no_failure demoRevokeDefault false demoDB1).
  vm_compute. reflexivity.
Qed.
Lemma demo_revoked : ~ systemGrant "acme" "docs" ∈ tuples demoDB2.
Proof. apply (bool_decide_eq_false_1 _). vm_compute. reflexivity. Qed.

Lemma default_once_witness : ~ systemGrant "acme" "docs" ∈ tuples demoDB3.
Proof.
  intros H3. apply demo_revoked.
  destruct (default_once no_failure no_failure "root" "" "root" "" "acme" "docs" emptyDB true demoDB1 demoDB2 false demoDB3
           demo_first demo_between demo_second) as (_ & Hsame & _).
  exact (proj1 Hsame H3).
Defined.
