(* ===== verification/Decision.v ===== *)
(** * The effective-access decision

    internal/authz/decision: the ordered, fail-closed decision over injected
    dependencies.  A dependency is a function that answers or fails; one decision
    sees one answer per question.  Evidence is the state the steps append to, and
    an early return is the error of the [SE] monad. *)

From stdpp Require Import base gmap strings list.
From S2P Require Import Prelude.

(** [Reason] *)
Inductive Reason : Type :=
| ReasonAllowed
| ReasonAuthUserNotFound
| ReasonKeycloakDisabled
| ReasonUserLifecycleDisabled
| ReasonCompanyInactive
| ReasonCompanyMembershipRequired
| ReasonCompanyAccessBlocked
| ReasonModuleDisabled
| ReasonPlatformRoleRequired
| ReasonCompanyRoleRequired
| ReasonEngineDenied
| ReasonBusinessEligibilityDenied
| ReasonDependencyUnavailable.

#[export] Instance Reason_eq_dec : EqDecision Reason.
Proof. solve_decision. Defined.

Definition FoundationModuleKey : string := "auth".

Record Evidence := mkEvidence { Key : string; Value : string }.

Record AccessDecision := mkDecision {
  Allowed : bool;
  Why : Reason;
  DEvidence : list Evidence;
  Dependency : string;
  Step : string
}.

Record SubjectResult := mkSubject { Found : bool; LifecycleActive : bool }.
Record CompanyState := mkCompany { CExists : bool; CActive : bool }.
Record MembershipState := mkMembership { IsMember : bool; Blocked : bool }.

(** [KCState] is a string type with three named values. *)
Definition KCTrue : string := "true".
Definition KCFalse : string := "false".
Definition KCUnknown : string := "unknown".

(** [EligibilityOutcome] is an int type with three named values. *)
Definition EligibilityAllow : Z := 0.
Definition EligibilityDenial : Z := 1.
Definition EligibilityError : Z := 2.

Record ObjectRef := mkRef { RType : string; RID : string }.

Definition ScopeGlobal : string := "global".
Definition ScopeCompany : string := "company".

Record Request := mkRequest {
  req_SubjectID : string;
  req_FeatureKey : string;
  req_ModuleKey : string;
  req_Scope : string;
  req_CompanyID : string;
  req_RequiredPlatformRole : string;
  req_AllowPlatformOperatorCompanyScope : bool;
  req_RequiredCompanyRole : string;
  req_Object : ObjectRef;
  req_Relation : string;
  req_RequiresEligibility : bool;
  req_CorrelationID : string
}.

(** [deny], [unavailable] and [allow] append their evidence and end the decision. *)
Abbreviation Gate A := (SE (list Evidence) AccessDecision A).

Definition deny {A} (r : Reason) (kv : list Evidence) : Gate A :=
  fun ev => Err (mkDecision false r (ev ++ kv) "" "").
Definition unavailable {A} (dependency step : string) : Gate A :=
  fun ev => Err (mkDecision false ReasonDependencyUnavailable
                   (ev ++ [mkEvidence "dependency" dependency; mkEvidence "step" step]) dependency step).
Definition allow (kv : list Evidence) : Gate AccessDecision :=
  fun ev => Ok (mkDecision true ReasonAllowed (ev ++ kv) "" "", ev ++ kv).
Definition note (kv : list Evidence) : Gate unit := fun ev => Ok (tt, ev ++ kv).

(** A dependency call whose error ends the decision as unavailable. *)
Definition ask {E A} (dependency step : string) (answer : result E A) : Gate A :=
  match answer with
  | Ok a => tret a
  | Err _ => unavailable dependency step
  end.

Section decision.
Context {E : Type}.

(** What [CheckEligibility] did: its return values, and whether the timeout of its
    context fired while the caller's own context was still live. *)
Record EligibilityAnswer := mkAnswer { answer : result E Z; timedOut : bool }.

(** [Deps]: [None] is a nil interface, or an engine that is not a
    [CompanyScopedChecker]. *)
Record Deps := mkDeps {
  Subject_Lookup : string -> result E SubjectResult;
  Keycloak_Enabled : string -> result E string;
  PlatformRole_HasRole : string -> string -> result E bool;
  Company_State : string -> result E CompanyState;
  Membership_Membership : string -> string -> result E MembershipState;
  CompanyRole_HasRole : string -> string -> string -> result E bool;
  ModuleState_Enabled : string -> result E bool;
  Engine_Check : string -> string -> string -> string -> string -> result E bool;
  Engine_CheckInCompany :
    option (string -> string -> string -> string -> string -> string -> result E bool);
  Model_Defines : option (string -> string -> bool);
  Eligibility_Check : option (Request -> EligibilityAnswer)
}.

Context (deps : Deps).

Definition defines (objType rel : string) : bool :=
  match Model_Defines deps with
  | Some f => f objType rel
  | None => false
  end.

(** The [switch] of [relationCheck]: whether the object is bound to the request's
    company. *)
Definition objectBound (req : Request) (obj : ObjectRef) : result E bool :=
  let moduleObjectID := req_CompanyID req +:+ "/" +:+ req_ModuleKey req in
  if seqb (RType obj) "company" then Ok (seqb (RID obj) (req_CompanyID req))
  else if seqb (RType obj) "company_module" then Ok (seqb (RID obj) moduleObjectID)
  else if defines (RType obj) "company" then
    Engine_Check deps (RType obj) (RID obj) "company" "company" (req_CompanyID req)
  else if defines (RType obj) "company_module" then
    Engine_Check deps (RType obj) (RID obj) "company_module" "company_module" moduleObjectID
  else Ok false.

(** The engine question of [relationCheck]. *)
Definition engineAnswer (req : Request) (obj : ObjectRef) (relation : string) : result E bool :=
  match Engine_CheckInCompany deps with
  | Some scoped =>
      if seqb (req_Scope req) ScopeCompany
      then scoped (RType obj) (RID obj) relation "user" (req_SubjectID req) (req_CompanyID req)
      else Engine_Check deps (RType obj) (RID obj) relation "user" (req_SubjectID req)
  | None => Engine_Check deps (RType obj) (RID obj) relation "user" (req_SubjectID req)
  end.

(** [relationCheck]; stopping is the [Err] side. *)
Definition relationCheck (req : Request) (obj : ObjectRef) (relation : string) : Gate unit :=
  let objectLabel := RType obj +:+ ":" +:+ RID obj in
  let* _ :=
    if seqb (req_Scope req) ScopeCompany then
      let* bound := ask "engine" "relation_check" (objectBound req obj) in
      if (bound : bool) then note [mkEvidence "objectCompany" "true"]
      else deny ReasonEngineDenied [mkEvidence "objectCompany" "false"; mkEvidence "object" objectLabel]
    else tret tt in
  let* allowed := ask "engine" "relation_check" (engineAnswer req obj relation) in
  if (allowed : bool) then note [mkEvidence "relation" relation]
  else deny ReasonEngineDenied [mkEvidence "relation" relation; mkEvidence "object" objectLabel].

(** [eligibility] *)
Definition eligibility (req : Request) : Gate unit :=
  match Eligibility_Check deps with
  | None => unavailable "module-eligibility" "business_eligibility"
  | Some callback =>
      match answer (callback req) with
      | Err _ => unavailable "module-eligibility" "business_eligibility"
      | Ok outcome =>
          if timedOut (callback req) then unavailable "module-eligibility" "business_eligibility"
          else if (outcome =? EligibilityDenial)%Z then
            deny ReasonBusinessEligibilityDenied [mkEvidence "eligible" "false"]
          else if (outcome =? EligibilityError)%Z then
            unavailable "module-eligibility" "business_eligibility"
          else note [mkEvidence "eligible" "true"]
      end
  end.

(** Steps 1 to 3 of [Evaluate]. *)
Definition subjectSteps (req : Request) : Gate unit :=
  let* subj := ask "identity" "subject_lookup" (Subject_Lookup deps (req_SubjectID req)) in
  if negb (Found subj) then deny ReasonAuthUserNotFound [mkEvidence "subjectFound" "false"]
  else
    let* kc := ask "keycloak" "keycloak_enabled" (Keycloak_Enabled deps (req_SubjectID req)) in
    if seqb kc KCUnknown then unavailable "keycloak" "keycloak_enabled"
    else if seqb kc KCFalse then deny ReasonKeycloakDisabled [mkEvidence "kcEnabled" "false"]
    else
      let* _ := note [mkEvidence "kcEnabled" "true"] in
      if negb (LifecycleActive subj)
      then deny ReasonUserLifecycleDisabled [mkEvidence "lifecycleActive" "false"]
      else note [mkEvidence "lifecycleActive" "true"].

(** The operator exception of step 5. *)
Definition operatorStep (req : Request) : Gate bool :=
  if req_AllowPlatformOperatorCompanyScope req then
    let* opOK := ask "engine" "platform_operator_exception"
                   (PlatformRole_HasRole deps (req_SubjectID req) (req_RequiredPlatformRole req)) in
    if (opOK : bool)
    then let* _ := note [mkEvidence "platformOperatorException" "true"] in tret true
    else tret false
  else tret false.

(** Step 5 of [Evaluate]. *)
Definition companyStep (req : Request) : Gate unit :=
  let* cs := ask "org" "company_state" (Company_State deps (req_CompanyID req)) in
  if negb (CExists cs) || negb (CActive cs)
  then deny ReasonCompanyInactive [mkEvidence "companyActive" "false"]
  else
    let* _ := note [mkEvidence "companyActive" "true"] in
    let* operatorException := operatorStep req in
    let* _ :=
      if negb operatorException then
        let* ms := ask "org" "company_membership"
                     (Membership_Membership deps (req_CompanyID req) (req_SubjectID req)) in
        if negb (IsMember ms)
        then deny ReasonCompanyMembershipRequired [mkEvidence "isMember" "false"]
        else if Blocked ms
        then deny ReasonCompanyAccessBlocked [mkEvidence "accessBlocked" "true"]
        else note [mkEvidence "isMember" "true"]
      else tret tt in
    if negb (seqb (req_RequiredCompanyRole req) "") && negb operatorException then
      let* ok := ask "org" "company_role"
                   (CompanyRole_HasRole deps (req_CompanyID req) (req_SubjectID req) (req_RequiredCompanyRole req)) in
      if (ok : bool) then note [mkEvidence "companyRole" (req_RequiredCompanyRole req)]
      else deny ReasonCompanyRoleRequired [mkEvidence "requiredCompanyRole" (req_RequiredCompanyRole req)]
    else tret tt.

(** Step 6 of [Evaluate]. *)
Definition moduleStep (req : Request) : Gate unit :=
  let* moduleEnabled :=
    if seqb (req_ModuleKey req) FoundationModuleKey then tret true
    else ask "registry" "module_state" (ModuleState_Enabled deps (req_ModuleKey req)) in
  if negb moduleEnabled then deny ReasonModuleDisabled [mkEvidence "moduleEnabled" "false"]
  else note [mkEvidence "moduleEnabled" "true"].

(** Step 4 of [Evaluate]: at global scope the platform role is the whole answer. *)
Definition globalStep (req : Request) : Gate AccessDecision :=
  let* ok := ask "engine" "platform_role"
               (PlatformRole_HasRole deps (req_SubjectID req) (req_RequiredPlatformRole req)) in
  if negb ok
  then deny ReasonPlatformRoleRequired [mkEvidence "requiredPlatformRole" (req_RequiredPlatformRole req)]
  else allow [mkEvidence "scope" "global"; mkEvidence "platformRole" (req_RequiredPlatformRole req)].

Definition steps7And8 (req elig : Request) (obj : ObjectRef) (relation : string)
    (kv : list Evidence) : Gate AccessDecision :=
  let* _ := if negb (seqb relation "") then relationCheck req obj relation else tret tt in
  let* _ := if req_RequiresEligibility req then eligibility elig else tret tt in
  allow kv.

Definition evaluateSteps (req : Request) : Gate AccessDecision :=
  let* _ := subjectSteps req in
  if seqb (req_Scope req) ScopeGlobal then globalStep req
  else
    let* _ := if seqb (req_Scope req) ScopeCompany then companyStep req else tret tt in
    let* _ := moduleStep req in
    steps7And8 req req (req_Object req) (req_Relation req) [mkEvidence "scope" "company"].

(** Runs the steps to their decision. *)
Definition settle (g : Gate AccessDecision) (ev : list Evidence) : AccessDecision :=
  match g ev with Ok (d, _) => d | Err d => d end.

Definition firstEvidence (req : Request) : list Evidence :=
  [mkEvidence "featureKey" (req_FeatureKey req); mkEvidence "subjectId" (req_SubjectID req)].

(** [Evaluate] *)
Definition Evaluate (req : Request) : AccessDecision := settle (evaluateSteps req) (firstEvidence req).

Record DBatchItem := mkItem { IObject : ObjectRef; IRelation : string }.

Definition with_object (req : Request) (obj : ObjectRef) (relation : string) (elig : bool) : Request :=
  mkRequest (req_SubjectID req) (req_FeatureKey req) (req_ModuleKey req) (req_Scope req) (req_CompanyID req)
    (req_RequiredPlatformRole req) (req_AllowPlatformOperatorCompanyScope req) (req_RequiredCompanyRole req)
    obj relation elig (req_CorrelationID req).

(** [evaluateSteps7And8] *)
Definition evaluateSteps7And8 (base : Request) (it : DBatchItem) (ev : list Evidence) : AccessDecision :=
  settle (steps7And8 base (with_object base (IObject it) (IRelation it) (req_RequiresEligibility base))
            (IObject it) (IRelation it) []) ev.

(** [EvaluateBatch] *)
Definition EvaluateBatch (base : Request) (items : list DBatchItem) : list (DBatchItem * AccessDecision) :=
  let prefixDecision := Evaluate (with_object base (req_Object base) "" false) in
  if bool_decide (Why prefixDecision <> ReasonAllowed)
  then (fun it => (it, prefixDecision)) <$> items
  else (fun it => (it, evaluateSteps7And8 base it (DEvidence prefixDecision))) <$> items.
End decision.
