(* ===== verification/DecisionProps.v ===== *)
(** * Properties of the effective-access decision

    The specification is a list of gates, each a verdict computed from the
    dependencies alone; the decision is the first verdict that is not a pass. *)

From stdpp Require Import base gmap strings list.
From S2P Require Import Prelude Decision.

Inductive verdict : Type :=
| Pass
| Refuse (r : Reason)
| Unsure (dependency step : string).

Definition is_pass (v : verdict) : bool := match v with Pass => true | _ => false end.

Definition vthen (v w : verdict) : verdict := match v with Pass => w | _ => v end.

Definition first_stop (vs : list verdict) : verdict := foldr vthen Pass vs.

Lemma first_stop_pass vs : is_pass (first_stop vs) = true <-> Forall (fun v => v = Pass) vs.
Proof.
  induction vs as [|v vs IH]; simpl; [done|]. rewrite Forall_cons, <- IH.
  destruct v; simpl; naive_solver.
Qed.

Lemma first_stop_app vs ws : first_stop (vs ++ ws) = vthen (first_stop vs) (first_stop ws).
Proof. induction vs as [|[| |] vs IH]; simpl; auto. Qed.

(** What a decision says. *)
Definition outcome (d : AccessDecision) : verdict :=
  match Why d with
  | ReasonAllowed => Pass
  | ReasonDependencyUnavailable => Unsure (Dependency d) (Step d)
  | r => Refuse r
  end.

Section gates.
Context {E : Type} (deps : @Deps E) (req : Request).

(** The verdict of a dependency that answers a yes/no question. *)
Definition ask_gate {A} (dependency step : string) (a : result E A) (v : A -> verdict) : verdict :=
  match a with Ok x => v x | Err _ => Unsure dependency step end.

Definition pass_if (b : bool) (r : Reason) : verdict := if b then Pass else Refuse r.

Definition gate_subject : verdict :=
  ask_gate "identity" "subject_lookup" (Subject_Lookup deps (req_SubjectID req))
    (fun s => pass_if (Found s) ReasonAuthUserNotFound).

Definition gate_keycloak : verdict :=
  ask_gate "keycloak" "keycloak_enabled" (Keycloak_Enabled deps (req_SubjectID req))
    (fun kc => if seqb kc KCUnknown then Unsure "keycloak" "keycloak_enabled"
               else pass_if (negb (seqb kc KCFalse)) ReasonKeycloakDisabled).

Definition gate_lifecycle : verdict :=
  ask_gate "identity" "subject_lookup" (Subject_Lookup deps (req_SubjectID req))
    (fun s => pass_if (LifecycleActive s) ReasonUserLifecycleDisabled).

Definition gate_platform_role : verdict :=
  ask_gate "engine" "platform_role" (PlatformRole_HasRole deps (req_SubjectID req) (req_RequiredPlatformRole req))
    (fun ok => pass_if ok ReasonPlatformRoleRequired).

Definition gate_company : verdict :=
  ask_gate "org" "company_state" (Company_State deps (req_CompanyID req))
    (fun cs => pass_if (CExists cs && CActive cs) ReasonCompanyInactive).

(** Whether the request takes the platform operator's exception. *)
Definition operator : result E bool :=
  if req_AllowPlatformOperatorCompanyScope req
  then PlatformRole_HasRole deps (req_SubjectID req) (req_RequiredPlatformRole req)
  else Ok false.

Definition unless_operator (v : verdict) : verdict :=
  ask_gate "engine" "platform_operator_exception" operator (fun op => if (op : bool) then Pass else v).

Definition gate_membership : verdict :=
  unless_operator
    (ask_gate "org" "company_membership" (Membership_Membership deps (req_CompanyID req) (req_SubjectID req))
      (fun ms => if IsMember ms then pass_if (negb (Blocked ms)) ReasonCompanyAccessBlocked
                 else Refuse ReasonCompanyMembershipRequired)).

Definition gate_company_role : verdict :=
  unless_operator
    (if seqb (req_RequiredCompanyRole req) "" then Pass
     else ask_gate "org" "company_role"
            (CompanyRole_HasRole deps (req_CompanyID req) (req_SubjectID req) (req_RequiredCompanyRole req))
            (fun ok => pass_if ok ReasonCompanyRoleRequired)).

Definition gate_module : verdict :=
  if seqb (req_ModuleKey req) FoundationModuleKey then Pass
  else ask_gate "registry" "module_state" (ModuleState_Enabled deps (req_ModuleKey req))
         (fun on => pass_if on ReasonModuleDisabled).

Definition gate_binding (obj : ObjectRef) (relation : string) : verdict :=
  if seqb relation "" || negb (seqb (req_Scope req) ScopeCompany) then Pass
  else ask_gate "engine" "relation_check" (objectBound deps req obj)
         (fun bound => pass_if bound ReasonEngineDenied).

Definition gate_relation (obj : ObjectRef) (relation : string) : verdict :=
  if seqb relation "" then Pass
  else ask_gate "engine" "relation_check" (engineAnswer deps req obj relation)
         (fun ok => pass_if ok ReasonEngineDenied).

Definition gate_eligibility (elig : Request) : verdict :=
  if negb (req_RequiresEligibility req) then Pass
  else match Eligibility_Check deps with
       | None => Unsure "module-eligibility" "business_eligibility"
       | Some f =>
           ask_gate "module-eligibility" "business_eligibility" (answer (f elig))
             (fun o => if timedOut (f elig) || (o =? EligibilityError)%Z
                       then Unsure "module-eligibility" "business_eligibility"
                       else pass_if (negb (o =? EligibilityDenial)%Z) ReasonBusinessEligibilityDenied)
       end.

Definition prefix_gates : list verdict :=
  [gate_subject; gate_keycloak; gate_lifecycle] ++
  if seqb (req_Scope req) ScopeGlobal then [gate_platform_role]
  else (if seqb (req_Scope req) ScopeCompany then [gate_company; gate_membership; gate_company_role] else [])
       ++ [gate_module].

Definition object_gates (elig : Request) (obj : ObjectRef) (relation : string) : list verdict :=
  [gate_binding obj relation; gate_relation obj relation; gate_eligibility elig].

(** The specification of [Evaluate]. *)
Definition gates : list verdict :=
  prefix_gates ++
  if seqb (req_Scope req) ScopeGlobal then [] else object_gates req (req_Object req) (req_Relation req).

(** ** Steps follow their gates *)

Definition stops {A} (g : Gate A) (v : verdict) : Prop :=
  forall ev, match g ev with
             | Ok _ => v = Pass
             | Err d => is_pass v = false /\ outcome d = v /\ Allowed d = false
             end.

Definition decides (g : Gate AccessDecision) (v : verdict) : Prop :=
  forall ev, outcome (settle g ev) = v /\ Allowed (settle g ev) = is_pass v.

Lemma stops_bind {A B} (m : Gate A) (k : A -> Gate B) v w :
  stops m v -> (forall a, v = Pass -> stops (k a) w) -> stops (tbind m k) (vthen v w).
Proof.
  intros Hm Hk ev. specialize (Hm ev). unfold tbind. destruct (m ev) as [[a ev']|d].
  - subst v. apply Hk. done.
  - destruct Hm as (? & ? & ?). by destruct v.
Qed.

Lemma decides_bind {A} (m : Gate A) (k : A -> Gate AccessDecision) v w :
  stops m v -> (forall a, v = Pass -> decides (k a) w) -> decides (tbind m k) (vthen v w).
Proof.
  intros Hm Hk ev. specialize (Hm ev). unfold settle, tbind. destruct (m ev) as [[a ev']|d].
  - subst v. apply Hk. done.
  - destruct Hm as (Hv & Ho & Ha). rewrite Ha. by destruct v.
Qed.

(** Evaluates a step on every answer of the dependencies it asks. *)
Local Ltac step_cases :=
  repeat (unfold tbind, ask, deny, unavailable, note, allow, tret, ask_gate, pass_if, is_pass, vthen; simpl;
          try match goal with
              | |- context [negb ?b] => destruct b eqn:?
              | |- _ => case_match
              end; simplify_eq/=; try done).

Lemma subjectSteps_stops :
  stops (subjectSteps deps req) (first_stop [gate_subject; gate_keycloak; gate_lifecycle]).
Proof.
  intros ev. unfold subjectSteps, first_stop, gate_subject, gate_keycloak, gate_lifecycle. simpl.
  step_cases.
Qed.

Lemma companyStep_stops :
  stops (companyStep deps req) (first_stop [gate_company; gate_membership; gate_company_role]).
Proof.
  intros ev. unfold companyStep, first_stop, gate_company, gate_membership, gate_company_role,
    unless_operator, operator, operatorStep. simpl.
  destruct (Company_State deps (req_CompanyID req)) as [[[] []]|]; [|done..].
  unfold tbind, ask, deny, unavailable, note, tret, ask_gate, pass_if, vthen. simpl.
  destruct (req_AllowPlatformOperatorCompanyScope req); [destruct (PlatformRole_HasRole deps _ _) as [[]|]|]; simpl; try done;
    try (destruct (seqb (req_RequiredCompanyRole req) ""); simpl; done);
    (destruct (Membership_Membership deps _ _) as [[[] []]|]; simpl; try done);
    (destruct (seqb (req_RequiredCompanyRole req) ""); simpl; [done|]);
    by destruct (CompanyRole_HasRole deps _ _ _) as [[]|].
Qed.

Lemma moduleStep_stops : stops (moduleStep deps req) gate_module.
Proof. intros ev. unfold moduleStep, gate_module. step_cases. Qed.

Lemma globalStep_decides : decides (globalStep deps req) gate_platform_role.
Proof. intros ev. unfold settle, globalStep, gate_platform_role. step_cases. Qed.

Lemma relationCheck_stops obj relation :
  relation <> "" ->
  stops (relationCheck deps req obj relation) (vthen (gate_binding obj relation) (gate_relation obj relation)).
Proof.
  intros Hr ev. unfold relationCheck, gate_binding, gate_relation.
  rewrite (proj2 (seqb_false relation "") Hr). simpl. step_cases.
Qed.

Lemma eligibility_stops elig :
  req_RequiresEligibility req = true -> stops (eligibility deps elig) (gate_eligibility elig).
Proof.
  intros He ev. unfold eligibility, gate_eligibility. rewrite He. simpl.
  destruct (Eligibility_Check deps) as [f|]; [|done]. unfold ask_gate.
  destruct (answer (f elig)) as [o|]; [|done]. destruct (timedOut (f elig)); [done|]. simpl.
  destruct (Z.eqb_spec o EligibilityDenial) as [->|Hd]; [done|].
  destruct (Z.eqb_spec o EligibilityError) as [->|He']; done.
Qed.

Lemma steps7And8_decides elig obj relation kv :
  decides (steps7And8 deps req elig obj relation kv) (first_stop (object_gates elig obj relation)).
Proof.
  unfold steps7And8, object_gates.
  assert (Hsplit : first_stop [gate_binding obj relation; gate_relation obj relation; gate_eligibility elig]
    = vthen (vthen (gate_binding obj relation) (gate_relation obj relation)) (vthen (gate_eligibility elig) Pass)).
  { simpl. by destruct (gate_binding obj relation). }
  rewrite Hsplit. apply decides_bind.
  - destruct (decide (relation = "")) as [->|Hr].
    + intros ev. unfold gate_binding, gate_relation. simpl. done.
    + rewrite (proj2 (seqb_false relation "") Hr). simpl. by apply relationCheck_stops.
  - intros _ _. apply decides_bind; [|done].
    destruct (req_RequiresEligibility req) eqn:He; [by apply eligibility_stops|].
    intros ev. unfold gate_eligibility. by rewrite He.
Qed.

Lemma evaluateSteps_decides : decides (evaluateSteps deps req) (first_stop gates).
Proof.
  unfold evaluateSteps, gates, prefix_gates. rewrite <- (assoc_L (++)), first_stop_app.
  apply decides_bind; [apply subjectSteps_stops|]. intros _ _.
  destruct (seqb (req_Scope req) ScopeGlobal); simpl.
  { pose proof globalStep_decides as H. intros ev. destruct (H ev). destruct gate_platform_role; done. }
  rewrite <- (assoc_L (++)), first_stop_app. apply decides_bind.
  { destruct (seqb (req_Scope req) ScopeCompany); [apply companyStep_stops|done]. }
  intros _ _. change (first_stop ([gate_module] ++ ?x)) with (vthen gate_module (first_stop x)).
  apply decides_bind; [apply moduleStep_stops|]. intros _ _. apply steps7And8_decides.
Qed.
End gates.

(** ** Who is allowed *)

Section granted.
Context {E : Type} (deps : @Deps E) (req : Request).

Definition subject_active : Prop :=
  (exists s, Subject_Lookup deps (req_SubjectID req) = Ok s /\ Found s = true /\ LifecycleActive s = true) /\
  (exists kc, Keycloak_Enabled deps (req_SubjectID req) = Ok kc /\ kc <> KCUnknown /\ kc <> KCFalse).

Definition is_operator : Prop :=
  req_AllowPlatformOperatorCompanyScope req = true /\
  PlatformRole_HasRole deps (req_SubjectID req) (req_RequiredPlatformRole req) = Ok true.

Definition not_operator : Prop :=
  req_AllowPlatformOperatorCompanyScope req = true ->
  PlatformRole_HasRole deps (req_SubjectID req) (req_RequiredPlatformRole req) = Ok false.

Definition active_member : Prop :=
  (exists ms, Membership_Membership deps (req_CompanyID req) (req_SubjectID req) = Ok ms /\
     IsMember ms = true /\ Blocked ms = false) /\
  (req_RequiredCompanyRole req <> "" ->
     CompanyRole_HasRole deps (req_CompanyID req) (req_SubjectID req) (req_RequiredCompanyRole req) = Ok true).

Definition in_active_company : Prop :=
  (exists cs, Company_State deps (req_CompanyID req) = Ok cs /\ CExists cs = true /\ CActive cs = true) /\
  (is_operator \/ not_operator /\ active_member).

Definition module_on : Prop :=
  req_ModuleKey req = FoundationModuleKey \/ ModuleState_Enabled deps (req_ModuleKey req) = Ok true.

(** How an object belongs to the request's company, by its type: it is the company,
    or its module object; a type with a company relation is bound through it, any
    other through its module anchor, and a type with neither is not bound. *)
Inductive bound_in_company (obj : ObjectRef) : Prop :=
| bound_company_itself : RType obj = "company" -> RID obj = req_CompanyID req -> bound_in_company obj
| bound_module_itself :
    RType obj = "company_module" -> RID obj = req_CompanyID req +:+ "/" +:+ req_ModuleKey req ->
    bound_in_company obj
| bound_by_company :
    RType obj <> "company" -> RType obj <> "company_module" -> defines deps (RType obj) "company" = true ->
    Engine_Check deps (RType obj) (RID obj) "company" "company" (req_CompanyID req) = Ok true ->
    bound_in_company obj
| bound_by_anchor :
    RType obj <> "company" -> RType obj <> "company_module" -> defines deps (RType obj) "company" = false ->
    defines deps (RType obj) "company_module" = true ->
    Engine_Check deps (RType obj) (RID obj) "company_module" "company_module"
      (req_CompanyID req +:+ "/" +:+ req_ModuleKey req) = Ok true ->
    bound_in_company obj.

Lemma objectBound_iff obj : objectBound deps req obj = Ok true <-> bound_in_company obj.
Proof.
  unfold objectBound. split.
  - destruct (seqb (RType obj) "company") eqn:E1.
    { apply seqb_true in E1. intros [= Hid%seqb_true]. by apply bound_company_itself. }
    destruct (seqb (RType obj) "company_module") eqn:E2.
    { apply seqb_true in E2. intros [= Hid%seqb_true]. by apply bound_module_itself. }
    apply seqb_false in E1, E2. destruct (defines deps (RType obj) "company") eqn:D1; [by apply bound_by_company|].
    destruct (defines deps (RType obj) "company_module") eqn:D2; [by apply bound_by_anchor|done].
  - intros [E1 E2|E1 E2|E1 E2 D1 H|E1 E2 D1 D2 H].
    + rewrite E1, E2. simpl. by rewrite seqb_refl.
    + rewrite E1, E2. simpl. by rewrite seqb_refl.
    + by rewrite (proj2 (seqb_false _ _) E1), (proj2 (seqb_false _ _) E2), D1.
    + by rewrite (proj2 (seqb_false _ _) E1), (proj2 (seqb_false _ _) E2), D1, D2.
Qed.

(** At company scope an engine that can bound its answer to the company is asked to. *)
Definition relation_holds (obj : ObjectRef) (relation : string) : Prop :=
  (forall scoped, Engine_CheckInCompany deps = Some scoped -> req_Scope req = ScopeCompany ->
     scoped (RType obj) (RID obj) relation "user" (req_SubjectID req) (req_CompanyID req) = Ok true) /\
  (Engine_CheckInCompany deps = None \/ req_Scope req <> ScopeCompany ->
     Engine_Check deps (RType obj) (RID obj) relation "user" (req_SubjectID req) = Ok true).

Lemma engineAnswer_iff obj relation : engineAnswer deps req obj relation = Ok true <-> relation_holds obj relation.
Proof.
  unfold engineAnswer, relation_holds. destruct (Engine_CheckInCompany deps) as [scoped|]; [|naive_solver].
  destruct (seqb (req_Scope req) ScopeCompany) eqn:Hsc; [apply seqb_true in Hsc|apply seqb_false in Hsc]; naive_solver.
Qed.

Definition object_allowed : Prop :=
  req_Relation req <> "" ->
  (req_Scope req = ScopeCompany -> bound_in_company (req_Object req)) /\
  relation_holds (req_Object req) (req_Relation req).

Definition eligible : Prop :=
  req_RequiresEligibility req = true ->
  exists f o, Eligibility_Check deps = Some f /\ answer (f req) = Ok o /\
    timedOut (f req) = false /\ o <> EligibilityDenial /\ o <> EligibilityError.

(** Every condition of an allowed request, with no order. *)
Definition access_granted : Prop :=
  subject_active /\
  if seqb (req_Scope req) ScopeGlobal
  then PlatformRole_HasRole deps (req_SubjectID req) (req_RequiredPlatformRole req) = Ok true
  else (req_Scope req = ScopeCompany -> in_active_company) /\ module_on /\ object_allowed /\ eligible.

Lemma ask_gate_pass {A} dependency step (a : result E A) v :
  ask_gate dependency step a v = Pass <-> exists x, a = Ok x /\ v x = Pass.
Proof. unfold ask_gate. destruct a; naive_solver. Qed.

Lemma pass_if_pass b r : pass_if b r = Pass <-> b = true.
Proof. unfold pass_if. destruct b; naive_solver. Qed.

Lemma gates_subject :
  Forall (fun v => v = Pass) [gate_subject deps req; gate_keycloak deps req; gate_lifecycle deps req] <->
  subject_active.
Proof.
  rewrite !Forall_cons, Forall_nil. unfold gate_subject, gate_keycloak, gate_lifecycle, subject_active.
  rewrite !ask_gate_pass. setoid_rewrite pass_if_pass. split.
  - intros ((s & Hs & Hf) & (kc & Hkc & Hv) & (s' & Hs' & Hl) & _).
    assert (s' = s) as -> by congruence. split; [by exists s|]. exists kc. destruct (seqb kc KCUnknown) eqn:Hu; [done|].
    apply pass_if_pass in Hv. rewrite negb_true_iff, seqb_false in Hv. apply seqb_false in Hu. done.
  - intros [(s & Hs & Hf & Hl) (kc & Hkc & Hu & Hd)]. split_and!; [by exists s| |by exists s|done].
    exists kc. split; [done|]. rewrite (proj2 (seqb_false _ _) Hu). apply pass_if_pass.
    by rewrite negb_true_iff, seqb_false.
Qed.

Lemma unless_operator_pass v :
  unless_operator deps req v = Pass <-> is_operator \/ not_operator /\ v = Pass.
Proof.
  unfold unless_operator, operator, is_operator, not_operator. rewrite ask_gate_pass.
  destruct (req_AllowPlatformOperatorCompanyScope req); split.
  - intros ([] & Hop & Hv); naive_solver.
  - intros [[_ Hop]|[Hop ->]]; [by exists true|]. exists false. auto.
  - intros (b & [= <-] & ->). right. done.
  - intros [[[=] _]|[_ ->]]. by exists false.
Qed.

Lemma gates_company :
  Forall (fun v => v = Pass) [gate_company deps req; gate_membership deps req; gate_company_role deps req] <->
  in_active_company.
Proof.
  rewrite !Forall_cons, Forall_nil. unfold gate_company, gate_membership, gate_company_role, in_active_company, active_member.
  rewrite !unless_operator_pass, !ask_gate_pass. setoid_rewrite pass_if_pass. setoid_rewrite andb_true_iff.
  assert (Hm : forall ms, (if IsMember ms then pass_if (negb (Blocked ms)) ReasonCompanyAccessBlocked
      else Refuse ReasonCompanyMembershipRequired) = Pass <-> IsMember ms = true /\ Blocked ms = false).
  { intros [[] []]; simpl; naive_solver. }
  setoid_rewrite Hm.
  assert (Hr : (if seqb (req_RequiredCompanyRole req) "" then Pass
      else ask_gate "org" "company_role"
        (CompanyRole_HasRole deps (req_CompanyID req) (req_SubjectID req) (req_RequiredCompanyRole req))
        (fun ok => pass_if ok ReasonCompanyRoleRequired)) = Pass <->
      (req_RequiredCompanyRole req <> "" ->
       CompanyRole_HasRole deps (req_CompanyID req) (req_SubjectID req) (req_RequiredCompanyRole req) = Ok true)).
  { destruct (seqb (req_RequiredCompanyRole req) "") eqn:Hs.
    - apply seqb_true in Hs. naive_solver.
    - apply seqb_false in Hs. rewrite ask_gate_pass. setoid_rewrite pass_if_pass. naive_solver. }
  rewrite Hr. naive_solver.
Qed.

Lemma gates_module : gate_module deps req = Pass <-> module_on.
Proof.
  unfold gate_module, module_on. destruct (seqb (req_ModuleKey req) FoundationModuleKey) eqn:Hs.
  - apply seqb_true in Hs. naive_solver.
  - apply seqb_false in Hs. rewrite ask_gate_pass. setoid_rewrite pass_if_pass. naive_solver.
Qed.

Lemma gates_object :
  Forall (fun v => v = Pass) (object_gates deps req req (req_Object req) (req_Relation req)) <->
  object_allowed /\ eligible.
Proof.
  unfold object_gates. rewrite !Forall_cons, Forall_nil. unfold object_allowed, eligible.
  rewrite <- objectBound_iff, <- engineAnswer_iff. unfold gate_binding, gate_relation, gate_eligibility.
  assert (He : gate_eligibility deps req req = Pass <-> eligible).
  { unfold gate_eligibility, eligible. destruct (req_RequiresEligibility req); simpl; [|naive_solver].
    destruct (Eligibility_Check deps) as [f|]; [|naive_solver]. rewrite ask_gate_pass. split.
    - intros (o & Ho & Hv) _. exists f, o. destruct (timedOut (f req)); [done|]. simpl in Hv.
      destruct (Z.eqb_spec o EligibilityError); [done|]. apply pass_if_pass in Hv.
      rewrite negb_true_iff, Z.eqb_neq in Hv. done.
    - intros (g & o & [= <-] & Ho & Ht & Hd & Hr); [done|]. exists o. split; [done|]. rewrite Ht. simpl.
      apply Z.eqb_neq in Hd, Hr. by rewrite Hr, Hd. }
  unfold gate_eligibility, eligible in He. rewrite He. clear He.
  destruct (seqb (req_Relation req) "") eqn:Hs; simpl.
  { apply seqb_true in Hs. naive_solver. }
  apply seqb_false in Hs. rewrite !ask_gate_pass. setoid_rewrite pass_if_pass.
  destruct (seqb (req_Scope req) ScopeCompany) eqn:Hc; simpl.
  - apply seqb_true in Hc. rewrite ask_gate_pass. setoid_rewrite pass_if_pass. naive_solver.
  - apply seqb_false in Hc. naive_solver.
Qed.

Lemma gates_granted : Forall (fun v => v = Pass) (gates deps req) <-> access_granted.
Proof.
  unfold gates, prefix_gates, access_granted. rewrite <- (assoc_L (++)), Forall_app, gates_subject.
  destruct (seqb (req_Scope req) ScopeGlobal) eqn:Hg; simpl.
  - rewrite Forall_cons, Forall_nil. unfold gate_platform_role. rewrite ask_gate_pass.
    setoid_rewrite pass_if_pass. naive_solver.
  - rewrite <- (assoc_L (++)), Forall_app. simpl. rewrite Forall_cons, gates_object, gates_module.
    destruct (seqb (req_Scope req) ScopeCompany) eqn:Hc.
    + apply seqb_true in Hc. rewrite gates_company. naive_solver.
    + apply seqb_false in Hc. rewrite Forall_nil. naive_solver.
Qed.
End granted.

(** ** Batches *)

Lemma Evaluate_decides {E} (deps : @Deps E) req :
  outcome (Evaluate deps req) = first_stop (gates deps req) /\
  Allowed (Evaluate deps req) = is_pass (first_stop (gates deps req)).
Proof. apply evaluateSteps_decides. Qed.

Lemma prefix_with_object {E} (deps : @Deps E) req obj relation elig :
  prefix_gates deps (with_object req obj relation elig) = prefix_gates deps req.
Proof. done. Qed.

Lemma object_gates_with_object {E} (deps : @Deps E) req obj relation it r elig :
  object_gates deps (with_object req obj relation (req_RequiresEligibility req)) elig it r =
  object_gates deps req elig it r.
Proof. done. Qed.

Lemma prefix_decides {E} (deps : @Deps E) base :
  req_Scope base <> ScopeGlobal ->
  outcome (Evaluate deps (with_object base (req_Object base) "" false)) = first_stop (prefix_gates deps base).
Proof.
  intros Hs. destruct (Evaluate_decides deps (with_object base (req_Object base) "" false)) as [-> _].
  unfold gates. rewrite prefix_with_object. change (req_Scope (with_object _ _ _ _)) with (req_Scope base).
  rewrite (proj2 (seqb_false _ _) Hs), first_stop_app.
  destruct (first_stop (prefix_gates deps base)); reflexivity.
Qed.

Lemma outcome_allowed d : Why d = ReasonAllowed <-> outcome d = Pass.
Proof. unfold outcome. destruct (Why d); naive_solver. Qed.

(** What the caller of the decision acts on. *)
Definition answer_of (d : AccessDecision) : bool * verdict := (Allowed d, outcome d).

Lemma batch_item_agrees {E} (deps : @Deps E) base it ev :
  req_Scope base <> ScopeGlobal ->
  first_stop (prefix_gates deps base) = Pass ->
  answer_of (evaluateSteps7And8 deps base it ev) =
  answer_of (Evaluate deps (with_object base (IObject it) (IRelation it) (req_RequiresEligibility base))).
Proof.
  intros Hs Hp. unfold answer_of, evaluateSteps7And8.
  set (req := with_object base (IObject it) (IRelation it) (req_RequiresEligibility base)).
  destruct (Evaluate_decides deps req) as [-> ->].
  destruct (steps7And8_decides deps base req (IObject it) (IRelation it) [] ev) as [-> ->].
  unfold gates, req. rewrite prefix_with_object. change (req_Scope (with_object _ _ _ _)) with (req_Scope base).
  rewrite (proj2 (seqb_false _ _) Hs), first_stop_app, Hp. done.
Qed.

(** ** The properties *)

(** C8: the decision is the first gate that does not pass, in the documented
    order: subject, Keycloak, lifecycle, then the platform role (global scope) or
    company, membership and company role (company scope), module, object binding,
    relation and eligibility. A dependency that fails at the first such gate is
    reported as unavailable with its name and step, and only an all-pass list is
    allowed. *)
Theorem Evaluate_first_gate {E} (deps : @Deps E) req :
  outcome (Evaluate deps req) = first_stop (gates deps req) /\
  Allowed (Evaluate deps req) = is_pass (first_stop (gates deps req)).
Proof. apply evaluateSteps_decides. Qed.

(** C9: a request is allowed exactly when every condition holds: the subject is
    found, active and not disabled in Keycloak; at global scope it holds the
    platform role; at company scope the company is active and the subject is an
    operator taking the exception or an unblocked member with the required role;
    the module is on; the object is bound to the company and the relation holds;
    and the eligibility callback, if asked, answered in time without refusing. *)
Theorem Evaluate_allowed_iff {E} (deps : @Deps E) req :
  Allowed (Evaluate deps req) = true <-> access_granted deps req.
Proof.
  destruct (Evaluate_decides deps req) as [_ ->]. rewrite first_stop_pass. apply gates_granted.
Qed.

(** A batch is a batching convenience, not another policy, at company scope:
    every item gets the answer (allowed, reason, and on uncertainty the dependency
    and step) that a single Evaluate of the same request with that object and
    relation gives, in the order of the items. *)
Theorem EvaluateBatch_agrees {E} (deps : @Deps E) base items :
  req_Scope base <> ScopeGlobal ->
  (fun x => (x.1, answer_of x.2)) <$> EvaluateBatch deps base items =
  (fun it => (it, answer_of (Evaluate deps
     (with_object base (IObject it) (IRelation it) (req_RequiresEligibility base))))) <$> items.
Proof.
  intros Hs. unfold EvaluateBatch. pose proof (prefix_decides deps base Hs) as Hp.
  case_bool_decide as Hw; rewrite <- list_fmap_compose; apply list_fmap_ext; intros _ it _; simpl; f_equal.
  - rewrite outcome_allowed, Hp in Hw. unfold answer_of.
    destruct (Evaluate_decides deps (with_object base (req_Object base) "" false)) as [Ho Ha].
    set (req := with_object base (IObject it) _ _). destruct (Evaluate_decides deps req) as [-> ->].
    rewrite Ha, <- Ho, Hp. unfold gates, req. rewrite prefix_with_object, first_stop_app.
    by destruct (first_stop (prefix_gates deps base)).
  - rewrite outcome_allowed, Hp in Hw. by apply batch_item_agrees.
Qed.

(** Every dependency answers yes, and the engine binds and grants document 1 only. *)
Definition demoDeps : @Deps unit :=
  mkDeps (fun _ => Ok (mkSubject true true)) (fun _ => Ok KCTrue) (fun _ _ => Ok true)
    (fun _ => Ok (mkCompany true true)) (fun _ _ => Ok (mkMembership true false))
    (fun _ _ _ => Ok true) (fun _ => Ok true)
    (fun _ i _ _ _ => Ok (seqb i "1")) (Some (fun _ i _ _ _ _ => Ok (seqb i "1")))
    (Some (fun _ r => seqb r "company_module")) None.

Definition demoRequest (scope : string) : Request :=
  mkRequest "ann" "docs.read" "docs" scope "acme" "kiban-superadmin" false "" (mkRef "page" "1") "viewer" false "".

Definition demoItems : list DBatchItem := [mkItem (mkRef "page" "1") "viewer"; mkItem (mkRef "page" "2") "viewer"].

Lemma EvaluateBatch_agrees_witness :
  req_Scope (demoRequest ScopeCompany) <> ScopeGlobal /\
  (fun x => (x.1, answer_of x.2)) <$> EvaluateBatch demoDeps (demoRequest ScopeCompany) demoItems =
  [(mkItem (mkRef "page" "1") "viewer", (true, Pass));
   (mkItem (mkRef "page" "2") "viewer", (false, Refuse ReasonEngineDenied))].
Proof.
  split; [intros H; discriminate H|].
  rewrite (EvaluateBatch_agrees demoDeps (demoRequest ScopeCompany) demoItems) by (intros H; discriminate H).
  vm_compute. reflexivity.
Defined.

(** At global scope the two paths differ: a single request stops at the platform
    role, a batch goes on to the relation check. *)
Example EvaluateBatch_global_differs :
  Allowed (Evaluate demoDeps (with_object (demoRequest ScopeGlobal) (mkRef "page" "2") "viewer" false)) = true /\
  (Allowed ∘ snd <$> EvaluateBatch demoDeps (demoRequest ScopeGlobal) [mkItem (mkRef "page" "2") "viewer"]) = [false].
Proof. vm_compute. done. Qed.
