(* ===== verification/Clients.v ===== *)
(** * The decision's real dependencies

    internal/authz/clients.go: the HTTP clients of identity, registry and org, and
    the two role sources that ask the engine; and the part of internal/authz/http.go
    and service.go that wires them into a decider.  An HTTP call fails in transport
    or yields a status and, on success, what encoding/json decodes from the body
    ([None]: it does not decode). *)

From stdpp Require Import base gmap strings list.
From S2P Require Import Prelude Model Tuple Eval Fragment TupleStore Decision.

Inductive dep_error : Type :=
| TransportError
| StatusError (code : Z)
| DecodeError
| EngineError (e : check_error).

Record Response A := mkResponse { StatusCode : Z; Decoded : option A }.
Arguments mkResponse {A}.
Arguments StatusCode {A}.
Arguments Decoded {A}.

Abbreviation HTTP A := (result dep_error (Response A)).

Definition StatusOK : Z := 200.
Definition StatusNotFound : Z := 404.

Definition decoded {A} (r : Response A) : result dep_error A :=
  match Decoded r with Some a => Ok a | None => Err DecodeError end.

(** The tail the clients share: any status but 200 is an error, a body that does not
    decode is an error. *)
Definition expectOK {A} (r : Response A) : result dep_error A :=
  if (StatusCode r =? StatusOK)%Z then decoded r else Err (StatusError (StatusCode r)).

(** ** identity *)

Record userState := mkUserState { Lifecycle : string; KCEnabled : string }.

Section identity.
(** GET /internal/identity/users/{kcSub}/state *)
Context (getState : string -> HTTP userState).

(** [IdentityClient.fetchState]; [None] is "not found". *)
Definition fetchState (subjectID : string) : result dep_error (option userState) :=
  let! resp := getState subjectID in
  if (StatusCode resp =? StatusNotFound)%Z then Ok None
  else let! out := expectOK resp in Ok (Some out).

(** [IdentityClient.Lookup] *)
Definition Lookup (subjectID : string) : result dep_error SubjectResult :=
  let! st := fetchState subjectID in
  match st with
  | None => Ok (mkSubject false false)
  | Some s => Ok (mkSubject true (seqb (Lifecycle s) "active"))
  end.

(** [IdentityClient.Enabled] *)
Definition IdentityEnabled (subjectID : string) : result dep_error string :=
  let! st := fetchState subjectID in
  match st with
  | None => Ok KCUnknown
  | Some s =>
      if seqb (KCEnabled s) "true" then Ok KCTrue
      else if seqb (KCEnabled s) "false" then Ok KCFalse
      else Ok KCUnknown
  end.
End identity.

(** ** registry *)

(** One entry of GET /api/platform/capabilities. *)
Record capability := mkCapability {
  CModule : string;
  CEnabled : bool;
  ServiceClientID : string;
  External : bool;
  Features : list string
}.

Section registry.
Context (getCapability : string -> HTTP bool) (getCapabilities : HTTP (list capability)).

(** [RegistryClient.Enabled] *)
Definition RegistryEnabled (moduleKey : string) : result dep_error bool :=
  let! resp := getCapability moduleKey in
  if (StatusCode resp =? StatusNotFound)%Z then Ok false else expectOK resp.

(** [RegistryClient.capabilities] *)
Definition capabilities : result dep_error (list capability) :=
  let! resp := getCapabilities in expectOK resp.

(** The three maps built from the list: a later entry for the same module replaces
    an earlier one. *)
Definition AppFeatures : result dep_error (gmap string (gset string)) :=
  let! out := capabilities in
  Ok (foldl (fun apps m =>
        if negb (External m) && (length (Features m) =? 0)%nat then apps
        else <[CModule m := list_to_set (Features m)]> apps) ∅ out).

Definition AppOwners : result dep_error (gmap string string) :=
  let! out := capabilities in
  Ok (foldl (fun owners m =>
        if negb (seqb (ServiceClientID m) "") then <[CModule m := ServiceClientID m]> owners
        else owners) ∅ out).

Definition ClientKnownEnabled : result dep_error (gmap string bool) :=
  let! out := capabilities in
  Ok (foldl (fun known m => <[CModule m := CEnabled m]> known) ∅ out).
End registry.

(** ** org *)

Record companyStateData := mkCompanyData { ExistsField : bool; IsActive : bool }.
Record membershipData := mkMembershipData { IsMemberField : bool; MemberActive : bool }.

Section org.
Context (getCompanyState : string -> HTTP companyStateData)
        (getMembership : string -> string -> HTTP membershipData).

(** [OrgClient.State] *)
Definition OrgState (companyID : string) : result dep_error CompanyState :=
  let! resp := getCompanyState companyID in
  let! out := expectOK resp in
  Ok (mkCompany (ExistsField out) (IsActive out)).

(** [OrgClient.Membership] *)
Definition OrgMembership (companyID subjectID : string) : result dep_error MembershipState :=
  let! resp := getMembership companyID subjectID in
  let! out := expectOK resp in
  if negb (IsMemberField out) then Ok (mkMembership false false)
  else Ok (mkMembership true (negb (MemberActive out))).
End org.

(** ** The engine as a dependency *)

Definition PlatformRoleSuperadmin : string := "kiban-superadmin".

Definition engine_result (r : result check_error bool) : result dep_error bool :=
  match r with Ok b => Ok b | Err e => Err (EngineError e) end.

Section checker.
(** How the tuple table answers the engine, and the model it runs on. *)
Context (db : Database) (loaded : Loaded).

(** [fragmentEngineChecker] *)
Definition checkerCheck (objType objID rel subjType subjID : string) : result dep_error bool :=
  engine_result (FragmentCheck db loaded objType objID rel subjType subjID).

Definition checkerCheckInCompany (objType objID rel subjType subjID companyID : string)
    : result dep_error bool :=
  engine_result (FragmentCheckInCompany db loaded objType objID rel subjType subjID companyID).

Definition Defines (objType rel : string) : bool :=
  match LModel loaded !! objType with
  | Some rels => bool_decide (is_Some (rels !! rel))
  | None => false
  end.

(** [enginePlatformRoleSource.HasRole] *)
Definition enginePlatformRole (subjectID role : string) : result dep_error bool :=
  if negb (seqb role PlatformRoleSuperadmin) then Ok false
  else let tp := SuperadminTuple subjectID in
       checkerCheck (ObjectType tp) (ObjectID tp) (Relation tp) (SubjectType tp) (SubjectID tp).

(** [engineCompanyRoleSource.HasRole] *)
Definition engineCompanyRole (companyID subjectID role : string) : result dep_error bool :=
  checkerCheck "company" companyID role "user" subjectID.
End checker.

(** ** The service *)

(** [Service], as the answers its upstreams and its database give to one request:
    the three peers, the fragment rows, the tuple rows and two point reads. [None] in
    [svc_AppOwners] and [svc_AppFeatures] is a nil function. *)
Record Service := mkService {
  svc_state : string -> HTTP userState;
  svc_capability : string -> HTTP bool;
  svc_company : string -> HTTP companyStateData;
  svc_membership : string -> string -> HTTP membershipData;
  svc_KnownEnabled : result dep_error (gmap string bool);
  svc_AppOwners : option (result dep_error (gmap string string));
  svc_AppFeatures : option (result dep_error (gmap string (gset string)));
  svc_rows : result load_error (list Row);
  svc_db : Database;
  (** store.MemberOfCompany and store.AnchorOf on the pool *)
  svc_MemberOfCompany : string -> string -> result dep_error bool;
  svc_AnchorOf : string -> string -> result dep_error string
}.

(** [effectiveEngine]; a failure is a 500, so its cause is not kept. *)
Definition effectiveEngine (svc : Service) : option Loaded :=
  match svc_KnownEnabled svc with
  | Err _ => None
  | Ok known => match Load (svc_rows svc) known with Ok l => Some l | Err _ => None end
  end.

(** The [Deps] of [buildDeciderAndChecker]: every source wired, no eligibility. *)
Definition serviceDeps (svc : Service) (loaded : Loaded) : @Deps dep_error :=
  mkDeps
    (Lookup (svc_state svc)) (IdentityEnabled (svc_state svc))
    (enginePlatformRole (svc_db svc) loaded)
    (OrgState (svc_company svc)) (OrgMembership (svc_membership svc))
    (engineCompanyRole (svc_db svc) loaded)
    (RegistryEnabled (svc_capability svc))
    (checkerCheck (svc_db svc) loaded) (Some (checkerCheckInCompany (svc_db svc) loaded))
    (Some (Defines loaded)) None.
