(* ===== verification/AuthzHTTP.v ===== *)
(** * The authz HTTP surface

    internal/authz/http.go and platform_role.go: the effective-access endpoints, the
    grants endpoint and the platform-role endpoints.  A handler takes the tables and
    the audit log to a reply and their next state.  A reply keeps the status, the
    error code where several share a status, the reason and the data; the wording of
    messages is left out.  Bearer verification (jwx) and UUID parsing (google/uuid)
    are parameters. *)

From stdpp Require Import base gmap strings list.
From Stdlib Require Import Ascii.
From S2P Require Import Prelude Model Tuple Eval Fragment TupleStore Decision Clients.

(** ** Replies and the audit log *)

Inductive Reply : Type :=
| WriteDecision (d : AccessDecision)
| WriteBatch (results : list (DBatchItem * AccessDecision))
| WriteCount (n : nat)
| WriteRole (subjectID role : string)
| WriteUnauthorized (code : string)
| WriteBadRequest (code : string)
| WriteValidationFailed
| WriteForbidden (reason : Reason)
| WriteNotFound
| WriteConflict
| WriteUnavailable (dependency step : string)
| WriteInternalError.

Definition status (r : Reply) : Z :=
  match r with
  | WriteDecision _ | WriteBatch _ | WriteCount _ | WriteRole _ _ => 200
  | WriteBadRequest _ => 400
  | WriteUnauthorized _ => 401
  | WriteForbidden _ => 403
  | WriteNotFound => 404
  | WriteConflict => 409
  | WriteValidationFailed => 422
  | WriteInternalError => 500
  | WriteUnavailable _ _ => 503
  end.

Inductive AuditPayload : Type :=
| DenialPayload (reason : Reason) (featureKey : string)
| BatchDenialPayload (featureKey : string) (deniedCount : nat)
    (denied : list (ObjectRef * string * Reason)) (truncated : bool)
| GrantsPayload (count : nat) (companyID moduleKey : string)
| RolePayload (role grantedBy : string).

Record AuditEvent := mkEvent {
  evActor : string;
  evAction : string;
  evSubject : string;
  evPayload : AuditPayload
}.

(** The committed tables and audit log. *)
Record World := mkWorld { w_db : AuthzDB; w_audit : list AuditEvent }.

(** What fails while a handler runs: a transaction's begin, its statements, its
    audit row, its commit; and the separate transaction of a denial's audit row. *)
Record Faults := mkFaults {
  begin_fails : bool;
  stmt_fails : nat -> bool;
  audit_fails : bool;
  commit_fails : bool;
  denial_fails : bool
}.

Record Claims := mkClaims { Subject : string; ClientID : string }.

Definition actionAccessDenied : string := "authz.effective_access.denied".

(** [auditDenialPayload]: a failed write is ignored. *)
Definition auditDenialPayload (f : Faults) (actor featureKey : string) (p : AuditPayload) (w : World) : World :=
  if denial_fails f then w
  else mkWorld (w_db w) (w_audit w ++ [mkEvent actor actionAccessDenied featureKey p]).

(** [auditDenial] *)
Definition auditDenial (f : Faults) (actor featureKey : string) (d : AccessDecision) (w : World) : World :=
  auditDenialPayload f actor featureKey (DenialPayload (Why d) featureKey) w.

(** [writeDecision] *)
Definition writeDecision (d : AccessDecision) : Reply :=
  if bool_decide (Why d = ReasonDependencyUnavailable)
  then WriteUnavailable (Dependency d) (Step d)
  else WriteDecision d.

(** ** /can and /batch-can *)

Record canRequestWire := mkCan {
  ActorOverride : string;
  wFeatureKey : string;
  wModuleKey : string;
  wScope : string;
  wCompanyID : string;
  wRequiredPlatformRole : string;
  wAllowPlatformOperator : bool;
  wRequiredCompanyRole : string;
  wObject : ObjectRef;
  wRelation : string;
  wRequiresEligibility : bool;
  wCorrelationID : string
}.

(** [toDecisionRequest], after the handler's update of the module key. *)
Definition toDecisionRequest (w : canRequestWire) (moduleKey subjectID : string) : Request :=
  mkRequest subjectID (wFeatureKey w) moduleKey
    (if seqb (wScope w) "global" then ScopeGlobal else ScopeCompany)
    (wCompanyID w) (wRequiredPlatformRole w) (wAllowPlatformOperator w) (wRequiredCompanyRole w)
    (wObject w) (wRelation w) (wRequiresEligibility w) (wCorrelationID w).

(** [moduleOrFeaturePrefix] *)
Definition moduleOrFeaturePrefix (moduleKey featureKey : string) : string :=
  if negb (seqb moduleKey "") then moduleKey
  else match Cut featureKey "." with
       | Some (String c rest, _) => String c rest
       | _ => moduleKey
       end.

(** [validateCanRequest] *)
Definition validateCanRequest (sub : string) (req : canRequestWire) : result Reply unit :=
  if negb (seqb (ActorOverride req) "") && negb (seqb (ActorOverride req) sub)
  then Err (WriteBadRequest "BAD_REQUEST")
  else if wRequiresEligibility req then Err (WriteBadRequest "VALIDATION_ERROR")
  else if seqb (wScope req) "global" && seqb (wRequiredPlatformRole req) ""
  then Err (WriteBadRequest "VALIDATION_ERROR")
  else Ok tt.

(** [featureDeclared] *)
Definition featureDeclared (svc : Service) (moduleKey : string) (featureKeys : list string)
    : result Reply unit :=
  if seqb moduleKey "" then Ok tt
  else match svc_AppFeatures svc with
       | None => Ok tt
       | Some (Err _) => Err (WriteUnavailable "registry" "features")
       | Some (Ok apps) =>
           match apps !! moduleKey with
           | None => Ok tt
           | Some declared =>
               for_each (fun f =>
                 if negb (seqb f (moduleKey +:+ ".access")) && negb (bool_decide (f ∈ declared))
                 then Err WriteValidationFailed else Ok tt) featureKeys
           end
       end.

(** A refusal: the reply, and the denial to audit first, if any (feature key and
    decision). *)
Abbreviation Refusal := (Reply * option (string * AccessDecision))%type.

Section handlers.
(** What VerifyClaims makes of a bearer token, and what uuid.Parse accepts. *)
Context (verify : string -> option Claims) (uuid_ok : string -> bool).

(** [bearerClaims]: the Authorization header to claims. *)
Definition bearerClaims (header : string) : result Reply Claims :=
  if negb (HasPrefix header "Bearer ") then Err (WriteUnauthorized "AUTH_TOKEN_MISSING")
  else match verify (TrimPrefix header "Bearer ") with
       | None => Err (WriteUnauthorized "AUTH_TOKEN_INVALID")
       | Some c => Ok c
       end.

(** The handlers' common preamble; a body that does not decode is [None]. *)
Definition decodeBody {A} (body : option A) : result Reply A :=
  match body with Some a => Ok a | None => Err (WriteBadRequest "BAD_REQUEST") end.

Definition buildDecider (svc : Service) : result Reply (Loaded * @Deps dep_error) :=
  match effectiveEngine svc with
  | None => Err WriteInternalError
  | Some l => Ok (l, serviceDeps svc l)
  end.

(** Everything [handleCan] does up to the decision. *)
Definition prepareCan (svc : Service) (header : string) (body : option canRequestWire)
    : result Reply (string * canRequestWire * Request * @Deps dep_error) :=
  let! claims := bearerClaims header in
  let sub := Subject claims in
  let! req := decodeBody body in
  let! _ := validateCanRequest sub req in
  let moduleKey := moduleOrFeaturePrefix (wModuleKey req) (wFeatureKey req) in
  let! _ := featureDeclared svc moduleKey [wFeatureKey req] in
  let! built := buildDecider svc in
  Ok (sub, req, toDecisionRequest req moduleKey sub, built.2).

(** [handleCan] *)
Definition handleCan (svc : Service) (f : Faults) (header : string) (body : option canRequestWire)
    (w : World) : Reply * World :=
  match prepareCan svc header body with
  | Err r => (r, w)
  | Ok (sub, req, dreq, deps) =>
      let d := Evaluate deps dreq in
      (writeDecision d, if Allowed d then w else auditDenial f sub (wFeatureKey req) d w)
  end.

Definition maxBatchItems : nat := 100.
Definition maxAuditedDenials : nat := 50.

Record batchCanRequestWire := mkBatchCan { bCan : canRequestWire; Items : list DBatchItem }.

(** The [denied] list the loop of [handleBatchCan] collects. *)
Definition deniedItems (results : list (DBatchItem * AccessDecision)) : list (ObjectRef * string * Reason) :=
  foldl (fun denied res =>
      if negb (Allowed res.2) && (length denied <? maxAuditedDenials)%nat
      then denied ++ [(IObject res.1, IRelation res.1, Why res.2)] else denied) [] results.

(** [handleBatchCan] *)
Definition handleBatchCan (svc : Service) (f : Faults) (header : string) (body : option batchCanRequestWire)
    (w : World) : Reply * World :=
  match
    (let! claims := bearerClaims header in
     let sub := Subject claims in
     let! req := decodeBody body in
     let! _ := validateCanRequest sub (bCan req) in
     let moduleKey := moduleOrFeaturePrefix (wModuleKey (bCan req)) (wFeatureKey (bCan req)) in
     let! _ := featureDeclared svc moduleKey [wFeatureKey (bCan req)] in
     let! _ := if (maxBatchItems <? length (Items req))%nat
               then Err (WriteBadRequest "VALIDATION_ERROR") else Ok tt in
     let! built := buildDecider svc in
     Ok (sub, req, toDecisionRequest (bCan req) moduleKey sub, built.2))
  with
  | Err r => (r, w)
  | Ok (sub, req, base, deps) =>
      let results := EvaluateBatch deps base (Items req) in
      let denied := deniedItems results in
      let w' :=
        if (0 <? length denied)%nat then
          let deniedCount := length (filter (fun res => Allowed res.2 = false) results) in
          auditDenialPayload f sub (wFeatureKey (bCan req))
            (BatchDenialPayload (wFeatureKey (bCan req)) deniedCount denied (length denied <? deniedCount)%nat) w
        else w in
      (WriteBatch results, w')
  end.

(** ** Grants *)

Record grantsRequestWire := mkGrants {
  Op : string;
  gCompanyID : string;
  gTuples : list Tuple;
  gCorrelationID : string
}.

(** [isCompanyAdminAppointment] *)
Definition isCompanyAdminAppointment (req : grantsRequestWire) : bool :=
  forallb (fun t =>
    seqb (ObjectType t) "company" && seqb (ObjectID t) (gCompanyID req) && seqb (Relation t) "admin"
    && seqb (SubjectType t) "user" && negb (seqb (SubjectID t) "") && seqb (SubjectRelation t) "") (gTuples req).

Definition refuse {A} (r : Reply) : result Refusal A := Err (r, None).

Definition or_unavailable {A} (step : string) (dependency : string) (r : result dep_error A) : result Refusal A :=
  match r with Ok a => Ok a | Err _ => refuse (WriteUnavailable dependency step) end.

(** The reply to a decision that is not allowed: 503 if uncertain, else 403. *)
Definition refuseDecision {A} (featureKey : string) (d : AccessDecision) : result Refusal A :=
  Err (if bool_decide (Why d = ReasonDependencyUnavailable)
       then WriteUnavailable (Dependency d) (Step d) else WriteForbidden (Why d),
       Some (featureKey, d)).

(** Rule 1: the one module of the request. *)
Definition moduleOf (loaded : Loaded) (companyID : string) (t : Tuple) : option string :=
  if seqb (ObjectType t) "company_module" then
    let m := TrimPrefix (ObjectID t) (companyID +:+ "/") in
    if seqb m (ObjectID t) || negb (bool_decide (is_Some (KnownEnabled loaded !! m))) then None else Some m
  else
    let m := default "" (TypeOwner loaded !! ObjectType t) in
    if seqb m "" then None else Some m.

Fixpoint resolveModule (loaded : Loaded) (companyID : string) (ts : list Tuple) (moduleKey : string)
    : result Refusal string :=
  match ts with
  | [] => Ok moduleKey
  | t :: ts' =>
      match moduleOf loaded companyID t with
      | None => refuse WriteValidationFailed
      | Some m =>
          if negb (seqb moduleKey "") && negb (seqb m moduleKey) then refuse WriteValidationFailed
          else resolveModule loaded companyID ts' m
      end
  end.

(** The two loops that validate the subjects of a grant. *)
Definition subjectShape (loaded : Loaded) (t : Tuple) : result Refusal unit :=
  if seqb (SubjectRelation t) "" then Ok tt
  else match LModel loaded !! SubjectType t with
       | None => refuse WriteValidationFailed
       | Some rels =>
           if bool_decide (is_Some (rels !! SubjectRelation t)) then Ok tt else refuse WriteValidationFailed
       end.

Definition subjectCompany (svc : Service) (loaded : Loaded) (companyID : string) (t : Tuple) : result Refusal unit :=
  let belongs (r : result dep_error bool) :=
    let! ok := or_unavailable "grants_subject" "engine" r in
    if (ok : bool) then Ok tt else refuse WriteValidationFailed in
  if seqb (SubjectType t) "position" || seqb (SubjectType t) "group" then
    belongs (checkerCheck (svc_db svc) loaded (SubjectType t) (SubjectID t) "company" "company" companyID)
  else if seqb (SubjectType t) "member" then belongs (svc_MemberOfCompany svc companyID (SubjectID t))
  else Ok tt.

(** The owner rule: whether the caller owns the module, and whether it is some
    registered app's service account. *)
Definition ownerRule (svc : Service) (clientID moduleKey : string) : result Refusal (bool * bool) :=
  if seqb clientID "" then Ok (false, false)
  else match svc_AppOwners svc with
       | None => Ok (false, false)
       | Some r =>
           let! owners := or_unavailable "grants_owner" "registry" r in
           Ok (seqb (default "" (owners !! moduleKey)) clientID,
               bool_decide (clientID ∈ (map_to_list owners).*2))
       end.

Definition ownerModuleOn (svc : Service) (moduleKey : string) : result Refusal unit :=
  let! on := or_unavailable "grants_owner" "registry" (RegistryEnabled (svc_capability svc) moduleKey) in
  if (on : bool) then Ok tt else refuse (WriteForbidden ReasonModuleDisabled).

(** Rule 3's request. *)
Definition grantsRequest (sub companyID moduleKey correlationID : string) (registeredApp : bool) : Request :=
  mkRequest sub (moduleKey +:+ ".grants") moduleKey ScopeCompany companyID PlatformRoleSuperadmin true
    (if registeredApp then "admin" else "") (mkRef "" "") "" false correlationID.

Definition objKey (t : Tuple) : string := ObjectType t +:+ ":" +:+ ObjectID t.

(** The keys of [inRequestAnchor]. *)
Definition requestAnchors (op anchorID : string) (ts : list Tuple) : list string :=
  if seqb op "grant" then
    objKey <$> filter (fun t => Relation t = "company_module" /\ SubjectType t = "company_module" /\
                                 SubjectID t = anchorID /\ SubjectRelation t = "") ts
  else [].

(** The one-anchor check on each key; the map's keys are visited in request order. *)
Definition anchorFree (svc : Service) (anchorID key : string) : result Refusal unit :=
  let '(objType, objID) := default (key, "") (Cut key ":") in
  let! existing := or_unavailable "grants_anchor" "engine" (svc_AnchorOf svc objType objID) in
  if negb (seqb existing "") && negb (seqb existing anchorID) then refuse WriteValidationFailed else Ok tt.

(** The body of the last loop for a module object. *)
Definition checkObject (svc : Service) (loaded : Loaded) (op anchorID : string) (ownerCall : bool)
    (anchors : list string) (t : Tuple) : result Refusal unit :=
  if seqb (Relation t) "company_module" && negb (bool_decide (objKey t ∈ anchors)) && seqb op "grant"
  then refuse WriteValidationFailed
  else if bool_decide (objKey t ∈ anchors) then Ok tt
  else
    let! anchored := or_unavailable "grants_anchor" "engine"
      (checkerCheck (svc_db svc) loaded (ObjectType t) (ObjectID t) "company_module" "company_module" anchorID) in
    if (anchored : bool) then Ok tt
    else if seqb op "revoke" && ownerCall then
      let! existing := or_unavailable "grants_anchor" "engine" (svc_AnchorOf svc (ObjectType t) (ObjectID t)) in
      if seqb existing "" then Ok tt else refuse WriteValidationFailed
    else refuse WriteValidationFailed.

Fixpoint checkTuples (svc : Service) (loaded : Loaded) (sub op moduleKey anchorID : string) (ownerCall : bool)
    (anchors : list string) (adminChecked : bool) (ts : list Tuple) : result Refusal unit :=
  match ts with
  | [] => Ok tt
  | t :: ts' =>
      if seqb (ObjectType t) "company_module" then
        if adminChecked then checkTuples svc loaded sub op moduleKey anchorID ownerCall anchors adminChecked ts'
        else
          let! isAdmin := or_unavailable "grants_admin" "engine"
            (checkerCheck (svc_db svc) loaded "company_module" anchorID "admin" "user" sub) in
          if (isAdmin : bool)
          then checkTuples svc loaded sub op moduleKey anchorID ownerCall anchors true ts'
          else Err (WriteForbidden ReasonEngineDenied,
                    Some (moduleKey +:+ ".grants",
                          mkDecision false ReasonEngineDenied
                            [mkEvidence "relation" "admin"; mkEvidence "object" ("company_module:" +:+ anchorID)] "" ""))
      else
        let! _ := checkObject svc loaded op anchorID ownerCall anchors t in
        checkTuples svc loaded sub op moduleKey anchorID ownerCall anchors adminChecked ts'
  end.

(** Rules 1 to 4 of [handleGrants] for a request that is not an appointment: the
    module it is about. *)
Definition checkGrants (svc : Service) (loaded : Loaded) (deps : @Deps dep_error) (claims : Claims)
    (req : grantsRequestWire) : result Refusal string :=
  let sub := Subject claims in
  let! moduleKey := resolveModule loaded (gCompanyID req) (gTuples req) "" in
  let anchorID := gCompanyID req +:+ "/" +:+ moduleKey in
  let! _ :=
    if seqb (Op req) "grant" then
      let! _ := for_each (subjectShape loaded) (gTuples req) in
      for_each (subjectCompany svc loaded (gCompanyID req)) (gTuples req)
    else Ok tt in
  let! owner := ownerRule svc (ClientID claims) moduleKey in
  let '(ownerCall, registeredApp) := owner in
  let! _ := if (ownerCall : bool) then ownerModuleOn svc moduleKey else Ok tt in
  let! _ :=
    if (ownerCall : bool) then Ok tt
    else
      let d := Evaluate deps (grantsRequest sub (gCompanyID req) moduleKey (gCorrelationID req) registeredApp) in
      if Allowed d then Ok tt else refuseDecision (moduleKey +:+ ".grants") d in
  let anchors := requestAnchors (Op req) anchorID (gTuples req) in
  let! _ := for_each (anchorFree svc anchorID) (remove_dups anchors) in
  let! _ := checkTuples svc loaded sub (Op req) moduleKey anchorID ownerCall anchors false (gTuples req) in
  Ok moduleKey.

(** The appointment branch: superadmin only. *)
Definition appointmentRequest (sub correlationID : string) : Request :=
  mkRequest sub (FoundationModuleKey +:+ ".company_administration.appoint") FoundationModuleKey ScopeGlobal ""
    PlatformRoleSuperadmin false "" (mkRef "" "") "" false correlationID.

Definition checkAppointment (deps : @Deps dep_error) (sub : string) (req : grantsRequestWire) : result Refusal string :=
  let d := Evaluate deps (appointmentRequest sub (gCorrelationID req)) in
  if Allowed d then Ok FoundationModuleKey else refuseDecision (FoundationModuleKey +:+ ".grants") d.

(** [writeGrants] *)
Definition writeGrants (f : Faults) (sub moduleKey : string) (req : grantsRequestWire) (w : World) : Reply * World :=
  if begin_fails f then (WriteInternalError, w)
  else
    let tx := if seqb (Op req) "grant" then Grant (stmt_fails f) sub (gCorrelationID req) (gTuples req)
              else Revoke (stmt_fails f) sub (gCorrelationID req) (gTuples req) in
    match runTx tx (w_db w) with
    | Err (AnchorConflictError _) => (WriteValidationFailed, w)
    | Err _ => (WriteInternalError, w)
    | Ok (_, db') =>
        if audit_fails f || commit_fails f then (WriteInternalError, w)
        else (WriteCount (length (gTuples req)),
              mkWorld db' (w_audit w ++ [mkEvent sub ("authz.grants." +:+ Op req) (gCorrelationID req)
                (GrantsPayload (length (gTuples req)) (gCompanyID req) moduleKey)]))
    end.

(** The first guards of [handleGrants]. *)
Definition prepareGrants (svc : Service) (header : string) (body : option grantsRequestWire)
    : result Reply (Claims * grantsRequestWire * Loaded * @Deps dep_error) :=
  let! claims := bearerClaims header in
  let! req := decodeBody body in
  let! _ := if negb (seqb (Op req) "grant") && negb (seqb (Op req) "revoke")
            then Err (WriteBadRequest "BAD_REQUEST") else Ok tt in
  let! _ := if (length (gTuples req) =? 0)%nat then Err (WriteBadRequest "BAD_REQUEST") else Ok tt in
  let! _ := if negb (uuid_ok (gCompanyID req)) then Err (WriteBadRequest "BAD_REQUEST") else Ok tt in
  let! built := buildDecider svc in
  Ok (claims, req, built.1, built.2).

Definition authorizeGrants (svc : Service) (loaded : Loaded) (deps : @Deps dep_error) (claims : Claims)
    (req : grantsRequestWire) : result Refusal string :=
  if isCompanyAdminAppointment req then checkAppointment deps (Subject claims) req
  else checkGrants svc loaded deps claims req.

(** [handleGrants] *)
Definition handleGrants (svc : Service) (f : Faults) (header : string) (body : option grantsRequestWire)
    (w : World) : Reply * World :=
  match prepareGrants svc header body with
  | Err r => (r, w)
  | Ok (claims, req, loaded, deps) =>
      match authorizeGrants svc loaded deps claims req with
      | Err (r, None) => (r, w)
      | Err (r, Some (featureKey, d)) => (r, auditDenial f (Subject claims) featureKey d w)
      | Ok moduleKey => writeGrants f (Subject claims) moduleKey req w
      end
  end.

(** ** Platform roles *)

Inductive role_error : Type :=
| errNotHeld
| errLastSuperadmin
| errStore.

(** [writePlatformRole]: the transaction, whose lock serialises it against the other
    changes of the role. Its statements are the lock, the two reads and the tuple
    and ledger writes. *)
Definition lockStep (fails : nat -> bool) : Tx unit := exec fails (fun db => Ok (tt, db)).
Definition tupleHeld (fails : nat -> bool) (tp : Tuple) : Tx bool :=
  exec fails (fun db => Ok (bool_decide (tp ∈ tuples db), db)).

Definition roleTx (fails : nat -> bool) (actor subjectID : string) (o : op) : Tx (option role_error) :=
  let tp := SuperadminTuple subjectID in
  let* _ := lockStep fails in
  match o with
  | revoke =>
      let* held := tupleHeld fails tp in
      if negb held then tret (Some errNotHeld)
      else
        let* n := CountSuperadmins fails in
        if (n <=? 1)%nat then tret (Some errLastSuperadmin)
        else let* _ := Revoke fails actor "" [tp] in tret None
  | grant => let* _ := Grant fails actor "" [tp] in tret None
  end.

Definition opName (o : op) : string := match o with grant => "grant" | revoke => "revoke" end.

Definition writePlatformRole (f : Faults) (actor subjectID : string) (o : op) (w : World)
    : result role_error unit * World :=
  if begin_fails f then (Err errStore, w)
  else match runTx (roleTx (stmt_fails f) actor subjectID o) (w_db w) with
       | Err _ => (Err errStore, w)
       | Ok (Some e, _) => (Err e, w)
       | Ok (None, db') =>
           if audit_fails f || commit_fails f then (Err errStore, w)
           else (Ok tt, mkWorld db' (w_audit w ++
                  [mkEvent actor ("authz.platform_role." +:+ opName o) ("user:" +:+ subjectID)
                     (RolePayload PlatformRoleSuperadmin actor)]))
       end.

Definition roleRequest (sub featureKey : string) : Request :=
  mkRequest sub featureKey "" ScopeGlobal "" PlatformRoleSuperadmin false "" (mkRef "" "") "" false "".

(** [authorizePlatformRoleChange] *)
Definition authorizePlatformRoleChange (svc : Service) (sub featureKey : string) : result Refusal unit :=
  match buildDecider svc with
  | Err r => refuse r
  | Ok (_, deps) =>
      let d := Evaluate deps (roleRequest sub featureKey) in
      if Allowed d then Ok tt else refuseDecision featureKey d
  end.

(** [writePlatformRoleValidation] *)
Definition platformRoleValidation (role subjectID : string) : result Reply unit :=
  if negb (seqb role PlatformRoleSuperadmin) then Err WriteValidationFailed
  else if seqb subjectID "" then Err (WriteBadRequest "BAD_REQUEST")
  else Ok tt.

Definition lift_refusal {A} (r : result Reply A) : result Refusal A :=
  match r with Ok a => Ok a | Err e => refuse e end.

(** Writes a refusal, after its audit row. *)
Definition refused (f : Faults) (sub : string) (r : Refusal) (w : World) : Reply * World :=
  match r with
  | (reply, None) => (reply, w)
  | (reply, Some (featureKey, d)) => (reply, auditDenial f sub featureKey d w)
  end.

(** [handleGrantPlatformRole]; the body is a subject id and a role. *)
Definition handleGrantPlatformRole (svc : Service) (f : Faults) (header : string)
    (body : option (string * string)) (w : World) : Reply * World :=
  match bearerClaims header with
  | Err r => (r, w)
  | Ok claims =>
      let sub := Subject claims in
      match
        (let! req := lift_refusal (decodeBody body) in
         let! _ := lift_refusal (platformRoleValidation req.2 req.1) in
         let! _ := authorizePlatformRoleChange svc sub "authz.platform_role.grant" in
         let! subject := or_unavailable "subject_lookup" "identity" (Lookup (svc_state svc) req.1) in
         if negb (Found subject) then refuse WriteNotFound else Ok req)
      with
      | Err r => refused f sub r w
      | Ok (subjectID, role) =>
          match writePlatformRole f sub subjectID grant w with
          | (Err _, w') => (WriteInternalError, w')
          | (Ok _, w') => (WriteRole subjectID role, w')
          end
      end
  end.

(** [handleRevokePlatformRole] *)
Definition handleRevokePlatformRole (svc : Service) (f : Faults) (header role subjectID : string)
    (w : World) : Reply * World :=
  match bearerClaims header with
  | Err r => (r, w)
  | Ok claims =>
      let sub := Subject claims in
      match
        (let! _ := lift_refusal (platformRoleValidation role subjectID) in
         authorizePlatformRoleChange svc sub "authz.platform_role.revoke")
      with
      | Err r => refused f sub r w
      | Ok _ =>
          match writePlatformRole f sub subjectID revoke w with
          | (Ok _, w') => (WriteRole subjectID role, w')
          | (Err errLastSuperadmin, w') => (WriteConflict, w')
          | (Err errNotHeld, w') => (WriteNotFound, w')
          | (Err errStore, w') => (WriteInternalError, w')
          end
      end
  end.
End handlers.
