(* ===== verification/AuthzProps.v ===== *)
(** * Properties of the authz HTTP surface

    What a request can do to the tables and the audit log, who may do it, and what
    an allowed answer means in terms of the stored tuples. *)

From stdpp Require Import base gmap strings list relations.
From S2P Require Import Prelude Model BaseModel Tuple Eval EvalSpec Engine Fragment TupleStore StoreProps.
From S2P Require Import Decision DecisionProps Clients AuthzHTTP.

(** ** Types owned by modules *)

Lemma effectiveEngine_load svc l :
  effectiveEngine svc = Some l ->
  exists rows known, svc_rows svc = Ok rows /\ svc_KnownEnabled svc = Ok known /\ Load (Ok rows) known = Ok l.
Proof.
  unfold effectiveEngine. destruct (svc_KnownEnabled svc) as [known|]; [|done].
  destruct (svc_rows svc) as [rows|] eqn:Hr; [|done].
  destruct (Load (Ok rows) known) as [l'|] eqn:Hl; [|done]. intros [= <-]. eauto.
Qed.

Lemma TypeOwner_not_base svc l t m :
  effectiveEngine svc = Some l -> TypeOwner l !! t = Some m -> IsBaseType t = false.
Proof.
  intros (rows & known & _ & _ & H)%effectiveEngine_load Hm.
  destruct (Load_inv rows known l H) as (s & _ & Hinv & ->). simpl in Hm.
  rewrite IsBaseType_spec. apply bool_decide_eq_false_2. revert Hinv. generalize BaseModel.
  intros B [_ Hdj _ _ _] Hb. apply elem_of_dom_2 in Hm. set_solver.
Qed.

Lemma system_is_base : IsBaseType "system" = true.
Proof. vm_compute. reflexivity. Qed.

Lemma buildDecider_ok svc l deps :
  buildDecider svc = Ok (l, deps) <-> effectiveEngine svc = Some l /\ deps = serviceDeps svc l.
Proof. unfold buildDecider. destruct (effectiveEngine svc); naive_solver. Qed.

(** ** What a grants request writes *)

Section grants.
Context (verify : string -> option Claims) (uuid_ok : string -> bool).

Definition grantsTx (f : Faults) (sub : string) (req : grantsRequestWire) : Tx unit :=
  if seqb (Op req) "grant" then Grant (stmt_fails f) sub (gCorrelationID req) (gTuples req)
  else Revoke (stmt_fails f) sub (gCorrelationID req) (gTuples req).

Definition grantsEvent (sub m : string) (req : grantsRequestWire) : AuditEvent :=
  mkEvent sub ("authz.grants." +:+ Op req) (gCorrelationID req)
    (GrantsPayload (length (gTuples req)) (gCompanyID req) m).

Lemma writeGrants_spec f sub m req w r w' :
  writeGrants f sub m req w = (r, w') ->
  (status r <> 200%Z /\ w' = w) \/
  (r = WriteCount (length (gTuples req)) /\ runTx (grantsTx f sub req) (w_db w) = Ok (tt, w_db w') /\
   w_audit w' = w_audit w ++ [grantsEvent sub m req]).
Proof.
  unfold writeGrants. fold (grantsTx f sub req). destruct (begin_fails f); [intros [= <- <-]; by left|].
  destruct (runTx (grantsTx f sub req) (w_db w)) as [[[] db']|[]] eqn:Htx; try (intros [= <- <-]; by left).
  destruct (audit_fails f || commit_fails f); intros [= <- <-]; [by left|]. right. done.
Qed.

Lemma auditDenial_db f actor key d w : w_db (auditDenial f actor key d w) = w_db w.
Proof. unfold auditDenial, auditDenialPayload. by destruct (denial_fails f). Qed.

(** A refusal of [authorizeGrants] is never a success. *)
Definition refusing {A} (r : result Refusal A) : Prop :=
  match r with Ok _ => True | Err (rep, _) => status rep <> 200%Z end.

Lemma refusing_bind {A B} (r : result Refusal A) (k : A -> result Refusal B) :
  refusing r -> (forall a, r = Ok a -> refusing (k a)) -> refusing (result_bind r k).
Proof. destruct r as [a|[rep x]]; simpl; auto. Qed.

Lemma refusing_refuse {A} rep : status rep <> 200%Z -> refusing (@refuse A rep).
Proof. done. Qed.

Lemma refusing_unavailable {A} step dependency (r : result dep_error A) :
  refusing (or_unavailable step dependency r).
Proof. by destruct r. Qed.

Lemma refusing_decision {A} key d : refusing (@refuseDecision A key d).
Proof. unfold refuseDecision. simpl. by case_bool_decide. Qed.

Lemma refusing_for_each {A} (f : A -> result Refusal unit) l :
  (forall x, refusing (f x)) -> refusing (for_each f l).
Proof. intros Hf. induction l as [|x l IH]; simpl; [done|]. by apply refusing_bind. Qed.

#[local] Hint Resolve refusing_refuse refusing_unavailable refusing_decision refusing_for_each : kiban.
#[local] Hint Extern 1 (status _ <> _) => discriminate : kiban.
#[local] Hint Extern 1 (refusing (Ok _)) => exact I : kiban.
Local Ltac refusing_step :=
  first [apply refusing_bind; [|intros] | case_match | case_bool_decide | done | solve [eauto with kiban]].

Lemma refusing_checkObject svc l o a oc anchors t : refusing (checkObject svc l o a oc anchors t).
Proof. unfold checkObject. repeat refusing_step. Qed.

Lemma refusing_checkTuples svc l sub o m a oc anchors adm ts :
  refusing (checkTuples svc l sub o m a oc anchors adm ts).
Proof.
  revert adm. induction ts as [|t ts IH]; intros adm; simpl; [done|].
  case_match; [case_match; [apply IH|]|].
  - apply refusing_bind; [eauto with kiban|]. intros [] _; [apply IH|done].
  - apply refusing_bind; [apply refusing_checkObject|]. intros _ _. apply IH.
Qed.

Lemma refusing_resolve l cid ts m : refusing (resolveModule l cid ts m).
Proof.
  revert m. induction ts as [|t ts IH]; intros m; simpl; [done|]. repeat case_match; auto; done.
Qed.

Lemma refusing_authorize svc l deps c req : refusing (authorizeGrants svc l deps c req).
Proof.
  unfold authorizeGrants. case_match.
  - unfold checkAppointment. case_match; [done|apply refusing_decision].
  - unfold checkGrants. apply refusing_bind; [apply refusing_resolve|]. intros m _.
    apply refusing_bind.
    { case_match; [|done]. apply refusing_bind; [|intros _ _]; apply refusing_for_each; intros t.
      - unfold subjectShape. repeat refusing_step.
      - unfold subjectCompany. repeat refusing_step. }
    intros _ _. apply refusing_bind; [unfold ownerRule; repeat refusing_step|]. intros [oc ra] _.
    apply refusing_bind; [unfold ownerModuleOn; repeat refusing_step|]. intros _ _.
    apply refusing_bind; [repeat refusing_step|]. intros _ _.
    apply refusing_bind.
    { apply refusing_for_each. intros key. unfold anchorFree. destruct (default _ _) as [ot oi]. repeat refusing_step. }
    intros _ _. apply refusing_bind; [apply refusing_checkTuples|done].
Qed.

(** The preamble's refusals are not successes either. *)
Lemma prepareGrants_ok svc header body c req l deps :
  prepareGrants verify uuid_ok svc header body = Ok (c, req, l, deps) ->
  bearerClaims verify header = Ok c /\ body = Some req /\ gTuples req <> [] /\
  uuid_ok (gCompanyID req) = true /\ (Op req = "grant" \/ Op req = "revoke") /\
  effectiveEngine svc = Some l /\ deps = serviceDeps svc l.
Proof.
  unfold prepareGrants. intros H. apply result_bind_ok in H as (c' & Hc & H).
  apply result_bind_ok in H as (req' & Hreq & H). destruct body as [b|]; [|done]. injection Hreq as ->.
  apply result_bind_ok in H as ([] & Hop & H). apply result_bind_ok in H as ([] & Hne & H).
  apply result_bind_ok in H as ([] & Hu & H). apply result_bind_ok in H as ([l' deps'] & Hb & H). simpl in H.
  injection H as <- <- <- <-. apply buildDecider_ok in Hb as [Hl ->]. repeat split; auto.
  - intros He. by rewrite He in Hne.
  - by destruct (uuid_ok (gCompanyID req')).
  - destruct (negb (seqb (Op req') "grant") && negb (seqb (Op req') "revoke")) eqn:E; [done|].
    apply andb_false_iff in E as [E|E]; rewrite negb_false_iff, seqb_true in E; auto.
Qed.

Lemma prepareGrants_err svc header body r :
  prepareGrants verify uuid_ok svc header body = Err r -> status r <> 200%Z.
Proof.
  unfold prepareGrants, bearerClaims, decodeBody, buildDecider.
  repeat (case_match; simpl); intros; simplify_eq/=; done.
Qed.

(** An accepted request: its checks passed and its transaction committed with its
    audit row. *)
Lemma handleGrants_cases svc f header body w r w' :
  handleGrants verify uuid_ok svc f header body w = (r, w') ->
  (status r <> 200%Z /\ w_db w' = w_db w) \/
  exists c req l m, prepareGrants verify uuid_ok svc header body = Ok (c, req, l, serviceDeps svc l) /\
    authorizeGrants svc l (serviceDeps svc l) c req = Ok m /\
    r = WriteCount (length (gTuples req)) /\
    runTx (grantsTx f (Subject c) req) (w_db w) = Ok (tt, w_db w') /\
    w_audit w' = w_audit w ++ [grantsEvent (Subject c) m req].
Proof.
  unfold handleGrants. destruct (prepareGrants _ _ _ _ _) as [[[[c req] l] deps]|e] eqn:Hp.
  2:{ intros [= <- <-]. left. split; [by eapply prepareGrants_err|done]. }
  pose proof (prepareGrants_ok _ _ _ _ _ _ _ Hp) as (_ & _ & _ & _ & _ & _ & ->).
  pose proof (refusing_authorize svc l (serviceDeps svc l) c req) as Hr.
  destruct (authorizeGrants _ _ _ _ _) as [m|[rep [[key d]|]]] eqn:Ha.
  - intros [[Hs ->]|H]%writeGrants_spec; [by left|]. right. exists c, req, l, m. done.
  - intros [= <- <-]. left. split; [done|apply auditDenial_db].
  - intros [= <- <-]. by left.
Qed.
End grants.

(** ** Superadmins *)

Lemma superadmin_system tp : superadmin_row tp -> ObjectType tp = "system".
Proof. by intros (? & _). Qed.

Lemma superadmins_mono tbl tbl' :
  (forall x, superadmin_row x -> x ∈ tbl -> x ∈ tbl') -> superadmins tbl <= superadmins tbl'.
Proof.
  intros H. unfold superadmins. apply subseteq_size. intros x.
  rewrite !elem_of_filter. intros [Hx Hin]. auto.
Qed.

Lemma superadmins_revoke_others tbl tbl' ts :
  (forall t, t ∈ ts -> ObjectType t <> "system") ->
  (forall x, x ∈ tbl' <-> x ∈ tbl /\ ~ revoked tbl ts x) ->
  superadmins tbl <= superadmins tbl'.
Proof.
  intros Hts Ht. apply superadmins_mono. intros x Hx%superadmin_system Hin. apply Ht. split; [done|].
  intros [Hin'|(a & Ha & _ & _ & [Hon _])]; [by apply (Hts x)|]. apply (Hts a Ha). congruence.
Qed.

Lemma runTx_Grant_tuples fails actor corr ts db db' :
  runTx (Grant fails actor corr ts) db = Ok (tt, db') -> tuples db' = list_to_set ts ∪ tuples db.
Proof. intros [n H]%runTx_ok. by apply Grant_ok in H as (_ & _ & Ht & _). Qed.

Lemma runTx_Revoke_tuples fails actor corr ts db db' :
  runTx (Revoke fails actor corr ts) db = Ok (tt, db') ->
  forall x, x ∈ tuples db' <-> x ∈ tuples db /\ ~ revoked (tuples db) ts x.
Proof. intros [n [_ H]%writeTuples_loop]%runTx_ok. by apply revokeLoop_ok in H as [_ Ht]. Qed.

(** The objects of an authorised request. *)
Lemma moduleOf_not_system svc l cid t m :
  effectiveEngine svc = Some l -> moduleOf l cid t = Some m -> ObjectType t <> "system".
Proof.
  intros Hl H Hs. unfold moduleOf in H. rewrite Hs in H. simpl in H.
  destruct (TypeOwner l !! "system") as [m'|] eqn:E; [|done].
  apply (TypeOwner_not_base svc l _ _ Hl) in E. by rewrite system_is_base in E.
Qed.

Lemma resolveModule_ok l cid ts m0 m :
  resolveModule l cid ts m0 = Ok m ->
  Forall (fun t => exists m', moduleOf l cid t = Some m') ts /\
  (m0 <> "" -> m = m0) /\
  (forall t, t ∈ ts -> m <> "" -> moduleOf l cid t = Some m \/ moduleOf l cid t = Some "").
Proof.
  revert m0. induction ts as [|t ts IH]; intros m0; simpl.
  - intros [= ->]. split; [done|]. split; [done|]. intros t Ht. by apply elem_of_nil in Ht.
  - destruct (moduleOf l cid t) as [m1|] eqn:Hm; [|done].
    destruct (negb (seqb m0 "") && negb (seqb m1 m0)) eqn:E; [done|]. intros (Hf & Hm1 & Hall)%IH.
    split; [constructor; eauto|]. split.
    + intros Hne. rewrite (proj2 (seqb_false m0 "") Hne) in E. simpl in E.
      rewrite negb_false_iff, seqb_true in E. subst m1. auto.
    + intros t' [->|Ht']%elem_of_cons Hne; [|auto]. rewrite Hm.
      destruct (decide (m1 = "")) as [->|Hne1]; [by right|left; by rewrite (Hm1 Hne1)].
Qed.

Lemma checkGrants_ok svc l deps c req m :
  checkGrants svc l deps c req = Ok m ->
  resolveModule l (gCompanyID req) (gTuples req) "" = Ok m.
Proof.
  unfold checkGrants. intros (m' & Hm & H)%result_bind_ok.
  do 2 (apply result_bind_ok in H as (? & _ & H)). case_match.
  do 4 (apply result_bind_ok in H as (? & _ & H)). congruence.
Qed.

Lemma appointment_objects req :
  isCompanyAdminAppointment req = true ->
  Forall (fun t => ObjectType t = "company" /\ ObjectID t = gCompanyID req /\ Relation t = "admin" /\
                   SubjectType t = "user" /\ SubjectRelation t = "") (gTuples req).
Proof.
  unfold isCompanyAdminAppointment. rewrite forallb_Forall'. intros H. eapply Forall_impl; [exact H|]. clear H. intros t.
  rewrite !andb_true_iff, !seqb_true. naive_solver.
Qed.

Lemma authorized_not_system svc l c req m t :
  effectiveEngine svc = Some l ->
  authorizeGrants svc l (serviceDeps svc l) c req = Ok m -> t ∈ gTuples req -> ObjectType t <> "system".
Proof.
  intros Hl. unfold authorizeGrants. destruct (isCompanyAdminAppointment req) eqn:Ha; intros H Ht.
  - apply appointment_objects in Ha. rewrite Forall_forall in Ha. destruct (Ha t Ht) as [-> _]. done.
  - apply checkGrants_ok, resolveModule_ok in H as (Hf & _). rewrite Forall_forall in Hf.
    destruct (Hf t Ht) as [m' Hm']. by eapply moduleOf_not_system.
Qed.

Lemma handleGrants_superadmins verify uuid_ok svc f header body w r w' :
  handleGrants verify uuid_ok svc f header body w = (r, w') ->
  superadmins (tuples (w_db w)) <= superadmins (tuples (w_db w')).
Proof.
  intros [[_ ->]|(c & req & l & m & Hp & Ha & _ & Htx & _)]%handleGrants_cases; [done|].
  apply prepareGrants_ok in Hp as (_ & _ & _ & _ & _ & Hl & _). unfold grantsTx in Htx.
  destruct (seqb (Op req) "grant").
  - apply runTx_Grant_tuples in Htx. rewrite Htx. apply superadmins_mono. set_solver.
  - apply (superadmins_revoke_others _ _ (gTuples req)); [|by eapply runTx_Revoke_tuples].
    intros t. by eapply authorized_not_system.
Qed.

(** ** The platform role's transaction *)

Lemma roleTx_ok fails actor sub o s e s' :
  roleTx fails actor sub o s = Ok (e, s') ->
  match o, e with
  | grant, _ => e = None /\ tuples (tx_db s') = {[SuperadminTuple sub]} ∪ tuples (tx_db s)
  | revoke, Some errNotHeld => ~ SuperadminTuple sub ∈ tuples (tx_db s)
  | revoke, Some errLastSuperadmin =>
      SuperadminTuple sub ∈ tuples (tx_db s) /\ superadmins (tuples (tx_db s)) <= 1
  | revoke, Some errStore => False
  | revoke, None => SuperadminTuple sub ∈ tuples (tx_db s) /\ 1 < superadmins (tuples (tx_db s)) /\
      tuples (tx_db s') = tuples (tx_db s) ∖ {[SuperadminTuple sub]}
  end.
Proof.
  unfold roleTx. rewrite tbind_ok. intros ([] & s1 & H1%exec_ok & H). destruct H1 as (_ & [= Hs1] & _).
  rewrite Hs1 in *. clear Hs1. destruct o.
  - apply tbind_ok in H as ([] & s2 & H2%Grant_ok & [= <- <-]). destruct H2 as (_ & _ & Ht & _).
    split; [done|]. rewrite Ht. set_solver.
  - apply tbind_ok in H as (held & s2 & H2%exec_ok & H). destruct H2 as (_ & [= <- Hs2] & _).
    case_bool_decide as Hin; simpl in H; [|by injection H as <- <-].
    apply tbind_ok in H as (n & s3 & H3%exec_ok & H). destruct H3 as (_ & [= <- Hs3] & _).
    rewrite <- Hs2 in *. destruct (Nat.leb_spec (superadmins (tuples (tx_db s1))) 1) as [Hle|Hlt].
    { injection H as <- <-. done. }
    apply tbind_ok in H as ([] & s4 & H4 & [= <- <-]).
    change (writeTuplesLoop fails actor (nullable "") revoke [SuperadminTuple sub] s3 = Ok (tt, s4)) in H4.
    apply revokeLoop_ok in H4 as [_ Ht]. rewrite <- Hs3 in Ht. split; [done|]. split; [done|].
    apply set_eq. intros x. rewrite Ht, elem_of_difference, elem_of_singleton. unfold revoked.
    setoid_rewrite list_elem_of_singleton. split.
    + intros [Hx Hn]. split; [done|]. intros ->. apply Hn. by left.
    + intros [Hx Hn]. split; [done|]. intros [->|(a & -> & Ha & _)]; done.
Qed.

Lemma superadmins_remove tbl sub :
  SuperadminTuple sub ∈ tbl -> superadmins tbl = S (superadmins (tbl ∖ {[SuperadminTuple sub]})).
Proof.
  intros Hin. unfold superadmins.
  assert (Hf : filter superadmin_row tbl =
    {[SuperadminTuple sub]} ∪ filter superadmin_row (tbl ∖ {[SuperadminTuple sub]})).
  { apply set_eq. intros x. rewrite elem_of_union, elem_of_singleton, !elem_of_filter, elem_of_difference, elem_of_singleton.
    destruct (decide (x = SuperadminTuple sub)) as [->|Hne]; [|naive_solver]. split; [by left|]. done. }
  rewrite Hf, size_union, size_singleton; [done|].
  apply disjoint_singleton_l. rewrite elem_of_filter, elem_of_difference. set_solver.
Qed.

Lemma writePlatformRole_cases f actor sub o w res w' :
  writePlatformRole f actor sub o w = (res, w') ->
  (w' = w /\ exists e, res = Err e /\
     (e = errStore \/ exists db', runTx (roleTx (stmt_fails f) actor sub o) (w_db w) = Ok (Some e, db'))) \/
  res = Ok tt /\ exists db', runTx (roleTx (stmt_fails f) actor sub o) (w_db w) = Ok (None, db') /\ w_db w' = db' /\
    w_audit w' = w_audit w ++ [mkEvent actor ("authz.platform_role." +:+ opName o) ("user:" +:+ sub)
                     (RolePayload PlatformRoleSuperadmin actor)].
Proof.
  unfold writePlatformRole. destruct (begin_fails f); [intros [= <- <-]; left; eauto|].
  destruct (runTx _ _) as [[[e|] db']|e] eqn:Htx; [intros [= <- <-]; left; eauto 6| |intros [= <- <-]; left; eauto].
  destruct (audit_fails f || commit_fails f); intros [= <- <-]; [left; eauto|]. right. eauto.
Qed.

Lemma writePlatformRole_superadmins f actor sub o w res w' :
  writePlatformRole f actor sub o w = (res, w') ->
  1 <= superadmins (tuples (w_db w)) -> 1 <= superadmins (tuples (w_db w')).
Proof.
  intros [[-> _]|(_ & db' & Htx & -> & _)]%writePlatformRole_cases; [done|]. intros Hone.
  apply runTx_ok in Htx as [n H%roleTx_ok]. destruct o; simpl in H.
  - destruct H as [_ ->]. etrans; [exact Hone|]. apply superadmins_mono. set_solver.
  - destruct H as (Hin & Hlt & ->). apply superadmins_remove in Hin. lia.
Qed.

(** ** The service as a whole *)

Inductive httpRequest : Type :=
| ReqCan (body : option canRequestWire)
| ReqBatchCan (body : option batchCanRequestWire)
| ReqGrants (body : option grantsRequestWire)
| ReqGrantRole (body : option (string * string))
| ReqRevokeRole (role subjectID : string).

Section service.
Context (verify : string -> option Claims).

Lemma handleCan_db svc f header body w r w' :
  handleCan verify svc f header body w = (r, w') -> w_db w' = w_db w.
Proof.
  unfold handleCan. destruct (prepareCan _ _ _ _) as [[[[sub req] dreq] deps]|e]; intros [= <- <-]; [|done].
  case_match; [done|apply auditDenial_db].
Qed.

Lemma handleBatchCan_db svc f header body w r w' :
  handleBatchCan verify svc f header body w = (r, w') -> w_db w' = w_db w.
Proof.
  unfold handleBatchCan. destruct (let! _ := _ in _) as [[[[sub req] dreq] deps]|e]; intros [= <- <-]; [|done].
  unfold auditDenialPayload. by repeat case_match.
Qed.

Lemma refused_db f sub r w : w_db (refused f sub r w).2 = w_db w.
Proof. destruct r as [rep [[key d]|]]; simpl; [apply auditDenial_db|done]. Qed.

Lemma handleGrantPlatformRole_cases svc f header body w r w' :
  handleGrantPlatformRole verify svc f header body w = (r, w') ->
  w_db w' = w_db w \/
  exists c sub res, bearerClaims verify header = Ok c /\ writePlatformRole f (Subject c) sub grant w = (res, w').
Proof.
  unfold handleGrantPlatformRole. destruct (bearerClaims verify header) as [c|]; [|intros [= <- <-]; by left].
  destruct (let! _ := _ in _) as [[sub role]|e].
  - destruct (writePlatformRole f (Subject c) sub grant w) as [res w1] eqn:Hw.
    intros H. right. exists c, sub, res. split; [done|]. destruct res; by injection H as _ <-.
  - intros H. left. rewrite <- (refused_db f (Subject c) e w), H. done.
Qed.

(** The replies of a refused platform-role change. *)
Definition refusal_reply (r : Reply) : Prop :=
  match r with
  | WriteUnauthorized _ | WriteBadRequest _ | WriteValidationFailed | WriteForbidden _
  | WriteUnavailable _ _ | WriteInternalError => True
  | _ => False
  end.

Lemma authorize_refusal svc sub key rep x :
  authorizePlatformRoleChange svc sub key = Err (rep, x) -> refusal_reply rep.
Proof.
  unfold authorizePlatformRoleChange. destruct (buildDecider svc) as [[l deps]|e] eqn:Hb.
  - case_match; [done|]. unfold refuseDecision. intros [= <- _]. by case_bool_decide.
  - unfold buildDecider in Hb. destruct (effectiveEngine svc); [done|]. injection Hb as <-. by intros [= <- _].
Qed.

Lemma handleRevokePlatformRole_cases svc f header role sub w r w' :
  handleRevokePlatformRole verify svc f header role sub w = (r, w') ->
  (w_db w' = w_db w /\ refusal_reply r) \/
  exists c res, bearerClaims verify header = Ok c /\
    is_ok (authorizePlatformRoleChange svc (Subject c) "authz.platform_role.revoke") = true /\
    writePlatformRole f (Subject c) sub revoke w = (res, w') /\
    r = match res with
        | Ok _ => WriteRole sub role
        | Err errLastSuperadmin => WriteConflict
        | Err errNotHeld => WriteNotFound
        | Err errStore => WriteInternalError
        end.
Proof.
  unfold handleRevokePlatformRole. destruct (bearerClaims verify header) as [c|e] eqn:Hc.
  2:{ intros [= <- <-]. left. split; [done|]. unfold bearerClaims in Hc. repeat case_match; naive_solver. }
  destruct (platformRoleValidation role sub) as [[]|e1] eqn:Hv; simpl.
  2:{ intros [= <- <-]. left. split; [done|]. unfold platformRoleValidation in Hv. repeat case_match; naive_solver. }
  destruct (authorizePlatformRoleChange svc (Subject c) _) as [[]|[rep x]] eqn:Ha.
  - destruct (writePlatformRole f (Subject c) sub revoke w) as [res w1] eqn:Hw.
    intros H. right. exists c, res. rewrite Ha. split; [done|]. split; [done|].
    destruct res as [|[]]; injection H as <- <-; done.
  - intros H. left. split; [by rewrite <- (refused_db f (Subject c) (rep, x) w), H|].
    apply authorize_refusal in Ha. by destruct x as [[key d]|]; injection H as <- _.
Qed.

Context (uuid_ok : string -> bool).

(** [Routes], the authorised part. *)
Definition serve (svc : Service) (f : Faults) (header : string) (req : httpRequest) (w : World) : Reply * World :=
  match req with
  | ReqCan body => handleCan verify svc f header body w
  | ReqBatchCan body => handleBatchCan verify svc f header body w
  | ReqGrants body => handleGrants verify uuid_ok svc f header body w
  | ReqGrantRole body => handleGrantPlatformRole verify svc f header body w
  | ReqRevokeRole role subjectID => handleRevokePlatformRole verify svc f header role subjectID w
  end.

(** One request, whatever its upstreams answer and whatever fails. *)
Definition served (w w' : World) : Prop :=
  exists svc f header req r, serve svc f header req w = (r, w').

Lemma served_superadmins w w' :
  served w w' -> 1 <= superadmins (tuples (w_db w)) -> 1 <= superadmins (tuples (w_db w')).
Proof.
  intros (svc & f & header & req & r & H) Hone. destruct req; simpl in H.
  - apply handleCan_db in H. by rewrite H.
  - apply handleBatchCan_db in H. by rewrite H.
  - apply handleGrants_superadmins in H. lia.
  - apply handleGrantPlatformRole_cases in H as [->|(c & sub & res & _ & H)]; [done|].
    by eapply writePlatformRole_superadmins.
  - apply handleRevokePlatformRole_cases in H as [[-> _]|(c & res & _ & _ & H & _)]; [done|].
    by eapply writePlatformRole_superadmins.
Qed.
End service.

(** ** The engine's answers in terms of tuples *)

Section answers.
Context (svc : Service) (tbl : Table).
Context (Hclean : clean_table tbl) (Hdb : db_answers tbl True (svc_db svc)).

Lemma checkerCheck_grants l t i r st si :
  nul_free t -> nul_free i -> checkerCheck (svc_db svc) l t i r st si = Ok true ->
  grants (LModel l) tbl st si "" t i r.
Proof.
  intros Ht Hi H. unfold checkerCheck, FragmentCheck, engine_result in H.
  destruct (inert l t); [done|]. rewrite Check_plain in H.
  pose proof (check_outcome (LModel l) tbl (svc_db svc) True t i r st si "" Hclean Ht Hi Hdb) as Ho.
  destruct (CheckInCompany _ _ _ _ _ _ _ _) as [b|]; [|done]. injection H as ->. by apply Ho.
Qed.

Lemma checkerCheckInCompany_grants l t i r st si cid :
  nul_free t -> nul_free i -> checkerCheckInCompany (svc_db svc) l t i r st si cid = Ok true ->
  grants (LModel l) tbl st si cid t i r.
Proof.
  intros Ht Hi H. unfold checkerCheckInCompany, FragmentCheckInCompany, engine_result in H.
  destruct (inert l t); [done|].
  pose proof (check_outcome (LModel l) tbl (svc_db svc) True t i r st si cid Hclean Ht Hi Hdb) as Ho.
  destruct (CheckInCompany _ _ _ _ _ _ _ _) as [b|]; [|done]. injection H as ->. by apply Ho.
Qed.

(** The company binding of an object, over the stored tuples. *)
Definition bound_to (l : Loaded) (cid m : string) (obj : ObjectRef) : Prop :=
  if seqb (RType obj) "company" then RID obj = cid
  else if seqb (RType obj) "company_module" then RID obj = cid +:+ "/" +:+ m
  else if Defines l (RType obj) "company" then
    grants (LModel l) tbl "company" cid "" (RType obj) (RID obj) "company"
  else Defines l (RType obj) "company_module" = true /\
       grants (LModel l) tbl "company_module" (cid +:+ "/" +:+ m) "" (RType obj) (RID obj) "company_module".

Lemma objectBound_bound l req obj :
  nul_free (RType obj) -> nul_free (RID obj) ->
  objectBound (serviceDeps svc l) req obj = Ok true -> bound_to l (req_CompanyID req) (req_ModuleKey req) obj.
Proof.
  intros Ht Hi. unfold objectBound, bound_to, defines. simpl.
  destruct (seqb (RType obj) "company"); [intros [= H]; by apply seqb_true|].
  destruct (seqb (RType obj) "company_module"); [intros [= H]; by apply seqb_true|].
  destruct (Defines l (RType obj) "company"); [by apply checkerCheck_grants|].
  destruct (Defines l (RType obj) "company_module"); [|done].
  intros H. split; [done|]. by apply checkerCheck_grants.
Qed.
End answers.

(** A successful /can for an object at company scope. *)
Lemma handleCan_allowed verify svc f header body w d w' :
  handleCan verify svc f header body w = (WriteDecision d, w') -> Allowed d = true ->
  exists c req l, bearerClaims verify header = Ok c /\ body = Some req /\ effectiveEngine svc = Some l /\
    access_granted (serviceDeps svc l)
      (toDecisionRequest req (moduleOrFeaturePrefix (wModuleKey req) (wFeatureKey req)) (Subject c)).
Proof.
  unfold handleCan, prepareCan. intros H Had.
  destruct (bearerClaims verify header) as [c|e] eqn:Hc; simpl in H.
  2:{ unfold bearerClaims in Hc. repeat case_match; naive_solver. }
  destruct body as [req|]; simpl in H; [|done].
  destruct (validateCanRequest (Subject c) req) as [[]|e] eqn:Hv; simpl in H.
  2:{ unfold validateCanRequest in Hv. repeat case_match; naive_solver. }
  set (m := moduleOrFeaturePrefix _ _) in *.
  destruct (featureDeclared svc m [wFeatureKey req]) as [[]|e] eqn:Hf; cbn [result_bind] in H.
  2:{ unfold featureDeclared in Hf. destruct (seqb m ""); [done|]. destruct (svc_AppFeatures svc) as [[apps|]|]; [|naive_solver..].
      destruct (apps !! m) as [decl|]; [|done]. apply for_each_err in Hf as (x & _ & Hx). case_match; naive_solver. }
  destruct (buildDecider svc) as [[l deps]|e] eqn:Hb; cbn [result_bind] in H.
  2:{ unfold buildDecider in Hb. case_match; naive_solver. }
  apply buildDecider_ok in Hb as [Hl ->]. cbn [snd fst] in H.
  exists c, req, l. split; [done|]. split; [done|]. split; [done|]. fold m.
  destruct (Evaluate_decides (serviceDeps svc l) (toDecisionRequest req m (Subject c))) as [_ Ha].
  apply gates_granted, first_stop_pass. rewrite <- Ha.
  injection H as H _. unfold writeDecision in H. case_bool_decide; [done|]. congruence.
Qed.

(** ** Who may write what *)

Section authority.
Context (svc : Service) (l : Loaded) (tbl : Table).
Context (Hclean : clean_table tbl) (Hdb : db_answers tbl True (svc_db svc)).

(** The caller: the app that owns the module, or a subject the company admits. *)
Definition caller_authorized (c : Claims) (cid m corr : string) : Prop :=
  exists ra, ownerRule svc (ClientID c) m = Ok (true, ra) /\ RegistryEnabled (svc_capability svc) m = Ok true \/
    ownerRule svc (ClientID c) m = Ok (false, ra) /\
    access_granted (serviceDeps svc l) (grantsRequest (Subject c) cid m corr ra).

(** A userset or position subject of a grant belongs to the company. *)
Definition subject_authorized (cid : string) (t : Tuple) : Prop :=
  if seqb (SubjectType t) "position" || seqb (SubjectType t) "group" then
    grants (LModel l) tbl "company" cid "" (SubjectType t) (SubjectID t) "company"
  else SubjectType t = "member" -> svc_MemberOfCompany svc cid (SubjectID t) = Ok true.

Definition is_request_anchor (cid m : string) (t : Tuple) : Prop :=
  Relation t = "company_module" /\ SubjectType t = "company_module" /\
  SubjectID t = cid +:+ "/" +:+ m /\ SubjectRelation t = "".

(** The object: the company's own module object under its admin, or an object of
    the module anchored to the company. *)
Definition object_authorized (c : Claims) (op cid m : string) (ts : list Tuple) (t : Tuple) : Prop :=
  if seqb (ObjectType t) "company_module" then
    ObjectID t = cid +:+ "/" +:+ m /\
    grants (LModel l) tbl "user" (Subject c) "" "company_module" (cid +:+ "/" +:+ m) "admin"
  else
    TypeOwner l !! ObjectType t = Some m /\
    ((op = "grant" /\ exists a, a ∈ ts /\ objKey a = objKey t /\ is_request_anchor cid m a) \/
     grants (LModel l) tbl "company_module" (cid +:+ "/" +:+ m) "" (ObjectType t) (ObjectID t) "company_module" \/
     (op = "revoke" /\ (exists ra, ownerRule svc (ClientID c) m = Ok (true, ra)) /\
      svc_AnchorOf svc (ObjectType t) (ObjectID t) = Ok "")).

Lemma or_unavailable_ok {A} step dependency (r : result dep_error A) a :
  or_unavailable step dependency r = Ok a <-> r = Ok a.
Proof. destruct r; simpl; naive_solver. Qed.

Lemma moduleOf_nonempty cid t m :
  KnownEnabled l !! "" = None -> moduleOf l cid t = Some m -> m <> "".
Proof.
  intros Hk H ->. unfold moduleOf in H. case_match.
  - rewrite orb_comm in H. case_match eqn:E; [done|]. injection H as H. rewrite H, Hk in E. done.
  - case_match eqn:E; [done|]. injection H as H. by rewrite H in E.
Qed.

Lemma resolveModule_all cid ts m :
  KnownEnabled l !! "" = None -> ts <> [] -> resolveModule l cid ts "" = Ok m ->
  Forall (fun t => moduleOf l cid t = Some m) ts.
Proof.
  intros Hk Hne H. assert (Hm : m <> "").
  { destruct ts as [|t ts]; [done|]. simpl in H. destruct (moduleOf l cid t) as [m1|] eqn:E; [|done].
    apply moduleOf_nonempty in E; [|done]. apply resolveModule_ok in H as (_ & H & _). by rewrite H. }
  apply resolveModule_ok in H as (_ & _ & H). apply Forall_forall. intros t Ht.
  destruct (H t Ht Hm) as [H'|H']; [done|]. by apply moduleOf_nonempty in H'.
Qed.

Lemma moduleOf_object cid t m :
  moduleOf l cid t = Some m ->
  if seqb (ObjectType t) "company_module" then ObjectID t = cid +:+ "/" +:+ m
  else TypeOwner l !! ObjectType t = Some m.
Proof.
  unfold moduleOf. case_match.
  - case_match eqn:E; [done|]. intros [= <-]. apply orb_false_iff in E as [E _]. apply seqb_false in E.
    unfold TrimPrefix in *. destruct (HasPrefix (ObjectID t) (cid +:+ "/")) eqn:Hp; [|done].
    apply HasPrefix_spec in Hp as [rest Hp]. rewrite Hp, drop_str_app. by rewrite append_assoc.
  - case_match eqn:E; [done|]. intros [= <-]. apply seqb_false in E.
    by destruct (TypeOwner l !! ObjectType t).
Qed.

Lemma checkTuples_ok sub o m a oc anchors adm ts :
  checkTuples svc l sub o m a oc anchors adm ts = Ok tt ->
  forall t, t ∈ ts ->
    if seqb (ObjectType t) "company_module"
    then adm = true \/ checkerCheck (svc_db svc) l "company_module" a "admin" "user" sub = Ok true
    else checkObject svc l o a oc anchors t = Ok tt.
Proof.
  revert adm. induction ts as [|t ts IH]; intros adm; simpl; [intros _ t Ht; by apply elem_of_nil in Ht|].
  destruct (seqb (ObjectType t) "company_module") eqn:Hcm.
  - destruct adm.
    + intros H t' [->|Ht']%elem_of_cons; [rewrite Hcm; by left|]. by apply (IH true H).
    + intros (isAdmin & Had%or_unavailable_ok & H)%result_bind_ok. destruct isAdmin; [|done].
      intros t' [->|Ht']%elem_of_cons; [rewrite Hcm; by right|].
      specialize (IH true H t' Ht'). case_match; [by right|done].
  - intros ([] & Hobj & H)%result_bind_ok t' [->|Ht']%elem_of_cons; [by rewrite Hcm|]. by apply (IH adm H).
Qed.

Lemma elem_of_requestAnchors o cid m ts key :
  key ∈ requestAnchors o (cid +:+ "/" +:+ m) ts ->
  o = "grant" /\ exists a, a ∈ ts /\ objKey a = key /\ is_request_anchor cid m a.
Proof.
  unfold requestAnchors. destruct (seqb o "grant") eqn:Ho; [|by intros ?%elem_of_nil].
  apply seqb_true in Ho. rewrite list_elem_of_fmap. intros (a & -> & [Ha Hin]%list_elem_of_filter).
  split; [done|]. by exists a.
Qed.

Lemma checkObject_ok c o cid m ts t oc ra :
  nul_free (ObjectType t) -> nul_free (ObjectID t) -> ownerRule svc (ClientID c) m = Ok (oc, ra) ->
  seqb (ObjectType t) "company_module" = false -> TypeOwner l !! ObjectType t = Some m ->
  checkObject svc l o (cid +:+ "/" +:+ m) oc (requestAnchors o (cid +:+ "/" +:+ m) ts) t = Ok tt ->
  object_authorized c o cid m ts t.
Proof.
  intros Hnt Hni Hown Hcm Hto H. unfold object_authorized. rewrite Hcm. split; [done|]. unfold checkObject in H.
  case_match; [done|]. case_bool_decide as Hin.
  { left. by apply elem_of_requestAnchors in Hin. }
  apply result_bind_ok in H as (anchored & Ha%or_unavailable_ok & H). destruct anchored.
  { right. left. by apply (checkerCheck_grants svc). }
  destruct (seqb o "revoke" && oc) eqn:Ho; [|done]. apply andb_true_iff in Ho as [Ho%seqb_true ->].
  apply result_bind_ok in H as (ex & Hex%or_unavailable_ok & H).
  destruct (seqb ex "") eqn:He; [|done]. apply seqb_true in He as ->. right. right. eauto.
Qed.

Lemma subjectCompany_ok cid t :
  nul_free (SubjectType t) -> nul_free (SubjectID t) ->
  subjectCompany svc l cid t = Ok tt -> subject_authorized cid t.
Proof.
  intros Hnt Hni. unfold subjectCompany, subject_authorized.
  destruct (seqb (SubjectType t) "position" || seqb (SubjectType t) "group").
  - intros (ok & Hok%or_unavailable_ok & H)%result_bind_ok. destruct ok; [|done]. by apply (checkerCheck_grants svc).
  - destruct (seqb (SubjectType t) "member") eqn:Hm.
    + intros (ok & Hok%or_unavailable_ok & H)%result_bind_ok _. by destruct ok.
    + apply seqb_false in Hm. done.
Qed.

Definition nul_free_tuple (t : Tuple) : Prop :=
  nul_free (ObjectType t) /\ nul_free (ObjectID t) /\ nul_free (SubjectType t) /\ nul_free (SubjectID t).

Lemma checkGrants_authorized c req m :
  KnownEnabled l !! "" = None -> gTuples req <> [] -> Forall nul_free_tuple (gTuples req) ->
  checkGrants svc l (serviceDeps svc l) c req = Ok m ->
  caller_authorized c (gCompanyID req) m (gCorrelationID req) /\
  Forall (object_authorized c (Op req) (gCompanyID req) m (gTuples req)) (gTuples req) /\
  (Op req = "grant" -> Forall (subject_authorized (gCompanyID req)) (gTuples req)).
Proof.
  intros Hk Hne Hnul H. unfold checkGrants in H.
  apply result_bind_ok in H as (m' & Hres & H). apply result_bind_ok in H as ([] & Hsubj & H).
  apply result_bind_ok in H as ([oc ra] & Hown & H). apply result_bind_ok in H as ([] & Hon & H).
  apply result_bind_ok in H as ([] & Hdec & H). apply result_bind_ok in H as ([] & _ & H).
  apply result_bind_ok in H as ([] & Htup & [= ->]). rewrite Forall_forall in Hnul. split_and!.
  - exists ra. destruct oc.
    + left. split; [done|]. apply result_bind_ok in Hon as (on & Hon%or_unavailable_ok & H). by destruct on.
    + right. split; [done|]. case_match eqn:Had; [|done].
      apply gates_granted, first_stop_pass. by rewrite <- (proj2 (Evaluate_decides _ _)).
  - apply resolveModule_all in Hres; [|done..]. rewrite Forall_forall in Hres. apply Forall_forall. intros t Ht.
    pose proof (checkTuples_ok _ _ _ _ _ _ _ _ Htup t Ht) as Hc. pose proof (moduleOf_object _ _ _ (Hres t Ht)) as Ho.
    destruct (Hnul t Ht) as (Hnt & Hni & _). destruct (seqb (ObjectType t) "company_module") eqn:Hcm.
    + unfold object_authorized. rewrite Hcm. split; [done|]. destruct Hc as [|Hc]; [done|].
      apply (checkerCheck_grants svc tbl Hclean Hdb) in Hc; [done|done|]. by rewrite <- Ho.
    + by eapply checkObject_ok.
  - intros Hop. rewrite (proj2 (seqb_true _ _) Hop) in Hsubj. apply result_bind_ok in Hsubj as ([] & _ & Hsubj).
    rewrite for_each_ok, Forall_forall in Hsubj. apply Forall_forall. intros t Ht.
    destruct (Hnul t Ht) as (_ & _ & Hst & Hsi). by apply subjectCompany_ok; auto.
Qed.
End authority.
