(* ===== verification/AuthzClaims.v ===== *)
(** * The authz service: its guarantees

    The properties of the HTTP surface end to end, over the handlers of [AuthzHTTP],
    the decision, the fragment-loaded engine and the tuple store. *)

From stdpp Require Import base gmap strings list relations.
From Stdlib Require Import Ascii.
From S2P Require Import Prelude Model BaseModel Tuple Eval EvalSpec Engine Fragment TupleStore StoreProps.
From S2P Require Import Decision DecisionProps Clients AuthzHTTP AuthzProps.

(** ** A small deployment

    Two companies, the docs module enabled, everyone an active member everywhere. *)

Definition demoVerify (token : string) : option Claims :=
  if seqb token "" then None else Some (mkClaims token "").
Definition demoUUID (s : string) : bool := negb (seqb s "").

Definition demoService (tbl : Table) : Service :=
  mkService (fun _ => Ok (mkResponse 200 (Some (mkUserState "active" "true"))))
    (fun _ => Ok (mkResponse 200 (Some true)))
    (fun _ => Ok (mkResponse 200 (Some (mkCompanyData true true))))
    (fun _ _ => Ok (mkResponse 200 (Some (mkMembershipData true true))))
    (Ok demoEnabled) None None (Ok demoRows) (db_of tbl)
    (fun cid i => Ok (member_of_company tbl cid i)) (fun t i => Ok (anchor_of tbl t i)).

Definition noFaults : Faults := mkFaults false no_failure false false false.

Lemma db_of_may_fail tbl : db_answers tbl True (db_of tbl).
Proof. intros n t i r. simpl. done. Qed.

Lemma demo_engine tbl : effectiveEngine (demoService tbl) = Some demoLoaded.
Proof. unfold effectiveEngine. cbn [svc_KnownEnabled svc_rows demoService]. rewrite demo_loads. reflexivity. Qed.

(** Every field of every tuple, against a boolean test. *)
Lemma table_Forall (P : Tuple -> bool) (tbl : Table) :
  forallb P (elements tbl) = true -> forall t, t ∈ tbl -> P t = true.
Proof. rewrite forallb_Forall', Forall_forall. intros H t Ht. apply H. by apply elem_of_elements. Qed.

Definition clean_tuple (t : Tuple) : bool :=
  negb (has_char NUL (SubjectType t)) && negb (has_char NUL (SubjectID t)).

Lemma clean_table_check tbl : forallb clean_tuple (elements tbl) = true -> clean_table tbl.
Proof.
  intros H t Ht. pose proof (table_Forall _ _ H t Ht) as Hc. unfold clean_tuple in Hc.
  rewrite andb_true_iff, !negb_true_iff in Hc. exact Hc.
Qed.

(** ** The grants endpoint *)

(** The grants endpoint is fail-closed. Whatever the request, the upstreams'
    answers and the failures, a reply other than 200 leaves the tuple tables as
    they were; a 200 is a committed Grant or Revoke of exactly the request's tuples
    by the bearer's subject, with its audit row in the same transaction. *)
Theorem handleGrants_fail_closed verify uuid_ok svc f header body w :
  match handleGrants verify uuid_ok svc f header body w with
  | (r, w') =>
      if bool_decide (status r = 200%Z) then
        exists c req m, bearerClaims verify header = Ok c /\ body = Some req /\
          runTx (grantsTx f (Subject c) req) (w_db w) = Ok (tt, w_db w') /\
          w_audit w' = w_audit w ++ [grantsEvent (Subject c) m req]
      else w_db w' = w_db w
  end.
Proof.
  destruct (handleGrants verify uuid_ok svc f header body w) as [r w'] eqn:H.
  apply handleGrants_cases in H as [[Hs Hw]|(c & req & l & m & Hp & _ & -> & Htx & Hau)].
  - by rewrite bool_decide_false.
  - apply prepareGrants_ok in Hp as (Hc & Hb & _). exists c, req, m. done.
Qed.

(** C10: a committed grants request that is not an appointment is authorised: its
    tuples all belong to one module m; the caller is the app that owns m, with m
    enabled, or passes the decision's company steps for m; every object is the
    company's own module object under its admin relation, or an object of m anchored
    to the company by the stored tuples or by an anchor in the same grant (or, for
    the owner's clean-up, an object with no anchor); and on a grant every position,
    group and member subject belongs to the company. *)
Theorem handleGrants_authorized verify uuid_ok svc f header req w r w' l tbl :
  effectiveEngine svc = Some l -> KnownEnabled l !! "" = None ->
  clean_table tbl -> db_answers tbl True (svc_db svc) -> Forall nul_free_tuple (gTuples req) ->
  isCompanyAdminAppointment req = false ->
  handleGrants verify uuid_ok svc f header (Some req) w = (r, w') -> status r = 200%Z ->
  exists c m, bearerClaims verify header = Ok c /\
    caller_authorized svc l c (gCompanyID req) m (gCorrelationID req) /\
    Forall (object_authorized svc l tbl c (Op req) (gCompanyID req) m (gTuples req)) (gTuples req) /\
    (Op req = "grant" -> Forall (subject_authorized svc l tbl (gCompanyID req)) (gTuples req)).
Proof.
  intros Hl Hk Hcl Hdb Hnul Happ H Hs.
  apply handleGrants_cases in H as [[Hn _]|(c & req' & l' & m & Hp & Ha & _)]; [done|].
  apply prepareGrants_ok in Hp as (Hc & [= <-] & Hne & _ & _ & Hl' & _). rewrite Hl in Hl'. injection Hl' as <-.
  unfold authorizeGrants in Ha. rewrite Happ in Ha. exists c, m. split; [done|].
  by eapply checkGrants_authorized.
Qed.

Definition demoPageAnchor : Tuple := mkTuple "document_page" "7" "company_module" "company_module" "c1/docs" "".
Definition demoPageViewer : Tuple := mkTuple "document_page" "7" "viewer" "user" "bob" "".
Definition demoGrantsReq : grantsRequestWire := mkGrants "grant" "c1" [demoPageAnchor; demoPageViewer] "".
Definition demoWorld : World := mkWorld emptyDB [].

Lemma handleGrants_authorized_witness :
  exists c m, bearerClaims demoVerify "Bearer ann" = Ok c /\
    caller_authorized (demoService ∅) demoLoaded c "c1" m "" /\
    Forall (object_authorized (demoService ∅) demoLoaded ∅ c "grant" "c1" m (gTuples demoGrantsReq)) (gTuples demoGrantsReq) /\
    ("grant" = "grant" -> Forall (subject_authorized (demoService ∅) demoLoaded ∅ "c1") (gTuples demoGrantsReq)).
Proof.
  pose (res := handleGrants demoVerify demoUUID (demoService ∅) noFaults "Bearer ann" (Some demoGrantsReq) demoWorld).
  apply (handleGrants_authorized demoVerify demoUUID (demoService ∅) noFaults "Bearer ann" demoGrantsReq demoWorld
           res.1 res.2 demoLoaded ∅ (demo_engine ∅)).
  - vm_compute. reflexivity.
  - intros t Ht. by apply not_elem_of_empty in Ht.
  - apply db_of_may_fail.
  - repeat constructor.
  - reflexivity.
  - apply surjective_pairing.
  - vm_compute. reflexivity.
Defined.

(** ** Superadmins *)

(** C11: the platform never loses its last superadmin. From a state with at least
    one, whatever sequence of requests is served, under whatever upstream answers
    and failures, at least one remains: a revoke of the last one is refused, and no
    grants request can touch a system tuple. *)
Theorem superadmin_remains verify uuid_ok w w' :
  rtc (served verify uuid_ok) w w' ->
  1 <= superadmins (tuples (w_db w)) -> 1 <= superadmins (tuples (w_db w')).
Proof. induction 1 as [w|w1 w2 w3 H _ IH]; [done|]. intros Hone. eapply IH, served_superadmins; eauto. Qed.

Definition demoAdmins : World := mkWorld (mkDB {[SuperadminTuple "ann"; SuperadminTuple "bob"]} [] ∅) [].
Definition demoRevoke (sub : string) (w : World) : World :=
  (serve demoVerify demoUUID (demoService (tuples (w_db w))) noFaults "Bearer ann"
     (ReqRevokeRole PlatformRoleSuperadmin sub) w).2.

Lemma superadmin_remains_witness :
  superadmins (tuples (w_db (demoRevoke "bob" demoAdmins))) = 1 /\
  1 <= superadmins (tuples (w_db (demoRevoke "ann" (demoRevoke "bob" demoAdmins)))).
Proof.
  split; [vm_compute; reflexivity|].
  apply (superadmin_remains demoVerify demoUUID demoAdmins).
  - eapply rtc_l; [|apply rtc_once]; do 5 eexists; unfold demoRevoke; apply surjective_pairing.
  - apply Nat.leb_le. vm_compute. reflexivity.
Defined.

(** What a platform-role revoke answers. 200 only to a bearer the superadmin
    gate admits, and then exactly the subject's superadmin tuple is gone and another
    superadmin remains; 409 only when the subject is the last holder and 404 only
    when it does not hold the role; every other reply leaves the tables as they were. *)
Theorem handleRevokePlatformRole_outcomes verify svc f header role sub w :
  match handleRevokePlatformRole verify svc f header role sub w with
  | (WriteRole _ _, w') =>
      (exists c, bearerClaims verify header = Ok c /\
         is_ok (authorizePlatformRoleChange svc (Subject c) "authz.platform_role.revoke") = true) /\
      SuperadminTuple sub ∈ tuples (w_db w) /\
      tuples (w_db w') = tuples (w_db w) ∖ {[SuperadminTuple sub]} /\ 1 <= superadmins (tuples (w_db w'))
  | (WriteConflict, w') => w' = w /\ superadmins (tuples (w_db w)) = 1
  | (WriteNotFound, w') => w' = w /\ ~ SuperadminTuple sub ∈ tuples (w_db w)
  | (_, w') => w_db w' = w_db w
  end.
Proof.
  destruct (handleRevokePlatformRole verify svc f header role sub w) as [r w'] eqn:H.
  apply handleRevokePlatformRole_cases in H as [[Hw Hr]|(c & res & Hc & Hauth & Hw & ->)].
  { by destruct r. }
  apply writePlatformRole_cases in Hw as [[-> (e & -> & He)]|(-> & db' & Htx & Hdb & _)].
  - destruct He as [->|[db' Htx]]; [done|]. apply runTx_ok in Htx as [n H%roleTx_ok]. simpl in H.
    destruct e; [done| |done]. destruct H as [Hin Hle]. apply superadmins_remove in Hin. split; [done|lia].
  - apply runTx_ok in Htx as [n H%roleTx_ok]. simpl in H. destruct H as (Hin & Hlt & Ht). rewrite Hdb.
    split; [by exists c|]. split; [done|]. split; [done|]. rewrite Ht. apply superadmins_remove in Hin. lia.
Qed.

(** ** Company isolation *)

Definition canModule (req : canRequestWire) : string :=
  moduleOrFeaturePrefix (wModuleKey req) (wFeatureKey req).

(** What an allowed company-scope request about an object establishes. *)
Lemma handleCan_object verify svc f header req w d w' l tbl :
  effectiveEngine svc = Some l -> clean_table tbl -> db_answers tbl True (svc_db svc) ->
  nul_free (RType (wObject req)) -> nul_free (RID (wObject req)) ->
  wScope req <> "global" -> wRelation req <> "" ->
  handleCan verify svc f header (Some req) w = (WriteDecision d, w') -> Allowed d = true ->
  exists c, bearerClaims verify header = Ok c /\
    in_active_company (serviceDeps svc l) (toDecisionRequest req (canModule req) (Subject c)) /\
    bound_to tbl l (wCompanyID req) (canModule req) (wObject req) /\
    grants (LModel l) tbl "user" (Subject c) (wCompanyID req)
      (RType (wObject req)) (RID (wObject req)) (wRelation req).
Proof.
  intros Hl Hcl Hdb Ht Hi Hsc Hrel H Had.
  apply handleCan_allowed in H as (c & req' & l' & Hc & [= <-] & Hl' & Hg); [|done].
  rewrite Hl in Hl'. injection Hl' as <-. fold (canModule req) in Hg. exists c. split; [done|].
  unfold access_granted in Hg. destruct Hg as [_ Hg].
  assert (Hs : req_Scope (toDecisionRequest req (canModule req) (Subject c)) = ScopeCompany).
  { simpl. by rewrite (proj2 (seqb_false _ _) Hsc). }
  rewrite Hs in Hg. change (seqb ScopeCompany ScopeGlobal) with false in Hg.
  destruct Hg as (Hin & _ & Hobj & _). specialize (Hin eq_refl). destruct (Hobj Hrel) as [Hb He]. specialize (Hb Hs).
  apply objectBound_iff in Hb. apply engineAnswer_iff in He. split; [done|]. split.
  - by apply (objectBound_bound svc tbl Hcl Hdb) in Hb.
  - unfold engineAnswer in He. rewrite Hs in He. change (seqb ScopeCompany ScopeCompany) with true in He. simpl in He.
    by apply (checkerCheckInCompany_grants svc tbl Hcl Hdb) in He.
Qed.

(** In every effective model the module anchor is a direct relation. *)
Lemma base_anchor_direct :
  forallb (fun x => match x.2 !! "company_module" with Some kindThis | None => true | _ => false end)
    (map_to_list BaseModel) = true.
Proof. vm_compute. reflexivity. Qed.

Lemma anchor_direct svc l t :
  effectiveEngine svc = Some l -> Defines l t "company_module" = true ->
  rel_def (LModel l) t "company_module" = Some kindThis.
Proof.
  intros (rows & known & _ & _ & H)%effectiveEngine_load Hdef.
  destruct (Load_inv rows known l H) as (s & _ & Hinv & ->). clear H. unfold Defines, rel_def in *. simpl in *.
  pose proof base_anchor_direct as Hbase. revert Hinv Hbase. generalize BaseModel. intros B [Hd Hdj Hb Ho _] Hbase.
  destruct (merged s !! t) as [rels|] eqn:Ht; [|done]. simpl. apply bool_decide_eq_true in Hdef as [e He].
  destruct (owner s !! t) as [key|] eqn:Hown.
  - by destruct (Ho t key rels Hown Ht) as (r & m & _ & _ & _ & _ & _ & Hc).
  - assert (Hin : t ∈ dom B).
    { apply elem_of_dom_2 in Ht. rewrite Hd, elem_of_union in Ht. destruct Ht as [Ht|[x Hx]%elem_of_dom]; [done|congruence]. }
    apply elem_of_dom in Hin as [rels' HB]. pose proof (Hb t rels' HB) as Ht'. simplify_eq.
    rewrite forallb_Forall', Forall_forall in Hbase.
    specialize (Hbase (t, rels) (proj2 (elem_of_map_to_list B t rels) HB)). simpl in Hbase. rewrite He in Hbase.
    by destruct e.
Qed.

(** Anchors are direct tuples: no userset stands in an anchor position. *)
Definition direct_anchors (tbl : Table) : Prop :=
  forall tp, tp ∈ tbl -> Relation tp = "company_module" -> SubjectRelation tp = "".

Lemma anchored_tuple l tbl a t i :
  rel_def (LModel l) t "company_module" = Some kindThis -> direct_anchors tbl ->
  grants (LModel l) tbl "company_module" a "" t i "company_module" ->
  mkTuple t i "company_module" "company_module" a "" ∈ tbl.
Proof.
  intros Hrel Hdir H. inversion H as [t' i' r' e He Hs]; subst. rewrite Hrel in He. injection He as <-.
  inversion Hs as [? ? ? Hin|? ? ? row Hin Hne _ _| | | |]; subst; apply elem_of_tuple_rows in Hin; [done|].
  by specialize (Hdir _ Hin eq_refl).
Qed.

Lemma bound_one_company svc svc' l l' tbl c1 m1 c2 m2 obj :
  effectiveEngine svc = Some l -> effectiveEngine svc' = Some l' -> one_anchor tbl -> direct_anchors tbl ->
  RType obj <> "company" -> RType obj <> "company_module" ->
  Defines l (RType obj) "company" = false -> Defines l' (RType obj) "company" = false ->
  has_char "/"%char c1 = false -> has_char "/"%char c2 = false ->
  bound_to tbl l c1 m1 obj -> bound_to tbl l' c2 m2 obj -> c1 = c2 /\ m1 = m2.
Proof.
  intros Hl Hl' Hone Hdir Hnc Hncm Hd Hd' Hs1 Hs2. unfold bound_to.
  rewrite (proj2 (seqb_false _ _) Hnc), (proj2 (seqb_false _ _) Hncm), Hd, Hd'.
  intros [Hdef1 H1] [Hdef2 H2].
  apply anchored_tuple in H1; [|by eapply anchor_direct|done].
  apply anchored_tuple in H2; [|by eapply anchor_direct|done].
  assert (Heq := Hone _ _ H1 H2 eq_refl eq_refl eq_refl eq_refl). injection Heq as Heq.
  by apply (app_sep_inj "/"%char c1 c2 m1 m2).
Qed.

(** An allowed answer about an object means what the tuples say, inside the
    company. If /can allows a company-scope request with a relation, then for the
    bearer's own subject the company is active and admits it, the object is bound to
    that company and module by the stored tuples, and the subject has the relation
    in the least relation the effective model defines, where positions, groups and
    members of other companies count for nothing. *)
Theorem handleCan_isolated verify svc f header req w d w' l tbl :
  effectiveEngine svc = Some l -> clean_table tbl -> db_answers tbl True (svc_db svc) ->
  nul_free (RType (wObject req)) -> nul_free (RID (wObject req)) ->
  wScope req <> "global" -> wRelation req <> "" ->
  handleCan verify svc f header (Some req) w = (WriteDecision d, w') -> Allowed d = true ->
  exists c, bearerClaims verify header = Ok c /\
    in_active_company (serviceDeps svc l) (toDecisionRequest req (canModule req) (Subject c)) /\
    bound_to tbl l (wCompanyID req) (canModule req) (wObject req) /\
    grants (LModel l) tbl "user" (Subject c) (wCompanyID req)
      (RType (wObject req)) (RID (wObject req)) (wRelation req).
Proof. apply handleCan_object. Qed.

Definition demoPages : Table := {[demoPageAnchor; demoPageViewer]}.
Definition demoCan (cid : string) : canRequestWire :=
  mkCan "" "docs.read" "" "company" cid "" false "" (mkRef "document_page" "7") "viewer" false "".
Definition demoAsk (cid : string) : Reply :=
  (handleCan demoVerify (demoService demoPages) noFaults "Bearer bob" (Some (demoCan cid)) demoWorld).1.
Definition demoDecision (cid : string) : AccessDecision :=
  match demoAsk cid with WriteDecision d => d | _ => mkDecision false ReasonEngineDenied [] "" "" end.

Lemma demoPages_clean : clean_table demoPages.
Proof. apply clean_table_check. vm_compute. reflexivity. Qed.

Lemma demo_answer :
  handleCan demoVerify (demoService demoPages) noFaults "Bearer bob" (Some (demoCan "c1")) demoWorld =
  (WriteDecision (demoDecision "c1"), demoWorld).
Proof. vm_compute. reflexivity. Qed.

Lemma handleCan_isolated_witness :
  grants (LModel demoLoaded) demoPages "user" "bob" "c1" "document_page" "7" "viewer".
Proof.
  destruct (handleCan_isolated demoVerify (demoService demoPages) noFaults "Bearer bob" (demoCan "c1") demoWorld
    (demoDecision "c1") demoWorld demoLoaded demoPages (demo_engine demoPages) demoPages_clean (db_of_may_fail demoPages)
    eq_refl eq_refl) as (c & Hc & _ & _ & Hg).
  - intros H. discriminate H.
  - intros H. discriminate H.
  - exact demo_answer.
  - vm_compute. reflexivity.
  - injection Hc as <-. exact Hg.
Defined.

(** No two companies share an object. If /can allows two company-scope requests
    about the same object over the same tuples, and the object's type binds through
    its module anchor, then the two requests name the same company and module: the
    anchors are unique, whichever fragments were loaded for either request. *)
Theorem object_one_company verify svc1 svc2 f1 f2 h1 h2 r1 r2 w1 w2 d1 d2 w1' w2' l1 l2 tbl :
  effectiveEngine svc1 = Some l1 -> effectiveEngine svc2 = Some l2 ->
  clean_table tbl -> one_anchor tbl -> direct_anchors tbl ->
  db_answers tbl True (svc_db svc1) -> db_answers tbl True (svc_db svc2) ->
  wObject r1 = wObject r2 -> nul_free (RType (wObject r1)) -> nul_free (RID (wObject r1)) ->
  RType (wObject r1) <> "company" -> RType (wObject r1) <> "company_module" ->
  Defines l1 (RType (wObject r1)) "company" = false -> Defines l2 (RType (wObject r1)) "company" = false ->
  has_char "/"%char (wCompanyID r1) = false -> has_char "/"%char (wCompanyID r2) = false ->
  wScope r1 <> "global" -> wScope r2 <> "global" -> wRelation r1 <> "" -> wRelation r2 <> "" ->
  handleCan verify svc1 f1 h1 (Some r1) w1 = (WriteDecision d1, w1') -> Allowed d1 = true ->
  handleCan verify svc2 f2 h2 (Some r2) w2 = (WriteDecision d2, w2') -> Allowed d2 = true ->
  wCompanyID r1 = wCompanyID r2 /\ canModule r1 = canModule r2.
Proof.
  intros Hl1 Hl2 Hcl Hone Hdir Hdb1 Hdb2 Hobj Ht Hi Hnc Hncm Hd1 Hd2 Hs1 Hs2 Hg1 Hg2 Hr1 Hr2 H1 Ha1 H2 Ha2.
  apply (handleCan_object verify svc1 f1 h1 r1 w1 d1 w1' l1 tbl) in H1 as (_ & _ & _ & Hb1 & _); [|done..].
  apply (handleCan_object verify svc2 f2 h2 r2 w2 d2 w2' l2 tbl) in H2 as (_ & _ & _ & Hb2 & _);
    [|by rewrite <- ?Hobj..]. rewrite <- Hobj in Hb2.
  by eapply (bound_one_company svc1 svc2 l1 l2 tbl).
Qed.

Definition one_anchor_check (tbl : Table) : bool :=
  forallb (fun a => forallb (fun b =>
    negb (is_anchor a && is_anchor b && seqb (ObjectType a) (ObjectType b) && seqb (ObjectID a) (ObjectID b))
    || bool_decide (a = b)) (elements tbl)) (elements tbl).

Lemma one_anchor_checked tbl : one_anchor_check tbl = true -> one_anchor tbl.
Proof.
  intros H a b Ha Hb Haa Hab Ht Hi. pose proof (table_Forall _ _ H a Ha) as H1.
  pose proof (table_Forall _ _ H1 b Hb) as H2. simpl in H2. rewrite Haa, Hab, Ht, Hi, !seqb_refl in H2.
  by apply bool_decide_eq_true in H2.
Qed.

Lemma object_one_company_witness :
  wCompanyID (demoCan "c1") = wCompanyID (demoCan "c1") /\ canModule (demoCan "c1") = canModule (demoCan "c1").
Proof.
  apply (object_one_company demoVerify (demoService demoPages) (demoService demoPages) noFaults noFaults
    "Bearer bob" "Bearer bob" (demoCan "c1") (demoCan "c1") demoWorld demoWorld (demoDecision "c1") (demoDecision "c1")
    demoWorld demoWorld demoLoaded demoLoaded demoPages (demo_engine demoPages) (demo_engine demoPages) demoPages_clean).
  - apply one_anchor_checked. vm_compute. reflexivity.
  - intros tp Htp _. apply seqb_true.
    apply (table_Forall (fun t => seqb (SubjectRelation t) "") demoPages); [vm_compute; reflexivity|exact Htp].
  - apply db_of_may_fail.
  - apply db_of_may_fail.
  - reflexivity.
  - reflexivity.
  - reflexivity.
  - intros H. discriminate H.
  - intros H. discriminate H.
  - vm_compute. reflexivity.
  - vm_compute. reflexivity.
  - reflexivity.
  - reflexivity.
  - intros H. discriminate H.
  - intros H. discriminate H.
  - intros H. discriminate H.
  - intros H. discriminate H.
  - exact demo_answer.
  - vm_compute. reflexivity.
  - exact demo_answer.
  - vm_compute. reflexivity.
Defined.

(** ** A gap in rules 2 and 4

    An anchor in the request exempts every other tuple on the object, a userset in
    the anchor position included, so a grant may bind an object to a second company. *)

Definition otherAnchor : Tuple := mkTuple "document_page" "9" "company_module" "company_module" "c2/docs" "".
Definition usersetAnchor : Tuple :=
  mkTuple "document_page" "7" "company_module" "document_page" "9" "company_module".
Definition gapRequest : grantsRequestWire := mkGrants "grant" "c1" [demoPageAnchor; usersetAnchor] "".
Definition gapReply : Reply * World :=
  handleGrants demoVerify demoUUID (demoService {[otherAnchor]}) noFaults "Bearer ann" (Some gapRequest)
    (mkWorld (mkDB {[otherAnchor]} [] ∅) []).

Example second_anchor_accepted :
  status gapReply.1 = 200%Z /\
  let db := db_of (tuples (w_db gapReply.2)) in
  checkerCheck db demoLoaded "document_page" "7" "company_module" "company_module" "c1/docs" = Ok true /\
  checkerCheck db demoLoaded "document_page" "7" "company_module" "company_module" "c2/docs" = Ok true.
Proof. vm_compute. done. Qed.
