(* ===== verification/AdminClient.v ===== *)
(** * The administration client

    internal/authz/client/adminauthz.go, which org, identity, registry and the gateway
    ask "may this bearer administer" through, and org's adapter over it
    (internal/org/adminauthz.go).  The HTTP round trip is an argument; [authz_backed]
    says that its 200 replies are those of [handleCan]. *)

From stdpp Require Import base gmap strings list.
From S2P Require Import Prelude Fragment Decision DecisionProps Clients AuthzHTTP AuthzProps.

Definition AdminFeatureKey : string := "auth.platform_administration.access".
Definition AdminRequiredRole : string := "kiban-superadmin".
Definition CompanyAdminRole : string := "admin".

(** The client's canRequestWire. *)
Record adminWire := mkAdminWire {
  aFeatureKey : string;
  aScope : string;
  aRequiredPlatformRole : string;
  aAction : string;
  aCorrelationID : string;
  aCompanyID : string;
  aAllowPlatformOperator : bool;
  aRequiredCompanyRole : string
}.

(** The client's Decision. *)
Record AdminDecision := mkAdminDecision { dAllowed : bool; dReason : string }.

(** A response: its status and what its body decodes to. *)
Record adminResponse := mkAdminResponse { rStatus : Z; rBody : option AdminDecision }.

(** [knownDenialReasons] *)
Definition knownDenialReasons : list string :=
  ["AUTH_USER_NOT_FOUND"; "KEYCLOAK_DISABLED"; "USER_LIFECYCLE_DISABLED"; "PLATFORM_ROLE_REQUIRED";
   "COMPANY_INACTIVE"; "COMPANY_MEMBERSHIP_REQUIRED"; "COMPANY_ACCESS_BLOCKED"; "COMPANY_ROLE_REQUIRED"].

(** [Denied] *)
Definition Denied (d : AdminDecision) : bool := negb (dAllowed d) && bool_decide (dReason d ∈ knownDenialReasons).

Section client.
(** client.Do: [None] is a transport error. *)
Context (send : string -> adminWire -> option adminResponse).

(** [decide]; [None] is ErrAuthorizationUnavailable. *)
Definition decide_ (rawBearer : string) (wire : adminWire) : option AdminDecision :=
  if seqb rawBearer "" then None
  else match send rawBearer wire with
       | Some (mkAdminResponse status body) => if (status =? 200)%Z then body else None
       | None => None
       end.

(** [Decide] *)
Definition Decide (rawBearer action correlationID : string) : option AdminDecision :=
  decide_ rawBearer (mkAdminWire AdminFeatureKey "global" AdminRequiredRole action correlationID "" false "").

(** [decideInCompany] *)
Definition decideInCompany (rawBearer action companyID role correlationID : string) : option AdminDecision :=
  if seqb companyID "" then None
  else decide_ rawBearer (mkAdminWire AdminFeatureKey "company" AdminRequiredRole action correlationID companyID true role).

(** [DecideInCompany] and [DecideMemberInCompany] *)
Definition DecideInCompany (rawBearer action companyID correlationID : string) : option AdminDecision :=
  decideInCompany rawBearer action companyID CompanyAdminRole correlationID.
Definition DecideMemberInCompany (rawBearer action companyID correlationID : string) : option AdminDecision :=
  decideInCompany rawBearer action companyID "" correlationID.
End client.

(** ** org's adapter *)

(** The error of Can: DeniedError or ErrAuthorizationUnavailable. *)
Inductive auth_error : Type := DeniedError (reason : string) | ErrAuthorizationUnavailable.

(** [mapDecision] *)
Definition mapDecision (d : option AdminDecision) : result auth_error bool :=
  match d with
  | None => Err ErrAuthorizationUnavailable
  | Some d =>
      if dAllowed d && seqb (dReason d) "ALLOWED" then Ok true
      else if Denied d then Err (DeniedError (dReason d))
      else Err ErrAuthorizationUnavailable
  end.

(** ** Behind the client *)

Definition reasonCode (r : Reason) : string :=
  match r with
  | ReasonAllowed => "ALLOWED"
  | ReasonAuthUserNotFound => "AUTH_USER_NOT_FOUND"
  | ReasonKeycloakDisabled => "KEYCLOAK_DISABLED"
  | ReasonUserLifecycleDisabled => "USER_LIFECYCLE_DISABLED"
  | ReasonCompanyInactive => "COMPANY_INACTIVE"
  | ReasonCompanyMembershipRequired => "COMPANY_MEMBERSHIP_REQUIRED"
  | ReasonCompanyAccessBlocked => "COMPANY_ACCESS_BLOCKED"
  | ReasonModuleDisabled => "MODULE_DISABLED"
  | ReasonPlatformRoleRequired => "PLATFORM_ROLE_REQUIRED"
  | ReasonCompanyRoleRequired => "COMPANY_ROLE_REQUIRED"
  | ReasonEngineDenied => "ENGINE_DENIED"
  | ReasonBusinessEligibilityDenied => "BUSINESS_ELIGIBILITY_DENIED"
  | ReasonDependencyUnavailable => "DEPENDENCY_UNAVAILABLE"
  end.

(** The request as the authorization service decodes it: the action is not one of its
    fields, and what the client leaves out is empty. *)
Definition received (w : adminWire) : canRequestWire :=
  mkCan "" (aFeatureKey w) "" (aScope w) (aCompanyID w) (aRequiredPlatformRole w) (aAllowPlatformOperator w)
    (aRequiredCompanyRole w) (mkRef "" "") "" false (aCorrelationID w).

(** A reply as the client decodes it. *)
Definition decoded (r : Reply) : adminResponse :=
  match r with
  | WriteDecision d => mkAdminResponse 200 (Some (mkAdminDecision (Allowed d) (reasonCode (Why d))))
  | _ => mkAdminResponse (status r) None
  end.

(** Every 200 the client sees is a reply of the authorization service in one of the
    states [during] which the client's request is served, with whatever failures. *)
Definition authz_backed (verify : string -> option Claims) (during : Service -> Prop)
    (send : string -> adminWire -> option adminResponse) : Prop :=
  forall header w body, send header w = Some (mkAdminResponse 200 body) ->
    exists svc f world, during svc /\
      decoded (handleCan verify svc f header (Some (received w)) world).1 = mkAdminResponse 200 body.

(** What an allowed administration call means: in one of those states, the bearer's
    subject is active and holds the platform role, or it is an admitted administrator of
    the active company. *)
Definition subject_live {E} (deps : @Deps E) (sub : string) : Prop :=
  (exists s, Subject_Lookup deps sub = Ok s /\ Found s = true /\ LifecycleActive s = true) /\
  (exists kc, Keycloak_Enabled deps sub = Ok kc /\ kc <> KCUnknown /\ kc <> KCFalse).

Definition superadmin_now (verify : string -> option Claims) (during : Service -> Prop) (header : string) : Prop :=
  exists c svc l, during svc /\ bearerClaims verify header = Ok c /\ effectiveEngine svc = Some l /\ subject_live (serviceDeps svc l) (Subject c) /\
    PlatformRole_HasRole (serviceDeps svc l) (Subject c) AdminRequiredRole = Ok true.

Definition company_admin_now (verify : string -> option Claims) (during : Service -> Prop) (header companyID : string) : Prop :=
  exists c svc l, during svc /\ bearerClaims verify header = Ok c /\ effectiveEngine svc = Some l /\ subject_live (serviceDeps svc l) (Subject c) /\
    (exists cs, Company_State (serviceDeps svc l) companyID = Ok cs /\ CExists cs = true /\ CActive cs = true) /\
    (exists ms, Membership_Membership (serviceDeps svc l) companyID (Subject c) = Ok ms /\ IsMember ms = true /\ Blocked ms = false) /\
    CompanyRole_HasRole (serviceDeps svc l) companyID (Subject c) CompanyAdminRole = Ok true.

Section backed.
Context (verify : string -> option Claims) (during : Service -> Prop)
  (send : string -> adminWire -> option adminResponse).
Context (Hback : authz_backed verify during send).

Lemma decide_allowed header w d :
  decide_ send header w = Some d -> dAllowed d = true ->
  exists c svc l, during svc /\ bearerClaims verify header = Ok c /\ effectiveEngine svc = Some l /\
    access_granted (serviceDeps svc l)
      (toDecisionRequest (received w) (moduleOrFeaturePrefix "" (aFeatureKey w)) (Subject c)).
Proof.
  unfold decide_. destruct (seqb header ""); [done|]. destruct (send header w) as [[st body]|] eqn:Hs; [|done].
  destruct (Z.eqb_spec st 200) as [->|]; [|done]. intros -> Ha. apply Hback in Hs as (svc & f & world & Hdur & Hd).
  destruct (handleCan verify svc f header (Some (received w)) world) as [r world'] eqn:Hr. simpl in Hd.
  destruct r; simpl in Hd; try discriminate Hd. injection Hd as <-. simpl in Ha.
  apply handleCan_allowed in Hr as (c & req & l & Hc & [= <-] & Hl & Hg); [|done]. eauto 10.
Qed.

Lemma Decide_allowed header action corr d :
  Decide send header action corr = Some d -> dAllowed d = true -> superadmin_now verify during header.
Proof.
  intros Hd Ha. destruct (decide_allowed _ _ _ Hd Ha) as (c & svc & l & Hdur & Hc & Hl & Hlive & Hrole). simpl in Hrole.
  by exists c, svc, l.
Qed.

Lemma DecideInCompany_allowed header action companyID corr d :
  DecideInCompany send header action companyID corr = Some d -> dAllowed d = true ->
  superadmin_now verify during header \/ company_admin_now verify during header companyID.
Proof.
  unfold DecideInCompany, decideInCompany. destruct (seqb companyID ""); [done|]. intros Hd Ha.
  destruct (decide_allowed _ _ _ Hd Ha) as (c & svc & l & Hdur & Hc & Hl & Hlive & Hco & _). simpl in Hco.
  destruct (Hco eq_refl) as [Hact [[_ Hop]|[_ [Hmem Hrole]]]].
  - left. by exists c, svc, l.
  - right. exists c, svc, l. split_and!; [done..|]. by apply Hrole.
Qed.

Lemma mapDecision_ok d : mapDecision d = Ok true <-> exists x, d = Some x /\ dAllowed x = true /\ dReason x = "ALLOWED".
Proof.
  destruct d as [x|]; [|split; [done|by intros (x & ? & _)]]. cbn [mapDecision].
  destruct (dAllowed x && seqb (dReason x) "ALLOWED") eqn:E.
  - rewrite andb_true_iff, seqb_true in E. split; [eauto|done].
  - split; [by destruct (Denied x)|]. intros (y & [= <-] & Ha & Hr). by rewrite Ha, Hr in E.
Qed.
End backed.
