(* ===== verification/OrgTree.v ===== *)
(** * The org-unit tree

    org.org_unit rows point at their parent; a company is a root and a root is a
    company (internal/org/store.go, checkCompanyIsRoot).  The recursive queries of
    the store walk these pointers up or down.  [path] is the walk to the root as a
    relation, [chain] the walk as a function with fuel, and the lemmas say how
    inserting, moving and deleting a unit changes the paths. *)

From stdpp Require Import base gmap strings list.
From S2P Require Import Prelude.

Abbreviation UUID := N.

(** A row of org.org_unit. *)
Record OrgUnit := mkUnit {
  u_type : string;
  u_parent : option UUID;
  u_code : string;
  u_name : string;
  u_active : bool
}.

Abbreviation Units := (gmap UUID OrgUnit).

(** ** The recursive queries *)

(** WITH RECURSIVE chain: the unit and its ancestors, nearest first.  The query has
    no bound; the fuel is the number of rows, which a forest never exceeds. *)
Fixpoint chainN (n : nat) (us : Units) (id : UUID) : list UUID :=
  match n with
  | O => []
  | S n' =>
      match us !! id with
      | None => []
      | Some u => id :: match u_parent u with Some p => chainN n' us p | None => [] end
      end
  end.
Definition chain (us : Units) (id : UUID) : list UUID := chainN (size us) us id.

Definition is_root (us : Units) (id : UUID) : Prop := u_parent <$> us !! id = Some None.
#[export] Instance is_root_dec us id : Decision (is_root us id).
Proof. unfold is_root. apply _. Defined.

(** [resolveRootCompany]: the row of the chain without a parent. *)
Definition resolveRootCompany (us : Units) (id : UUID) : option UUID :=
  head (filter (is_root us) (chain us id)).

(** [orgUnitUnderCompany] *)
Definition orgUnitUnderCompany (us : Units) (orgUnitID companyID : UUID) : bool :=
  bool_decide (companyID ∈ chain us orgUnitID).

(** The depth of [x] below [id]: how many steps up from [x] lead to [id]. *)
Definition depthBelow (us : Units) (id x : UUID) : option nat := fst <$> list_find (eq id) (chain us x).

(** SubtreeOrgUnits, which stops at depth 32: the units and their depths. *)
Definition SubtreeOrgUnits (us : Units) (id : UUID) : list (UUID * nat) :=
  omap (fun x => match depthBelow us id x with
                 | Some d => if (d <=? 32)%nat then Some (x, d) else None
                 | None => None
                 end) (elements (dom us)).

(** The walk of the trigger org_unit_lock_and_check_cycle (migrations/org/0006) from
    a candidate parent: whether it meets [id]. *)
Definition cycleTrigger (us : Units) (id : UUID) (parent : option UUID) : bool :=
  match parent with
  | None => false
  | Some p => bool_decide (p = id \/ id ∈ chain us p)
  end.

(** ** Paths to the root *)

Inductive path (us : Units) : UUID -> list UUID -> Prop :=
| path_root id u : us !! id = Some u -> u_parent u = None -> path us id [id]
| path_up id u p l : us !! id = Some u -> u_parent u = Some p -> path us p l -> path us id (id :: l).

(** Every unit has a way up to a root: there is no cycle and no dangling parent. *)
Definition forest (us : Units) : Prop := forall id, is_Some (us !! id) -> exists l, path us id l.

(** The root a unit hangs from. *)
Definition hangs_from (us : Units) (id r : UUID) : Prop := exists l, path us id l /\ last l = Some r.

Lemma path_fun us id l l' : path us id l -> path us id l' -> l = l'.
Proof.
  intros H. revert l'. induction H as [id u Hu Hp|id u p l Hu Hp _ IH]; intros l' H'; inversion H'; simplify_eq; [done|].
  f_equal. by apply IH.
Qed.

Lemma path_head us id l : path us id l -> exists l', l = id :: l'.
Proof. destruct 1; eauto. Qed.

Lemma path_in us id l : path us id l -> is_Some (us !! id).
Proof. destruct 1; eauto. Qed.

Lemma path_suffix us id l x :
  path us id l -> x ∈ l -> exists l1 l2, l = l1 ++ l2 /\ path us x l2 /\ last l2 = last l.
Proof.
  intros H. induction H as [id u Hu Hp|id u p l Hu Hp Hpath IH]; intros Hx.
  - apply list_elem_of_singleton in Hx as ->. exists [], [id]. split_and!; [done|by econstructor|done].
  - apply elem_of_cons in Hx as [->|Hx].
    + exists [], (id :: l). split_and!; [done|by econstructor|done].
    + destruct (IH Hx) as (l1 & l2 & -> & Hp2 & Hl). exists (id :: l1), l2. split_and!; [done|done|].
      rewrite app_comm_cons, last_app. destruct (path_head _ _ _ Hp2) as [l2' ->].
      by destruct (last (x :: l2')) eqn:E; [|apply last_None in E].
Qed.

Lemma path_NoDup us id l : path us id l -> NoDup l.
Proof.
  intros H. induction H as [id u Hu Hp|id u p l Hu Hp Hpath IH]; [apply NoDup_singleton|].
  apply NoDup_cons. split; [|done]. intros Hin.
  destruct (path_suffix _ _ _ _ Hpath Hin) as (l1 & l2 & -> & H2 & _).
  assert (Hself : path us id (id :: l1 ++ l2)) by (by econstructor).
  assert (E := path_fun _ _ _ _ Hself H2). apply (f_equal length) in E. simpl in E. rewrite length_app in E. lia.
Qed.

Lemma path_dom us id l x : path us id l -> x ∈ l -> is_Some (us !! x).
Proof. intros H Hx. destruct (path_suffix _ _ _ _ H Hx) as (l1 & l2 & _ & H2 & _). by eapply path_in. Qed.

Lemma path_length us id l : path us id l -> length l <= size us.
Proof.
  intros H. rewrite <- (size_dom (D := gset UUID)). rewrite <- (size_list_to_set (C := gset UUID) l (path_NoDup _ _ _ H)).
  apply subseteq_size. intros x. rewrite elem_of_list_to_set, elem_of_dom. intros Hx. by eapply path_dom.
Qed.

Lemma path_chainN us id l n : path us id l -> length l <= n -> chainN n us id = l.
Proof.
  intros H. revert n. induction H as [id u Hu Hp|id u p l Hu Hp _ IH]; intros [|n]; simpl; intros Hn; try lia.
  - by rewrite Hu, Hp.
  - rewrite Hu, Hp, IH; [done|lia].
Qed.

Lemma path_chain us id l : path us id l -> chain us id = l.
Proof. intros H. apply path_chainN; [done|by eapply path_length]. Qed.

Lemma path_last us id l : path us id l -> exists r, last l = Some r /\ is_root us r.
Proof.
  intros H. induction H as [id u Hu Hp|id u p l Hu Hp Hpath IH].
  - exists id. split; [done|]. unfold is_root. by rewrite Hu; simpl; rewrite Hp.
  - destruct IH as (r & Hr & Hroot). exists r. split; [|done]. rewrite last_cons. by rewrite Hr.
Qed.

Lemma path_roots us id l r : path us id l -> r ∈ l -> is_root us r -> last l = Some r.
Proof.
  intros H Hr Hroot. destruct (path_suffix _ _ _ _ H Hr) as (l1 & l2 & -> & H2 & <-).
  unfold is_root in Hroot. apply fmap_Some in Hroot as (u & Hu & Hp). inversion H2; simplify_eq; [done|congruence].
Qed.

Lemma resolveRootCompany_spec us id r :
  forest us -> is_Some (us !! id) -> resolveRootCompany us id = Some r <-> hangs_from us id r.
Proof.
  intros Hf [l Hl]%Hf. unfold resolveRootCompany, hangs_from. rewrite (path_chain _ _ _ Hl).
  destruct (path_last _ _ _ Hl) as (r0 & Hr0 & Hroot0). assert (Hin : r0 ∈ filter (is_root us) l).
  { apply list_elem_of_filter. split; [done|]. apply last_Some in Hr0 as [l' ->]. apply elem_of_app. right. by left. }
  assert (Hall : forall x, x ∈ filter (is_root us) l -> x = r0).
  { intros x [Hx Hxl]%list_elem_of_filter. assert (E := path_roots _ _ _ _ Hl Hxl Hx). congruence. }
  destruct (filter (is_root us) l) as [|x xs]; [by apply elem_of_nil in Hin|].
  rewrite (Hall x) by left. simpl. split.
  - intros [= <-]. eauto.
  - intros (l' & Hl' & Hr). rewrite (path_fun _ _ _ _ Hl' Hl) in Hr. congruence.
Qed.

(** ** Changing one row *)

(** Paths that avoid the row are kept. *)
Lemma path_avoid us id u x l : path us x l -> id ∉ l -> path (<[id := u]> us) x l.
Proof.
  intros H. induction H as [x v Hv Hp|x v p l Hv Hp _ IH]; intros Hn;
    rewrite ?not_elem_of_cons in Hn; destruct Hn as [Hne Hn].
  - eapply path_root; [by rewrite lookup_insert_ne|done].
  - eapply path_up; [by rewrite lookup_insert_ne|done|auto].
Qed.

(** The other paths now go through the new path of the row. *)
Lemma path_through us id u lid x l :
  path (<[id := u]> us) id lid -> path us x l ->
  exists l', path (<[id := u]> us) x l' /\ (id ∉ l -> l' = l) /\ (id ∈ l -> last l' = last lid).
Proof.
  intros Hid H. induction H as [x v Hv Hp|x v p l Hv Hp Hpath IH].
  - destruct (decide (x = id)) as [->|Hne].
    + exists lid. split; [done|]. split; [|done]. intros []. left.
    + exists [x]. split; [eapply path_root; [by rewrite lookup_insert_ne|done]|]. split; [done|].
      by intros ->%list_elem_of_singleton.
  - destruct (decide (x = id)) as [->|Hne].
    + exists lid. split; [done|]. split; [|done]. intros []. left.
    + destruct IH as (l' & Hl' & Hout & Hin). exists (x :: l').
      split; [eapply path_up; [by rewrite lookup_insert_ne|done|done]|]. rewrite not_elem_of_cons, elem_of_cons. split.
      * intros [_ Hn]. by rewrite Hout.
      * intros [->|Hx]; [done|]. rewrite <- (Hin Hx). destruct (path_head _ _ _ Hl') as [l'' ->]. done.
Qed.

(** A new unit under an existing parent, or as a root. *)
Lemma forest_insert us id u :
  forest us -> us !! id = None -> (forall p, u_parent u = Some p -> is_Some (us !! p)) ->
  forest (<[id := u]> us) /\ (forall x l, path us x l -> path (<[id := u]> us) x l).
Proof.
  intros Hf Hn Hp.
  assert (Hkeep : forall x l, path us x l -> path (<[id := u]> us) x l).
  { intros x l Hl. apply path_avoid; [done|]. intros Hin. destruct (path_dom _ _ _ _ Hl Hin) as [? ?]. congruence. }
  split; [|done]. intros x [v Hv]. apply lookup_insert_Some in Hv as [[<- ->]|[Hne Hv]].
  - destruct (u_parent v) as [p|] eqn:E.
    + destruct (Hf p (Hp p eq_refl)) as [l Hl]. exists (id :: l). eapply path_up; [apply lookup_insert_eq|done|auto].
    + exists [id]. eapply path_root; [apply lookup_insert_eq|done].
  - destruct (Hf x) as [l Hl]; [eauto|]. eauto.
Qed.

(** Deleting a unit without children. *)
Lemma path_delete us id x l :
  path us x l -> (forall y v, us !! y = Some v -> u_parent v <> Some id) -> x <> id -> path (delete id us) x l.
Proof.
  intros H Hch. induction H as [x v Hv Hp|x v p l Hv Hp _ IH]; intros Hne.
  - eapply path_root; [by rewrite lookup_delete_ne|done].
  - eapply path_up; [by rewrite lookup_delete_ne|done|]. apply IH. intros ->. by apply (Hch x v Hv).
Qed.

Lemma forest_delete us id :
  forest us -> (forall y v, us !! y = Some v -> u_parent v <> Some id) -> forest (delete id us).
Proof.
  intros Hf Hch x [v Hv]. apply lookup_delete_Some in Hv as [Hne Hv]. destruct (Hf x) as [l Hl]; [eauto|].
  exists l. by apply path_delete.
Qed.

(** Changing a unit: its new parent must be outside its own subtree. *)
Lemma forest_update us id u u' :
  forest us -> us !! id = Some u ->
  (forall p, u_parent u' = Some p -> exists l, path us p l /\ id ∉ l) ->
  forest (<[id := u']> us) /\
  (forall x l r, path us x l -> last l = Some r ->
     hangs_from (<[id := u']> us) x (if decide (id ∈ l) then
       match u_parent u' with Some p => default r (last (chain us p)) | None => id end else r)).
Proof.
  intros Hf Hu Hp.
  assert (Hid : exists lid, path (<[id := u']> us) id lid /\
    last lid = Some (match u_parent u' with Some p => default id (last (chain us p)) | None => id end)).
  { destruct (u_parent u') as [p|] eqn:E.
    - destruct (Hp p eq_refl) as (l & Hl & Hn). exists (id :: l).
      split; [eapply path_up; [apply lookup_insert_eq|done|by apply path_avoid]|].
      rewrite (path_chain _ _ _ Hl). destruct (path_last _ _ _ Hl) as (r & Hr & _). by rewrite last_cons, Hr.
    - exists [id]. split; [|done]. eapply path_root; [apply lookup_insert_eq|done]. }
  destruct Hid as (lid & Hlid & Hlast). split.
  - intros x [v Hv]. apply lookup_insert_Some in Hv as [[<- _]|[Hne Hv]]; [eauto|].
    destruct (Hf x) as [l Hl]; [eauto|]. destruct (path_through _ _ _ _ _ _ Hlid Hl) as (l' & Hl' & _). eauto.
  - intros x l r Hl Hr. destruct (path_through _ _ _ _ _ _ Hlid Hl) as (l' & Hl' & Hout & Hin).
    exists l'. split; [done|]. case_decide as Hd; [|by rewrite (Hout Hd)].
    rewrite (Hin Hd), Hlast. destruct (u_parent u') as [p|] eqn:E; [|done].
    destruct (Hp p eq_refl) as (lp & Hlp & _). rewrite (path_chain _ _ _ Hlp).
    destruct (path_last _ _ _ Hlp) as (rp & Hrp & _). by rewrite Hrp.
Qed.

Lemma hangs_from_fun us x r r' : hangs_from us x r -> hangs_from us x r' -> r = r'.
Proof. intros (l & Hl & Hr) (l' & Hl' & Hr'). rewrite (path_fun _ _ _ _ Hl' Hl) in Hr'. congruence. Qed.

Lemma orgUnitUnderCompany_spec us id c :
  forest us -> is_root us c -> orgUnitUnderCompany us id c = true <-> hangs_from us id c.
Proof.
  intros Hf Hc. unfold orgUnitUnderCompany. rewrite bool_decide_eq_true. split.
  - intros Hin. assert (Hid : is_Some (us !! id)).
    { unfold chain in Hin. destruct (us !! id) eqn:E; [eauto|]. destruct (size us); simpl in Hin; [by apply elem_of_nil in Hin|].
      rewrite E in Hin. by apply elem_of_nil in Hin. }
    destruct (Hf id Hid) as [l Hl]. rewrite (path_chain _ _ _ Hl) in Hin. exists l. split; [done|]. by eapply path_roots.
  - intros (l & Hl & Hr). rewrite (path_chain _ _ _ Hl). apply last_Some in Hr as [l' ->].
    apply elem_of_app. right. by left.
Qed.

(** The trigger's walk is the path of the candidate parent. *)
Lemma cycleTrigger_spec us id p l :
  path us p l -> cycleTrigger us id (Some p) = false <-> id ∉ l.
Proof.
  intros Hl. unfold cycleTrigger. rewrite (path_chain _ _ _ Hl), bool_decide_eq_false.
  destruct (path_head _ _ _ Hl) as [l' ->]. rewrite elem_of_cons. naive_solver.
Qed.
