(* ===== verification/Org.v ===== *)
(** * The org tables

    The tables internal/org/store.go and group.go keep (org units, members, positions
    with their assignments, groups), the errors of the package, transactions, and the
    statements of queries.sql with the constraints and triggers of migrations/org they
    meet.  The methods that run them are in OrgStore. *)

From stdpp Require Import base gmap strings list.
From S2P Require Import Prelude GoStrings Tuple TupleStore OrgTree.

(** google/uuid's String: the canonical text of an id. *)
Class UUIDText := {
  uuidString : UUID -> string;
  uuidString_inj : forall a b, uuidString a = uuidString b -> a = b;
  uuidString_nonempty : forall a, uuidString a <> "";
  uuidString_nul_free : forall a, nul_free (uuidString a)
}.

Abbreviation Date := Z.

(** ** Rows *)

Record Member := mkMember {
  m_company : UUID;
  m_code : string;
  m_display : string;
  m_email : option string;
  m_user : option UUID;
  m_active : bool;
  m_guest : bool
}.

Record Position := mkPosition { p_company : UUID; p_code : string; p_title : string; p_unit : UUID }.

(** [as_to] is exclusive; [None] is an open window. *)
Record Assignment := mkAssignment { as_position : UUID; as_member : UUID; as_from : Date; as_to : option Date }.

Record Group := mkGroup {
  g_company : UUID;
  g_code : string;
  g_name : string;
  g_source : string;
  g_external : option string;
  g_active : bool
}.

Record OrgEvent := mkOrgEvent { oe_actor : string; oe_action : string; oe_subject : string }.

(** The tables: org_unit_type (whether the type is the company type), the five org
    tables, group_member with its added_by, identity.user_read_v (the subject of each
    account), and authz's tables, in one database. *)
Record OrgDB := mkOrg {
  unitTypes : gmap string bool;
  units : Units;
  members : gmap UUID Member;
  positions : gmap UUID Position;
  assignments : gmap UUID Assignment;
  groups : gmap UUID Group;
  groupMembers : gmap (UUID * UUID) string;
  users : gmap UUID string;
  authz : AuthzDB;
  orgAudit : list OrgEvent
}.

Definition with_units (db : OrgDB) (x : Units) : OrgDB :=
  mkOrg (unitTypes db) x (members db) (positions db) (assignments db) (groups db) (groupMembers db) (users db) (authz db) (orgAudit db).
Definition with_members (db : OrgDB) (x : gmap UUID Member) : OrgDB :=
  mkOrg (unitTypes db) (units db) x (positions db) (assignments db) (groups db) (groupMembers db) (users db) (authz db) (orgAudit db).
Definition with_positions (db : OrgDB) (x : gmap UUID Position) : OrgDB :=
  mkOrg (unitTypes db) (units db) (members db) x (assignments db) (groups db) (groupMembers db) (users db) (authz db) (orgAudit db).
Definition with_assignments (db : OrgDB) (x : gmap UUID Assignment) : OrgDB :=
  mkOrg (unitTypes db) (units db) (members db) (positions db) x (groups db) (groupMembers db) (users db) (authz db) (orgAudit db).
Definition with_groups (db : OrgDB) (x : gmap UUID Group) : OrgDB :=
  mkOrg (unitTypes db) (units db) (members db) (positions db) (assignments db) x (groupMembers db) (users db) (authz db) (orgAudit db).
Definition with_groupMembers (db : OrgDB) (x : gmap (UUID * UUID) string) : OrgDB :=
  mkOrg (unitTypes db) (units db) (members db) (positions db) (assignments db) (groups db) x (users db) (authz db) (orgAudit db).
Definition with_users (db : OrgDB) (x : gmap UUID string) : OrgDB :=
  mkOrg (unitTypes db) (units db) (members db) (positions db) (assignments db) (groups db) (groupMembers db) x (authz db) (orgAudit db).
Definition with_authz (db : OrgDB) (x : AuthzDB) : OrgDB :=
  mkOrg (unitTypes db) (units db) (members db) (positions db) (assignments db) (groups db) (groupMembers db) (users db) x (orgAudit db).
Definition with_orgAudit (db : OrgDB) (x : list OrgEvent) : OrgDB :=
  mkOrg (unitTypes db) (units db) (members db) (positions db) (assignments db) (groups db) (groupMembers db) (users db) (authz db) x.

(** ** Errors *)

(** The sentinels of the package; [ErrAuthz] is an error of the tuple store and
    [ErrDatabase] any other database error. *)
Inductive org_error : Type :=
| ValidationError (field : string)
| ErrConflict
| ErrOrgUnitNotFound
| ErrOrgUnitHasChildren
| ErrOrgUnitHasMembers
| ErrMemberNotFound
| ErrPositionNotFound
| ErrAssignmentNotFound
| ErrAssignmentAlreadyEnded
| PositionBoundError (count : nat)
| PositionHeldError (assignmentID memberID : UUID)
| ReferencedError (table : string)
| ErrGroupNotFound
| ErrGroupMemberNotFound
| ErrGroupExternallyManaged
| ErrAuthz (e : store_error)
| ErrDatabase.

Definition ErrMemberInactive : org_error := ValidationError "memberId".
Definition ErrCrossCompanyAssignment : org_error := ValidationError "memberId".
Definition ErrUserNotConfirmed : org_error := ValidationError "kcSub".

(** ** Transactions *)

Record orgState := mkOrgTx { o_db : OrgDB; o_statements : nat }.
Abbreviation OrgTx A := (SE orgState org_error A).

Definition runOrg {A} (m : OrgTx A) (db : OrgDB) : result org_error (A * OrgDB) :=
  match m (mkOrgTx db 0) with
  | Ok (a, s) => Ok (a, o_db s)
  | Err e => Err e
  end.

(** A check that touches no table. *)
Definition check {A} (r : result org_error A) : OrgTx A :=
  fun s => match r with Ok a => Ok (a, s) | Err e => Err e end.

Section statements.
(** Which statements of the transaction fail. *)
Context (fails : nat -> bool).

(** One statement: it fails as a whole, or runs. *)
Definition statement {A} (f : OrgDB -> result org_error (A * OrgDB)) : OrgTx A :=
  fun s =>
    if fails (o_statements s) then Err ErrDatabase
    else match f (o_db s) with
         | Ok (a, db) => Ok (a, mkOrgTx db (S (o_statements s)))
         | Err e => Err e
         end.

(** A statement that only reads, and one that only writes. *)
Definition query {A} (f : OrgDB -> result org_error A) : OrgTx A :=
  statement (fun db => match f db with Ok a => Ok (a, db) | Err e => Err e end).
Definition execute (f : OrgDB -> result org_error OrgDB) : OrgTx unit :=
  statement (fun db => match f db with Ok db' => Ok (tt, db') | Err e => Err e end).

(** A piece of the tuple store, in the same transaction. *)
Definition viaAuthz {A} (m : Tx A) : OrgTx A :=
  fun s =>
    match m (mkTx (authz (o_db s)) (o_statements s)) with
    | Ok (a, t) => Ok (a, mkOrgTx (with_authz (o_db s) (tx_db t)) (statements t))
    | Err e => Err (ErrAuthz e)
    end.

(** [audit.Record] *)
Definition record (actor action subject : string) : OrgTx unit :=
  execute (fun db => Ok (with_orgAudit db (orgAudit db ++ [mkOrgEvent actor action subject]))).
End statements.

(** READ COMMITTED: a SELECT that locks nothing finds the rows that are committed when it
    starts, and others may commit before the transaction writes.  The writes lock their rows
    until the commit, so they are taken to happen at the commit; [seen n] is the database
    that statement [n] finds when it is such a SELECT. *)
Definition unlocked {A} (seen : nat -> OrgDB) (m : OrgTx A) : OrgTx A :=
  fun s =>
    match m (mkOrgTx (seen (o_statements s)) (o_statements s)) with
    | Ok (a, s') => Ok (a, mkOrgTx (o_db s) (o_statements s'))
    | Err e => Err e
    end.

(** ** Codes and names *)

Section codes.
Context `{Unicode}.

(** [normalizeCode] *)
Definition normalizeCode (code : string) : string := Join (Fields (ToUpper (TrimSpace code))) "-".
End codes.

(** [codeNamePattern]: ^[A-Z0-9_-]{2,32}$ *)
Definition codeNamePattern (code : string) : bool := matchesCode 2 32 code.

(** [validateCode] *)
Definition validateCode (field code : string) : result org_error unit :=
  if negb (codeNamePattern code) then Err (ValidationError field) else Ok tt.

(** [validateNameLen], in bytes. *)
Definition validateNameLen (field name : string) (lo hi : nat) : result org_error unit :=
  let n := String.length name in
  if (n <? lo)%nat || (hi <? n)%nat then Err (ValidationError field) else Ok tt.

(** [checkCompanyIsRoot] *)
Definition checkCompanyIsRoot (isCompany : bool) (parentID : option UUID) : result org_error unit :=
  match isCompany, parentID with
  | true, Some _ => Err (ValidationError "parentId")
  | false, None => Err (ValidationError "parentId")
  | _, _ => Ok tt
  end.

(** ** Pagination *)

Definition maxPage : Z := 10000.
Definition maxPageSize : Z := 100.

(** [clampPage] *)
Definition clampPage (page pageSize : Z) : Z * Z :=
  let page1 := if (page <? 1)%Z then 1%Z else page in
  let page2 := if (maxPage <? page1)%Z then maxPage else page1 in
  let size1 := if (pageSize <? 1)%Z then 25%Z else pageSize in
  let size2 := if (maxPageSize <? size1)%Z then maxPageSize else size1 in
  (page2, size2).

(** The conversion int32(x), which wraps. *)
Definition int32 (x : Z) : Z := ((x + 2147483648) mod 4294967296 - 2147483648)%Z.

(** [pageWindow]: LIMIT and OFFSET. *)
Definition pageWindow (page pageSize : Z) : Z * Z :=
  let '(p, n) := clampPage page pageSize in (int32 n, int32 ((p - 1) * n)).

(** ** Statements with their constraints *)

Definition is_company (db : OrgDB) (id : UUID) : bool :=
  match units db !! id with
  | Some u => default false (unitTypes db !! u_type u)
  | None => false
  end.

(** UNIQUE (parent_id, code), roots among themselves; [except] is the row itself. *)
Definition unit_code_taken (us : Units) (parent : option UUID) (code : string) (except : UUID) : bool :=
  existsb (fun kv => bool_decide (u_parent kv.2 = parent /\ u_code kv.2 = code /\ kv.1 <> except)) (map_to_list us).

Definition unit_name_ok (u : OrgUnit) : bool := (2 <=? charLength (u_name u)) && (charLength (u_name u) <=? 120).

Definition parent_exists (us : Units) (parent : option UUID) : bool :=
  match parent with None => true | Some p => bool_decide (is_Some (us !! p)) end.

(** INSERT INTO org.org_unit *)
Definition insertUnit (id : UUID) (u : OrgUnit) (db : OrgDB) : result org_error OrgDB :=
  if cycleTrigger (units db) id (u_parent u) then Err (ValidationError "")
  else if negb (unit_name_ok u) then Err (ValidationError "name")
  else if bool_decide (is_Some (units db !! id)) then Err ErrConflict
  else if unit_code_taken (units db) (u_parent u) (u_code u) id then Err ErrConflict
  else if negb (parent_exists (units db) (u_parent u)) then Err (ValidationError "parentId")
  else Ok (with_units db (<[id := u]> (units db))).

(** UPDATE org.org_unit: the trigger that keeps positions under their company
    (migrations/org/0005) refuses less than the store's own check before it. *)
Definition updateUnit (id : UUID) (u : OrgUnit) (db : OrgDB) : result org_error OrgDB :=
  match units db !! id with
  | None => Err ErrOrgUnitNotFound
  | Some old =>
      if negb (bool_decide (u_parent old = u_parent u)) && cycleTrigger (units db) id (u_parent u)
      then Err (ValidationError "")
      else if negb (unit_name_ok u) then Err (ValidationError "name")
      else if unit_code_taken (units db) (u_parent u) (u_code u) id then Err ErrConflict
      else if negb (parent_exists (units db) (u_parent u)) then Err (ValidationError "parentId")
      else Ok (with_units db (<[id := u]> (units db)))
  end.

(** DELETE FROM org.org_unit, with the foreign keys that refer to it. *)
Definition deleteUnit (id : UUID) (db : OrgDB) : result org_error OrgDB :=
  match units db !! id with
  | None => Err ErrOrgUnitNotFound
  | Some _ =>
      if existsb (fun kv => bool_decide (p_company kv.2 = id \/ p_unit kv.2 = id)) (map_to_list (positions db))
      then Err (ReferencedError "position")
      else if existsb (fun kv => bool_decide (g_company kv.2 = id)) (map_to_list (groups db))
      then Err (ReferencedError "group")
      else Ok (with_units db (delete id (units db)))
  end.

Definition member_code_taken (db : OrgDB) (companyID : UUID) (code : string) : bool :=
  existsb (fun kv => bool_decide (m_company kv.2 = companyID /\ m_code kv.2 = code)) (map_to_list (members db)).

(** INSERT INTO org.member: its company must be a company-typed unit. *)
Definition insertMember (id : UUID) (m : Member) (db : OrgDB) : result org_error OrgDB :=
  if negb (is_company db (m_company m)) then Err (ValidationError "")
  else if bool_decide (is_Some (members db !! id)) || member_code_taken db (m_company m) (m_code m) then Err ErrConflict
  else Ok (with_members db (<[id := m]> (members db))).

(** UNIQUE (company_id, user_id) where a user is linked. *)
Definition user_taken (db : OrgDB) (companyID uid except : UUID) : bool :=
  existsb (fun kv => bool_decide (m_company kv.2 = companyID /\ m_user kv.2 = Some uid /\ kv.1 <> except))
    (map_to_list (members db)).

Definition set_user (uid : option UUID) (m : Member) : Member :=
  mkMember (m_company m) (m_code m) (m_display m) (m_email m) uid (m_active m) (m_guest m).

(** UPDATE org.member SET user_id ... RETURNING *)
Definition linkMemberUser (id uid : UUID) (db : OrgDB) : result org_error (Member * OrgDB) :=
  match members db !! id with
  | None => Err ErrDatabase
  | Some m =>
      if user_taken db (m_company m) uid id then Err ErrConflict
      else let after := set_user (Some uid) m in Ok (after, with_members db (<[id := after]> (members db)))
  end.

Definition position_code_taken (db : OrgDB) (companyID : UUID) (code : string) : bool :=
  existsb (fun kv => bool_decide (p_company kv.2 = companyID /\ p_code kv.2 = code)) (map_to_list (positions db)).

(** INSERT INTO org.position, with the trigger of migrations/org/0004. *)
Definition insertPosition (id : UUID) (p : Position) (db : OrgDB) : result org_error OrgDB :=
  if negb (is_company db (p_company p)) then Err (ValidationError "")
  else if negb (orgUnitUnderCompany (units db) (p_unit p) (p_company p)) then Err (ValidationError "")
  else if bool_decide (is_Some (positions db !! id)) || position_code_taken db (p_company p) (p_code p) then Err ErrConflict
  else Ok (with_positions db (<[id := p]> (positions db))).

(** DELETE FROM org.position *)
Definition deletePosition (id : UUID) (db : OrgDB) : result org_error OrgDB :=
  if existsb (fun kv => bool_decide (as_position kv.2 = id)) (map_to_list (assignments db))
  then Err (ReferencedError "position_assignment")
  else match positions db !! id with
       | None => Err ErrPositionNotFound
       | Some _ => Ok (with_positions db (delete id (positions db)))
       end.

(** [d] is before the (exclusive) end of a window. *)
Definition before_end (d : Date) (to : option Date) : Prop := match to with None => True | Some t => (d < t)%Z end.
#[export] Instance before_end_dec d to : Decision (before_end d to).
Proof. destruct to; simpl; apply _. Defined.

(** daterange(valid_from, valid_to, '[)') && ... on one position. *)
Definition overlaps (a b : Assignment) : Prop :=
  as_position a = as_position b /\
  before_end (as_from a) (as_to a) /\ before_end (as_from b) (as_to b) /\
  before_end (as_from a) (as_to b) /\ before_end (as_from b) (as_to a).
#[export] Instance overlaps_dec a b : Decision (overlaps a b).
Proof. unfold overlaps. apply _. Defined.

Definition overlapping (db : OrgDB) (a : Assignment) (except : UUID) : bool :=
  existsb (fun kv => bool_decide (overlaps a kv.2 /\ kv.1 <> except)) (map_to_list (assignments db)).

Definition window_ok (a : Assignment) : bool :=
  match as_to a with None => true | Some t => (as_from a <=? t)%Z end.

(** INSERT INTO org.position_assignment, with the trigger of migrations/org/0004 and
    the exclusion constraint of 0009. *)
Definition insertAssignment (id : UUID) (a : Assignment) (db : OrgDB) : result org_error OrgDB :=
  if negb (bool_decide (p_company <$> positions db !! as_position a = m_company <$> members db !! as_member a))
  then Err (ValidationError "")
  else if negb (window_ok a) then Err (ValidationError "validFrom")
  else if bool_decide (is_Some (assignments db !! id)) || overlapping db a id then Err ErrConflict
  else if negb (bool_decide (is_Some (positions db !! as_position a))) then Err (ValidationError "validFrom")
  else Ok (with_assignments db (<[id := a]> (assignments db))).

Definition set_to (t : Date) (a : Assignment) : Assignment :=
  mkAssignment (as_position a) (as_member a) (as_from a) (Some t).

(** UPDATE org.position_assignment SET valid_to ... RETURNING *)
Definition updateAssignment (id : UUID) (t : Date) (db : OrgDB) : result org_error (Assignment * OrgDB) :=
  match assignments db !! id with
  | None => Err ErrAssignmentNotFound
  | Some a =>
      if negb (window_ok (set_to t a)) then Err (ValidationError "validFrom")
      else if overlapping db (set_to t a) id then Err ErrConflict
      else Ok (set_to t a, with_assignments db (<[id := set_to t a]> (assignments db)))
  end.

(** GetAssignmentOnDate *)
Definition holds_on (positionID : UUID) (d : Date) (a : Assignment) : Prop :=
  as_position a = positionID /\ (as_from a <= d)%Z /\ before_end d (as_to a).
#[export] Instance holds_on_dec p d a : Decision (holds_on p d a).
Proof. unfold holds_on. apply _. Defined.

Definition assignmentOnDate (db : OrgDB) (positionID : UUID) (d : Date) : option (UUID * Assignment) :=
  snd <$> list_find (fun kv => holds_on positionID d kv.2) (map_to_list (assignments db)).

Definition group_code_taken (db : OrgDB) (companyID : UUID) (code : string) : bool :=
  existsb (fun kv => bool_decide (g_company kv.2 = companyID /\ g_code kv.2 = code)) (map_to_list (groups db)).

(** INSERT INTO org.group *)
Definition insertGroup (id : UUID) (g : Group) (db : OrgDB) : result org_error OrgDB :=
  if negb (is_company db (g_company g)) then Err (ValidationError "")
  else if bool_decide (is_Some (groups db !! id)) || group_code_taken db (g_company g) (g_code g) then Err ErrConflict
  else Ok (with_groups db (<[id := g]> (groups db))).

(** UPDATE org.member: NULL keeps the guest flag. *)
Definition editMember (displayName : string) (email : option string) (isActive : bool) (isGuest : option bool)
    (m : Member) : Member :=
  mkMember (m_company m) (m_code m) displayName email (m_user m) isActive (default (m_guest m) isGuest).

(** UPDATE ... RETURNING on org.member; the callers have read the row before. *)
Definition updateMember (id : UUID) (f : Member -> Member) (db : OrgDB) : result org_error (Member * OrgDB) :=
  match members db !! id with
  | None => Err ErrDatabase
  | Some m => Ok (f m, with_members db (<[id := f m]> (members db)))
  end.

(** UPDATE org.position, with the trigger of migrations/org/0004. *)
Definition updatePosition (id : UUID) (title : string) (orgUnitID : UUID) (db : OrgDB)
    : result org_error (Position * OrgDB) :=
  match positions db !! id with
  | None => Err ErrPositionNotFound
  | Some p =>
      let p' := mkPosition (p_company p) (p_code p) title orgUnitID in
      if negb (is_company db (p_company p)) then Err (ValidationError "")
      else if negb (orgUnitUnderCompany (units db) orgUnitID (p_company p)) then Err (ValidationError "")
      else Ok (p', with_positions db (<[id := p']> (positions db)))
  end.

(** INSERT INTO org.group_member ON CONFLICT DO NOTHING, with the trigger of
    migrations/org/0010: whether a row was inserted. *)
Definition addGroupMember (groupID memberID : UUID) (addedBy : string) (db : OrgDB) : result org_error (bool * OrgDB) :=
  if negb (bool_decide (g_company <$> groups db !! groupID = m_company <$> members db !! memberID))
  then Err (ValidationError "")
  else if bool_decide (is_Some (groupMembers db !! (groupID, memberID))) then Ok (false, db)
  else if negb (bool_decide (is_Some (groups db !! groupID))) then Err (ValidationError "")
  else Ok (true, with_groupMembers db (<[(groupID, memberID) := addedBy]> (groupMembers db))).

(** DELETE FROM org.group_member *)
Definition removeGroupMember (groupID memberID : UUID) (db : OrgDB) : result org_error (bool * OrgDB) :=
  match groupMembers db !! (groupID, memberID) with
  | None => Ok (false, db)
  | Some _ => Ok (true, with_groupMembers db (delete (groupID, memberID) (groupMembers db)))
  end.

(** CountOtherOpenAssignments: whether the count is zero. *)
Definition otherOpen (db : OrgDB) (id positionID memberID : UUID) : bool :=
  existsb (fun kv => bool_decide (as_position kv.2 = positionID /\ as_member kv.2 = memberID /\
                                  as_to kv.2 = None /\ kv.1 <> id)) (map_to_list (assignments db)).

(** [subtreeHasPositions]: a position whose unit has [id] among its ancestors. *)
Definition subtreeHasPositions (db : OrgDB) (id : UUID) : bool :=
  existsb (fun kv => bool_decide (id ∈ chain (units db) (p_unit kv.2))) (map_to_list (positions db)).

(** GetIdentityUserByKcSub *)
Definition userByKcSub (db : OrgDB) (kcSub : string) : option UUID :=
  (fun x => x.2.1) <$> list_find (fun kv => kv.2 = kcSub) (map_to_list (users db)).

(** The kc_sub of GetMemberWithUser's LEFT JOIN. *)
Definition memberKcSub (db : OrgDB) (m : Member) : option string := m_user m ≫= (fun uid => users db !! uid).

(** GetMemberByCompanyAndKcSub *)
Definition memberByKcSub (db : OrgDB) (companyID : UUID) (kcSub : string) : option (UUID * Member) :=
  snd <$> list_find (fun kv => m_company kv.2 = companyID /\ memberKcSub db kv.2 = Some kcSub) (map_to_list (members db)).
