(* ===== verification/OrgStore.v ===== *)
(** * The org store

    The methods of internal/org/store.go, group.go and handover.go that change state or
    answer the authorization service, with authzdefaultgrant.go.  A method is one
    transaction over the tables of [Org] and, through [TupleStore], the tuples that
    stand for their rows; it commits as a whole or ends with an error and no change,
    and any statement may fail.  The transactions run at READ COMMITTED: what a SELECT
    without a lock finds may be out of date when the transaction writes ([unlocked]), while
    what is read under org.lock_org_tree(), which every write to units, positions and
    assignments takes, or FOR UPDATE is not.  The id a row gets, today's date in the tenant's time
    zone, identity's answer and the enabled modules (registry's table) are arguments;
    the payload of an audit event is not kept. *)

From stdpp Require Import base gmap strings list.
From S2P Require Import Prelude GoStrings Tuple TupleStore OrgTree Org.

Section store.
Context `{UC : Unicode} `{UT : UUIDText} (fails : nat -> bool) (seen : nat -> OrgDB).
Abbreviation unlocked := (unlocked seen).

(** ** The tuples of the org facts *)

(** [companyMemberTuple] *)
Definition companyMemberTuple (companyID memberID : UUID) : Tuple :=
  mkTuple "company" (uuidString companyID) "member" "member" (uuidString memberID) "mapped_user".

(** [orgObjectCompanyTuple] *)
Definition orgObjectCompanyTuple (objType : string) (id companyID : UUID) : Tuple :=
  mkTuple objType (uuidString id) "company" "company" (uuidString companyID) "".

(** member:<id>#mapped_user @ user:<kcSub> *)
Definition mappedUserTuple (memberID : UUID) (kcSub : string) : Tuple :=
  mkTuple "member" (uuidString memberID) "mapped_user" "user" kcSub "".

(** position:<id>#holder @ member:<id>#mapped_user *)
Definition holderTuple (positionID memberID : UUID) : Tuple :=
  mkTuple "position" (uuidString positionID) "holder" "member" (uuidString memberID) "mapped_user".

(** group:<id>#member @ member:<id>#mapped_user *)
Definition groupMemberTuple (groupID memberID : UUID) : Tuple :=
  mkTuple "group" (uuidString groupID) "member" "member" (uuidString memberID) "mapped_user".

Definition grantTuple (actor : string) (t : Tuple) : OrgTx unit := viaAuthz (Grant fails actor "" [t]).
Definition revokeTuple (actor : string) (t : Tuple) : OrgTx unit :=
  viaAuthz (RevokePositionOrMemberTuple fails actor "" t).

(** ** Reads inside a transaction *)

Definition found {A} (o : option A) (e : org_error) : result org_error A :=
  match o with Some a => Ok a | None => Err e end.

(** SELECT org.lock_org_tree(), and SELECT ... FOR UPDATE. *)
Definition lock : OrgTx unit := query fails (fun _ => Ok tt).

Definition getOrgUnit (id : UUID) : OrgTx OrgUnit := query fails (fun db => found (units db !! id) ErrOrgUnitNotFound).
Definition getMember (id : UUID) : OrgTx Member := query fails (fun db => found (members db !! id) ErrMemberNotFound).
Definition getPosition (id : UUID) : OrgTx Position := query fails (fun db => found (positions db !! id) ErrPositionNotFound).
Definition getAssignment (id : UUID) : OrgTx Assignment :=
  query fails (fun db => found (assignments db !! id) ErrAssignmentNotFound).
Definition getGroup (id : UUID) : OrgTx Group := query fails (fun db => found (groups db !! id) ErrGroupNotFound).

(** [require b e]: return e unless b. *)
Definition require (b : bool) (e : org_error) : OrgTx unit := check (if b then Ok tt else Err e).

(** ** Org units *)

(** The loop of [defaultGrantNewCompanyTx]. *)
Fixpoint ensureDefaultGrants (companyID : string) (moduleKeys : list string) : OrgTx unit :=
  match moduleKeys with
  | [] => tret tt
  | moduleKey :: rest =>
      let* _ := viaAuthz (EnsureDefaultGrant fails "org-default" "" companyID moduleKey) in
      ensureDefaultGrants companyID rest
  end.

(** [defaultGrantNewCompanyTx]; [enabled] is what [enabledModuleKeysTx] reads. *)
Definition defaultGrantNewCompanyTx (enabled : list string) (companyID : string) : OrgTx unit :=
  let* moduleKeys := query fails (fun _ => Ok enabled) in
  ensureDefaultGrants companyID moduleKeys.

(** [CreateOrgUnit] *)
Definition CreateOrgUnit (newID : UUID) (enabled : list string) (actor typeKey : string) (parentID : option UUID)
    (code name : string) (isActive : bool) : OrgTx (UUID * OrgUnit) :=
  let code := normalizeCode code in
  let name := TrimSpace name in
  let* _ := check (validateCode "code" code) in
  let* _ := check (validateNameLen "name" name 2 120) in
  let* isCompany := query fails (fun db => found (unitTypes db !! typeKey) (ValidationError "typeKey")) in
  let* _ := check (checkCompanyIsRoot isCompany parentID) in
  let unit := mkUnit typeKey parentID code name isActive in
  let* _ := execute fails (insertUnit newID unit) in
  let* _ := record fails actor "org.unit.create" ("org_unit:" +:+ uuidString newID) in
  let* _ := if isActive && isCompany then defaultGrantNewCompanyTx enabled (uuidString newID) else tret tt in
  tret (newID, unit).

(** The check of a move in [UpdateOrgUnit]: positions stay under their company. *)
Definition checkMove (id : UUID) (oldParentID parentID : option UUID) : OrgTx unit :=
  if bool_decide (oldParentID = parentID) then tret tt
  else
    let* oldRoot := query fails (fun db => found (resolveRootCompany (units db) id) ErrDatabase) in
    let* newRoot :=
      match parentID with
      | None => tret id
      | Some p => query fails (fun db => found (resolveRootCompany (units db) p) ErrDatabase)
      end in
    if bool_decide (oldRoot = newRoot) then tret tt
    else
      let* hasPositions := query fails (fun db => Ok (subtreeHasPositions db id)) in
      require (negb hasPositions) (ValidationError "parentId").

(** [UpdateOrgUnit] *)
Definition UpdateOrgUnit (enabled : list string) (actor : string) (id : UUID) (parentID : option UUID)
    (code name : string) (isActive : bool) : OrgTx OrgUnit :=
  let code := normalizeCode code in
  let name := TrimSpace name in
  let* _ := check (validateCode "code" code) in
  let* _ := check (validateNameLen "name" name 2 120) in
  let* _ := require (negb (bool_decide (parentID = Some id))) (ValidationError "parentId") in
  let* _ := lock in
  let* _ :=
    match parentID with
    | None => tret tt
    | Some p =>
        let* subtree := query fails (fun db => Ok (SubtreeOrgUnits (units db) id)) in
        require (negb (bool_decide (p ∈ subtree.*1))) (ValidationError "parentId")
    end in
  let* existing := getOrgUnit id in
  let* isCompany := query fails (fun db => found (unitTypes db !! u_type existing) ErrDatabase) in
  let* _ := check (checkCompanyIsRoot isCompany parentID) in
  let* _ := checkMove id (u_parent existing) parentID in
  let unit := mkUnit (u_type existing) parentID code name isActive in
  let* _ := execute fails (updateUnit id unit) in
  let* _ := record fails actor "org.unit.update" ("org_unit:" +:+ uuidString id) in
  let* _ := if isCompany && negb (u_active existing) && isActive
            then defaultGrantNewCompanyTx enabled (uuidString id) else tret tt in
  tret unit.

(** [DeleteOrgUnit] *)
Definition DeleteOrgUnit (actor : string) (id : UUID) : OrgTx unit :=
  let* _ := lock in
  let* children := query fails (fun db =>
    Ok (existsb (fun kv => bool_decide (u_parent kv.2 = Some id)) (map_to_list (units db)))) in
  let* _ := require (negb children) ErrOrgUnitHasChildren in
  let* hasMembers := query fails (fun db =>
    Ok (existsb (fun kv => bool_decide (m_company kv.2 = id)) (map_to_list (members db)))) in
  let* _ := require (negb hasMembers) ErrOrgUnitHasMembers in
  let* _ := execute fails (deleteUnit id) in
  record fails actor "org.unit.delete" ("org_unit:" +:+ uuidString id).

(** ** Members *)

(** [auditMemberMutation] *)
Definition auditMemberMutation (actor action : string) (memberID : UUID) : OrgTx unit :=
  record fails actor action ("member:" +:+ uuidString memberID).

(** [CreateMember] *)
Definition CreateMember (newID : UUID) (actor : string) (companyID : UUID) (code displayName email : string)
    (isActive isGuest : bool) : OrgTx (UUID * Member) :=
  let code := normalizeCode code in
  let displayName := TrimSpace displayName in
  let* _ := check (validateCode "code" code) in
  let* _ := check (validateNameLen "displayName" displayName 1 120) in
  let m := mkMember companyID code displayName (nullable email) None isActive isGuest in
  let* _ := execute fails (insertMember newID m) in
  let* _ := if isActive then grantTuple actor (companyMemberTuple companyID newID) else tret tt in
  let* _ := auditMemberMutation actor "org.member.create" newID in
  tret (newID, m).

(** [UpdateMember] *)
Definition UpdateMember (actor : string) (id : UUID) (displayName email : string) (isActive : bool)
    (isGuest : option bool) : OrgTx Member :=
  let displayName := TrimSpace displayName in
  let* _ := check (validateNameLen "displayName" displayName 1 120) in
  let* before := unlocked (getMember id) in
  let* after := statement fails (updateMember id (editMember displayName (nullable email) isActive isGuest)) in
  let* _ :=
    match m_active before, m_active after with
    | false, true => grantTuple actor (companyMemberTuple (m_company after) id)
    | true, false => revokeTuple actor (companyMemberTuple (m_company after) id)
    | _, _ => tret tt
    end in
  let* _ := auditMemberMutation actor "org.member.update" id in
  tret after.

(** [LinkUser]; [exists_] is identity's answer, [None] when it could not be asked.  Accounts
    are neither removed nor renamed, so the one that is found still is when the row is
    written. *)
Definition LinkUser (actor : string) (exists_ : option bool) (memberID : UUID) (kcSub : string) : OrgTx Member :=
  let* _ := require (default false exists_) ErrUserNotConfirmed in
  let* userID := query fails (fun db => found (userByKcSub db kcSub) ErrUserNotConfirmed) in
  let* before := unlocked (getMember memberID) in
  let* after := statement fails (linkMemberUser memberID userID) in
  let* _ := grantTuple actor (mappedUserTuple memberID kcSub) in
  let* _ := auditMemberMutation actor "org.member.link_user" memberID in
  tret after.

(** [UnlinkUser] *)
Definition UnlinkUser (actor : string) (memberID : UUID) : OrgTx Member :=
  let* '(before, kcSub) := unlocked (query fails (fun db =>
    found ((fun m => (m, default "" (memberKcSub db m))) <$> members db !! memberID) ErrMemberNotFound)) in
  let* after := statement fails (updateMember memberID (set_user None)) in
  let* _ := if bool_decide (is_Some (m_user before)) && negb (seqb kcSub "")
            then revokeTuple actor (mappedUserTuple memberID kcSub) else tret tt in
  let* _ := auditMemberMutation actor "org.member.unlink_user" memberID in
  tret after.

(** ** Positions *)

(** [CreatePosition] *)
Definition CreatePosition (newID : UUID) (actor : string) (companyID : UUID) (code title : string)
    (orgUnitID : UUID) : OrgTx (UUID * Position) :=
  let code := normalizeCode code in
  let title := TrimSpace title in
  let* _ := check (validateCode "code" code) in
  let* _ := check (validateNameLen "title" title 1 120) in
  let* _ := lock in
  let* under := query fails (fun db => Ok (orgUnitUnderCompany (units db) orgUnitID companyID)) in
  let* _ := require under (ValidationError "orgUnitId") in
  let p := mkPosition companyID code title orgUnitID in
  let* _ := execute fails (insertPosition newID p) in
  let* _ := grantTuple actor (orgObjectCompanyTuple "position" newID companyID) in
  let* _ := record fails actor "org.position.create" ("position:" +:+ uuidString newID) in
  tret (newID, p).

(** [UpdatePosition] *)
Definition UpdatePosition (actor : string) (id : UUID) (title : string) (orgUnitID : UUID) : OrgTx Position :=
  let title := TrimSpace title in
  let* _ := check (validateNameLen "title" title 1 120) in
  let* _ := lock in
  let* existing := getPosition id in
  let* under := query fails (fun db => Ok (orgUnitUnderCompany (units db) orgUnitID (p_company existing))) in
  let* _ := require under (ValidationError "orgUnitId") in
  let* position := statement fails (updatePosition id title orgUnitID) in
  let* _ := record fails actor "org.position.update" ("position:" +:+ uuidString id) in
  tret position.

(** Tuples that name position:<id>#holder as their subject. *)
Definition holder_bound (id : UUID) (t : Tuple) : Prop :=
  SubjectType t = "position" /\ SubjectID t = uuidString id /\ SubjectRelation t = "holder".
#[export] Instance holder_bound_dec id t : Decision (holder_bound id t).
Proof. unfold holder_bound. apply _. Defined.

(** [DeletePosition] *)
Definition DeletePosition (actor : string) (id : UUID) : OrgTx unit :=
  let* existing := getPosition id in
  let* boundCount := unlocked (query fails (fun db => Ok (size (filter (holder_bound id) (tuples (authz db)))))) in
  let* _ := require (boundCount =? 0)%nat (PositionBoundError boundCount) in
  let* _ := revokeTuple actor (orgObjectCompanyTuple "position" id (p_company existing)) in
  let* _ := execute fails (deletePosition id) in
  record fails actor "org.position.delete" ("position:" +:+ uuidString id).

(** ** Assignments *)

Context (today : Date).

(** [today] *)
Definition readToday : OrgTx Date := query fails (fun _ => Ok today).

(** The member of an assignment or a group: active, of the given company. *)
Definition activeMember (memberID : UUID) : OrgTx Member :=
  let* member := unlocked (getMember memberID) in
  let* _ := require (m_active member) ErrMemberInactive in
  tret member.

(** [createAssignmentTx] *)
Definition createAssignmentTx (newID : UUID) (actor : string) (positionID memberID : UUID) (validFrom : Date)
    : OrgTx (UUID * Assignment) :=
  let a := mkAssignment positionID memberID validFrom None in
  let* _ := execute fails (insertAssignment newID a) in
  let* _ := grantTuple actor (holderTuple positionID memberID) in
  let* _ := record fails actor "org.assignment.create" ("assignment:" +:+ uuidString newID) in
  tret (newID, a).

(** [AssignNow] *)
Definition AssignNow (newID : UUID) (actor : string) (positionID memberID : UUID) : OrgTx (UUID * Assignment) :=
  let* _ := lock in
  let* member := activeMember memberID in
  let* position := getPosition positionID in
  let* _ := require (bool_decide (p_company position = m_company member)) ErrCrossCompanyAssignment in
  let* validFrom := readToday in
  let* held := query fails (fun db => Ok (assignmentOnDate db positionID validFrom)) in
  match held with
  | Some (heldID, a) => tfail (PositionHeldError heldID (as_member a))
  | None => createAssignmentTx newID actor positionID memberID validFrom
  end.

(** [endAssignmentTx] *)
Definition endAssignmentTx (actor : string) (id : UUID) (validTo : Date) : OrgTx (UUID * Assignment) :=
  let* assignment := statement fails (updateAssignment id validTo) in
  let* other := query fails (fun db => Ok (otherOpen db id (as_position assignment) (as_member assignment))) in
  let* _ := if (other : bool) then tret tt
            else revokeTuple actor (holderTuple (as_position assignment) (as_member assignment)) in
  let* _ := record fails actor "org.assignment.end" ("assignment:" +:+ uuidString id) in
  tret (id, assignment).

(** [EndAssignment] *)
Definition EndAssignment (actor : string) (id : UUID) : OrgTx (UUID * Assignment) :=
  let* existing := unlocked (getAssignment id) in
  let* _ := require (bool_decide (as_to existing = None)) ErrAssignmentAlreadyEnded in
  let* validTo := readToday in
  let* _ := require (negb (validTo <? as_from existing)%Z) (ValidationError "validTo") in
  endAssignmentTx actor id validTo.

(** [Handover] *)
Definition Handover (newID : UUID) (actor : string) (positionID memberID : UUID) (expected : option UUID)
    : OrgTx (option (UUID * Assignment) * (UUID * Assignment)) :=
  let* _ := lock in
  let* member := activeMember memberID in
  let* position := getPosition positionID in
  let* _ := require (bool_decide (p_company position = m_company member)) ErrCrossCompanyAssignment in
  let* day := readToday in
  let* '(heldID, held) := query fails (fun db => found (assignmentOnDate db positionID day) (ValidationError "positionId")) in
  if bool_decide (as_member held = memberID) then tret (None, (heldID, held))
  else
    let* _ := require (bool_decide (expected = None \/ expected = Some heldID)) (PositionHeldError heldID (as_member held)) in
    let* ended := endAssignmentTx actor heldID day in
    let* created := createAssignmentTx newID actor positionID memberID day in
    tret (Some ended, created).

(** [CreateAndAssign] *)
Definition CreateAndAssign (newPosition newAssignment : UUID) (actor : string) (companyID : UUID) (code title : string)
    (orgUnitID memberID : UUID) (validFrom : Date) (validTo : option Date) : OrgTx ((UUID * Position) * (UUID * Assignment)) :=
  let code := normalizeCode code in
  let title := TrimSpace title in
  let* _ := check (validateCode "code" code) in
  let* _ := check (validateNameLen "title" title 1 120) in
  let* todayDate := readToday in
  let* _ := require (negb (todayDate <? validFrom)%Z) (ValidationError "validFrom") in
  let* _ := lock in
  let* under := query fails (fun db => Ok (orgUnitUnderCompany (units db) orgUnitID companyID)) in
  let* _ := require under (ValidationError "orgUnitId") in
  let* memberCompany := unlocked (query fails (fun db => Ok (m_company <$> members db !! memberID))) in
  let* _ := require (bool_decide (memberCompany = None \/ memberCompany = Some companyID)) ErrCrossCompanyAssignment in
  let p := mkPosition companyID code title orgUnitID in
  let* _ := execute fails (insertPosition newPosition p) in
  let a := mkAssignment newPosition memberID validFrom validTo in
  let* _ := execute fails (insertAssignment newAssignment a) in
  let* _ := if negb (todayDate <? validFrom)%Z && bool_decide (before_end todayDate validTo)
            then grantTuple actor (holderTuple newPosition memberID) else tret tt in
  let* _ := record fails actor "org.position.create_and_assign" ("position:" +:+ uuidString newPosition) in
  tret ((newPosition, p), (newAssignment, a)).

(** [AssignmentOnDate] *)
Definition AssignmentOnDate (positionID : UUID) (date : Date) : OrgTx (UUID * Assignment) :=
  query fails (fun db => found (assignmentOnDate db positionID date) ErrAssignmentNotFound).

(** ** Groups *)

(** [CreateGroup] *)
Definition CreateGroup (newID : UUID) (actor : string) (companyID : UUID) (code name : string) : OrgTx (UUID * Group) :=
  let code := normalizeCode code in
  let name := TrimSpace name in
  let* _ := check (validateCode "code" code) in
  let* _ := check (validateNameLen "name" name 1 120) in
  let g := mkGroup companyID code name "kiban" None true in
  let* _ := execute fails (insertGroup newID g) in
  let* _ := grantTuple actor (orgObjectCompanyTuple "group" newID companyID) in
  let* _ := record fails actor "org.group.create" ("group:" +:+ uuidString newID) in
  tret (newID, g).

(** [IsKibanManaged] *)
Definition IsKibanManaged (g : Group) : bool := seqb (g_source g) "kiban".

(** INSERT ... ON CONFLICT DO NOTHING: a row that it finds it neither changes nor locks. *)
Definition insertGroupMember (actor : string) (groupID memberID : UUID) : OrgTx bool :=
  let insert := statement fails (addGroupMember groupID memberID actor) in
  fun s => if bool_decide (is_Some (groupMembers (seen (o_statements s)) !! (groupID, memberID))) then unlocked insert s else insert s.

(** [AddGroupMember]: who added the stored row, the transaction's own or the one it finds. *)
Definition AddGroupMember (actor : string) (groupID memberID : UUID) : OrgTx string :=
  let* group := unlocked (getGroup groupID) in
  let* _ := require (IsKibanManaged group) ErrGroupExternallyManaged in
  let* member := activeMember memberID in
  let* _ := require (bool_decide (m_company member = g_company group)) ErrCrossCompanyAssignment in
  let* inserted := insertGroupMember actor groupID memberID in
  let getGroupMember := query fails (fun db => found (groupMembers db !! (groupID, memberID)) ErrDatabase) in
  let* stored := if (inserted : bool) then getGroupMember else unlocked getGroupMember in
  let* _ := grantTuple actor (groupMemberTuple groupID memberID) in
  let* _ := if (inserted : bool) then record fails actor "org.group.member_add" ("group:" +:+ uuidString groupID)
            else tret tt in
  tret stored.

(** [RemoveGroupMember] *)
Definition RemoveGroupMember (actor : string) (groupID memberID : UUID) : OrgTx unit :=
  let* group := unlocked (getGroup groupID) in
  let* _ := require (IsKibanManaged group) ErrGroupExternallyManaged in
  let* affected := statement fails (removeGroupMember groupID memberID) in
  let* _ := require affected ErrGroupMemberNotFound in
  let* _ := revokeTuple actor (groupMemberTuple groupID memberID) in
  record fails actor "org.group.member_remove" ("group:" +:+ uuidString groupID).

(** ** Facts for the authorization service *)

(** [CompanyState]: exists and is_active. *)
Definition CompanyState (id : UUID) : OrgTx (bool * bool) :=
  query fails (fun db =>
    match units db !! id with
    | Some u => if is_company db id then Ok (true, u_active u) else Ok (false, false)
    | None => Ok (false, false)
    end).

(** [MemberFact] *)
Record MemberFact := mkFact { IsMember : bool; IsActive : bool; IsGuest : bool; MemberID : option UUID }.

(** [MemberFactByKcSub] *)
Definition MemberFactByKcSub (companyID : UUID) (kcSub : string) : OrgTx MemberFact :=
  query fails (fun db =>
    match memberByKcSub db companyID kcSub with
    | Some (id, m) => Ok (mkFact true (m_active m) (m_guest m) (Some id))
    | None => Ok (mkFact false false false None)
    end).

(** [ListActiveCompaniesForKcSub], unordered. *)
Definition ListActiveCompaniesForKcSub (kcSub : string) : OrgTx (list (UUID * OrgUnit)) :=
  query fails (fun db => Ok (omap (fun kv : UUID * Member =>
    if bool_decide (memberKcSub db kv.2 = Some kcSub) && m_active kv.2
    then u ← units db !! m_company kv.2; if u_active u then Some (m_company kv.2, u) else None
    else None) (map_to_list (members db)))).
End store.
