(* ===== verification/OrgEffects.v ===== *)
(** * What each org method does

    For every method of [OrgStore], the effect of a committed call: which guards held,
    which rows changed and which tuples of the org relations are there afterwards.  The
    invariants of OrgProps are proved from these. *)

From stdpp Require Import base gmap strings list.
From S2P Require Import Prelude GoStrings Tuple TupleStore OrgTree Org OrgStore.

(** The relations org is the writer of. *)
Definition org_slot (t : Tuple) : bool :=
  existsb (fun '(ty, r) => seqb (ObjectType t) ty && seqb (Relation t) r)
    [("company", "member"); ("member", "mapped_user"); ("position", "holder"); ("position", "company");
     ("group", "member"); ("group", "company")].

(** The committed database is [x] with some audit rows, and its tuples of the org
    relations are those of [T]. *)
Definition outcome (x : OrgDB) (T : Tuple -> Prop) (db' : OrgDB) : Prop :=
  exists az au, db' = with_orgAudit (with_authz x az) au /\
    forall t, org_slot t = true -> t ∈ tuples az <-> T t.

(** The tuples before the method. *)
Abbreviation kept db := (fun t => t ∈ tuples (authz db)).

(** ** The statements *)

Lemma existsb_rows {K A} `{Countable K} (P : K * A -> Prop) `{forall x, Decision (P x)} (m : gmap K A) :
  existsb (fun kv => bool_decide (P kv)) (map_to_list m) = false <-> forall k v, m !! k = Some v -> ~ P (k, v).
Proof.
  rewrite <- not_true_iff_false, existsb_exists. split.
  - intros Hn k v Hk HP. apply Hn. exists (k, v). rewrite bool_decide_eq_true. split; [|done].
    by apply list_elem_of_In, elem_of_map_to_list.
  - intros Hn ([k v] & Hin%list_elem_of_In%elem_of_map_to_list & HP%bool_decide_eq_true). by apply (Hn k v).
Qed.

(** Splits a statement on its guards. *)
Ltac guards H :=
  repeat match type of H with
  | (if negb ?b then _ else _) = Ok _ => destruct b eqn:?; cbn [negb] in H; [|discriminate H]
  | (if ?b then _ else _) = Ok _ => destruct b eqn:?; [discriminate H|]
  | (match ?o with Some _ => _ | None => _ end) = Ok _ => destruct o eqn:?; [|discriminate H]
  end; simplify_eq;
  repeat match goal with
  | E : bool_decide _ = true |- _ => apply bool_decide_eq_true in E
  | E : bool_decide _ = false |- _ => apply bool_decide_eq_false in E
  | E : _ || _ = false |- _ => apply orb_false_iff in E as [? ?]
  end.

Lemma not_some {A} (o : option A) : ~ is_Some o -> o = None.
Proof. apply eq_None_not_Some. Qed.
#[local] Hint Resolve not_some : core.

Lemma insertUnit_ok id u db x :
  insertUnit id u db = Ok x ->
  units db !! id = None /\ cycleTrigger (units db) id (u_parent u) = false /\ parent_exists (units db) (u_parent u) = true /\
  unit_code_taken (units db) (u_parent u) (u_code u) id = false /\ x = with_units db (<[id := u]> (units db)).
Proof. unfold insertUnit. intros Hr. guards Hr. split_and!; auto. Qed.

Lemma updateUnit_ok id u db x :
  updateUnit id u db = Ok x ->
  exists old, units db !! id = Some old /\
    (u_parent old = u_parent u \/ cycleTrigger (units db) id (u_parent u) = false) /\
    parent_exists (units db) (u_parent u) = true /\
    unit_code_taken (units db) (u_parent u) (u_code u) id = false /\ x = with_units db (<[id := u]> (units db)).
Proof.
  unfold updateUnit. intros Hr. guards Hr. eexists. split; [done|]. split_and!; auto.
  match goal with E : _ && _ = false |- _ => apply andb_false_iff in E as [Hp|Hp]; [left|by right] end.
  by apply negb_false_iff, bool_decide_eq_true in Hp.
Qed.

Lemma deleteUnit_ok id db x :
  deleteUnit id db = Ok x ->
  is_Some (units db !! id) /\
  (forall k p, positions db !! k = Some p -> p_company p <> id /\ p_unit p <> id) /\
  (forall k g, groups db !! k = Some g -> g_company g <> id) /\ x = with_units db (delete id (units db)).
Proof.
  unfold deleteUnit. intros Hr. guards Hr. rewrite !existsb_rows in *. split_and!; eauto. naive_solver.
Qed.

Lemma insertMember_ok id m db x :
  insertMember id m db = Ok x ->
  is_company db (m_company m) = true /\ members db !! id = None /\
  member_code_taken db (m_company m) (m_code m) = false /\ x = with_members db (<[id := m]> (members db)).
Proof. unfold insertMember. intros Hr. guards Hr. split_and!; auto. Qed.

Lemma insertPosition_ok id p db x :
  insertPosition id p db = Ok x ->
  is_company db (p_company p) = true /\ orgUnitUnderCompany (units db) (p_unit p) (p_company p) = true /\
  positions db !! id = None /\ position_code_taken db (p_company p) (p_code p) = false /\
  x = with_positions db (<[id := p]> (positions db)).
Proof. unfold insertPosition. intros Hr. guards Hr. split_and!; auto. Qed.

Lemma updatePosition_ok id title orgUnitID db p x :
  updatePosition id title orgUnitID db = Ok (p, x) ->
  exists p0, positions db !! id = Some p0 /\ p = mkPosition (p_company p0) (p_code p0) title orgUnitID /\
    is_company db (p_company p0) = true /\ orgUnitUnderCompany (units db) orgUnitID (p_company p0) = true /\
    x = with_positions db (<[id := p]> (positions db)).
Proof. unfold updatePosition. intros Hr. guards Hr. eauto 10. Qed.

Lemma insertAssignment_ok id a db x :
  insertAssignment id a db = Ok x ->
  p_company <$> positions db !! as_position a = m_company <$> members db !! as_member a /\
  window_ok a = true /\ assignments db !! id = None /\ overlapping db a id = false /\
  is_Some (positions db !! as_position a) /\ x = with_assignments db (<[id := a]> (assignments db)).
Proof. unfold insertAssignment. intros Hr. guards Hr. split_and!; auto. Qed.

Lemma updateAssignment_ok id t db a x :
  updateAssignment id t db = Ok (a, x) ->
  exists a0, assignments db !! id = Some a0 /\ a = set_to t a0 /\ window_ok a = true /\ overlapping db a id = false /\
    x = with_assignments db (<[id := a]> (assignments db)).
Proof. unfold updateAssignment. intros Hr. guards Hr. eauto 10. Qed.

Lemma updateMember_ok id f db m x :
  updateMember id f db = Ok (m, x) ->
  exists m0, members db !! id = Some m0 /\ m = f m0 /\ x = with_members db (<[id := f m0]> (members db)).
Proof. unfold updateMember. intros Hr. guards Hr. eauto. Qed.

Lemma linkMemberUser_ok id uid db after x :
  linkMemberUser id uid db = Ok (after, x) ->
  exists m, members db !! id = Some m /\ user_taken db (m_company m) uid id = false /\ after = set_user (Some uid) m /\
    x = with_members db (<[id := set_user (Some uid) m]> (members db)).
Proof. unfold linkMemberUser. intros Hr. guards Hr. eauto. Qed.

Lemma insertGroup_ok id g db x :
  insertGroup id g db = Ok x ->
  is_company db (g_company g) = true /\ groups db !! id = None /\
  group_code_taken db (g_company g) (g_code g) = false /\ x = with_groups db (<[id := g]> (groups db)).
Proof. unfold insertGroup. intros Hr. guards Hr. split_and!; auto. Qed.

Lemma addGroupMember_ok groupID memberID by_ db inserted x :
  addGroupMember groupID memberID by_ db = Ok (inserted, x) ->
  (inserted = false /\ is_Some (groupMembers db !! (groupID, memberID)) /\ x = db) \/
  (inserted = true /\ groupMembers db !! (groupID, memberID) = None /\
   (exists g m, groups db !! groupID = Some g /\ members db !! memberID = Some m /\ g_company g = m_company m) /\
   x = with_groupMembers db (<[(groupID, memberID) := by_]> (groupMembers db))).
Proof.
  unfold addGroupMember. intros Hr. case_bool_decide as Hc; [|done]. cbn [negb] in Hr.
  case_bool_decide as Hin; [left; by simplify_eq|right]. guards Hr. split_and!; auto.
  match goal with H : is_Some (groups db !! _) |- _ => destruct H as [g Hg] end. rewrite Hg in Hc. simpl in Hc.
  destruct (members db !! memberID) as [m|]; [|done]. injection Hc as Hc. eauto.
Qed.

Section effects.
Context `{UC : Unicode} `{UT : UUIDText} (fails : nat -> bool).

Lemma statement_ok {A} (f : OrgDB -> result org_error (A * OrgDB)) db n a s' :
  statement fails f (mkOrgTx db n) = Ok (a, s') -> exists db', f db = Ok (a, db') /\ s' = mkOrgTx db' (S n).
Proof.
  unfold statement. simpl. destruct (fails n); [done|]. destruct (f db) as [[a' db']|e]; [|done].
  intros [= <- <-]. eauto.
Qed.

Lemma query_ok {A} (f : OrgDB -> result org_error A) db n a s' :
  query fails f (mkOrgTx db n) = Ok (a, s') -> f db = Ok a /\ s' = mkOrgTx db (S n).
Proof.
  intros (db' & E & ->)%statement_ok. destruct (f db); [|done]. by injection E as -> ->.
Qed.

Lemma execute_ok f db n a s' :
  execute fails f (mkOrgTx db n) = Ok (a, s') -> exists db', f db = Ok db' /\ s' = mkOrgTx db' (S n).
Proof.
  intros (db' & E & ->)%statement_ok. destruct (f db) as [db1|]; [|done]. injection E as <- <-. eauto.
Qed.

Lemma record_ok actor action subject db n a s' :
  record fails actor action subject (mkOrgTx db n) = Ok (a, s') -> exists au, s' = mkOrgTx (with_orgAudit db au) (S n).
Proof. intros (db' & [= <-] & ->)%execute_ok. eauto. Qed.

Lemma check_ok {A} (r : result org_error A) db n a s' :
  check r (mkOrgTx db n) = Ok (a, s') -> r = Ok a /\ s' = mkOrgTx db n.
Proof. unfold check. destruct r; [|done]. by intros [= <- <-]. Qed.

Lemma require_ok b e db n a s' : require b e (mkOrgTx db n) = Ok (a, s') -> b = true /\ s' = mkOrgTx db n.
Proof. intros [E ->]%check_ok. by destruct b. Qed.

Lemma unlocked_query_ok {A} seen (f : OrgDB -> result org_error A) db n a s' :
  unlocked seen (query fails f) (mkOrgTx db n) = Ok (a, s') -> f (seen n) = Ok a /\ s' = mkOrgTx db (S n).
Proof.
  unfold unlocked. simpl. destruct (query fails f (mkOrgTx (seen n) n)) as [[a' s1]|] eqn:E; [|done]. intros [= -> <-].
  by apply query_ok in E as [Hf ->].
Qed.

Lemma found_ok {A} (o : option A) e a : found o e = Ok a -> o = Some a.
Proof. destruct o; simpl; congruence. Qed.

Lemma grantTuple_ok actor t db n a s' :
  grantTuple fails actor t (mkOrgTx db n) = Ok (a, s') ->
  has_empty_field t = false /\
  exists az n', s' = mkOrgTx (with_authz db az) n' /\ tuples az = {[t]} ∪ tuples (authz db).
Proof.
  unfold grantTuple, viaAuthz. destruct (Grant fails actor "" [t] _) as [[a' s1]|] eqn:E; [|done].
  intros [= <- <-]. unfold Grant, writeTuples in E. destruct a'. split.
  - simpl in E. apply tbind_ok in E as ([] & s2 & E & _). unfold writeTuple in E. by destruct (has_empty_field t).
  - apply grantLoop_ok in E as (_ & E & _). eexists _, _. split; [done|]. rewrite E. simpl. clear. set_solver.
Qed.

Lemma revokeTuple_ok actor t db n a s' :
  revokeTuple fails actor t (mkOrgTx db n) = Ok (a, s') ->
  exists az n', s' = mkOrgTx (with_authz db az) n' /\ tuples az = tuples (authz db) ∖ {[t]}.
Proof.
  unfold revokeTuple, viaAuthz. destruct (RevokePositionOrMemberTuple _ _ _ _ _) as [[a' s1]|] eqn:E; [|done].
  intros [= <- <-]. unfold RevokePositionOrMemberTuple in E. destruct (has_empty_field t); [done|].
  apply exec_ok in E as (_ & E & _). simpl in E. destruct (org_shape t); [|done]. injection E as _ <-.
  eexists _, _. split; [done|]. done.
Qed.

Lemma EnsureDefaultGrant_org actor corrID companyID moduleKey s a s' :
  EnsureDefaultGrant fails actor corrID companyID moduleKey s = Ok (a, s') ->
  forall t, org_slot t = true -> t ∈ tuples (tx_db s') <-> t ∈ tuples (tx_db s).
Proof.
  unfold EnsureDefaultGrant. destruct (_ || _); [done|]. rewrite tbind_ok. intros ([] & s1 & H1 & H2) t Ht.
  assert (E1 : t ∈ tuples (tx_db s1) <-> t ∈ tuples (tx_db s)).
  { unfold EnsureCompanyModuleAnchor in H1. apply tbind_ok in H1 as (ex & s0 & H0%exec_ok & H1).
    destruct H0 as (_ & [= _ H0] & _). rewrite H0 in *. destruct ex; [by injection H1 as <-|].
    apply grantLoop_ok in H1 as (_ & -> & _). rewrite elem_of_union, elem_of_list_to_set, list_elem_of_singleton.
    split; [|by right]. intros [->|?]; [by vm_compute in Ht|done]. }
  apply tbind_ok in H2 as (cl & s2 & H2%exec_ok & H3). destruct H2 as (_ & H2 & _). unfold claimDefault in H2.
  rewrite <- E1. assert (E2 : tuples (tx_db s2) = tuples (tx_db s1)) by (case_decide; by injection H2 as _ <-).
  rewrite <- E2. destruct cl; [|by injection H3 as _ <-].
  apply tbind_ok in H3 as ([] & s3 & H3 & H4). injection H4 as _ <-.
  apply grantLoop_ok in H3 as (_ & -> & _). rewrite elem_of_union, elem_of_list_to_set, list_elem_of_singleton.
  split; [|by right]. intros [->|?]; [by vm_compute in Ht|done].
Qed.

Lemma defaultGrants_ok enabled companyID db n a s' :
  defaultGrantNewCompanyTx fails enabled companyID (mkOrgTx db n) = Ok (a, s') ->
  exists az n', s' = mkOrgTx (with_authz db az) n' /\
    forall t, org_slot t = true -> t ∈ tuples az <-> t ∈ tuples (authz db).
Proof.
  unfold defaultGrantNewCompanyTx. rewrite tbind_ok. intros (keys & s1 & [_ ->]%query_ok & Hl).
  generalize dependent (S n). revert db. induction keys as [|k keys IH]; intros db n' Hl; simpl in Hl.
  - injection Hl as <- <-. exists (authz db), n'. split; [|done]. by destruct db.
  - apply tbind_ok in Hl as (b & s2 & Hv & Hl). unfold viaAuthz in Hv.
    destruct (EnsureDefaultGrant _ _ _ _ _ _) as [[b' s1]|] eqn:E; [|done]. injection Hv as _ <-.
    destruct (IH _ _ Hl) as (az & n2 & -> & Haz). eexists az, n2. split; [done|].
    intros t Ht. rewrite (Haz t Ht). by apply (EnsureDefaultGrant_org _ _ _ _ _ _ _ E).
Qed.
End effects.

(** Decomposes the next statement of a committed transaction. *)
Ltac state_eq E :=
  match type of E with
  | ?s = _ => is_var s; subst s
  | _ => injection E; clear E; intros; subst
  end.

Ltac tx_fact H :=
  let E := fresh "E" in
  match type of H with
  | query _ _ _ = _ => apply query_ok in H as [H E]; state_eq E
  | unlocked _ (query _ _) _ = _ => apply unlocked_query_ok in H as [H E]; state_eq E
  | execute _ _ _ = _ => apply execute_ok in H as (? & H & E); state_eq E
  | statement _ _ _ = _ => apply statement_ok in H as (? & H & E); state_eq E
  | record _ _ _ _ _ = _ => apply record_ok in H as (? & E); state_eq E
  | require _ _ _ = _ => apply require_ok in H as [H E]; state_eq E
  | check _ _ = _ => apply check_ok in H as [H E]; state_eq E
  | grantTuple _ _ _ _ = _ => apply grantTuple_ok in H as (? & ? & ? & E & H); state_eq E
  | revokeTuple _ _ _ _ = _ => apply revokeTuple_ok in H as (? & ? & E & H); state_eq E
  | defaultGrantNewCompanyTx _ _ _ _ = _ => apply defaultGrants_ok in H as (? & ? & E & H); state_eq E
  | tret _ _ = Ok _ => injection H; clear H; intros; subst
  end; simpl o_db in *.

Ltac tx_step H :=
  let H1 := fresh "Hs" in
  let s1 := fresh "s" in
  let a := fresh "a" in
  apply tbind_ok in H as (a & s1 & H1 & H);
  unfold lock, getOrgUnit, getMember, getPosition, getAssignment, getGroup, readToday, auditMemberMutation in H1;
  try tx_fact H1; try apply found_ok in H1.

(** The rest of a transaction: its conditionals and their statements. *)
Ltac tx_done := repeat match goal with
  | H : (if ?b then _ else _) _ = Ok _ |- _ => destruct b eqn:?
  | H : _ = Ok (_, _) |- _ => tx_fact H
  end; simplify_eq.

Ltac outcome_intro := eexists _, _; split; [reflexivity|]; simpl.

Lemma runOrg_ok {A} (m : OrgTx A) db a db' :
  runOrg m db = Ok (a, db') <-> exists n, m (mkOrgTx db 0) = Ok (a, mkOrgTx db' n).
Proof. unfold runOrg. destruct (m (mkOrgTx db 0)) as [[a' [db1 n]]|e]; simpl; naive_solver. Qed.

Lemma outcome_refl db : outcome db (kept db) db.
Proof. exists (authz db), (orgAudit db). split; [by destruct db|done]. Qed.

(** Reading a method's committed run backwards. *)
Tactic Notation "tx_open" hyp(H) reference(f) := apply runOrg_ok in H as [? H]; unfold f in H; repeat tx_step H.

Section methods.
Context `{UC : Unicode} `{UT : UUIDText} (fails : nat -> bool) (seen : nat -> OrgDB) (today : Date).
#[local] Set Default Proof Using "Type".

Lemma validateCode_ok field code u : validateCode field code = Ok u -> codeNamePattern code = true.
Proof. unfold validateCode. by destruct (codeNamePattern code). Qed.

Lemma CreateOrgUnit_ok newID enabled actor typeKey parentID code name isActive db r db' :
  runOrg (CreateOrgUnit fails newID enabled actor typeKey parentID code name isActive) db = Ok (r, db') ->
  let u := mkUnit typeKey parentID (normalizeCode code) (TrimSpace name) isActive in
  codeNamePattern (u_code u) = true /\ r = (newID, u) /\
  exists isCompany x, unitTypes db !! typeKey = Some isCompany /\
    checkCompanyIsRoot isCompany parentID = Ok tt /\
    insertUnit newID u db = Ok x /\ outcome x (kept x) db'.
Proof.
  intros Hr. tx_open Hr CreateOrgUnit. destruct a2. split; [by eapply validateCode_ok|].
  tx_done.
  all: split; [done|]; eexists _, _; do 3 (split; [done|]); outcome_intro; done.
Qed.

(** When [UpdateOrgUnit] may change the parent. *)
Definition move_allowed (db : OrgDB) (id : UUID) (oldParentID parentID : option UUID) : Prop :=
  oldParentID = parentID \/
  exists oldRoot newRoot, resolveRootCompany (units db) id = Some oldRoot /\
    match parentID with None => newRoot = id | Some p => resolveRootCompany (units db) p = Some newRoot end /\
    (oldRoot = newRoot \/ subtreeHasPositions db id = false).

Lemma checkMove_ok id oldParentID parentID db n a s' :
  checkMove fails id oldParentID parentID (mkOrgTx db n) = Ok (a, s') ->
  move_allowed db id oldParentID parentID /\ exists n', s' = mkOrgTx db n'.
Proof.
  unfold checkMove. case_bool_decide as Hp; [intros [= <- <-]; split; [by left|eauto]|]. intros Hr.
  tx_step Hr. tx_step Hr.
  assert (Hroot : match parentID with None => a1 = id | Some p => resolveRootCompany (units db) p = Some a1 end
            /\ exists n1, s = mkOrgTx db n1).
  { destruct parentID as [p|]; tx_fact Hs0; [|eauto]. apply found_ok in Hs0. eauto. }
  destruct Hroot as [Hroot [n1 ->]].
  case_bool_decide as Heq.
  - injection Hr as <- <-. split; [right; eauto 10|eauto].
  - tx_step Hr. tx_fact Hr. apply negb_true_iff in Hr as ->. injection Hs1 as Hs1. split; [right; eauto 10|eauto].
Qed.

Lemma UpdateOrgUnit_ok enabled actor id parentID code name isActive db r db' :
  runOrg (UpdateOrgUnit fails enabled actor id parentID code name isActive) db = Ok (r, db') ->
  codeNamePattern (normalizeCode code) = true /\
  exists ex isCompany x, units db !! id = Some ex /\ unitTypes db !! u_type ex = Some isCompany /\
    checkCompanyIsRoot isCompany parentID = Ok tt /\ move_allowed db id (u_parent ex) parentID /\
    r = mkUnit (u_type ex) parentID (normalizeCode code) (TrimSpace name) isActive /\
    updateUnit id r db = Ok x /\ outcome x (kept x) db'.
Proof.
  intros Hr. apply runOrg_ok in Hr as [? Hr]. unfold UpdateOrgUnit in Hr. do 4 tx_step Hr. tx_step Hr.
  assert (Hst : exists n, s = mkOrgTx db n).
  { destruct parentID; [|tx_fact Hs3; eauto]. tx_step Hs3. tx_fact Hs3. eauto. }
  destruct Hst as [n ->]. do 3 tx_step Hr. tx_step Hr. apply checkMove_ok in Hs7 as [Hmove [n' ->]].
  do 3 tx_step Hr. destruct a6. split; [by eapply validateCode_ok|].
  tx_done; eexists _, _, _; do 6 (split; [done|]); outcome_intro; done.
Qed.

Lemma DeleteOrgUnit_ok actor id db r db' :
  runOrg (DeleteOrgUnit fails actor id) db = Ok (r, db') ->
  existsb (fun kv => bool_decide (u_parent kv.2 = Some id)) (map_to_list (units db)) = false /\
  existsb (fun kv => bool_decide (m_company kv.2 = id)) (map_to_list (members db)) = false /\
  exists x, deleteUnit id db = Ok x /\ outcome x (kept x) db'.
Proof.
  intros Hr. tx_open Hr DeleteOrgUnit. tx_done. rewrite !negb_true_iff in *.
  do 2 (split; [done|]). eexists. split; [done|]. outcome_intro. done.
Qed.

Lemma CreateMember_ok newID actor companyID code displayName email isActive isGuest db r db' :
  runOrg (CreateMember fails newID actor companyID code displayName email isActive isGuest) db = Ok (r, db') ->
  let m := mkMember companyID (normalizeCode code) (TrimSpace displayName) (nullable email) None isActive isGuest in
  codeNamePattern (m_code m) = true /\ r = (newID, m) /\
  exists x, insertMember newID m db = Ok x /\
    outcome x (fun t => kept x t \/ isActive = true /\ t = companyMemberTuple companyID newID) db'.
Proof. clear seen.
  intros Hr. tx_open Hr CreateMember. split; [by eapply validateCode_ok|]. tx_done.
  all: split; [done|]; eexists; split; [done|]; outcome_intro; intros t _.
  - match goal with H : tuples _ = _ |- _ => rewrite H end. rewrite elem_of_union, elem_of_singleton. naive_solver.
  - naive_solver.
Qed.

(** [UpdateMember] grants or revokes by the flag of the row that it found first. *)
Lemma UpdateMember_ok actor id displayName email isActive isGuest db r db' :
  runOrg (UpdateMember fails seen actor id displayName email isActive isGuest) db = Ok (r, db') ->
  exists before m, members (seen 0) !! id = Some before /\ members db !! id = Some m /\
    r = editMember (TrimSpace displayName) (nullable email) isActive isGuest m /\
    outcome (with_members db (<[id := r]> (members db)))
      (fun t => if isActive then kept db t \/ m_active before = false /\ t = companyMemberTuple (m_company m) id
                else kept db t /\ (m_active before = true -> t <> companyMemberTuple (m_company m) id)) db'.
Proof.
  intros Hr. tx_open Hr UpdateMember.
  match goal with H : updateMember _ _ _ = _ |- _ => apply updateMember_ok in H as (m0 & Hm & -> & ->) end.
  match goal with H : members (seen 0) !! id = Some ?b |- _ => exists b, m0; split; [done|]; split; [done|]; simpl in *; destruct (m_active b) eqn:Hact, isActive end; tx_done.
  all: split; [done|]; outcome_intro; intros t _; try naive_solver.
  all: match goal with H : tuples _ = _ |- _ => rewrite H end; simpl.
  - rewrite elem_of_difference, elem_of_singleton. naive_solver.
  - rewrite elem_of_union, elem_of_singleton. naive_solver.
Qed.

Lemma userByKcSub_ok db kcSub uid : userByKcSub db kcSub = Some uid -> users db !! uid = Some kcSub.
Proof.
  unfold userByKcSub. intros ([i [k v]] & E & ->)%fmap_Some. apply list_find_Some in E as (E & Hv & _). simpl in Hv. subst v.
  by apply elem_of_map_to_list, list_elem_of_lookup_2 with i.
Qed.

Lemma has_empty_subject t : has_empty_field t = false -> SubjectID t <> "".
Proof. unfold has_empty_field. rewrite !orb_false_iff. by intros [_ ?%seqb_false]. Qed.

Lemma LinkUser_ok actor exists_ memberID kcSub db r db' :
  runOrg (LinkUser fails seen actor exists_ memberID kcSub) db = Ok (r, db') ->
  exists_ = Some true /\ kcSub <> "" /\
  exists uid m, users db !! uid = Some kcSub /\ members db !! memberID = Some m /\
    user_taken db (m_company m) uid memberID = false /\ r = set_user (Some uid) m /\
    outcome (with_members db (<[memberID := r]> (members db)))
      (fun t => kept db t \/ t = mappedUserTuple memberID kcSub) db'.
Proof.
  intros Hr. tx_open Hr LinkUser. tx_done.
  repeat match goal with
  | H : linkMemberUser _ _ _ = _ |- _ => apply linkMemberUser_ok in H as (m0 & Hm & Hu & -> & ->)
  | H : userByKcSub _ _ = _ |- _ => apply userByKcSub_ok in H
  end. simplify_eq. split; [by destruct exists_ as [[]|]|]. split.
  - by match goal with H : has_empty_field _ = false |- _ => apply has_empty_subject in H end.
  - eexists _, _. do 4 (split; [done|]). outcome_intro. intros t _.
    match goal with H : tuples _ = _ |- _ => rewrite H end. rewrite elem_of_union, elem_of_singleton. naive_solver.
Qed.

(** The account that a member is linked to. *)
Definition linked (db : OrgDB) (id : UUID) : option string := members db !! id ≫= memberKcSub db.

(** [UnlinkUser] revokes the tuple of the account that it found first. *)
Lemma UnlinkUser_ok actor memberID db r db' :
  runOrg (UnlinkUser fails seen actor memberID) db = Ok (r, db') ->
  exists m, members db !! memberID = Some m /\ r = set_user None m /\
    outcome (with_members db (<[memberID := r]> (members db)))
      (fun t => kept db t /\ forall sub, linked (seen 0) memberID = Some sub -> sub <> "" -> t <> mappedUserTuple memberID sub) db'.
Proof.
  intros Hr. apply runOrg_ok in Hr as [? Hr]. unfold UnlinkUser in Hr. tx_step Hr.
  apply fmap_Some in Hs as (m & Hm & ->). tx_step Hr.
  match goal with H : updateMember _ _ _ = _ |- _ => apply updateMember_ok in H as (m0 & Hm' & -> & ->) end.
  unfold linked. rewrite Hm. exists m0. split; [done|]. do 2 tx_step Hr. tx_done; (split; [done|]); outcome_intro; intros t _.
  - match goal with H : tuples _ = _ |- _ => rewrite H end. rewrite elem_of_difference, elem_of_singleton. simpl.
    apply andb_true_iff in Heqb as [_ Hne]. destruct (memberKcSub (seen 0) m) as [sub|]; [|done]. simpl in *. split.
    + intros [Ht Hn]. split; [done|]. intros sub' [= <-] _. done.
    + intros [Ht Hn]. split; [done|]. apply Hn; [done|]. intros ->. done.
  - split; [|naive_solver]. intros Ht. split; [done|]. intros sub Hsub Hne.
    rewrite Hsub in Heqb. simpl in Heqb. unfold memberKcSub in Hsub. destruct (m_user m); [|done].
    rewrite bool_decide_true in Heqb by eauto. simpl in Heqb. apply negb_false_iff, seqb_true in Heqb. done.
Qed.

Lemma CreatePosition_ok newID actor companyID code title orgUnitID db r db' :
  runOrg (CreatePosition fails newID actor companyID code title orgUnitID) db = Ok (r, db') ->
  let p := mkPosition companyID (normalizeCode code) (TrimSpace title) orgUnitID in
  codeNamePattern (p_code p) = true /\ r = (newID, p) /\
  exists x, insertPosition newID p db = Ok x /\
    outcome x (fun t => kept x t \/ t = orgObjectCompanyTuple "position" newID companyID) db'.
Proof. clear seen.
  intros Hr. tx_open Hr CreatePosition. split; [by eapply validateCode_ok|]. tx_done.
  split; [done|]. eexists. split; [done|]. outcome_intro. intros t _.
  match goal with H : tuples _ = _ |- _ => rewrite H end. rewrite elem_of_union, elem_of_singleton. naive_solver.
Qed.

Lemma UpdatePosition_ok actor id title orgUnitID db r db' :
  runOrg (UpdatePosition fails actor id title orgUnitID) db = Ok (r, db') ->
  exists x, updatePosition id (TrimSpace title) orgUnitID db = Ok (r, x) /\ outcome x (kept x) db'.
Proof.
  intros Hr. tx_open Hr UpdatePosition. tx_done. eexists. split; [done|]. outcome_intro. done.
Qed.

Lemma DeletePosition_ok actor id db r db' :
  runOrg (DeletePosition fails seen actor id) db = Ok (r, db') ->
  filter (holder_bound id) (tuples (authz (seen 1))) = ∅ /\
  existsb (fun kv => bool_decide (as_position kv.2 = id)) (map_to_list (assignments db)) = false /\
  exists p, positions db !! id = Some p /\
    outcome (with_positions db (delete id (positions db)))
      (fun t => kept db t /\ t <> orgObjectCompanyTuple "position" id (p_company p)) db'.
Proof.
  intros Hr. tx_open Hr DeletePosition. tx_done.
  match goal with H : deletePosition _ _ = Ok _ |- _ => unfold deletePosition in H; simpl in H end.
  repeat case_match; simplify_eq. split.
  { match goal with H : (_ =? 0)%nat = true |- _ => apply Nat.eqb_eq, size_empty_inv in H end. by apply leibniz_equiv. }
  split; [done|]. eexists. split; [done|]. outcome_intro. intros t _.
  match goal with H : tuples _ = _ |- _ => rewrite H end. rewrite elem_of_difference, elem_of_singleton. done.
Qed.

(** ** Assignments *)

Lemma activeMember_ok memberID db n m s' :
  activeMember fails seen memberID (mkOrgTx db n) = Ok (m, s') ->
  members (seen n) !! memberID = Some m /\ m_active m = true /\ exists n', s' = mkOrgTx db n'.
Proof. unfold activeMember. intros Hr. do 2 tx_step Hr. tx_done. eauto. Qed.

Lemma createAssignmentTx_ok newID actor positionID memberID validFrom db n r s' :
  createAssignmentTx fails newID actor positionID memberID validFrom (mkOrgTx db n) = Ok (r, s') ->
  exists x az au n', insertAssignment newID (mkAssignment positionID memberID validFrom None) db = Ok x /\
    r = (newID, mkAssignment positionID memberID validFrom None) /\
    s' = mkOrgTx (with_orgAudit (with_authz x az) au) n' /\ tuples az = {[holderTuple positionID memberID]} ∪ tuples (authz x).
Proof. unfold createAssignmentTx. intros Hr. do 3 tx_step Hr. tx_done. eauto 10. Qed.

Lemma AssignNow_ok newID actor positionID memberID db r db' :
  runOrg (AssignNow fails seen today newID actor positionID memberID) db = Ok (r, db') ->
  exists m x, members (seen 1) !! memberID = Some m /\ m_active m = true /\ assignmentOnDate db positionID today = None /\
    r = (newID, mkAssignment positionID memberID today None) /\ insertAssignment newID r.2 db = Ok x /\
    outcome x (fun t => kept x t \/ t = holderTuple positionID memberID) db'.
Proof.
  intros Hr. apply runOrg_ok in Hr as [? Hr]. unfold AssignNow in Hr. do 2 tx_step Hr.
  apply activeMember_ok in Hs0 as (Hm & Hact & n' & ->). do 4 tx_step Hr. simplify_eq. case_match; [by case_match|].
  apply createAssignmentTx_ok in Hr as (x' & az & au & n2 & Hi & -> & E & Haz). simplify_eq.
  eexists _, _. do 5 (split; [done|]). outcome_intro. intros t _. rewrite Haz, elem_of_union, elem_of_singleton. naive_solver.
Qed.

(** What ending an assignment does to the holder tuples. *)
Definition ended_tuples (db x : OrgDB) (id : UUID) (a : Assignment) (t : Tuple) : Prop :=
  kept db t /\ (otherOpen x id (as_position a) (as_member a) = false -> t <> holderTuple (as_position a) (as_member a)).

Lemma endAssignmentTx_ok actor id validTo db n r s' :
  endAssignmentTx fails actor id validTo (mkOrgTx db n) = Ok (r, s') ->
  exists x az au n', updateAssignment id validTo db = Ok (r.2, x) /\ r.1 = id /\
    s' = mkOrgTx (with_orgAudit (with_authz x az) au) n' /\
    forall t, t ∈ tuples az <-> ended_tuples db x id r.2 t.
Proof. clear seen.
  unfold endAssignmentTx. intros Hr. tx_step Hr.
  assert (Hx := Hs). apply updateAssignment_ok in Hx as (a0 & _ & _ & _ & _ & Hx). tx_step Hr. simplify_eq.
  do 2 tx_step Hr. tx_done; unfold ended_tuples; simpl.
  - eexists _, (authz db), _, _. do 3 (split; [done|]). intros t. match goal with H : otherOpen _ _ _ _ = _ |- _ => rewrite H end. naive_solver.
  - eexists _, _, _, _. do 3 (split; [done|]). intros t.
    match goal with H : tuples _ = _ |- _ => rewrite H end. match goal with H : otherOpen _ _ _ _ = _ |- _ => rewrite H end.
    rewrite elem_of_difference, elem_of_singleton. naive_solver.
Qed.

Lemma EndAssignment_ok actor id db r db' :
  runOrg (EndAssignment fails seen today actor id) db = Ok (r, db') ->
  exists a0 x, assignments (seen 0) !! id = Some a0 /\ as_to a0 = None /\ (as_from a0 <= today)%Z /\
    updateAssignment id today db = Ok (r.2, x) /\ r.1 = id /\ outcome x (ended_tuples db x id r.2) db'.
Proof.
  intros Hr. apply runOrg_ok in Hr as [? Hr]. unfold EndAssignment in Hr. do 4 tx_step Hr. simplify_eq.
  apply endAssignmentTx_ok in Hr as (x' & az & au & n' & Hu & Hid & E & Haz). simplify_eq.
  eexists _, _. split; [done|]. split; [by eapply bool_decide_eq_true|]. split.
  { match goal with H : negb _ = true |- _ => apply negb_true_iff, Z.ltb_ge in H end. done. }
  do 2 (split; [done|]). outcome_intro. intros t _. apply Haz.
Qed.

Lemma insertAssignment_frame id a x az au :
  insertAssignment id a (with_orgAudit (with_authz x az) au) =
  match insertAssignment id a x with Ok x' => Ok (with_orgAudit (with_authz x' az) au) | Err e => Err e end.
Proof. unfold insertAssignment, overlapping. cbn. by repeat case_match. Qed.

(** A handover either finds the member in the position already, or ends the current
    assignment and opens the new one on the same day. *)
Lemma Handover_ok newID actor positionID memberID expected db r db' :
  runOrg (Handover fails seen today newID actor positionID memberID expected) db = Ok (r, db') ->
  exists heldID held m, assignmentOnDate db positionID today = Some (heldID, held) /\
    members (seen 1) !! memberID = Some m /\ m_active m = true /\
    ((as_member held = memberID /\ r = (None, (heldID, held)) /\ outcome db (kept db) db') \/
     (as_member held <> memberID /\ (expected = None \/ expected = Some heldID) /\
      exists ended x1 x2, let a := mkAssignment positionID memberID today None in
        r = (Some (heldID, ended), (newID, a)) /\
        updateAssignment heldID today db = Ok (ended, x1) /\ insertAssignment newID a x1 = Ok x2 /\
        outcome x2 (fun t => ended_tuples db x1 heldID ended t \/ t = holderTuple positionID memberID) db')).
Proof.
  intros Hr. apply runOrg_ok in Hr as [? Hr]. unfold Handover in Hr. do 2 tx_step Hr.
  apply activeMember_ok in Hs0 as (Hm & Hact & n' & ->). do 4 tx_step Hr.
  match goal with H : Ok today = Ok ?a |- _ => injection H as <- end.
  match type of Hr with (let '(_, _) := ?x in _) _ = _ => destruct x as [heldID held] end.
  eexists heldID, held, _. do 3 (split; [done|]). case_bool_decide as Hheld.
  - left. tx_done. do 2 (split; [done|]). apply outcome_refl.
  - right. split; [done|]. tx_step Hr. split; [by eapply bool_decide_eq_true|].
    apply tbind_ok in Hr as (ended & s1 & H1 & Hr). apply endAssignmentTx_ok in H1 as (x1 & az1 & au1 & n1 & Hu & Hid & -> & Haz1).
    apply tbind_ok in Hr as (created & s2 & H2 & Hr).
    apply createAssignmentTx_ok in H2 as (x2 & az2 & au2 & n2 & Hi & -> & -> & Haz2).
    destruct ended as [eid e]. simpl in Hu, Hid, Haz1. subst eid. tx_done.
    rewrite insertAssignment_frame in Hi. destruct (insertAssignment _ _ x1) as [x2'|] eqn:Hi'; simplify_eq.
    eexists _, _, _. do 3 (split; [done|]). outcome_intro. intros t _.
    rewrite Haz2, elem_of_union, elem_of_singleton. simpl. rewrite Haz1. naive_solver.
Qed.

Lemma CreateAndAssign_ok newPosition newAssignment actor companyID code title orgUnitID memberID validFrom validTo db r db' :
  runOrg (CreateAndAssign fails seen today newPosition newAssignment actor companyID code title orgUnitID memberID validFrom validTo)
    db = Ok (r, db') ->
  let p := mkPosition companyID (normalizeCode code) (TrimSpace title) orgUnitID in
  let a := mkAssignment newPosition memberID validFrom validTo in
  codeNamePattern (p_code p) = true /\ r = ((newPosition, p), (newAssignment, a)) /\ (validFrom <= today)%Z /\
  exists x1 x2, insertPosition newPosition p db = Ok x1 /\ insertAssignment newAssignment a x1 = Ok x2 /\
    outcome x2 (fun t => kept db t \/ before_end today validTo /\ t = holderTuple newPosition memberID) db'.
Proof.
  intros Hr. tx_open Hr CreateAndAssign. split; [by eapply validateCode_ok|].
  match goal with H : Ok today = Ok ?a |- _ => injection H as <- end.
  assert (Hfrom : (validFrom <= today)%Z).
  { match goal with H : negb (_ <? _)%Z = true |- _ => apply negb_true_iff, Z.ltb_ge in H end. done. }
  assert (Hkept : forall y1 y2 p a, insertPosition newPosition p db = Ok y1 -> insertAssignment newAssignment a y1 = Ok y2 ->
            authz y2 = authz db).
  { by intros ? ? ? ? (_ & _ & _ & _ & ->)%insertPosition_ok (_ & _ & _ & _ & _ & ->)%insertAssignment_ok. }
  match goal with H1 : insertPosition _ _ _ = Ok _, H2 : insertAssignment _ _ _ = Ok _ |- _ => assert (E := Hkept _ _ _ _ H1 H2) end.
  tx_done; (do 2 (split; [done|])); (eexists _, _; do 2 (split; [done|])); outcome_intro; intros t _.
  - match goal with H : tuples _ = _ |- _ => rewrite H; simpl; rewrite E end.
    apply andb_true_iff in Heqb as [_ Hb%bool_decide_eq_true]. rewrite elem_of_union, elem_of_singleton. naive_solver.
  - rewrite <- E. apply andb_false_iff in Heqb as [Hb|Hb%bool_decide_eq_false].
    + apply negb_false_iff, Z.ltb_lt in Hb. lia.
    + naive_solver.
Qed.

(** ** Groups *)

Lemma CreateGroup_ok newID actor companyID code name db r db' :
  runOrg (CreateGroup fails newID actor companyID code name) db = Ok (r, db') ->
  let g := mkGroup companyID (normalizeCode code) (TrimSpace name) "kiban" None true in
  codeNamePattern (g_code g) = true /\ r = (newID, g) /\
  exists x, insertGroup newID g db = Ok x /\
    outcome x (fun t => kept x t \/ t = orgObjectCompanyTuple "group" newID companyID) db'.
Proof. clear seen.
  intros Hr. tx_open Hr CreateGroup. split; [by eapply validateCode_ok|]. tx_done.
  split; [done|]. eexists. split; [done|]. outcome_intro. intros t _.
  match goal with H : tuples _ = _ |- _ => rewrite H end. rewrite elem_of_union, elem_of_singleton. naive_solver.
Qed.

Lemma insertGroupMember_ok actor groupID memberID db n inserted s' :
  insertGroupMember fails seen actor groupID memberID (mkOrgTx db n) = Ok (inserted, s') ->
  exists x, s' = mkOrgTx x (S n) /\
    ((is_Some (groupMembers (seen n) !! (groupID, memberID)) /\ x = db) \/ addGroupMember groupID memberID actor db = Ok (inserted, x)).
Proof.
  unfold insertGroupMember. simpl. case_bool_decide as Hin.
  - unfold unlocked. simpl. destruct (statement fails _ _) as [[i s1]|] eqn:E; [|done]. apply statement_ok in E as (x & _ & ->).
    intros [= <- <-]. eauto.
  - intros (x & E & ->)%statement_ok. eauto.
Qed.

(** [AddGroupMember] finds the row, and then changes none, or puts it in the table. *)
Lemma AddGroupMember_ok actor groupID memberID db r db' :
  runOrg (AddGroupMember fails seen actor groupID memberID) db = Ok (r, db') ->
  exists g m x, groups (seen 0) !! groupID = Some g /\ g_source g = "kiban" /\
    members (seen 1) !! memberID = Some m /\ m_active m = true /\ m_company m = g_company g /\
    ((is_Some (groupMembers (seen 2) !! (groupID, memberID)) /\ x = db) \/
     exists inserted, addGroupMember groupID memberID actor db = Ok (inserted, x)) /\
    outcome x (fun t => kept x t \/ t = groupMemberTuple groupID memberID) db'.
Proof.
  intros Hr. apply runOrg_ok in Hr as [? Hr]. unfold AddGroupMember in Hr. do 2 tx_step Hr. tx_step Hr.
  unfold activeMember in Hs1. do 2 tx_step Hs1. tx_done. tx_step Hr. tx_step Hr.
  match goal with H : insertGroupMember _ _ _ _ _ _ = _ |- _ => apply insertGroupMember_ok in H as (y & -> & Hy) end.
  apply seqb_true in Hs0. rewrite bool_decide_eq_true in *. tx_step Hr.
  match goal with H : (if ?b then _ else _) _ = Ok (_, ?s) |- _ => assert (Es : s = mkOrgTx y 4) by (destruct b; tx_fact H; done); subst s end.
  do 2 tx_step Hr.
  tx_done; (eexists _, _, _; do 5 (split; [done|])); (split; [destruct Hy; eauto|]); outcome_intro; intros t _;
    match goal with H : tuples _ = _ |- _ => rewrite H end; rewrite elem_of_union, elem_of_singleton; naive_solver.
Qed.

Lemma RemoveGroupMember_ok actor groupID memberID db r db' :
  runOrg (RemoveGroupMember fails seen actor groupID memberID) db = Ok (r, db') ->
  exists g by_, groups (seen 0) !! groupID = Some g /\ g_source g = "kiban" /\ groupMembers db !! (groupID, memberID) = Some by_ /\
    outcome (with_groupMembers db (delete (groupID, memberID) (groupMembers db)))
      (fun t => kept db t /\ t <> groupMemberTuple groupID memberID) db'.
Proof.
  intros Hr. tx_open Hr RemoveGroupMember. tx_done.
  match goal with H : removeGroupMember _ _ _ = Ok _ |- _ => unfold removeGroupMember in H end.
  case_match; simplify_eq. apply seqb_true in Hs0. eexists _, _. do 3 (split; [done|]). outcome_intro. intros t _.
  match goal with H : tuples _ = _ |- _ => rewrite H end. rewrite elem_of_difference, elem_of_singleton. done.
Qed.
End methods.
