(* ===== verification/OrgProps.v ===== *)
(** * Invariants of the org store

    The operations of [OrgStore] as labels, histories of committed calls interleaved
    with what the rest of the platform may do to the same database, the
    well-formedness of the org tables, and which tuples the rows stand for. *)

From stdpp Require Import base gmap strings list.
From S2P Require Import Prelude GoStrings Tuple TupleStore OrgTree Org OrgStore OrgEffects.

(** ** Well-formed tables *)

(** Rows with the same key are the same row. *)
Definition unique_by {K A B} `{Countable K} (key : A -> option B) (m : gmap K A) : Prop :=
  forall i j a b k, m !! i = Some a -> m !! j = Some b -> key a = Some k -> key b = Some k -> i = j.

Lemma unique_by_insert {K A B} `{Countable K} (key : A -> option B) (m : gmap K A) i a :
  unique_by key m ->
  (forall j b k, m !! j = Some b -> key a = Some k -> key b = Some k -> j = i) -> unique_by key (<[i := a]> m).
Proof.
  intros Hu Hi j1 j2 b1 b2 k. rewrite !lookup_insert_Some. intros [[<- <-]|[? H1]] [[<- <-]|[? H2]] K1 K2.
  - done.
  - symmetry. by eapply Hi.
  - by eapply Hi.
  - by eapply Hu.
Qed.

Lemma unique_by_delete {K A B} `{Countable K} (key : A -> option B) (m : gmap K A) i :
  unique_by key m -> unique_by key (delete i m).
Proof. intros Hu j1 j2 b1 b2 k [_ H1]%lookup_delete_Some [_ H2]%lookup_delete_Some. by eapply Hu. Qed.

(** The keys of the unique constraints. *)
Definition unit_key (u : OrgUnit) : option (option UUID * string) := Some (u_parent u, u_code u).
Definition member_key (m : Member) : option (UUID * string) := Some (m_company m, m_code m).
Definition link_key (m : Member) : option (UUID * UUID) := pair (m_company m) <$> m_user m.
Definition position_key (p : Position) : option (UUID * string) := Some (p_company p, p_code p).
Definition group_key (g : Group) : option (UUID * string) := Some (g_company g, g_code g).

(** The tree: no cycle, and exactly the companies are roots. *)
Record tree_ok (db : OrgDB) : Prop := {
  tree_forest : forest (units db);
  tree_root : forall i u, units db !! i = Some u -> unitTypes db !! u_type u = Some (bool_decide (u_parent u = None));
  tree_code : forall i u, units db !! i = Some u -> codeNamePattern (u_code u) = true;
  tree_unique : unique_by unit_key (units db)
}.

Record members_ok (db : OrgDB) : Prop := {
  member_company : forall i m, members db !! i = Some m -> is_company db (m_company m) = true;
  member_code : forall i m, members db !! i = Some m -> codeNamePattern (m_code m) = true;
  member_unique : unique_by member_key (members db);
  member_link : forall i m uid, members db !! i = Some m -> m_user m = Some uid ->
    exists sub, users db !! uid = Some sub /\ sub <> "";
  link_unique : unique_by link_key (members db);
  user_unique : unique_by Some (users db)
}.

Record positions_ok (db : OrgDB) : Prop := {
  position_company : forall i p, positions db !! i = Some p ->
    is_company db (p_company p) = true /\ hangs_from (units db) (p_unit p) (p_company p);
  position_code : forall i p, positions db !! i = Some p -> codeNamePattern (p_code p) = true;
  position_unique : unique_by position_key (positions db)
}.

(** An assignment is of a member of the position's company, and the windows of one
    position never overlap. *)
Record assignments_ok (db : OrgDB) : Prop := {
  assignment_window : forall i a, assignments db !! i = Some a -> window_ok a = true;
  assignment_company : forall i a, assignments db !! i = Some a ->
    exists p m, positions db !! as_position a = Some p /\ members db !! as_member a = Some m /\ p_company p = m_company m;
  assignment_disjoint : forall i j a b, assignments db !! i = Some a -> assignments db !! j = Some b ->
    i <> j -> ~ overlaps a b
}.

Record groups_ok (db : OrgDB) : Prop := {
  group_company : forall i g, groups db !! i = Some g -> is_company db (g_company g) = true;
  group_code : forall i g, groups db !! i = Some g -> codeNamePattern (g_code g) = true;
  group_unique : unique_by group_key (groups db);
  group_members : forall i j, is_Some (groupMembers db !! (i, j)) ->
    exists g m, groups db !! i = Some g /\ members db !! j = Some m /\ g_company g = m_company m
}.

Record well_formed (db : OrgDB) : Prop := {
  wf_tree : tree_ok db;
  wf_members : members_ok db;
  wf_positions : positions_ok db;
  wf_assignments : assignments_ok db;
  wf_groups : groups_ok db
}.

(** The parts do not depend on the audit log or on the tuples. *)
Lemma well_formed_frame db az au : well_formed (with_orgAudit (with_authz db az) au) <-> well_formed db.
Proof.
  split; intros [[] [] [] [] []]; (split; split; simpl in *; assumption).
Qed.

(** ** Units *)

Lemma companies_root db id : tree_ok db -> is_company db id = true -> is_root (units db) id.
Proof.
  intros Ht. unfold is_company, is_root. destruct (units db !! id) as [u|] eqn:E; [|done]. simpl.
  rewrite (tree_root _ Ht _ _ E). simpl. by intros ->%bool_decide_eq_true.
Qed.

Lemma checkCompanyIsRoot_ok isCompany parentID u :
  checkCompanyIsRoot isCompany parentID = Ok u -> isCompany = bool_decide (parentID = None).
Proof. by destruct isCompany, parentID. Qed.

Lemma is_company_insert db id u c :
  (forall old, units db !! id = Some old -> u_type old = u_type u) -> (units db !! id = None -> is_company db c = true) ->
  is_company db c = true -> is_company (with_units db (<[id := u]> (units db))) c = true.
Proof.
  unfold is_company. simpl. intros Ht Hn Hc. destruct (decide (c = id)) as [->|Hne].
  - rewrite lookup_insert_eq. destruct (units db !! id) as [old|] eqn:E; [|done]. by rewrite <- (Ht old eq_refl).
  - by rewrite lookup_insert_ne.
Qed.

Lemma unit_code_taken_ok us parent code id :
  unit_code_taken us parent code id = false ->
  forall j u, us !! j = Some u -> u_parent u = parent -> u_code u = code -> j = id.
Proof.
  unfold unit_code_taken. rewrite (existsb_rows (fun kv : UUID * OrgUnit => u_parent kv.2 = parent /\ u_code kv.2 = code /\ kv.1 <> id)).
  intros Hn j u Hj Hp Hc. destruct (decide (j = id)); [done|]. by destruct (Hn j u Hj).
Qed.

(** Changing the units keeps the other tables well-formed when companies stay
    companies and positions keep hanging from theirs. *)
Lemma units_change db us :
  well_formed db -> tree_ok (with_units db us) ->
  (forall c, is_company db c = true ->
     (exists i m, members db !! i = Some m /\ m_company m = c) \/ (exists i p, positions db !! i = Some p /\ p_company p = c) \/
     (exists i g, groups db !! i = Some g /\ g_company g = c) -> is_company (with_units db us) c = true) ->
  (forall i p, positions db !! i = Some p -> hangs_from us (p_unit p) (p_company p)) ->
  well_formed (with_units db us).
Proof.
  intros [_ Hm Hp Ha Hg] Ht Hc Hh. split; [done| | |by destruct Ha; split|].
  - destruct Hm. split; try done. simpl. intros i m Hi. apply Hc; eauto.
  - destruct Hp as [Hpc]. split; try done. simpl. intros i p Hi. destruct (Hpc i p Hi). split; [apply Hc|]; eauto 10.
  - destruct Hg. split; try done. simpl. intros i g Hi. apply Hc; eauto 10.
Qed.

Lemma create_unit_wf db id u x isCompany :
  well_formed db -> codeNamePattern (u_code u) = true -> unitTypes db !! u_type u = Some isCompany ->
  checkCompanyIsRoot isCompany (u_parent u) = Ok tt -> insertUnit id u db = Ok x -> well_formed x.
Proof.
  intros Hwf Hcode Hty ->%checkCompanyIsRoot_ok (Hn & _ & Hpar & Huniq & ->)%insertUnit_ok.
  assert (Ht := wf_tree _ Hwf). destruct (forest_insert (units db) id u) as [Hf Hkeep]; [apply Ht|done| |].
  { intros p Hp. rewrite Hp in Hpar. by apply bool_decide_eq_true in Hpar. }
  apply units_change; [done| | |].
  - split; simpl; [done| | |].
    + intros i v [[<- <-]|[_ Hi]]%lookup_insert_Some; [done|by eapply Ht].
    + intros i v [[<- <-]|[_ Hi]]%lookup_insert_Some; [done|by eapply Ht].
    + apply unique_by_insert; [apply Ht|]. unfold unit_key. intros j v k Hj [= <-] [= Hp Hc].
      by eapply unit_code_taken_ok.
  - intros c Hc _. apply is_company_insert; [naive_solver|done|done].
  - intros i p Hi. destruct (position_company _ (wf_positions _ Hwf) _ _ Hi) as [_ (l & Hl & Hr)]. exists l. eauto.
Qed.

(** After an allowed move, the new parent's root is the root of every position below. *)
Lemma move_keeps_root db id old parent p k pos l :
  tree_ok db -> units db !! id = Some old -> move_allowed db id (u_parent old) (Some parent) ->
  positions db !! k = Some pos -> path (units db) (p_unit pos) l -> id ∈ l -> last l = Some p ->
  is_Some (units db !! parent) -> hangs_from (units db) parent p.
Proof.
  intros Ht Hold Hmove Hpos Hl Hid Hlast Hpar.
  destruct (path_suffix _ _ _ _ Hl Hid) as (l1 & l2 & _ & Hl2 & Hlast2). rewrite Hlast in Hlast2.
  destruct Hmove as [Hsame|(r1 & r2 & Hr1 & Hr2 & Hor)].
  - inversion Hl2 as [|? u p' l' Hu Hp' Hl']; simplify_eq.
    exists l'. split; [done|].
    destruct (path_head _ _ _ Hl') as [l'' ->]. by rewrite last_cons_cons in Hlast2.
  - apply resolveRootCompany_spec in Hr1, Hr2; try apply Ht; eauto.
    assert (r1 = p) as -> by (eapply hangs_from_fun; [done|by exists l2]).
    destruct Hor as [->|Hsub]; [done|]. unfold subtreeHasPositions in Hsub.
    rewrite (existsb_rows (fun kv : UUID * Position => id ∈ chain (units db) (p_unit kv.2))) in Hsub.
    destruct (Hsub k pos Hpos). simpl. by rewrite (path_chain _ _ _ Hl).
Qed.

Lemma update_unit_wf db id old parentID code name isActive x isCompany :
  let u := mkUnit (u_type old) parentID code name isActive in
  well_formed db -> codeNamePattern code = true -> units db !! id = Some old -> unitTypes db !! u_type old = Some isCompany ->
  checkCompanyIsRoot isCompany parentID = Ok tt -> move_allowed db id (u_parent old) parentID ->
  updateUnit id u db = Ok x -> well_formed x.
Proof.
  intros u Hwf Hcode Hold Hty ->%checkCompanyIsRoot_ok Hmove (old' & Hold' & Hcyc & Hpar & Huniq & ->)%updateUnit_ok.
  assert (Ht := wf_tree _ Hwf). rewrite Hold in Hold'. injection Hold' as <-. simpl in Hcyc, Hpar, Huniq.
  assert (Hroot : bool_decide (u_parent old = None) = bool_decide (parentID = None)).
  { assert (E := tree_root _ Ht _ _ Hold). rewrite Hty in E. by injection E as ->. }
  destruct (forest_update (units db) id old u) as [Hf Hroots]; [apply Ht|done| |].
  { simpl. intros p ->. simpl in Hpar. apply bool_decide_eq_true in Hpar. destruct (tree_forest _ Ht p Hpar) as [l Hl].
    exists l. split; [done|]. destruct Hcyc as [Hsame|Hcyc]; [|by eapply cycleTrigger_spec].
    intros Hin. destruct (tree_forest _ Ht id) as [lid Hlid]; [eauto|].
    assert (Hnd := path_NoDup _ _ _ Hlid). inversion Hlid as [|? v p' l' Hv Hp' Hl']; simplify_eq.
    rewrite (path_fun _ _ _ _ Hl Hl') in Hin.
    by apply NoDup_cons in Hnd as [? _]. }
  apply units_change; [done| | |].
  - split; simpl; [done| | |].
    + intros i v [[<- <-]|[_ Hi]]%lookup_insert_Some; [done|by eapply Ht].
    + intros i v [[<- <-]|[_ Hi]]%lookup_insert_Some; [done|by eapply Ht].
    + apply unique_by_insert; [apply Ht|]. unfold unit_key. intros j v k Hj [= <-] [= Hp Hc]. by eapply unit_code_taken_ok.
  - intros c Hc _. apply is_company_insert; [naive_solver|done|done].
  - intros k pos Hk. destruct (position_company _ (wf_positions _ Hwf) _ _ Hk) as [_ (l & Hl & Hr)].
    specialize (Hroots _ _ _ Hl Hr). case_decide as Hin; [|done]. simpl in Hroots.
    destruct parentID as [p|].
    + simpl in Hpar. apply bool_decide_eq_true in Hpar.
      assert (Hh : hangs_from (units db) p (p_company pos)) by (by eapply move_keeps_root).
      destruct Hh as (lp & Hlp & Hlast). rewrite (path_chain _ _ _ Hlp), Hlast in Hroots. done.
    + rewrite (bool_decide_true (None = None)) in Hroot by done. apply bool_decide_eq_true in Hroot.
      assert (Hid : last l = Some id) by (eapply path_roots; [done..|]; unfold is_root; rewrite Hold; simpl; by rewrite Hroot).
      rewrite Hr in Hid. by injection Hid as ->.
Qed.

Lemma delete_unit_wf db id x :
  well_formed db -> existsb (fun kv => bool_decide (u_parent kv.2 = Some id)) (map_to_list (units db)) = false ->
  existsb (fun kv => bool_decide (m_company kv.2 = id)) (map_to_list (members db)) = false ->
  deleteUnit id db = Ok x -> well_formed x.
Proof.
  rewrite (existsb_rows (fun kv : UUID * OrgUnit => u_parent kv.2 = Some id)).
  rewrite (existsb_rows (fun kv : UUID * Member => m_company kv.2 = id)). simpl.
  intros Hwf Hch Hmem (_ & Hpos & Hgr & ->)%deleteUnit_ok. assert (Ht := wf_tree _ Hwf).
  apply units_change; [done| | |].
  - split; simpl.
    + apply forest_delete; [apply Ht|]. intros y v Hy. by eapply Hch.
    + intros i v [_ Hi]%lookup_delete_Some. by eapply Ht.
    + intros i v [_ Hi]%lookup_delete_Some. by eapply Ht.
    + apply unique_by_delete, Ht.
  - intros c Hc Hused. unfold is_company in *. simpl. rewrite lookup_delete_ne; [done|]. intros <-.
    destruct Hused as [(i & m & Hi & Hm)|[(i & p & Hi & Hp)|(i & g & Hi & Hg)]];
      [by eapply Hmem|by destruct (Hpos i p Hi)|by eapply Hgr].
  - intros k pos Hk. destruct (position_company _ (wf_positions _ Hwf) _ _ Hk) as [_ (l & Hl & Hr)].
    exists l. split; [|done]. apply path_delete; [done| |].
    + intros y v Hy. by eapply Hch.
    + by apply (Hpos k pos Hk).
Qed.

(** ** Members *)

Lemma insert_member_wf db id m x :
  well_formed db -> codeNamePattern (m_code m) = true -> m_user m = None -> insertMember id m db = Ok x -> well_formed x.
Proof.
  intros [Ht Hm Hp Ha Hg] Hcode Hlink (Hc & Hn & Huniq & ->)%insertMember_ok. unfold member_code_taken in Huniq.
  rewrite (existsb_rows (fun kv : UUID * Member => m_company kv.2 = m_company m /\ m_code kv.2 = m_code m)) in Huniq.
  split.
  - destruct Ht; by split.
  - destruct Hm. split; simpl; try done.
    + intros i v [[<- <-]|[_ Hi]]%lookup_insert_Some; [done|eauto].
    + intros i v [[<- <-]|[_ Hi]]%lookup_insert_Some; [done|eauto].
    + apply unique_by_insert; [done|]. unfold member_key. intros j v k Hj [= <-] [= ? ?]. by destruct (Huniq j v Hj).
    + intros i v uid [[<- <-]|[_ Hi]]%lookup_insert_Some; [congruence|eauto].
    + apply unique_by_insert; [done|]. unfold link_key. intros j v k Hj. by rewrite Hlink.
  - destruct Hp; by split.
  - destruct Ha as [Hw Hcomp Hd]. split; simpl; try done. intros i a Hi. destruct (Hcomp i a Hi) as (p & m' & ? & Hm' & ?).
    exists p, m'. rewrite lookup_insert_ne by congruence. done.
  - destruct Hg as [Hgc Hcd Hu Hgm]. split; simpl; try done. intros i j Hi. destruct (Hgm i j Hi) as (g & m' & ? & Hm' & ?).
    exists g, m'. rewrite lookup_insert_ne by congruence. done.
Qed.

(** Changing a member but not its company or code. *)
Lemma change_member_wf db id m m' :
  well_formed db -> members db !! id = Some m -> m_company m' = m_company m -> m_code m' = m_code m ->
  (forall uid, m_user m' = Some uid -> m_user m = Some uid \/
     (user_taken db (m_company m) uid id = false /\ exists sub, users db !! uid = Some sub /\ sub <> "")) ->
  well_formed (with_members db (<[id := m']> (members db))).
Proof.
  intros [Ht Hm Hp Ha Hg] Hid Hc Hcode Hlink. split.
  - destruct Ht; by split.
  - destruct Hm as [H1 H2 H3 H4 H5 H6]. split; simpl; try done.
    + intros i v [[<- <-]|[_ Hi]]%lookup_insert_Some; [rewrite Hc|]; eauto.
    + intros i v [[<- <-]|[_ Hi]]%lookup_insert_Some; [rewrite Hcode|]; eauto.
    + apply unique_by_insert; [done|]. unfold member_key. rewrite Hc, Hcode. intros j v k Hj [= <-] ?. by eapply H3.
    + intros i v uid [[<- <-]|[_ Hi]]%lookup_insert_Some; [|eauto].
      intros Hu. destruct (Hlink uid Hu) as [?|[_ ?]]; eauto.
    + apply unique_by_insert; [done|]. unfold link_key. rewrite Hc. intros j v k Hj Hk1 Hk2.
      destruct (m_user m') as [uid|] eqn:Hu; [|done]. injection Hk1 as <-.
      destruct (m_user v) as [uid'|] eqn:Hv; [|done]. injection Hk2 as Hcv ->.
      destruct (Hlink uid eq_refl) as [Hold|[Htaken _]].
      * eapply (H5 j id v m (m_company m, uid)); [done..| |]; unfold link_key; [by rewrite Hv, Hcv|by rewrite Hold].
      * unfold user_taken in Htaken. rewrite (existsb_rows (fun kv : UUID * Member =>
          m_company kv.2 = m_company m /\ m_user kv.2 = Some uid /\ kv.1 <> id)) in Htaken.
        destruct (decide (j = id)); [done|]. by destruct (Htaken j v Hj).
  - destruct Hp; by split.
  - destruct Ha as [Hw Hcomp Hd]. split; simpl; try done. intros i a Hi. destruct (Hcomp i a Hi) as (p & v & ? & Hv & ?).
    destruct (decide (as_member a = id)) as [E|]; [rewrite E in *|exists p, v; by rewrite lookup_insert_ne].
    exists p, m'. rewrite lookup_insert_eq. split_and!; [done..|]. congruence.
  - destruct Hg as [Hgc Hcd Hu Hgm]. split; simpl; try done. intros i j Hi. destruct (Hgm i j Hi) as (g & v & ? & Hv & ?).
    destruct (decide (j = id)) as [->|]; [|exists g, v; by rewrite lookup_insert_ne].
    exists g, m'. rewrite lookup_insert_eq. split_and!; [done..|]. congruence.
Qed.

(** ** Positions *)

(** Putting a position under its company; its key is new or its own. *)
Lemma put_position_wf db id p :
  well_formed db -> codeNamePattern (p_code p) = true -> is_company db (p_company p) = true ->
  orgUnitUnderCompany (units db) (p_unit p) (p_company p) = true ->
  (forall j q, positions db !! j = Some q -> position_key q = position_key p -> j = id) ->
  (forall q, positions db !! id = Some q -> p_company q = p_company p) ->
  well_formed (with_positions db (<[id := p]> (positions db))).
Proof.
  intros [Ht Hm Hp Ha Hg] Hcode Hc Hunder Huniq Hsame. split.
  - destruct Ht; by split.
  - destruct Hm; by split.
  - destruct Hp. split; simpl.
    + intros i q [[<- <-]|[_ Hi]]%lookup_insert_Some; [|eauto]. split; [done|].
      apply orgUnitUnderCompany_spec; [apply Ht|by apply companies_root|done].
    + intros i q [[<- <-]|[_ Hi]]%lookup_insert_Some; eauto.
    + apply unique_by_insert; [done|]. intros j q k Hj Hk1 Hk2. apply (Huniq j q Hj). congruence.
  - destruct Ha as [Hw Hcomp Hd]. split; simpl; try done. intros i a Hi. destruct (Hcomp i a Hi) as (q & v & Hq & Hv & E).
    destruct (decide (as_position a = id)) as [Heq|]; [rewrite Heq in *|exists q, v; by rewrite lookup_insert_ne].
    exists p, v. rewrite lookup_insert_eq. split_and!; [done..|]. rewrite <- E. symmetry. by apply Hsame.
  - destruct Hg; by split.
Qed.

Lemma insert_position_wf db id p x :
  well_formed db -> codeNamePattern (p_code p) = true -> insertPosition id p db = Ok x -> well_formed x.
Proof.
  intros Hwf Hcode (Hc & Hunder & Hn & Huniq & ->)%insertPosition_ok. unfold position_code_taken in Huniq.
  rewrite (existsb_rows (fun kv : UUID * Position => p_company kv.2 = p_company p /\ p_code kv.2 = p_code p)) in Huniq.
  apply put_position_wf; [done..| |congruence]. intros j q Hj [= ? ?]. by destruct (Huniq j q Hj).
Qed.

Lemma update_position_wf db id title orgUnitID p x :
  well_formed db -> updatePosition id title orgUnitID db = Ok (p, x) -> well_formed x.
Proof.
  intros Hwf (p0 & Hp0 & -> & Hc & Hunder & ->)%updatePosition_ok. assert (Hp := wf_positions _ Hwf).
  apply put_position_wf; simpl; [done|by eapply Hp|done..| |].
  - intros j q Hj Hk. by apply (position_unique _ Hp j id q p0 (p_company p0, p_code p0)).
  - intros q Hq. congruence.
Qed.

Lemma delete_position_wf db id :
  well_formed db -> (forall i a, assignments db !! i = Some a -> as_position a <> id) ->
  well_formed (with_positions db (delete id (positions db))).
Proof.
  intros [Ht Hm Hp Ha Hg] Hno. split.
  - destruct Ht; by split.
  - destruct Hm; by split.
  - destruct Hp. split; simpl.
    + intros i q [_ Hi]%lookup_delete_Some. eauto.
    + intros i q [_ Hi]%lookup_delete_Some. eauto.
    + by apply unique_by_delete.
  - destruct Ha as [Hw Hcomp Hd]. split; simpl; try done. intros i a Hi. destruct (Hcomp i a Hi) as (q & v & ? & ? & ?).
    exists q, v. rewrite lookup_delete_ne by (intros E; by apply (Hno i a Hi)). done.
  - destruct Hg; by split.
Qed.

(** ** Assignments *)

Lemma overlaps_sym a b : overlaps a b -> overlaps b a.
Proof. unfold overlaps. intros (-> & ? & ? & ? & ?). done. Qed.

Lemma put_assignment_wf db id a :
  well_formed db -> window_ok a = true -> overlapping db a id = false ->
  (exists p m, positions db !! as_position a = Some p /\ members db !! as_member a = Some m /\ p_company p = m_company m) ->
  well_formed (with_assignments db (<[id := a]> (assignments db))).
Proof.
  intros [Ht Hm Hp Ha Hg] Hw Hov Hcomp. unfold overlapping in Hov.
  rewrite (existsb_rows (fun kv : UUID * Assignment => overlaps a kv.2 /\ kv.1 <> id)) in Hov. split.
  - destruct Ht; by split.
  - destruct Hm; by split.
  - destruct Hp; by split.
  - destruct Ha as [Hw0 Hc0 Hd]. split; simpl.
    + intros i b [[<- <-]|[_ Hi]]%lookup_insert_Some; eauto.
    + intros i b [[<- <-]|[_ Hi]]%lookup_insert_Some; eauto.
    + intros i j b c [[<- <-]|[Hni Hi]]%lookup_insert_Some [[<- <-]|[Hnj Hj]]%lookup_insert_Some Hne.
      * done.
      * intros Ho. by apply (Hov j c Hj).
      * intros Ho%overlaps_sym. by apply (Hov i b Hi).
      * by eapply Hd.
  - destruct Hg; by split.
Qed.

Lemma insert_assignment_wf db id a x : well_formed db -> insertAssignment id a db = Ok x -> well_formed x.
Proof.
  intros Hwf (Hc & Hw & Hn & Hov & [p Hp] & ->)%insertAssignment_ok. apply put_assignment_wf; [done..|].
  rewrite Hp in Hc. simpl in Hc. destruct (members db !! as_member a) as [m|]; [|done]. injection Hc as Hc. eauto.
Qed.

Lemma update_assignment_wf db id t a x : well_formed db -> updateAssignment id t db = Ok (a, x) -> well_formed x.
Proof.
  intros Hwf (a0 & Ha0 & -> & Hw & Hov & ->)%updateAssignment_ok. apply put_assignment_wf; [done..|].
  by apply (assignment_company _ (wf_assignments _ Hwf) _ _ Ha0).
Qed.

(** ** Groups *)

Lemma insert_group_wf db id g x :
  well_formed db -> codeNamePattern (g_code g) = true -> insertGroup id g db = Ok x -> well_formed x.
Proof.
  intros [Ht Hm Hp Ha Hg] Hcode (Hc & Hn & Huniq & ->)%insertGroup_ok. unfold group_code_taken in Huniq.
  rewrite (existsb_rows (fun kv : UUID * Group => g_company kv.2 = g_company g /\ g_code kv.2 = g_code g)) in Huniq. split.
  - destruct Ht; by split.
  - destruct Hm; by split.
  - destruct Hp; by split.
  - destruct Ha; by split.
  - destruct Hg as [Hgc Hcd Hu Hgm]. split; simpl.
    + intros i q [[<- <-]|[_ Hi]]%lookup_insert_Some; eauto.
    + intros i q [[<- <-]|[_ Hi]]%lookup_insert_Some; eauto.
    + apply unique_by_insert; [done|]. unfold group_key. intros j q k Hj [= <-] [= ? ?]. by destruct (Huniq j q Hj).
    + intros i j Hi. destruct (Hgm i j Hi) as (q & m & ? & ? & ?). exists q, m. rewrite lookup_insert_ne by congruence. done.
Qed.

Lemma add_group_member_wf db groupID memberID by_ inserted x :
  well_formed db -> addGroupMember groupID memberID by_ db = Ok (inserted, x) -> well_formed x.
Proof.
  intros Hwf [(_ & _ & ->)|(_ & Hn & (g & m & Hg & Hm & E) & ->)]%addGroupMember_ok; [done|]. destruct Hwf as [H1 H2 H3 H4 [Hgc Hcd Hu Hgm]].
  split; [by destruct H1; split|by destruct H2; split|by destruct H3; split|by destruct H4; split|]. split; simpl; try done.
  intros i j [b Hb]. apply lookup_insert_Some in Hb as [[[= <- <-] _]|[_ Hb]]; [|eauto]. exists g, m. done.
Qed.

Lemma remove_group_member_wf db k : well_formed db -> well_formed (with_groupMembers db (delete k (groupMembers db))).
Proof.
  intros [H1 H2 H3 H4 [Hgc Hcd Hu Hgm]].
  split; [by destruct H1; split|by destruct H2; split|by destruct H3; split|by destruct H4; split|]. split; simpl; try done.
  intros i j [b [_ Hb]%lookup_delete_Some]. eauto.
Qed.

(** ** The tuples the rows stand for *)

Section facts.
Context `{UC : Unicode} `{UT : UUIDText}.

(** What each row says to the authorization service. *)
Inductive fact (db : OrgDB) : Tuple -> Prop :=
| fact_member i m :
    members db !! i = Some m -> m_active m = true -> fact db (companyMemberTuple (m_company m) i)
| fact_mapped i m sub :
    members db !! i = Some m -> memberKcSub db m = Some sub -> fact db (mappedUserTuple i sub)
| fact_position i p :
    positions db !! i = Some p -> fact db (orgObjectCompanyTuple "position" i (p_company p))
| fact_group i g :
    groups db !! i = Some g -> fact db (orgObjectCompanyTuple "group" i (g_company g))
| fact_holder i a :
    assignments db !! i = Some a -> as_to a = None -> fact db (holderTuple (as_position a) (as_member a))
| fact_group_member i j :
    is_Some (groupMembers db !! (i, j)) -> fact db (groupMemberTuple i j).
#[local] Hint Constructors fact : core.

(** A tuple determines its ids. *)
Lemma uuid_eq a b : uuidString a = uuidString b <-> a = b.
Proof. split; [apply uuidString_inj|congruence]. Qed.

Ltac tuple_inj := repeat match goal with
  | E : @eq Tuple _ _ |- _ => discriminate E
  | E : companyMemberTuple _ _ = companyMemberTuple _ _ |- _ => injection E; clear E; intros
  | E : mappedUserTuple _ _ = mappedUserTuple _ _ |- _ => injection E; clear E; intros
  | E : orgObjectCompanyTuple _ _ _ = orgObjectCompanyTuple _ _ _ |- _ => injection E; clear E; intros
  | E : holderTuple _ _ = holderTuple _ _ |- _ => injection E; clear E; intros
  | E : groupMemberTuple _ _ = groupMemberTuple _ _ |- _ => injection E; clear E; intros
  | E : uuidString _ = uuidString _ |- _ => apply uuidString_inj in E
  end; subst.

Ltac lookups := repeat match goal with
  | H : <[_ := _]> _ !! _ = Some _ |- _ => apply lookup_insert_Some in H as [[<- <-]|[? H]]
  | H : delete _ _ !! _ = Some _ |- _ => apply lookup_delete_Some in H as [? H]
  end.

Lemma fact_frame db az au t : fact (with_orgAudit (with_authz db az) au) t <-> fact db t.
Proof. split; destruct 1; eauto using fact. Qed.

Lemma fact_units db us t : fact (with_units db us) t <-> fact db t.
Proof. split; destruct 1; eauto using fact. Qed.

Lemma fact_add_member db id m t :
  members db !! id = None -> m_user m = None ->
  fact (with_members db (<[id := m]> (members db))) t <->
  fact db t \/ m_active m = true /\ t = companyMemberTuple (m_company m) id.
Proof.
  intros Hn Hu.
  assert (Hkeep : forall i v, members db !! i = Some v -> <[id := m]> (members db) !! i = Some v).
  { intros i v Hi. rewrite lookup_insert_ne by congruence. done. }
  split.
  - destruct 1; simpl in *; lookups; eauto. unfold memberKcSub in *. rewrite Hu in *. done.
  - intros [[]|[Ha ->]]; eauto using fact. apply fact_member; [simpl; apply lookup_insert_eq|done].
Qed.

(** A changed member: the membership fact and the mapped user of the new row. *)
Lemma fact_set_member db id m m' t :
  members db !! id = Some m -> m_company m' = m_company m ->
  fact (with_members db (<[id := m']> (members db))) t <->
  (fact db t /\ t <> companyMemberTuple (m_company m) id /\ (forall sub, t <> mappedUserTuple id sub)) \/
  (m_active m' = true /\ t = companyMemberTuple (m_company m) id) \/
  (exists sub, memberKcSub db m' = Some sub /\ t = mappedUserTuple id sub).
Proof.
  intros Hm Hc. split.
  - destruct 1; simpl in *; lookups.
    + right. left. by rewrite Hc.
    + left. split; [eauto|]. split; [intros E|intros ? E]; tuple_inj. done.
    + right. right. eauto.
    + left. split; [eauto|]. split; [intros E|intros ? E]; tuple_inj. done.
    + left. split; [eauto|]. split; [intros E|intros ? E]; tuple_inj.
    + left. split; [eauto|]. split; [intros E|intros ? E]; tuple_inj.
    + left. split; [eauto|]. split; [intros E|intros ? E]; tuple_inj.
    + left. split; [eauto|]. split; [intros E|intros ? E]; tuple_inj.
  - intros [(Hf & Hn1 & Hn2)|[[Ha ->]|(sub & Hs & ->)]].
    + destruct Hf; eauto using fact.
      * apply fact_member; [|done]. simpl. rewrite lookup_insert_ne; [done|]. intros <-. simplify_eq.
      * eapply fact_mapped; [|done]. simpl. rewrite lookup_insert_ne; [done|]. intros <-. by destruct (Hn2 sub).
    + rewrite <- Hc. apply fact_member; [simpl; apply lookup_insert_eq|done].
    + eapply fact_mapped; [simpl; apply lookup_insert_eq|done].
Qed.

Lemma fact_mapped_iff db id m sub :
  members db !! id = Some m -> fact db (mappedUserTuple id sub) <-> memberKcSub db m = Some sub.
Proof.
  intros Hm. split; [|eauto using fact].
  remember (mappedUserTuple id sub) as t eqn:E. destruct 1; tuple_inj. congruence.
Qed.

Lemma fact_member_iff db c id m :
  members db !! id = Some m -> fact db (companyMemberTuple c id) <-> m_active m = true /\ m_company m = c.
Proof.
  intros Hm. split.
  - remember (companyMemberTuple c id) as t eqn:E. destruct 1; tuple_inj. simplify_eq. done.
  - intros [Ha <-]. eauto using fact.
Qed.

Lemma fact_add_position db id p t :
  positions db !! id = None ->
  fact (with_positions db (<[id := p]> (positions db))) t <->
  fact db t \/ t = orgObjectCompanyTuple "position" id (p_company p).
Proof.
  intros Hn.
  assert (Hkeep : forall i v, positions db !! i = Some v -> <[id := p]> (positions db) !! i = Some v).
  { intros i v Hi. rewrite lookup_insert_ne by congruence. done. }
  split.
  - destruct 1; simpl in *; lookups; eauto.
  - intros [[]| ->]; eauto using fact. apply fact_position. simpl. apply lookup_insert_eq.
Qed.

Lemma fact_set_position db id p p' t :
  positions db !! id = Some p -> p_company p' = p_company p ->
  fact (with_positions db (<[id := p']> (positions db))) t <-> fact db t.
Proof.
  intros Hp Hc. split.
  - destruct 1; simpl in *; lookups; eauto. rewrite Hc. eauto.
  - destruct 1 as [| |i q Hi| | |]; eauto using fact. destruct (decide (i = id)) as [->|Hne].
    + simplify_eq. rewrite <- Hc. apply fact_position. simpl. apply lookup_insert_eq.
    + apply fact_position. simpl. by rewrite lookup_insert_ne.
Qed.

Lemma fact_remove_position db id p t :
  positions db !! id = Some p ->
  fact (with_positions db (delete id (positions db))) t <->
  fact db t /\ t <> orgObjectCompanyTuple "position" id (p_company p).
Proof.
  intros Hp. split.
  - destruct 1; simpl in *; lookups; (split; [eauto|]); intros E; tuple_inj. done.
  - intros [[] Hne]; eauto using fact. apply fact_position. simpl. rewrite lookup_delete_ne; [done|].
    intros <-. simplify_eq.
Qed.

Lemma fact_add_assignment db id a t :
  assignments db !! id = None ->
  fact (with_assignments db (<[id := a]> (assignments db))) t <->
  fact db t \/ as_to a = None /\ t = holderTuple (as_position a) (as_member a).
Proof.
  intros Hn.
  assert (Hkeep : forall i v, assignments db !! i = Some v -> <[id := a]> (assignments db) !! i = Some v).
  { intros i v Hi. rewrite lookup_insert_ne by congruence. done. }
  split.
  - destruct 1; simpl in *; lookups; eauto.
  - intros [[]|[Ha ->]]; eauto using fact. eapply fact_holder; [simpl; apply lookup_insert_eq|done].
Qed.

Lemma otherOpen_spec db id p m :
  otherOpen db id p m = true <->
  exists j c, assignments db !! j = Some c /\ as_position c = p /\ as_member c = m /\ as_to c = None /\ j <> id.
Proof.
  unfold otherOpen. rewrite existsb_exists. split.
  - intros ([j c] & Hin%list_elem_of_In%elem_of_map_to_list & E%bool_decide_eq_true). simpl in E. naive_solver.
  - intros (j & c & Hj & E). exists (j, c). rewrite <- list_elem_of_In, elem_of_map_to_list, bool_decide_eq_true. done.
Qed.

(** Ending an assignment removes the holder fact unless another open assignment of the
    same pair still gives it. *)
Lemma fact_end_assignment db id a0 d t :
  assignments db !! id = Some a0 ->
  let x := with_assignments db (<[id := set_to d a0]> (assignments db)) in
  fact x t <-> fact db t /\
    (otherOpen x id (as_position a0) (as_member a0) = false -> t <> holderTuple (as_position a0) (as_member a0)).
Proof.
  intros Ha0 x. split.
  - destruct 1 as [| | | |i b Hi Hto|]; simpl in *; lookups; try done; (split; [eauto|]); intros Hno E; tuple_inj.
    apply not_true_iff_false in Hno. apply Hno, otherOpen_spec. exists i, b. simpl.
    rewrite lookup_insert_ne by done. split_and!; auto; congruence.
  - intros [[| | | |i b Hi Hto|] Hno]; eauto using fact. destruct (decide (i = id)) as [->|Hne].
    + assert (b = a0) as -> by congruence. destruct (otherOpen x id (as_position a0) (as_member a0)) eqn:Ho; [|by destruct Hno].
      apply otherOpen_spec in Ho as (j & c & Hj & <- & <- & Hc & _). eauto.
    + eapply fact_holder; [simpl; by rewrite lookup_insert_ne|done].
Qed.

Lemma fact_add_group db id g t :
  groups db !! id = None ->
  fact (with_groups db (<[id := g]> (groups db))) t <-> fact db t \/ t = orgObjectCompanyTuple "group" id (g_company g).
Proof.
  intros Hn.
  assert (Hkeep : forall i v, groups db !! i = Some v -> <[id := g]> (groups db) !! i = Some v).
  { intros i v Hi. rewrite lookup_insert_ne by congruence. done. }
  split.
  - destruct 1; simpl in *; lookups; eauto.
  - intros [[]| ->]; eauto using fact. apply fact_group. simpl. apply lookup_insert_eq.
Qed.

Lemma fact_add_group_member db i j by_ t :
  fact (with_groupMembers db (<[(i, j) := by_]> (groupMembers db))) t <-> fact db t \/ t = groupMemberTuple i j.
Proof.
  split.
  - destruct 1 as [| | | | |g k [b Hb]]; simpl in *; eauto.
    apply lookup_insert_Some in Hb as [[[= <- <-] _]|[_ Hb]]; [by right|eauto].
  - intros [[| | | | |g k [b Hb]]| ->]; eauto using fact; apply fact_group_member; simpl.
    + destruct (decide ((i, j) = (g, k))) as [->|Hne]; [rewrite lookup_insert_eq|rewrite lookup_insert_ne by done]; eauto.
    + rewrite lookup_insert_eq. eauto.
Qed.

Lemma fact_remove_group_member db i j t :
  fact (with_groupMembers db (delete (i, j) (groupMembers db))) t <-> fact db t /\ t <> groupMemberTuple i j.
Proof.
  split.
  - destruct 1 as [| | | | |g k [b Hb]]; simpl in *; lookups; (split; [eauto|]); intros E; tuple_inj. done.
  - intros [[| | | | |g k [b Hb]] Hne]; eauto using fact. apply fact_group_member. simpl.
    rewrite lookup_delete_ne by congruence. eauto.
Qed.

(** ** Operations and histories *)

Inductive orgOp : Type :=
| opCreateOrgUnit (newID : UUID) (enabled : list string) (actor typeKey : string) (parentID : option UUID) (code name : string) (isActive : bool)
| opUpdateOrgUnit (enabled : list string) (actor : string) (id : UUID) (parentID : option UUID) (code name : string) (isActive : bool)
| opDeleteOrgUnit (actor : string) (id : UUID)
| opCreateMember (newID : UUID) (actor : string) (companyID : UUID) (code displayName email : string) (isActive isGuest : bool)
| opUpdateMember (actor : string) (id : UUID) (displayName email : string) (isActive : bool) (isGuest : option bool)
| opLinkUser (actor : string) (exists_ : option bool) (memberID : UUID) (kcSub : string)
| opUnlinkUser (actor : string) (memberID : UUID)
| opCreatePosition (newID : UUID) (actor : string) (companyID : UUID) (code title : string) (orgUnitID : UUID)
| opUpdatePosition (actor : string) (id : UUID) (title : string) (orgUnitID : UUID)
| opDeletePosition (actor : string) (id : UUID)
| opAssignNow (newID : UUID) (actor : string) (positionID memberID : UUID)
| opEndAssignment (actor : string) (id : UUID)
| opHandover (newID : UUID) (actor : string) (positionID memberID : UUID) (expected : option UUID)
| opCreateAndAssign (newPosition newAssignment : UUID) (actor : string) (companyID : UUID) (code title : string)
    (orgUnitID memberID : UUID) (validFrom : Date) (validTo : option Date)
| opCreateGroup (newID : UUID) (actor : string) (companyID : UUID) (code name : string)
| opAddGroupMember (actor : string) (groupID memberID : UUID)
| opRemoveGroupMember (actor : string) (groupID memberID : UUID).

Definition discard {A} (m : OrgTx A) : OrgTx unit := let* _ := m in tret tt.

(** The method behind a label. *)
Definition method (fails : nat -> bool) (seen : nat -> OrgDB) (today : Date) (op : orgOp) : OrgTx unit :=
  match op with
  | opCreateOrgUnit n en a ty p c nm act => discard (CreateOrgUnit fails n en a ty p c nm act)
  | opUpdateOrgUnit en a id p c nm act => discard (UpdateOrgUnit fails en a id p c nm act)
  | opDeleteOrgUnit a id => DeleteOrgUnit fails a id
  | opCreateMember n a cid c d e act g => discard (CreateMember fails n a cid c d e act g)
  | opUpdateMember a id d e act g => discard (UpdateMember fails seen a id d e act g)
  | opLinkUser a ex m s => discard (LinkUser fails seen a ex m s)
  | opUnlinkUser a m => discard (UnlinkUser fails seen a m)
  | opCreatePosition n a cid c ti u => discard (CreatePosition fails n a cid c ti u)
  | opUpdatePosition a id ti u => discard (UpdatePosition fails a id ti u)
  | opDeletePosition a id => DeletePosition fails seen a id
  | opAssignNow n a p m => discard (AssignNow fails seen today n a p m)
  | opEndAssignment a id => discard (EndAssignment fails seen today a id)
  | opHandover n a p m ex => discard (Handover fails seen today n a p m ex)
  | opCreateAndAssign np na a cid c ti u m vf vt => discard (CreateAndAssign fails seen today np na a cid c ti u m vf vt)
  | opCreateGroup n a cid c nm => discard (CreateGroup fails n a cid c nm)
  | opAddGroupMember a g m => discard (AddGroupMember fails seen a g m)
  | opRemoveGroupMember a g m => RemoveGroupMember fails seen a g m
  end.

Lemma discard_ok {A} (m : OrgTx A) db u db' :
  runOrg (discard m) db = Ok (u, db') -> exists a, runOrg m db = Ok (a, db').
Proof.
  intros [n Hr]%runOrg_ok. unfold discard in Hr. apply tbind_ok in Hr as (a & s & Hm & Hr). injection Hr as _ ->.
  exists a. apply runOrg_ok. eauto.
Qed.

(** A call: the operation, the tables when it writes and commits, and what its SELECTs
    found that lock nothing, whatever that was. *)
Record orgCall := mkCall { c_db : OrgDB; c_seen : nat -> OrgDB; c_op : orgOp }.

(** A call that commits, on some day and with no statement failing on its way. *)
Definition commits (seen : nat -> OrgDB) (op : orgOp) (db db' : OrgDB) : Prop :=
  exists fails today, runOrg (method fails seen today op) db = Ok (tt, db').

(** The rest of the platform: identity adds accounts, and authz and the modules change
    tuples of other relations. *)
Definition elsewhere (db db' : OrgDB) : Prop :=
  exists us az, db' = with_users (with_authz db az) us /\ users db ⊆ us /\ unique_by Some us /\
    forall t, org_slot t = true -> t ∈ tuples az <-> t ∈ tuples (authz db).

Inductive history (db : OrgDB) : list orgCall -> OrgDB -> Prop :=
| history_nil : history db [] db
| history_op l db1 seen op db2 : history db l db1 -> commits seen op db1 db2 -> history db (l ++ [mkCall db1 seen op]) db2
| history_elsewhere l db1 db2 : history db l db1 -> elsewhere db1 db2 -> history db l db2.

(** ** Every operation keeps the tables well-formed *)

Lemma outcome_wf x T db' : outcome x T db' -> well_formed x -> well_formed db'.
Proof. intros (az & au & -> & _). apply well_formed_frame. Qed.

Lemma commits_wf seen op db db' : well_formed db -> commits seen op db db' -> well_formed db'.
Proof.
  intros Hwf (fails & today & Hr).
  destruct op; simpl in Hr; try (apply discard_ok in Hr as [r Hr]).
  - apply CreateOrgUnit_ok in Hr as (Hc & _ & isC & x & Hty & Hroot & Hi & Ho). eapply outcome_wf, create_unit_wf; eauto.
  - apply UpdateOrgUnit_ok in Hr as (Hc & ex & isC & x & Hex & Hty & Hroot & Hmv & -> & Hu & Ho). eapply outcome_wf, update_unit_wf; eauto.
  - apply DeleteOrgUnit_ok in Hr as (Hch & Hm & x & Hd & Ho). eapply outcome_wf, delete_unit_wf; eauto.
  - apply CreateMember_ok in Hr as (Hc & _ & x & Hi & Ho). eapply outcome_wf, insert_member_wf; eauto.
  - apply UpdateMember_ok in Hr as (before & m & _ & Hm & -> & Ho). eapply outcome_wf; [done|]. eapply change_member_wf; eauto.
  - apply LinkUser_ok in Hr as (_ & Hne & uid & m & Hu & Hm & Ht & -> & Ho). eapply outcome_wf; [done|].
    eapply change_member_wf; eauto. simpl. intros ? [= <-]. right. eauto.
  - apply UnlinkUser_ok in Hr as (m & Hm & -> & Ho). eapply outcome_wf; [done|]. eapply change_member_wf; eauto. done.
  - apply CreatePosition_ok in Hr as (Hc & _ & x & Hi & Ho). eapply outcome_wf, insert_position_wf; eauto.
  - apply UpdatePosition_ok in Hr as (x & Hu & Ho). eapply outcome_wf, update_position_wf; eauto.
  - apply DeletePosition_ok in Hr as (_ & Hno & p & Hp & Ho). eapply outcome_wf, delete_position_wf; eauto.
    rewrite (existsb_rows (fun kv : UUID * Assignment => as_position kv.2 = id)) in Hno. done.
  - apply AssignNow_ok in Hr as (m & x & _ & _ & _ & _ & Hi & Ho). eapply outcome_wf, insert_assignment_wf; eauto.
  - apply EndAssignment_ok in Hr as (a0 & x & _ & _ & _ & Hu & _ & Ho). eapply outcome_wf, update_assignment_wf; eauto.
  - apply Handover_ok in Hr as (hid & held & m & _ & _ & _ & [(_ & _ & Ho)|(_ & _ & e & x1 & x2 & _ & Hu & Hi & Ho)]);
      [by eapply outcome_wf|]. eapply outcome_wf, insert_assignment_wf; [done| |done]. by eapply update_assignment_wf.
  - apply CreateAndAssign_ok in Hr as (Hc & _ & _ & x1 & x2 & Hp & Hi & Ho).
    eapply outcome_wf, insert_assignment_wf; [done| |done]. by eapply insert_position_wf.
  - apply CreateGroup_ok in Hr as (Hc & _ & x & Hi & Ho). eapply outcome_wf, insert_group_wf; eauto.
  - apply AddGroupMember_ok in Hr as (g & m & x & _ & _ & _ & _ & _ & [[_ ->]|[ins Ha]] & Ho); eapply outcome_wf; eauto using add_group_member_wf.
  - apply RemoveGroupMember_ok in Hr as (g & b & _ & _ & _ & Ho). eapply outcome_wf, remove_group_member_wf; eauto.
Qed.

Lemma elsewhere_wf db db' : well_formed db -> elsewhere db db' -> well_formed db'.
Proof.
  intros [H1 [Ha Hb Hc Hd He Hf] H3 H4 H5] (us & az & -> & Hsub & Huniq & _).
  split; [by destruct H1; split| |by destruct H3; split|by destruct H4; split|by destruct H5; split]. split; try done.
  simpl. intros i m uid Hi Hu. destruct (Hd i m uid Hi Hu) as (sub & Hs & Hne). exists sub. split; [|done]. by eapply lookup_weaken.
Qed.

Lemma history_wf db l db' : well_formed db -> history db l db' -> well_formed db'.
Proof. intros Hwf. induction 1; eauto using commits_wf, elsewhere_wf. Qed.

(** ** Every operation keeps the tuples in step with the rows *)

Definition in_step (t : Tuple) (db : OrgDB) : Prop := t ∈ tuples (authz db) <-> fact db t.

(** The tuples a call leaves out of step.  Linking a member that is linked already keeps the
    old account's tuple, and create-and-assign does not write the position's company tuple
    and does not tie the holder tuple to a closed window's end.  The others are races:
    an update that found the flag as it sets it, when another update has changed it since,
    neither grants nor revokes; an unlink revokes the tuple of the account that it found,
    when the member has been linked to another since; and adding a group member that it
    found, and that has been removed since, grants the tuple without the row. *)
Definition exempt (x : orgCall) (t : Tuple) : Prop :=
  let db := c_db x in
  match c_op x with
  | opUpdateMember _ i _ _ isActive _ =>
      exists before m, members (c_seen x 0) !! i = Some before /\ members db !! i = Some m /\
        m_active before = isActive /\ m_active m <> isActive /\ t = companyMemberTuple (m_company m) i
  | opLinkUser _ _ i kcSub => exists old, linked db i = Some old /\ old <> kcSub /\ t = mappedUserTuple i old
  | opUnlinkUser _ i => exists sub, linked db i = Some sub /\ linked (c_seen x 0) i <> Some sub /\ t = mappedUserTuple i sub
  | opCreateAndAssign np _ _ cid _ _ _ m _ vt =>
      t = orgObjectCompanyTuple "position" np cid \/ (vt <> None /\ t = holderTuple np m)
  | opAddGroupMember _ g m =>
      is_Some (groupMembers (c_seen x 2) !! (g, m)) /\ groupMembers db !! (g, m) = None /\ t = groupMemberTuple g m
  | _ => False
  end.

(** Calls that are exempt for no tuple. *)
Definition regular (x : orgCall) : bool :=
  let db := c_db x in
  match c_op x with
  | opUpdateMember _ i _ _ _ _ => bool_decide (m_active <$> members (c_seen x 0) !! i = m_active <$> members db !! i)
  | opLinkUser _ _ i kcSub => bool_decide (default kcSub (linked db i) = kcSub)
  | opUnlinkUser _ i => bool_decide (linked (c_seen x 0) i = linked db i)
  | opCreateAndAssign _ _ _ _ _ _ _ _ _ _ => false
  | opAddGroupMember _ g m => bool_decide (groupMembers (c_seen x 2) !! (g, m) = None \/ is_Some (groupMembers db !! (g, m)))
  | _ => true
  end.

Lemma regular_exempt x t : regular x = true -> ~ exempt x t.
Proof.
  destruct x as [db seen op], op; unfold regular, exempt; simpl; try (by intros _ []); try done.
  - intros E%bool_decide_eq_true (before & m & Hb & Hm & Ha & Hne & _). rewrite Hb, Hm in E. injection E as E. congruence.
  - intros E%bool_decide_eq_true (old & Hl & Hne & _). rewrite Hl in E. done.
  - intros E%bool_decide_eq_true (sub & Hl & Hne & _). congruence.
  - intros E%bool_decide_eq_true ([a Ha] & Hn & _). rewrite Ha, Hn in E. destruct E as [|[? ?]]; done.
Qed.

Lemma outcome_in_step x T db' t :
  outcome x T db' -> org_slot t = true -> (T t <-> fact x t) -> in_step t db'.
Proof. intros (az & au & -> & HT) Ht E. unfold in_step. rewrite fact_frame. simpl. by rewrite HT, E. Qed.

(** The two facts a member row gives. *)
Lemma member_cases id c t :
  t = companyMemberTuple c id \/ (exists sub, t = mappedUserTuple id sub) \/
  (t <> companyMemberTuple c id /\ forall sub, t <> mappedUserTuple id sub).
Proof.
  destruct (decide (t = companyMemberTuple c id)); [by left|]. right.
  destruct (decide (t = mappedUserTuple id (SubjectID t))); [left; eauto|]. right. split; [done|]. by intros sub ->.
Qed.

(** A changed member keeps the tuples in step when the method writes the facts of the
    new row and leaves the others. *)
Lemma set_member_in_step db id m m' T db' t :
  outcome (with_members db (<[id := m']> (members db))) T db' -> members db !! id = Some m ->
  m_company m' = m_company m -> org_slot t = true -> in_step t db ->
  (t = companyMemberTuple (m_company m) id -> (m_active m = true <-> kept db t) -> T t <-> m_active m' = true) ->
  (forall sub, t = mappedUserTuple id sub -> (memberKcSub db m = Some sub <-> kept db t) ->
     T t <-> memberKcSub db m' = Some sub) ->
  (t <> companyMemberTuple (m_company m) id -> (forall sub, t <> mappedUserTuple id sub) -> T t <-> kept db t) ->
  in_step t db'.
Proof.
  intros Ho Hm Hc Ht Hin H1 H2 H3. eapply outcome_in_step; [done..|]. rewrite (fact_set_member db id m) by done.
  unfold in_step in Hin. destruct (member_cases id (m_company m) t) as [->|[(sub & ->)|[Hn1 Hn2]]].
  - rewrite fact_member_iff in Hin by done. rewrite H1 by naive_solver. naive_solver.
  - rewrite (H2 sub eq_refl) by (rewrite Hin; symmetry; by apply fact_mapped_iff). split; [eauto 10|].
    intros [(_ & _ & Hn)|[[_ E]|(sub' & Hs & E)]]; [by destruct (Hn sub)|by tuple_inj|by tuple_inj].
  - rewrite H3, Hin by done. naive_solver.
Qed.

Lemma UpdateMember_in_step fails seen actor id displayName email isActive isGuest db r db' t :
  runOrg (UpdateMember fails seen actor id displayName email isActive isGuest) db = Ok (r, db') ->
  org_slot t = true -> ~ exempt (mkCall db seen (opUpdateMember actor id displayName email isActive isGuest)) t -> in_step t db -> in_step t db'.
Proof.
  intros (before & m & Hb & Hm & -> & Ho)%UpdateMember_ok Ht Hex Hin. eapply set_member_in_step; [done..| | |].
  - intros -> E. simpl. assert (Hflag : m_active before <> isActive \/ m_active m = isActive).
    { destruct (decide (m_active before = isActive)) as [Eb|]; [right|by left]. apply dec_stable. intros Hne. apply Hex. by exists before, m. }
    destruct isActive, (m_active before), (m_active m); naive_solver.
  - intros sub -> E. unfold memberKcSub in *. simpl. rewrite E. destruct isActive; naive_solver.
  - intros Hn1 Hn2. destruct isActive; naive_solver.
Qed.

Lemma linked_row db id m : members db !! id = Some m -> linked db id = memberKcSub db m.
Proof. unfold linked. by intros ->. Qed.

Lemma LinkUser_in_step fails seen actor exists_ id kcSub db r db' t :
  runOrg (LinkUser fails seen actor exists_ id kcSub) db = Ok (r, db') ->
  org_slot t = true -> ~ exempt (mkCall db seen (opLinkUser actor exists_ id kcSub)) t -> in_step t db -> in_step t db'.
Proof.
  intros (_ & Hne & uid & m & Hu & Hm & _ & -> & Ho)%LinkUser_ok Ht Hex Hin.
  eapply set_member_in_step; [done..| | |].
  - intros -> E. simpl. rewrite <- E. naive_solver.
  - intros sub -> E. unfold memberKcSub in *. simpl. rewrite Hu. split.
    + intros [Hk|E']; [|tuple_inj; done]. apply E in Hk. f_equal. apply dec_stable. intros Hd. apply Hex. exists sub. simpl. by rewrite (linked_row _ _ _ Hm).
    + intros [= ->]. by right.
  - intros Hn1 Hn2. naive_solver.
Qed.

Lemma UnlinkUser_in_step fails seen actor id db r db' t :
  well_formed db -> runOrg (UnlinkUser fails seen actor id) db = Ok (r, db') ->
  org_slot t = true -> ~ exempt (mkCall db seen (opUnlinkUser actor id)) t -> in_step t db -> in_step t db'.
Proof.
  intros Hwf (m & Hm & -> & Ho)%UnlinkUser_ok Ht Hex Hin. eapply set_member_in_step; [done..| | |].
  - intros -> E. simpl. rewrite <- E. split; [naive_solver|]. intros Ha. split; [done|]. intros sub _ _ E'. tuple_inj.
  - intros sub -> E. simpl. split; [|done]. intros [Hk Hn]. apply E in Hk.
    assert (Hl : linked (seen 0) id = Some sub) by (apply dec_stable; intros Hne; apply Hex; exists sub; simpl; by rewrite (linked_row _ _ _ Hm)).
    destruct (Hn sub Hl); [|done].
    unfold memberKcSub in Hk. destruct (m_user m) as [uid|] eqn:Hu; [|done].
    destruct (member_link _ (wf_members _ Hwf) _ _ _ Hm Hu) as (sub' & Hs & Hne). simpl in Hk. congruence.
  - intros Hn1 Hn2. naive_solver.
Qed.

Lemma commits_in_step seen op db db' t :
  well_formed db -> commits seen op db db' -> org_slot t = true -> ~ exempt (mkCall db seen op) t -> in_step t db -> in_step t db'.
Proof.
  intros Hwf (fails & today & Hr) Ht Hex Hin. assert (Hin' := Hin). unfold in_step in Hin'.
  destruct op; simpl in Hr; try (apply discard_ok in Hr as [r Hr]).
  - apply CreateOrgUnit_ok in Hr as (_ & _ & isC & x & _ & _ & (_ & _ & _ & _ & ->)%insertUnit_ok & Ho).
    eapply outcome_in_step; [done..|]. by rewrite fact_units.
  - apply UpdateOrgUnit_ok in Hr as (_ & ex & isC & x & _ & _ & _ & _ & _ & (_ & _ & _ & _ & _ & ->)%updateUnit_ok & Ho).
    eapply outcome_in_step; [done..|]. by rewrite fact_units.
  - apply DeleteOrgUnit_ok in Hr as (_ & _ & x & (_ & _ & _ & ->)%deleteUnit_ok & Ho).
    eapply outcome_in_step; [done..|]. by rewrite fact_units.
  - apply CreateMember_ok in Hr as (_ & _ & x & (_ & Hn & _ & ->)%insertMember_ok & Ho).
    eapply outcome_in_step; [done..|]. rewrite fact_add_member by done. simpl. by rewrite Hin'.
  - by eapply UpdateMember_in_step.
  - by eapply LinkUser_in_step.
  - by eapply UnlinkUser_in_step.
  - apply CreatePosition_ok in Hr as (_ & _ & x & (_ & _ & Hn & _ & ->)%insertPosition_ok & Ho).
    eapply outcome_in_step; [done..|]. rewrite fact_add_position by done. simpl. by rewrite Hin'.
  - apply UpdatePosition_ok in Hr as (x & (p0 & Hp0 & -> & _ & _ & ->)%updatePosition_ok & Ho).
    eapply outcome_in_step; [done..|]. by rewrite (fact_set_position db id p0).
  - apply DeletePosition_ok in Hr as (_ & _ & p & Hp & Ho).
    eapply outcome_in_step; [done..|]. rewrite (fact_remove_position db id p) by done. simpl. by rewrite Hin'.
  - apply AssignNow_ok in Hr as (m & x & _ & _ & _ & -> & (_ & _ & Hn & _ & _ & ->)%insertAssignment_ok & Ho).
    eapply outcome_in_step; [done..|]. rewrite fact_add_assignment by done. simpl. rewrite Hin'. naive_solver.
  - apply EndAssignment_ok in Hr as (a0 & x & Ha0 & _ & _ & (a1 & Ha1 & E & _ & _ & ->)%updateAssignment_ok & _ & Ho).
    eapply outcome_in_step; [done..|]. rewrite E in *. rewrite fact_end_assignment by done. unfold ended_tuples. by rewrite Hin'.
  - apply Handover_ok in Hr as (hid & held & m & _ & _ & _ & [(_ & _ & Ho)|(_ & _ & e & x1 & x2 & _ & Hu & Hi & Ho)]).
    { by eapply outcome_in_step. }
    apply updateAssignment_ok in Hu as (a1 & Ha1 & -> & _ & _ & ->). apply insertAssignment_ok in Hi as (_ & _ & Hn & _ & _ & ->).
    eapply outcome_in_step; [done..|]. rewrite fact_add_assignment, fact_end_assignment by done.
    unfold ended_tuples. rewrite Hin'. simpl. naive_solver.
  - apply CreateAndAssign_ok in Hr as (_ & _ & _ & x1 & x2 & Hp & Hi & Ho).
    apply insertPosition_ok in Hp as (_ & _ & Hn & _ & ->). apply insertAssignment_ok in Hi as (_ & _ & Hn2 & _ & _ & ->).
    eapply outcome_in_step; [done..|]. rewrite fact_add_assignment, fact_add_position by done. rewrite Hin'. simpl.
    unfold exempt in Hex. simpl in Hex. destruct validTo; naive_solver.
  - apply CreateGroup_ok in Hr as (_ & _ & x & (_ & Hn & _ & ->)%insertGroup_ok & Ho).
    eapply outcome_in_step; [done..|]. rewrite fact_add_group by done. simpl. by rewrite Hin'.
  - apply AddGroupMember_ok in Hr as (g & m & x & _ & _ & _ & _ & _ & Ha & Ho). eapply outcome_in_step; [done..|].
    assert (Hx : x = db /\ (t = groupMemberTuple groupID memberID -> is_Some (groupMembers db !! (groupID, memberID))) \/
      x = with_groupMembers db (<[(groupID, memberID) := actor]> (groupMembers db))).
    { destruct Ha as [[Hseen ->]|[ins [(_ & Hrow & ->)|(_ & _ & _ & ->)]%addGroupMember_ok]]; [left|left|by right]; (split; [done|]); [|done].
      intros E. destruct (groupMembers db !! (groupID, memberID)) eqn:Hrow; [done|]. by destruct Hex. }
    destruct Hx as [[-> Hrow]| ->].
    + rewrite Hin'. split; [|naive_solver]. intros [?| E]; [done|]. rewrite E. by apply fact_group_member, Hrow.
    + rewrite fact_add_group_member. simpl. by rewrite Hin'.
  - apply RemoveGroupMember_ok in Hr as (g & b & _ & _ & _ & Ho).
    eapply outcome_in_step; [done..|]. rewrite fact_remove_group_member. simpl. by rewrite Hin'.
Qed.

Lemma elsewhere_in_step db db' t :
  well_formed db -> elsewhere db db' -> org_slot t = true -> in_step t db -> in_step t db'.
Proof.
  intros Hwf (us & az & -> & Hsub & _ & Haz) Ht Hin. unfold in_step in *. simpl. rewrite Haz, Hin by done.
  assert (Hsame : forall i m, members db !! i = Some m -> memberKcSub (with_users (with_authz db az) us) m = memberKcSub db m).
  { intros i m Hi. unfold memberKcSub. simpl. destruct (m_user m) as [uid|] eqn:Hu; [|done]. simpl.
    destruct (member_link _ (wf_members _ Hwf) _ _ _ Hi Hu) as (sub & Hs & _). rewrite Hs. by eapply lookup_weaken. }
  split; destruct 1 as [|i m sub Hi Hs| | | |]; eauto using fact.
  - eapply fact_mapped; [done|]. by rewrite (Hsame i m).
  - eapply fact_mapped; [done|]. by rewrite <- (Hsame i m).
Qed.

(** A tuple stays in step with the rows as long as no call of the history is exempt
    for it. *)
Lemma history_in_step db l db' t :
  well_formed db -> history db l db' -> org_slot t = true -> Forall (fun x => ~ exempt x t) l ->
  in_step t db -> in_step t db'.
Proof.
  intros Hwf Hh Ht. induction Hh as [|l db1 seen op db2 Hh IH Hc|l db1 db2 Hh IH He]; intros Hl Hin; [done| |].
  - rewrite Forall_app, Forall_singleton in Hl. destruct Hl as [Hl Hop].
    eapply (commits_in_step seen op db1); [by eapply history_wf|done..|]. auto.
  - eapply (elsewhere_in_step db1); [by eapply history_wf|done..|]. auto.
Qed.
End facts.
