(* ===== verification/OrgClaims.v ===== *)
(** * What the org store guarantees

    The claims about org: its tables stay well-formed, its tuples are exactly the
    facts its rows state, the authorization service never writes them, and a
    membership check of the engine says what org's own membership query says. *)

From stdpp Require Import base gmap strings list.
From Stdlib Require Import Ascii.
From S2P Require Import Prelude GoStrings Model BaseModel Tuple Eval EvalSpec EvalProofs Engine TupleStore StoreProps.
From S2P Require Import Fragment Decision Clients AuthzHTTP AuthzProps AuthzClaims OrgTree Org OrgStore OrgEffects OrgProps.

(** ** The authorization service and the org relations *)

(** An object type of the org relations belongs to no module. *)
Lemma org_slot_types t : org_slot t = true -> IsBaseType (ObjectType t) = true /\ ObjectType t <> "company_module" /\
  ObjectType t <> "system" /\ (ObjectType t = "company" -> Relation t <> "admin").
Proof.
  unfold org_slot. rewrite existsb_exists. intros ([ty r] & Hin & Heq).
  rewrite andb_true_iff, !seqb_true in Heq. destruct Heq as [-> ->].
  simpl in Hin. destruct_or! Hin; simplify_eq; (split; [by vm_compute|done]).
Qed.

(** No tuple of an authorised grants request is on an org relation, and none is an
    anchor of an org object. *)
Lemma authorized_not_org svc l c req m t x :
  effectiveEngine svc = Some l -> authorizeGrants svc l (serviceDeps svc l) c req = Ok m -> t ∈ gTuples req ->
  org_slot x = true -> t <> x /\ (is_anchor t = true -> ~ on_obj (ObjectType t) (ObjectID t) x).
Proof.
  intros Hl Ha Ht (Hb & Hcm & _ & Hadm)%org_slot_types. unfold authorizeGrants in Ha.
  destruct (isCompanyAdminAppointment req) eqn:Happ.
  - apply appointment_objects in Happ. rewrite Forall_forall in Happ. destruct (Happ t Ht) as (Hty & _ & Hr & _).
    split; [intros <-; by apply Hadm|]. unfold is_anchor. by rewrite Hr.
  - apply checkGrants_ok, resolveModule_ok in Ha as (Hf & _). rewrite Forall_forall in Hf.
    destruct (Hf t Ht) as [m' Hm']. assert (Hne : ObjectType t <> ObjectType x).
    { intros E. unfold moduleOf in Hm'. rewrite E in Hm'. rewrite (proj2 (seqb_false _ _) Hcm) in Hm'.
      destruct (TypeOwner l !! ObjectType x) as [m1|] eqn:Ho; [|done].
      apply (TypeOwner_not_base svc l _ _ Hl) in Ho. congruence. }
    clear Hb. split; [intros <-; by apply Hne|]. intros _ [Hon _]. by apply Hne.
Qed.

Lemma handleGrants_org verify uuid_ok svc f header body w r w' x :
  handleGrants verify uuid_ok svc f header body w = (r, w') -> org_slot x = true ->
  x ∈ tuples (w_db w') <-> x ∈ tuples (w_db w).
Proof.
  intros [[_ ->]|(c & req & l & m & Hp & Ha & _ & Htx & _)]%handleGrants_cases Hx; [done|].
  apply prepareGrants_ok in Hp as (_ & _ & _ & _ & _ & Hl & _). unfold grantsTx in Htx.
  assert (Hno := fun t Ht => authorized_not_org svc l c req m t x Hl Ha Ht Hx).
  destruct (seqb (Op req) "grant").
  - apply runTx_Grant_tuples in Htx. rewrite Htx, elem_of_union, elem_of_list_to_set. split; [|by right].
    intros [Hin|?]; [|done]. by destruct (Hno x Hin).
  - rewrite (runTx_Revoke_tuples _ _ _ _ _ _ Htx). split; [by intros [? _]|]. intros Hin. split; [done|].
    intros [Hin'|(a & Hin' & Hanc & _ & Hon)]; [by destruct (Hno x Hin')|]. by destruct (Hno a Hin') as [_ Hn]; apply Hn.
Qed.

Lemma writePlatformRole_org f actor sub o w res w' x :
  writePlatformRole f actor sub o w = (res, w') -> org_slot x = true -> x ∈ tuples (w_db w') <-> x ∈ tuples (w_db w).
Proof.
  intros [[-> _]|(_ & db' & Htx & -> & _)]%writePlatformRole_cases (_ & _ & Hsys & _)%org_slot_types; [done|].
  assert (Hne : x <> SuperadminTuple sub) by (by intros ->).
  apply runTx_ok in Htx as [n Hr%roleTx_ok]. destruct o; simpl in Hr.
  - destruct Hr as [_ ->]. set_solver.
  - destruct Hr as (_ & _ & ->). set_solver.
Qed.

Lemma served_org verify uuid_ok w w' x :
  served verify uuid_ok w w' -> org_slot x = true -> x ∈ tuples (w_db w') <-> x ∈ tuples (w_db w).
Proof.
  intros (svc & f & header & req & r & Hs) Hx. destruct req; simpl in Hs.
  - apply handleCan_db in Hs. by rewrite Hs.
  - apply handleBatchCan_db in Hs. by rewrite Hs.
  - by eapply handleGrants_org.
  - apply handleGrantPlatformRole_cases in Hs as [->|(c & sub & res & _ & Hs)]; [done|]. by eapply writePlatformRole_org.
  - apply handleRevokePlatformRole_cases in Hs as [[-> _]|(c & res & _ & _ & Hs & _)]; [done|]. by eapply writePlatformRole_org.
Qed.

(** An authorization request on the shared tables is one of the steps org's histories
    allow for. *)
Lemma served_elsewhere verify uuid_ok db audit w' :
  served verify uuid_ok (mkWorld (authz db) audit) w' -> unique_by Some (users db) ->
  elsewhere db (with_authz db (w_db w')).
Proof.
  intros Hs Hu. exists (users db), (w_db w'). split; [by destruct db|]. do 2 (split; [done|]). intros t Ht.
  by eapply (served_org verify uuid_ok (mkWorld (authz db) audit)).
Qed.

(** ** The engine's membership *)

(** A relation that is only assigned directly. *)
Lemma grants_this model tbl st si cid t i r :
  rel_def model t r = Some kindThis ->
  grants model tbl st si cid t i r <->
  exists row, row ∈ tuple_rows tbl t i r /\ row_this tbl st si cid (grants model tbl st si cid) row.
Proof.
  intros Hr. split.
  - intros Hg. inversion Hg as [? ? ? e He Hs]; subst. assert (e = kindThis) as -> by congruence.
    by apply satisfies_satP in Hs.
  - intros Hrow. eapply grants_def; [exact Hr|]. apply satisfies_satP. exact Hrow.
Qed.

Lemma base_company_member : rel_def BaseModel "company" "member" = Some kindThis.
Proof. by vm_compute. Qed.

Lemma base_mapped_user : rel_def BaseModel "member" "mapped_user" = Some kindThis.
Proof. by vm_compute. Qed.

Section membership.
Context `{UT : UUIDText} (db : OrgDB) (cid kcSub : string).
Context (Hstep : forall t, org_slot t = true -> in_step t db).
Abbreviation tbl := (tuples (authz db)).

Lemma slot_fact t : org_slot t = true -> t ∈ tbl <-> fact db t.
Proof. apply Hstep. Qed.

(** What is on the two relations of the chain. *)
Lemma mapped_user_fact i st si sr :
  fact db (mkTuple "member" i "mapped_user" st si sr) <->
  exists id m, i = uuidString id /\ members db !! id = Some m /\ memberKcSub db m = Some si /\ st = "user" /\ sr = "".
Proof.
  split.
  - intros Hf. inversion Hf; subst; eauto 10.
  - intros (id & m & -> & Hm & Hs & -> & ->). by apply (fact_mapped db id m si).
Qed.

Lemma company_member_fact c st si sr :
  fact db (mkTuple "company" (uuidString c) "member" st si sr) <->
  exists id m, si = uuidString id /\ members db !! id = Some m /\ m_active m = true /\ m_company m = c /\
    st = "member" /\ sr = "mapped_user".
Proof.
  split.
  - intros Hf. inversion Hf; subst; match goal with E : uuidString _ = uuidString _ |- _ => apply uuidString_inj in E as <- end;
      eauto 10.
  - intros (id & m & -> & Hm & Ha & <- & -> & ->). by apply (fact_member db id m).
Qed.

Lemma mapped_user_granted id :
  grants BaseModel tbl "user" kcSub cid "member" (uuidString id) "mapped_user" <->
  exists m, members db !! id = Some m /\ memberKcSub db m = Some kcSub.
Proof.
  rewrite (grants_this _ _ _ _ _ _ _ _ base_mapped_user). split.
  - intros ([st si sr] & Hin & Hrow). apply elem_of_tuple_rows in Hin. simpl in Hin.
    apply slot_fact, mapped_user_fact in Hin; [|done]. destruct Hin as (id' & m & <-%uuidString_inj & Hm & Hs & -> & ->).
    unfold row_this in Hrow. simpl in Hrow. destruct Hrow as [_ ->]. eauto.
  - intros (m & Hm & Hs). exists (mkRow "user" kcSub ""). split.
    + apply elem_of_tuple_rows. apply slot_fact; [done|]. simpl. apply mapped_user_fact. eauto 10.
    + by unfold row_this.
Qed.

(** The engine grants company#member to exactly the active members the account is
    linked to, in a check without a company or bound to this one. *)
Lemma company_member_granted c :
  cid = "" \/ cid = uuidString c ->
  grants BaseModel tbl "user" kcSub cid "company" (uuidString c) "member" <->
  exists id m, members db !! id = Some m /\ m_company m = c /\ m_active m = true /\ memberKcSub db m = Some kcSub.
Proof.
  intros Hcid. rewrite (grants_this _ _ _ _ _ _ _ _ base_company_member). split.
  - intros ([st si sr] & Hin & Hrow). apply elem_of_tuple_rows in Hin. simpl in Hin.
    apply slot_fact, company_member_fact in Hin; [|done]. destruct Hin as (id & m & -> & Hm & Ha & Hc & -> & ->).
    unfold row_this in Hrow. simpl in Hrow. destruct Hrow as [_ Hg]. apply mapped_user_granted in Hg as (m' & Hm' & Hs).
    simplify_eq. eauto 10.
  - intros (id & m & Hm & Hc & Ha & Hs).
    assert (Hin : companyMemberTuple c id ∈ tbl) by (apply slot_fact; [done|]; subst c; by apply fact_member).
    exists (mkRow "member" (uuidString id) "mapped_user"). split; [by apply elem_of_tuple_rows|].
    unfold row_this. simpl. split; [|apply mapped_user_granted; eauto].
    unfold in_company. destruct Hcid as [->| ->]; [done|]. case_match; [done|]. simpl. by apply bool_decide_eq_true.
Qed.

(** The membership query, which the unique constraints make a function. *)
Lemma memberByKcSub_spec c id m :
  well_formed db -> memberByKcSub db c kcSub = Some (id, m) <->
  members db !! id = Some m /\ m_company m = c /\ memberKcSub db m = Some kcSub.
Proof.
  intros Hwf. unfold memberByKcSub. split.
  - intros ([i [k v]] & E & [= <- <-])%fmap_Some. apply list_find_Some in E as (E & [Hc Hs] & _).
    split; [|done]. by apply elem_of_map_to_list, list_elem_of_lookup_2 with i.
  - intros (Hm & Hc & Hs).
    destruct (list_find _ _) as [[i [k v]]|] eqn:E; simpl.
    + apply list_find_Some in E as (E & [Hc' Hs'] & _). apply list_elem_of_lookup_2, elem_of_map_to_list in E. simpl in *.
      unfold memberKcSub in Hs, Hs'. destruct (m_user m) as [u1|] eqn:U1, (m_user v) as [u2|] eqn:U2; try done. simpl in *.
      assert (u1 = u2) as <- by (by apply (user_unique _ (wf_members _ Hwf) u1 u2 kcSub kcSub kcSub)).
      assert (k = id) as ->.
      { apply (link_unique _ (wf_members _ Hwf) k id v m (c, u1)); [done..| |]; unfold link_key;
          [by rewrite U2, Hc'|by rewrite U1, Hc]. }
      simplify_eq. done.
    + apply list_find_None in E. rewrite Forall_forall in E. exfalso. apply (E (id, m)); [by apply elem_of_map_to_list|done].
Qed.
End membership.

(** ** One holder a day *)

Lemma before_end_le d d' to : (d <= d')%Z -> before_end d' to -> before_end d to.
Proof. destruct to; simpl; lia. Qed.

Lemma holds_on_overlaps p d a b : holds_on p d a -> holds_on p d b -> overlaps a b.
Proof.
  intros (Ha & Hfa & Hta) (Hb & Hfb & Htb). unfold overlaps. split; [congruence|].
  split_and!; eapply before_end_le; eauto.
Qed.

Lemma assignmentOnDate_spec db p d i a :
  assignments_ok db -> assignmentOnDate db p d = Some (i, a) <-> assignments db !! i = Some a /\ holds_on p d a.
Proof.
  intros Hok. unfold assignmentOnDate. split.
  - intros ([k [j b]] & E & [= <- <-])%fmap_Some. apply list_find_Some in E as (E & Hh & _).
    split; [|done]. by apply elem_of_map_to_list, list_elem_of_lookup_2 with k.
  - intros [Hi Hh]. destruct (list_find _ _) as [[k [j b]]|] eqn:E; simpl.
    + apply list_find_Some in E as (E & Hh' & _). apply list_elem_of_lookup_2, elem_of_map_to_list in E. simpl in *.
      assert (j = i) as -> by (apply dec_stable; intros Hne; apply (assignment_disjoint _ Hok j i b a E Hi Hne);
        by eapply holds_on_overlaps). congruence.
    + apply list_find_None in E. rewrite Forall_forall in E. exfalso. apply (E (i, a)); [by apply elem_of_map_to_list|done].
Qed.

(** Two open windows of one position overlap. *)
Lemma open_overlap a b : as_position a = as_position b -> as_to a = None -> as_to b = None -> overlaps a b.
Proof. unfold overlaps. intros -> -> ->. done. Qed.

Section handover.
Context `{UC : Unicode} `{UT : UUIDText} (fails : nat -> bool) (seen : nat -> OrgDB) (today : Date).
Context (newID : UUID) (actor : string) (positionID memberID : UUID) (expected : option UUID).

(** The rows after a handover that changed the holder. *)
Lemma Handover_rows db endedID ended created db' :
  well_formed db ->
  runOrg (Handover fails seen today newID actor positionID memberID expected) db = Ok ((Some (endedID, ended), created), db') ->
  created = (newID, mkAssignment positionID memberID today None) /\
  exists held, assignments db !! endedID = Some held /\ holds_on positionID today held /\ ended = set_to today held /\
    as_member held <> memberID /\ (forall e, expected = Some e -> e = endedID) /\ assignments db !! newID = None /\
    assignments db' = <[newID := created.2]> (<[endedID := ended]> (assignments db)).
Proof.
  intros Hwf (hid & held & m & Hheld & _ & _ & [(_ & E & _)|(Hne & Hexp & e & x1 & x2 & E & Hu & Hi & Ho)])%Handover_ok;
    [discriminate E|]. injection E as -> -> ->.
  apply assignmentOnDate_spec in Hheld as [Hheld Hh]; [|apply Hwf].
  apply updateAssignment_ok in Hu as (a0 & Ha0 & -> & _ & _ & ->). rewrite Hheld in Ha0. injection Ha0 as <-.
  apply insertAssignment_ok in Hi as (_ & _ & Hn & _ & _ & ->). destruct Ho as (az & au & -> & _). simpl in Hn.
  split; [done|]. exists held. apply lookup_insert_None in Hn as [Hn _]. split_and!; try done. intros e ->. naive_solver.
Qed.

Lemma handover_commits db r db' :
  runOrg (Handover fails seen today newID actor positionID memberID expected) db = Ok (r, db') ->
  commits seen (opHandover newID actor positionID memberID expected) db db'.
Proof.
  intros [n Hr]%runOrg_ok. exists fails, today. apply runOrg_ok. exists n. simpl. unfold discard. apply tbind_ok. eauto.
Qed.

(** A holder on a day before the handover is the same member before and after. *)
Lemma past_holders db db' endedID held d :
  well_formed db -> well_formed db' -> assignments db !! endedID = Some held -> assignments db !! newID = None ->
  assignments db' = <[newID := mkAssignment positionID memberID today None]> (<[endedID := set_to today held]> (assignments db)) ->
  holds_on positionID today held -> (d < today)%Z ->
  (as_member ∘ snd) <$> assignmentOnDate db' positionID d = (as_member ∘ snd) <$> assignmentOnDate db positionID d.
Proof.
  intros Hwf Hwf' Hheld Hn Hrows Hh Hd. apply option_eq. intros m. rewrite !fmap_Some.
  split; intros ([i a] & Ha & ->).
  - apply assignmentOnDate_spec in Ha as [Hi Hon]; [|apply Hwf']. rewrite Hrows, !lookup_insert_Some in Hi.
    destruct Hi as [[<- <-]|[Hni [[<- <-]|[Hne Hi]]]].
    + destruct Hon as (_ & Hf & _). simpl in Hf. lia.
    + exists (endedID, held). split; [|done]. apply assignmentOnDate_spec; [apply Hwf|]. split; [done|].
      destruct Hon as (Hp & Hf & _), Hh as (_ & _ & Ht). split; [done|]. split; [done|]. eapply before_end_le; [|exact Ht]. lia.
    + exists (i, a). split; [|done]. by apply assignmentOnDate_spec; [apply Hwf|].
  - apply assignmentOnDate_spec in Ha as [Hi Hon]; [|apply Hwf]. destruct (decide (i = endedID)) as [->|Hne].
    + simplify_eq. exists (endedID, set_to today held). split; [|done]. apply assignmentOnDate_spec; [apply Hwf'|].
      split; [rewrite Hrows, lookup_insert_ne by congruence; apply lookup_insert_eq|]. destruct Hon as (Hp & Hf & _). by split_and!.
    + exists (i, a). split; [|done]. apply assignmentOnDate_spec; [apply Hwf'|]. split; [|done].
      rewrite Hrows, !lookup_insert_ne by congruence. done.
Qed.

(** An open assignment is the only one of its position. *)
Lemma holder_fact_open db m :
  well_formed db -> assignments db !! newID = Some (mkAssignment positionID memberID today None) ->
  fact db (holderTuple positionID m) <-> m = memberID.
Proof.
  intros Hwf Hnew. split.
  - intros Hf. inversion Hf as [| | | |i a Hi Hto E|]. repeat match goal with E : uuidString _ = uuidString _ |- _ => apply uuidString_inj in E end.
    destruct (decide (i = newID)) as [->|Hne]; [rewrite Hnew in Hi; by injection Hi as <-|]. exfalso.
    by apply (assignment_disjoint _ (wf_assignments _ Hwf) _ _ _ _ Hi Hnew Hne), open_overlap.
  - intros ->. by apply (fact_holder db newID (mkAssignment positionID memberID today None)).
Qed.
End handover.

(** ** A small company *)

Fixpoint ones (n : nat) : string := match n with O => "" | S n' => String "1"%char (ones n') end.

Lemma ones_inj a b : ones a = ones b -> a = b.
Proof. revert b. induction a as [|a IH]; intros [|b]; simpl; [done..|]. intros [= E]. f_equal. auto. Qed.

Lemma ones_nul_free n : nul_free (ones n).
Proof. unfold nul_free. by induction n. Qed.

(** Ids written in unary. *)
#[local] Instance demoUUIDText : UUIDText.
Proof.
  refine {| uuidString := fun id => String "u"%char (ones (N.to_nat id)) |}.
  - abstract (intros a b [= E%ones_inj]; by apply N2Nat.inj).
  - abstract (by intros a).
  - abstract (intros a; apply ones_nul_free).
Defined.

#[local] Instance demoUnicode : Unicode := {|
  unicodeTrimSpace := id; unicodeToUpper := id; unicodeFields := fun s => [s] |}.

Definition demoOrg0 : OrgDB :=
  mkOrg {["company" := true; "team" := false]} ∅ ∅ ∅ ∅ ∅ ∅ {[0%N := "ann"; 1%N := "bob"]} (mkDB ∅ [] ∅) [].

Definition never (_ : nat) : bool := false.
Definition after (op : orgOp) (db : OrgDB) : OrgDB :=
  match runOrg (method never (fun _ => db) 10 op) db with Ok (_, db') => db' | Err _ => db end.

(** Calls one after the other, each of which finds what the one before it left. *)
Fixpoint run_all (ops : list orgOp) (db : OrgDB) : list orgCall * OrgDB :=
  match ops with
  | [] => ([], db)
  | op :: ops' => let '(l, db') := run_all ops' (after op db) in (mkCall db (fun _ => db) op :: l, db')
  end.

Fixpoint all_commit (ops : list orgOp) (db : OrgDB) : bool :=
  match ops with
  | [] => true
  | op :: ops' => match runOrg (method never (fun _ => db) 10 op) db with Ok (_, db') => all_commit ops' db' | Err _ => false end
  end.

Lemma history_cons db seen op db1 l db2 : commits seen op db db1 -> history db1 l db2 -> history db (mkCall db seen op :: l) db2.
Proof.
  intros Hc. induction 1 as [|l db2 seen' op' db3 Hh IH Hc'|l db2 db3 Hh IH He].
  - apply (history_op db [] db seen op); [constructor|done].
  - by apply (history_op db (mkCall db seen op :: l) db2).
  - by eapply history_elsewhere.
Qed.

Lemma run_all_history ops db : all_commit ops db = true -> history db (run_all ops db).1 (run_all ops db).2.
Proof.
  revert db. induction ops as [|op ops IH]; intros db; simpl; [constructor|].
  intros Hc. destruct (runOrg (method never (fun _ => db) 10 op) db) as [[[] db1]|] eqn:Hr; [|done].
  assert (Ha : after op db = db1) by (unfold after; by rewrite Hr). rewrite Ha.
  specialize (IH _ Hc). destruct (run_all ops db1) as [l db']. eapply history_cons; [|done]. by exists never, 10%Z.
Qed.

Definition demoOps : list orgOp :=
  [ opCreateOrgUnit 0 [] "a" "company" None "acme" "Acme" true;
    opCreateOrgUnit 1 [] "a" "team" (Some 0%N) "ops" "Operations" true;
    opCreateMember 2 "a" 0 "m1" "Ann" "" true false;
    opCreateMember 3 "a" 0 "m2" "Bob" "b@acme" true false;
    opLinkUser "a" (Some true) 2 "ann";
    opCreatePosition 4 "a" 0 "head" "Head" 1;
    opAssignNow 5 "a" 4 2 ].

Definition demoOrg : OrgDB := (run_all demoOps demoOrg0).2.

Lemma demo_history : history demoOrg0 (run_all demoOps demoOrg0).1 demoOrg.
Proof. apply run_all_history. by vm_compute. Qed.

Lemma demo_start : well_formed demoOrg0.
Proof.
  split; split; simpl; try (by intros ? ? ?); try (by intros ? ? ? ?); try (by intros ? ? ? ? ?).
  - intros i [u Hu]. done.
  - intros i j a b k Ha Hb [= ->] [= ->].
    rewrite lookup_insert_Some, lookup_singleton_Some in Ha, Hb. naive_solver.
  - intros i j [b Hb]. done.
Qed.

Lemma demo_start_in_step t : org_slot t = true -> in_step t demoOrg0.
Proof. intros _. split; [by intros ?%elem_of_empty|]. by destruct 1 as [? ? Hm|? ? ? Hm|? ? Hm|? ? Hm|? ? Hm|? ? [? Hm]]. Qed.

(** ** Claims *)

(** C18: the tables stay well-formed.  Over every history of committed calls, whatever their
    unlocked SELECTs found, interleaved with the rest of the platform, the units form a forest whose roots are
    exactly the companies, every member, position and group belongs to a company, every
    position's unit hangs from the position's own company, an assignment is of a member
    of the position's company, the windows of one position never overlap, every stored
    code matches the code pattern and the keys are unique.  In particular the company
    that resolveRootCompany finds for a position's unit is the position's. *)
Theorem org_tables_well_formed `{UC : Unicode} `{UT : UUIDText} db l db' :
  well_formed db -> history db l db' ->
  well_formed db' /\
  forall k p, positions db' !! k = Some p -> resolveRootCompany (units db') (p_unit p) = Some (p_company p).
Proof.
  intros Hwf Hh. assert (Hwf' := history_wf _ _ _ Hwf Hh). split; [done|]. intros k p Hp.
  destruct (position_company _ (wf_positions _ Hwf') _ _ Hp) as [_ Hr].
  apply resolveRootCompany_spec; [apply Hwf'| |done]. destruct Hr as (pl & Hpl & _). by eapply path_in.
Qed.

Lemma org_tables_well_formed_witness :
  positions demoOrg !! 4%N = Some (mkPosition 0 "HEAD" "Head" 1) /\ resolveRootCompany (units demoOrg) 1 = Some 0%N.
Proof.
  assert (Hp : positions demoOrg !! 4%N = Some (mkPosition 0 "HEAD" "Head" 1)) by (by vm_compute).
  split; [exact Hp|]. destruct (org_tables_well_formed demoOrg0 _ demoOrg demo_start demo_history) as [_ Hr].
  exact (Hr 4%N _ Hp).
Defined.

(** C17: org's tuples are its facts, but for the calls that are named here.  Over every
    history from a state in step, whatever each call's unlocked SELECTs found, a tuple of one
    of the six org relations is in the table exactly when the rows state it: an active
    member of its company, a member linked to an account, a member in a group, a position or
    a group of its company, and an open assignment.  A tuple is exempt only where a call
    leaves it behind: the old account's tuple when a linked member is linked again; for
    create-and-assign the new position's company tuple and the holder tuple of a window that
    has an end; and three races at READ COMMITTED.  They are a member's tuple when an update
    of it finds the flag as it sets it, and another update changes it before the first one
    writes; the tuple of the account that a member was linked to after an unlink of it had
    read another, or none; and a group member's tuple when the row that adding it again
    found is removed before the tuple is granted. *)
Theorem org_tuples_exact `{UC : Unicode} `{UT : UUIDText} db l db' t :
  well_formed db -> in_step t db -> history db l db' -> org_slot t = true ->
  Forall (fun x => ~ exempt x t) l ->
  t ∈ tuples (authz db') <-> fact db' t.
Proof. intros Hwf Hin Hh Ht Hl. by eapply history_in_step. Qed.

Lemma demo_regular : Forall (fun x => regular x = true) (run_all demoOps demoOrg0).1.
Proof. by repeat constructor. Qed.

Lemma org_tuples_exact_witness :
  mappedUserTuple 2 "ann" ∈ tuples (authz demoOrg) <-> fact demoOrg (mappedUserTuple 2 "ann").
Proof.
  apply (org_tuples_exact demoOrg0 (run_all demoOps demoOrg0).1 demoOrg).
  - exact demo_start.
  - by apply demo_start_in_step.
  - exact demo_history.
  - reflexivity.
  - eapply Forall_impl; [exact demo_regular|]. intros x. apply regular_exempt.
Defined.

(** The authorization service never writes org's relations.  Whatever request it
    serves, under whatever upstream answers and failures, every tuple on company#member,
    member#mapped_user, position#holder, position#company, group#member and
    group#company is there afterwards exactly if it was before, so a request is a step
    that org's histories allow for. *)
Theorem requests_leave_org_tuples verify uuid_ok db audit w' :
  unique_by Some (users db) -> served verify uuid_ok (mkWorld (authz db) audit) w' ->
  elsewhere db (with_authz db (w_db w')).
Proof. intros Hu Hs. by eapply served_elsewhere. Qed.

Definition demoRequest : Reply * World :=
  serve demoVerify demoUUID (demoService (tuples (authz demoOrg))) noFaults "Bearer ann"
    (ReqGrantRole (Some ("bob", PlatformRoleSuperadmin))) (mkWorld (authz demoOrg) []).

Lemma requests_leave_org_tuples_witness : elsewhere demoOrg (with_authz demoOrg (w_db demoRequest.2)).
Proof.
  apply (requests_leave_org_tuples demoVerify demoUUID demoOrg []).
  - exact (user_unique _ (wf_members _ (history_wf _ _ _ demo_start demo_history))).
  - do 5 eexists. unfold demoRequest. apply surjective_pairing.
Defined.

(** C19: the two sources of membership agree, unless updates race.  Over every history from
    a state in step in which no call is one of those that leave a tuple behind (a member
    linked again, create-and-assign, an update or an unlink of a member whose flag or link
    changed between its read and its write, or adding a group member that is removed
    meanwhile), if a check of company#member under the base model answers for an account,
    bound to that company or to none, its answer is true exactly when org's own membership
    query finds an active member with that account: the engine, which reads the tuples, and
    org, which reads its rows, agree. *)
Theorem member_check_agrees `{UC : Unicode} `{UT : UUIDText} db0 l db edb fails c cid kcSub b f db' :
  well_formed db0 -> (forall t, org_slot t = true -> in_step t db0) -> history db0 l db ->
  Forall (fun x => regular x = true) l ->
  clean_table (tuples (authz db)) -> db_answers (tuples (authz db)) True edb -> (cid = "" \/ cid = uuidString c) ->
  CheckInCompany BaseModel edb "company" (uuidString c) "member" "user" kcSub cid = Ok b ->
  runOrg (MemberFactByKcSub fails c kcSub) db = Ok (f, db') ->
  b = IsMember f && IsActive f.
Proof.
  intros Hwf0 Hin0 Hh Hreg Hclean Hdb Hcid Hb Hf. assert (Hwf := history_wf _ _ _ Hwf0 Hh).
  assert (Hin : forall t, org_slot t = true -> in_step t db).
  { intros t Ht. apply (history_in_step db0 l db t Hwf0 Hh Ht); [|exact (Hin0 t Ht)].
    eapply Forall_impl; [exact Hreg|]. intros x. apply regular_exempt. }
  clear Hwf0 Hin0 Hh Hreg.
  assert (Ho := check_outcome BaseModel (tuples (authz db)) edb True "company" (uuidString c) "member" "user" kcSub cid
    Hclean eq_refl (uuidString_nul_free c) Hdb). rewrite Hb in Ho. clear Hb Hdb.
  rewrite (company_member_granted db cid kcSub Hin c Hcid) in Ho.
  apply runOrg_ok in Hf as [n [Hf _]%query_ok]. apply eq_true_iff_eq. rewrite Ho, andb_true_iff.
  destruct (memberByKcSub db c kcSub) as [[id m]|] eqn:E; injection Hf as <-; simpl.
  - apply memberByKcSub_spec in E as (Hm & Hc & Hs); [|done]. split.
    + intros (id' & m' & Hm' & Hc' & Ha' & Hs'). split; [done|].
      assert (E' : memberByKcSub db c kcSub = Some (id', m')) by (by apply memberByKcSub_spec).
      assert (E : memberByKcSub db c kcSub = Some (id, m)) by (by apply memberByKcSub_spec). congruence.
    + intros [_ Ha]. eauto 10.
  - split; [|by intros []]. intros (id' & m' & Hm' & Hc' & Ha' & Hs').
    assert (E' : memberByKcSub db c kcSub = Some (id', m')) by (by apply memberByKcSub_spec). congruence.
Qed.

Lemma demo_in_step t : org_slot t = true -> in_step t demoOrg.
Proof.
  intros Ht. apply (history_in_step demoOrg0 (run_all demoOps demoOrg0).1 demoOrg t demo_start demo_history Ht).
  - eapply Forall_impl; [exact demo_regular|]. intros x. apply regular_exempt.
  - by apply demo_start_in_step.
Qed.

Lemma demo_wf : well_formed demoOrg.
Proof. exact (history_wf _ _ _ demo_start demo_history). Qed.

Lemma demo_clean : clean_table (tuples (authz demoOrg)).
Proof. apply clean_table_check. vm_compute. reflexivity. Qed.

Lemma MemberFact_found db c kcSub id m :
  memberByKcSub db c kcSub = Some (id, m) ->
  runOrg (MemberFactByKcSub never c kcSub) db = Ok (mkFact true (m_active m) (m_guest m) (Some id), db).
Proof. intros E. apply runOrg_ok. exists 1. unfold MemberFactByKcSub, query, statement. simpl. by rewrite E. Qed.

Lemma demo_member : memberByKcSub demoOrg 0 "ann" = Some (2%N, mkMember 0 "M1" "Ann" None (Some 0%N) true false).
Proof. by vm_compute. Qed.

Lemma member_check_agrees_witness :
  CheckInCompany BaseModel (db_of (tuples (authz demoOrg))) "company" "u" "member" "user" "ann" "u" = Ok true /\
  true = IsMember (mkFact true true false (Some 2%N)) && IsActive (mkFact true true false (Some 2%N)).
Proof.
  assert (Hb : CheckInCompany BaseModel (db_of (tuples (authz demoOrg))) "company" "u" "member" "user" "ann" "u" = Ok true)
    by (by vm_compute).
  split; [exact Hb|].
  apply (member_check_agrees demoOrg0 (run_all demoOps demoOrg0).1 demoOrg (db_of (tuples (authz demoOrg))) never 0%N "u" "ann"
    true (mkFact true true false (Some 2%N)) demoOrg).
  - exact demo_start.
  - exact demo_start_in_step.
  - exact demo_history.
  - exact demo_regular.
  - exact demo_clean.
  - exact (db_of_may_fail _).
  - by right.
  - exact Hb.
  - exact (MemberFact_found demoOrg 0 "ann" _ _ demo_member).
Defined.

(** A handover hands the position over at once.  If it ends an assignment, that
    was the current one (and the one the caller expected), of another member, and it
    ends today; from today on the position's holder is the new member, on the days
    before it is who it was, no other assignment changes, and the new member's is the
    only holder tuple of the position. *)
Theorem Handover_exact `{UC : Unicode} `{UT : UUIDText} fails seen today newID actor positionID memberID expected
    db endedID ended created db' :
  well_formed db -> (forall m, in_step (holderTuple positionID m) db) ->
  runOrg (Handover fails seen today newID actor positionID memberID expected) db = Ok ((Some (endedID, ended), created), db') ->
  (expected = None \/ expected = Some endedID) /\
  (fst <$> assignmentOnDate db positionID today = Some endedID) /\ as_to ended = Some today /\ as_member ended <> memberID /\
  as_member created.2 = memberID /\
  (forall d, (today <= d)%Z -> assignmentOnDate db' positionID d = Some created) /\
  (forall d, (d < today)%Z -> (as_member ∘ snd) <$> assignmentOnDate db' positionID d =
                            (as_member ∘ snd) <$> assignmentOnDate db positionID d) /\
  (forall i, i <> endedID -> i <> created.1 -> assignments db' !! i = assignments db !! i) /\
  (forall m, holderTuple positionID m ∈ tuples (authz db') <-> m = memberID).
Proof.
  intros Hwf Hin Hr. assert (Hwf' : well_formed db') by (eapply commits_wf; [done|]; by eapply handover_commits).
  destruct (Handover_rows _ _ _ _ _ _ _ _ _ _ _ _ _ Hwf Hr) as (-> & held & Hheld & Hh & -> & Hne & Hexp & Hn & Hrows).
  assert (Hnew : assignments db' !! newID = Some (mkAssignment positionID memberID today None)) by (rewrite Hrows; apply lookup_insert_eq).
  split; [destruct expected; [right; f_equal; auto|by left]|]. split_and!; simpl; try done.
  - apply fmap_Some. exists (endedID, held). split; [|done]. by apply assignmentOnDate_spec; [apply Hwf|].
  - intros d Hd. apply assignmentOnDate_spec; [apply Hwf'|]. split; [done|]. by unfold holds_on.
  - intros d Hd. by eapply past_holders.
  - intros i Hi1 Hi2. rewrite Hrows. by rewrite !lookup_insert_ne.
  - intros m. assert (Hin' : in_step (holderTuple positionID m) db').
    { eapply (commits_in_step seen (opHandover newID actor positionID memberID expected)); [exact Hwf| |done|by intros []|apply Hin].
      by eapply handover_commits. }
    unfold in_step in Hin'. rewrite Hin'. by eapply holder_fact_open.
Qed.

Definition answer {A} (r : result org_error (A * OrgDB)) : option A := match r with Ok (a, _) => Some a | Err _ => None end.
Definition committed {A} (r : result org_error (A * OrgDB)) (db : OrgDB) : OrgDB :=
  match r with Ok (_, db') => db' | Err _ => db end.

Lemma answer_committed {A} (r : result org_error (A * OrgDB)) db a : answer r = Some a -> r = Ok (a, committed r db).
Proof. destruct r as [[? ?]|]; [|done]. by intros [= ->]. Qed.

Definition demoHanded : OrgDB := committed (runOrg (Handover never (fun _ => demoOrg) 12 6 "a" 4 3 (Some 5%N)) demoOrg) demoOrg.

Lemma demo_handover :
  runOrg (Handover never (fun _ => demoOrg) 12 6 "a" 4 3 (Some 5%N)) demoOrg =
  Ok ((Some (5%N, mkAssignment 4 2 10 (Some 12%Z)), (6%N, mkAssignment 4 3 12 None)), demoHanded).
Proof. apply answer_committed. by vm_compute. Qed.

Lemma Handover_exact_witness :
  assignmentOnDate demoHanded 4 13 = Some (6%N, mkAssignment 4 3 12 None) /\
  (holderTuple 4 2 ∈ tuples (authz demoHanded) <-> 2%N = 3%N).
Proof.
  destruct (Handover_exact never (fun _ => demoOrg) 12 6 "a" 4 3 (Some 5%N) demoOrg _ _ _ demoHanded demo_wf
    (fun m => demo_in_step (holderTuple 4 m) eq_refl) demo_handover) as (_ & _ & _ & _ & _ & Hfrom & _ & _ & Htuple).
  split; [apply (Hfrom 13%Z); lia|apply (Htuple 2%N)].
Defined.

(** ** Where the store falls short of its own rules *)

Definition does (ops : list orgOp) (db : OrgDB) (P : OrgDB -> bool) : bool := all_commit ops db && P (run_all ops db).2.
Definition has (t : Tuple) (db : OrgDB) : bool := bool_decide (t ∈ tuples (authz db)).

(** A call that commits on these tables after its unlocked SELECTs found older ones. *)
Definition late (old : OrgDB) (op : orgOp) (db : OrgDB) : OrgDB :=
  match runOrg (method never (fun _ => old) 10 op) db with Ok (_, db') => db' | Err _ => db end.
(** What the engine and org say of an account's membership of the company. *)
Definition engine_says (kcSub : string) (db : OrgDB) : option bool :=
  match CheckInCompany BaseModel (db_of (tuples (authz db))) "company" (uuidString 0) "member" "user" kcSub "" with Ok b => Some b | Err _ => None end.
Definition org_says (kcSub : string) (db : OrgDB) : option bool :=
  match runOrg (MemberFactByKcSub never 0 kcSub) db with Ok (f, _) => Some (IsMember f && IsActive f) | Err _ => None end.
Definition setActive (b : bool) : orgOp := opUpdateMember "a" 2 "Ann" "" b None.

(** Two updates of a member read its row without a lock.  One that keeps it active, and
    commits after one that deactivated it, grants nothing: the member is active in org and
    not in the engine. *)
Example update_race_loses_membership :
  let db := late demoOrg (setActive true) (after (setActive false) demoOrg) in
  org_says "ann" db = Some true /\ engine_says "ann" db = Some false.
Proof. by vm_compute. Qed.

(** One that keeps it inactive, and commits after one that activated it, revokes nothing:
    the member is deactivated in org and stays one in the engine. *)
Example update_race_keeps_membership :
  let inactive := after (setActive false) demoOrg in
  let db := late inactive (setActive false) (after (setActive true) inactive) in
  org_says "ann" db = Some false /\ engine_says "ann" db = Some true.
Proof. by vm_compute. Qed.

(** An unlink that read the account before the member was linked to another one leaves that
    one's tuple: the member has no account, and the engine maps it to bob. *)
Example unlink_race_keeps_account :
  let relinked := (run_all [opUnlinkUser "a" 2; opLinkUser "a" (Some true) 2 "bob"] demoOrg).2 in
  let db := late demoOrg (opUnlinkUser "a" 2) relinked in
  linked db 2 = None /\ has (mappedUserTuple 2 "bob") db = true /\ engine_says "bob" db = Some true.
Proof. by vm_compute. Qed.

(** Adding a member to a group again, while it is removed, grants the tuple without the
    row. *)
Example group_add_race_keeps_tuple :
  let grouped := (run_all [opCreateGroup 6 "a" 0 "staff" "Staff"; opAddGroupMember "a" 6 2] demoOrg).2 in
  let db := late grouped (opAddGroupMember "a" 6 2) (after (opRemoveGroupMember "a" 6 2) grouped) in
  groupMembers db !! (6%N, 2%N) = None /\ has (groupMemberTuple 6 2) db = true.
Proof. by vm_compute. Qed.

(** Linking a linked member to another account leaves the first account mapped. *)
Example relink_keeps_old_account :
  does [opLinkUser "a" (Some true) 2 "bob"] demoOrg (fun db => has (mappedUserTuple 2 "ann") db && has (mappedUserTuple 2 "bob") db) = true.
Proof. by vm_compute. Qed.

(** A position made by create-and-assign has no company tuple, and a member that was
    deactivated can be its holder. *)
Example create_and_assign_unanchored :
  does [opUpdateMember "a" 3 "Bob" "" false None;
        opCreateAndAssign 6 7 "a" 0 "deputy" "Deputy" 1 3 10 None] demoOrg
    (fun db => has (holderTuple 6 3) db && negb (has (orgObjectCompanyTuple "position" 6 0) db)) = true.
Proof. by vm_compute. Qed.

(** A window with an end in the future cannot be ended, before or after, so its holder
    tuple stays. *)
Example create_and_assign_stale_holder :
  does [opCreateAndAssign 6 7 "a" 0 "deputy" "Deputy" 1 3 10 (Some 20%Z)] demoOrg
    (fun db => has (holderTuple 6 3) db &&
       match runOrg (EndAssignment never (fun _ => db) 30 "a" 7) db with Err ErrAssignmentAlreadyEnded => true | _ => false end) = true.
Proof. by vm_compute. Qed.

(** Moving a unit under a parent that does not exist is not a validation error. *)
Example move_to_missing_parent :
  match runOrg (UpdateOrgUnit never [] "a" 1 (Some 9%N) "ops" "Operations" true) demoOrg with
  | Err ErrDatabase => true
  | _ => false
  end = true.
Proof. by vm_compute. Qed.
