(* ===== verification/OrgHTTP.v ===== *)
(** * The org HTTP surface

    internal/org/http.go: the handlers that change state.  Each parses the request,
    reads what it needs to know the company, asks the authorization service and ends in
    one call of the store; what comes before that call is the handler's definition
    here, a function from the database at that moment to the call or to a reply.
    [serveOrg] then runs the call, on the database of a later moment.  The reads are in
    OrgReads.  UUID and JWT parsing are third-party packages. *)

From stdpp Require Import base gmap strings list.
From Stdlib Require Import Ascii.
From S2P Require Import Prelude GoStrings AuthzHTTP AdminClient TupleStore OrgTree Org OrgStore OrgProps.

(** ** Replies *)

(** errenv's envelopes: the status; for an error its code and the field or reason in
    its details. *)
Inductive orgReply : Type :=
| WriteData (status : Z)
| WriteError (status : Z) (code detail : string).

Definition replyStatus (r : orgReply) : Z := match r with WriteData s => s | WriteError s _ _ => s end.

(** [writeStoreError] *)
Definition writeStoreError (err : org_error) : orgReply :=
  match err with
  | ValidationError field => WriteError 422 "VALIDATION_ERROR" field
  | ErrOrgUnitNotFound | ErrMemberNotFound | ErrPositionNotFound | ErrAssignmentNotFound | ErrGroupNotFound
  | ErrGroupMemberNotFound => WriteError 404 "NOT_FOUND" ""
  | ErrAssignmentAlreadyEnded => WriteError 409 "ASSIGNMENT_ALREADY_ENDED" ""
  | ErrGroupExternallyManaged => WriteError 409 "GROUP_EXTERNALLY_MANAGED" ""
  | ErrOrgUnitHasChildren | ErrOrgUnitHasMembers => WriteError 422 "VALIDATION_ERROR" "id"
  | PositionHeldError _ _ => WriteError 409 "POSITION_HELD" ""
  | PositionBoundError _ => WriteError 409 "CONFLICT" ""
  | ReferencedError table => WriteError 409 "CONFLICT" table
  | ErrConflict => WriteError 409 "CONFLICT" ""
  | ErrAuthz _ | ErrDatabase => WriteError 500 "INTERNAL_ERROR" ""
  end.

(** ** Dates *)

Definition digit (c : ascii) : option Z :=
  let n := Z.of_N (N_of_ascii c) in if ((48 <=? n) && (n <=? 57))%Z then Some (n - 48)%Z else None.

Definition leapYear (y : Z) : bool := ((y mod 4 =? 0) && (negb (y mod 100 =? 0) || (y mod 400 =? 0)))%Z.

Definition daysIn (m y : Z) : Z :=
  if (m =? 2)%Z then (if leapYear y then 29 else 28)%Z
  else if bool_decide (m ∈ [4; 6; 9; 11]%Z) then 30%Z else 31%Z.

(** Days since 1970-01-01 (March-based years). *)
Definition civilDays (y m d : Z) : Date :=
  let y' := (if m <=? 2 then y - 1 else y)%Z in
  let doy := ((153 * ((m + 9) mod 12) + 2) / 5 + d - 1)%Z in
  (365 * y' + y' / 4 - y' / 100 + y' / 400 + doy - 719468)%Z.

(** time.Parse with the layout 2006-01-02. *)
Definition parseDate (s : string) : option Date :=
  match s with
  | String a (String b (String c (String d (String h1 (String e (String f (String h2 (String g (String h EmptyString))))))))) =>
      if Ascii.eqb h1 "-" && Ascii.eqb h2 "-" then
        a ← digit a; b ← digit b; c ← digit c; d ← digit d; e ← digit e; f ← digit f; g ← digit g; h ← digit h;
        let y := (1000 * a + 100 * b + 10 * c + d)%Z in
        let m := (10 * e + f)%Z in
        let day := (10 * g + h)%Z in
        if ((1 <=? m) && (m <=? 12) && (1 <=? day) && (day <=? daysIn m y))%Z then Some (civilDays y m day) else None
      else None
  | _ => None
  end.

(** ** Requests *)

Record unitRequest := mkUnitRequest {
  ur_typeKey : string; ur_parentId : option string; ur_code : string; ur_name : string; ur_isActive : option bool }.
Record memberRequest := mkMemberRequest {
  mr_companyId : string; mr_code : string; mr_displayName : string; mr_email : string;
  mr_isActive : option bool; mr_isGuest : option bool }.
Record positionRequest := mkPositionRequest { pr_companyId : string; pr_code : string; pr_title : string; pr_orgUnitId : string }.
Record adminCreatePositionRequest := mkAdminCreatePosition {
  ap_code : string; ap_title : string; ap_companyId : option string; ap_orgUnitId : option string }.
Record adminUpdatePositionRequest := mkAdminUpdatePosition { au_title : option string; au_orgUnitId : option string }.
Record createAndAssignRequest := mkCreateAndAssign {
  ca_companyId : string; ca_code : string; ca_title : string; ca_orgUnitId : string; ca_memberId : string;
  ca_validFrom : string; ca_validTo : option string }.
Record handoverRequest := mkHandover { hr_memberId : string; hr_expectedAssignmentId : string }.
Record adminCreateGroupRequest := mkAdminCreateGroup { ag_code : string; ag_name : string; ag_companyId : option string }.

(** The routes of [Routes] that change state; path values are text, and a body that
    does not decode is [None]. *)
Inductive orgRequest : Type :=
| ReqCreateUnit (body : option unitRequest)
| ReqUpdateUnit (id : string) (body : option unitRequest)
| ReqDeleteUnit (id : string)
| ReqCreateMember (body : option memberRequest)
| ReqUpdateMember (id : string) (body : option memberRequest)
| ReqLinkUser (id : string) (body : option string)
| ReqUnlinkUser (id : string)
| ReqCreatePosition (body : option positionRequest)
| ReqAdminCreatePosition (companyID : string) (body : option adminCreatePositionRequest)
| ReqAdminUpdatePosition (id : string) (body : option adminUpdatePositionRequest)
| ReqUpdatePosition (id : string) (body : option positionRequest)
| ReqDeletePosition (id : string)
| ReqCreateAndAssign (body : option createAndAssignRequest)
| ReqEndAssignment (id : string)
| ReqAssignNow (id : string) (body : option string)
| ReqHandover (id : string) (body : option handoverRequest)
| ReqAdminCreateGroup (companyID : string) (body : option adminCreateGroupRequest)
| ReqAddGroupMember (id : string) (body : option string)
| ReqRemoveGroupMember (id memberID : string).

(** What a request depends on besides the database: the ids the database will give new
    rows, the enabled modules, identity's answers, today, what the unlocked SELECTs of the
    store call find, and what fails (its reads,
    the store's statements, the audit row of a denial). *)
Record OrgEnv := mkOrgEnv {
  oe_newID : UUID;
  oe_newID2 : UUID;
  oe_enabled : list string;
  oe_identity : string -> option bool;
  oe_today : Date;
  oe_readFails : nat -> bool;
  oe_storeFails : nat -> bool;
  oe_seen : nat -> OrgDB;
  oe_denialFails : bool
}.

Section handlers.
Context `{UC : Unicode} `{UT : UUIDText}.
Context (send : string -> adminWire -> option adminResponse) (parseUUID : string -> option UUID)
  (parseInsecure : string -> option string) (correlationID : string) (env : OrgEnv).

(** A handler's early return: the reply, and the denial to audit. *)
Abbreviation Prep A := (result (orgReply * option OrgEvent) A).

Definition reply {A} (r : orgReply) : Prep A := Err (r, None).
Definition badRequest {A} (field : string) : Prep A := reply (WriteError 400 "BAD_REQUEST" field).

(** ** Shared plumbing *)

(** httpx.SubjectFromBearer and ActorFor *)
Definition SubjectFromBearer (rawBearer : string) : string :=
  if negb (HasPrefix rawBearer "Bearer ") then ""
  else let tok := TrimSpace (TrimPrefix rawBearer "Bearer ") in
       if seqb tok "" then "" else default "" (parseInsecure tok).
Definition actorFor (rawBearer : string) : string :=
  let sub := SubjectFromBearer rawBearer in if negb (seqb sub "") then sub else "unauthenticated".

(** [finishAuthorize] *)
Definition finishAuthorize (header action subject : string) (answer : result auth_error bool) : Prep unit :=
  let denial := Some (mkOrgEvent (actorFor header) action subject) in
  match answer with
  | Ok true => Ok tt
  | Err (DeniedError reason) => Err (WriteError 403 "AUTHORIZATION_DENIED" reason, denial)
  | _ => Err (WriteError 503 "AUTHORIZATION_UNAVAILABLE" "", denial)
  end.

(** [Can] and [CanInCompany] of the engine-backed authorizer, [authorize] and
    [authorizeInCompany]. *)
Definition Can (header action : string) : result auth_error bool := mapDecision (Decide send header action correlationID).
Definition CanInCompany (header action companyID : string) : result auth_error bool :=
  mapDecision (DecideInCompany send header action companyID correlationID).
Definition authorize (header action subject : string) : Prep unit :=
  finishAuthorize header action subject (Can header action).
Definition authorizeInCompany (header action subject : string) (companyID : UUID) : Prep unit :=
  finishAuthorize header action subject (CanInCompany header action (uuidString companyID)).

(** [parsePathUUID], a body's uuid.Parse, and [parseOptionalUUID]. *)
Definition parsePathUUID (name s : string) : Prep UUID :=
  match parseUUID s with Some id => Ok id | None => badRequest name end.
Definition parseOptionalUUID (s : option string) (field : string) : Prep (option UUID) :=
  match s with
  | None => Ok None
  | Some s' => if seqb s' "" then Ok None else match parseUUID s' with Some id => Ok (Some id) | None => badRequest field end
  end.

(** [decodeJSON] *)
Definition decodeJSON {A} (body : option A) : Prep A := match body with Some a => Ok a | None => badRequest "" end.

(** A read of the store before the call. *)
Definition readStore {A} (m : OrgTx A) (db : OrgDB) : Prep A :=
  match runOrg m db with Ok (a, _) => Ok a | Err e => reply (writeStoreError e) end.

Definition parseBodyDate (s field : string) : Prep Date :=
  match parseDate s with Some d => Ok d | None => badRequest field end.

(** ** Handlers *)

Definition handleCreateUnit (header : string) (body : option unitRequest) : Prep (orgOp * Z) :=
  let! _ := authorize header "org.unit.create" "org_unit:new" in
  let! req := decodeJSON body in
  let! parentID := parseOptionalUUID (ur_parentId req) "parentId" in
  Ok (opCreateOrgUnit (oe_newID env) (oe_enabled env) (actorFor header) (ur_typeKey req) parentID (ur_code req) (ur_name req)
        (default true (ur_isActive req)), 201%Z).

Definition handleUpdateUnit (header id : string) (body : option unitRequest) : Prep (orgOp * Z) :=
  let! id := parsePathUUID "id" id in
  let! _ := authorize header "org.unit.update" ("org_unit:" +:+ uuidString id) in
  let! req := decodeJSON body in
  let! parentID := parseOptionalUUID (ur_parentId req) "parentId" in
  Ok (opUpdateOrgUnit (oe_enabled env) (actorFor header) id parentID (ur_code req) (ur_name req)
        (default true (ur_isActive req)), 200%Z).

Definition handleDeleteUnit (header id : string) : Prep (orgOp * Z) :=
  let! id := parsePathUUID "id" id in
  let! _ := authorize header "org.unit.delete" ("org_unit:" +:+ uuidString id) in
  Ok (opDeleteOrgUnit (actorFor header) id, 200%Z).

Definition handleCreateMember (header : string) (body : option memberRequest) : Prep (orgOp * Z) :=
  let! req := decodeJSON body in
  let! companyID := parsePathUUID "companyId" (mr_companyId req) in
  let! _ := authorizeInCompany header "org.member.create" "member:new" companyID in
  Ok (opCreateMember (oe_newID env) (actorFor header) companyID (mr_code req) (mr_displayName req) (mr_email req)
        (default true (mr_isActive req)) (default false (mr_isGuest req)), 201%Z).

(** The member of the path and the right to administer its company. *)
Definition memberInCompany (header id action : string) (db : OrgDB) : Prep UUID :=
  let! id := parsePathUUID "id" id in
  let! existing := readStore (getMember (oe_readFails env) id) db in
  let! _ := authorizeInCompany header action ("member:" +:+ uuidString id) (m_company existing) in
  Ok id.

Definition handleUpdateMember (header id : string) (body : option memberRequest) (db : OrgDB) : Prep (orgOp * Z) :=
  let! id := memberInCompany header id "org.member.update" db in
  let! req := decodeJSON body in
  Ok (opUpdateMember (actorFor header) id (mr_displayName req) (mr_email req) (default true (mr_isActive req)) (mr_isGuest req), 200%Z).

Definition handleLinkUser (header id : string) (body : option string) (db : OrgDB) : Prep (orgOp * Z) :=
  let! id := memberInCompany header id "org.member.link_user" db in
  let! kcSub := decodeJSON body in
  Ok (opLinkUser (actorFor header) (oe_identity env kcSub) id kcSub, 200%Z).

Definition handleUnlinkUser (header id : string) (db : OrgDB) : Prep (orgOp * Z) :=
  let! id := memberInCompany header id "org.member.unlink_user" db in
  Ok (opUnlinkUser (actorFor header) id, 200%Z).

Definition handleCreatePosition (header : string) (body : option positionRequest) : Prep (orgOp * Z) :=
  let! _ := authorize header "org.position.create" "position:new" in
  let! req := decodeJSON body in
  match parseUUID (pr_companyId req), parseUUID (pr_orgUnitId req) with
  | Some companyID, Some orgUnitID =>
      Ok (opCreatePosition (oe_newID env) (actorFor header) companyID (pr_code req) (pr_title req) orgUnitID, 201%Z)
  | _, _ => badRequest ""
  end.

(** A body's companyId is refused: the company is the path's. *)
Definition pathCompanyOnly (companyId : option string) : Prep unit :=
  if seqb (default "" companyId) "" then Ok tt else reply (WriteError 422 "VALIDATION_ERROR" "companyId").

Definition handleAdminCreatePosition (header companyID : string) (body : option adminCreatePositionRequest) : Prep (orgOp * Z) :=
  let! companyID := parsePathUUID "id" companyID in
  let! _ := authorizeInCompany header "org.position.create" "position:new" companyID in
  let! req := decodeJSON body in
  let! _ := pathCompanyOnly (ap_companyId req) in
  let! orgUnitID := parseOptionalUUID (ap_orgUnitId req) "orgUnitId" in
  Ok (opCreatePosition (oe_newID env) (actorFor header) companyID (ap_code req) (ap_title req) (default companyID orgUnitID), 201%Z).

Definition handleAdminUpdatePosition (header id : string) (body : option adminUpdatePositionRequest) (db : OrgDB) : Prep (orgOp * Z) :=
  let! id := parsePathUUID "id" id in
  let! position := readStore (getPosition (oe_readFails env) id) db in
  let! _ := authorizeInCompany header "org.position.update" ("position:" +:+ uuidString id) (p_company position) in
  let! req := decodeJSON body in
  let! orgUnitID := parseOptionalUUID (au_orgUnitId req) "orgUnitId" in
  Ok (opUpdatePosition (actorFor header) id (default (p_title position) (au_title req)) (default (p_unit position) orgUnitID), 200%Z).

Definition handleUpdatePosition (header id : string) (body : option positionRequest) : Prep (orgOp * Z) :=
  let! id := parsePathUUID "id" id in
  let! _ := authorize header "org.position.update" ("position:" +:+ uuidString id) in
  let! req := decodeJSON body in
  let! orgUnitID := parsePathUUID "orgUnitId" (pr_orgUnitId req) in
  Ok (opUpdatePosition (actorFor header) id (pr_title req) orgUnitID, 200%Z).

Definition handleDeletePosition (header id : string) : Prep (orgOp * Z) :=
  let! id := parsePathUUID "id" id in
  let! _ := authorize header "org.position.delete" ("position:" +:+ uuidString id) in
  Ok (opDeletePosition (actorFor header) id, 200%Z).

Definition handleCreateAndAssign (header : string) (body : option createAndAssignRequest) : Prep (orgOp * Z) :=
  let! _ := authorize header "org.position.create_and_assign" "position:new" in
  let! req := decodeJSON body in
  match parseUUID (ca_companyId req), parseUUID (ca_orgUnitId req), parseUUID (ca_memberId req) with
  | Some companyID, Some orgUnitID, Some memberID =>
      let! validFrom := parseBodyDate (ca_validFrom req) "validFrom" in
      let! validTo :=
        if seqb (default "" (ca_validTo req)) "" then Ok None
        else let! d := parseBodyDate (default "" (ca_validTo req)) "validTo" in Ok (Some d) in
      Ok (opCreateAndAssign (oe_newID env) (oe_newID2 env) (actorFor header) companyID (ca_code req) (ca_title req)
            orgUnitID memberID validFrom validTo, 201%Z)
  | _, _, _ => badRequest ""
  end.

(** [assignmentCompany] *)
Definition assignmentCompany (id : UUID) (db : OrgDB) : Prep UUID :=
  let! a := readStore (getAssignment (oe_readFails env) id) db in
  let! p := readStore (getPosition (fun n => oe_readFails env (S n)) (as_position a)) db in
  Ok (p_company p).

Definition handleEndAssignment (header id : string) (db : OrgDB) : Prep (orgOp * Z) :=
  let! id := parsePathUUID "id" id in
  let! companyID := assignmentCompany id db in
  let! _ := authorizeInCompany header "org.assignment.end" ("assignment:" +:+ uuidString id) companyID in
  Ok (opEndAssignment (actorFor header) id, 200%Z).

(** The position of the path and the right to administer its company. *)
Definition positionInCompany (header id action : string) (db : OrgDB) : Prep UUID :=
  let! id := parsePathUUID "id" id in
  let! position := readStore (getPosition (oe_readFails env) id) db in
  let! _ := authorizeInCompany header action ("position:" +:+ uuidString id) (p_company position) in
  Ok id.

Definition handleAssignNow (header id : string) (body : option string) (db : OrgDB) : Prep (orgOp * Z) :=
  let! positionID := positionInCompany header id "org.assignment.create" db in
  let! req := decodeJSON body in
  let! memberID := parsePathUUID "memberId" req in
  Ok (opAssignNow (oe_newID env) (actorFor header) positionID memberID, 201%Z).

Definition handleHandover (header id : string) (body : option handoverRequest) (db : OrgDB) : Prep (orgOp * Z) :=
  let! positionID := positionInCompany header id "org.assignment.create" db in
  let! req := decodeJSON body in
  let! memberID := parsePathUUID "memberId" (hr_memberId req) in
  let! expected := parseOptionalUUID (Some (hr_expectedAssignmentId req)) "expectedAssignmentId" in
  Ok (opHandover (oe_newID env) (actorFor header) positionID memberID expected, 200%Z).

Definition handleAdminCreateGroup (header companyID : string) (body : option adminCreateGroupRequest) : Prep (orgOp * Z) :=
  let! companyID := parsePathUUID "id" companyID in
  let! _ := authorizeInCompany header "org.group.create" "group:new" companyID in
  let! req := decodeJSON body in
  let! _ := pathCompanyOnly (ag_companyId req) in
  Ok (opCreateGroup (oe_newID env) (actorFor header) companyID (ag_code req) (ag_name req), 201%Z).

(** The group of the path and the right to administer its company. *)
Definition groupInCompany (header action : string) (id : UUID) (db : OrgDB) : Prep unit :=
  let! group := readStore (getGroup (oe_readFails env) id) db in
  authorizeInCompany header action ("group:" +:+ uuidString id) (g_company group).

Definition handleAddGroupMember (header id : string) (body : option string) (db : OrgDB) : Prep (orgOp * Z) :=
  let! groupID := parsePathUUID "id" id in
  let! _ := groupInCompany header "org.group.member_add" groupID db in
  let! req := decodeJSON body in
  let! memberID := parsePathUUID "memberId" req in
  Ok (opAddGroupMember (actorFor header) groupID memberID, 201%Z).

Definition handleRemoveGroupMember (header id memberID : string) (db : OrgDB) : Prep (orgOp * Z) :=
  let! groupID := parsePathUUID "id" id in
  let! memberID := parsePathUUID "memberId" memberID in
  let! _ := groupInCompany header "org.group.member_remove" groupID db in
  Ok (opRemoveGroupMember (actorFor header) groupID memberID, 200%Z).

(** ** Serving a request *)

(** [Routes], the part that changes state: what a handler does before the store call. *)
Definition prepare (header : string) (req : orgRequest) (db : OrgDB) : Prep (orgOp * Z) :=
  match req with
  | ReqCreateUnit body => handleCreateUnit header body
  | ReqUpdateUnit id body => handleUpdateUnit header id body
  | ReqDeleteUnit id => handleDeleteUnit header id
  | ReqCreateMember body => handleCreateMember header body
  | ReqUpdateMember id body => handleUpdateMember header id body db
  | ReqLinkUser id body => handleLinkUser header id body db
  | ReqUnlinkUser id => handleUnlinkUser header id db
  | ReqCreatePosition body => handleCreatePosition header body
  | ReqAdminCreatePosition cid body => handleAdminCreatePosition header cid body
  | ReqAdminUpdatePosition id body => handleAdminUpdatePosition header id body db
  | ReqUpdatePosition id body => handleUpdatePosition header id body
  | ReqDeletePosition id => handleDeletePosition header id
  | ReqCreateAndAssign body => handleCreateAndAssign header body
  | ReqEndAssignment id => handleEndAssignment header id db
  | ReqAssignNow id body => handleAssignNow header id body db
  | ReqHandover id body => handleHandover header id body db
  | ReqAdminCreateGroup cid body => handleAdminCreateGroup header cid body
  | ReqAddGroupMember id body => handleAddGroupMember header id body db
  | ReqRemoveGroupMember id mid => handleRemoveGroupMember header id mid db
  end.

(** audit.Denial: a failed write is ignored. *)
Definition auditDenied (ev : option OrgEvent) (db : OrgDB) : OrgDB :=
  match ev with
  | Some e => if oe_denialFails env then db else with_orgAudit db (orgAudit db ++ [e])
  | None => db
  end.

(** The request: what it read, at [db], and the store call, at [db2]. *)
Definition serveOrg (header : string) (req : orgRequest) (db db2 : OrgDB) : orgReply * OrgDB :=
  match prepare header req db with
  | Err (r, ev) => (r, auditDenied ev db2)
  | Ok (op, okStatus) =>
      match runOrg (method (oe_storeFails env) (oe_seen env) (oe_today env) op) db2 with
      | Ok (_, db') => (WriteData okStatus, db')
      | Err e => (writeStoreError e, db2)
      end
  end.

End handlers.
