(* ===== verification/OrgHTTPProps.v ===== *)
(** * Who may change what in org

    Which rows a committed call changes, that a row never changes company, and with
    the handlers and the administration client: a request that changes anything of a
    company was made by a superadmin or by an administrator of that company. *)

From stdpp Require Import base gmap strings list.
From S2P Require Import Prelude GoStrings Tuple Clients AuthzHTTP AuthzClaims AdminClient TupleStore OrgTree Org OrgStore OrgEffects.
From S2P Require Import OrgProps OrgClaims OrgHTTP.

(** ** What a call does to the five tables *)

(** All tables but these agree. *)
Definition same_tables (db db' : OrgDB) : Prop :=
  units db' = units db /\ members db' = members db /\ positions db' = positions db /\ assignments db' = assignments db /\
  groups db' = groups db /\ groupMembers db' = groupMembers db.

Definition tables_after (op : orgOp) (db db' : OrgDB) : Prop :=
  match op with
  | opCreateOrgUnit _ _ _ _ _ _ _ _ | opUpdateOrgUnit _ _ _ _ _ _ _ | opDeleteOrgUnit _ _ =>
      exists us, same_tables (with_units db us) db'
  | opCreateMember n _ cid _ _ _ _ _ =>
      exists m, members db !! n = None /\ m_company m = cid /\ same_tables (with_members db (<[n := m]> (members db))) db'
  | opUpdateMember _ id _ _ _ _ | opLinkUser _ _ id _ | opUnlinkUser _ id =>
      exists m m', members db !! id = Some m /\ m_company m' = m_company m /\
        same_tables (with_members db (<[id := m']> (members db))) db'
  | opCreatePosition n _ cid _ _ _ =>
      exists p, positions db !! n = None /\ p_company p = cid /\ same_tables (with_positions db (<[n := p]> (positions db))) db'
  | opUpdatePosition _ id _ _ =>
      exists p p', positions db !! id = Some p /\ p_company p' = p_company p /\
        same_tables (with_positions db (<[id := p']> (positions db))) db'
  | opDeletePosition _ id =>
      exists p, positions db !! id = Some p /\ (forall i a, assignments db !! i = Some a -> as_position a <> id) /\
        same_tables (with_positions db (delete id (positions db))) db'
  | opAssignNow n _ pos _ =>
      exists a, assignments db !! n = None /\ as_position a = pos /\
        same_tables (with_assignments db (<[n := a]> (assignments db))) db'
  | opEndAssignment _ id =>
      exists a a', assignments db !! id = Some a /\ as_position a' = as_position a /\
        same_tables (with_assignments db (<[id := a']> (assignments db))) db'
  | opHandover n _ pos _ _ =>
      same_tables db db' \/
      exists h a a' b, assignments db !! h = Some a /\ as_position a = pos /\ as_position a' = pos /\ as_position b = pos /\
        assignments db !! n = None /\
        same_tables (with_assignments db (<[n := b]> (<[h := a']> (assignments db)))) db'
  | opCreateAndAssign np na _ cid _ _ _ _ _ _ =>
      exists p a, positions db !! np = None /\ p_company p = cid /\ assignments db !! na = None /\ as_position a = np /\
        same_tables (with_assignments (with_positions db (<[np := p]> (positions db))) (<[na := a]> (assignments db))) db'
  | opCreateGroup n _ cid _ _ =>
      exists g, groups db !! n = None /\ g_company g = cid /\ same_tables (with_groups db (<[n := g]> (groups db))) db'
  | opAddGroupMember _ g j =>
      same_tables db db' \/ exists b, same_tables (with_groupMembers db (<[(g, j) := b]> (groupMembers db))) db'
  | opRemoveGroupMember _ g j => same_tables (with_groupMembers db (delete (g, j) (groupMembers db))) db'
  end.

Section tables.
Context `{UC : Unicode} `{UT : UUIDText}.

Lemma outcome_tables x T db' : outcome x T db' -> same_tables x db'.
Proof. by intros (az & au & -> & _). Qed.

Ltac rows Ho :=
  repeat lazymatch goal with |- exists _, _ => eexists end; split_and?; try exact Ho; eauto.

Lemma commits_tables seen op db db' : well_formed db -> commits seen op db db' -> tables_after op db db'.
Proof.
  intros Hwf (fails & today & Hr). destruct op; simpl in Hr |- *; try (apply discard_ok in Hr as [r Hr]).
  - apply CreateOrgUnit_ok in Hr as (_ & _ & ? & x & _ & _ & (_ & _ & _ & _ & ->)%insertUnit_ok & Ho%outcome_tables). rows Ho.
  - apply UpdateOrgUnit_ok in Hr as (_ & ex & ? & x & _ & _ & _ & _ & _ & (_ & _ & _ & _ & _ & ->)%updateUnit_ok & Ho%outcome_tables). rows Ho.
  - apply DeleteOrgUnit_ok in Hr as (_ & _ & x & (_ & _ & _ & ->)%deleteUnit_ok & Ho%outcome_tables). rows Ho.
  - apply CreateMember_ok in Hr as (_ & _ & x & (_ & Hn & _ & ->)%insertMember_ok & Ho%outcome_tables). rows Ho.
  - apply UpdateMember_ok in Hr as (before & m & _ & Hm & -> & Ho%outcome_tables). rows Ho.
  - apply LinkUser_ok in Hr as (_ & _ & uid & m & _ & Hm & _ & -> & Ho%outcome_tables). rows Ho.
  - apply UnlinkUser_ok in Hr as (m & Hm & -> & Ho%outcome_tables). rows Ho.
  - apply CreatePosition_ok in Hr as (_ & _ & x & (_ & _ & Hn & _ & ->)%insertPosition_ok & Ho%outcome_tables). rows Ho.
  - apply UpdatePosition_ok in Hr as (x & (p0 & Hp0 & -> & _ & _ & ->)%updatePosition_ok & Ho%outcome_tables). rows Ho.
  - apply DeletePosition_ok in Hr as (_ & Hno & p & Hp & Ho%outcome_tables).
    rewrite (existsb_rows (fun kv : UUID * Assignment => as_position kv.2 = id)) in Hno. rows Ho.
  - apply AssignNow_ok in Hr as (m & x & _ & _ & _ & -> & (_ & _ & Hn & _ & _ & ->)%insertAssignment_ok & Ho%outcome_tables). rows Ho.
  - apply EndAssignment_ok in Hr as (a0 & x & _ & _ & _ & (a1 & Ha1 & E & _ & _ & ->)%updateAssignment_ok & _ & Ho%outcome_tables).
    rewrite E in Ho. rows Ho.
  - apply Handover_ok in Hr as (hid & held & m & Hheld & _ & _ & [(_ & _ & Ho%outcome_tables)|(_ & _ & e & x1 & x2 & _ & Hu & Hi & Ho%outcome_tables)]);
      [by left|right].
    apply updateAssignment_ok in Hu as (a1 & Ha1 & -> & _ & _ & ->). apply insertAssignment_ok in Hi as (_ & _ & Hn & _ & _ & ->).
    simpl in Hn. apply lookup_insert_None in Hn as [Hn _].
    assert (Hpos : as_position a1 = positionID).
    { unfold assignmentOnDate in Hheld. apply fmap_Some in Hheld as ([k [j b]] & E & [= <- <-]).
      apply list_find_Some in E as (E & (Hp & _) & _). apply list_elem_of_lookup_2, elem_of_map_to_list in E. simpl in *. congruence. }
    rows Ho.
  - apply CreateAndAssign_ok in Hr as (_ & _ & _ & x1 & x2 & Hp & Hi & Ho%outcome_tables).
    apply insertPosition_ok in Hp as (_ & _ & Hn & _ & ->). apply insertAssignment_ok in Hi as (_ & _ & Hn2 & _ & _ & ->).
    rows Ho.
  - apply CreateGroup_ok in Hr as (_ & _ & x & (_ & Hn & _ & ->)%insertGroup_ok & Ho%outcome_tables). rows Ho.
  - apply AddGroupMember_ok in Hr as (g & m & x & _ & _ & _ & _ & _ & [[_ ->]|[ins [(_ & _ & ->)|(_ & _ & _ & ->)]%addGroupMember_ok]] & Ho%outcome_tables);
      [by left..|right; rows Ho].
  - apply RemoveGroupMember_ok in Hr as (g & b & _ & _ & _ & Ho%outcome_tables). rows Ho.
Qed.
End tables.

(** ** Rows keep their company *)

Ltac open_tables db' :=
  simpl in *; unfold same_tables in *; simpl in *;
  repeat match goal with
  | H : exists _, _ |- _ => destruct H
  | H : _ /\ _ |- _ => destruct H
  | H : _ \/ _ |- _ => destruct H
  end; destruct db'; simpl in *; subst.

(** The position a call creates. *)
Definition created_position (op : orgOp) : option UUID :=
  match op with
  | opCreatePosition n _ _ _ _ _ | opCreateAndAssign n _ _ _ _ _ _ _ _ _ => Some n
  | _ => None
  end.

(** A row put in place of one with the same key, or in a free place, loses nothing. *)
Lemma insert_keeps {A B} (f : A -> B) (m : gmap UUID A) j x i a :
  (forall b, m !! j = Some b -> f x = f b) -> m !! i = Some a -> exists a', <[j := x]> m !! i = Some a' /\ f a' = f a.
Proof.
  intros Hj Hi. destruct (decide (j = i)) as [->|]; [|exists a; by rewrite lookup_insert_ne].
  exists x. rewrite lookup_insert_eq. auto.
Qed.

Section steps.
Variables (op : orgOp) (db db' : OrgDB).
Hypothesis (Hop : tables_after op db db').

Lemma step_member i m :
  members db !! i = Some m -> exists m', members db' !! i = Some m' /\ m_company m' = m_company m.
Proof. intros Hi. destruct op; open_tables db'; eauto; (eapply insert_keeps; [|done]); naive_solver congruence. Qed.

Lemma step_group i g : groups db !! i = Some g -> exists g', groups db' !! i = Some g' /\ g_company g' = g_company g.
Proof. intros Hi. destruct op; open_tables db'; eauto; (eapply insert_keeps; [|done]); naive_solver. Qed.

Lemma step_assignment i a :
  assignments db !! i = Some a -> exists a', assignments db' !! i = Some a' /\ as_position a' = as_position a.
Proof.
  intros Hi. destruct op; open_tables db'; eauto; try (eapply insert_keeps; [|done]; naive_solver congruence).
  match goal with E : _ !! newID = None, H : assignments db !! ?h = Some _ |- _ => 
    destruct (insert_keeps as_position (assignments db) h x1 i a) as (a' & Ha' & <-); [naive_solver congruence|done|] end.
  eapply insert_keeps; [|done]. intros b. rewrite lookup_insert_ne by congruence. congruence.
Qed.

Lemma step_position i p' :
  created_position op <> Some i -> positions db' !! i = Some p' ->
  exists p, positions db !! i = Some p /\ p_company p' = p_company p.
Proof.
  intros Hc Hi. destruct op; open_tables db'; eauto; first [apply lookup_insert_Some in Hi|apply lookup_delete_Some in Hi];
    naive_solver.
Qed.
End steps.

(** ** The company a call acts in *)

Definition acts_in (op : orgOp) (db : OrgDB) : option UUID :=
  match op with
  | opCreateOrgUnit _ _ _ _ _ _ _ _ | opUpdateOrgUnit _ _ _ _ _ _ _ | opDeleteOrgUnit _ _ => None
  | opCreateMember _ _ c _ _ _ _ _ | opCreatePosition _ _ c _ _ _ | opCreateAndAssign _ _ _ c _ _ _ _ _ _
  | opCreateGroup _ _ c _ _ => Some c
  | opUpdateMember _ i _ _ _ _ | opLinkUser _ _ i _ | opUnlinkUser _ i => m_company <$> members db !! i
  | opUpdatePosition _ i _ _ | opDeletePosition _ i | opAssignNow _ _ i _ | opHandover _ _ i _ _ =>
      p_company <$> positions db !! i
  | opEndAssignment _ i => a ← assignments db !! i; p_company <$> positions db !! as_position a
  | opAddGroupMember _ i _ | opRemoveGroupMember _ i _ => g_company <$> groups db !! i
  end.

(** What org stores of a company besides its units: members, positions, assignments,
    groups and who is in them. *)
Definition company_view (c : UUID) (db : OrgDB) :=
  (filter (fun kv => m_company kv.2 = c) (members db),
   filter (fun kv => p_company kv.2 = c) (positions db),
   filter (fun kv => p_company <$> positions db !! as_position kv.2 = Some c) (assignments db),
   filter (fun kv => g_company kv.2 = c) (groups db),
   filter (fun kv => g_company <$> groups db !! kv.1.1 = Some c) (groupMembers db)).

Lemma company_view_member c db db' i m :
  company_view c db' = company_view c db -> members db !! i = Some m -> m_company m = c -> members db' !! i = Some m.
Proof.
  intros E Hi Hc. assert (Em : filter (fun kv => m_company kv.2 = c) (members db') !! i = Some m).
  { unfold company_view in E. injection E as -> _ _ _ _. by apply map_lookup_filter_Some. }
  by apply map_lookup_filter_Some in Em as [? _].
Qed.

Lemma filter_assignments (c : UUID) (ps ps' : gmap UUID Position) (asg : gmap UUID Assignment) :
  (forall i a, asg !! i = Some a -> p_company <$> ps' !! as_position a = p_company <$> ps !! as_position a) ->
  filter (fun kv => p_company <$> ps' !! as_position kv.2 = Some c) asg =
  filter (fun kv => p_company <$> ps !! as_position kv.2 = Some c) asg.
Proof. intros H. apply map_filter_ext. intros i a Hi. simpl. by rewrite (H i a Hi). Qed.

Lemma filter_groupMembers (c : UUID) (gs gs' : gmap UUID Group) (gm : gmap (UUID * UUID) string) :
  (forall k b, gm !! k = Some b -> g_company <$> gs' !! k.1 = g_company <$> gs !! k.1) ->
  filter (fun kv => g_company <$> gs' !! kv.1.1 = Some c) gm =
  filter (fun kv => g_company <$> gs !! kv.1.1 = Some c) gm.
Proof. intros H. apply map_filter_ext. intros k b Hk. simpl. by rewrite (H k b Hk). Qed.

(** An inserted row, or a replaced one, that is not of the company. *)
Ltac not_of := apply map_filter_insert_not'; simpl; [|intros ? ?]; naive_solver congruence.

(** A new position, or one in place of another of its company, leaves the companies of
    the assignments. *)
Lemma position_put c db j x :
  well_formed db -> (forall p, positions db !! j = Some p -> p_company x = p_company p) ->
  filter (fun kv => p_company <$> <[j := x]> (positions db) !! as_position kv.2 = Some c) (assignments db) =
  filter (fun kv => p_company <$> positions db !! as_position kv.2 = Some c) (assignments db).
Proof.
  intros Hwf Hj. apply filter_assignments. intros i a Hi.
  destruct (assignment_company _ (wf_assignments _ Hwf) i a Hi) as (p & m & Hp & _).
  destruct (decide (j = as_position a)) as [->|]; [|by rewrite lookup_insert_ne].
  rewrite lookup_insert_eq, Hp. simpl. f_equal. auto.
Qed.

Lemma commits_confined op db db' c :
  well_formed db -> tables_after op db db' -> acts_in op db <> Some c -> company_view c db' = company_view c db.
Proof.
  intros Hwf Hop Hc. destruct op; open_tables db'; simplify_option_eq; unfold company_view; simpl;
    repeat apply (f_equal2 pair); try done; try not_of.
  - apply position_put; naive_solver.
  - apply position_put; naive_solver.
  - apply map_filter_delete_not. naive_solver.
  - apply filter_assignments. intros i a Hi. rewrite lookup_delete_ne; [done|]. naive_solver.
  - rewrite map_filter_insert_not'; [not_of|naive_solver congruence|]. intros y. rewrite lookup_insert_ne; naive_solver congruence.
  - rewrite map_filter_insert_not'; simpl; [apply position_put; naive_solver| |naive_solver].
    by rewrite lookup_insert_eq.
  - apply filter_groupMembers. intros [k j] b Hk. simpl. rewrite lookup_insert_ne; [done|]. intros ->.
    destruct (group_members _ (wf_groups _ Hwf) k j) as (g & m & Hg & _); [eauto|]. congruence.
  - apply map_filter_delete_not. simpl. naive_solver.
Qed.

(** ** Between the read and the call *)

(** No call of the history takes the id of a position there was: the database draws
    the ids at random. *)
Definition new_ids (db : OrgDB) (l : list orgCall) : Prop :=
  Forall (fun x => forall n, created_position (c_op x) = Some n -> positions db !! n = None) l.

(** What was read of a row's company is true as long as the row is there. *)
Record still (db db' : OrgDB) : Prop := {
  still_member : forall i m, members db !! i = Some m -> exists m', members db' !! i = Some m' /\ m_company m' = m_company m;
  still_group : forall i g, groups db !! i = Some g -> exists g', groups db' !! i = Some g' /\ g_company g' = g_company g;
  still_assignment : forall i a, assignments db !! i = Some a ->
    exists a', assignments db' !! i = Some a' /\ as_position a' = as_position a;
  still_position : forall i p p', positions db !! i = Some p -> positions db' !! i = Some p' -> p_company p' = p_company p
}.

Section between.
Context `{UC : Unicode} `{UT : UUIDText}.

Lemma still_step db db1 op db2 :
  still db db1 -> tables_after op db1 db2 ->
  (forall n, created_position op = Some n -> positions db !! n = None) -> still db db2.
Proof.
  intros [Hm Hg Ha Hp] Hop Hnew. split.
  - intros i m (m' & Hm' & <-)%Hm. by eapply step_member.
  - intros i g (g' & Hg' & <-)%Hg. by eapply step_group.
  - intros i a (a' & Ha' & <-)%Ha. by eapply step_assignment.
  - intros i p p2 Hi Hp2. destruct (step_position op db1 db2 Hop i p2) as (p1 & Hp1 & ->); [|done|by eapply Hp].
    intros E%Hnew. congruence.
Qed.

Lemma history_still db l db' : well_formed db -> history db l db' -> new_ids db l -> still db db'.
Proof.
  intros Hwf. induction 1 as [|l db1 seen op db2 Hh IH Hc|l db1 db2 Hh IH He]; intros Hl.
  - split; eauto. congruence.
  - unfold new_ids in Hl. rewrite Forall_app, Forall_singleton in Hl. destruct Hl as [Hl Hnew].
    eapply still_step; [by apply IH|eapply commits_tables; [by eapply history_wf|done]|exact Hnew].
  - destruct He as (us & az & -> & _). destruct (IH Hl). by split.
Qed.

(** A call acts in the company it was authorized in. *)
Lemma acts_in_still op db db2 c c2 : still db db2 -> acts_in op db = Some c -> acts_in op db2 = Some c2 -> c2 = c.
Proof.
  intros [Hm Hg Ha Hp] E E2. destruct op; simpl in *; simplify_option_eq; try done;
    repeat match goal with
    | H : members db !! ?i = Some _ |- _ => destruct (Hm _ _ H) as (? & ? & ?); clear H
    | H : groups db !! ?i = Some _ |- _ => destruct (Hg _ _ H) as (? & ? & ?); clear H
    | H : assignments db !! ?i = Some _ |- _ => destruct (Ha _ _ H) as (? & ? & ?); clear H
    end; simplify_eq; try congruence; eauto.
  eapply Hp; [done|]. congruence.
Qed.
End between.

(** ** Authority *)

Section authority.
Context `{UC : Unicode} `{UT : UUIDText}.
Context (send : string -> adminWire -> option adminResponse) (parseUUID : string -> option UUID)
  (parseInsecure : string -> option string) (correlationID : string) (env : OrgEnv).
Abbreviation prepare := (prepare send parseUUID parseInsecure correlationID env).
Abbreviation serveOrg := (serveOrg send parseUUID parseInsecure correlationID env).

(** The right a call needs. *)
Definition authorized (header : string) (c : option UUID) : Prop :=
  (exists action, Can send correlationID header action = Ok true) \/
  exists action c', c = Some c' /\ CanInCompany send correlationID header action (uuidString c') = Ok true.

Lemma authorize_ok header action subject u :
  authorize send parseInsecure correlationID header action subject = Ok u -> Can send correlationID header action = Ok true.
Proof. unfold authorize, finishAuthorize. by destruct (Can _ _ _ _) as [[]|[]]. Qed.

Lemma authorizeInCompany_ok header action subject c u :
  authorizeInCompany send parseInsecure correlationID header action subject c = Ok u ->
  CanInCompany send correlationID header action (uuidString c) = Ok true.
Proof. unfold authorizeInCompany, finishAuthorize. by destruct (CanInCompany _ _ _ _ _) as [[]|[]]. Qed.

Lemma readStore_query {A} fails (f : OrgDB -> result org_error A) db a : readStore (query fails f) db = Ok a -> f db = Ok a.
Proof.
  unfold readStore. destruct (runOrg (query fails f) db) as [[a' db']|] eqn:E; [|done]. intros [= ->].
  by apply runOrg_ok in E as [n [E _]%query_ok].
Qed.

(** What a handler that reached the store call did on the way. *)
Ltac handler H :=
  repeat lazymatch type of H with
  | result_bind _ _ = Ok _ => let E := fresh "E" in apply result_bind_ok in H as (? & E & H); handler E
  | match ?x with _ => _ end = Ok _ => destruct x; try discriminate H
  | readStore (query _ _) _ = Ok _ => apply readStore_query, found_ok in H
  | authorize _ _ _ _ _ _ = Ok _ => apply authorize_ok in H
  | authorizeInCompany _ _ _ _ _ _ _ = Ok _ => apply authorizeInCompany_ok in H
  | Ok _ = Ok _ => injection H as H; subst
  end.

(** A handler that calls the store was allowed to, by the platform or in the company it
    read. *)
Lemma prepare_authorized header req db op st :
  prepare header req db = Ok (op, st) -> authorized header (acts_in op db).
Proof.
  intros H. destruct req; simpl in H;
    unfold handleCreateUnit, handleUpdateUnit, handleDeleteUnit, handleCreateMember, handleUpdateMember, handleLinkUser,
      handleUnlinkUser, handleCreatePosition, handleAdminCreatePosition, handleAdminUpdatePosition, handleUpdatePosition,
      handleDeletePosition, handleCreateAndAssign, handleEndAssignment, handleAssignNow, handleHandover, handleAdminCreateGroup,
      handleAddGroupMember, handleRemoveGroupMember, memberInCompany, positionInCompany, groupInCompany, assignmentCompany,
      getMember, getPosition, getGroup, getAssignment in H;
    handler H; simplify_option_eq; try (left; by eexists); right; eexists _, _; split; [done..|eassumption].
Qed.

Context (verify : string -> option Claims) (during : Service -> Prop).
Context (Hback : authz_backed verify during send).

Lemma authorized_means header c :
  authorized header c ->
  superadmin_now verify during header \/ exists c', c = Some c' /\ company_admin_now verify during header (uuidString c').
Proof.
  intros [(action & (d & Hd & Ha & _)%mapDecision_ok)|(action & c' & -> & (d & Hd & Ha & _)%mapDecision_ok)].
  - left. by eapply Decide_allowed.
  - destruct (DecideInCompany_allowed verify during send Hback _ _ _ _ _ Hd Ha); eauto.
Qed.

(** The units a call leaves alone. *)
Lemma commits_units op db0 db db' c : tables_after op db db' -> acts_in op db0 = Some c -> units db' = units db.
Proof. intros Hop. destruct op; open_tables db'; try done. Qed.

Lemma serveOrg_changes header req db l db2 r db' :
  well_formed db -> history db l db2 -> new_ids db l -> serveOrg header req db db2 = (r, db') ->
  (units db' = units db2 \/ superadmin_now verify during header) /\
  forall c, company_view c db' = company_view c db2 \/
    superadmin_now verify during header \/ company_admin_now verify during header (uuidString c).
Proof.
  intros Hwf Hh Hnew. unfold OrgHTTP.serveOrg.
  destruct (OrgHTTP.prepare _ _ _ _ _ _ _ _) as [[op st]|[r0 ev]] eqn:Hp.
  2:{ intros [= <- <-]. unfold auditDenied. repeat case_match; simpl; eauto. }
  destruct (runOrg _ db2) as [[[] db3]|e] eqn:Hr; intros [= <- <-]; [|eauto].
  assert (Hwf2 := history_wf _ _ _ Hwf Hh). assert (Hop : tables_after op db2 db3) by (eapply commits_tables; [done|by eexists _, _]).
  destruct (authorized_means _ _ (prepare_authorized _ _ _ _ _ Hp)) as [Hs|(c0 & Hc0 & Hadm)]; [eauto|].
  split.
  - left. by eapply commits_units.
  - intros c. destruct (decide (acts_in op db2 = Some c)) as [E|Hne]; [|left; by eapply commits_confined].
    right. right. by rewrite (acts_in_still op db db2 c0 c (history_still _ _ _ Hwf Hh Hnew) Hc0 E).
Qed.
End authority.

(** ** The claim *)

(** C20: every change of a company is authorized in that company.  Let every 200 that
    org's administration client sees come from the authorization service.  Whatever the
    request, and whatever other calls commit between what the handler reads and its own
    store call, and whatever that call's unlocked SELECTs find, the units change only for a bearer who is an active superadmin, and the
    members, positions, assignments, groups and group members of a company change only
    for a bearer who is an active superadmin, or an admitted administrator of that same
    company while it is active, as the authorization service sees it during the
    request. *)
Theorem org_changes_authorized `{UC : Unicode} `{UT : UUIDText} verify during send parseUUID parseInsecure correlationID env
    header req db l db2 r db' :
  authz_backed verify during send -> well_formed db -> history db l db2 -> new_ids db l ->
  serveOrg send parseUUID parseInsecure correlationID env header req db db2 = (r, db') ->
  (units db' = units db2 \/ superadmin_now verify during header) /\
  forall c, company_view c db' = company_view c db2 \/
    superadmin_now verify during header \/ company_admin_now verify during header (uuidString c).
Proof. intros Hback. by apply serveOrg_changes. Qed.

#[local] Existing Instance demoUUIDText.
#[local] Existing Instance demoUnicode.

(** Ann administers the company. *)
Definition demoAdmins : Service := demoService {[mkTuple "company" (uuidString 0) "admin" "user" "ann" ""]}.
(** The administration client in front of a service. *)
Definition sendTo (svc : Service) (header : string) (w : adminWire) : option adminResponse :=
  Some (decoded (handleCan demoVerify svc noFaults header (Some (received w)) demoWorld).1).
Lemma sendTo_backed svc : authz_backed demoVerify (eq svc) (sendTo svc).
Proof. intros header w body [= E]. by exists svc, noFaults, demoWorld. Qed.
Definition demoSend : string -> adminWire -> option adminResponse := sendTo demoAdmins.
Definition demoParse (s : string) : option UUID := if seqb s "3" then Some 3%N else None.
Definition demoEnv : OrgEnv := mkOrgEnv 8 9 [] (fun _ => Some true) 12 never never (fun _ => demoOrg) false.
Definition demoDeactivate : orgRequest :=
  ReqUpdateMember "3" (Some (mkMemberRequest "" "" "Bob" "" (Some false) None)).
Definition demoServed (header : string) : orgReply * OrgDB :=
  serveOrg demoSend demoParse Some "" demoEnv header demoDeactivate demoOrg demoOrg.

Lemma demo_bob : members demoOrg !! 3%N = Some (mkMember 0 "M2" "Bob" (Some "b@acme") None true false).
Proof. vm_compute. reflexivity. Qed.

Lemma demo_bob_inactive :
  members (demoServed "Bearer ann").2 !! 3%N = Some (mkMember 0 "M2" "Bob" None None false false).
Proof. vm_compute. reflexivity. Qed.

Lemma org_changes_authorized_witness :
  (demoServed "Bearer ann").1 = WriteData 200 /\
  (superadmin_now demoVerify (eq demoAdmins) "Bearer ann" \/
   company_admin_now demoVerify (eq demoAdmins) "Bearer ann" (uuidString 0)).
Proof.
  split; [vm_compute; reflexivity|].
  destruct (org_changes_authorized demoVerify (eq demoAdmins) demoSend demoParse Some "" demoEnv "Bearer ann" demoDeactivate
    demoOrg [] demoOrg (demoServed "Bearer ann").1 (demoServed "Bearer ann").2) as [_ H].
  - exact (sendTo_backed demoAdmins).
  - exact demo_wf.
  - exact (history_nil demoOrg).
  - exact (Forall_nil_2 _).
  - exact (surjective_pairing _).
  - destruct (H 0%N) as [E|Hadmin]; [exfalso|exact Hadmin].
    assert (Hm := company_view_member 0 demoOrg _ 3 _ E demo_bob eq_refl). rewrite demo_bob_inactive in Hm. discriminate Hm.
Defined.

(** Bob, a member, is refused, and nothing but the audit log changes. *)
Example member_is_refused :
  let '(r, db') := demoServed "Bearer bob" in
  r = WriteError 403 "AUTHORIZATION_DENIED" "COMPANY_ROLE_REQUIRED" /\
  company_view 0 db' = company_view 0 demoOrg /\ length (orgAudit db') = S (length (orgAudit demoOrg)).
Proof. vm_compute. done. Qed.
