(* ===== verification/ModuleKit.v ===== *)
(** * What the modules share

    modulekit: the clients through which a module service reaches authz, org and
    notification, and its helpers.  A request of a module is a program whose calls are
    one store transaction or one request to another service each; between two calls of
    a request anything may happen.  [exec] says what a call may answer and do, with
    the authorization service's own handlers behind the authz calls, and [run] what a
    request does. *)

From stdpp Require Import base gmap strings list relations.
From Stdlib Require Import Ascii.
From S2P Require Import Prelude GoStrings Tuple TupleStore Decision Clients AuthzHTTP AdminClient OrgTree Org.

(** ** Helpers *)

(** [BearerFromHeader]; strings.EqualFold against ASCII letters without a fold outside
    ASCII. *)
Definition BearerFromHeader (v : string) : string :=
  if (7 <? String.length v)%nat && seqb (map_text upper (String.substring 0 7 v)) "BEARER " then drop_str 7 v else "".

(** [TokenVerifier.Verify]: [parse] is jwt.Parse with the platform's keys, issuer and
    audience, the same as authz's. *)
Definition Verify (parse : string -> option Claims) (bearerToken : string) : option string :=
  if seqb bearerToken "" then None
  else sub ← Subject <$> parse bearerToken; if seqb sub "" then None else Some sub.

(** A product of 64-bit integers, which wraps. *)
Definition int64 (x : Z) : Z := ((x + 9223372036854775808) mod 18446744073709551616 - 9223372036854775808)%Z.

(** strconv.ParseUint in base 10: [None] is a syntax error; beyond the largest number of
    the size it returns that number, without looking at the rest. *)
Fixpoint ParseUint (maxVal n : Z) (s : string) : option Z :=
  match s with
  | EmptyString => Some n
  | String c rest =>
      let d := (Z.of_nat (nat_of_ascii c) - 48)%Z in
      if negb ((0 <=? d)%Z && (d <=? 9)%Z) then None
      else let n1 := (n * 10 + d)%Z in if (maxVal <? n1)%Z then Some maxVal else ParseUint maxVal n1 rest
  end.

(** strconv.ParseInt in base 10 without its error: zero for a syntax error, the nearest
    number when out of range; [half] is half the range of the size. *)
Definition ParseInt (half : Z) (s : string) : Z :=
  let digits (rest : string) := match rest with EmptyString => None | _ => ParseUint (2 * half - 1) 0 rest end in
  let above (rest : string) := default 0%Z (Z.min (half - 1) <$> digits rest) in
  match s with
  | String "-" rest => default 0%Z ((fun un => - Z.min half un)%Z <$> digits rest)
  | String "+" rest => above rest
  | _ => above s
  end.

(** strconv.Atoi, and ParseInt at 32 bits. *)
Definition Atoi : string -> Z := ParseInt 9223372036854775808.
Definition ParseInt32 : string -> Z := ParseInt 2147483648.

(** [PageParams], from the two query values. *)
Definition PageParams (page pageSize : string) : Z * Z := (Atoi page, Atoi pageSize).

(** [ClampPage] *)
Definition ClampPage (page pageSize : Z) : Z * Z :=
  let page := if (page <? 1)%Z then 1%Z else page in
  let pageSize := if (pageSize <? 1)%Z then 25%Z else pageSize in
  let pageSize := if (100 <? pageSize)%Z then 100%Z else pageSize in
  (page, pageSize).

Lemma ClampPage_bounds page pageSize : let '(p, n) := ClampPage page pageSize in (1 <= p /\ 1 <= n <= 100)%Z.
Proof. unfold ClampPage. destruct (page <? 1)%Z eqn:?, (pageSize <? 1)%Z eqn:?; simpl; [lia|destruct (100 <? pageSize)%Z eqn:?; lia|lia|destruct (100 <? pageSize)%Z eqn:?; lia]. Qed.

(** LIMIT and OFFSET; a negative offset is an error. *)
Definition pageOf {A E} (err : E) (page pageSize : Z) (rows : list A) : result E (list A) :=
  let '(page, pageSize) := ClampPage page pageSize in
  let offset := int64 ((page - 1) * pageSize) in
  if (offset <? 0)%Z then Err err else Ok (take (Z.to_nat pageSize) (drop (Z.to_nat offset) rows)).

Lemma pageOf_ok {A E} (err : E) page pageSize (rows l : list A) :
  pageOf err page pageSize rows = Ok l -> (forall x, x ∈ l -> x ∈ rows) /\ (Z.of_nat (length l) <= (ClampPage page pageSize).2 <= 100)%Z.
Proof.
  unfold pageOf. pose proof (ClampPage_bounds page pageSize) as Hb. destruct (ClampPage page pageSize) as [p n]. destruct (_ <? 0)%Z; [done|].
  intros [= <-]. split.
  - intros x (i & Hi & _)%elem_of_take. rewrite lookup_drop in Hi. by eapply list_elem_of_lookup_2.
  - simpl. rewrite length_take. lia.
Qed.

(** ** The clients' data *)

Record CanRequest := mkCanRequest {
  cr_FeatureKey : string; cr_ModuleKey : string; cr_Scope : string; cr_CompanyID : string;
  cr_Object : ObjectRef; cr_Relation : string
}.

Record OrgMember := mkOrgMember { om_company : string; om_display : string; om_active : bool; om_kcsub : string }.
Record OrgPosition := mkOrgPosition { op_company : string; op_title : string }.
Record OrgGroup := mkOrgGroup { og_company : string; og_name : string }.
Record Notice := mkNotice { n_company : string; n_recipient : string; n_subject : string; n_body : string }.

(** [CompanyModuleObjectID] *)
Definition CompanyModuleObjectID (moduleKey companyID : string) : string := companyID +:+ "/" +:+ moduleKey.

(** [AnchorTuple] *)
Definition AnchorTuple (moduleKey objectType objectID companyID : string) : Tuple :=
  mkTuple objectType objectID "company_module" "company_module" (CompanyModuleObjectID moduleKey companyID) "".

(** The request of [AuthzClient.Can]. *)
Definition canRequest (moduleKey featureKey companyID relation : string) : CanRequest :=
  mkCanRequest featureKey moduleKey "company" companyID
    (if negb (seqb relation "") then mkRef "company_module" (CompanyModuleObjectID moduleKey companyID) else mkRef "" "")
    relation.

(** ** Tables *)

(** A row of a table that satisfies a condition. *)
Definition find_where {A} (p : A -> Prop) `{forall a, Decision (p a)} (m : gmap UUID A) : option (UUID * A) :=
  head (filter (fun kv => p kv.2) (map_to_list m)).

Lemma find_where_Some {A} (p : A -> Prop) `{forall a, Decision (p a)} (m : gmap UUID A) id a :
  find_where p m = Some (id, a) -> m !! id = Some a /\ p a.
Proof.
  unfold find_where. intros E. assert (Hin : (id, a) ∈ filter (fun kv => p kv.2) (map_to_list m)).
  { destruct (filter (fun kv => p kv.2) (map_to_list m)) as [|y l]; simplify_eq/=; left. }
  apply list_elem_of_filter in Hin as [Hp Hin]. by apply elem_of_map_to_list in Hin.
Qed.

Lemma find_where_None {A} (p : A -> Prop) `{forall a, Decision (p a)} (m : gmap UUID A) :
  find_where p m = None <-> forall i a, m !! i = Some a -> ~ p a.
Proof.
  unfold find_where. rewrite head_None. split.
  - intros E i a Hi Hp. apply (not_elem_of_nil (i, a)). rewrite <- E, list_elem_of_filter, elem_of_map_to_list. done.
  - intros Hn. apply elem_of_nil_inv. intros [i a]. rewrite list_elem_of_filter, elem_of_map_to_list. intros [? ?]. by eapply Hn.
Qed.

(** ** Programs *)

(** What a transaction meets: whether it fails as a whole, which of its statements do
    where the caller tells them apart, the database's clock and the ids it draws. *)
Record TxEnv := mkTxEnv { tx_broken : bool; tx_fails : nat -> bool; tx_now : Z; tx_ids : nat -> UUID }.
Definition tx_newID (env : TxEnv) : UUID := tx_ids env 0.

(** [None] and [false] are errors of the client: a transport error, a status other than
    200 or a body that does not decode. *)
Inductive call (DB E : Type) : Type -> Type :=
| Transact {X} (m : TxEnv -> DB -> result E (X * DB)) : call DB E (result E X)
| DoCan (rawBearer : string) (req : CanRequest) : call DB E (option (bool * string))
| BatchCan (rawBearer : string) (req : CanRequest) (items : list DBatchItem) : call DB E (option (list (DBatchItem * bool)))
| GrantOrRevoke (rawBearer companyID op : string) (tuples : list Tuple) (correlationID : string) : call DB E bool
| MemberByKcSub (companyID kcSub : string) : call DB E (option (string * bool * bool))
| GetMember (memberID : string) : call DB E (option OrgMember)
| GetPosition (positionID : string) : call DB E (option OrgPosition)
| GetPositionHolder (positionID : string) : call DB E (option (option string))
| GetGroup (groupID : string) : call DB E (option OrgGroup)
| ListGroupMembers (groupID : string) : call DB E (option (list string))
| SendEvent (rawBearer companyID recipient subjectLine body : string) : call DB E bool.
Arguments Transact {DB E X} m.
Arguments DoCan {DB E}. Arguments BatchCan {DB E}. Arguments GrantOrRevoke {DB E}. Arguments MemberByKcSub {DB E}. Arguments GetMember {DB E}.
Arguments GetPosition {DB E}. Arguments GetPositionHolder {DB E}. Arguments GetGroup {DB E}.
Arguments ListGroupMembers {DB E}. Arguments SendEvent {DB E}.

Inductive prog (DB E A : Type) : Type :=
| Ret (a : A)
| Call {X} (c : call DB E X) (k : X -> prog DB E A).
Arguments Ret {DB E A} a.
Arguments Call {DB E A X} c k.

Fixpoint bind {DB E A B} (p : prog DB E A) (k : A -> prog DB E B) : prog DB E B :=
  match p with
  | Ret a => k a
  | Call c h => Call c (fun x => bind (h x) k)
  end.

(** A step that may have written the reply already. *)
Definition orReply {DB E R A} (p : prog DB E (result R A)) (k : A -> prog DB E R) : prog DB E R :=
  bind p (fun r => match r with Ok a => k a | Err e => Ret e end).

Notation "'let&' x ':=' c 'in' k" := (Call c (fun x => k))
  (at level 10, x binder, c at level 100, k at level 200) : kiban_scope.
Notation "'run&' x ':=' p 'in' k" := (bind p (fun x => k))
  (at level 10, x binder, p at level 100, k at level 200) : kiban_scope.
Notation "'let?' x ':=' p 'in' k" := (orReply p (fun x => k))
  (at level 10, x binder, p at level 100, k at level 200) : kiban_scope.

(** A step that may end in an error of the store, which is the result or a reply. *)
Definition poolBind {DB E A B} (m : prog DB E (result E A)) (k : A -> prog DB E (result E B)) : prog DB E (result E B) :=
  bind m (fun r => match r with Ok a => k a | Err e => Ret (Err e) end).
Notation "'let^' x ':=' m 'in' k" := (poolBind m (fun x => k))
  (at level 10, x binder, m at level 100, k at level 200) : kiban_scope.
Definition orError {DB E R A} (m : prog DB E (result E A)) (onError : E -> R) (k : A -> prog DB E R) : prog DB E R :=
  bind m (fun r => match r with Ok a => k a | Err e => Ret (onError e) end).

(** Every call of a program, whatever the answers, satisfies [P]. *)
Section calls.
Context {DB E : Type} (P : forall X, call DB E X -> Prop).

Fixpoint calls {A} (p : prog DB E A) : Prop :=
  match p with
  | Ret _ => True
  | Call c k => P _ c /\ forall x, calls (k x)
  end.

Lemma calls_bind {A B} (p : prog DB E A) (k : A -> prog DB E B) : calls p -> (forall a, calls (k a)) -> calls (bind p k).
Proof. intros Hp Hk. induction p as [a|X c h IH]; simpl in *; [apply Hk|]. destruct Hp as [? ?]. auto. Qed.

Lemma calls_orReply {R A} (p : prog DB E (result R A)) (k : A -> prog DB E R) :
  calls p -> (forall a, calls (k a)) -> calls (orReply p k).
Proof. intros Hp Hk. apply calls_bind; [done|]. by intros []. Qed.

Lemma calls_poolBind {A B} (m : prog DB E (result E A)) (k : A -> prog DB E (result E B)) :
  calls m -> (forall a, calls (k a)) -> calls (poolBind m k).
Proof. intros Hm Hk. apply calls_bind; [done|]. by intros []. Qed.

Lemma calls_orError {R A} (m : prog DB E (result E A)) e (k : A -> prog DB E R) :
  calls m -> (forall a, calls (k a)) -> calls (orError m e k).
Proof. intros Hm Hk. apply calls_bind; [done|]. by intros []. Qed.
End calls.

(** The request when org answers GetMember with [account] and MemberByKcSub with
    [memberOf]. *)
Section answering.
Context {DB E : Type} (account : string -> option OrgMember) (memberOf : string -> string -> option (string * bool * bool)).

Definition answerCall {X A} (c : call DB E X) : (X -> prog DB E A) -> prog DB E A :=
  match c in call _ _ X return (X -> prog DB E A) -> prog DB E A with
  | GetMember i => fun k => k (account i)
  | MemberByKcSub companyID kcSub => fun k => k (memberOf companyID kcSub)
  | c => fun k => Call c k
  end.

Fixpoint answering {A} (p : prog DB E A) : prog DB E A :=
  match p with
  | Ret a => Ret a
  | Call c k => answerCall c (fun x => answering (k x))
  end.
End answering.

(** ** What calls do *)

Record MWorld (DB : Type) := mkMWorld { w_store : DB; w_authz : World; w_sent : list Notice }.
Arguments mkMWorld {DB}. Arguments w_store {DB}. Arguments w_authz {DB}. Arguments w_sent {DB}.

(** The request as authz decodes it, and its reply as the client does. *)
Definition receivedCan (req : CanRequest) : canRequestWire :=
  mkCan "" (cr_FeatureKey req) (cr_ModuleKey req) (cr_Scope req) (cr_CompanyID req) "" false "" (cr_Object req) (cr_Relation req) false "".
Definition canAnswer (r : Reply) : option (bool * string) :=
  match r with WriteDecision d => Some (Allowed d, reasonCode (Why d)) | _ => None end.

Definition batchAnswer (r : Reply) : option (list (DBatchItem * bool)) :=
  match r with WriteBatch results => Some ((fun x => (x.1, Allowed x.2)) <$> results) | _ => None end.

Section exec.
Context {DB E : Type}.
Context (verify : string -> option Claims) (uuid_ok : string -> bool).
(** The states the authorization service is in while the request is served. *)
Context (authz : Service -> Prop).

Definition exec {X} (c : call DB E X) : MWorld DB -> X -> MWorld DB -> Prop :=
  match c in call _ _ X return MWorld DB -> X -> MWorld DB -> Prop with
  | Transact m => fun w x w' =>
      exists env, match m env (w_store w) with
                  | Ok (a, db) => x = Ok a /\ w' = mkMWorld db (w_authz w) (w_sent w)
                  | Err e => x = Err e /\ w' = w
                  end
  | DoCan rawBearer req => fun w x w' =>
      w' = w /\ (x = None \/ exists svc f aw, authz svc /\ x = canAnswer (handleCan verify svc f rawBearer (Some (receivedCan req)) aw).1)
  | BatchCan rawBearer req items => fun w x w' =>
      w' = w /\ (x = None \/ exists svc f aw, authz svc /\
        x = batchAnswer (handleBatchCan verify svc f rawBearer (Some (mkBatchCan (receivedCan req) items)) aw).1)
  | GrantOrRevoke rawBearer companyID op tuples correlationID => fun w x w' =>
      (* the request may not arrive, and its reply may be lost *)
      (x = false /\ w' = w) \/
      exists svc f r aw, authz svc /\
        handleGrants verify uuid_ok svc f rawBearer (Some (mkGrants op companyID tuples correlationID)) (w_authz w) = (r, aw) /\
        (x = (status r =? 200)%Z \/ x = false) /\ w' = mkMWorld (w_store w) aw (w_sent w)
  | SendEvent _ companyID recipient subjectLine body => fun w x w' =>
      (x = false /\ w' = w) \/
      w' = mkMWorld (w_store w) (w_authz w) (w_sent w ++ [mkNotice companyID recipient subjectLine body])
  | MemberByKcSub _ _ | GetMember _ | GetPosition _ | GetPositionHolder _ | GetGroup _ | ListGroupMembers _ => fun w _ w' => w' = w
  end.

(** A request with its calls in order; [between] is what may happen between them, and
    the steps are those of the request itself. *)
Inductive run (between : MWorld DB -> MWorld DB -> Prop) {A} :
  prog DB E A -> MWorld DB -> list (MWorld DB * MWorld DB) -> A -> MWorld DB -> Prop :=
| run_ret a w : run between (Ret a) w [] a w
| run_call {X} (c : call DB E X) k w x w1 w2 steps a w3 :
    exec c w x w1 -> between w1 w2 -> run between (k x) w2 steps a w3 ->
    run between (Call c k) w ((w, w1) :: steps) a w3.

(** ** Reasoning about requests *)

(** What the steps of a request satisfy, whatever happens in between: each step starts
    in a world the request sees, keeps [G], and the answer it got may be used in what
    follows. *)
Section safe.
Context (seen : MWorld DB -> Prop) (G : MWorld DB -> MWorld DB -> Prop).

Fixpoint safe {A} (p : prog DB E A) (Q : A -> Prop) : Prop :=
  match p with
  | Ret a => Q a
  | Call c k => forall w x w', seen w -> exec c w x w' -> G w w' /\ safe (k x) Q
  end.

Lemma safe_mono {A} (p : prog DB E A) (Q Q' : A -> Prop) : (forall a, Q a -> Q' a) -> safe p Q -> safe p Q'.
Proof.
  intros HQ. induction p as [a|X c k IH]; simpl; [apply HQ|]. intros Hp w x w' Hw Hx.
  destruct (Hp w x w' Hw Hx) as [? ?]. auto.
Qed.

Lemma safe_bind {A B} (p : prog DB E A) (k : A -> prog DB E B) Q :
  safe p (fun a => safe (k a) Q) -> safe (bind p k) Q.
Proof.
  induction p as [a|X c h IH]; simpl; [done|]. intros Hp w x w' Hw Hx. destruct (Hp w x w' Hw Hx) as [? ?]. auto.
Qed.

Lemma safe_orReply {R A} (p : prog DB E (result R A)) (k : A -> prog DB E R) Q :
  safe p (fun r => match r with Ok a => safe (k a) Q | Err e => Q e end) -> safe (orReply p k) Q.
Proof. intros Hp. apply safe_bind. eapply safe_mono; [|exact Hp]. by intros []. Qed.

Lemma safe_poolBind {A B} (m : prog DB E (result E A)) (k : A -> prog DB E (result E B)) Q :
  safe m (fun r => match r with Ok a => safe (k a) Q | Err e => Q (Err e) end) -> safe (poolBind m k) Q.
Proof. intros Hm. apply safe_bind. eapply safe_mono; [|exact Hm]. by intros []. Qed.

Lemma safe_orError {R A} (m : prog DB E (result E A)) e (k : A -> prog DB E R) Q :
  safe m (fun r => match r with Ok a => safe (k a) Q | Err err => Q (e err) end) -> safe (orError m e k) Q.
Proof. intros Hm. apply safe_bind. eapply safe_mono; [|exact Hm]. by intros []. Qed.

Lemma run_safe between {A} (p : prog DB E A) w steps a w' Q :
  run between p w steps a w' -> Forall seen (steps.*1) -> safe p Q -> Forall (fun s => G s.1 s.2) steps /\ Q a.
Proof.
  induction 1 as [a w|X c k w x w1 w2 steps a w3 Hx Hb Hr IH]; simpl; [by split|].
  rewrite Forall_cons. intros [Hw Hs] Hp. destruct (Hp w x w1 Hw Hx) as [HG Hk].
  destruct (IH Hs Hk). by split; [constructor|].
Qed.
End safe.

Lemma safe_weaken (seen : MWorld DB -> Prop) (G G' : MWorld DB -> MWorld DB -> Prop) {A} (p : prog DB E A) (Q Q' : A -> Prop) :
  (forall w w', G w w' -> G' w w') -> (forall a, Q a -> Q' a) -> safe seen G p Q -> safe seen G' p Q'.
Proof.
  intros HG HQ. induction p as [a|X c k IH]; simpl; [apply HQ|]. intros Hp w x w' Hw Hx.
  destruct (Hp w x w' Hw Hx) as [? ?]. auto.
Qed.

(** A request that runs alone. *)
Fixpoint alone {A} (p : prog DB E A) (w : MWorld DB) (Q : A -> MWorld DB -> Prop) : Prop :=
  match p with
  | Ret a => Q a w
  | Call c k => forall x w', exec c w x w' -> alone (k x) w' Q
  end.

Lemma alone_mono {A} (p : prog DB E A) w (Q Q' : A -> MWorld DB -> Prop) :
  (forall a w', Q a w' -> Q' a w') -> alone p w Q -> alone p w Q'.
Proof. intros HQ. revert w. induction p as [a|X c k IH]; simpl; eauto. Qed.

Lemma alone_bind {A B} (p : prog DB E A) (k : A -> prog DB E B) w Q :
  alone p w (fun a w' => alone (k a) w' Q) -> alone (bind p k) w Q.
Proof. revert w. induction p as [a|X c h IH]; simpl; eauto. Qed.

Lemma alone_orReply {R A} (p : prog DB E (result R A)) (k : A -> prog DB E R) w Q :
  alone p w (fun r w' => match r with Ok a => alone (k a) w' Q | Err e => Q e w' end) -> alone (orReply p k) w Q.
Proof. intros Hp. apply alone_bind. eapply alone_mono; [|exact Hp]. by intros []. Qed.

Lemma alone_poolBind {A B} (m : prog DB E (result E A)) (k : A -> prog DB E (result E B)) w Q :
  alone m w (fun r w' => match r with Ok a => alone (k a) w' Q | Err e => Q (Err e) w' end) -> alone (poolBind m k) w Q.
Proof. intros Hm. apply alone_bind. eapply alone_mono; [|exact Hm]. by intros []. Qed.

Lemma alone_orError {R A} (m : prog DB E (result E A)) e (k : A -> prog DB E R) w Q :
  alone m w (fun r w' => match r with Ok a => alone (k a) w' Q | Err err => Q (e err) w' end) -> alone (orError m e k) w Q.
Proof. intros Hm. apply alone_bind. eapply alone_mono; [|exact Hm]. by intros []. Qed.

Lemma safe_answering_bind account memberOf seen G {A B} (p : prog DB E A) (k : A -> prog DB E B) Q :
  safe seen G (answering account memberOf p) (fun a => safe seen G (answering account memberOf (k a)) Q) ->
  safe seen G (answering account memberOf (bind p k)) Q.
Proof.
  induction p as [a|X c h IH]; simpl; [done|].
  destruct c; simpl; try (intros Hp w x w' Hw Hx; destruct (Hp w x w' Hw Hx); auto); apply IH.
Qed.

Lemma alone_answering_bind account memberOf {A B} (p : prog DB E A) (k : A -> prog DB E B) w Q :
  alone (answering account memberOf p) w (fun a w' => alone (answering account memberOf (k a)) w' Q) ->
  alone (answering account memberOf (bind p k)) w Q.
Proof.
  revert w. induction p as [a|X c h IH]; intros w; simpl; [done|].
  destruct c; simpl; try (intros Hp x w' Hx; apply IH; by apply Hp); apply IH.
Qed.

(** The calls of a request, wherever it is interrupted. *)
Lemma run_calls (P : forall X, call DB E X -> Prop) between {A} (p : prog DB E A) w steps a w' :
  run between p w steps a w' -> calls P p -> Forall (fun s => exists X (c : call DB E X) x, P X c /\ exec c s.1 x s.2) steps.
Proof.
  induction 1 as [a w|X c k w x w1 w2 steps a w3 Hx _ _ IH]; [constructor|]. intros [Hc Hk]. constructor; [by exists X, c, x|]. by apply IH.
Qed.

Lemma run_alone {A} (p : prog DB E A) w steps a w' Q : run eq p w steps a w' -> alone p w Q -> Q a w'.
Proof. induction 1 as [|X c k w x w1 w2 steps a w3 Hx <- Hr IH]; simpl; eauto. Qed.

(** ** Performing a request

    With one answer fixed for every question: the states the transactions meet, the
    authorization service, which of its replies are lost, and org's facts. *)

Record Answers := mkAnswers {
  an_env : nat -> TxEnv;
  an_authz : Service;
  an_canFails : nat -> bool;
  an_arrives : nat -> bool;
  an_lost : nat -> bool;
  an_memberBy : string -> string -> option (string * bool * bool);
  an_member : string -> option OrgMember;
  an_position : string -> option OrgPosition;
  an_holder : string -> option (option string);
  an_group : string -> option OrgGroup;
  an_groupMembers : string -> option (list string);
  an_notified : nat -> bool
}.

Section perform.
Context (an : Answers) (noFaults : Faults).

Definition answer1 (n : nat) {X} (c : call DB E X) : MWorld DB -> X * MWorld DB :=
  match c in call _ _ X return MWorld DB -> X * MWorld DB with
  | Transact m => fun w =>
      match m (an_env an n) (w_store w) with
      | Ok (a, db) => (Ok a, mkMWorld db (w_authz w) (w_sent w))
      | Err e => (Err e, w)
      end
  | DoCan rawBearer req => fun w =>
      (if an_canFails an n then None
       else canAnswer (handleCan verify (an_authz an) noFaults rawBearer (Some (receivedCan req)) (w_authz w)).1, w)
  | BatchCan rawBearer req items => fun w =>
      (if an_canFails an n then None
       else batchAnswer (handleBatchCan verify (an_authz an) noFaults rawBearer (Some (mkBatchCan (receivedCan req) items)) (w_authz w)).1, w)
  | GrantOrRevoke rawBearer companyID op tuples correlationID => fun w =>
      if negb (an_arrives an n) then (false, w)
      else
        let r := handleGrants verify uuid_ok (an_authz an) noFaults rawBearer
                   (Some (mkGrants op companyID tuples correlationID)) (w_authz w) in
        (negb (an_lost an n) && (status r.1 =? 200)%Z, mkMWorld (w_store w) r.2 (w_sent w))
  | SendEvent _ companyID recipient subjectLine body => fun w =>
      if an_notified an n then (true, mkMWorld (w_store w) (w_authz w) (w_sent w ++ [mkNotice companyID recipient subjectLine body]))
      else (false, w)
  | MemberByKcSub companyID kcSub => fun w => (an_memberBy an companyID kcSub, w)
  | GetMember i => fun w => (an_member an i, w)
  | GetPosition i => fun w => (an_position an i, w)
  | GetPositionHolder i => fun w => (an_holder an i, w)
  | GetGroup i => fun w => (an_group an i, w)
  | ListGroupMembers i => fun w => (an_groupMembers an i, w)
  end.

Fixpoint perform {A} (n : nat) (p : prog DB E A) (w : MWorld DB) : A * list (MWorld DB * MWorld DB) * MWorld DB :=
  match p with
  | Ret a => (a, [], w)
  | Call c k =>
      let '(x, w1) := answer1 n c w in
      let '(a, steps, w2) := perform (S n) (k x) w1 in (a, (w, w1) :: steps, w2)
  end.

Lemma answer1_exec n {X} (c : call DB E X) w x w' : authz (an_authz an) -> answer1 n c w = (x, w') -> exec c w x w'.
Proof.
  intros Ha. destruct c; simpl; try (by intros [= <- <-]).
  - intros H. exists (an_env an n). destruct (m (an_env an n) (w_store w)) as [[a db]|e]; by injection H as <- <-.
  - intros [= <- <-]. split; [done|]. destruct (an_canFails an n); [by left|right]. by exists (an_authz an), noFaults, (w_authz w).
  - intros [= <- <-]. split; [done|]. destruct (an_canFails an n); [by left|right]. by exists (an_authz an), noFaults, (w_authz w).
  - destruct (an_arrives an n); simpl; [|intros [= <- <-]; by left]. intros [= <- <-]. right.
    set (r := handleGrants _ _ _ _ _ _ _). exists (an_authz an), noFaults, r.1, r.2. split_and!; [done|apply surjective_pairing| |done].
    destruct (an_lost an n); simpl; [by right|by left].
  - destruct (an_notified an n); intros [= <- <-]; [by right|by left].
Qed.

Lemma perform_run {A} n (p : prog DB E A) w a steps w' :
  authz (an_authz an) -> perform n p w = (a, steps, w') -> run eq p w steps a w'.
Proof.
  intros Ha. revert n w steps w'. induction p as [a0|X c k IH]; simpl; intros n w steps w'.
  { intros [= <- <- <-]. constructor. }
  destruct (answer1 n c w) as [x w1] eqn:Hx. destruct (perform (S n) (k x) w1) as [[a1 st] w2] eqn:Hp. intros [= <- <- <-].
  econstructor; [by eapply answer1_exec|done|by eapply IH].
Qed.

(** Requests side by side: the schedule says whose call is next. *)
Fixpoint interleave {A} (sched : list nat) (n : nat) (s : list (prog DB E A) * MWorld DB) : list (prog DB E A) * MWorld DB :=
  match sched with
  | [] => s
  | i :: rest =>
      match s.1 !! i with
      | Some (Call c k) => let '(x, w) := answer1 n c s.2 in interleave rest (S n) (<[i := k x]> s.1, w)
      | _ => interleave rest (S n) s
      end
  end.

(** Such a run is a path of any step relation that has the calls of requests. *)
Lemma interleave_steps {A} (R : list (prog DB E A) * MWorld DB -> list (prog DB E A) * MWorld DB -> Prop) sched n s :
  (forall i ps w X (c : call DB E X) k x w', ps !! i = Some (Call c k) -> exec c w x w' -> R (ps, w) (<[i := k x]> ps, w')) ->
  authz (an_authz an) -> rtc R s (interleave sched n s).
Proof.
  intros HR Ha. revert n s. induction sched as [|i rest IH]; intros n [ps w]; [done|]. simpl.
  destruct (ps !! i) as [[a|X c k]|] eqn:Hi; [apply IH| |apply IH].
  destruct (answer1 n c w) as [x w1] eqn:Hx. eapply rtc_l; [|apply IH]. eapply HR; [exact Hi|by eapply answer1_exec].
Qed.
End perform.
End exec.
