(* ===== verification/ModuleRules.v ===== *)
(** * Reasoning about a module's requests

    What it means that the authorization service allowed a question, and the rules for
    the calls of a request: transactions, questions, and calls that leave the store
    alone. *)

From stdpp Require Import base gmap strings list.
From S2P Require Import Prelude GoStrings Tuple TupleStore StoreProps Decision Clients AuthzHTTP AuthzProps AdminClient OrgTree Org ModuleKit.

Section rules.
Context {DB Er : Type}.
Context (verify : string -> option Claims) (uuid_ok : string -> bool) (authz : Service -> Prop).

(** The authorization service allowed this request to this bearer. *)
Definition allows (rawBearer : string) (req : CanRequest) : Prop :=
  exists svc f aw d aw', authz svc /\
    handleCan verify svc f rawBearer (Some (receivedCan req)) aw = (WriteDecision d, aw') /\ Allowed d = true.

Lemma canAnswer_allows rawBearer req svc f aw reason :
  authz svc -> Some (true, reason) = canAnswer (handleCan verify svc f rawBearer (Some (receivedCan req)) aw).1 -> allows rawBearer req.
Proof.
  intros Hs H. destruct (handleCan verify svc f rawBearer (Some (receivedCan req)) aw) as [r aw'] eqn:E.
  destruct r; simpl in H; try discriminate H. injection H as H1 H2. by exists svc, f, aw, d, aw'.
Qed.

(** The same of one item of a batch. *)
Definition allowsItem (rawBearer : string) (req : CanRequest) (items : list DBatchItem) (it : DBatchItem) : Prop :=
  exists svc f aw results d aw', authz svc /\
    handleBatchCan verify svc f rawBearer (Some (mkBatchCan (receivedCan req) items)) aw = (WriteBatch results, aw') /\
    (it, d) ∈ results /\ Allowed d = true.

Lemma batchAnswer_allows rawBearer req items svc f aw l it :
  authz svc -> Some l = batchAnswer (handleBatchCan verify svc f rawBearer (Some (mkBatchCan (receivedCan req) items)) aw).1 ->
  (it, true) ∈ l -> allowsItem rawBearer req items it.
Proof.
  intros Hs H Hin. destruct (handleBatchCan verify svc f rawBearer (Some (mkBatchCan (receivedCan req) items)) aw) as [r aw'] eqn:E.
  destruct r; simpl in H; try discriminate H. injection H as ->. apply list_elem_of_fmap in Hin as ([it' d] & [= <- Hd] & Hin).
  by exists svc, f, aw, results, d, aw'.
Qed.

Definition isBatch (r : Reply) : bool := match r with WriteBatch _ => true | _ => false end.

Lemma result_bind_not_batch {A B} (m : result Reply A) (k : A -> result Reply B) r :
  (forall e, m = Err e -> isBatch e = false) -> (forall a e, m = Ok a -> k a = Err e -> isBatch e = false) ->
  result_bind m k = Err r -> isBatch r = false.
Proof. destruct m; simpl; intros He Hk H; [by eapply Hk|]. injection H as <-. by apply He. Qed.

Lemma featureDeclared_not_batch svc m fs e : featureDeclared svc m fs = Err e -> isBatch e = false.
Proof.
  unfold featureDeclared. destruct (seqb m ""); [done|]. destruct (svc_AppFeatures svc) as [[apps|]|]; [|by intros [= <-]|done].
  destruct (apps !! m) as [declared|]; [|done]. induction fs as [|f fs IH]; simpl; [done|].
  destruct (negb _ && _); [by intros [= <-]|done].
Qed.

Lemma allowsItem_in rawBearer req items it : allowsItem rawBearer req items it -> it ∈ items.
Proof.
  intros (svc & f & aw & results & d & aw' & _ & H & Hin & _). unfold handleBatchCan in H.
  match type of H with (match ?m with _ => _ end) = _ => destruct m as [[[[sub req'] base] deps]|r] eqn:E end.
  - assert (Hreq : Items req' = items).
    { repeat (let a := fresh in let H := fresh in apply result_bind_ok in E as (a & H & E); simpl in *; try discriminate). by simplify_eq. }
    injection H as <- _. unfold EvaluateBatch in Hin. rewrite Hreq in Hin.
    case_bool_decide; apply list_elem_of_fmap in Hin as (it' & [= -> _] & ?); done.
  - injection H as -> _. exfalso. enough (isBatch (WriteBatch results) = false) by done. revert E.
    apply result_bind_not_batch; [unfold bearerClaims; intros e; repeat case_match; by intros [= <-]|]. intros c e _.
    apply result_bind_not_batch; [by intros ? [=]|]. intros b e' _.
    apply result_bind_not_batch; [unfold validateCanRequest; intros e1; repeat case_match; by intros [= <-]|]. intros [] e2 _.
    apply result_bind_not_batch; [by apply featureDeclared_not_batch|]. intros [] e3 _.
    apply result_bind_not_batch; [intros e4; case_match; by intros [= <-]|]. intros [] e4 _.
    apply result_bind_not_batch; [unfold buildDecider; intros e5; case_match; by intros [= <-]|]. done.
Qed.

(** The authorization service made this change for this bearer. *)
Definition accepted (rawBearer companyID op : string) (ts : list Tuple) : Prop :=
  exists svc f corr aw r aw', authz svc /\
    handleGrants verify uuid_ok svc f rawBearer (Some (mkGrants op companyID ts corr)) aw = (r, aw') /\ status r = 200%Z.

(** What a grant and a revoke do to the tuples. *)
Lemma grant_exec h cid ts corr (w : MWorld DB) x w' :
  exec verify uuid_ok authz (GrantOrRevoke (E := Er) h cid "grant" ts corr) w x w' ->
  w_store w' = w_store w /\
  (forall tp, tp ∉ ts -> tp ∈ tuples (w_db (w_authz w')) <-> tp ∈ tuples (w_db (w_authz w))) /\
  (forall tp, tp ∈ tuples (w_db (w_authz w)) -> tp ∈ tuples (w_db (w_authz w'))) /\
  (x = true -> forall t, t ∈ ts -> t ∈ tuples (w_db (w_authz w'))).
Proof.
  intros [[-> ->]|(svc & f & r & aw & _ & Hg & Hx & ->)]; [done|]. simpl.
  apply handleGrants_cases in Hg as [[Hs ->]|(c & req & l & m & Hp & _ & -> & Htx & _)].
  - split_and!; [done|done|done|]. intros ->. destruct Hx as [Hx|Hx]; [|done]. symmetry in Hx. apply Z.eqb_eq in Hx. done.
  - apply prepareGrants_ok in Hp as (_ & [= <-] & _).
    pose proof (runTx_Grant_tuples (stmt_fails f) (Subject c) corr ts _ _ Htx) as Ht. rewrite Ht. split_and!; set_solver.
Qed.

Lemma revoke_exec h cid ts corr (w : MWorld DB) x w' :
  exec verify uuid_ok authz (GrantOrRevoke (E := Er) h cid "revoke" ts corr) w x w' ->
  w_store w' = w_store w /\ tuples (w_db (w_authz w')) ⊆ tuples (w_db (w_authz w)) /\
  (forall tp, tp ∈ tuples (w_db (w_authz w)) -> Forall (fun t => t <> tp /\ is_anchor t = false) ts -> tp ∈ tuples (w_db (w_authz w'))) /\
  (x = true -> forall t, t ∈ ts -> t ∉ tuples (w_db (w_authz w'))).
Proof.
  intros [[-> ->]|(svc & f & r & aw & _ & Hg & Hx & ->)]; [done|]. simpl.
  apply handleGrants_cases in Hg as [[Hs ->]|(c & req & l & m & Hp & _ & -> & Htx & _)].
  - split_and!; [done|done|done|]. intros ->. destruct Hx as [Hx|Hx]; [|done]. symmetry in Hx. apply Z.eqb_eq in Hx. done.
  - apply prepareGrants_ok in Hp as (_ & [= <-] & _).
    pose proof (runTx_Revoke_tuples (stmt_fails f) (Subject c) corr ts _ _ Htx) as Ht.
    split_and!; [done|intros tp; rewrite Ht; tauto| |].
    + intros tp Hin Hts. rewrite Forall_forall in Hts. apply Ht. split; [done|]. intros [Hr|(a & Ha & Hanc & _)]; [by destruct (Hts tp Hr)|].
      destruct (Hts a Ha). congruence.
    + intros _ t Hin [_ Hn]%Ht. apply Hn. by left.
Qed.

(** ** Rules *)

Section safe.
Context (seen : MWorld DB -> Prop) (G : MWorld DB -> MWorld DB -> Prop).
Context (Hsame : forall w w' : MWorld DB, w_store w' = w_store w -> G w w').
Abbreviation safe := (safe verify uuid_ok authz seen G).

Lemma safe_transact {A X} (m : TxEnv -> DB -> result Er (X * DB)) (k : result Er X -> prog DB Er A) Q :
  (forall e, safe (k (Err e)) Q) ->
  (forall w env x db, seen w -> m env (w_store w) = Ok (x, db) ->
     G w (mkMWorld db (w_authz w) (w_sent w)) /\ safe (k (Ok x)) Q) ->
  safe (Call (Transact m) k) Q.
Proof.
  intros He Hk w x w' Hw [env Hx]. destruct (m env (w_store w)) as [[a db]|e] eqn:E; destruct Hx as [-> ->].
  - by eapply Hk.
  - split; [by apply Hsame|apply He].
Qed.

Lemma safe_DoCan {A} rawBearer req (k : option (bool * string) -> prog DB Er A) Q :
  safe (k None) Q -> (forall reason, safe (k (Some (false, reason))) Q) ->
  (forall reason, allows rawBearer req -> safe (k (Some (true, reason))) Q) -> safe (Call (DoCan rawBearer req) k) Q.
Proof.
  intros H0 H1 H2 w x w' Hw [-> Hx]. split; [by apply Hsame|]. destruct Hx as [->|(svc & f & aw & Hs & Hx)]; [done|].
  destruct x as [[[] reason]|]; [|auto..]. apply H2. by eapply canAnswer_allows.
Qed.

Lemma safe_BatchCan {A} rawBearer req items (k : option (list (DBatchItem * bool)) -> prog DB Er A) Q :
  safe (k None) Q -> (forall l, (forall it, (it, true) ∈ l -> allowsItem rawBearer req items it) -> safe (k (Some l)) Q) ->
  safe (Call (BatchCan rawBearer req items) k) Q.
Proof.
  intros H0 H1 w x w' Hw [-> Hx]. split; [by apply Hsame|]. destruct Hx as [->|(svc & f & aw & Hs & Hx)]; [done|].
  destruct x as [l|]; [|done]. apply H1. intros it. by eapply batchAnswer_allows.
Qed.

Lemma safe_Grant {A} rawBearer companyID op ts corr (k : bool -> prog DB Er A) Q :
  safe (k false) Q -> (accepted rawBearer companyID op ts -> safe (k true) Q) ->
  safe (Call (GrantOrRevoke rawBearer companyID op ts corr) k) Q.
Proof.
  intros H0 H1 w x w' Hw [[-> ->]|(svc & f & r & aw & Hs & Hg & Hx & ->)]; (split; [by apply Hsame|]); [done|].
  destruct x; [|done]. apply H1. destruct Hx as [Hx|Hx]; [|done]. exists svc, f, corr, (w_authz w), r, aw. split_and!; [done|done|].
  symmetry in Hx. by apply Z.eqb_eq in Hx.
Qed.

(** Calls that leave the store alone. *)
Definition quiet {X} (c : call DB Er X) : Prop :=
  match c with Transact _ => False | _ => True end.

Lemma safe_quiet {A X} (c : call DB Er X) (k : X -> prog DB Er A) Q :
  quiet c -> (forall x, safe (k x) Q) -> safe (Call c k) Q.
Proof.
  intros Hc Hk w x w' Hw Hx. split; [|apply Hk]. apply Hsame. destruct c; simpl in *; try done; try (by subst).
  - by destruct Hx as [-> _].
  - by destruct Hx as [-> _].
  - destruct Hx as [[_ ->]|(svc & f & r & aw & _ & _ & _ & ->)]; done.
  - destruct Hx as [[_ ->]| ->]; done.
Qed.

End safe.
End rules.
