(* ===== verification/OrgReads.v ===== *)
(** * Org's reads

    internal/org/http.go, store.go and group.go: the handlers that change nothing, as
    programs with one call per statement on the pool, and the listings with their
    pages.  ORDER BY in the database's collation, the order of rows that tie, ILIKE's
    case folding, the columns of identity.user_read_v other than the subject and the
    calendar date of a moment in the tenant's zone are the interface [OrgReading]. *)

From stdpp Require Import base gmap strings list sorting.
From Stdlib Require Import Ascii.
From S2P Require Import Prelude GoStrings TupleStore AdminClient OrgTree Org OrgStore OrgHTTP ModuleKit.

(** ** LIKE *)

(** [likeEscaper] *)
Fixpoint likeEscaper (s : string) : string :=
  match s with
  | EmptyString => EmptyString
  | String c rest =>
      if bool_decide (c ∈ ["\"; "%"; "_"]%char) then String "\" (String c (likeEscaper rest)) else String c (likeEscaper rest)
  end.

(** LIKE p ESCAPE '\'; a pattern that ends in the escape character matches nothing
    here (PostgreSQL refuses it). *)
Fixpoint like (p t : string) : bool :=
  match p with
  | EmptyString => match t with EmptyString => true | _ => false end
  | String "%" p' =>
      (fix tails (t : string) : bool := like p' t || match t with EmptyString => false | String _ t' => tails t' end) t
  | String "_" p' => match t with String _ t' => like p' t' | EmptyString => false end
  | String "\" p' =>
      match p', t with
      | String c p'', String d t' => Ascii.eqb c d && like p'' t'
      | _, _ => false
      end
  | String c p' => match t with String d t' => Ascii.eqb c d && like p' t' | EmptyString => false end
  end.

(** ** What the database decides *)

Record UserColumns := mkColumns { uc_email : option string; uc_preferredUsername : option string; uc_lifecycle : string; uc_kind : string }.

(** The collation orders all texts and tells different ones apart; folding a text folds
    what stands between the wildcards. *)
Class OrgReading := {
  textLe : string -> string -> Prop;
  textLe_dec :: RelDecision textLe;
  textLe_total :: Total textLe;
  textLe_order :: PartialOrder textLe;
  scan : TxEnv -> forall A, list A -> list A;
  scan_perm : forall env A (l : list A), scan env A l ≡ₚ l;
  lower : string -> string;
  lower_literal : forall q, lower ("%" +:+ likeEscaper q +:+ "%") = "%" +:+ likeEscaper (lower q) +:+ "%";
  columns : TxEnv -> UUID -> UserColumns;
  dateOf : Z -> Date
}.

(** A page of a listing, [errenv.Page]. *)
Record Page A := mkPage { items : list A; total : nat; page : Z; pageSize : Z; totalPages : Z }.
Arguments mkPage {A}. Arguments items {A}. Arguments total {A}. Arguments page {A}. Arguments pageSize {A}. Arguments totalPages {A}.

(** The linked account of a member, and the shapes of the directories and lists. *)
Record MemberRow := mkMemberRow { mw_id : UUID; mw_member : Member; mw_user : option (string * UserColumns) }.
Record MemberDirectoryEntry := mkEntry { de_ID : UUID; de_DisplayName : string; de_Email : string; de_HasLinkedUser : bool; de_Kind : string }.
Record PositionWithHolder := mkHolding { ph_ID : UUID; ph_Position : Position; ph_Assignment : option (UUID * UUID); ph_HolderDisplayName : option string }.
Record GroupMember := mkGroupMember { gm_GroupID : UUID; gm_MemberID : UUID; gm_AddedBy : string; gm_DisplayName : string; gm_Email : option string }.

Section reads.
Context `{UT : UUIDText} `{OR : OrgReading}.

(** ** Statements on the pool *)

Abbreviation Pool A := (prog OrgDB org_error (result org_error A)).

(** A statement, or all of it, may fail; what it reads may depend on the moment. *)
Definition onPool {A} (m : TxEnv -> OrgTx A) : Pool A :=
  Call (Transact (fun env db => if tx_broken env then Err ErrDatabase else runOrg (m env) db)) (fun r => Ret r).
Definition select {A} (f : TxEnv -> OrgDB -> A) : Pool A := onPool (fun env => query (tx_fails env) (fun db => Ok (f env db))).
Definition answer {A} (a : A) : Pool A := Ret (Ok a).

(** FROM a table WHERE a condition, and ORDER BY a text. *)
Definition from {A} (p : A -> Prop) `{forall a, Decision (p a)} (m : gmap UUID A) : list (UUID * A) := filter (fun kv => p kv.2) (map_to_list m).
Definition byText {A} (key : A -> string) (x y : A) : Prop := textLe (key x) (key y).
#[export] Instance byText_dec {A} (key : A -> string) x y : Decision (byText key x y).
Proof. unfold byText. apply _. Defined.
Definition orderBy {A} (key : A -> string) (env : TxEnv) (rows : list A) : list A := merge_sort (byText key) (scan env A rows).

(** LIMIT and OFFSET *)
Definition window {A} (page pageSize : Z) (rows : list A) : list A :=
  let '(limit, offset) := pageWindow page pageSize in take (Z.to_nat limit) (drop (Z.to_nat offset) rows).

(** ** Queries *)

Definition membersOf (companyID : UUID) (db : OrgDB) : list (UUID * Member) := from (fun m => m_company m = companyID) (members db).
Definition positionsOf (companyID : UUID) (db : OrgDB) : list (UUID * Position) := from (fun p => p_company p = companyID) (positions db).
Definition groupsOf (companyID : UUID) (db : OrgDB) : list (UUID * Group) := from (fun g => g_company g = companyID) (groups db).
Definition activeGroupsOf (companyID : UUID) (db : OrgDB) : list (UUID * Group) := from (fun g => g_company g = companyID /\ g_active g = true) (groups db).

(** The LEFT JOIN with identity.user_read_v. *)
Definition linkedUser (env : TxEnv) (db : OrgDB) (m : Member) : option (string * UserColumns) :=
  uid ← m_user m; sub ← users db !! uid; Some (sub, columns env uid).
Definition memberRow (env : TxEnv) (db : OrgDB) (kv : UUID * Member) : MemberRow := mkMemberRow kv.1 kv.2 (linkedUser env db kv.2).

(** [GetMemberWithUser], [ListMembers] and [CountMembers] *)
Definition GetMemberWithUser (id : UUID) : Pool MemberRow :=
  onPool (fun env => query (tx_fails env) (fun db => found ((fun m => memberRow env db (id, m)) <$> members db !! id) ErrMemberNotFound)).
Definition listMembers (companyID : UUID) (page pageSize : Z) : Pool (list MemberRow) :=
  select (fun env db => window page pageSize (orderBy (fun r => m_code (mw_member r)) env (memberRow env db <$> membersOf companyID db))).
Definition CountMembers (companyID : UUID) : Pool nat := select (fun _ db => length (membersOf companyID db)).

(** The rows of the member directory; [q] is the escaped text, if any. *)
Definition ilike (pattern text : string) : bool := like (lower pattern) (lower text).
Definition inDirectory (companyID : UUID) (q : option string) (m : Member) : bool :=
  bool_decide (m_company m = companyID) && m_active m &&
  match q with
  | None => true
  | Some q => ilike ("%" +:+ q +:+ "%") (m_display m) || from_option (ilike ("%" +:+ q +:+ "%")) false (m_email m)
  end.
Definition directoryOf (companyID : UUID) (q : option string) (db : OrgDB) : list (UUID * Member) := from (fun m => inDirectory companyID q m = true) (members db).
Definition directoryEntry (env : TxEnv) (db : OrgDB) (kv : UUID * Member) : MemberDirectoryEntry :=
  mkEntry kv.1 (m_display kv.2) (default "" (m_email kv.2)) (bool_decide (is_Some (m_user kv.2))) (default "person" ((fun u => uc_kind u.2) <$> linkedUser env db kv.2)).

(** [ListMemberDirectory] and [CountMemberDirectory] *)
Definition listMemberDirectory (companyID : UUID) (q : option string) (page pageSize : Z) : Pool (list MemberDirectoryEntry) :=
  select (fun env db => window page pageSize (orderBy de_DisplayName env (directoryEntry env db <$> directoryOf companyID q db))).
Definition CountMemberDirectory (companyID : UUID) (q : option string) : Pool nat := select (fun _ db => length (directoryOf companyID q db)).

(** [ListPositions], [CountPositions] and [ListPositionsWithHolder]; the join has a row
    for each assignment that runs today, and one for a position without any. *)
Definition listPositions (companyID : UUID) (page pageSize : Z) : Pool (list (UUID * Position)) :=
  select (fun env db => window page pageSize (orderBy (fun kv => p_code kv.2) env (positionsOf companyID db))).
Definition CountPositions (companyID : UUID) : Pool nat := select (fun _ db => length (positionsOf companyID db)).
Definition holdings (db : OrgDB) (today : Date) (kv : UUID * Position) : list PositionWithHolder :=
  match from (holds_on kv.1 today) (assignments db) with
  | [] => [mkHolding kv.1 kv.2 None None]
  | l => (fun a => mkHolding kv.1 kv.2 (Some (a.1, as_member a.2)) (m_display <$> members db !! as_member a.2)) <$> l
  end.
Definition listPositionsWithHolder (companyID : UUID) (today : Date) (page pageSize : Z) : Pool (list PositionWithHolder) :=
  select (fun env db => window page pageSize (orderBy (fun h => p_code (ph_Position h)) env (positionsOf companyID db ≫= holdings db today))).

(** [ListGroupsWithMemberCount] and [CountGroups], the two queries of
    [ListActiveGroups], and [ListGroupMembers], which joins each member. *)
Definition memberCount (db : OrgDB) (groupID : UUID) : nat := length (filter (fun kv => kv.1.1 = groupID) (map_to_list (groupMembers db))).
Definition listGroupsWithMemberCount (companyID : UUID) (page pageSize : Z) : Pool (list (UUID * Group * nat)) :=
  select (fun env db => window page pageSize (orderBy (fun r => g_code r.1.2) env ((fun kv => (kv, memberCount db kv.1)) <$> groupsOf companyID db))).
Definition CountGroups (companyID : UUID) : Pool nat := select (fun _ db => length (groupsOf companyID db)).
Definition listActiveGroups (companyID : UUID) (page pageSize : Z) : Pool (list (UUID * Group)) :=
  select (fun env db => window page pageSize (orderBy (fun kv => g_code kv.2) env (activeGroupsOf companyID db))).
Definition countActiveGroups (companyID : UUID) : Pool nat := select (fun _ db => length (activeGroupsOf companyID db)).
Definition groupMembersOf (groupID : UUID) (db : OrgDB) : list GroupMember :=
  omap (fun kv : UUID * UUID * string =>
    if decide (kv.1.1 = groupID) then (fun m => mkGroupMember groupID kv.1.2 kv.2 (m_display m) (m_email m)) <$> members db !! kv.1.2 else None)
    (map_to_list (groupMembers db)).
Definition listGroupMembers (groupID : UUID) : Pool (list GroupMember) :=
  select (fun env db => orderBy gm_DisplayName env (groupMembersOf groupID db)).

(** ** Methods *)

(** [Subtree]: by depth, and by code within a depth. *)
Definition byDepth (x y : UUID * OrgUnit * nat) : Prop := x.2 < y.2 \/ (x.2 = y.2 /\ textLe (u_code x.1.2) (u_code y.1.2)).
#[export] Instance byDepth_dec x y : Decision (byDepth x y).
Proof. unfold byDepth. apply _. Defined.
Definition Subtree (id : UUID) : Pool (list (UUID * OrgUnit * nat)) :=
  select (fun env db => merge_sort byDepth (scan env _ (omap (fun xd : UUID * nat => (fun u => (xd.1, u, xd.2)) <$> units db !! xd.1) (SubtreeOrgUnits (units db) id)))).

(** [ListMembers], [ListPositions], [ListPositionsWithHolder] and
    [ListGroupsWithMemberCount]: the count, then the page; [ListActiveGroups]: the page,
    then the count; [today] is a read of its own. *)
Definition ListMembers (companyID : UUID) (page pageSize : Z) : Pool (list MemberRow * nat) :=
  let^ n := CountMembers companyID in let^ rows := listMembers companyID page pageSize in answer (rows, n).
Definition ListPositions (companyID : UUID) (page pageSize : Z) : Pool (list (UUID * Position) * nat) :=
  let^ n := CountPositions companyID in let^ rows := listPositions companyID page pageSize in answer (rows, n).
Definition today : Pool Date := select (fun env _ => dateOf (tx_now env)).
Definition ListPositionsWithHolder (companyID : UUID) (page pageSize : Z) : Pool (list PositionWithHolder * nat) :=
  let^ n := CountPositions companyID in let^ d := today in let^ rows := listPositionsWithHolder companyID d page pageSize in answer (rows, n).
Definition ListGroupsWithMemberCount (companyID : UUID) (page pageSize : Z) : Pool (list (UUID * Group * nat) * nat) :=
  let^ n := CountGroups companyID in let^ rows := listGroupsWithMemberCount companyID page pageSize in answer (rows, n).
Definition ListActiveGroups (companyID : UUID) (page pageSize : Z) : Pool (list (UUID * Group) * nat) :=
  let^ rows := listActiveGroups companyID page pageSize in let^ n := countActiveGroups companyID in answer (rows, n).

(** [MemberDirectory] *)
Definition MemberDirectory (companyID : UUID) (q : string) (page pageSize : Z) : Pool (list MemberDirectoryEntry * nat) :=
  let qParam := if seqb q "" then None else Some (likeEscaper q) in
  let^ n := CountMemberDirectory companyID qParam in let^ rows := listMemberDirectory companyID qParam page pageSize in answer (rows, n).

(** The companies of [ListActiveCompaniesForKcSub], by code. *)
Definition activeCompanies (kcSub : string) : Pool (list (UUID * OrgUnit)) :=
  onPool (fun env => let* l := ListActiveCompaniesForKcSub (tx_fails env) kcSub in tret (orderBy (fun kv => u_code kv.2) env l)).

(** ** Replies *)

Inductive orgData : Type :=
| DUnit (id : UUID) (u : OrgUnit)
| DUnits (l : list (UUID * OrgUnit * nat))
| DCompanyState (exists_ active : bool)
| DMemberFact (isMember isActive : bool) (memberID : option UUID)
| DCompanies (l : list (UUID * OrgUnit))
| DMember (r : MemberRow)
| DMembers (p : Page MemberRow)
| DMemberDirectory (p : Page MemberDirectoryEntry)
| DPositionDirectory (p : Page (UUID * string * string))
| DGroupDirectory (p : Page (UUID * string * string))
| DPosition (id : UUID) (p : Position)
| DPositions (p : Page (UUID * Position))
| DHoldings (p : Page PositionWithHolder)
| DAssignment (id : UUID) (a : Assignment) (companyID : option UUID)
| DGroup (id : UUID) (g : Group)
| DGroups (p : Page (UUID * Group * nat))
| DGroupMembers (l : list GroupMember)
| DStatus.
Inductive readReply : Type :=
| ReadData (d : orgData)
| ReadError (r : orgReply).

Inductive readRequest : Type :=
| ReqGetUnit (id : string)
| ReqSubtree (id : string)
| ReqCompanyState (id : string)
| ReqMemberByKcSub (id kcSub : string)
| ReqMeCompanies (kcSub : string)
| ReqMemberDirectory (id kcSub q page pageSize : string)
| ReqPositionDirectory (id kcSub page pageSize : string)
| ReqGroupDirectory (id kcSub page pageSize : string)
| ReqGetMember (id : string)
| ReqListMembers (companyId kcSub page pageSize : string)
| ReqGetPosition (id : string)
| ReqListPositions (companyId page pageSize : string)
| ReqAdminPositionList (id page pageSize : string)
| ReqHolderOnDate (id date kcSub : string)
| ReqGetAssignment (id : string)
| ReqAdminGroupList (id page pageSize : string)
| ReqGetGroup (id : string)
| ReqListGroupMembers (id kcSub : string)
| ReqHealth.

(** ** Handlers *)

Section handlers.
Context (send : string -> adminWire -> option adminResponse) (parseUUID : string -> option UUID) (correlationID : string).

Abbreviation P := (prog OrgDB org_error).
Definition refuse {A} (status : Z) (code detail : string) : P (result readReply A) := Ret (Err (ReadError (WriteError status code detail))).
Definition internalError (_ : org_error) : readReply := ReadError (WriteError 500 "INTERNAL_ERROR" "").
Definition storeError (e : org_error) : readReply := ReadError (writeStoreError e).
Definition data (d : orgData) : P readReply := Ret (ReadData d).

(** [parsePathUUID], and the uuid.Parse of a query value. *)
Definition pathUUID (name s : string) : P (result readReply UUID) :=
  match parseUUID s with Some id => Ret (Ok id) | None => refuse 400 "BAD_REQUEST" name end.

(** [pageParams] *)
Definition pageParams (page pageSize : string) : P (result readReply (Z * Z)) :=
  let p := ParseInt32 page in
  let ps := ParseInt32 pageSize in
  if (maxPage <? p)%Z then refuse 400 "VALIDATION_ERROR" "page"
  else if (maxPageSize <? ps)%Z then refuse 400 "VALIDATION_ERROR" "pageSize"
  else Ret (Ok (p, ps)).

(** [writeDirectoryPage], and the same lines of the other listings. *)
Definition pageOf {A} (rows : list A) (n : nat) (pg : Z * Z) : Page A :=
  let '(page, pageSize) := clampPage pg.1 pg.2 in
  let pages := ((Z.of_nat n + pageSize - 1) / pageSize)%Z in
  mkPage rows n page pageSize (if (pages <? 1)%Z then 1%Z else pages).

(** [requireMemberOrAdmin] *)
Definition requireMemberOrAdmin (header kcSub : string) (companyID : UUID) : P (result readReply unit) :=
  if seqb kcSub "" then refuse 400 "BAD_REQUEST" "kcSub"
  else
    run& r := onPool (fun env => MemberFactByKcSub (tx_fails env) companyID kcSub) in
    match r with
    | Err e => Ret (Err (internalError e))
    | Ok f =>
        if OrgStore.IsMember f && OrgStore.IsActive f && negb (IsGuest f) then Ret (Ok tt)
        else match Can send correlationID header "org.members.read" with
             | Ok true => Ret (Ok tt)
             | _ => refuse 403 "FORBIDDEN" ""
             end
    end.

(** [handleGetUnit] and [handleSubtree] *)
Definition handleGetUnit (id : string) : P readReply :=
  let? id := pathUUID "id" id in
  orError (onPool (fun env => getOrgUnit (tx_fails env) id)) storeError (fun u => data (DUnit id u)).
Definition handleSubtree (id : string) : P readReply :=
  let? id := pathUUID "id" id in
  orError (Subtree id) internalError (fun l => data (DUnits l)).

(** [handleCompanyState] and [handleMemberByKcSub] *)
Definition handleCompanyState (id : string) : P readReply :=
  let? id := pathUUID "id" id in
  orError (onPool (fun env => CompanyState (tx_fails env) id)) internalError (fun s => data (DCompanyState s.1 s.2)).
Definition handleMemberByKcSub (id kcSub : string) : P readReply :=
  let? id := pathUUID "id" id in
  orError (onPool (fun env => MemberFactByKcSub (tx_fails env) id kcSub)) internalError (fun f =>
  data (DMemberFact (OrgStore.IsMember f) (OrgStore.IsActive f) (if OrgStore.IsMember f then MemberID f else None))).

(** [handleMeCompanies] *)
Definition handleMeCompanies (kcSub : string) : P readReply :=
  if seqb kcSub "" then Ret (ReadError (WriteError 400 "BAD_REQUEST" "kcSub"))
  else orError (activeCompanies kcSub) internalError (fun l => data (DCompanies l)).

(** A directory: its company, who may read it, its page. *)
Definition directory {A} (header name id kcSub page pageSize : string) (list_ : UUID -> Z -> Z -> Pool (list A * nat)) (view : Page A -> orgData) : P readReply :=
  let? companyID := pathUUID name id in
  let? _ := requireMemberOrAdmin header kcSub companyID in
  let? pg := pageParams page pageSize in
  orError (list_ companyID pg.1 pg.2) internalError (fun l => data (view (pageOf l.1 l.2 pg))).
Definition mapPage {A B} (f : A -> B) (p : Page A) : Page B := mkPage (f <$> items p) (total p) (page p) (pageSize p) (totalPages p).

(** [handleMemberDirectory], [handlePositionDirectory], [handleGroupDirectory] and
    [handleListMembers] *)
Definition handleMemberDirectory (header id kcSub q page pageSize : string) : P readReply :=
  directory header "id" id kcSub page pageSize (fun c => MemberDirectory c q) DMemberDirectory.
Definition handlePositionDirectory (header id kcSub page pageSize : string) : P readReply :=
  directory header "id" id kcSub page pageSize ListPositions (fun p => DPositionDirectory (mapPage (fun kv => (kv.1, p_code kv.2, p_title kv.2)) p)).
Definition handleGroupDirectory (header id kcSub page pageSize : string) : P readReply :=
  directory header "id" id kcSub page pageSize ListActiveGroups (fun p => DGroupDirectory (mapPage (fun kv => (kv.1, g_code kv.2, g_name kv.2)) p)).
Definition handleListMembers (header companyId kcSub page pageSize : string) : P readReply :=
  directory header "companyId" companyId kcSub page pageSize ListMembers DMembers.

(** [handleGetMember] and [handleGetPosition] *)
Definition handleGetMember (id : string) : P readReply :=
  let? id := pathUUID "id" id in
  orError (GetMemberWithUser id) storeError (fun r => data (DMember r)).
Definition handleGetPosition (id : string) : P readReply :=
  let? id := pathUUID "id" id in
  orError (onPool (fun env => getPosition (tx_fails env) id)) storeError (fun p => data (DPosition id p)).

(** A listing of the administration, guarded at the gateway: [handleListPositions],
    [handleAdminPositionList] and [handleAdminGroupList]. *)
Definition adminListing {A} (name id page pageSize : string) (list_ : UUID -> Z -> Z -> Pool (list A * nat)) (view : Page A -> orgData) : P readReply :=
  let? companyID := pathUUID name id in
  let? pg := pageParams page pageSize in
  orError (list_ companyID pg.1 pg.2) internalError (fun l => data (view (pageOf l.1 l.2 pg))).
Definition handleListPositions (companyId page pageSize : string) : P readReply := adminListing "companyId" companyId page pageSize ListPositions DPositions.
Definition handleAdminPositionList (id page pageSize : string) : P readReply := adminListing "id" id page pageSize ListPositionsWithHolder DHoldings.
Definition handleAdminGroupList (id page pageSize : string) : P readReply := adminListing "id" id page pageSize ListGroupsWithMemberCount DGroups.

(** A caller the gateway names must be a member of the company of what is read. *)
Definition namedCaller (header kcSub : string) (company : Pool UUID) : P (result readReply unit) :=
  if seqb kcSub "" then Ret (Ok tt)
  else run& r := company in
       match r with Err e => Ret (Err (storeError e)) | Ok companyID => requireMemberOrAdmin header kcSub companyID end.

(** [handleHolderOnDate] *)
Definition handleHolderOnDate (header id date kcSub : string) : P readReply :=
  let? id := pathUUID "id" id in
  match parseDate date with
  | None => Ret (ReadError (WriteError 400 "BAD_REQUEST" "date"))
  | Some d =>
      let? _ := namedCaller header kcSub (let^ p := onPool (fun env => getPosition (tx_fails env) id) in answer (p_company p)) in
      orError (onPool (fun env => AssignmentOnDate (tx_fails env) id d)) storeError (fun a => data (DAssignment a.1 a.2 None))
  end.

(** [handleGetAssignment]; the company is read again from the assignment's position. *)
Definition handleGetAssignment (id : string) : P readReply :=
  let? id := pathUUID "id" id in
  orError (onPool (fun env => getAssignment (tx_fails env) id)) storeError (fun a =>
  orError (onPool (fun env => getAssignment (tx_fails env) id)) storeError (fun a' =>
  orError (onPool (fun env => getPosition (tx_fails env) (as_position a'))) storeError (fun p =>
  data (DAssignment id a (Some (p_company p)))))).

(** [handleGetGroup] and [handleListGroupMembers] *)
Definition handleGetGroup (id : string) : P readReply :=
  let? id := pathUUID "id" id in
  orError (onPool (fun env => getGroup (tx_fails env) id)) storeError (fun g => data (DGroup id g)).
Definition handleListGroupMembers (header id kcSub : string) : P readReply :=
  let? groupID := pathUUID "id" id in
  let? _ := namedCaller header kcSub (let^ g := onPool (fun env => getGroup (tx_fails env) groupID) in answer (g_company g)) in
  orError (listGroupMembers groupID) internalError (fun l => data (DGroupMembers l)).

(** [Routes], the part that reads. *)
Definition serveReads (header : string) (req : readRequest) : P readReply :=
  match req with
  | ReqGetUnit id => handleGetUnit id
  | ReqSubtree id => handleSubtree id
  | ReqCompanyState id => handleCompanyState id
  | ReqMemberByKcSub id kcSub => handleMemberByKcSub id kcSub
  | ReqMeCompanies kcSub => handleMeCompanies kcSub
  | ReqMemberDirectory id kcSub q page pageSize => handleMemberDirectory header id kcSub q page pageSize
  | ReqPositionDirectory id kcSub page pageSize => handlePositionDirectory header id kcSub page pageSize
  | ReqGroupDirectory id kcSub page pageSize => handleGroupDirectory header id kcSub page pageSize
  | ReqGetMember id => handleGetMember id
  | ReqListMembers companyId kcSub page pageSize => handleListMembers header companyId kcSub page pageSize
  | ReqGetPosition id => handleGetPosition id
  | ReqListPositions companyId page pageSize => handleListPositions companyId page pageSize
  | ReqAdminPositionList id page pageSize => handleAdminPositionList id page pageSize
  | ReqHolderOnDate id date kcSub => handleHolderOnDate header id date kcSub
  | ReqGetAssignment id => handleGetAssignment id
  | ReqAdminGroupList id page pageSize => handleAdminGroupList id page pageSize
  | ReqGetGroup id => handleGetGroup id
  | ReqListGroupMembers id kcSub => handleListGroupMembers header id kcSub
  | ReqHealth => data DStatus
  end.
End handlers.
End reads.
