(* ===== verification/OrgReadsClaims.v ===== *)
(** * Who may read the directories, and what the pages hold

    The reads change nothing; a directory is answered to members of its company and to
    superadmins, with rows of that company; and the pages of a listing cut one list
    into pieces. *)

From stdpp Require Import base gmap strings list sorting.
From Stdlib Require Import Ascii.
From S2P Require Import Prelude GoStrings Decision Clients AuthzHTTP AuthzClaims AdminClient TupleStore OrgTree Org OrgStore OrgEffects.
From S2P Require Import OrgProps OrgClaims OrgHTTP OrgHTTPProps ModuleKit OrgReads.

(** ** LIKE *)

(** [a] occurs in [t]. *)
Definition occurs (a t : string) : Prop := exists x y, t = x +:+ a +:+ y.

Lemma like_percent p t : like (String "%" p) t = true <-> exists x y, t = x +:+ y /\ like p y = true.
Proof.
  split.
  - induction t as [|c t IH]; simpl; rewrite ?orb_false_r, ?orb_true_iff.
    + intros H. by exists "", "".
    + intros [H|H]; [by exists "", (String c t)|]. destruct (IH H) as (x & y & -> & Hy). by exists (String c x), y.
  - intros (x & y & -> & Hy). induction x as [|c x IH]; simpl.
    + destruct y; simpl in *; by rewrite Hy.
    + simpl in IH. rewrite orb_true_iff. by right.
Qed.

Lemma like_plain c p t :
  c ∉ ["\"; "%"; "_"]%char -> like (String c p) t = match t with String d t' => Ascii.eqb c d && like p t' | EmptyString => false end.
Proof. intros Hc. destruct c as [[] [] [] [] [] [] [] []]; try reflexivity; exfalso; apply Hc; set_solver. Qed.

Lemma like_literal q p t : like (likeEscaper q +:+ p) t = true <-> exists y, t = q +:+ y /\ like p y = true.
Proof.
  revert t. induction q as [|c q IH]; intros t; simpl; [naive_solver|].
  assert (Hc : like ((if bool_decide (c ∈ ["\"; "%"; "_"]%char) then String "\" (String c (likeEscaper q)) else String c (likeEscaper q)) +:+ p) t =
    match t with String d t' => Ascii.eqb c d && like (likeEscaper q +:+ p) t' | EmptyString => false end).
  { case_bool_decide as H; [by destruct t|by rewrite <- like_plain]. }
  rewrite Hc. destruct t as [|d t]; [by split; [|intros (y & ? & _)]|]. rewrite andb_true_iff, Ascii.eqb_eq, IH. split.
  - intros [-> (y & -> & Hy)]. by exists y.
  - intros (y & E & Hy). injection E as -> ->. eauto.
Qed.

Section facts.
Context `{UT : UUIDText} `{OR : OrgReading}.

Lemma ilike_occurs q t : ilike ("%" +:+ likeEscaper q +:+ "%") t = true <-> occurs (lower q) (lower t).
Proof.
  unfold ilike. rewrite lower_literal. change ("%" +:+ ?a) with (String "%" a). rewrite like_percent. unfold occurs. split.
  - intros (x & y & -> & (z & -> & _)%like_literal). eauto.
  - intros (x & y & ->). exists x, (lower q +:+ y). split; [done|]. apply like_literal. exists y. split; [done|].
    apply like_percent. exists y, "". by rewrite append_nil_r.
Qed.

Lemma from_elem {A} (p : A -> Prop) `{forall a, Decision (p a)} (m : gmap UUID A) kv : kv ∈ from p m <-> m !! kv.1 = Some kv.2 /\ p kv.2.
Proof. unfold from. destruct kv. rewrite list_elem_of_filter, elem_of_map_to_list. simpl. tauto. Qed.

Lemma from_NoDup {A} (p : A -> Prop) `{forall a, Decision (p a)} (m : gmap UUID A) : NoDup (from p m).
Proof. apply NoDup_filter, NoDup_map_to_list. Qed.

Lemma window_elem {A} page pageSize (rows : list A) x : x ∈ window page pageSize rows -> x ∈ rows.
Proof.
  unfold window. destruct (pageWindow page pageSize) as [n o]. intros (i & Hi & _)%elem_of_take. rewrite lookup_drop in Hi. by eapply list_elem_of_lookup_2.
Qed.

Lemma orderBy_perm {A} (key : A -> string) env rows : orderBy key env rows ≡ₚ rows.
Proof. unfold orderBy. by rewrite merge_sort_Permutation, scan_perm. Qed.

Lemma listed {A} page pageSize (key : A -> string) env rows x : x ∈ window page pageSize (orderBy key env rows) -> x ∈ rows.
Proof. intros Hx%window_elem. by rewrite orderBy_perm in Hx. Qed.

(** ** What a read is answered from *)

Section answers.
Context (verify : string -> option Claims) (uuid_ok : string -> bool) (authz : Service -> Prop).
Context (seen : MWorld OrgDB -> Prop).
Abbreviation quiet := (fun w w' : MWorld OrgDB => w' = w).
Abbreviation safe := (safe verify uuid_ok authz seen quiet).

Lemma safe_onPool {A} (m : TxEnv -> OrgTx A) Q :
  Q (Err ErrDatabase) ->
  (forall w env, seen w -> match runOrg (m env) (w_store w) with Ok (a, db) => db = w_store w /\ Q (Ok a) | Err e => Q (Err e) end) ->
  safe (onPool m) Q.
Proof.
  intros He Hm. intros w x w' Hw [env Hx]. specialize (Hm w env Hw). destruct (tx_broken env); [by destruct Hx as [-> ->]|].
  destruct (runOrg (m env) (w_store w)) as [[a db]|e]; destruct Hx as [-> ->]; [|done]. destruct Hm as [-> ?]. split; [by destruct w|done].
Qed.

Lemma runOrg_query {A} (fails : nat -> bool) (f : OrgDB -> result org_error A) db :
  runOrg (query fails f) db = Err ErrDatabase \/ runOrg (query fails f) db = match f db with Ok a => Ok (a, db) | Err e => Err e end.
Proof. unfold runOrg, query, statement. simpl. destruct (fails 0); [by left|]. destruct (f db); by right. Qed.

Lemma safe_query {A} (f : TxEnv -> OrgDB -> result org_error A) Q :
  Q (Err ErrDatabase) -> (forall w env, seen w -> Q (f env (w_store w))) -> safe (onPool (fun env => query (tx_fails env) (f env))) Q.
Proof.
  intros He Hf. apply safe_onPool; [done|]. intros w env Hw. specialize (Hf w env Hw).
  destruct (runOrg_query (tx_fails env) (f env) (w_store w)) as [->| ->]; [done|]. by destruct (f env (w_store w)).
Qed.

Lemma safe_select {A} (f : TxEnv -> OrgDB -> A) Q :
  Q (Err ErrDatabase) -> (forall w env, seen w -> Q (Ok (f env (w_store w)))) -> safe (select f) Q.
Proof. intros He Hf. by apply safe_query. Qed.

(** ** Directories *)

Context (send : string -> adminWire -> option adminResponse) (parseUUID : string -> option UUID) (correlationID : string).
Context (Hback : authz_backed verify authz send).

(** The subject is linked to an active member of the company that is not a guest. *)
Definition reader (c : UUID) (kcSub : string) (db : OrgDB) : Prop :=
  exists i m, memberByKcSub db c kcSub = Some (i, m) /\ m_active m = true /\ m_guest m = false.
Definition at_some (f : OrgDB -> Prop) : Prop := exists w, seen w /\ f (w_store w).
Definition may_read (header kcSub : string) (c : UUID) : Prop := at_some (reader c kcSub) \/ superadmin_now verify authz header.

Lemma requireMemberOrAdmin_safe header kcSub c Q :
  (may_read header kcSub c -> Q (Ok tt)) -> (forall r, Q (Err (ReadError r))) -> safe (requireMemberOrAdmin send correlationID header kcSub c) Q.
Proof.
  intros Ho He. unfold requireMemberOrAdmin. destruct (seqb kcSub ""); [apply He|]. apply safe_bind, safe_query; [apply He|].
  intros w env Hw. assert (Hadmin : safe (match Can send correlationID header "org.members.read" with Ok true => Ret (Ok tt) | _ => refuse 403 "FORBIDDEN" "" end) Q).
  { destruct (Can _ _ _ _) as [[]|] eqn:Hc; try apply He. apply Ho. right. apply mapDecision_ok in Hc as (d & Hd & Ha & _). by eapply Decide_allowed. }
  destruct (memberByKcSub (w_store w) c kcSub) as [[i m]|] eqn:Hm; simpl; [|done].
  destruct (m_active m && negb (m_guest m)) eqn:E; [|done]. apply Ho. left. exists w. split; [done|]. exists i, m. by breakb.
Qed.

Lemma pathUUID_safe name s Q : (forall id, Q (Ok id)) -> (forall r, Q (Err (ReadError r))) -> safe (pathUUID parseUUID name s) Q.
Proof. intros Ho He. unfold pathUUID. destruct (parseUUID s); [apply Ho|apply He]. Qed.

Lemma pageParams_safe page pageSize Q : (forall pg, Q (Ok pg)) -> (forall r, Q (Err (ReadError r))) -> safe (pageParams page pageSize) Q.
Proof. intros Ho He. unfold pageParams. destruct (_ <? _)%Z; [apply He|]. destruct (_ <? _)%Z; [apply He|apply Ho]. Qed.

(** What the pages of a company show, and where it was read. *)
Definition found_by (q : string) (m : Member) : Prop :=
  q = "" \/ occurs (lower q) (lower (m_display m)) \/ exists e, m_email m = Some e /\ occurs (lower q) (lower e).
Definition discloses (q : string) (c : UUID) (d : orgData) : Prop :=
  match d with
  | DMembers p => at_some (fun db => forall r, r ∈ items p -> members db !! mw_id r = Some (mw_member r) /\ m_company (mw_member r) = c)
  | DMemberDirectory p => at_some (fun db => forall e, e ∈ items p -> exists m, members db !! de_ID e = Some m /\ m_company m = c /\ m_active m = true /\
      found_by q m /\ de_DisplayName e = m_display m /\ de_Email e = default "" (m_email m))
  | DPositionDirectory p => at_some (fun db => forall x, x ∈ items p -> exists y, positions db !! x.1.1 = Some y /\ p_company y = c /\ x.1.2 = p_code y /\ x.2 = p_title y)
  | DGroupDirectory p => at_some (fun db => forall x, x ∈ items p -> exists g, groups db !! x.1.1 = Some g /\ g_company g = c /\ g_active g = true /\ x.1.2 = g_code g /\ x.2 = g_name g)
  | DAssignment id a None => at_some (fun db => exists p, positions db !! as_position a = Some p /\ p_company p = c) /\ at_some (fun db => assignments db !! id = Some a)
  | DGroupMembers l => exists gid, at_some (fun db => exists g, groups db !! gid = Some g /\ g_company g = c) /\
      at_some (fun db => forall x, x ∈ l -> gm_GroupID x = gid /\ groupMembers db !! (gid, gm_MemberID x) = Some (gm_AddedBy x) /\
        exists m, members db !! gm_MemberID x = Some m /\ gm_DisplayName x = m_display m /\ gm_Email x = m_email m)
  | _ => False
  end.

Definition guarded (header kcSub q : string) (r : readReply) : Prop :=
  forall d, r = ReadData d -> exists c, may_read header kcSub c /\ discloses q c d.

Lemma guarded_error header kcSub q r : guarded header kcSub q (ReadError r).
Proof. intros d [=]. Qed.
#[local] Hint Resolve guarded_error : core.

Lemma directory_safe {A} header name id kcSub page pageSize q (list_ : UUID -> Z -> Z -> prog OrgDB org_error (result org_error (list A * nat))) view :
  (forall c p n, safe (list_ c p n) (fun r => match r with Ok l => forall pg, discloses q c (view (pageOf l.1 l.2 pg)) | Err e => True end)) ->
  safe (directory send parseUUID correlationID header name id kcSub page pageSize list_ view) (guarded header kcSub q).
Proof.
  intros Hl. unfold directory. apply safe_orReply, pathUUID_safe; [|done]. intros c. apply safe_orReply, requireMemberOrAdmin_safe; [|done]. intros Hm.
  apply safe_orReply, pageParams_safe; [|done]. intros pg. apply safe_orError. eapply safe_mono; [|apply Hl]. intros [l|e] H; [|done].
  intros d [= <-]. by exists c.
Qed.

(** A listing reads its rows and its count at two moments. *)
Lemma safe_counted {A} count (rows : prog OrgDB org_error (result org_error (list A))) (Q : result org_error (list A * nat) -> Prop) :
  (forall e, Q (Err e)) -> safe rows (fun r => match r with Ok l => forall n, Q (Ok (l, n)) | Err e => True end) ->
  safe (poolBind (select count) (fun n => poolBind rows (fun l => answer (l, n)))) Q /\
  safe (poolBind rows (fun l => poolBind (select count) (fun n => answer (l, n)))) Q.
Proof.
  intros He Hr. split.
  - apply safe_poolBind, safe_select; [done|]. intros w env _. apply safe_poolBind. eapply safe_mono; [|exact Hr]. intros [l|e] H; [apply H|done].
  - apply safe_poolBind. eapply safe_mono; [|exact Hr]. intros [l|e] H; [|done]. apply safe_poolBind, safe_select; [done|]. intros w env _. apply H.
Qed.

Lemma namedCaller_safe header kcSub company Q :
  kcSub <> "" -> safe company (fun r => match r with Ok c => may_read header kcSub c -> Q (Ok tt) | Err e => True end) ->
  (forall r, Q (Err (ReadError r))) -> safe (namedCaller send correlationID header kcSub company) Q.
Proof.
  intros Hk Hc He. unfold namedCaller. rewrite (proj2 (seqb_false kcSub "") Hk). apply safe_bind. eapply safe_mono; [|exact Hc].
  intros [c|e] H; [|apply He]. apply requireMemberOrAdmin_safe; [exact H|done].
Qed.

Lemma directory_rows c q db e (env : TxEnv) : e ∈ (directoryEntry env db <$> directoryOf c (if seqb q "" then None else Some (likeEscaper q)) db) ->
  exists m, members db !! de_ID e = Some m /\ m_company m = c /\ m_active m = true /\ found_by q m /\ de_DisplayName e = m_display m /\ de_Email e = default "" (m_email m).
Proof.
  intros ([i m] & -> & [Hi Hd]%from_elem)%list_elem_of_fmap. simpl in *. exists m. unfold inDirectory in Hd.
  rewrite !andb_true_iff, bool_decide_eq_true in Hd. destruct Hd as [[Hc Ha] Hq]. split_and!; [done..| |done|done].
  unfold found_by. destruct (seqb q "") eqn:Eq; [left; by apply seqb_true|right].
  rewrite orb_true_iff, ilike_occurs in Hq. destruct Hq as [Hq|Hq]; [by left|right].
  destruct (m_email m) as [e|]; [|done]. exists e. split; [done|]. by apply ilike_occurs.
Qed.

(** The caller a request names, and what it searches for. *)
Definition caller (req : readRequest) : option (string * string) :=
  match req with
  | ReqMemberDirectory _ kcSub q _ _ => Some (kcSub, q)
  | ReqPositionDirectory _ kcSub _ _ | ReqGroupDirectory _ kcSub _ _ | ReqListMembers _ kcSub _ _ => Some (kcSub, "")
  | ReqHolderOnDate _ _ kcSub | ReqListGroupMembers _ kcSub => if seqb kcSub "" then None else Some (kcSub, "")
  | _ => None
  end.

Lemma serveReads_guarded header req kcSub q :
  caller req = Some (kcSub, q) -> safe (serveReads send parseUUID correlationID header req) (guarded header kcSub q).
Proof.
  destruct req as [| | | | |id k s p n|id k p n|id k p n| |id k p n| | | |id d k| | | |id k|]; simpl; try done.
  - intros [= -> ->]. apply directory_safe. intros c p' n'. apply safe_counted; [done|]. apply safe_select; [done|]. intros w env Hw m pg.
    exists w. split; [done|]. intros e He%listed. by eapply directory_rows.
  - intros [= -> <-]. apply directory_safe. intros c p' n'. apply safe_counted; [done|]. apply safe_select; [done|]. intros w env Hw m pg.
    exists w. split; [done|]. simpl. intros x ([i y] & -> & [Hi Hc]%listed%from_elem)%list_elem_of_fmap. simpl in *. by exists y.
  - intros [= -> <-]. apply directory_safe. intros c p' n'. apply (safe_counted _ (listActiveGroups c p' n')); [done|]. apply safe_select; [done|]. intros w env Hw m pg.
    exists w. split; [done|]. simpl. intros x ([i y] & -> & [Hi [Hc Ha]]%listed%from_elem)%list_elem_of_fmap. simpl in *. by exists y.
  - intros [= -> <-]. apply directory_safe. intros c p' n'. apply safe_counted; [done|]. apply safe_select; [done|]. intros w env Hw m pg.
    exists w. split; [done|]. simpl. intros r Hr%listed. apply list_elem_of_fmap in Hr as ([i y] & -> & [Hi Hc]%from_elem). done.
  - destruct (seqb k "") eqn:Ek; [done|]. intros [= -> <-]. apply seqb_false in Ek. apply safe_orReply, pathUUID_safe; [|done]. intros i.
    destruct (parseDate d) as [day|]; [|done]. apply safe_orReply, namedCaller_safe; [done| |done].
    apply safe_poolBind, safe_query; [done|]. intros w env Hw. destruct (found _ _) as [p|] eqn:Ep; [|done]. apply found_ok in Ep. cbn [ModuleKit.safe answer]. intros Hread.
    apply safe_orError. unfold AssignmentOnDate. apply safe_query; [done|]. intros w2 env2 Hw2. destruct (found _ _) as [[j a]|] eqn:Ea; [|done]. apply found_ok in Ea. simpl.
    intros x [= <-]. exists (p_company p). split; [done|].
    assert (assignments (w_store w2) !! j = Some a /\ as_position a = i) as [Hj Hpos].
    { unfold assignmentOnDate in Ea. apply fmap_Some in Ea as ([n [j' a']] & (E & [Hh _] & _)%list_find_Some & [= <- <-]). split; [|done]. by apply elem_of_map_to_list, list_elem_of_lookup_2 with n. } split; [exists w; split; [done|]; rewrite Hpos; eauto|by exists w2].
  - destruct (seqb k "") eqn:Ek; [done|]. intros [= -> <-]. apply seqb_false in Ek. apply safe_orReply, pathUUID_safe; [|done]. intros i.
    apply safe_orReply, namedCaller_safe; [done| |done].
    apply safe_poolBind, safe_query; [done|]. intros w env Hw. destruct (found _ _) as [g|] eqn:Eg; [|done]. apply found_ok in Eg. cbn [ModuleKit.safe answer]. intros Hread.
    apply safe_orError, safe_select; [done|]. intros w2 env2 Hw2. intros x [= <-]. exists (g_company g). split; [done|]. exists i.
    split; [exists w; eauto|]. exists w2. split; [done|]. intros y Hy. rewrite orderBy_perm in Hy. unfold groupMembersOf in Hy.
    apply list_elem_of_omap in Hy as ([[gi mi] by_] & Hin%elem_of_map_to_list & Hy). simpl in Hy. destruct (decide (gi = i)) as [->|]; [|done].
    destruct (members (w_store w2) !! mi) as [m|] eqn:Em; [|done]. injection Hy as <-. simpl. eauto 10.
Qed.
End answers.
(** ** Reads change nothing *)

Definition read_only (X : Type) (c : call OrgDB org_error X) : Prop :=
  match c in call _ _ X with
  | @Transact _ _ X m => forall env db a db', m env db = Ok (a, db') -> db' = db
  | _ => False
  end.
Abbreviation reads := (calls read_only).

Lemma runOrg_reads {A} (fails : nat -> bool) (f : OrgDB -> result org_error A) db a db' : runOrg (query fails f) db = Ok (a, db') -> db' = db.
Proof. by intros [n [_ [= -> _]]%query_ok]%runOrg_ok. Qed.

Lemma reads_onPool {A} (f : TxEnv -> OrgDB -> result org_error A) : reads (onPool (fun env => query (tx_fails env) (f env))).
Proof. split; [|done]. simpl. intros env db a db'. destruct (tx_broken env); [done|]. apply runOrg_reads. Qed.

Lemma reads_companies kcSub : reads (activeCompanies kcSub).
Proof.
  split; [|done]. simpl. intros env db a db'. destruct (tx_broken env); [done|]. intros [n H]%runOrg_ok.
  apply tbind_ok in H as (l & s & [_ ->]%query_ok & [= _ ->]). done.
Qed.

(** Every read is built from statements that only read. *)
Ltac reads := repeat lazymatch goal with
  | |- reads (Ret _) => exact I
  | |- reads (data _) => exact I
  | |- reads (refuse _ _ _) => exact I
  | |- reads (answer _) => exact I
  | |- reads (if ?b then _ else _) => destruct b
  | |- reads (match ?x with _ => _ end) => destruct x
  | |- reads (orReply _ _) => apply calls_orReply; [|intros ?]
  | |- reads (orError _ _ _) => apply calls_orError; [|intros ?]
  | |- reads (poolBind _ _) => apply calls_poolBind; [|intros ?]
  | |- reads (bind _ _) => apply calls_bind; [|intros ?]
  | |- reads (activeCompanies _) => apply reads_companies
  | |- reads (onPool _) => apply reads_onPool
  | |- reads ?p => progress (let h := p in unfold_head h)
  end
with unfold_head p := lazymatch p with ?f _ => unfold_head f | _ => unfold p end.

Lemma serveReads_reads send parseUUID correlationID header req : reads (serveReads send parseUUID correlationID header req).
Proof. destruct req; cbn [serveReads]; reads. Qed.

(** C21: who learns what from a directory.  Whatever happens between its statements, a
    read changes nothing.  When a member, position or group directory, the member list,
    a position's holder or a group's members is answered to a caller the gateway names,
    there is one company such that the caller was at some moment of the request linked
    to an active member of it who is no guest, or is a superadmin by authz's tuples;
    and everything in the answer belongs to that company: the rows, active ones where
    the directory says so, stood together in the tables at one moment, carry the names
    of that moment and, where text is searched for, contain it literally in the name or
    the address, ignoring case. *)
Theorem directories_guarded verify uuid_ok authz send parseUUID correlationID between header req w steps a w' :
  authz_backed verify authz send ->
  run verify uuid_ok authz between (serveReads send parseUUID correlationID header req) w steps a w' ->
  Forall (fun s => s.2 = s.1) steps /\
  (forall kcSub q d, caller req = Some (kcSub, q) -> a = ReadData d ->
     let seen := fun w => exists s, s ∈ steps /\ s.1 = w in
     exists c, may_read verify authz seen header kcSub c /\ discloses seen q c d).
Proof.
  intros Hback Hr. split.
  - pose proof (run_calls verify uuid_ok authz read_only between _ _ _ _ _ Hr (serveReads_reads _ _ _ _ _)) as Hs.
    eapply Forall_impl; [exact Hs|]. intros [w1 w2] (X & c & x & Hc & Hx). simpl in *. destruct c; try done. destruct Hx as [env Hx].
    destruct (m env (w_store w1)) as [[y db]|e] eqn:E; destruct Hx as [_ ->]; [|done]. apply Hc in E as ->. by destruct w1.
  - intros kcSub q d Hcall -> seen.
    destruct (run_safe verify uuid_ok authz seen (fun w w' => w' = w) between _ _ _ _ _ (guarded verify authz seen header kcSub q) Hr) as [_ Hg]; [| |by apply Hg].
    + apply Forall_forall. intros w1 (s & -> & Hin)%list_elem_of_fmap. by exists s.
    + by eapply serveReads_guarded.
Qed.

(** ** Pages *)

(** The rows by a text, when it tells them apart. *)
Definition ordered {A} (key : A -> string) (rows : list A) : list A := merge_sort (byText key) rows.
Definition told_apart {A} (key : A -> string) (rows : list A) : Prop := forall x y, x ∈ rows -> y ∈ rows -> key x = key y -> x = y.

Lemma sorted_unique {A} (key : A -> string) (l1 l2 : list A) :
  told_apart key l1 -> StronglySorted (byText key) l1 -> StronglySorted (byText key) l2 -> l1 ≡ₚ l2 -> l1 = l2.
Proof.
  intros Ha H1 H2 Hp. apply (StronglySorted_unique_strong (byText key)); [|done..]. intros x y Hx Hy Hxy Hyx. rewrite <- Hp in Hy.
  apply Ha; [done..|]. by apply (anti_symm textLe).
Qed.

Lemma byText_sorted {A} (key : A -> string) rows : StronglySorted (byText key) (merge_sort (byText key) rows).
Proof.
  apply StronglySorted_merge_sort; [|intros x y; by apply textLe_total]. intros x y z. unfold byText.
  destruct textLe_order as [[_ Htrans] _]. apply Htrans.
Qed.

Lemma ordered_perm {A} (key : A -> string) rows : ordered key rows ≡ₚ rows.
Proof. apply merge_sort_Permutation. Qed.

Lemma orderBy_ordered {A} (key : A -> string) env rows : told_apart key rows -> orderBy key env rows = ordered key rows.
Proof.
  intros Ha. apply (sorted_unique key); [|apply byText_sorted..|by rewrite orderBy_perm, ordered_perm].
  intros x y. rewrite orderBy_perm. apply Ha.
Qed.

(** Rows with more columns are ordered the same way. *)
Lemma orderBy_view {A B} (view : A -> B) (key : B -> string) env (rows : list A) (l : list B) :
  view <$> rows ≡ₚ l -> told_apart key l -> view <$> orderBy (key ∘ view) env rows = ordered key l.
Proof.
  intros Hv Ha. assert (Hp : view <$> orderBy (key ∘ view) env rows ≡ₚ l) by by rewrite orderBy_perm.
  apply (sorted_unique key); [intros x y; rewrite Hp; apply Ha| |apply byText_sorted|by rewrite Hp, ordered_perm].
  assert (Hs : StronglySorted (byText (key ∘ view)) (orderBy (key ∘ view) env rows)) by apply byText_sorted.
  clear Hp. induction Hs as [|x l' Hs IH Hx]; simpl; constructor; [done|]. by apply Forall_fmap.
Qed.

Lemma window_map {A B} (f : A -> B) page pageSize rows : f <$> window page pageSize rows = window page pageSize (f <$> rows).
Proof. unfold window. destruct (pageWindow page pageSize). by rewrite fmap_take, fmap_drop. Qed.

Lemma window_exact {A} page pageSize (rows : list A) :
  (1 <= page <= maxPage)%Z -> (1 <= pageSize <= maxPageSize)%Z ->
  window page pageSize rows = take (Z.to_nat pageSize) (drop (Z.to_nat (page - 1) * Z.to_nat pageSize) rows).
Proof.
  unfold maxPage, maxPageSize. intros Hp Hn. unfold window, pageWindow, clampPage, maxPage, maxPageSize.
  repeat match goal with |- context [(?a <? ?b)%Z] => destruct (Z.ltb_spec a b); [lia|] end. simpl. unfold int32.
  rewrite !Z.mod_small by nia. f_equal; [f_equal; lia|]. f_equal. nia.
Qed.

Lemma pieces {A} n k (rows : list A) : concat ((fun i => take n (drop (i * n) rows)) <$> seq 0 k) = take (k * n) rows.
Proof.
  induction k as [|k IH]; [done|]. rewrite seq_S, fmap_app, concat_app, IH. simpl. rewrite app_nil_r, take_take_drop. f_equal. lia.
Qed.

Lemma windows_cover {A} pageSize (rows : list A) :
  (1 <= pageSize <= maxPageSize)%Z -> (Z.of_nat (length rows) <= maxPage * pageSize)%Z ->
  concat ((fun i => window (Z.of_nat i) pageSize rows) <$> seq 1 (Z.to_nat (totalPages (pageOf rows (length rows) (1%Z, pageSize))))) = rows.
Proof.
  intros Hn Hl. unfold pageOf, clampPage. simpl. unfold maxPage, maxPageSize in *. destruct (Z.ltb_spec pageSize 1); [lia|]. destruct (Z.ltb_spec 100 pageSize); [lia|]. simpl.
  set (k := ((Z.of_nat (length rows) + pageSize - 1) / pageSize)%Z).
  assert (Hk : (Z.of_nat (length rows) <= k * pageSize)%Z /\ (0 <= k <= 10000)%Z).
  { pose proof (Z.div_mod (Z.of_nat (length rows) + pageSize - 1) pageSize ltac:(lia)) as Hd. fold k in Hd.
    pose proof (Z.mod_pos_bound (Z.of_nat (length rows) + pageSize - 1) pageSize ltac:(lia)) as Hm. split; [lia|].
    split; [apply Z.div_pos; lia|]. apply Z.lt_succ_r, Z.div_lt_upper_bound; lia. }
  set (t := if (k <? 1)%Z then 1%Z else k). assert (Ht : (1 <= t <= 10000)%Z /\ (k <= t)%Z) by (unfold t; destruct (Z.ltb_spec k 1); lia).
  rewrite <- (fmap_S_seq 0), <- list_fmap_compose.
  transitivity (concat ((fun i => take (Z.to_nat pageSize) (drop (i * Z.to_nat pageSize) rows)) <$> seq 0 (Z.to_nat t))).
  - f_equal. apply list_fmap_ext. intros j i Hj. apply lookup_seq in Hj as [-> Hj]. simpl. rewrite window_exact; [|unfold maxPage; lia|unfold maxPageSize; lia].
    do 3 f_equal. lia.
  - rewrite pieces. apply take_ge. nia.
Qed.

(** ** Listings *)

Section listings.
Context (verify : string -> option Claims) (uuid_ok : string -> bool) (authz : Service -> Prop).
Abbreviation alone := (alone verify uuid_ok authz).

Lemma alone_poolSelect {A} (f : TxEnv -> OrgDB -> A) w (Q : result org_error A -> MWorld OrgDB -> Prop) :
  Q (Err ErrDatabase) w -> (forall env, Q (Ok (f env (w_store w))) w) -> alone (select f) w Q.
Proof.
  intros He Hf x w' [env Hx]. simpl. destruct (tx_broken env); [by destruct Hx as [-> ->]|].
  destruct (runOrg_query (tx_fails env) (fun db => Ok (f env db)) (w_store w)) as [E|E]; rewrite E in Hx; destruct Hx as [-> ->]; [done|].
  destruct w. apply Hf.
Qed.

(** A listing, seen through the columns that do not depend on the moment. *)
Definition pages_of {A B} (list_ : Z -> Z -> prog OrgDB org_error (result org_error (list A * nat))) (view : A -> B) (w : MWorld OrgDB) (rows : list B) : Prop :=
  (forall page pageSize, alone (list_ page pageSize) w (fun r w' => w' = w /\
     (r = Err ErrDatabase \/ exists l, r = Ok (l, length rows) /\ view <$> l = window page pageSize rows))) /\
  (forall pageSize, (1 <= pageSize <= maxPageSize)%Z -> (Z.of_nat (length rows) <= maxPage * pageSize)%Z ->
     concat ((fun i => window (Z.of_nat i) pageSize rows) <$> seq 1 (Z.to_nat (totalPages (pageOf rows (length rows) (1%Z, pageSize))))) = rows).

(** The company's rows of a table, by code. *)
Definition in_order {A} (code : A -> string) (all : list (UUID * A)) (rows : list (UUID * A)) : Prop :=
  rows ≡ₚ all /\ NoDup rows /\ StronglySorted (byText (fun kv => code kv.2)) rows.

Lemma ordered_in_order {A} (code : A -> string) (p : A -> Prop) `{forall a, Decision (p a)} m :
  in_order code (from p m) (ordered (fun kv => code kv.2) (from p m)).
Proof. split; [apply ordered_perm|]. split; [|apply byText_sorted]. rewrite ordered_perm. apply from_NoDup. Qed.

Lemma codes_apart {A} (key : A -> option (UUID * string)) (code : A -> string) (p : A -> Prop) `{forall a, Decision (p a)} (c : UUID) (m : gmap UUID A) :
  unique_by key m -> (forall a, p a -> key a = Some (c, code a)) -> told_apart (fun kv => code kv.2) (from p m).
Proof.
  intros Hu Hk [i a] [j b] [Hi Ha]%from_elem [Hj Hb]%from_elem E. simpl in *.
  assert (i = j) as <- by (eapply Hu; [exact Hi|exact Hj|by apply Hk|rewrite E; by apply Hk]). by simplify_eq.
Qed.

(** Rows that carry more than the row of the table. *)
Lemma view_window {A B} (view : A -> B) (key : B -> string) env (rows : list A) (l : list B) page pageSize :
  view <$> rows ≡ₚ l -> told_apart key l ->
  view <$> window page pageSize (orderBy (fun a => key (view a)) env rows) = window page pageSize (ordered key l).
Proof. intros Hv Ha. rewrite window_map. f_equal. by apply orderBy_view. Qed.

Lemma counted_listing {A B} count (rows : Z -> Z -> prog OrgDB org_error (result org_error (list A))) (view : A -> B) w (l : list B) :
  (forall page pageSize, alone (rows page pageSize) w (fun r w' => w' = w /\ (r = Err ErrDatabase \/ exists x, r = Ok x /\ view <$> x = window page pageSize l))) ->
  count (w_store w) = length l ->
  pages_of (fun p n => poolBind (select (fun _ db => count db)) (fun m => poolBind (rows p n) (fun x => answer (x, m)))) view w l /\
  pages_of (fun p n => poolBind (rows p n) (fun x => poolBind (select (fun _ db => count db)) (fun m => answer (x, m)))) view w l.
Proof.
  intros Hr Hc. split; (split; [intros page pageSize|intros pageSize; apply windows_cover]).
  - apply alone_poolBind, alone_poolSelect; [eauto|]. intros env. rewrite Hc. apply alone_poolBind. eapply alone_mono; [|apply Hr].
    intros r w' [-> [->|(x & -> & Hx)]]; [by eauto|]. split; [done|]. eauto.
  - apply alone_poolBind. eapply alone_mono; [|apply Hr]. intros r w' [-> [->|(x & -> & Hx)]]; [by eauto|].
    apply alone_poolBind, alone_poolSelect; [eauto|]. intros env. rewrite Hc. split; [done|]. eauto.
Qed.

Lemma listed_alone {A B} (f : TxEnv -> OrgDB -> Z -> Z -> list A) (view : A -> B) w (l : list B) :
  (forall env page pageSize, view <$> f env (w_store w) page pageSize = window page pageSize l) ->
  forall page pageSize, alone (select (fun env db => f env db page pageSize)) w (fun r w' => w' = w /\ (r = Err ErrDatabase \/ exists x, r = Ok x /\ view <$> x = window page pageSize l)).
Proof. intros Hf page pageSize. apply alone_poolSelect; [eauto|]. intros env. split; [done|]. eauto. Qed.

Lemma holdings_one db d kv : assignments_ok db -> (fun h => (ph_ID h, ph_Position h)) <$> holdings db d kv = [kv].
Proof.
  intros Hok. unfold holdings. destruct (from (holds_on kv.1 d) (assignments db)) as [|[i a] l] eqn:E; [by destruct kv|].
  enough (l = []) as -> by by destruct kv. pose proof (from_NoDup (holds_on kv.1 d) (assignments db)) as Hnd. rewrite E in Hnd.
  destruct l as [|[j b] l]; [done|]. exfalso. apply NoDup_cons in Hnd as [Hnd _].
  assert (Hi : (i, a) ∈ from (holds_on kv.1 d) (assignments db)) by (rewrite E; left). apply from_elem in Hi as [Hi Ha].
  assert (Hj : (j, b) ∈ from (holds_on kv.1 d) (assignments db)) by (rewrite E; right; left). apply from_elem in Hj as [Hj Hb]. simpl in *.
  destruct (decide (i = j)) as [->|Hne]; [simplify_eq; apply Hnd; left|]. by apply (assignment_disjoint _ Hok i j a b Hi Hj Hne); eapply holds_on_overlaps.
Qed.

Lemma holdings_view db d l : assignments_ok db -> (fun h => (ph_ID h, ph_Position h)) <$> (l ≫= holdings db d) = l.
Proof. intros Hok. induction l as [|kv l IH]; [done|]. rewrite bind_cons, fmap_app, IH, holdings_one by done. done. Qed.
End listings.

(** The pages of a listing.  At any moment, a company's members, positions, active
    groups and groups stand in one order by their codes, each row once, whatever the
    order the database finds them in; every page is the window of that list its number
    and size name, beside the count of the list, or the answer is an error; and for any
    size the pages up to the number of pages the answer states, put together, are the
    list.  The position list joins today's assignment and member and still has each
    position once. *)
Theorem listing_pages verify uuid_ok authz c w :
  well_formed (w_store w) ->
  (exists ms, in_order m_code (membersOf c (w_store w)) ms /\
     pages_of verify uuid_ok authz (ListMembers c) (fun r => (mw_id r, mw_member r)) w ms) /\
  (exists ps, in_order p_code (positionsOf c (w_store w)) ps /\
     pages_of verify uuid_ok authz (ListPositions c) id w ps /\
     pages_of verify uuid_ok authz (ListPositionsWithHolder c) (fun h => (ph_ID h, ph_Position h)) w ps) /\
  (exists gs, in_order g_code (activeGroupsOf c (w_store w)) gs /\ pages_of verify uuid_ok authz (ListActiveGroups c) id w gs) /\
  (exists gs, in_order g_code (groupsOf c (w_store w)) gs /\ pages_of verify uuid_ok authz (ListGroupsWithMemberCount c) fst w gs).
Proof.
  intros [_ Hm Hp Ha Hg]. split_and!; eexists; (split; [apply ordered_in_order|]).
  - apply counted_listing; [|by rewrite ordered_perm]. apply (listed_alone verify uuid_ok authz (fun env db p n => _)). intros env p n.
    apply (view_window (fun r => (mw_id r, mw_member r)) (fun kv => m_code kv.2)); [by rewrite <- list_fmap_compose, (list_fmap_ext _ id), list_fmap_id by by intros ? []|].
    eapply (codes_apart member_key _ _ c); [apply Hm|]. by intros a <-.
  - assert (Hap : told_apart (fun kv => p_code kv.2) (positionsOf c (w_store w))) by (eapply (codes_apart position_key _ _ c); [apply Hp|]; by intros a <-). split.
    + apply counted_listing; [|by rewrite ordered_perm]. apply (listed_alone verify uuid_ok authz (fun env db p n => _)). intros env p n.
      apply (view_window id (fun kv => p_code kv.2)); [by rewrite list_fmap_id|done].
    + split; [intros page pageSize|intros pageSize; apply windows_cover]. apply alone_poolBind, alone_poolSelect; [eauto|]. intros env. apply alone_poolBind, alone_poolSelect; [eauto|]. intros env2.
      apply alone_poolBind, alone_poolSelect; [eauto|]. intros env3. split; [done|]. right. eexists. split; [do 2 f_equal; by rewrite ordered_perm|].
      apply (view_window (fun h => (ph_ID h, ph_Position h)) (fun kv => p_code kv.2)); [by rewrite holdings_view|done].
  - apply counted_listing; [|by rewrite ordered_perm]. apply (listed_alone verify uuid_ok authz (fun env db p n => _)). intros env p n.
    apply (view_window id (fun kv => g_code kv.2)); [by rewrite list_fmap_id|]. eapply (codes_apart group_key _ _ c); [apply Hg|]. by intros a [<- _].
  - apply counted_listing; [|by rewrite ordered_perm]. apply (listed_alone verify uuid_ok authz (fun env db p n => _)). intros env p n.
    apply (view_window fst (fun kv => g_code kv.2)); [by rewrite <- list_fmap_compose, (list_fmap_ext _ id), list_fmap_id by done|].
    eapply (codes_apart group_key _ _ c); [apply Hg|]. by intros a <-.
Qed.
End facts.

(** ** Witnesses *)

#[local] Existing Instance demoUUIDText.
#[local] Existing Instance demoUnicode.

(** Texts by their bits, folded to capitals; every other second the rows are found in
    reverse. *)
Definition bitsLe (a b : string) : Prop := (encode a <= encode b)%positive.
#[local] Instance bitsLe_dec : RelDecision bitsLe.
Proof. intros a b. unfold bitsLe. apply _. Defined.
#[local] Instance bitsLe_total : Total bitsLe.
Proof. intros a b. unfold bitsLe. lia. Qed.
#[local] Instance bitsLe_order : PartialOrder bitsLe.
Proof.
  split; [split; [intros a; unfold bitsLe; lia|intros a b c; unfold bitsLe; lia]|]. intros a b Hab Hba. apply (inj encode).
  unfold bitsLe in *. lia.
Qed.

Lemma upper_special c : bool_decide (upper c ∈ ["\"; "%"; "_"]%char) = bool_decide (c ∈ ["\"; "%"; "_"]%char) /\ (c ∈ ["\"; "%"; "_"]%char -> upper c = c).
Proof. split; [by destruct c as [[] [] [] [] [] [] [] []]|set_solver]. Qed.

Lemma upper_literal q : map_text upper ("%" +:+ likeEscaper q +:+ "%") = "%" +:+ likeEscaper (map_text upper q) +:+ "%".
Proof.
  change (String "%" (map_text upper (likeEscaper q +:+ "%")) = String "%" (likeEscaper (map_text upper q) +:+ "%")). f_equal.
  induction q as [|c q IH]; [done|]. destruct (upper_special c) as [Hs Hc]. cbn [likeEscaper map_text]. rewrite Hs.
  clear Hs. case_bool_decide as H; [rewrite (Hc H)|]; simpl; rewrite IH; [|done]. by rewrite (Hc H).
Qed.

#[local] Instance demoReading : OrgReading := {|
  textLe := bitsLe;
  scan := fun env A l => if Z.odd (tx_now env) then rev l else l;
  scan_perm := fun env A l => match Z.odd (tx_now env) as b return (if b then rev l else l) ≡ₚ l with true => symmetry (Permutation_rev l) | false => reflexivity l end;
  lower := map_text upper;
  lower_literal := upper_literal;
  columns := fun _ _ => mkColumns None None "active" "person";
  dateOf := fun t => (t / 86400)%Z
|}.

Definition readAnswers : Answers :=
  mkAnswers (fun n => mkTxEnv false (fun _ => false) (Z.of_nat n) (fun _ => 0%N)) demoAdmins (fun _ => false) (fun _ => true) (fun _ => false)
    (fun _ _ => None) (fun _ => None) (fun _ => None) (fun _ => None) (fun _ => None) (fun _ => None) (fun _ => true).
Definition readParse (s : string) : option UUID := if seqb s "0" then Some 0%N else None.
Definition readWorld (db : OrgDB) : MWorld OrgDB := mkMWorld db (mkWorld (mkDB ∅ [] ∅) []) [].
Definition performRead {A} n (p : prog OrgDB org_error A) (db : OrgDB) := perform demoVerify demoUUID readAnswers noFaults n p (readWorld db).

Lemma performRead_run {A} n (p : prog OrgDB org_error A) db :
  let res := performRead n p db in run demoVerify demoUUID (eq demoAdmins) eq p (readWorld db) res.1.2 res.1.1 res.2.
Proof. intros res. apply (perform_run _ _ _ readAnswers noFaults n); [reflexivity|]. fold (performRead n p db). fold res. by destruct res as [[]]. Qed.

(** Ann looks for a member of her company. *)
Definition annSearch : prog OrgDB org_error readReply :=
  serveReads demoSend readParse "" "" (ReqMemberDirectory "0" "ann" "B@" "" "50").
Definition annFound := performRead 0 annSearch demoOrg.

Lemma directories_guarded_witness :
  annFound.1.1 = ReadData (DMemberDirectory (mkPage [mkEntry 3 "Bob" "b@acme" false "person"] 1 1 50 1)) /\
  Forall (fun s => s.2 = s.1) annFound.1.2.
Proof.
  split; [vm_compute; reflexivity|].
  apply (directories_guarded demoVerify demoUUID (eq demoAdmins) demoSend readParse "" eq "" (ReqMemberDirectory "0" "ann" "B@" "" "50")
    (readWorld demoOrg) annFound.1.2 annFound.1.1 annFound.2 (sendTo_backed demoAdmins)).
  exact (performRead_run 0 annSearch demoOrg).
Defined.

Lemma listing_pages_witness :
  well_formed demoOrg /\ (performRead 0 (ListMembers 0 1 1) demoOrg).1.1 = Ok ([mkMemberRow 2 (mkMember 0 "M1" "Ann" None (Some 0%N) true false) (Some ("ann", mkColumns None None "active" "person"))], 2) /\
  exists ms, in_order m_code (membersOf 0 demoOrg) ms.
Proof.
  split; [exact demo_wf|]. split; [vm_compute; reflexivity|].
  destruct (proj1 (listing_pages demoVerify demoUUID (eq demoAdmins) 0 (readWorld demoOrg) demo_wf)) as (ms & Hms & _). by exists ms.
Defined.

(** ** What the code lets through *)

(** The directories are ordered by the name alone: two members of one name may change
    places between two pages, and then one is shown twice and the other never. *)
Definition namesakes : OrgDB := with_members demoOrg (<[3%N := mkMember 0 "M2" "Ann" (Some "b@acme") None true false]> (members demoOrg)).
Definition pageShown (second : nat) (page : Z) : list UUID :=
  match (performRead second (MemberDirectory 0 "" page 1) namesakes).1.1 with Ok r => de_ID <$> r.1 | Err _ => [] end.
Example directory_repeats :
  pageShown 0 1 = [3%N] /\ pageShown 1 2 = [3%N] /\ length (directoryOf 0 None namesakes) = 2.
Proof. split_and!; vm_compute; reflexivity. Qed.
