(* ===== verification/Helpdesk.v ===== *)
(** * The helpdesk store

    modules/helpdesk/service/store.go over the tables of the module's migrations:
    tickets with an assignee (a member, a position or a group), append-only comments,
    the index of agents, and the audit log, from which the status timeline is read.  A
    method is one transaction: if a statement or the commit fails, nothing of it is
    kept. *)

From stdpp Require Import base gmap strings list sorting.
From S2P Require Import Prelude OrgTree Org ModuleKit.

Inductive hd_error : Type :=
| ValidationError (field : string)
| ErrTicketNotFound
| ErrAgentNotFound
| ErrIdempotencyConflict
| ErrDatabase.

Definition StatusOpen : string := "open".
Definition StatusInProgress : string := "in_progress".
Definition StatusResolved : string := "resolved".
Definition StatusClosed : string := "closed".

(** The CHECK constraint on the status. *)
Definition statuses : list string := [StatusOpen; StatusInProgress; StatusResolved; StatusClosed].

(** ** Rows *)

Record Ticket := mkTicket {
  t_company : UUID;
  t_title : string;
  t_description : string;
  t_status : string;
  t_reporter : UUID;
  t_reporterKcSub : string;
  t_member : option UUID;
  t_kcSub : option string;
  t_position : option UUID;
  t_positionTitle : option string;
  t_group : option UUID;
  t_groupTitle : option string;
  t_key : option string;
  t_hash : option string;
  t_created : Z;
  t_updated : Z
}.

Record Comment := mkComment {
  c_ticket : UUID; c_author : string; c_body : string; c_key : option string; c_hash : option string; c_created : Z
}.

Record Agent := mkAgent {
  a_company : UUID;
  a_member : option UUID;
  a_kcSub : option string;
  a_position : option UUID;
  a_positionTitle : option string;
  a_group : option UUID;
  a_groupTitle : option string;
  a_grantedBy : string;
  a_created : Z
}.

Record HdEvent := mkHdEvent {
  ev_at : Z; ev_actor : string; ev_action : string; ev_subject : string; ev_payload : list (string * string)
}.

Record HdDB := mkHdDB {
  tickets : gmap UUID Ticket;
  comments : gmap UUID Comment;
  agents : gmap UUID Agent;
  hdAudit : list HdEvent
}.

(** [AssigneeKind] and [BindingKind] *)
Definition AssigneeKind (t : Ticket) : string :=
  if bool_decide (is_Some (t_position t)) then "position"
  else if bool_decide (is_Some (t_group t)) then "group"
  else if bool_decide (is_Some (t_member t)) then "member"
  else "".
Definition BindingKindMember : string := "member".
Definition BindingKindPosition : string := "position".
Definition BindingKindGroup : string := "group".
Definition BindingKind (a : Agent) : string :=
  if bool_decide (is_Some (a_position a)) then BindingKindPosition
  else if bool_decide (is_Some (a_group a)) then BindingKindGroup
  else BindingKindMember.

(** How many of three columns are set. *)
Definition count_set {A} (l : list (option A)) : nat := length (omap id l).

(** ticket_at_most_one_of_assignee_member_position_or_group and
    agent_exactly_one_of_member_position_or_group *)
Definition ticket_check (t : Ticket) : bool :=
  bool_decide (t_status t ∈ statuses) && (count_set [t_member t; t_position t; t_group t] <=? 1)%nat.
Definition agent_check (a : Agent) : bool := (count_set [a_member a; a_position a; a_group a] =? 1)%nat.

Section store.
Context `{UT : UUIDText}.
(** sha256 of the fields with NUL bytes between them, in hexadecimal. *)
Context (ticketIdempotencyPayloadHash : UUID -> string -> string -> string -> string)
  (commentIdempotencyPayloadHash : UUID -> string -> string -> string).

Abbreviation Tx A := (TxEnv -> HdDB -> result hd_error (A * HdDB)).

(** ** Statements *)

Definition with_tickets (db : HdDB) ts := mkHdDB ts (comments db) (agents db) (hdAudit db).
Definition with_comments (db : HdDB) cs := mkHdDB (tickets db) cs (agents db) (hdAudit db).
Definition with_agents (db : HdDB) ags := mkHdDB (tickets db) (comments db) ags (hdAudit db).

(** A read outside a transaction. *)
Definition read {A} (f : HdDB -> result hd_error A) : Tx A := fun env db =>
  if tx_broken env then Err ErrDatabase else let! a := f db in Ok (a, db).

(** A transaction: its statements, then the audit row. *)
Definition tx {A} (m : Tx A) (event : A -> Z -> HdEvent) : Tx A := fun env db =>
  if tx_broken env then Err ErrDatabase
  else let! r := m env db in
       Ok (r.1, mkHdDB (tickets r.2) (comments r.2) (agents r.2) (hdAudit r.2 ++ [event r.1 (tx_now env)])).

Definition ticketSubject (id : UUID) : string := "helpdesk_ticket:" +:+ uuidString id.
Definition companyModuleObjectID (companyID : string) : string := companyID +:+ "/helpdesk".
Definition moduleSubject (companyID : UUID) : string := "company_module:" +:+ companyModuleObjectID (uuidString companyID).

Definition ticketIn (db : HdDB) (companyID ticketID : UUID) : option Ticket :=
  t ← tickets db !! ticketID; if bool_decide (t_company t = companyID) then Some t else None.

(** UPDATE helpdesk.ticket ... WHERE company_id = $1 AND id = $2 RETURNING *)
Definition updateTicket (companyID ticketID : UUID) (f : Z -> Ticket -> Ticket) : Tx (UUID * Ticket) := fun env db =>
  match ticketIn db companyID ticketID with
  | None => Err ErrTicketNotFound
  | Some t =>
      let t' := f (tx_now env) t in
      if ticket_check t' then Ok ((ticketID, t'), with_tickets db (<[ticketID := t']> (tickets db))) else Err ErrDatabase
  end.

(** ** Tickets *)

(** [validTitle] *)
Definition validTitle (title : string) : result hd_error unit :=
  if (String.length title <? 1)%nat || (200 <? String.length title)%nat then Err (ValidationError "title") else Ok tt.

Definition ticket_with_key (companyID : UUID) (reporterKcSub key : string) (t : Ticket) : Prop :=
  t_company t = companyID /\ t_reporterKcSub t = reporterKcSub /\ t_key t = Some key.

(** [FindTicketByIdempotencyKey]: the ticket and its stored hash. *)
Definition FindTicketByIdempotencyKey (companyID : UUID) (reporterKcSub idempotencyKey : string)
    : Tx (option (UUID * Ticket * string)) :=
  read (fun db => Ok (r ← find_where (ticket_with_key companyID reporterKcSub idempotencyKey) (tickets db);
                      Some (r, default "" (t_hash r.2)))).

Definition insertTicket (t : Z -> Ticket) : Tx (UUID * Ticket) := fun env db =>
  let t := t (tx_now env) in
  let id := tx_newID env in
  if bool_decide (is_Some (tickets db !! id)) then Err ErrIdempotencyConflict
  else
    match t_key t ≫= (fun key => find_where (ticket_with_key (t_company t) (t_reporterKcSub t) key) (tickets db)) with
    | Some _ => Err ErrIdempotencyConflict
    | None =>
        if ticket_check t then Ok ((id, t), with_tickets db (<[id := t]> (tickets db))) else Err ErrDatabase
    end.

(** [CreateTicket] *)
Definition CreateTicket (actor : string) (companyID reporterMemberID : UUID) (reporterKcSub title description idempotencyKey : string)
    : Tx (UUID * Ticket) := fun env db =>
  let! _ := validTitle title in
  let key := if seqb idempotencyKey "" then None else Some idempotencyKey in
  let hash := if seqb idempotencyKey "" then None
              else Some (ticketIdempotencyPayloadHash companyID reporterKcSub title description) in
  tx (insertTicket (fun now => mkTicket companyID title description StatusOpen reporterMemberID reporterKcSub
                                 None None None None None None key hash now now))
    (fun r now => mkHdEvent now actor "helpdesk.ticket.create" (ticketSubject r.1)
                    [("companyId", uuidString companyID); ("title", title)]) env db.

(** [GetTicket] *)
Definition GetTicket (companyID ticketID : UUID) : Tx (UUID * Ticket) :=
  read (fun db => match ticketIn db companyID ticketID with Some t => Ok (ticketID, t) | None => Err ErrTicketNotFound end).

Definition later (a b : UUID * Ticket) : Prop := (t_created b.2 <= t_created a.2)%Z.
#[local] Instance later_dec : RelDecision later := fun a b => decide_rel Z.le _ _.

(** [ListTickets]: newest first; rows of the same instant in any order. *)
Definition ListTickets (companyID : UUID) (reporterKcSub status : string) : Tx (list (UUID * Ticket)) :=
  read (fun db => Ok (merge_sort later (filter (fun kv : UUID * Ticket =>
    t_company kv.2 = companyID /\ (reporterKcSub = "" \/ t_reporterKcSub kv.2 = reporterKcSub) /\
    (status = "" \/ t_status kv.2 = status)) (map_to_list (tickets db))))).

Definition assign (member : option (UUID * string)) (position group : option (UUID * string)) (now : Z) (t : Ticket) : Ticket :=
  mkTicket (t_company t) (t_title t) (t_description t) (t_status t) (t_reporter t) (t_reporterKcSub t)
    (fst <$> member) (snd <$> member) (fst <$> position) (snd <$> position) (fst <$> group) (snd <$> group)
    (t_key t) (t_hash t) (t_created t) now.

(** [AssignTicket], [AssignTicketToPosition] and [AssignTicketToGroup] *)
Definition AssignTicket (actor : string) (companyID ticketID assigneeMemberID : UUID) (assigneeKcSub : string) : Tx (UUID * Ticket) :=
  tx (updateTicket companyID ticketID (assign (Some (assigneeMemberID, assigneeKcSub)) None None))
    (fun r now => mkHdEvent now actor "helpdesk.ticket.assign" (ticketSubject r.1)
                    [("assigneeMemberId", uuidString assigneeMemberID)]).

Definition AssignTicketToPosition (actor : string) (companyID ticketID positionID : UUID) (positionTitle : string) : Tx (UUID * Ticket) :=
  tx (updateTicket companyID ticketID (assign None (Some (positionID, positionTitle)) None))
    (fun r now => mkHdEvent now actor "helpdesk.ticket.assign" (ticketSubject r.1)
                    [("assigneePositionId", uuidString positionID); ("positionTitle", positionTitle)]).

Definition AssignTicketToGroup (actor : string) (companyID ticketID groupID : UUID) (groupTitle : string) : Tx (UUID * Ticket) :=
  tx (updateTicket companyID ticketID (assign None None (Some (groupID, groupTitle))))
    (fun r now => mkHdEvent now actor "helpdesk.ticket.assign" (ticketSubject r.1)
                    [("assigneeGroupId", uuidString groupID); ("groupTitle", groupTitle)]).

Definition set_status (status : string) (now : Z) (t : Ticket) : Ticket :=
  mkTicket (t_company t) (t_title t) (t_description t) status (t_reporter t) (t_reporterKcSub t) (t_member t) (t_kcSub t)
    (t_position t) (t_positionTitle t) (t_group t) (t_groupTitle t) (t_key t) (t_hash t) (t_created t) now.

(** [UpdateTicketStatus] *)
Definition UpdateTicketStatus (actor : string) (companyID ticketID : UUID) (fromStatus newStatus : string) : Tx (UUID * Ticket) :=
  tx (updateTicket companyID ticketID (set_status newStatus))
    (fun r now => mkHdEvent now actor "helpdesk.ticket.status" (ticketSubject r.1) [("from", fromStatus); ("to", newStatus)]).

(** [CountOpenAssignedTickets], [CountOpenAssignedTicketsForPosition] and
    [CountOpenAssignedTicketsForGroup] *)
Definition countOpen (companyID : UUID) (assigned : Ticket -> Prop) `{forall t, Decision (assigned t)} : Tx nat :=
  read (fun db => Ok (length (filter (fun kv : UUID * Ticket =>
    t_company kv.2 = companyID /\ assigned kv.2 /\ t_status kv.2 <> StatusClosed) (map_to_list (tickets db))))).
Definition CountOpenAssignedTickets (companyID assigneeMemberID : UUID) : Tx nat :=
  countOpen companyID (fun t => t_member t = Some assigneeMemberID).
Definition CountOpenAssignedTicketsForPosition (companyID positionID : UUID) : Tx nat :=
  countOpen companyID (fun t => t_position t = Some positionID).
Definition CountOpenAssignedTicketsForGroup (companyID groupID : UUID) : Tx nat :=
  countOpen companyID (fun t => t_group t = Some groupID).

(** ** Comments *)

Definition comment_with_key (ticketID : UUID) (authorKcSub key : string) (c : Comment) : Prop :=
  c_ticket c = ticketID /\ c_author c = authorKcSub /\ c_key c = Some key.

(** [FindCommentByIdempotencyKey] *)
Definition FindCommentByIdempotencyKey (ticketID : UUID) (authorKcSub idempotencyKey : string)
    : Tx (option (UUID * Comment * string)) :=
  read (fun db => Ok (r ← find_where (comment_with_key ticketID authorKcSub idempotencyKey) (comments db);
                      Some (r, default "" (c_hash r.2)))).

Definition insertComment (c : Z -> Comment) : Tx (UUID * Comment) := fun env db =>
  let c := c (tx_now env) in
  let id := tx_newID env in
  if bool_decide (is_Some (comments db !! id)) then Err ErrIdempotencyConflict
  else
    match c_key c ≫= (fun key => find_where (comment_with_key (c_ticket c) (c_author c) key) (comments db)) with
    | Some _ => Err ErrIdempotencyConflict
    | None =>
        (* the foreign key *)
        if bool_decide (is_Some (tickets db !! c_ticket c)) then Ok ((id, c), with_comments db (<[id := c]> (comments db)))
        else Err ErrDatabase
    end.

(** [CreateComment] *)
Definition CreateComment (actor : string) (ticketID : UUID) (body idempotencyKey : string) : Tx (UUID * Comment) := fun env db =>
  if (String.length body <? 1)%nat || (10000 <? N.of_nat (String.length body))%N then Err (ValidationError "body")
  else
    let key := if seqb idempotencyKey "" then None else Some idempotencyKey in
    let hash := if seqb idempotencyKey "" then None else Some (commentIdempotencyPayloadHash ticketID actor body) in
    tx (insertComment (fun now => mkComment ticketID actor body key hash now))
      (fun r now => mkHdEvent now actor "helpdesk.comment.create" (ticketSubject ticketID) [("commentId", uuidString r.1)]) env db.

Definition earlier (a b : UUID * Comment) : Prop := (c_created a.2 <= c_created b.2)%Z.
#[local] Instance earlier_dec : RelDecision earlier := fun a b => decide_rel Z.le _ _.

(** [ListComments] *)
Definition ListComments (ticketID : UUID) : Tx (list (UUID * Comment)) :=
  read (fun db => Ok (merge_sort earlier (filter (fun kv : UUID * Comment => c_ticket kv.2 = ticketID) (map_to_list (comments db))))).

(** ** Agents *)

(** INSERT INTO helpdesk.agent ... ON CONFLICT on the binding's unique index DO UPDATE *)
Definition upsertAgent (same : Agent -> Prop) `{forall a, Decision (same a)} (new : Z -> Agent) (keep : Agent -> Agent)
    : Tx (UUID * Agent) := fun env db =>
  match find_where same (agents db) with
  | Some (id, a) => Ok ((id, keep a), with_agents db (<[id := keep a]> (agents db)))
  | None =>
      let a := new (tx_now env) in
      let id := tx_newID env in
      if bool_decide (is_Some (agents db !! id)) || negb (agent_check a) then Err ErrDatabase
      else Ok ((id, a), with_agents db (<[id := a]> (agents db)))
  end.

(** DELETE FROM helpdesk.agent WHERE ...; the rows affected must not be none. *)
Definition deleteAgents (same : Agent -> Prop) `{forall a, Decision (same a)} : Tx unit := fun _ db =>
  match find_where same (agents db) with
  | None => Err ErrAgentNotFound
  | Some _ => Ok (tt, with_agents db (filter (fun kv => ~ same kv.2) (agents db)))
  end.

Definition for_member (companyID memberID : UUID) (a : Agent) : Prop := a_company a = companyID /\ a_member a = Some memberID.
Definition for_position (companyID positionID : UUID) (a : Agent) : Prop := a_company a = companyID /\ a_position a = Some positionID.
Definition for_group (companyID groupID : UUID) (a : Agent) : Prop := a_company a = companyID /\ a_group a = Some groupID.

Definition agentEvent (actor action : string) (companyID : UUID) (field : string) (id : UUID) (now : Z) : HdEvent :=
  mkHdEvent now actor action (moduleSubject companyID) [(field, uuidString id)].

(** [RecordAgent] and [RemoveAgent] *)
Definition RecordAgent (actor : string) (companyID memberID : UUID) (kcSub grantedByKcSub : string) : Tx (UUID * Agent) :=
  tx (upsertAgent (for_member companyID memberID)
        (fun now => mkAgent companyID (Some memberID) (Some kcSub) None None None None grantedByKcSub now)
        (fun a => mkAgent (a_company a) (a_member a) (Some kcSub) (a_position a) (a_positionTitle a) (a_group a) (a_groupTitle a)
                    (a_grantedBy a) (a_created a)))
    (fun _ now => agentEvent actor "helpdesk.agent.grant" companyID "memberId" memberID now).
Definition RemoveAgent (actor : string) (companyID memberID : UUID) : Tx unit :=
  tx (deleteAgents (for_member companyID memberID))
    (fun _ now => agentEvent actor "helpdesk.agent.revoke" companyID "memberId" memberID now).

(** [RecordAgentForPosition] and [RemoveAgentForPosition] *)
Definition RecordAgentForPosition (actor : string) (companyID positionID : UUID) (positionTitle grantedByKcSub : string)
    : Tx (UUID * Agent) :=
  tx (upsertAgent (for_position companyID positionID)
        (fun now => mkAgent companyID None None (Some positionID) (Some positionTitle) None None grantedByKcSub now)
        (fun a => mkAgent (a_company a) (a_member a) (a_kcSub a) (a_position a) (Some positionTitle) (a_group a) (a_groupTitle a)
                    (a_grantedBy a) (a_created a)))
    (fun _ now => agentEvent actor "helpdesk.agent.grant" companyID "positionId" positionID now).
Definition RemoveAgentForPosition (actor : string) (companyID positionID : UUID) : Tx unit :=
  tx (deleteAgents (for_position companyID positionID))
    (fun _ now => agentEvent actor "helpdesk.agent.revoke" companyID "positionId" positionID now).

(** [RecordAgentForGroup] and [RemoveAgentForGroup] *)
Definition RecordAgentForGroup (actor : string) (companyID groupID : UUID) (groupTitle grantedByKcSub : string) : Tx (UUID * Agent) :=
  tx (upsertAgent (for_group companyID groupID)
        (fun now => mkAgent companyID None None None None (Some groupID) (Some groupTitle) grantedByKcSub now)
        (fun a => mkAgent (a_company a) (a_member a) (a_kcSub a) (a_position a) (a_positionTitle a) (a_group a) (Some groupTitle)
                    (a_grantedBy a) (a_created a)))
    (fun _ now => agentEvent actor "helpdesk.agent.grant" companyID "groupId" groupID now).
Definition RemoveAgentForGroup (actor : string) (companyID groupID : UUID) : Tx unit :=
  tx (deleteAgents (for_group companyID groupID))
    (fun _ now => agentEvent actor "helpdesk.agent.revoke" companyID "groupId" groupID now).

Definition granted_before (a b : UUID * Agent) : Prop := (a_created a.2 <= a_created b.2)%Z.
#[local] Instance granted_before_dec : RelDecision granted_before := fun a b => decide_rel Z.le _ _.

(** [ListAgents] *)
Definition ListAgents (companyID : UUID) : Tx (list (UUID * Agent)) :=
  read (fun db => Ok (merge_sort granted_before (filter (fun kv : UUID * Agent => a_company kv.2 = companyID) (map_to_list (agents db))))).

Definition getAgentWhere (same : Agent -> Prop) `{forall a, Decision (same a)} : Tx (UUID * Agent) :=
  read (fun db => match find_where same (agents db) with Some r => Ok r | None => Err ErrAgentNotFound end).

(** [GetAgent], [GetAgentForPosition] and [GetAgentForGroup] *)
Definition GetAgent (companyID memberID : UUID) : Tx (UUID * Agent) := getAgentWhere (for_member companyID memberID).
Definition GetAgentForPosition (companyID positionID : UUID) : Tx (UUID * Agent) := getAgentWhere (for_position companyID positionID).
Definition GetAgentForGroup (companyID groupID : UUID) : Tx (UUID * Agent) := getAgentWhere (for_group companyID groupID).

(** ** Audit *)

Definition occurred_before (a b : HdEvent) : Prop := (ev_at a <= ev_at b)%Z.
#[local] Instance occurred_before_dec : RelDecision occurred_before := fun a b => decide_rel Z.le _ _.

(** [TicketAudit] *)
Definition TicketAudit (ticketID : UUID) : Tx (list HdEvent) :=
  read (fun db => Ok (take 200 (merge_sort occurred_before (filter (fun e => ev_subject e = ticketSubject ticketID) (hdAudit db))))).
End store.
