(* ===== verification/HelpdeskHTTP.v ===== *)
(** * The helpdesk service

    modules/helpdesk/service/http.go, authzclient.go and notificationclient.go: every
    route as a program over the store, the authorization service, org and
    notification.  UUID and JWT parsing are third-party packages. *)

From stdpp Require Import base gmap strings list pretty.
From S2P Require Import Prelude GoStrings Tuple Decision Clients AuthzHTTP AdminClient OrgTree Org ModuleKit Helpdesk.

(** ** Replies *)

(** A ticket on the wire: its columns (the two subjects are not among them) and what
    [buildTicketWire] adds. *)
Record ticketWire := mkTicketWire {
  tw_id : UUID; tw_ticket : Ticket; tw_myTier : string; tw_isReporter : bool; tw_isAssignee : bool;
  tw_assigneeDisplayName : option string
}.
Record assignablePositionWire := mkAssignablePosition {
  ap_positionId : UUID; ap_title : string; ap_holderMemberId : option string; ap_holderDisplayName : option string }.
Record assignableGroupWire := mkAssignableGroup { ag_groupId : UUID; ag_title : string; ag_memberCount : nat }.

Inductive hdBody : Type :=
| BTier (tier : string)
| BTickets (l : list ticketWire)
| BEvents (l : list HdEvent)
| BComments (l : list (UUID * Comment))
| BAgents (l : list (UUID * Agent))
| BPositions (l : list assignablePositionWire)
| BGroups (l : list assignableGroupWire).

Inductive hdReply : Type :=
| WriteData (status : Z) (body : hdBody)
| WriteError (status : Z) (code : string)
| NoContent.

(** [writeStoreError] *)
Definition writeStoreError (err : hd_error) : hdReply :=
  match err with
  | ValidationError _ => WriteError 400 "VALIDATION_ERROR"
  | ErrTicketNotFound | ErrAgentNotFound => WriteError 404 "NOT_FOUND"
  | ErrIdempotencyConflict => WriteError 409 "IDEMPOTENCY_CONFLICT"
  | ErrDatabase => WriteError 500 "INTERNAL_ERROR"
  end.

Definition badRequest : hdReply := WriteError 400 "BAD_REQUEST".
Definition denied : hdReply := WriteError 403 "AUTHORIZATION_DENIED".
Definition unavailable : hdReply := WriteError 503 "AUTHORIZATION_UNAVAILABLE".
Definition invalid : hdReply := WriteError 422 "VALIDATION_FAILED".
Definition internal : hdReply := WriteError 500 "INTERNAL_ERROR".

(** ** Requests *)

Record createTicketRequest := mkCreateTicket { ct_title : string; ct_description : string }.
Record assignTicketRequest := mkAssign { at_member : string; at_position : string; at_group : string }.
Record makeAgentRequest := mkMakeAgent { ma_member : string; ma_position : string; ma_group : string }.

(** The routes; path values are text, a body that does not decode is [None], and
    [idempotencyKey] is the header. *)
Inductive hdRequest : Type :=
| ReqMyTier
| ReqListTickets (view status : string)
| ReqCreateTicket (body : option createTicketRequest) (idempotencyKey : string)
| ReqGetTicket (ticketId : string)
| ReqGetTicketAudit (ticketId : string)
| ReqAssignTicket (ticketId : string) (body : option assignTicketRequest)
| ReqTransitionStatus (ticketId : string) (body : option string)
| ReqListComments (ticketId : string)
| ReqCreateComment (ticketId : string) (body : option string) (idempotencyKey : string)
| ReqAssignablePositions
| ReqAssignableGroups
| ReqListAgents
| ReqMakeAgent (body : option makeAgentRequest)
| ReqRemoveAgentForPosition (positionId : string)
| ReqRemoveAgentForGroup (groupId : string)
| ReqRemoveAgent (memberId : string).

Record requestContext := mkContext { rc_Subject : string; rc_RawBearer : string; rc_CompanyID : UUID; rc_TicketID : UUID }.

Definition featureHelpdeskManage : string := "helpdesk.manage".
Definition featureTicketsWork : string := "helpdesk.tickets.work".
Definition featureTicketsCreate : string := "helpdesk.tickets.create".

(** [relationLeg]; the object type is company_module whenever there is a relation. *)
Definition relationLeg (featureKey : string) : string :=
  if seqb featureKey featureHelpdeskManage then "admin" else if seqb featureKey featureTicketsWork then "editor" else "".

(** [canSeeTicket] *)
Definition canSeeTicket (tier : string) (t : Ticket) (subject : string) (isAssigneeViaEngine : bool) : bool :=
  seqb tier "agent" || seqb tier "admin" || seqb (t_reporterKcSub t) subject || isAssigneeViaEngine.

(** [exactlyOne] *)
Definition exactlyOne (vals : list string) : bool := (length (filter (fun v => v <> "") vals) =? 1)%nat.

(** [validEdges] *)
Definition validEdges (from to : string) : bool :=
  bool_decide ((from, to) ∈ [(StatusOpen, StatusInProgress); (StatusInProgress, StatusResolved);
                             (StatusResolved, StatusClosed); (StatusResolved, StatusOpen)]).

(** [canTransition] *)
Definition canTransition (t : Ticket) (subject tier from to : string) (isAssigneeViaEngine : bool) : bool :=
  if seqb tier "admin" then true
  else
    let isAssignee := bool_decide (t_kcSub t = Some subject) || isAssigneeViaEngine in
    let isReporter := seqb (t_reporterKcSub t) subject in
    if bool_decide ((from, to) ∈ [(StatusOpen, StatusInProgress); (StatusInProgress, StatusResolved)]) then isAssignee
    else if bool_decide ((from, to) ∈ [(StatusResolved, StatusClosed); (StatusResolved, StatusOpen)]) then isReporter
    else false.

Section service.
Context `{UT : UUIDText} (verify : string -> option Claims) (parseUUID : string -> option UUID).
Context (ticketHash : UUID -> string -> string -> string -> string) (commentHash : UUID -> string -> string -> string).

Abbreviation P A := (prog HdDB hd_error A).
Abbreviation Step A := (P (result hdReply A)).

(** A store call whose error is written with [writeStoreError]. *)
Definition storeCall {A} (m : TxEnv -> HdDB -> result hd_error (A * HdDB)) : Step A :=
  let& r := Transact m in
  Ret (match r with Ok a => Ok a | Err e => Err (writeStoreError e) end).

Definition orBadRequest {A} (o : option A) : Step A := Ret (match o with Some a => Ok a | None => Err badRequest end).

(** ** The clients *)

Definition Can (rc : requestContext) (featureKey : string) : P (option bool) :=
  let& r := DoCan (rc_RawBearer rc) (canRequest "helpdesk" featureKey (uuidString (rc_CompanyID rc)) (relationLeg featureKey)) in
  Ret (fst <$> r).

(** The requests of [IsPositionHolder] and [IsGroupMember]. *)
Definition holderRequest (companyID positionID : string) : CanRequest :=
  mkCanRequest featureTicketsWork "helpdesk" "company" companyID (mkRef "position" positionID) "holder".
Definition groupRequest (companyID groupID : string) : CanRequest :=
  mkCanRequest featureTicketsWork "helpdesk" "company" companyID (mkRef "group" groupID) "member".

Definition IsPositionHolder (rc : requestContext) (positionID : UUID) : P (option bool) :=
  let& r := DoCan (rc_RawBearer rc) (holderRequest (uuidString (rc_CompanyID rc)) (uuidString positionID)) in Ret (fst <$> r).
Definition IsGroupMember (rc : requestContext) (groupID : UUID) : P (option bool) :=
  let& r := DoCan (rc_RawBearer rc) (groupRequest (uuidString (rc_CompanyID rc)) (uuidString groupID)) in Ret (fst <$> r).

(** The tuples of [grantOrRevoke], [grantOrRevokePosition] and [grantOrRevokeGroup],
    with the relation editor. *)
Definition agentTuple (companyID kcSub : string) : Tuple :=
  mkTuple "company_module" (companyModuleObjectID companyID) "editor" "user" kcSub "".
Definition positionAgentTuple (companyID positionID : string) : Tuple :=
  mkTuple "company_module" (companyModuleObjectID companyID) "editor" "position" positionID "holder".
Definition groupAgentTuple (companyID groupID : string) : Tuple :=
  mkTuple "company_module" (companyModuleObjectID companyID) "editor" "group" groupID "member".

Definition grantOrRevokeTuple (rc : requestContext) (op : string) (t : Tuple) (correlationID : string) : P bool :=
  let& ok := GrantOrRevoke (rc_RawBearer rc) (uuidString (rc_CompanyID rc)) op [t] correlationID in Ret ok.

(** [SendEvent] of helpdesk's client: nobody to notify is no call. *)
Definition notify (rc : requestContext) (recipient subjectLine body : string) : P unit :=
  if seqb recipient "" then Ret tt
  else let& _ := SendEvent (rc_RawBearer rc) (uuidString (rc_CompanyID rc)) recipient subjectLine body in Ret tt.

(** ** Gates *)

(** [withAuth] *)
Definition withAuth (header companyId : string) (ticketId : option string) (featureKey : string)
    (next : requestContext -> P hdReply) : P hdReply :=
  match Verify verify (BearerFromHeader header) with
  | None => Ret (WriteError 401 "AUTH_TOKEN_INVALID")
  | Some subject =>
      match parseUUID companyId with
      | None => Ret badRequest
      | Some companyID =>
          run& allowed := Can (mkContext subject header companyID 0) featureKey in
          match allowed with
          | None => Ret unavailable
          | Some false => Ret denied
          | Some true =>
              match ticketId with
              | None => next (mkContext subject header companyID 0)
              | Some s => match parseUUID s with
                          | None => Ret badRequest
                          | Some id => next (mkContext subject header companyID id)
                          end
              end
          end
      end
  end.

(** [tier] *)
Definition tier (rc : requestContext) : P (option string) :=
  run& manage := Can rc featureHelpdeskManage in
  match manage with
  | None => Ret None
  | Some true => Ret (Some "admin")
  | Some false =>
      run& work := Can rc featureTicketsWork in
      match work with
      | None => Ret None
      | Some true => Ret (Some "agent")
      | Some false => Ret (Some "member")
      end
  end.

(** [isAssigneeForTicket] *)
Definition isAssigneeForTicket (rc : requestContext) (t : Ticket) : P (option bool) :=
  match t_position t, t_group t with
  | Some positionID, _ => IsPositionHolder rc positionID
  | None, Some groupID => IsGroupMember rc groupID
  | None, None => Ret (Some false)
  end.

(** [loadVisibleTicket]: the ticket, the caller's tier and whether the engine has it as
    an assignee. *)
Definition loadVisibleTicket (rc : requestContext) : Step (UUID * Ticket * string * bool) :=
  run& r := storeCall (GetTicket (rc_CompanyID rc) (rc_TicketID rc)) in
  match r with
  | Err e => Ret (Err e)
  | Ok (id, t) =>
      run& myTier := tier rc in
      match myTier with
      | None => Ret (Err unavailable)
      | Some myTier =>
          run& isAssignee := isAssigneeForTicket rc t in
          match isAssignee with
          | None => Ret (Err unavailable)
          | Some isAssignee =>
              if canSeeTicket myTier t (rc_Subject rc) isAssignee then Ret (Ok (id, t, myTier, isAssignee)) else Ret (Err denied)
          end
      end
  end.

(** [buildTicketWire]; [None] is an error of the authorization service. *)
Definition buildTicketWire (rc : requestContext) (r : UUID * Ticket) (myTier : string) : P (option ticketWire) :=
  let '(id, t) := r in
  let wire := mkTicketWire id t myTier (seqb (t_reporterKcSub t) (rc_Subject rc)) in
  if seqb (AssigneeKind t) BindingKindMember then
    let& member := GetMember (default "" (uuidString <$> t_member t)) in
    Ret (Some (wire (bool_decide (t_kcSub t = Some (rc_Subject rc))) (om_display <$> member)))
  else if seqb (AssigneeKind t) BindingKindPosition then
    let title := default "" (t_positionTitle t) in
    run& isHolder := IsPositionHolder rc (default 0%N (t_position t)) in
    match isHolder with
    | None => Ret None
    | Some isHolder =>
        let& holderMemberID := GetPositionHolder (default "" (uuidString <$> t_position t)) in
        match mjoin holderMemberID with
        | None => Ret (Some (wire isHolder (Some title)))
        | Some m =>
            let& holder := GetMember m in
            Ret (Some (wire isHolder (Some (match holder with Some h => title +:+ " — held by " +:+ om_display h | None => title end))))
        end
    end
  else if seqb (AssigneeKind t) BindingKindGroup then
    let title := default "" (t_groupTitle t) in
    run& isMember := IsGroupMember rc (default 0%N (t_group t)) in
    match isMember with
    | None => Ret None
    | Some isMember =>
        let& members := ListGroupMembers (default "" (uuidString <$> t_group t)) in
        Ret (Some (wire isMember (Some (match members with
                                        | Some l => title +:+ " (" +:+ pretty (length l) +:+ " member(s))"
                                        | None => title
                                        end))))
    end
  else Ret (Some (wire false None)).

Definition replyTicket (rc : requestContext) (status : Z) (r : UUID * Ticket) (myTier : string) : P hdReply :=
  run& wire := buildTicketWire rc r myTier in
  Ret (match wire with Some w => WriteData status (BTickets [w]) | None => unavailable end).

(** ** Tickets *)

Definition handleMyTier (rc : requestContext) : P hdReply :=
  run& t := tier rc in
  Ret (match t with Some t => WriteData 200 (BTier t) | None => unavailable end).

Definition handleCreateTicket (body : option createTicketRequest) (idempotencyKey : string) (rc : requestContext) : P hdReply :=
  let? req := orBadRequest body in
  let& who := MemberByKcSub (uuidString (rc_CompanyID rc)) (rc_Subject rc) in
  match who with
  | Some (memberID, true, _) =>
      if seqb memberID "" then Ret denied
      else
        match parseUUID memberID with
        | None => Ret internal
        | Some reporterMemberID =>
            if (200 <? String.length idempotencyKey)%nat then Ret badRequest
            else
              let create :=
                let? t := storeCall (CreateTicket ticketHash (rc_Subject rc) (rc_CompanyID rc) reporterMemberID (rc_Subject rc)
                                       (ct_title req) (ct_description req) idempotencyKey) in
                replyTicket rc 201 t "member" in
              if seqb idempotencyKey "" then create
              else
                let& found := Transact (FindTicketByIdempotencyKey (rc_CompanyID rc) (rc_Subject rc) idempotencyKey) in
                match found with
                | Err _ => Ret internal
                | Ok (Some (existing, existingHash)) =>
                    if negb (seqb existingHash (ticketHash (rc_CompanyID rc) (rc_Subject rc) (ct_title req) (ct_description req)))
                    then Ret (WriteError 409 "IDEMPOTENCY_CONFLICT")
                    else replyTicket rc 200 existing "member"
                | Ok None => create
                end
        end
  | _ => Ret denied
  end.

Fixpoint ticketWires (rc : requestContext) (myTier : string) (l : list (UUID * Ticket)) : P (option (list ticketWire)) :=
  match l with
  | [] => Ret (Some [])
  | t :: l' =>
      run& w := buildTicketWire rc t myTier in
      match w with
      | None => Ret None
      | Some w => run& ws := ticketWires rc myTier l' in Ret (cons w <$> ws)
      end
  end.

Definition handleListTickets (view status : string) (rc : requestContext) : P hdReply :=
  let view := if seqb view "" then "mine" else view in
  run& myTier := tier rc in
  match myTier with
  | None => Ret unavailable
  | Some myTier =>
      let list (reporterFilter : string) : P hdReply :=
        let? tickets := storeCall (ListTickets (rc_CompanyID rc) reporterFilter status) in
        run& wires := ticketWires rc myTier tickets in
        Ret (match wires with Some ws => WriteData 200 (BTickets ws) | None => unavailable end) in
      if seqb view "mine" then list (rc_Subject rc)
      else if seqb view "all" then if seqb myTier "member" then Ret denied else list ""
      else Ret badRequest
  end.

Definition handleGetTicket (rc : requestContext) : P hdReply :=
  let? r := loadVisibleTicket rc in
  let '(id, t, myTier, _) := r in replyTicket rc 200 (id, t) myTier.

Definition handleGetTicketAudit (rc : requestContext) : P hdReply :=
  let? _ := loadVisibleTicket rc in
  let? events := storeCall (TicketAudit (rc_TicketID rc)) in
  Ret (WriteData 200 (BEvents events)).

(** [assignTicketToMember] *)
Definition assignTicketToMember (rawMemberID : string) (rc : requestContext) : P hdReply :=
  let? assigneeMemberID := orBadRequest (parseUUID rawMemberID) in
  let& member := GetMember (uuidString assigneeMemberID) in
  let kcSub := default "" (om_kcsub <$> member) in
  if seqb kcSub "" then Ret invalid
  else
    let correlationID := uuidString (rc_TicketID rc) +:+ ":" +:+ uuidString assigneeMemberID in
    let assignIt :=
      let? t := storeCall (AssignTicket (rc_Subject rc) (rc_CompanyID rc) (rc_TicketID rc) assigneeMemberID kcSub) in
      run& _ := notify rc kcSub ("Ticket assigned: " +:+ t_title t.2) ("Ticket '" +:+ t_title t.2 +:+ "' was assigned to you.") in
      replyTicket rc 200 t "admin" in
    let& agent := Transact (GetAgent (rc_CompanyID rc) assigneeMemberID) in
    match agent with
    | Ok _ => assignIt
    | Err ErrAgentNotFound =>
        run& ok := grantOrRevokeTuple rc "grant" (agentTuple (uuidString (rc_CompanyID rc)) kcSub) (correlationID +:+ ":auto-agent-grant") in
        if negb ok then Ret unavailable
        else
          let? _ := storeCall (RecordAgent (rc_Subject rc) (rc_CompanyID rc) assigneeMemberID kcSub (rc_Subject rc)) in
          assignIt
    | Err e => Ret (writeStoreError e)
    end.

(** The binding that assigning to a position or a group needs. *)
Definition boundAgent (m : TxEnv -> HdDB -> result hd_error (UUID * Agent * HdDB)) : Step unit :=
  let& r := Transact m in
  Ret (match r with
       | Ok _ => Ok tt
       | Err ErrAgentNotFound => Err invalid
       | Err e => Err (writeStoreError e)
       end).

(** [assignTicketToPosition] *)
Definition assignTicketToPosition (rawPositionID : string) (rc : requestContext) : P hdReply :=
  let? positionID := orBadRequest (parseUUID rawPositionID) in
  let& position := GetPosition (uuidString positionID) in
  match position with
  | None => Ret invalid
  | Some position =>
      if negb (seqb (op_company position) (uuidString (rc_CompanyID rc))) then Ret invalid
      else
        let? _ := boundAgent (GetAgentForPosition (rc_CompanyID rc) positionID) in
        let? t := storeCall (AssignTicketToPosition (rc_Subject rc) (rc_CompanyID rc) (rc_TicketID rc) positionID (op_title position)) in
        let& holderMemberID := GetPositionHolder (uuidString positionID) in
        run& _ :=
          match mjoin holderMemberID with
          | None => Ret tt
          | Some m =>
              let& holder := GetMember m in
              match holder with
              | None => Ret tt
              | Some h => notify rc (om_kcsub h) ("Ticket assigned: " +:+ t_title t.2)
                            ("Ticket '" +:+ t_title t.2 +:+ "' was assigned to " +:+ op_title position +:+ ", which you hold.")
              end
          end in
        replyTicket rc 200 t "admin"
  end.

(** [notifyGroupMembers] *)
Fixpoint notifyMembers (rc : requestContext) (message subject : string) (members : list string) : P unit :=
  match members with
  | [] => Ret tt
  | m :: rest =>
      let& member := GetMember m in
      run& _ := match member with None => Ret tt | Some x => notify rc (om_kcsub x) subject message end in
      notifyMembers rc message subject rest
  end.
Definition notifyGroupMembers (rc : requestContext) (groupID message subject : string) : P unit :=
  let& members := ListGroupMembers groupID in
  match members with None => Ret tt | Some l => notifyMembers rc message subject l end.

(** [assignTicketToGroup] *)
Definition assignTicketToGroup (rawGroupID : string) (rc : requestContext) : P hdReply :=
  let? groupID := orBadRequest (parseUUID rawGroupID) in
  let& group := GetGroup (uuidString groupID) in
  match group with
  | None => Ret invalid
  | Some group =>
      if negb (seqb (og_company group) (uuidString (rc_CompanyID rc))) then Ret invalid
      else
        let? _ := boundAgent (GetAgentForGroup (rc_CompanyID rc) groupID) in
        let? t := storeCall (AssignTicketToGroup (rc_Subject rc) (rc_CompanyID rc) (rc_TicketID rc) groupID (og_name group)) in
        run& _ := notifyGroupMembers rc (uuidString groupID)
                    ("Ticket '" +:+ t_title t.2 +:+ "' was assigned to " +:+ og_name group +:+ ", which you're a member of.")
                    ("Ticket assigned: " +:+ t_title t.2) in
        replyTicket rc 200 t "admin"
  end.

Definition handleAssignTicket (body : option assignTicketRequest) (rc : requestContext) : P hdReply :=
  let? req := orBadRequest body in
  if negb (exactlyOne [at_member req; at_position req; at_group req]) then Ret invalid
  else
    let? _ := storeCall (GetTicket (rc_CompanyID rc) (rc_TicketID rc)) in
    if negb (seqb (at_member req) "") then assignTicketToMember (at_member req) rc
    else if negb (seqb (at_position req) "") then assignTicketToPosition (at_position req) rc
    else assignTicketToGroup (at_group req) rc.

Definition handleTransitionStatus (body : option string) (rc : requestContext) : P hdReply :=
  let? status := orBadRequest body in
  let? r := loadVisibleTicket rc in
  let '(id, t, myTier, isAssignee) := r in
  if negb (validEdges (t_status t) status) then Ret invalid
  else if negb (canTransition t (rc_Subject rc) myTier (t_status t) status isAssignee) then Ret denied
  else
    let? updated := storeCall (UpdateTicketStatus (rc_Subject rc) (rc_CompanyID rc) (rc_TicketID rc) (t_status t) status) in
    run& _ :=
      if negb (seqb (t_reporterKcSub updated.2) (rc_Subject rc))
      then notify rc (t_reporterKcSub updated.2) ("Ticket status changed: " +:+ t_title updated.2)
             ("Ticket '" +:+ t_title updated.2 +:+ "' changed status: " +:+ t_status t +:+ " -> " +:+ status +:+ ".")
      else Ret tt in
    replyTicket rc 200 updated myTier.

(** ** Comments *)

Definition handleListComments (rc : requestContext) : P hdReply :=
  let? _ := loadVisibleTicket rc in
  let? comments := storeCall (ListComments (rc_TicketID rc)) in
  Ret (WriteData 200 (BComments comments)).

(** The notifications of [handleCreateComment]. *)
Definition notifyComment (rc : requestContext) (t : Ticket) : P unit :=
  let subject := "New comment: " +:+ t_title t in
  if seqb (rc_Subject rc) (t_reporterKcSub t) then
    let message := "The reporter commented on ticket '" +:+ t_title t +:+ "'." in
    if seqb (AssigneeKind t) BindingKindMember then notify rc (default "" (t_kcSub t)) subject message
    else if seqb (AssigneeKind t) BindingKindPosition then
      let& holderMemberID := GetPositionHolder (default "" (uuidString <$> t_position t)) in
      match mjoin holderMemberID with
      | None => Ret tt
      | Some m => let& holder := GetMember m in
                  match holder with None => Ret tt | Some h => notify rc (om_kcsub h) subject message end
      end
    else if seqb (AssigneeKind t) BindingKindGroup then
      notifyGroupMembers rc (default "" (uuidString <$> t_group t)) message subject
    else Ret tt
  else notify rc (t_reporterKcSub t) subject ("A new comment was added to your ticket '" +:+ t_title t +:+ "'.").

Definition handleCreateComment (body : option string) (idempotencyKey : string) (rc : requestContext) : P hdReply :=
  let? text := orBadRequest body in
  let? r := loadVisibleTicket rc in
  let '(_, t, _, _) := r in
  if (200 <? String.length idempotencyKey)%nat then Ret badRequest
  else
    let create :=
      let? c := storeCall (CreateComment commentHash (rc_Subject rc) (rc_TicketID rc) text idempotencyKey) in
      run& _ := notifyComment rc t in
      Ret (WriteData 201 (BComments [c])) in
    if seqb idempotencyKey "" then create
    else
      let& found := Transact (FindCommentByIdempotencyKey (rc_TicketID rc) (rc_Subject rc) idempotencyKey) in
      match found with
      | Err _ => Ret internal
      | Ok (Some (existing, existingHash)) =>
          if negb (seqb existingHash (commentHash (rc_TicketID rc) (rc_Subject rc) text)) then Ret (WriteError 409 "IDEMPOTENCY_CONFLICT")
          else Ret (WriteData 200 (BComments [existing]))
      | Ok None => create
      end.

(** ** Agents *)

Fixpoint assignablePositions (l : list (UUID * Agent)) : P (list assignablePositionWire) :=
  match l with
  | [] => Ret []
  | (_, a) :: rest =>
      if negb (seqb (BindingKind a) BindingKindPosition) then assignablePositions rest
      else
        let id := default 0%N (a_position a) in
        let row := mkAssignablePosition id (default "" (a_positionTitle a)) in
        let& holder := GetPositionHolder (uuidString id) in
        run& w := match mjoin holder with
                  | None => Ret (row None None)
                  | Some m => let& member := GetMember m in Ret (row (Some m) (om_display <$> member))
                  end in
        run& ws := assignablePositions rest in Ret (w :: ws)
  end.

Definition handleAssignablePositions (rc : requestContext) : P hdReply :=
  let? agents := storeCall (ListAgents (rc_CompanyID rc)) in
  run& ws := assignablePositions agents in Ret (WriteData 200 (BPositions ws)).

Fixpoint assignableGroups (l : list (UUID * Agent)) : P (list assignableGroupWire) :=
  match l with
  | [] => Ret []
  | (_, a) :: rest =>
      if negb (seqb (BindingKind a) BindingKindGroup) then assignableGroups rest
      else
        let id := default 0%N (a_group a) in
        let& members := ListGroupMembers (uuidString id) in
        run& ws := assignableGroups rest in
        Ret (mkAssignableGroup id (default "" (a_groupTitle a)) (length (default [] members)) :: ws)
  end.

Definition handleAssignableGroups (rc : requestContext) : P hdReply :=
  let? agents := storeCall (ListAgents (rc_CompanyID rc)) in
  run& ws := assignableGroups agents in Ret (WriteData 200 (BGroups ws)).

Definition handleListAgents (rc : requestContext) : P hdReply :=
  let? agents := storeCall (ListAgents (rc_CompanyID rc)) in
  Ret (WriteData 200 (BAgents agents)).

Definition handleMakeMemberAgent (rawMemberID : string) (rc : requestContext) : P hdReply :=
  let? memberID := orBadRequest (parseUUID rawMemberID) in
  let& member := GetMember (uuidString memberID) in
  let kcSub := default "" (om_kcsub <$> member) in
  if seqb kcSub "" then Ret invalid
  else
    run& ok := grantOrRevokeTuple rc "grant" (agentTuple (uuidString (rc_CompanyID rc)) kcSub)
                 (uuidString (rc_CompanyID rc) +:+ ":" +:+ uuidString memberID +:+ ":make-agent") in
    if negb ok then Ret unavailable
    else
      let? a := storeCall (RecordAgent (rc_Subject rc) (rc_CompanyID rc) memberID kcSub (rc_Subject rc)) in
      Ret (WriteData 201 (BAgents [a])).

(** The second half of [handleMakePositionAgent] and [handleMakeGroupAgent]: the index
    row is there; grant, and delete the row if that fails. *)
Definition grantOrRemove (rc : requestContext) (t : Tuple) (correlationID : string)
    (remove : TxEnv -> HdDB -> result hd_error (unit * HdDB)) (a : UUID * Agent) : P hdReply :=
  run& ok := grantOrRevokeTuple rc "grant" t correlationID in
  if (ok : bool) then Ret (WriteData 201 (BAgents [a]))
  else let& _ := Transact remove in Ret unavailable.

Definition handleMakePositionAgent (rawPositionID : string) (rc : requestContext) : P hdReply :=
  let? positionID := orBadRequest (parseUUID rawPositionID) in
  let& position := GetPosition (uuidString positionID) in
  match position with
  | None => Ret invalid
  | Some position =>
      if negb (seqb (op_company position) (uuidString (rc_CompanyID rc))) then Ret invalid
      else
        let? a := storeCall (RecordAgentForPosition (rc_Subject rc) (rc_CompanyID rc) positionID (op_title position) (rc_Subject rc)) in
        grantOrRemove rc (positionAgentTuple (uuidString (rc_CompanyID rc)) (uuidString positionID))
          (uuidString (rc_CompanyID rc) +:+ ":" +:+ uuidString positionID +:+ ":make-position-agent")
          (RemoveAgentForPosition (rc_Subject rc) (rc_CompanyID rc) positionID) a
  end.

Definition handleMakeGroupAgent (rawGroupID : string) (rc : requestContext) : P hdReply :=
  let? groupID := orBadRequest (parseUUID rawGroupID) in
  let& group := GetGroup (uuidString groupID) in
  match group with
  | None => Ret invalid
  | Some group =>
      if negb (seqb (og_company group) (uuidString (rc_CompanyID rc))) then Ret invalid
      else
        let? a := storeCall (RecordAgentForGroup (rc_Subject rc) (rc_CompanyID rc) groupID (og_name group) (rc_Subject rc)) in
        grantOrRemove rc (groupAgentTuple (uuidString (rc_CompanyID rc)) (uuidString groupID))
          (uuidString (rc_CompanyID rc) +:+ ":" +:+ uuidString groupID +:+ ":make-group-agent")
          (RemoveAgentForGroup (rc_Subject rc) (rc_CompanyID rc) groupID) a
  end.

Definition handleMakeAgent (body : option makeAgentRequest) (rc : requestContext) : P hdReply :=
  let? req := orBadRequest body in
  if negb (exactlyOne [ma_member req; ma_position req; ma_group req]) then Ret invalid
  else if negb (seqb (ma_member req) "") then handleMakeMemberAgent (ma_member req) rc
  else if negb (seqb (ma_position req) "") then handleMakePositionAgent (ma_position req) rc
  else handleMakeGroupAgent (ma_group req) rc.

Definition handleRemoveAgent (memberId : string) (rc : requestContext) : P hdReply :=
  let? memberID := orBadRequest (parseUUID memberId) in
  let& member := GetMember (uuidString memberID) in
  match member with
  | None => Ret (WriteError 404 "NOT_FOUND")
  | Some member =>
      let? openCount := storeCall (CountOpenAssignedTickets (rc_CompanyID rc) memberID) in
      if (0 <? openCount)%nat then Ret invalid
      else
        run& ok :=
          if negb (seqb (om_kcsub member) "")
          then grantOrRevokeTuple rc "revoke" (agentTuple (uuidString (rc_CompanyID rc)) (om_kcsub member))
                 (uuidString (rc_CompanyID rc) +:+ ":" +:+ uuidString memberID +:+ ":remove-agent")
          else Ret true in
        if negb ok then Ret unavailable
        else
          let? _ := storeCall (RemoveAgent (rc_Subject rc) (rc_CompanyID rc) memberID) in
          Ret NoContent
  end.

(** The body of [handleRemoveAgentForPosition] and [handleRemoveAgentForGroup]. *)
Definition revokeAndRemove (rc : requestContext) (count : TxEnv -> HdDB -> result hd_error (nat * HdDB)) (t : Tuple)
    (correlationID : string) (remove : TxEnv -> HdDB -> result hd_error (unit * HdDB)) : P hdReply :=
  let? openCount := storeCall count in
  if (0 <? openCount)%nat then Ret invalid
  else
    run& ok := grantOrRevokeTuple rc "revoke" t correlationID in
    if negb ok then Ret unavailable
    else
      let? _ := storeCall remove in
      Ret NoContent.

Definition handleRemoveAgentForPosition (positionId : string) (rc : requestContext) : P hdReply :=
  let? positionID := orBadRequest (parseUUID positionId) in
  revokeAndRemove rc (CountOpenAssignedTicketsForPosition (rc_CompanyID rc) positionID)
    (positionAgentTuple (uuidString (rc_CompanyID rc)) (uuidString positionID))
    (uuidString (rc_CompanyID rc) +:+ ":" +:+ uuidString positionID +:+ ":remove-position-agent")
    (RemoveAgentForPosition (rc_Subject rc) (rc_CompanyID rc) positionID).

Definition handleRemoveAgentForGroup (groupId : string) (rc : requestContext) : P hdReply :=
  let? groupID := orBadRequest (parseUUID groupId) in
  revokeAndRemove rc (CountOpenAssignedTicketsForGroup (rc_CompanyID rc) groupID)
    (groupAgentTuple (uuidString (rc_CompanyID rc)) (uuidString groupID))
    (uuidString (rc_CompanyID rc) +:+ ":" +:+ uuidString groupID +:+ ":remove-group-agent")
    (RemoveAgentForGroup (rc_Subject rc) (rc_CompanyID rc) groupID).

(** ** Routes *)

(** [mountRoutes] *)
Definition serve (header companyId : string) (req : hdRequest) : P hdReply :=
  let open_ := withAuth header companyId None featureTicketsCreate in
  let openTicket id := withAuth header companyId (Some id) featureTicketsCreate in
  let manage := withAuth header companyId None featureHelpdeskManage in
  match req with
  | ReqMyTier => open_ handleMyTier
  | ReqListTickets view status => open_ (handleListTickets view status)
  | ReqCreateTicket body key => open_ (handleCreateTicket body key)
  | ReqGetTicket id => openTicket id handleGetTicket
  | ReqGetTicketAudit id => openTicket id handleGetTicketAudit
  | ReqAssignTicket id body => withAuth header companyId (Some id) featureHelpdeskManage (handleAssignTicket body)
  | ReqTransitionStatus id body => openTicket id (handleTransitionStatus body)
  | ReqListComments id => openTicket id handleListComments
  | ReqCreateComment id body key => openTicket id (handleCreateComment body key)
  | ReqAssignablePositions => manage handleAssignablePositions
  | ReqAssignableGroups => manage handleAssignableGroups
  | ReqListAgents => manage handleListAgents
  | ReqMakeAgent body => manage (handleMakeAgent body)
  | ReqRemoveAgentForPosition id => manage (handleRemoveAgentForPosition id)
  | ReqRemoveAgentForGroup id => manage (handleRemoveAgentForGroup id)
  | ReqRemoveAgent id => manage (handleRemoveAgent id)
  end.
End service.
