(* ===== verification/HelpdeskProps.v ===== *)
(** * The helpdesk service: who sees and changes what

    Rules for the service's steps, and with them what every step of every request
    keeps, whatever happens between its calls. *)

From stdpp Require Import base gmap strings list sorting.
From S2P Require Import Prelude GoStrings Tuple Decision Clients AuthzHTTP AdminClient OrgTree Org ModuleKit ModuleRules Helpdesk HelpdeskHTTP.

Section props.
Context `{UT : UUIDText} (verify : string -> option Claims) (uuid_ok : string -> bool) (authz : Service -> Prop).
Context (parseUUID : string -> option UUID).
Context (ticketHash : UUID -> string -> string -> string -> string) (commentHash : UUID -> string -> string -> string).

Abbreviation MW := (MWorld HdDB).
Abbreviation allows := (allows verify authz).

Definition may (rc : requestContext) (featureKey : string) : Prop :=
  allows (rc_RawBearer rc) (canRequest "helpdesk" featureKey (uuidString (rc_CompanyID rc)) (relationLeg featureKey)).

(** ** Rules *)

Section rules.
Context (seen : MW -> Prop) (G : MW -> MW -> Prop).
Context (Hsame : forall w w' : MW, w_store w' = w_store w -> G w w').
Abbreviation safe := (safe verify uuid_ok authz seen G).

Lemma safe_storeCall {X} (m : TxEnv -> HdDB -> result hd_error (X * HdDB)) Q :
  (forall e, Q (Err (writeStoreError e))) ->
  (forall w env x db, seen w -> m env (w_store w) = Ok (x, db) -> G w (mkMWorld db (w_authz w) (w_sent w)) /\ Q (Ok x)) ->
  safe (storeCall m) Q.
Proof. intros He Hk. by apply safe_transact. Qed.

Lemma read_ok {X} (f : HdDB -> result hd_error X) env db x db' : read f env db = Ok (x, db') -> f db = Ok x /\ db' = db.
Proof. unfold read. destruct (tx_broken env); [done|]. destruct (f db); [|done]. by intros [= -> ->]. Qed.

Lemma safe_Can rc featureKey Q :
  Q None -> Q (Some false) -> (may rc featureKey -> Q (Some true)) -> safe (Can rc featureKey) Q.
Proof. intros. unfold Can. apply safe_DoCan; simpl; eauto. Qed.

Lemma safe_notify rc recipient subjectLine body Q : Q tt -> safe (notify rc recipient subjectLine body) Q.
Proof. intros HQ. unfold notify. destruct (seqb recipient ""); [done|]. by apply safe_quiet. Qed.

Lemma safe_grant rc op t corr Q : (forall ok, Q ok) -> safe (grantOrRevokeTuple rc op t corr) Q.
Proof. intros HQ. by apply safe_quiet. Qed.
End rules.

(** ** What a request may do *)

(** The engine has the caller as an assignee: it holds the ticket's position or is in
    its group. *)
Definition engine_assignee (rc : requestContext) (t : Ticket) : Prop :=
  (exists p, t_position t = Some p /\ allows (rc_RawBearer rc) (holderRequest (uuidString (rc_CompanyID rc)) (uuidString p))) \/
  (exists g, t_group t = Some g /\ allows (rc_RawBearer rc) (groupRequest (uuidString (rc_CompanyID rc)) (uuidString g))).

Definition sees (rc : requestContext) (t : Ticket) : Prop :=
  may rc featureHelpdeskManage \/ may rc featureTicketsWork \/ t_reporterKcSub t = rc_Subject rc \/ engine_assignee rc t.

(** An edge of the status machine that the caller may take. *)
Definition takes (rc : requestContext) (t : Ticket) (to : string) : Prop :=
  validEdges (t_status t) to = true /\
  (may rc featureHelpdeskManage \/
   (to ∈ [StatusInProgress; StatusResolved] /\ (t_kcSub t = Some (rc_Subject rc) \/ engine_assignee rc t)) \/
   (to ∈ [StatusClosed; StatusOpen] /\ t_reporterKcSub t = rc_Subject rc)).

Section spec.
Context (seen : MW -> Prop) (rc : requestContext).

(** The ticket was in this state in a world the request saw. *)
Definition was (id : UUID) (t : Ticket) : Prop :=
  exists w, seen w /\ ticketIn (w_store w) (rc_CompanyID rc) id = Some t.

Inductive ticket_write (db db' : HdDB) : Prop :=
| tw_create id t :
    tickets db !! id = None -> t_company t = rc_CompanyID rc -> t_reporterKcSub t = rc_Subject rc ->
    t_status t = StatusOpen -> AssigneeKind t = "" -> tickets db' = <[id := t]> (tickets db) -> ticket_write db db'
| tw_status t0 t to now :
    was (rc_TicketID rc) t0 -> takes rc t0 to -> ticketIn db (rc_CompanyID rc) (rc_TicketID rc) = Some t ->
    tickets db' = <[rc_TicketID rc := set_status to now t]> (tickets db) -> ticket_write db db'
| tw_assign t m p g now :
    may rc featureHelpdeskManage -> ticketIn db (rc_CompanyID rc) (rc_TicketID rc) = Some t ->
    tickets db' = <[rc_TicketID rc := assign m p g now t]> (tickets db) -> ticket_write db db'.

Inductive comment_write (db db' : HdDB) : Prop :=
| cw_create id t body key hash now :
    was (rc_TicketID rc) t -> sees rc t -> comments db !! id = None ->
    comments db' = <[id := mkComment (rc_TicketID rc) (rc_Subject rc) body key hash now]> (comments db) -> comment_write db db'.

Definition guarded (db db' : HdDB) : Prop :=
  (tickets db' = tickets db \/ ticket_write db db') /\
  (comments db' = comments db \/ comment_write db db') /\
  (agents db' = agents db \/ may rc featureHelpdeskManage).

(** A ticket the caller sees, now or as the request saw it. *)
Definition in_view (id : UUID) (t : Ticket) : Prop := sees rc t \/ exists t0, was id t0 /\ sees rc t0.

Definition discloses (r : hdReply) : Prop :=
  match r with
  | WriteData _ (BTickets l) => Forall (fun w => t_company (tw_ticket w) = rc_CompanyID rc /\ in_view (tw_id w) (tw_ticket w)) l
  | WriteData _ (BEvents l) =>
      Forall (fun e => ev_subject e = ticketSubject (rc_TicketID rc)) l /\ exists t, was (rc_TicketID rc) t /\ sees rc t
  | WriteData _ (BComments l) =>
      Forall (fun c => c_ticket c.2 = rc_TicketID rc) l /\ exists t, was (rc_TicketID rc) t /\ sees rc t
  | WriteData _ (BAgents _) | WriteData _ (BPositions _) | WriteData _ (BGroups _) => may rc featureHelpdeskManage
  | WriteData _ (BTier _) | WriteError _ _ | NoContent => True
  end.

Definition is_error (r : hdReply) : Prop := match r with WriteError _ _ => True | _ => False end.

Lemma error_discloses r : is_error r -> discloses r.
Proof. by destruct r. Qed.

Lemma store_error e : is_error (writeStoreError e).
Proof. by destruct e. Qed.

Definition G (w w' : MW) : Prop := guarded (w_store w) (w_store w').
Abbreviation safe := (safe verify uuid_ok authz seen G).

Lemma guarded_refl db : guarded db db.
Proof. split_and!; by left. Qed.

Lemma G_same (w w' : MW) : w_store w' = w_store w -> G w w'.
Proof. unfold G. intros ->. apply guarded_refl. Qed.

Lemma safe_tier Q :
  Q None -> (may rc featureHelpdeskManage -> Q (Some "admin")) -> (may rc featureTicketsWork -> Q (Some "agent")) ->
  Q (Some "member") -> safe (tier rc) Q.
Proof.
  intros H0 H1 H2 H3. unfold tier. apply safe_bind, safe_Can; [apply G_same|done| |done].
  apply safe_bind, safe_Can; [apply G_same|done..].
Qed.

Lemma safe_isAssignee t Q :
  Q None -> Q (Some false) -> (engine_assignee rc t -> Q (Some true)) -> safe (isAssigneeForTicket rc t) Q.
Proof.
  intros H0 H1 H2. unfold isAssigneeForTicket, engine_assignee in *. destruct (t_position t) as [p|]; [|destruct (t_group t) as [g|]; [|done]].
  - apply safe_DoCan; simpl; [apply G_same|eauto..].
  - apply safe_DoCan; simpl; [apply G_same|eauto..].
Qed.

Lemma GetTicket_ok env db id t db' :
  GetTicket (rc_CompanyID rc) (rc_TicketID rc) env db = Ok (id, t, db') ->
  db' = db /\ id = rc_TicketID rc /\ ticketIn db (rc_CompanyID rc) (rc_TicketID rc) = Some t.
Proof.
  intros [H ->]%read_ok. destruct (ticketIn db (rc_CompanyID rc) (rc_TicketID rc)); [|done]. by injection H as -> ->.
Qed.

Lemma safe_loadVisibleTicket Q :
  (forall e, is_error e -> Q (Err e)) ->
  (forall t myTier isAssignee, was (rc_TicketID rc) t -> sees rc t ->
     (myTier = "admin" -> may rc featureHelpdeskManage) -> (isAssignee = true -> engine_assignee rc t) ->
     Q (Ok (rc_TicketID rc, t, myTier, isAssignee))) ->
  safe (loadVisibleTicket rc) Q.
Proof.
  intros He Hok. unfold loadVisibleTicket. apply safe_bind, safe_storeCall; [apply G_same|intros []; by apply He|].
  intros w env [id t] db Hw (-> & -> & Ht)%GetTicket_ok. split; [by apply G_same|].
  assert (Hwas : was (rc_TicketID rc) t) by (by exists w).
  assert (Hgo : forall myTier, (myTier = "admin" -> may rc featureHelpdeskManage) -> (myTier = "agent" -> may rc featureTicketsWork) ->
    safe (bind (isAssigneeForTicket rc t) (fun isAssignee => match isAssignee with
          | None => Ret (Err unavailable)
          | Some isAssignee => if canSeeTicket myTier t (rc_Subject rc) isAssignee
              then Ret (Ok (rc_TicketID rc, t, myTier, isAssignee)) else Ret (Err denied) end)) Q).
  { intros myTier Hadm Hag. apply safe_bind, safe_isAssignee; [by apply He|unfold canSeeTicket..].
    - destruct (seqb myTier "agent" || seqb myTier "admin" || seqb (t_reporterKcSub t) (rc_Subject rc)) eqn:E; simpl; [|by apply He].
      apply Hok; [done| |done|done]. rewrite !orb_true_iff, !seqb_true in E. unfold sees. naive_solver.
    - intros Has. rewrite orb_true_r. apply Hok; unfold sees; auto. }
  apply safe_bind, safe_tier; [by apply He|intros; by apply Hgo..|by apply Hgo].
Qed.

(** ** The handlers *)

Ltac quiet := apply safe_quiet; [apply G_same|done|intros ?].

Lemma safe_wire id t myTier Q :
  Q None -> (forall w, tw_id w = id -> tw_ticket w = t -> Q (Some w)) -> safe (buildTicketWire rc (id, t) myTier) Q.
Proof.
  intros H0 H1. unfold buildTicketWire. destruct (seqb _ _); [quiet; by apply H1|].
  destruct (seqb _ _).
  { apply safe_bind. unfold IsPositionHolder. quiet. change (safe (Ret ?a) ?K) with (K a). destruct (fst <$> x); [|done].
    quiet. destruct (mjoin _); [quiet|]; by apply H1. }
  destruct (seqb _ _); [|by apply H1].
  apply safe_bind. unfold IsGroupMember. quiet. change (safe (Ret ?a) ?K) with (K a). destruct (fst <$> x); [|done]. quiet. by apply H1.
Qed.

Lemma safe_replyTicket status id t myTier :
  t_company t = rc_CompanyID rc -> in_view id t -> safe (replyTicket rc status (id, t) myTier) discloses.
Proof.
  intros Hc Hv. apply safe_bind, safe_wire; [done|]. intros w <- <-. simpl. by constructor.
Qed.

Lemma orBadRequest_safe {A} (o : option A) (k : A -> prog HdDB hd_error hdReply) :
  (forall a, safe (k a) discloses) -> safe (orReply (orBadRequest o) k) discloses.
Proof. intros Hk. destruct o; simpl; [apply Hk|done]. Qed.

(** A store call followed by the rest of the handler. *)
Lemma store_then {X} (m : TxEnv -> HdDB -> result hd_error (X * HdDB)) (k : X -> prog HdDB hd_error hdReply) :
  (forall w env x db, seen w -> m env (w_store w) = Ok (x, db) ->
     G w (mkMWorld db (w_authz w) (w_sent w)) /\ safe (k x) discloses) ->
  safe (orReply (storeCall m) k) discloses.
Proof.
  intros Hk. apply safe_orReply, safe_storeCall; [apply G_same|intros e; apply error_discloses, store_error|done].
Qed.

Lemma visible_then (k : UUID * Ticket * string * bool -> prog HdDB hd_error hdReply) :
  (forall t myTier isAssignee, was (rc_TicketID rc) t -> sees rc t -> (myTier = "admin" -> may rc featureHelpdeskManage) ->
     (isAssignee = true -> engine_assignee rc t) -> safe (k (rc_TicketID rc, t, myTier, isAssignee)) discloses) ->
  safe (orReply (loadVisibleTicket rc) k) discloses.
Proof. intros Hk. apply safe_orReply, safe_loadVisibleTicket; [intros e He; by apply error_discloses|done]. Qed.

Lemma ticketIn_company db id t : ticketIn db (rc_CompanyID rc) id = Some t -> tickets db !! id = Some t /\ t_company t = rc_CompanyID rc.
Proof. unfold ticketIn. destruct (tickets db !! id); simpl; [|done]. case_bool_decide; [|done]. by intros [= ->]. Qed.

Lemma was_company id t : was id t -> t_company t = rc_CompanyID rc.
Proof. by intros (w & _ & [_ ?]%ticketIn_company). Qed.

Lemma tx_ok {X} (m : TxEnv -> HdDB -> result hd_error (X * HdDB)) ev env db x db' :
  tx m ev env db = Ok (x, db') ->
  exists db1, m env db = Ok (x, db1) /\ tickets db' = tickets db1 /\ comments db' = comments db1 /\ agents db' = agents db1 /\
    hdAudit db' = hdAudit db1 ++ [ev x (tx_now env)].
Proof.
  unfold tx. destruct (tx_broken env); [done|]. destruct (m env db) as [[y db1]|]; [|done]. simpl. intros [= -> <-].
  by exists db1.
Qed.

Lemma updateTicket_ok f env db id t' db' :
  updateTicket (rc_CompanyID rc) (rc_TicketID rc) f env db = Ok (id, t', db') ->
  exists t, ticketIn db (rc_CompanyID rc) (rc_TicketID rc) = Some t /\ id = rc_TicketID rc /\ t' = f (tx_now env) t /\
    ticket_check t' = true /\ db' = with_tickets db (<[rc_TicketID rc := t']> (tickets db)).
Proof.
  unfold updateTicket. destruct (ticketIn db _ _) as [t|]; [|done]. destruct (ticket_check _) eqn:E; [|done].
  intros [= <- <- <-]. by exists t.
Qed.

Lemma insertTicket_ok f env db id t db' :
  insertTicket f env db = Ok (id, t, db') ->
  id = tx_newID env /\ t = f (tx_now env) /\ tickets db !! id = None /\ ticket_check t = true /\
  (forall key, t_key t = Some key -> find_where (ticket_with_key (t_company t) (t_reporterKcSub t) key) (tickets db) = None) /\
  db' = with_tickets db (<[id := t]> (tickets db)).
Proof.
  unfold insertTicket. case_bool_decide as Hid; [done|]. destruct (t_key (f (tx_now env)) ≫= _) as [y|] eqn:Hk; [done|].
  destruct (ticket_check _) eqn:E; [|done]. intros [= <- <- <-]. split_and!; [done..|by apply eq_None_not_Some|done| |done].
  intros key Hkey. by rewrite Hkey in Hk.
Qed.

(** A guarded change of one table. *)
Lemma guarded_tickets w db : ticket_write (w_store w) db -> comments db = comments (w_store w) -> agents db = agents (w_store w) ->
  G w (mkMWorld db (w_authz w) (w_sent w)).
Proof. intros. split_and!; simpl; auto. Qed.

Lemma guarded_agents w db : may rc featureHelpdeskManage -> tickets db = tickets (w_store w) -> comments db = comments (w_store w) ->
  G w (mkMWorld db (w_authz w) (w_sent w)).
Proof. intros. split_and!; simpl; auto. Qed.

Lemma safe_reading {X} (f : HdDB -> result hd_error X) (k : X -> prog HdDB hd_error hdReply) :
  (forall w x, seen w -> f (w_store w) = Ok x -> safe (k x) discloses) -> safe (orReply (storeCall (read f)) k) discloses.
Proof.
  intros Hk. apply store_then. intros w env x db Hw [Hf ->]%read_ok. split; [by apply G_same|]. by eapply Hk.
Qed.

Lemma handleMyTier_safe : safe (handleMyTier rc) discloses.
Proof. apply safe_bind, safe_tier; done. Qed.

(** Creating a ticket. *)
Lemma createTicket_safe reporterMemberID title description key :
  safe (orReply (storeCall (CreateTicket ticketHash (rc_Subject rc) (rc_CompanyID rc) reporterMemberID (rc_Subject rc) title description key))
    (fun t => replyTicket rc 201 t "member")) discloses.
Proof.
  apply store_then. intros w env [id t] db Hw H. unfold CreateTicket in H. destruct (validTitle title); [|done]. simpl in H.
  apply tx_ok in H as (db1 & Hi & Ht & Hc & Ha & _). apply insertTicket_ok in Hi as (-> & -> & Hn & _ & _ & ->). split.
  - apply guarded_tickets; [|done..]. by eapply tw_create; [..|exact Ht].
  - apply safe_replyTicket; [done|]. left. right. right. by left.
Qed.

Lemma handleCreateTicket_safe body key : safe (handleCreateTicket parseUUID ticketHash body key rc) discloses.
Proof.
  apply orBadRequest_safe. intros req. quiet. destruct x as [[[memberID []] b]|]; try done.
  destruct (seqb memberID ""); [done|]. destruct (parseUUID memberID) as [m|]; [|done].
  destruct (200 <? String.length key)%nat; [done|]. cbv zeta. destruct (seqb key ""); [apply createTicket_safe|].
  apply safe_transact; [apply G_same|done|]. intros w env x db Hw [H ->]%read_ok. split; [by apply G_same|].
  destruct x as [[[id t] h]|]; [|apply createTicket_safe].
  destruct (negb _); [done|].
  destruct (find_where _ (tickets (w_store w))) as [[id' t']|] eqn:E; [|done].
  injection H as -> -> _. apply find_where_Some in E as [_ (Hc & Hr & _)].
  apply safe_replyTicket; [done|]. left. right. right. by left.
Qed.

Lemma ticketWires_safe myTier l Q :
  Q None -> (forall ws, (forall w, w ∈ ws -> (tw_id w, tw_ticket w) ∈ l) -> Q (Some ws)) -> safe (ticketWires rc myTier l) Q.
Proof.
  revert Q. induction l as [|[id t] l IH]; intros Q H0 H1; [apply H1; by intros ? ?%elem_of_nil|].
  apply safe_bind, safe_wire; [done|]. intros w Hid Ht. apply safe_bind, IH; [done|]. intros ws Hws. apply H1.
  intros v [->|Hv]%elem_of_cons; [rewrite Hid, Ht; left|right; auto].
Qed.

Lemma handleListTickets_safe view status : rc_Subject rc <> "" -> safe (handleListTickets view status rc) discloses.
Proof.
  intros Hsub. unfold handleListTickets. set (v := if seqb view "" then "mine" else view). clearbody v.
  assert (Hlist : forall myTier filter_, (forall t, filter_ = "" \/ t_reporterKcSub t = filter_ -> sees rc t) ->
    safe (orReply (storeCall (ListTickets (rc_CompanyID rc) filter_ status)) (fun tickets =>
      bind (ticketWires rc myTier tickets) (fun wires => Ret (match wires with Some ws => WriteData 200 (BTickets ws) | None => unavailable end))))
      discloses).
  { intros myTier filter_ Hs. apply safe_reading. intros w x Hw [= <-]. apply safe_bind, ticketWires_safe; [done|].
    intros ws Hws. apply Forall_forall. intros tw Htw%Hws.
    rewrite merge_sort_Permutation, list_elem_of_filter in Htw. destruct Htw as [(Hc & Hf & _) _]. split; [done|]. left. auto. }
  apply safe_bind, safe_tier; [done|intros Hm..|]; cbv beta iota zeta.
  - destruct (seqb v "mine"); [apply Hlist; intros; by left|]. destruct (seqb v "all"); [|done].
    change (seqb "admin" "member") with false. apply Hlist. intros; by left.
  - destruct (seqb v "mine"); [apply Hlist; intros; right; by left|]. destruct (seqb v "all"); [|done].
    change (seqb "agent" "member") with false. apply Hlist. intros; right; by left.
  - destruct (seqb v "mine"); [|destruct (seqb v "all"); done]. apply Hlist. intros t [?|?]; [done|]. right. right. by left.
Qed.

Lemma handleGetTicket_safe : safe (handleGetTicket rc) discloses.
Proof. apply visible_then. intros t myTier b Hw Hs _ _. apply safe_replyTicket; [by eapply was_company|by left]. Qed.

Lemma handleGetTicketAudit_safe : safe (handleGetTicketAudit rc) discloses.
Proof.
  apply visible_then. intros t myTier b Hw Hs _ _. apply safe_reading. intros w x _ [= <-]. split; [|by exists t].
  apply Forall_forall. intros e He%elem_of_take. destruct He as (i & He & _). apply list_elem_of_lookup_2 in He.
  by rewrite merge_sort_Permutation, list_elem_of_filter in He; destruct He.
Qed.

Lemma handleListComments_safe : safe (handleListComments rc) discloses.
Proof.
  apply visible_then. intros t myTier b Hw Hs _ _. apply safe_reading. intros w x _ [= <-]. split; [|by exists t].
  apply Forall_forall. intros e He. by rewrite merge_sort_Permutation, list_elem_of_filter in He; destruct He.
Qed.

(** An assignment, by the managers. *)
Lemma assign_then m p g event (k : UUID * Ticket -> prog HdDB hd_error hdReply) :
  may rc featureHelpdeskManage ->
  (forall t, t_company t = rc_CompanyID rc -> safe (k (rc_TicketID rc, t)) discloses) ->
  safe (orReply (storeCall (tx (updateTicket (rc_CompanyID rc) (rc_TicketID rc) (assign m p g)) event)) k) discloses.
Proof.
  intros Hm Hk. apply store_then. intros w env [id t] db Hw (db1 & Hu & Ht & Hc & Ha & _)%tx_ok.
  apply updateTicket_ok in Hu as (t0 & Ht0 & -> & -> & _ & ->). split.
  - apply guarded_tickets; [|done..]. eapply tw_assign; [done|done|exact Ht].
  - apply Hk. by apply ticketIn_company in Ht0 as [_ ?].
Qed.

Lemma agents_then {X} (m : TxEnv -> HdDB -> result hd_error (X * HdDB)) event (k : X -> prog HdDB hd_error hdReply) :
  may rc featureHelpdeskManage ->
  (forall env db x db', m env db = Ok (x, db') -> tickets db' = tickets db /\ comments db' = comments db) ->
  (forall x, safe (k x) discloses) -> safe (orReply (storeCall (tx m event)) k) discloses.
Proof.
  intros Hm Ha Hk. apply store_then. intros w env x db Hw (db1 & Hu & Ht & Hc & _)%tx_ok. split; [|done].
  apply Ha in Hu as [? ?]. apply guarded_agents; [done|congruence..].
Qed.

Lemma upsertAgent_frame same `{forall a, Decision (same a)} new keep env db x db' :
  upsertAgent same new keep env db = Ok (x, db') -> tickets db' = tickets db /\ comments db' = comments db.
Proof.
  unfold upsertAgent. destruct (find_where same (agents db)) as [[id a]|]; [by intros [= <- <-]|].
  destruct (_ || _); [done|]. by intros [= <- <-].
Qed.

Lemma deleteAgents_frame same `{forall a, Decision (same a)} env db x db' :
  deleteAgents same env db = Ok (x, db') -> tickets db' = tickets db /\ comments db' = comments db.
Proof. unfold deleteAgents. destruct (find_where same (agents db)); [|done]. by intros [= <- <-]. Qed.

Lemma notifyMembers_safe message subject l Q : Q tt -> safe (notifyMembers rc message subject l) Q.
Proof.
  intros HQ. induction l as [|m l IH]; [done|]. quiet. apply safe_bind. destruct x; [|done].
  by apply safe_notify; [apply G_same|].
Qed.

Lemma notifyGroupMembers_safe groupID message subject Q : Q tt -> safe (notifyGroupMembers rc groupID message subject) Q.
Proof. intros HQ. unfold notifyGroupMembers. quiet. destruct x; [by apply notifyMembers_safe|done]. Qed.

Lemma admin_reply t :
  may rc featureHelpdeskManage -> t_company t = rc_CompanyID rc -> safe (replyTicket rc 200 (rc_TicketID rc, t) "admin") discloses.
Proof. intros Hm Hc. apply safe_replyTicket; [done|]. left. by left. Qed.

Lemma assignTicketToMember_safe raw : may rc featureHelpdeskManage -> safe (assignTicketToMember parseUUID raw rc) discloses.
Proof.
  intros Hm. apply orBadRequest_safe. intros id. quiet. cbv zeta. destruct (seqb _ ""); [done|].
  set (assignIt := orReply _ _). assert (Hit : safe assignIt discloses).
  { apply assign_then; [done|]. intros t Ht. apply safe_bind, safe_notify; [apply G_same|]. by apply admin_reply. }
  clearbody assignIt. apply safe_transact; [apply G_same| |].
  - intros []; try done. apply safe_bind, safe_grant; [apply G_same|]. intros []; [|done]. simpl.
    apply agents_then; [done|intros; by eapply upsertAgent_frame|done].
  - intros w env a db Hw [_ ->]%read_ok. split; [by apply G_same|done].
Qed.

Lemma boundAgent_then m f (k : unit -> prog HdDB hd_error hdReply) :
  m = read f -> safe (k tt) discloses -> safe (orReply (boundAgent m) k) discloses.
Proof.
  intros -> Hk. apply safe_orReply, safe_transact; [apply G_same|by intros []|].
  intros w env a db Hw [_ ->]%read_ok. split; [by apply G_same|done].
Qed.

Lemma assignTicketToPosition_safe raw : may rc featureHelpdeskManage -> safe (assignTicketToPosition parseUUID raw rc) discloses.
Proof.
  intros Hm. apply orBadRequest_safe. intros id. quiet. destruct x as [position|]; [|done]. destruct (negb _); [done|].
  eapply boundAgent_then; [done|]. apply assign_then; [done|]. intros t Ht. quiet. apply safe_bind.
  destruct (mjoin _); [|by apply admin_reply]. quiet. destruct x0; [|by apply admin_reply].
  apply safe_notify; [apply G_same|]. by apply admin_reply.
Qed.

Lemma assignTicketToGroup_safe raw : may rc featureHelpdeskManage -> safe (assignTicketToGroup parseUUID raw rc) discloses.
Proof.
  intros Hm. apply orBadRequest_safe. intros id. quiet. destruct x as [group|]; [|done]. destruct (negb _); [done|].
  eapply boundAgent_then; [done|]. apply assign_then; [done|]. intros t Ht. apply safe_bind, notifyGroupMembers_safe.
  by apply admin_reply.
Qed.

Lemma handleAssignTicket_safe body : may rc featureHelpdeskManage -> safe (handleAssignTicket parseUUID body rc) discloses.
Proof.
  intros Hm. apply orBadRequest_safe. intros req. destruct (negb _); [done|]. apply safe_reading. intros w x _ _.
  destruct (negb _); [by apply assignTicketToMember_safe|]. destruct (negb _); [by apply assignTicketToPosition_safe|].
  by apply assignTicketToGroup_safe.
Qed.

Lemma canTransition_takes t myTier to isAssignee :
  validEdges (t_status t) to = true -> canTransition t (rc_Subject rc) myTier (t_status t) to isAssignee = true ->
  (myTier = "admin" -> may rc featureHelpdeskManage) -> (isAssignee = true -> engine_assignee rc t) -> takes rc t to.
Proof.
  intros Hv Hc Hadm Has. split; [done|]. unfold canTransition in Hc.
  destruct (seqb myTier "admin") eqn:E; [left; by apply Hadm, seqb_true|]. right.
  case_bool_decide as Hp; [left|case_bool_decide as Hq; [right|done]].
  - split; [set_solver|]. rewrite orb_true_iff, bool_decide_eq_true in Hc. naive_solver.
  - split; [set_solver|]. by apply seqb_true.
Qed.

Lemma handleTransitionStatus_safe body : safe (handleTransitionStatus body rc) discloses.
Proof.
  apply orBadRequest_safe. intros to. apply visible_then. intros t myTier isAssignee Hw Hs Hadm Has.
  destruct (validEdges (t_status t) to) eqn:Hv; [|done]. simpl negb. cbv iota.
  destruct (canTransition _ _ _ _ _ _) eqn:Hc; [|done]. simpl negb. cbv iota.
  apply store_then. intros w env [id t1] db Hsn (db1 & Hu & Ht & Hcm & Ha & _)%tx_ok.
  apply updateTicket_ok in Hu as (t0 & Ht0 & -> & -> & _ & ->). split.
  - apply guarded_tickets; [|done..]. eapply tw_status; [done|by eapply canTransition_takes|done|exact Ht].
  - assert (Hrep : safe (replyTicket rc 200 (rc_TicketID rc, set_status to (tx_now env) t0) myTier) discloses).
    { apply safe_replyTicket; [by apply ticketIn_company in Ht0 as [_ ?]|]. right. by exists t. }
    apply safe_bind. destruct (negb _); [|exact Hrep]. apply safe_notify; [apply G_same|exact Hrep].
Qed.

Lemma notifyComment_safe t Q : Q tt -> safe (notifyComment rc t) Q.
Proof.
  intros HQ. unfold notifyComment. cbv zeta. destruct (seqb _ _); [|by apply safe_notify; [apply G_same|]].
  destruct (seqb _ _); [by apply safe_notify; [apply G_same|]|]. destruct (seqb _ _).
  { quiet. destruct (mjoin _); [|done]. quiet. destruct x0; [|done]. by apply safe_notify; [apply G_same|]. }
  destruct (seqb _ _); [by apply notifyGroupMembers_safe|done].
Qed.

Lemma insertComment_ok f env db id c db' :
  insertComment f env db = Ok (id, c, db') ->
  id = tx_newID env /\ c = f (tx_now env) /\ comments db !! id = None /\ is_Some (tickets db !! c_ticket c) /\
  (forall key, c_key c = Some key -> find_where (comment_with_key (c_ticket c) (c_author c) key) (comments db) = None) /\
  db' = with_comments db (<[id := c]> (comments db)).
Proof.
  unfold insertComment. case_bool_decide as Hid; [done|]. destruct (c_key (f (tx_now env)) ≫= _) as [y|] eqn:Hk; [done|].
  case_bool_decide as Ht; [|done]. intros [= <- <- <-]. split_and!; [done..|by apply eq_None_not_Some|done| |done].
  intros key Hkey. by rewrite Hkey in Hk.
Qed.

Lemma createComment_safe t text key (k : UUID * Comment -> prog HdDB hd_error hdReply) :
  was (rc_TicketID rc) t -> sees rc t -> (forall c, c_ticket c.2 = rc_TicketID rc -> safe (k c) discloses) ->
  safe (orReply (storeCall (CreateComment commentHash (rc_Subject rc) (rc_TicketID rc) text key)) k) discloses.
Proof.
  intros Hw Hs Hk. apply store_then. intros w env [id c] db Hsn H. unfold CreateComment in H. destruct (_ || _); [done|].
  apply tx_ok in H as (db1 & Hi & Ht & Hc & Ha & _). apply insertComment_ok in Hi as (-> & -> & Hn & _ & _ & ->).
  split; [|by apply Hk]. split_and!; simpl; [by left| |by left]. right. eapply cw_create; [done|done|exact Hn|exact Hc].
Qed.

Lemma handleCreateComment_safe body key : safe (handleCreateComment commentHash body key rc) discloses.
Proof.
  apply orBadRequest_safe. intros text. apply visible_then. intros t myTier isAssignee Hw Hs _ _.
  destruct (200 <? String.length key)%nat; [done|]. cbv zeta. set (create := orReply _ _).
  assert (Hcreate : safe create discloses).
  { apply createComment_safe with t; [done..|]. intros c Hc. apply safe_bind, notifyComment_safe.
    split; [by apply Forall_singleton|by exists t]. }
  clearbody create. destruct (seqb key ""); [done|]. apply safe_transact; [apply G_same|done|].
  intros w env x db Hsn [H ->]%read_ok. split; [by apply G_same|]. destruct x as [[[id c] h]|]; [|done].
  destruct (negb _); [done|]. destruct (find_where _ (comments (w_store w))) as [[id' c']|] eqn:E; [|done].
  injection H as -> -> _. apply find_where_Some in E as [_ (Hc & _)]. split; [by apply Forall_singleton|by exists t].
Qed.

(** ** Agents, by the managers *)

Lemma assignablePositions_safe l Q : (forall ws, Q ws) -> safe (assignablePositions l) Q.
Proof.
  revert Q. induction l as [|[id a] l IH]; intros Q HQ; [apply HQ|]. cbn [assignablePositions]. destruct (negb _); [by apply IH|].
  cbv zeta. quiet. apply safe_bind. destruct (mjoin x); [quiet|]; apply safe_bind, IH; intros ws; apply HQ.
Qed.

Lemma assignableGroups_safe l Q : (forall ws, Q ws) -> safe (assignableGroups l) Q.
Proof.
  revert Q. induction l as [|[id a] l IH]; intros Q HQ; [apply HQ|]. cbn [assignableGroups]. destruct (negb _); [by apply IH|].
  cbv zeta. quiet. apply safe_bind, IH; intros ws; apply HQ.
Qed.

Lemma grantOrRemove_safe t corr same `{forall a, Decision (same a)} event a :
  may rc featureHelpdeskManage -> safe (grantOrRemove rc t corr (tx (deleteAgents same) event) a) discloses.
Proof.
  intros Hm. apply safe_bind, safe_grant; [apply G_same|]. intros []; [done|]. apply safe_transact; [apply G_same|done|].
  intros w env x db Hw (db1 & Hu & Ht & Hc & _)%tx_ok. split; [|done]. apply deleteAgents_frame in Hu as [? ?].
  apply guarded_agents; [done|congruence..].
Qed.

Lemma handleMakeAgent_safe body : may rc featureHelpdeskManage -> safe (handleMakeAgent parseUUID body rc) discloses.
Proof.
  intros Hm. apply orBadRequest_safe. intros req. destruct (negb _); [done|]. destruct (negb _); [|destruct (negb _)].
  - apply orBadRequest_safe. intros id. quiet. cbv zeta. destruct (seqb _ ""); [done|].
    apply safe_bind, safe_grant; [apply G_same|]. intros []; [|done]. cbn [negb]. apply agents_then; [done|intros; by eapply upsertAgent_frame|done].
  - apply orBadRequest_safe. intros id. quiet. destruct x; [|done]. destruct (negb _); [done|].
    apply agents_then; [done|intros; by eapply upsertAgent_frame|]. intros a. by apply grantOrRemove_safe.
  - apply orBadRequest_safe. intros id. quiet. destruct x; [|done]. destruct (negb _); [done|].
    apply agents_then; [done|intros; by eapply upsertAgent_frame|]. intros a. by apply grantOrRemove_safe.
Qed.

Lemma revokeAndRemove_safe f t corr same `{forall a, Decision (same a)} event :
  may rc featureHelpdeskManage -> safe (revokeAndRemove rc (read f) t corr (tx (deleteAgents same) event)) discloses.
Proof.
  intros Hm. apply safe_reading. intros w n _ _. destruct (0 <? n)%nat; [done|]. apply safe_bind, safe_grant; [apply G_same|].
  intros []; [|done]. cbn [negb]. apply agents_then; [done|intros; by eapply deleteAgents_frame|done].
Qed.

Lemma handleRemoveAgent_safe memberId : may rc featureHelpdeskManage -> safe (handleRemoveAgent parseUUID memberId rc) discloses.
Proof.
  intros Hm. apply orBadRequest_safe. intros id. quiet. destruct x as [member|]; [|done]. apply safe_reading. intros w n _ _.
  destruct (0 <? n)%nat; [done|]. apply safe_bind.
  assert (Hgo : safe (orReply (storeCall (RemoveAgent (rc_Subject rc) (rc_CompanyID rc) id)) (fun _ => Ret NoContent)) discloses)
    by (apply agents_then; [done|intros; by eapply deleteAgents_frame|done]).
  destruct (negb _); [|exact Hgo]. apply safe_grant; [apply G_same|]. intros []; [exact Hgo|done].
Qed.
End spec.

(** ** Routes *)

(** The feature a route is mounted on, and its ticket. *)
Definition routeFeature (req : hdRequest) : string :=
  match req with
  | ReqAssignTicket _ _ | ReqAssignablePositions | ReqAssignableGroups | ReqListAgents | ReqMakeAgent _
  | ReqRemoveAgentForPosition _ | ReqRemoveAgentForGroup _ | ReqRemoveAgent _ => featureHelpdeskManage
  | _ => featureTicketsCreate
  end.
Definition routeTicket (req : hdRequest) : option string :=
  match req with
  | ReqGetTicket id | ReqGetTicketAudit id | ReqAssignTicket id _ | ReqTransitionStatus id _ | ReqListComments id
  | ReqCreateComment id _ _ => Some id
  | _ => None
  end.

(** The context of a request that passes the gate: the verified subject, the company of
    the path, the ticket of the path, and the platform's leave. *)
Definition admitted (header companyId : string) (req : hdRequest) (rc : requestContext) : Prop :=
  Verify verify (BearerFromHeader header) = Some (rc_Subject rc) /\ rc_RawBearer rc = header /\
  parseUUID companyId = Some (rc_CompanyID rc) /\
  match routeTicket req with Some id => parseUUID id = Some (rc_TicketID rc) | None => rc_TicketID rc = 0%N end /\
  may rc (routeFeature req).

(** What a step of the request does to the store. *)
Definition step_guarded (seen : MW -> Prop) (header companyId : string) (req : hdRequest) (db db' : HdDB) : Prop :=
  db' = db \/ exists rc, admitted header companyId req rc /\ guarded seen rc db db'.

Definition reply_guarded (seen : MW -> Prop) (header companyId : string) (req : hdRequest) (r : hdReply) : Prop :=
  is_error r \/ exists rc, admitted header companyId req rc /\ discloses seen rc r.

Section serve.
Context (seen : MW -> Prop) (header companyId : string) (req : hdRequest).
Abbreviation G' := (fun w w' : MW => step_guarded seen header companyId req (w_store w) (w_store w')).
Abbreviation Q' := (reply_guarded seen header companyId req).

Lemma withAuth_safe next :
  (forall rc, admitted header companyId req rc -> safe verify uuid_ok authz seen (G seen rc) (next rc) (discloses seen rc)) ->
  safe verify uuid_ok authz seen G' (withAuth verify parseUUID header companyId (routeTicket req) (routeFeature req) next) Q'.
Proof.
  intros Hnext. unfold withAuth. destruct (Verify verify (BearerFromHeader header)) as [sub|] eqn:Hv; [|by left].
  destruct (parseUUID companyId) as [c|] eqn:Hc; [|by left].
  assert (Hgo : forall id, match routeTicket req with Some s => parseUUID s = Some id | None => id = 0%N end ->
    may (mkContext sub header c 0) (routeFeature req) ->
    safe verify uuid_ok authz seen G' (next (mkContext sub header c id)) Q').
  { intros id Hid Hm. assert (Had : admitted header companyId req (mkContext sub header c id)) by done.
    eapply safe_weaken; [| |by apply Hnext].
    - intros w w' HG. right. by exists (mkContext sub header c id).
    - intros r Hr. right. by exists (mkContext sub header c id). }
  apply safe_bind, safe_Can; [intros w w' E; left; done|by left|by left|]. intros Hm. cbv iota.
  destruct (routeTicket req) as [s|]; [|by apply Hgo]. destruct (parseUUID s) as [id|] eqn:Hs; [|by left]. by apply Hgo.
Qed.

Lemma admitted_subject rc : admitted header companyId req rc -> rc_Subject rc <> "".
Proof.
  intros (Hv & _). unfold Verify in Hv. destruct (seqb _ ""); [done|]. destruct (Subject <$> _) as [sub|]; [|done]. simpl in Hv.
  destruct (seqb sub "") eqn:E; [done|]. injection Hv as <-. by apply seqb_false in E.
Qed.
End serve.

Lemma serve_safe seen header companyId req :
  safe verify uuid_ok authz seen (fun w w' => step_guarded seen header companyId req (w_store w) (w_store w'))
    (serve verify parseUUID ticketHash commentHash header companyId req) (reply_guarded seen header companyId req).
Proof.
  destruct req; (eapply (withAuth_safe seen header companyId); intros rc Had; assert (Hsub := admitted_subject _ _ _ _ Had);
    assert (Hm := proj2 (proj2 (proj2 (proj2 Had)))); simpl in Hm).
  - apply handleMyTier_safe.
  - by apply handleListTickets_safe.
  - apply handleCreateTicket_safe.
  - apply handleGetTicket_safe.
  - apply handleGetTicketAudit_safe.
  - by apply handleAssignTicket_safe.
  - apply handleTransitionStatus_safe.
  - apply handleListComments_safe.
  - apply handleCreateComment_safe.
  - apply safe_reading. intros w x _ _. by apply safe_bind, assignablePositions_safe.
  - apply safe_reading. intros w x _ _. by apply safe_bind, assignableGroups_safe.
  - by apply safe_reading.
  - by apply handleMakeAgent_safe.
  - apply orBadRequest_safe. intros id. by apply revokeAndRemove_safe.
  - apply orBadRequest_safe. intros id. by apply revokeAndRemove_safe.
  - by apply handleRemoveAgent_safe.
Qed.
End props.
