(* ===== verification/HelpdeskStore.v ===== *)
(** * Invariants of the helpdesk store

    What the store's methods do to the tables, that the service touches them through
    these methods alone, and the invariants they keep. *)

From stdpp Require Import base gmap strings list sorting.
From S2P Require Import Prelude GoStrings Decision Clients AuthzHTTP AdminClient OrgTree Org OrgProps ModuleKit ModuleRules Helpdesk HelpdeskHTTP HelpdeskProps.

(** ** The store's methods *)

Section methods.
Context `{UT : UUIDText}.
Context (ticketHash : UUID -> string -> string -> string -> string) (commentHash : UUID -> string -> string -> string).

Inductive ticketMethod : forall X : Type, (TxEnv -> HdDB -> result hd_error (X * HdDB)) -> Prop :=
| sm_read X (f : HdDB -> result hd_error X) : ticketMethod X (read f)
| sm_CreateTicket a c m s t d k : ticketMethod _ (CreateTicket ticketHash a c m s t d k)
| sm_AssignTicket a c t m s : ticketMethod _ (AssignTicket a c t m s)
| sm_AssignTicketToPosition a c t p n : ticketMethod _ (AssignTicketToPosition a c t p n)
| sm_AssignTicketToGroup a c t g n : ticketMethod _ (AssignTicketToGroup a c t g n)
| sm_UpdateTicketStatus a c t f n : ticketMethod _ (UpdateTicketStatus a c t f n)
| sm_CreateComment a t b k : ticketMethod _ (CreateComment commentHash a t b k).

Inductive agentMethod : forall X : Type, (TxEnv -> HdDB -> result hd_error (X * HdDB)) -> Prop :=
| sm_RecordAgent a c m s g : agentMethod _ (RecordAgent a c m s g)
| sm_RemoveAgent a c m : agentMethod _ (RemoveAgent a c m)
| sm_RecordAgentForPosition a c p n g : agentMethod _ (RecordAgentForPosition a c p n g)
| sm_RemoveAgentForPosition a c p : agentMethod _ (RemoveAgentForPosition a c p)
| sm_RecordAgentForGroup a c p n g : agentMethod _ (RecordAgentForGroup a c p n g)
| sm_RemoveAgentForGroup a c p : agentMethod _ (RemoveAgentForGroup a c p).

(** A call that leaves the authorization tuples and the store alone. *)
Definition asking {X} (c : call HdDB hd_error X) : Prop :=
  match c with Transact _ | GrantOrRevoke _ _ _ _ _ => False | _ => True end.

(** The calls of the service: a condition that holds of reads and of questions to the
    other services holds of all calls of the parts below. *)
Section calls.
Context (P : forall X : Type, call HdDB hd_error X -> Prop).
Context (Hticket : forall X m, ticketMethod X m -> P _ (Transact m)) (Hask : forall X (c : call HdDB hd_error X), asking c -> P X c).
Abbreviation calls := (calls P).

(** One step of a program: through a bind, past an answer, into a branch. *)
Ltac calls_step :=
  first
  [ done
  | apply calls_bind
  | apply calls_orReply
  | match goal with
    | |- calls (storeCall _) => split
    | |- calls (Call _ _) => split
    | |- P _ _ => eauto using ticketMethod, agentMethod with nocore; by apply Hask
    end
  | progress intros
  | match goal with |- calls (match ?x with _ => _ end) => destruct x end ].

Lemma wire_calls rc t myTier : calls (buildTicketWire rc t myTier).
Proof. destruct t. unfold buildTicketWire, IsPositionHolder, IsGroupMember. repeat calls_step. Qed.

Lemma reply_calls rc status t myTier : calls (replyTicket rc status t myTier).
Proof. apply calls_bind; [apply wire_calls|done]. Qed.

Lemma wires_calls rc myTier l : calls (ticketWires rc myTier l).
Proof. induction l; simpl; [done|]. apply calls_bind; [apply wire_calls|]. intros []; [|done]. by apply calls_bind. Qed.

Lemma tier_calls rc : calls (tier rc).
Proof. unfold tier, Can. repeat calls_step. Qed.

Lemma visible_calls rc : calls (loadVisibleTicket rc).
Proof.
  unfold loadVisibleTicket. apply calls_bind; [repeat calls_step|]. intros [[id t]|]; [|done].
  apply calls_bind; [apply tier_calls|]. intros []; [|done]. unfold isAssigneeForTicket, IsPositionHolder, IsGroupMember.
  repeat calls_step.
Qed.

Lemma notify_calls rc a b c : calls (notify rc a b c).
Proof. unfold notify. repeat calls_step. Qed.

Lemma notifyGroup_calls rc a b c : calls (notifyGroupMembers rc a b c).
Proof.
  split; [by apply Hask|]. intros [l|]; [|done]. induction l; [done|]. split; [by apply Hask|]. intros x. apply calls_bind; [|done].
  destruct x; [apply notify_calls|done].
Qed.

Lemma positions_calls l : calls (assignablePositions l).
Proof. induction l as [|[] l IH]; simpl; [done|]. repeat calls_step. Qed.

Lemma groups_calls l : calls (assignableGroups l).
Proof. induction l as [|[] l IH]; simpl; [done|]. repeat calls_step. Qed.

Ltac calls_all :=
  repeat first
  [ lazymatch goal with
    | |- calls (replyTicket _ _ _ _) => apply reply_calls
    | |- calls (ticketWires _ _ _) => apply wires_calls
    | |- calls (tier _) => apply tier_calls
    | |- calls (loadVisibleTicket _) => apply visible_calls
    | |- calls (notify _ _ _ _) => apply notify_calls
    | |- calls (notifyGroupMembers _ _ _ _) => apply notifyGroup_calls
    | |- calls (assignablePositions _) => apply positions_calls
    | |- calls (assignableGroups _) => apply groups_calls
    end
  | calls_step ].

Variables (verify : string -> option Claims) (parseUUID : string -> option UUID).

(** The routes that may make or remove agents; assigning a member makes it one. *)
Definition managesAgents (req : hdRequest) : bool :=
  match req with
  | ReqAssignTicket _ _ | ReqMakeAgent _ | ReqRemoveAgentForPosition _ | ReqRemoveAgentForGroup _ | ReqRemoveAgent _ => true
  | _ => false
  end.

Lemma assign_calls rc :
  (forall s, calls (assignTicketToPosition parseUUID s rc)) /\ (forall s, calls (assignTicketToGroup parseUUID s rc)).
Proof. unfold assignTicketToPosition, assignTicketToGroup, boundAgent, orBadRequest. split; calls_all. Qed.

Lemma ticket_routes_calls header companyId req :
  managesAgents req = false -> calls (serve verify parseUUID ticketHash commentHash header companyId req).
Proof.
  destruct req; intros Hreq; try discriminate Hreq; unfold serve, withAuth, Can; cbv zeta;
    unfold handleMyTier, handleListTickets, handleCreateTicket, handleGetTicket, handleGetTicketAudit, handleTransitionStatus,
      handleListComments, handleCreateComment, notifyComment, handleAssignablePositions, handleAssignableGroups, handleListAgents,
      orBadRequest; calls_all.
Qed.

Context (HGrant : forall h c op ts corr, P _ (GrantOrRevoke h c op ts corr)) (Hagent : forall X m, agentMethod X m -> P _ (Transact m)).

Lemma serve_calls header companyId req : calls (serve verify parseUUID ticketHash commentHash header companyId req).
Proof.
  destruct (managesAgents req) eqn:E; [|by apply ticket_routes_calls].
  destruct req; try discriminate E; unfold serve, withAuth, Can; cbv zeta;
    unfold handleAssignTicket, assignTicketToMember, assignTicketToPosition, assignTicketToGroup, boundAgent, handleMakeAgent,
      handleMakeMemberAgent, handleMakePositionAgent, handleMakeGroupAgent, grantOrRemove,
      handleRemoveAgentForPosition, handleRemoveAgentForGroup, revokeAndRemove, handleRemoveAgent, grantOrRevokeTuple,
      orBadRequest; calls_all.
Qed.
End calls.

(** The service touches its tables through the store's methods alone. *)
Definition storedCall X (c : call HdDB hd_error X) : Prop :=
  match c with Transact m => ticketMethod _ m \/ agentMethod _ m | _ => True end.

Lemma serve_stored verify parseUUID header companyId req :
  calls storedCall (serve verify parseUUID ticketHash commentHash header companyId req).
Proof. apply serve_calls; simpl; auto. by intros X []. Qed.

(** ** What a method does *)

(** The columns of a ticket that no method changes. *)
Definition same_identity (t t' : Ticket) : Prop :=
  t_company t' = t_company t /\ t_title t' = t_title t /\ t_description t' = t_description t /\ t_reporter t' = t_reporter t /\
  t_reporterKcSub t' = t_reporterKcSub t /\ t_key t' = t_key t /\ t_hash t' = t_hash t /\ t_created t' = t_created t.

(** The status an audit row sets. *)
Definition sets_status (e : HdEvent) : option string :=
  if seqb (ev_action e) "helpdesk.ticket.status" then snd <$> find (fun kv => seqb kv.1 "to") (ev_payload e) else None.

(** The unique keys. *)
Definition ticket_idem (t : Ticket) : option (UUID * string * string) := pair (t_company t, t_reporterKcSub t) <$> t_key t.
Definition comment_idem (c : Comment) : option (UUID * string * string) := pair (c_ticket c, c_author c) <$> c_key c.
Definition agent_member (a : Agent) : option (UUID * UUID) := pair (a_company a) <$> a_member a.
Definition agent_position (a : Agent) : option (UUID * UUID) := pair (a_company a) <$> a_position a.
Definition agent_group (a : Agent) : option (UUID * UUID) := pair (a_company a) <$> a_group a.

(** Free: no row of the table has the key. *)
Definition free {A B} (key : A -> option B) (a : A) (m : gmap UUID A) : Prop :=
  forall j b k, m !! j = Some b -> key a = Some k -> key b <> Some k.

Inductive change (db : HdDB) : HdDB -> Prop :=
| ch_none : change db db
| ch_ticket id t e :
    tickets db !! id = None -> ticket_check t = true -> 1 <= String.length (t_title t) <= 200 -> t_status t = StatusOpen ->
    free ticket_idem t (tickets db) -> ev_subject e = ticketSubject id -> sets_status e = None ->
    change db (mkHdDB (<[id := t]> (tickets db)) (comments db) (agents db) (hdAudit db ++ [e]))
| ch_edit id t t' e :
    tickets db !! id = Some t -> ticket_check t' = true -> same_identity t t' -> ev_subject e = ticketSubject id ->
    t_status t' = default (t_status t) (sets_status e) ->
    change db (mkHdDB (<[id := t']> (tickets db)) (comments db) (agents db) (hdAudit db ++ [e]))
| ch_comment id c e :
    comments db !! id = None -> is_Some (tickets db !! c_ticket c) -> 1 <= String.length (c_body c) ->
    (N.of_nat (String.length (c_body c)) <= 10000)%N -> free comment_idem c (comments db) ->
    ev_subject e = ticketSubject (c_ticket c) -> sets_status e = None ->
    change db (mkHdDB (tickets db) (<[id := c]> (comments db)) (agents db) (hdAudit db ++ [e]))
| ch_agent id a e :
    agents db !! id = None -> agent_check a = true -> free agent_member a (agents db) -> free agent_position a (agents db) ->
    free agent_group a (agents db) -> ev_subject e = moduleSubject (a_company a) ->
    change db (mkHdDB (tickets db) (comments db) (<[id := a]> (agents db)) (hdAudit db ++ [e]))
| ch_retitle id a a' e :
    agents db !! id = Some a -> agent_member a' = agent_member a -> agent_position a' = agent_position a ->
    agent_group a' = agent_group a -> agent_check a' = agent_check a -> ev_subject e = moduleSubject (a_company a) ->
    change db (mkHdDB (tickets db) (comments db) (<[id := a']> (agents db)) (hdAudit db ++ [e]))
| ch_remove ags c e :
    ags ⊆ agents db -> ev_subject e = moduleSubject c ->
    change db (mkHdDB (tickets db) (comments db) ags (hdAudit db ++ [e])).

Lemma tx_whole {X} (m : TxEnv -> HdDB -> result hd_error (X * HdDB)) ev env db x db' :
  tx m ev env db = Ok (x, db') ->
  exists db1, m env db = Ok (x, db1) /\
    db' = mkHdDB (tickets db1) (comments db1) (agents db1) (hdAudit db1 ++ [ev x (tx_now env)]).
Proof. unfold tx. destruct (tx_broken env); [done|]. destruct (m env db) as [[y db1]|]; [|done]. intros [= -> <-]. by exists db1. Qed.

Lemma edit_change c id f ev env db x db' :
  (forall t now, same_identity t (f now t)) ->
  (forall t now r, ev_subject (ev r now) = ticketSubject r.1 /\ t_status (f now t) = default (t_status t) (sets_status (ev r now))) ->
  tx (updateTicket c id f) ev env db = Ok (x, db') -> change db db'.
Proof.
  intros Hf Hev (db1 & Hu & ->)%tx_whole. unfold updateTicket in Hu. destruct (ticketIn db c id) as [t|] eqn:Ht; [|done].
  destruct (ticket_check _) eqn:Hck; [|done]. injection Hu as <- <-. simpl.
  destruct (Hev t (tx_now env) (id, f (tx_now env) t)) as [He Hs].
  eapply ch_edit; [|done|apply Hf|exact He|exact Hs].
  unfold ticketIn in Ht. destruct (tickets db !! id); simpl in Ht; [|done]. case_bool_decide; [|done]. by injection Ht as ->.
Qed.

Lemma upsert_change same `{forall a, Decision (same a)} new keep c ev env db x db' :
  (forall now, agent_check (new now) = true /\ a_company (new now) = c) ->
  (forall now b, ~ same b -> forall k, (agent_member (new now) = Some k -> agent_member b <> Some k) /\
     (agent_position (new now) = Some k -> agent_position b <> Some k) /\ (agent_group (new now) = Some k -> agent_group b <> Some k)) ->
  (forall a, same a -> agent_member (keep a) = agent_member a /\ agent_position (keep a) = agent_position a /\
     agent_group (keep a) = agent_group a /\ agent_check (keep a) = agent_check a /\ a_company a = c) ->
  (forall r now, ev_subject (ev r now) = moduleSubject c) ->
  tx (upsertAgent same new keep) ev env db = Ok (x, db') -> change db db'.
Proof.
  intros Hnew Hfree Hkeep Hev (db1 & Hu & ->)%tx_whole. unfold upsertAgent in Hu.
  destruct (find_where same (agents db)) as [[id a]|] eqn:E.
  - injection Hu as <- <-. apply find_where_Some in E as [Hi Hs]. destruct (Hkeep a Hs) as (? & ? & ? & ? & <-). simpl.
    by eapply ch_retitle.
  - destruct (_ || _) eqn:Hc; [done|]. apply orb_false_iff in Hc as [Hid%bool_decide_eq_false Hck%negb_false_iff].
    injection Hu as <- <-. destruct (Hnew (tx_now env)) as [_ <-]. rewrite find_where_None in E. simpl.
    apply ch_agent; [by apply eq_None_not_Some|done| | | |apply Hev];
      intros j b k Hb; destruct (Hfree (tx_now env) b (E j b Hb) k) as (? & ? & ?); auto.
Qed.

Lemma delete_change same `{forall a, Decision (same a)} c ev env db x db' :
  (forall now, ev_subject (ev x now) = moduleSubject c) -> tx (deleteAgents same) ev env db = Ok (x, db') -> change db db'.
Proof.
  intros Hev (db1 & Hu & ->)%tx_whole. unfold deleteAgents in Hu. destruct (find_where same (agents db)); [|done].
  injection Hu as <- <-. simpl. eapply ch_remove; [apply map_filter_subseteq|apply Hev].
Qed.

Lemma ticket_change X m env db x db' : ticketMethod X m -> m env db = Ok (x, db') -> change db db'.
Proof.
  destruct 1; intros Hr.
  - apply read_ok in Hr as [_ ->]. constructor.
  - unfold CreateTicket in Hr. destruct (validTitle t) eqn:Hv; [|done]. cbn [result_bind] in Hr.
    apply tx_whole in Hr as (db1 & Hi & ->). destruct x as [id u]. apply insertTicket_ok in Hi as (-> & -> & Hn & Hck & Hk & ->). simpl.
    eapply ch_ticket; [done|done| |done| |done|done].
    + simpl. unfold validTitle in Hv. destruct (_ || _) eqn:E; [done|]. rewrite orb_false_iff, !Nat.ltb_ge in E. lia.
    + intros j b key Hb Hkey Hkb. unfold ticket_idem in *. simpl in *. destruct (if seqb k "" then None else Some k) as [key'|]; [|done].
      specialize (Hk key' eq_refl). rewrite find_where_None in Hk. apply (Hk j b Hb). injection Hkey as <-.
      destruct (t_key b) as [kb|] eqn:Ekb; [|done]. injection Hkb as ? ? ?. unfold ticket_with_key. by subst.
  - eapply edit_change; [| |exact Hr]; done.
  - eapply edit_change; [| |exact Hr]; done.
  - eapply edit_change; [| |exact Hr]; done.
  - eapply edit_change; [| |exact Hr]; done.
  - unfold CreateComment in Hr. destruct (_ || _) eqn:Hv; [done|]. apply tx_whole in Hr as (db1 & Hi & ->). destruct x as [id u].
    apply insertComment_ok in Hi as (-> & -> & Hn & Ht & Hk & ->). simpl. rewrite orb_false_iff, Nat.ltb_ge, N.ltb_ge in Hv.
    eapply ch_comment; simpl; [done|done|lia|lia| |done|done].
    intros j c key Hc Hkey Hkc. unfold comment_idem in *. simpl in *. destruct (if seqb k "" then None else Some k) as [key'|]; [|done].
    specialize (Hk key' eq_refl). rewrite find_where_None in Hk. apply (Hk j c Hc). injection Hkey as <-.
    destruct (c_key c) as [kc|] eqn:Ekc; [|done]. injection Hkc as ? ? ?. unfold comment_with_key. by subst.
Qed.

Lemma agent_change X m env db x db' : agentMethod X m -> m env db = Ok (x, db') -> change db db'.
Proof.
  destruct 1; intros Hr.
  - eapply upsert_change with (c := c); [| | | |exact Hr]; [done| | |done].
    + unfold for_member, agent_member. intros now b Hb k. simpl. split_and!; [|done..]. intros [= <-] E.
      destruct (a_member b) as [mb|] eqn:Em; [|done]. injection E as ? ?. apply Hb. by subst.
    + intros b [Hc Hm]. by rewrite <- Hc.
  - eapply delete_change with (c := c); [|exact Hr]; done.
  - eapply upsert_change with (c := c); [| | | |exact Hr]; [done| | |done].
    + unfold for_position, agent_position. intros now b Hb k. simpl. split_and!; [done| |done]. intros [= <-] E.
      destruct (a_position b) as [mb|] eqn:Em; [|done]. injection E as ? ?. apply Hb. by subst.
    + intros b [Hc Hm]. by rewrite <- Hc.
  - eapply delete_change with (c := c); [|exact Hr]; done.
  - eapply upsert_change with (c := c); [| | | |exact Hr]; [done| | |done].
    + unfold for_group, agent_group. intros now b Hb k. simpl. split_and!; [done|done|]. intros [= <-] E.
      destruct (a_group b) as [mb|] eqn:Em; [|done]. injection E as ? ?. apply Hb. by subst.
    + intros b [Hc Hm]. by rewrite <- Hc.
  - eapply delete_change with (c := c); [|exact Hr]; done.
Qed.

Lemma method_change X m env db x db' : ticketMethod X m \/ agentMethod X m -> m env db = Ok (x, db') -> change db db'.
Proof. intros [?|?]; eauto using ticket_change, agent_change. Qed.

(** ** The invariant *)

(** The audit rows of a ticket, and the status they leave it in. *)
Definition events_of (id : UUID) (l : list HdEvent) : list HdEvent := filter (fun e => ev_subject e = ticketSubject id) l.
Definition timeline (db : HdDB) (id : UUID) : string := default StatusOpen (last (omap sets_status (events_of id (hdAudit db)))).

Record tables_ok (db : HdDB) : Prop := {
  ok_ticket : forall id t, tickets db !! id = Some t -> ticket_check t = true /\ 1 <= String.length (t_title t) <= 200;
  ok_ticket_keys : unique_by ticket_idem (tickets db);
  ok_comment : forall id c, comments db !! id = Some c ->
    is_Some (tickets db !! c_ticket c) /\ 1 <= String.length (c_body c) /\ (N.of_nat (String.length (c_body c)) <= 10000)%N;
  ok_comment_keys : unique_by comment_idem (comments db);
  ok_agent : forall id a, agents db !! id = Some a -> agent_check a = true;
  ok_agent_members : unique_by agent_member (agents db);
  ok_agent_positions : unique_by agent_position (agents db);
  ok_agent_groups : unique_by agent_group (agents db)
}.

Record audit_ok (db : HdDB) : Prop := {
  ok_timeline : forall id t, tickets db !! id = Some t -> t_status t = timeline db id;
  ok_audited : forall e id, e ∈ hdAudit db -> ev_subject e = ticketSubject id -> is_Some (tickets db !! id)
}.

(** What later states keep: every ticket with its identity, every comment and every
    audit row. *)
Record kept (db db' : HdDB) : Prop := {
  kept_tickets : forall id t, tickets db !! id = Some t -> exists t', tickets db' !! id = Some t' /\ same_identity t t';
  kept_comments : comments db ⊆ comments db';
  kept_audit : hdAudit db `prefix_of` hdAudit db'
}.

Lemma same_identity_refl t : same_identity t t.
Proof. by split_and!. Qed.

Lemma same_identity_trans t1 t2 t3 : same_identity t1 t2 -> same_identity t2 t3 -> same_identity t1 t3.
Proof. unfold same_identity. intuition congruence. Qed.

Lemma kept_refl db : kept db db.
Proof. split; [|done..]. intros id t. exists t. split; [done|apply same_identity_refl]. Qed.

Lemma kept_trans db1 db2 db3 : kept db1 db2 -> kept db2 db3 -> kept db1 db3.
Proof.
  intros [H1 H2 H3] [K1 K2 K3]. split; [|by etrans..]. intros id t Ht. destruct (H1 id t Ht) as (t' & Ht' & ?).
  destruct (K1 id t' Ht') as (t'' & ? & ?). exists t''. eauto using same_identity_trans.
Qed.

Lemma change_kept db db' : change db db' -> kept db db'.
Proof.
  assert (Hid : forall id t, tickets db !! id = Some t -> exists t', tickets db !! id = Some t' /\ same_identity t t').
  { intros id t. exists t. split; [done|apply same_identity_refl]. }
  assert (Hp : forall e, hdAudit db `prefix_of` hdAudit db ++ [e]) by (intros e; by apply prefix_app_r).
  destruct 1 as [|id t e Hn|id t t' e Ht _ Hs|id c e Hn|id a e|id a a' e|ags c e]; try (split; simpl; done).
  - split; simpl; [|done..]. intros j u Hu. rewrite lookup_insert_ne by congruence. auto.
  - split; simpl; [|done..]. intros j u Hu. destruct (decide (id = j)) as [->|]; [|rewrite lookup_insert_ne by done; auto].
    rewrite lookup_insert_eq. simplify_eq. eauto.
  - split; simpl; [done| |done]. by apply insert_subseteq.
Qed.

Lemma change_tables db db' : tables_ok db -> change db db' -> tables_ok db'.
Proof.
  intros [O1 O2 O3 O4 O5 O6 O7 O8].
  destruct 1 as [|id t e Hn Hck Hlen _ Hf|id t t' e Ht Hck Hs|id c e Hn Htk Hb1 Hb2 Hf|id a e Hn Hck F1 F2 F3|id a a' e Ha E1 E2 E3 E4|ags c e Hsub];
    [by split|split; simpl; try done..].
  - intros j u [[<- <-]|[_ Hu]]%lookup_insert_Some; eauto.
  - apply unique_by_insert; [done|]. intros j b k Hb Hk1 Hk2. by destruct (Hf j b k Hb Hk1).
  - intros j c Hc. destruct (O3 j c Hc) as ([u Hu] & ?). split; [|done]. rewrite lookup_insert_ne by congruence. eauto.
  - intros j u [[<- <-]|[_ Hu]]%lookup_insert_Some; [|eauto]. split; [done|]. destruct Hs as (_ & -> & _). by eapply O1.
  - apply unique_by_insert; [done|]. intros j b k Hb Hk1 Hk2. apply (O2 j id b t k); [done..|].
    destruct Hs as (? & ? & ? & ? & ? & ? & _). unfold ticket_idem in *. congruence.
  - intros j c Hc. destruct (O3 j c Hc) as ([u Hu] & ?). split; [|done]. apply lookup_insert_is_Some'. eauto.
  - intros j u [[<- <-]|[_ Hu]]%lookup_insert_Some; eauto.
  - apply unique_by_insert; [done|]. intros j b k Hb Hk1 Hk2. by destruct (Hf j b k Hb Hk1).
  - intros j u [[<- <-]|[_ Hu]]%lookup_insert_Some; eauto.
  - apply unique_by_insert; [done|]. intros j b k Hb Hk1 Hk2. by destruct (F1 j b k Hb Hk1).
  - apply unique_by_insert; [done|]. intros j b k Hb Hk1 Hk2. by destruct (F2 j b k Hb Hk1).
  - apply unique_by_insert; [done|]. intros j b k Hb Hk1 Hk2. by destruct (F3 j b k Hb Hk1).
  - intros j u [[<- <-]|[_ Hu]]%lookup_insert_Some; [|eauto]. rewrite E4. eauto.
  - apply unique_by_insert; [done|]. intros j b k Hb Hk1 Hk2. eapply (O6 j id b a k); congruence.
  - apply unique_by_insert; [done|]. intros j b k Hb Hk1 Hk2. eapply (O7 j id b a k); congruence.
  - apply unique_by_insert; [done|]. intros j b k Hb Hk1 Hk2. eapply (O8 j id b a k); congruence.
  - intros j u Hu. eapply O5. by eapply lookup_weaken.
  - intros i j a b k Ha Hb. apply O6; by eapply lookup_weaken.
  - intros i j a b k Ha Hb. apply O7; by eapply lookup_weaken.
  - intros i j a b k Ha Hb. apply O8; by eapply lookup_weaken.
Qed.

Lemma ticketSubject_inj i j : ticketSubject i = ticketSubject j -> i = j.
Proof. unfold ticketSubject. intros H. apply uuidString_inj. by simplify_eq/=. Qed.

(** A new audit row seen from a ticket. *)
Lemma timeline_app db e id ts cs ags :
  timeline (mkHdDB ts cs ags (hdAudit db ++ [e])) id =
  if decide (ev_subject e = ticketSubject id) then default (timeline db id) (sets_status e) else timeline db id.
Proof.
  unfold timeline, events_of. cbn [hdAudit]. rewrite filter_app, omap_app, last_app. simpl. rewrite filter_cons. simpl.
  case_decide; simpl; [|done]. destruct (sets_status e); done.
Qed.

Lemma change_audit db db' : audit_ok db -> change db db' -> audit_ok db'.
Proof.
  intros [HT HA].
  assert (Hmod : forall c id, moduleSubject c <> ticketSubject id) by (intros c id H; discriminate H).
  assert (Hother : forall e c, ev_subject e = moduleSubject c -> forall ags,
    audit_ok (mkHdDB (tickets db) (comments db) ags (hdAudit db ++ [e]))).
  { intros e c He ags. split; [intros id t Ht|intros e' id [?| ->%list_elem_of_singleton]%elem_of_app]; simpl in *.
    - rewrite timeline_app, decide_False; [eauto|]. rewrite He. apply Hmod.
    - eauto.
    - rewrite He. intros H. by destruct (Hmod c id). }
  destruct 1 as [|id t e Hn Hck Hlen Ho Hf He Hse|id t t' e Ht Hck Hs He Hse|id c e Hn Htk Hb1 Hb2 Hf He Hse|id a e|id a a' e|ags c e];
    [by split|split|split|split|eauto..]; simpl.
  - intros j u [[<- <-]|[Hne Hu]]%lookup_insert_Some; rewrite timeline_app, He.
    + rewrite decide_True, Hse by done. simpl. unfold timeline. rewrite Ho. replace (events_of id (hdAudit db)) with (@nil HdEvent); [done|].
      symmetry. apply elem_of_nil_inv. intros e' [Hs' He']%list_elem_of_filter. destruct (HA e' id He' Hs'). congruence.
    + rewrite decide_False; [eauto|]. by intros ->%ticketSubject_inj.
  - intros e' j [Hin| ->%list_elem_of_singleton]%elem_of_app Hs'; [apply lookup_insert_is_Some'; eauto|].
    rewrite He in Hs'. apply ticketSubject_inj in Hs' as ->. apply lookup_insert_is_Some'. by left.
  - intros j u [[<- <-]|[Hne Hu]]%lookup_insert_Some; rewrite timeline_app, He.
    + rewrite decide_True by done. by rewrite <- (HT id t Ht).
    + rewrite decide_False; [eauto|]. by intros ->%ticketSubject_inj.
  - intros e' j [Hin| ->%list_elem_of_singleton]%elem_of_app Hs'; [apply lookup_insert_is_Some'; eauto|].
    rewrite He in Hs'. apply ticketSubject_inj in Hs' as ->. apply lookup_insert_is_Some'. by left.
  - intros j u Hu. rewrite timeline_app, Hse. case_decide; simpl; eauto.
  - intros e' j [Hin| ->%list_elem_of_singleton]%elem_of_app Hs'; [eauto|]. rewrite He in Hs'. apply ticketSubject_inj in Hs' as <-. done.
Qed.
End methods.
