(* ===== verification/HelpdeskAgents.v ===== *)
(** * The helpdesk's agents: the index and the authorization tuples

    A position or a group is made an agent in two places: a row of the index and an
    editor tuple of the company's helpdesk.  What each request, running alone, does to
    the pair. *)

From stdpp Require Import base gmap strings list.
From S2P Require Import Prelude GoStrings Tuple TupleStore StoreProps Decision Clients AuthzHTTP AuthzProps AdminClient.
From S2P Require Import OrgTree Org OrgProps ModuleKit ModuleRules Helpdesk HelpdeskHTTP HelpdeskProps HelpdeskStore.

Inductive binding : Type := BindPosition (p : UUID) | BindGroup (g : UUID).
#[export] Instance binding_eq_dec : EqDecision binding.
Proof. solve_decision. Defined.

Section agents.
Context `{UT : UUIDText} (verify : string -> option Claims) (uuid_ok : string -> bool) (authz : Service -> Prop).
Context (parseUUID : string -> option UUID).
Context (ticketHash : UUID -> string -> string -> string -> string) (commentHash : UUID -> string -> string -> string).

Abbreviation MW := (MWorld HdDB).
Abbreviation alone := (alone verify uuid_ok authz).

Definition bindingTuple (c : UUID) (b : binding) : Tuple :=
  match b with
  | BindPosition p => positionAgentTuple (uuidString c) (uuidString p)
  | BindGroup g => groupAgentTuple (uuidString c) (uuidString g)
  end.
Definition for_binding (c : UUID) (b : binding) (a : Agent) : Prop :=
  match b with BindPosition p => for_position c p a | BindGroup g => for_group c g a end.
#[local] Instance for_binding_dec c b a : Decision (for_binding c b a).
Proof. destruct b; unfold for_binding, for_position, for_group; apply _. Defined.

Definition granted (w : MW) (c : UUID) (b : binding) : Prop := bindingTuple c b ∈ tuples (w_db (w_authz w)).
Definition indexed (db : HdDB) (c : UUID) (b : binding) : Prop := exists id a, agents db !! id = Some a /\ for_binding c b a.

(** Powerful only if visible. *)
Definition visible (w : MW) (c : UUID) (b : binding) : Prop := granted w c b -> indexed (w_store w) c b.

(** The binding a request makes, or removes. *)
Definition made (req : hdRequest) : option binding :=
  match req with
  | ReqMakeAgent (Some body) =>
      if negb (exactlyOne [ma_member body; ma_position body; ma_group body]) then None
      else if negb (seqb (ma_member body) "") then None
      else if negb (seqb (ma_position body) "") then BindPosition <$> parseUUID (ma_position body)
      else BindGroup <$> parseUUID (ma_group body)
  | _ => None
  end.
Definition removed (req : hdRequest) : option binding :=
  match req with
  | ReqRemoveAgentForPosition s => BindPosition <$> parseUUID s
  | ReqRemoveAgentForGroup s => BindGroup <$> parseUUID s
  | _ => None
  end.

Definition outcome (c : UUID) (mk rm : option binding) (w : MW) (r : hdReply) (w' : MW) : Prop :=
  (forall c' b, visible w c' b -> visible w' c' b \/ (r = unavailable /\ c' = c /\ mk = Some b)) /\
  (forall b body, mk = Some b -> r = WriteData 201 body -> granted w' c b /\ indexed (w_store w') c b) /\
  (forall b, rm = Some b -> r = NoContent -> ~ granted w' c b /\ ~ indexed (w_store w') c b).

(** ** Steps that keep bindings visible

    No binding is granted anew, and none leaves the index. *)

Definition better (w w' : MW) : Prop :=
  (forall c b, granted w' c b -> granted w c b) /\ (forall c b, indexed (w_store w) c b -> indexed (w_store w') c b).

Lemma better_refl w : better w w.
Proof. done. Qed.

Lemma better_trans w1 w2 w3 : better w1 w2 -> better w2 w3 -> better w1 w3.
Proof. intros [? ?] [? ?]. split; auto. Qed.

Lemma better_visible w w' c b : better w w' -> visible w c b -> visible w' c b.
Proof. intros [Hg Hi] Hv H. auto. Qed.

Lemma better_same (w w' : MW) : agents (w_store w') = agents (w_store w) -> w_authz w' = w_authz w -> better w w'.
Proof. intros Ha Hz. unfold better, granted, indexed. by rewrite Ha, Hz. Qed.

Lemma error_outcome c mk rm w r w' : is_error r -> better w w' -> outcome c mk rm w r w'.
Proof. intros He Hb. split_and!; [left; by eapply better_visible|by intros b body _ ->|by intros b _ ->]. Qed.

Lemma better_outcome c w r w' : better w w' -> outcome c None None w r w'.
Proof. intros Hb. split_and!; [left; by eapply better_visible|done|done]. Qed.

Definition idleMethod X (m : TxEnv -> HdDB -> result hd_error (X * HdDB)) : Prop :=
  forall env db x db', m env db = Ok (x, db') -> agents db' = agents db.

Lemma idle_read {X} (f : HdDB -> result hd_error X) : idleMethod X (read f).
Proof. by intros env db x db' [_ ->]%read_ok. Qed.

Lemma idle_edit c id f event : idleMethod _ (tx (updateTicket c id f) event).
Proof.
  intros env db x db' (db1 & Hu & ->)%tx_whole. simpl. unfold updateTicket in Hu. destruct (ticketIn _ _ _); [|done].
  destruct (ticket_check _); [|done]. by injection Hu as <- <-.
Qed.

Lemma idle_CreateTicket a c m s t d k : idleMethod _ (CreateTicket ticketHash a c m s t d k).
Proof.
  intros env db [id u] db' H. unfold CreateTicket in H. destruct (validTitle t); [|done]. cbn [result_bind] in H.
  apply tx_whole in H as (db1 & Hi & ->). by apply insertTicket_ok in Hi as (-> & -> & _ & _ & _ & ->).
Qed.

Lemma idle_CreateComment a t b k : idleMethod _ (CreateComment commentHash a t b k).
Proof.
  intros env db [id u] db' H. unfold CreateComment in H. destruct (_ || _); [done|].
  apply tx_whole in H as (db1 & Hi & ->). by apply insertComment_ok in Hi as (-> & -> & _ & _ & _ & ->).
Qed.

Lemma idle_ticket X m : ticketMethod ticketHash commentHash X m -> idleMethod X m.
Proof. destruct 1; [apply idle_read|apply idle_CreateTicket|apply idle_edit..|apply idle_CreateComment]. Qed.

Definition betterCall X (c : call HdDB hd_error X) : Prop :=
  forall w x w', tables_ok (w_store w) -> exec verify uuid_ok authz c w x w' -> tables_ok (w_store w') /\ better w w'.

Lemma better_alone {A} (p : prog HdDB hd_error A) w :
  calls betterCall p -> tables_ok (w_store w) -> alone p w (fun _ w' => better w w').
Proof.
  revert w. induction p as [a|X c k IH]; intros w; simpl; [by intros|]. intros [Hc Hk] Hw x w1 Hx.
  destruct (Hc w x w1 Hw Hx) as [Hw1 Hb]. eapply alone_mono; [|by apply IH]. intros a w2. by apply better_trans.
Qed.

Lemma better_transact X (m : TxEnv -> HdDB -> result hd_error (X * HdDB)) :
  (forall env db x db', tables_ok db -> m env db = Ok (x, db') ->
     tables_ok db' /\ forall c b, indexed db c b -> indexed db' c b) -> betterCall _ (Transact m).
Proof.
  intros Hm w x w' Hw [env Hx]. destruct (m env (w_store w)) as [[a db]|e] eqn:E; destruct Hx as [_ ->]; [|done].
  destruct (Hm _ _ _ _ Hw E) as [? Hi]. split; [done|]. split; [done|exact Hi].
Qed.

Lemma better_ticket X m : ticketMethod ticketHash commentHash X m -> betterCall _ (Transact m).
Proof.
  intros Hm. apply better_transact. intros env db x db' Hdb Hx.
  split; [eapply change_tables, ticket_change; done|]. unfold indexed. by rewrite (idle_ticket _ _ Hm _ _ _ _ Hx).
Qed.

Lemma better_asking X (c : call HdDB hd_error X) : asking c -> betterCall _ c.
Proof.
  intros Hc w x w' Hw Hx. assert (Hs : w_store w' = w_store w /\ w_authz w' = w_authz w).
  { destruct c; simpl in Hx, Hc; try done; try (by subst); [by destruct Hx as [-> _]|by destruct Hx as [-> _]|by destruct Hx as [[_ ->]| ->]]. }
  destruct Hs as [Hs Hz]. split; [by rewrite Hs|]. apply better_same; [by rewrite Hs|done].
Qed.

(** ** Changing the pair *)

Lemma bindingTuple_inj c b c' b' : bindingTuple c b = bindingTuple c' b' -> c = c' /\ b = b'.
Proof.
  intros H. assert (Hc : companyModuleObjectID (uuidString c) = companyModuleObjectID (uuidString c')) by (destruct b, b'; by simplify_eq/=).
  apply append_inj_r, uuidString_inj in Hc as ->. split; [done|].
  destruct b, b'; simpl in H; try discriminate H; injection H as H%uuidString_inj; by subst.
Qed.

Lemma agentTuple_binding c kcSub c' b : agentTuple c kcSub <> bindingTuple c' b.
Proof. destruct b; intros H; discriminate H. Qed.

Lemma better_grant h cid kcSub corr : betterCall _ (GrantOrRevoke h cid "grant" [agentTuple cid kcSub] corr).
Proof.
  intros w x w' Hw (Hs & Ht & _)%grant_exec. rewrite Hs. split; [done|]. split; [|by rewrite Hs].
  intros c b. unfold granted. rewrite Ht; [done|]. intros E%list_elem_of_singleton. symmetry in E. by eapply agentTuple_binding.
Qed.

Lemma better_revoke h cid t corr : betterCall _ (GrantOrRevoke h cid "revoke" [t] corr).
Proof.
  intros w x w' Hw (Hs & Ht & _)%revoke_exec. rewrite Hs. split; [done|]. split; [|by rewrite Hs].
  intros c b. unfold granted. apply Ht.
Qed.

(** An agent row has one binding. *)
Lemma one_binding a c b c' b' : agent_check a = true -> for_binding c b a -> for_binding c' b' a -> c = c' /\ b = b'.
Proof.
  unfold agent_check, count_set. rewrite Nat.eqb_eq. destruct b, b'; intros Hk [<- Hb] [<- Hb']; simpl in Hb, Hb'; rewrite ?Hb, ?Hb' in Hk;
    simpl in Hk; destruct (a_member a); simpl in Hk; split; congruence || done || (simplify_eq; done).
Qed.

Lemma member_no_binding a c m c' b : agent_check a = true -> for_member c m a -> ~ for_binding c' b a.
Proof.
  unfold agent_check, count_set. rewrite Nat.eqb_eq. destruct b; intros Hk [_ Hm] [_ Hb]; rewrite Hm, Hb in Hk; simpl in Hk;
    [done|destruct (a_position a); done].
Qed.

Lemma upsert_indexed same (dec : forall a, Decision (same a)) new keep ev env db x db' :
  (forall a c b, same a -> for_binding c b a -> for_binding c b (keep a)) ->
  tx (upsertAgent same new keep) ev env db = Ok (x, db') ->
  (forall c b, indexed db c b -> indexed db' c b) /\
  (forall c b, (forall now, for_binding c b (new now)) -> (forall a, same a -> for_binding c b (keep a)) -> indexed db' c b).
Proof.
  intros Hkeep (db1 & Hu & ->)%tx_whole. unfold indexed, upsertAgent in *. simpl.
  destruct (find_where same (agents db)) as [[id a]|] eqn:E.
  - injection Hu as <- <-. apply find_where_Some in E as [Hi Hs]. simpl. split.
    + intros c b (j & a' & Hj & Hb). destruct (decide (j = id)) as [->|].
      * exists id, (keep a). rewrite lookup_insert_eq. split; [done|]. simplify_eq. eauto.
      * exists j, a'. by rewrite lookup_insert_ne by done.
    + intros c b _ Hb. exists id, (keep a). rewrite lookup_insert_eq. eauto.
  - destruct (_ || _) eqn:Hc; [done|]. apply orb_false_iff in Hc as [Hid%bool_decide_eq_false _]. injection Hu as <- <-. simpl. split.
    + intros c b (j & a' & Hj & Hb). exists j, a'. split; [|done]. rewrite lookup_insert_ne; [done|]. intros <-. apply Hid. eauto.
    + intros c b Hb _. exists (tx_newID env), (new (tx_now env)). by rewrite lookup_insert_eq.
Qed.

Lemma delete_indexed same (dec : forall a, Decision (same a)) ev env db x db' :
  tx (deleteAgents same) ev env db = Ok (x, db') ->
  forall c b, indexed db' c b <-> exists id a, agents db !! id = Some a /\ for_binding c b a /\ ~ same a.
Proof.
  intros (db1 & Hu & ->)%tx_whole c b. unfold indexed, deleteAgents in *. simpl. destruct (find_where same (agents db)); [|done].
  injection Hu as <- <-. simpl. split.
  - intros (id & a & [? ?]%map_lookup_filter_Some & ?). by exists id, a.
  - intros (id & a & ? & ? & ?). exists id, a. by rewrite map_lookup_filter_Some.
Qed.

Lemma better_RecordAgent a c m s g : betterCall _ (Transact (RecordAgent a c m s g)).
Proof.
  apply better_transact. intros env db x db' Hdb Hx. split; [eapply change_tables, agent_change; [done| |done]; constructor|].
  eapply upsert_indexed; [|exact Hx]. by intros a' c' [] _ Hb.
Qed.

Lemma better_RemoveAgent a c m : betterCall _ (Transact (RemoveAgent a c m)).
Proof.
  apply better_transact. intros env db x db' Hdb Hx. split; [eapply change_tables, agent_change; [done| |done]; constructor|].
  intros c' b (id & a' & Hi & Hb). eapply delete_indexed; [exact Hx|]. exists id, a'. split_and!; [done..|]. intros Hm.
  eapply member_no_binding; [|exact Hm|exact Hb]. by eapply ok_agent.
Qed.

(** ** Making and removing a binding *)

Lemma alone_storeCall {X} (m : TxEnv -> HdDB -> result hd_error (X * HdDB)) (w : MW) Q :
  (forall e, Q (Err (writeStoreError e)) w) ->
  (forall env x db, m env (w_store w) = Ok (x, db) -> Q (Ok x) (mkMWorld db (w_authz w) (w_sent w))) -> alone (storeCall m) w Q.
Proof.
  intros He Hk x w' [env Hx]. destruct (m env (w_store w)) as [[a db]|e] eqn:E; destruct Hx as [-> ->]; simpl; eauto.
Qed.

Section pair.
Context (rc : requestContext) (b : binding) (corr : string).
Abbreviation c := (rc_CompanyID rc).
Context (record : TxEnv -> HdDB -> result hd_error ((UUID * Agent) * HdDB)) (remove : TxEnv -> HdDB -> result hd_error (unit * HdDB)).
Context (Hrecord : forall env db x db', tables_ok db -> record env db = Ok (x, db') ->
  tables_ok db' /\ (forall c' b', indexed db c' b' -> indexed db' c' b') /\ indexed db' c b).
Context (Hremove : forall env db x db', tables_ok db -> remove env db = Ok (x, db') ->
  (forall c' b', (c', b') <> (c, b) -> indexed db c' b' -> indexed db' c' b') /\ ~ indexed db' c b).

Lemma make_alone w : tables_ok (w_store w) ->
  alone (orReply (storeCall record) (grantOrRemove rc (bindingTuple c b) corr remove)) w (outcome c (Some b) None w).
Proof.
  intros Hw. apply alone_orReply, alone_storeCall; [intros e; apply error_outcome; [apply store_error|done]|].
  intros env a db Hr. destruct (Hrecord _ _ _ _ Hw Hr) as (Hdb & Hkeep & Hin). intros ok w2 Hx. apply grant_exec in Hx as (Hs & Ht & _ & Hok). simpl in *.
  assert (Hg : forall c' b', (c', b') <> (c, b) -> granted w2 c' b' -> granted w c' b').
  { intros c' b' Hne. unfold granted. rewrite Ht; [done|]. intros [-> ->]%list_elem_of_singleton%bindingTuple_inj. done. }
  assert (Hvis : forall c' b', (c', b') <> (c, b) -> visible w c' b' -> granted w2 c' b' -> indexed db c' b') by (intros c' b' Hne Hv ?; eauto).
  destruct ok; simpl.
  - split_and!; [|intros b' body [= <-] _; split; [apply Hok; [done|left]|by rewrite Hs]|done]. intros c' b' Hv. left. intros Hg'. rewrite Hs.
    destruct (decide ((c', b') = (c, b))) as [[= -> ->]|]; [done|by apply Hvis].
  - intros x w3 [env' Hx]. split_and!; [|done|done]. intros c' b' Hv.
    destruct (decide ((c', b') = (c, b))) as [[= -> ->]|Hne]; [by right|left]. unfold visible, granted.
    destruct (remove env' (w_store w2)) as [[[] db3]|e] eqn:E; destruct Hx as [_ ->]; simpl; intros Hg'.
    + rewrite Hs in E. apply (proj1 (Hremove _ _ _ _ Hdb E) _ _ Hne). eauto.
    + rewrite Hs. eauto.
Qed.

Lemma remove_alone f w : tables_ok (w_store w) ->
  alone (revokeAndRemove rc (read f) (bindingTuple c b) corr remove) w (outcome c None (Some b) w).
Proof.
  intros Hw. apply alone_orReply, alone_storeCall; [intros e; apply error_outcome; [apply store_error|done]|].
  intros env n db [_ ->]%read_ok. destruct (0 <? n)%nat; [by apply error_outcome|]. intros ok w2 Hx.
  replace (mkMWorld (w_store w) (w_authz w) (w_sent w)) with w in Hx by (by destruct w).
  assert (Hb2 : better w w2) by (eapply better_revoke; [|exact Hx]; done).
  apply revoke_exec in Hx as (Hs & Ht & _ & Hok). destruct ok; [|by apply error_outcome]. cbn [negb].
  apply alone_orReply, alone_storeCall; [intros e; apply error_outcome; [apply store_error|done]|].
  intros env' [] db3 Hr. rewrite Hs in Hr. destruct (Hremove _ _ _ _ Hw Hr) as [Hkeep Hout].
  split_and!; [|done|]; simpl.
  - intros c' b' Hv. left. intros Hg. change (granted w2 c' b') in Hg. simpl. apply Hkeep; [|apply Hv, Hb2, Hg].
    intros [= -> ->]. eapply Hok; [done|left|exact Hg].
  - intros b' [= <-] _. split; [apply Hok; [done|left]|done].
Qed.
End pair.

(** The store's pairs of methods are such pairs. *)
Lemma remove_spec c b same (dec : forall a, Decision (same a)) ev env db x db' :
  (forall a, same a <-> for_binding c b a) -> tables_ok db -> tx (deleteAgents same) ev env db = Ok (x, db') ->
  (forall c' b', (c', b') <> (c, b) -> indexed db c' b' -> indexed db' c' b') /\ ~ indexed db' c b.
Proof.
  intros Hsame Hdb Hx. split.
  - intros c' b' Hne (id & a & Hi & Hb). eapply delete_indexed; [exact Hx|]. exists id, a. split_and!; [done..|]. rewrite Hsame. intros Hb'.
    destruct (one_binding a c b c' b') as [-> ->]; [by eapply ok_agent|done..].
  - intros (id & a & _ & Hb & Hn)%(delete_indexed _ _ _ _ _ _ _ Hx). by apply Hn, Hsame.
Qed.

Lemma record_spec c b same (dec : forall a, Decision (same a)) new keep ev env db x db' :
  (forall a c' b', same a -> for_binding c' b' a -> for_binding c' b' (keep a)) ->
  (forall now, for_binding c b (new now)) -> (forall a, same a -> for_binding c b (keep a)) ->
  tables_ok db -> (tx (upsertAgent same new keep) ev env db = Ok (x, db') -> change db db') ->
  tx (upsertAgent same new keep) ev env db = Ok (x, db') ->
  tables_ok db' /\ (forall c' b', indexed db c' b' -> indexed db' c' b') /\ indexed db' c b.
Proof.
  intros Hkeep Hnew Hk Hdb Hch Hx. destruct (upsert_indexed _ _ _ _ _ _ _ _ _ Hkeep Hx) as [Hi Hin].
  split_and!; [by eapply change_tables, Hch|done|by apply Hin].
Qed.

(** ** The routes *)

Lemma alone_orBadRequest {A} (o : option A) (k : A -> prog HdDB hd_error hdReply) (w : MW) c mk rm :
  (forall a, o = Some a -> alone (k a) w (outcome c mk rm w)) -> alone (orReply (orBadRequest o) k) w (outcome c mk rm w).
Proof. intros Hk. apply alone_orReply. destruct o; simpl; [by apply Hk|by apply error_outcome]. Qed.

Lemma alone_withAuth header companyId ticketId featureKey next w mk rm :
  tables_ok (w_store w) ->
  (forall rc, parseUUID companyId = Some (rc_CompanyID rc) -> alone (next rc) w (outcome (rc_CompanyID rc) mk rm w)) ->
  alone (withAuth verify parseUUID header companyId ticketId featureKey next) w
    (fun r w' => forall c, parseUUID companyId = Some c -> outcome c mk rm w r w').
Proof.
  intros Hw Hnext. unfold withAuth. destruct (Verify _ _); [|by intros c _; apply error_outcome].
  destruct (parseUUID companyId) as [c|]; [|by intros c _; apply error_outcome].
  assert (Hgo : forall id, alone (next (mkContext s header c id)) w (fun r w' => forall c', Some c = Some c' -> outcome c' mk rm w r w')).
  { intros id. eapply alone_mono; [|by apply Hnext]. by intros r w' Ho c' [= <-]. }
  intros x w' [-> _]. destruct x as [[[] reason]|]; simpl; [|by intros c' _; apply error_outcome..].
  destruct ticketId as [s'|]; [|apply Hgo]. destruct (parseUUID s'); [apply Hgo|by intros c' _; apply error_outcome].
Qed.

Lemma better_handler p w c : calls betterCall p -> tables_ok (w_store w) -> alone p w (outcome c None None w).
Proof. intros Hp Hw. eapply alone_mono; [|by apply better_alone]. intros r w'. apply better_outcome. Qed.

Lemma storeCall_calls (P : forall X : Type, call HdDB hd_error X -> Prop) {X} (m : TxEnv -> HdDB -> result hd_error (X * HdDB)) : P _ (Transact m) ->
  calls P (storeCall m).
Proof. by split. Qed.

Lemma make_agent_better s rc : calls betterCall (handleMakeMemberAgent parseUUID s rc).
Proof.
  apply calls_orReply; [done|]. intros id. split; [by apply better_asking|]. intros member. cbv zeta. destruct (seqb _ ""); [done|].
  apply calls_bind; [split; [apply better_grant|done]|]. intros []; [|done].
  apply calls_orReply; [apply storeCall_calls, better_RecordAgent|done].
Qed.

Lemma remove_agent_better s rc : calls betterCall (handleRemoveAgent parseUUID s rc).
Proof.
  apply calls_orReply; [done|]. intros id. split; [by apply better_asking|]. intros [member|]; [|done].
  apply calls_orReply; [apply storeCall_calls, better_ticket; constructor|]. intros n. destruct (0 <? n)%nat; [done|].
  apply calls_bind; [destruct (negb _); [split; [apply better_revoke|done]|done]|]. intros []; [|done].
  apply calls_orReply; [apply storeCall_calls, better_RemoveAgent|done].
Qed.

Lemma assign_better body rc : calls betterCall (handleAssignTicket parseUUID body rc).
Proof.
  pose proof (assign_calls ticketHash commentHash betterCall better_ticket better_asking parseUUID rc) as [Hp Hg].
  apply calls_orReply; [by destruct body|]. intros req. destruct (negb (exactlyOne _)); [done|].
  apply calls_orReply; [apply storeCall_calls, better_ticket; constructor|]. intros _.
  destruct (negb _); [|destruct (negb _); [apply Hp|apply Hg]].
  apply calls_orReply; [by destruct (parseUUID _)|]. intros id. split; [by apply better_asking|]. intros member. cbv zeta.
  destruct (seqb _ ""); [done|].
  assert (Hdo : forall kcSub, calls betterCall (orReply (storeCall (AssignTicket (rc_Subject rc) (rc_CompanyID rc) (rc_TicketID rc) id kcSub))
    (fun t => bind (notify rc kcSub ("Ticket assigned: " +:+ t_title t.2) ("Ticket '" +:+ t_title t.2 +:+ "' was assigned to you."))
       (fun _ => replyTicket rc 200 t "admin")))).
  { intros kcSub. apply calls_orReply; [apply storeCall_calls, better_ticket; constructor|]. intros t.
    apply calls_bind; [by apply notify_calls, better_asking|]. intros _. by apply reply_calls, better_asking. }
  split; [apply better_ticket; constructor|]. intros [a|e]; [apply Hdo|]. destruct e; try done; [].
  apply calls_bind; [split; [apply better_grant|done]|]. intros []; [|done].
  apply calls_orReply; [apply storeCall_calls, better_RecordAgent|]. intros _. apply Hdo.
Qed.

Ltac binding_pair := first
  [ intros; eapply record_spec; [| | |done| |eassumption]; [by intros ? ? [] _|done|by intros ? [? ?]; split|by apply agent_change; constructor]
  | intros; by eapply remove_spec; [| |eassumption] ].

Lemma serve_alone header companyId req w :
  tables_ok (w_store w) ->
  alone (serve verify parseUUID ticketHash commentHash header companyId req) w
    (fun r w' => forall c, parseUUID companyId = Some c -> outcome c (made req) (removed req) w r w').
Proof.
  intros Hw. destruct (managesAgents req) eqn:Hm.
  2:{ eapply alone_mono; [|apply better_alone; [by apply (ticket_routes_calls _ _ betterCall better_ticket better_asking)|done]].
      intros r w' Hb c _. destruct req; try discriminate Hm; by apply better_outcome. }
  destruct req as [| | | | |ticketId body| | | | | | |body|s|s|s]; try discriminate Hm; apply alone_withAuth; try done; intros rc Hc.
  - by apply better_handler; [apply assign_better|].
  - apply alone_orBadRequest. intros req ->. unfold made. destruct (negb (exactlyOne _)); [by apply error_outcome|].
    destruct (negb _); [by apply better_handler; [apply make_agent_better|]|].
    destruct (negb _); (apply alone_orBadRequest; intros id ->; intros x w' ->; simpl).
    + destruct x as [p|]; [|by apply error_outcome]. destruct (negb _); [by apply error_outcome|].
      apply (make_alone rc (BindPosition id)); [binding_pair..|done].
    + destruct x as [g|]; [|by apply error_outcome]. destruct (negb _); [by apply error_outcome|].
      apply (make_alone rc (BindGroup id)); [binding_pair..|done].
  - apply alone_orBadRequest. intros id Hid. unfold removed. rewrite Hid. apply (remove_alone rc (BindPosition id)); [binding_pair|done].
  - apply alone_orBadRequest. intros id Hid. unfold removed. rewrite Hid. apply (remove_alone rc (BindGroup id)); [binding_pair|done].
  - by apply better_handler; [apply remove_agent_better|].
Qed.
End agents.
