(* ===== verification/HelpdeskClaims.v ===== *)
(** * The helpdesk service: its guarantees

    Every request's changes and replies are authorised, the tables and the audit
    timeline keep their invariants under any interleaving of requests, and the index of
    agents keeps up with the authorization tuples. *)

From stdpp Require Import base gmap strings list relations.
From S2P Require Import Prelude GoStrings Tuple TupleStore StoreProps Decision Clients AuthzHTTP AuthzProps AuthzClaims AdminClient.
From S2P Require Import OrgTree Org OrgProps OrgClaims ModuleKit ModuleRules Helpdesk HelpdeskHTTP HelpdeskProps HelpdeskStore HelpdeskAgents.

(** ** A small helpdesk

    ann administers it, bob is a member; ids are written in unary. *)

Section demo.
#[local] Instance hdUUIDText : UUIDText := demoUUIDText.

Definition hdService (tbl : Table) : Service :=
  let svc := demoService tbl in
  mkService (svc_state svc) (svc_capability svc) (svc_company svc) (svc_membership svc) (Ok {["helpdesk" := true]}) None None (Ok [])
    (svc_db svc) (svc_MemberOfCompany svc) (svc_AnchorOf svc).

Definition hdParse (s : string) : option UUID :=
  if seqb (String.substring 0 1 s) "u" then Some (N.of_nat (String.length s - 1)) else None.

Definition hdTuples : Table :=
  {[mkTuple "company_module" (companyModuleObjectID (uuidString 1%N)) "admin" "user" "ann" "";
    mkTuple "position" (uuidString 1%N) "company" "company" (uuidString 1%N) ""]}.

Definition hdAnswers : Answers :=
  mkAnswers (fun n => mkTxEnv false (fun _ => false) (Z.of_nat n) (fun _ => N.of_nat (n + 20))) (hdService hdTuples) (fun _ => false) (fun _ => true) (fun _ => false)
    (fun _ _ => Some (uuidString 5%N, true, true)) (fun _ => Some (mkOrgMember (uuidString 1%N) "Bob" true "bob"))
    (fun _ => Some (mkOrgPosition (uuidString 1%N) "Support")) (fun _ => Some None) (fun _ => None) (fun _ => None) (fun _ => true).

Definition hdServe (header : string) (req : hdRequest) : prog HdDB hd_error hdReply :=
  serve demoVerify hdParse (fun _ _ a b => a +:+ b) (fun _ _ a => a) header (uuidString 1%N) req.

Definition hdEmpty : HdDB := mkHdDB ∅ ∅ ∅ [].
Definition hdWorld : MWorld HdDB := mkMWorld hdEmpty (mkWorld (mkDB hdTuples [] ∅) []) [].
Definition hdDo (an : Answers) (header : string) (req : hdRequest) (n : nat) (w : MWorld HdDB) :=
  perform demoVerify demoUUID an noFaults n (hdServe header req) w.
End demo.


(** ** Authorised requests *)

Section claims.
Context `{UT : UUIDText} (verify : string -> option Claims) (uuid_ok : string -> bool) (authz : Service -> Prop).
Context (parseUUID : string -> option UUID).
Context (ticketHash : UUID -> string -> string -> string -> string) (commentHash : UUID -> string -> string -> string).

Abbreviation MW := (MWorld HdDB).
Abbreviation serve := (serve verify parseUUID ticketHash commentHash).
Abbreviation run := (run verify uuid_ok authz).

Lemma run_serve between header companyId req w steps r w' :
  run between (serve header companyId req) w steps r w' ->
  let seen v := v ∈ steps.*1 in
  Forall (fun s => step_guarded verify authz parseUUID seen header companyId req (w_store s.1) (w_store s.2)) steps /\
  reply_guarded verify authz parseUUID seen header companyId req r.
Proof. intros Hr seen. refine (run_safe _ _ _ seen _ _ _ _ _ _ _ _ Hr _ (serve_safe _ _ _ _ _ _ _ _ _ _)). by apply Forall_forall. Qed.

(** C22: who changes tickets. Whatever happens between the calls of a request, each of
    its steps leaves the store as it was or is made for a verified subject whom the
    authorization service let use the route's feature in the path's company; and it
    then creates an open, unassigned ticket of that company reported by the caller;
    sets the status of the path's ticket along an edge of the status machine from a
    status the request saw, the caller being an administrator, the assignee (directly,
    or as holder or group member by the engine) for work, or the reporter for closing
    and reopening; assigns the path's ticket, for an administrator; adds a comment of
    the caller to a ticket the caller sees; or changes the agents, for an
    administrator. *)
Theorem ticket_changes_authorized between header companyId req w steps r w' :
  run between (serve header companyId req) w steps r w' ->
  Forall (fun s => step_guarded verify authz parseUUID (fun v => v ∈ steps.*1) header companyId req
                     (w_store s.1) (w_store s.2)) steps.
Proof. intros Hr. by apply (run_serve _ _ _ _ _ _ _ _ Hr). Qed.

(** Who reads tickets. A reply of the service is an error, or carries only what a
    verified subject with the route's feature may see: tickets of the path's company
    that the caller administers, works on, reported or is assigned to; comments and
    audit rows of the path's ticket if the caller sees it; agents, positions and groups
    for an administrator. *)
Theorem ticket_reads_authorized between header companyId req w steps r w' :
  run between (serve header companyId req) w steps r w' ->
  reply_guarded verify authz parseUUID (fun v => v ∈ steps.*1) header companyId req r.
Proof. intros Hr. by apply (run_serve _ _ _ _ _ _ _ _ Hr). Qed.

(** ** Requests side by side

    The service runs the requests it is given; a step is one call of one of them, the
    arrival of another, or anything the other services do. *)

Abbreviation pool := (list (prog HdDB hd_error hdReply) * MW)%type.

Inductive advance : pool -> pool -> Prop :=
| adv_arrive header companyId req ps w : advance (ps, w) (serve header companyId req :: ps, w)
| adv_call i ps w X (c : call HdDB hd_error X) k x w' :
    ps !! i = Some (Call c k) -> exec verify uuid_ok authz c w x w' -> advance (ps, w) (<[i := k x]> ps, w')
| adv_others ps w aw sent : advance (ps, w) (ps, mkMWorld (w_store w) aw sent).

Abbreviation all_stored := (Forall (calls (storedCall ticketHash commentHash) (A := hdReply))).

(** A call changes the store as a method does. *)
Lemma exec_change {X} (c : call HdDB hd_error X) w x w' :
  storedCall ticketHash commentHash X c ->
  exec verify uuid_ok authz c w x w' -> change (w_store w) (w_store w').
Proof.
  destruct c; simpl; intros Hm Hx; try (subst; constructor).
  - destruct Hx as [env Hx]. destruct (m env (w_store w)) as [[a db]|e] eqn:E; destruct Hx as [_ ->]; [|constructor].
    by eapply method_change.
  - destruct Hx as [-> _]. constructor.
  - destruct Hx as [-> _]. constructor.
  - destruct Hx as [[_ ->]|(? & ? & ? & ? & _ & _ & _ & ->)]; constructor.
  - destruct Hx as [[_ ->]| ->]; constructor.
Qed.

Lemma advance_change s s' : advance s s' -> all_stored s.1 -> all_stored s'.1 /\ change (w_store s.2) (w_store s'.2).
Proof.
  destruct 1 as [header companyId req ps w|i ps w X c k x w' Hi Hx|ps w aw sent]; simpl; intros Hs.
  - split; [|constructor]. constructor; [apply serve_stored|done].
  - pose proof (Forall_lookup_1 _ _ _ _ Hs Hi) as [Hm Hk]. split; [by apply Forall_insert|by eapply exec_change].
  - split; [done|constructor].
Qed.

Lemma advances s s' : rtc advance s s' -> all_stored s.1 ->
  all_stored s'.1 /\ kept (w_store s.2) (w_store s'.2) /\
  (tables_ok (w_store s.2) -> tables_ok (w_store s'.2)) /\ (audit_ok (w_store s.2) -> audit_ok (w_store s'.2)).
Proof.
  induction 1 as [s|s s1 s' H1 _ IH]; intros Hs; [by split_and!; [|apply kept_refl|..]|].
  destruct (advance_change _ _ H1 Hs) as [Hs1 Hc]. destruct (IH Hs1) as (? & ? & ? & ?).
  split_and!; [done|by eapply kept_trans; [apply change_kept|]|intros; eauto using change_tables|intros; eauto using change_audit].
Qed.

Lemma empty_ok : tables_ok (mkHdDB ∅ ∅ ∅ []) /\ audit_ok (mkHdDB ∅ ∅ ∅ []).
Proof.
  split; split; simpl; try (intros i a H; by rewrite lookup_empty in H); try (intros i j a b k H; by rewrite lookup_empty in H).
  intros e id H. by apply elem_of_nil in H.
Qed.

(** C23: the tables of the service under any interleaving. From empty tables, in every
    state that any requests, interleaved call by call, reach: every ticket's status is
    one of the four and is the one its audit rows lead to; it has at most one assignee
    and a title of 1 to 200 bytes; no two tickets of a company and reporter, and no two
    comments of a ticket and author, share an idempotency key; comments are on tickets
    that exist and have 1 to 10000 bytes; every agent row has exactly one binding and no
    two rows of a company the same; audit rows are about tickets that exist. And later
    states keep every ticket with its company, title, description, reporter and key,
    every comment, and every audit row in its place. *)
Theorem helpdesk_tables_invariant w0 s s' :
  w_store w0 = mkHdDB ∅ ∅ ∅ [] -> rtc advance ([], w0) s -> rtc advance s s' ->
  tables_ok (w_store s.2) /\ audit_ok (w_store s.2) /\ kept (w_store s.2) (w_store s'.2).
Proof.
  intros H0 H1 H2. destruct (advances _ _ H1) as (Hs & _ & Ht & Ha); [constructor|]. simpl in Ht, Ha. rewrite H0 in Ht, Ha.
  destruct empty_ok as [? ?]. split_and!; auto. by apply advances.
Qed.

(** ** Agents *)

(** Agents are visible. A request running alone, in a state where every agent row
    has exactly one binding, keeps every position and group that holds the helpdesk's
    editor tuple in the agents index, except the one a make-agent request names when
    it answers 503. Made with 201, the binding has both its tuple and its row; removed
    with 204, neither. *)
Theorem agents_visible header companyId req w steps r w' c :
  tables_ok (w_store w) -> run eq (serve header companyId req) w steps r w' -> parseUUID companyId = Some c ->
  (forall c' b, visible w c' b -> visible w' c' b \/ (r = unavailable /\ c' = c /\ made parseUUID req = Some b)) /\
  (forall b body, made parseUUID req = Some b -> r = WriteData 201 body -> granted w' c b /\ indexed (w_store w') c b) /\
  (forall b, removed parseUUID req = Some b -> r = NoContent -> ~ granted w' c b /\ ~ indexed (w_store w') c b).
Proof.
  intros Hw Hr Hc. by apply (run_alone _ _ _ _ _ _ _ _ _ Hr (serve_alone verify uuid_ok authz parseUUID ticketHash commentHash header companyId req w Hw)).
Qed.
End claims.

(** ** Witnesses *)

Section witnesses.
#[local] Existing Instance hdUUIDText.

Definition hdCreate : hdRequest := ReqCreateTicket (Some (mkCreateTicket "printer" "jam")) "".
Definition hdCreated := hdDo hdAnswers "Bearer bob" hdCreate 0 hdWorld.

Lemma hdDo_run an header req n w :
  let res := hdDo an header req n w in
  run demoVerify demoUUID (fun _ => True) eq (hdServe header req) w res.1.2 res.1.1 res.2.
Proof. intros res. apply (perform_run _ _ _ an noFaults n); [done|]. fold (hdDo an header req n w). fold res. by destruct res as [[]]. Qed.

Lemma ticket_changes_authorized_witness :
  tickets (w_store hdCreated.2) !! 22%N <> None /\
  Forall (fun s => step_guarded demoVerify (fun _ => True) hdParse (fun v => v ∈ hdCreated.1.2.*1) "Bearer bob" (uuidString 1%N) hdCreate
                     (w_store s.1) (w_store s.2)) hdCreated.1.2.
Proof.
  split; [vm_compute; discriminate|].
  apply (ticket_changes_authorized demoVerify demoUUID (fun _ => True) hdParse (fun _ _ a b => a +:+ b) (fun _ _ a => a) eq
           "Bearer bob" (uuidString 1%N) hdCreate hdWorld hdCreated.1.2 hdCreated.1.1 hdCreated.2).
  exact (hdDo_run hdAnswers "Bearer bob" hdCreate 0 hdWorld).
Defined.

(** bob's ticket, resolved. *)
Definition hdResolved : MWorld HdDB :=
  mkMWorld (mkHdDB {[22%N := mkTicket 1 "printer" "jam" StatusResolved 5 "bob" None None None None None None None None 2 2]} ∅ ∅ [])
    (w_authz hdWorld) [].
Definition hdRead := hdDo hdAnswers "Bearer bob" (ReqListTickets "mine" "") 0 hdResolved.

Lemma ticket_reads_authorized_witness :
  (match hdRead.1.1 with WriteData _ (BTickets l) => tw_id <$> l | _ => [] end) = [22%N] /\
  reply_guarded demoVerify (fun _ => True) hdParse (fun v => v ∈ hdRead.1.2.*1) "Bearer bob" (uuidString 1%N)
    (ReqListTickets "mine" "") hdRead.1.1.
Proof.
  split; [vm_compute; reflexivity|].
  apply (ticket_reads_authorized demoVerify demoUUID (fun _ => True) hdParse (fun _ _ a b => a +:+ b) (fun _ _ a => a) eq
           "Bearer bob" (uuidString 1%N) (ReqListTickets "mine" "") hdResolved hdRead.1.2 hdRead.1.1 hdRead.2).
  exact (hdDo_run hdAnswers "Bearer bob" (ReqListTickets "mine" "") 0 hdResolved).
Defined.

(** Two requests side by side, a call each in turn. *)
Definition hdPool : list (prog HdDB hd_error hdReply) := [hdServe "Bearer bob" hdCreate; hdServe "Bearer ann" hdCreate].
Abbreviation hdAdvance := (advance demoVerify demoUUID (fun _ => True) hdParse (fun _ _ a b => a +:+ b) (fun _ _ a => a)).
Definition hdSide := interleave demoVerify demoUUID hdAnswers noFaults [0; 1; 0; 1; 0; 1] 0 (hdPool, hdWorld).

Lemma helpdesk_tables_invariant_witness :
  tables_ok (w_store hdSide.2) /\ audit_ok (w_store hdSide.2) /\ kept (w_store hdSide.2) (w_store hdSide.2).
Proof.
  apply (helpdesk_tables_invariant demoVerify demoUUID (fun _ => True) hdParse (fun _ _ a b => a +:+ b) (fun _ _ a => a) hdWorld hdSide hdSide);
    [reflexivity| |apply rtc_refl].
  apply (rtc_l hdAdvance _ _ _ (adv_arrive _ _ _ _ _ _ "Bearer ann" (uuidString 1%N) hdCreate [] hdWorld)).
  apply (rtc_l hdAdvance _ _ _ (adv_arrive _ _ _ _ _ _ "Bearer bob" (uuidString 1%N) hdCreate [_] hdWorld)).
  apply (interleave_steps _ _ (fun _ => True)); [exact (adv_call _ _ _ _ _ _)|exact I].
Defined.

Definition hdMake : hdRequest := ReqMakeAgent (Some (mkMakeAgent "" (uuidString 1%N) "")).
Definition hdMade := hdDo hdAnswers "Bearer ann" hdMake 0 hdWorld.

Lemma agents_visible_witness : granted hdMade.2 1%N (BindPosition 1) /\ indexed (w_store hdMade.2) 1%N (BindPosition 1).
Proof.
  destruct (agents_visible demoVerify demoUUID (fun _ => True) hdParse (fun _ _ a b => a +:+ b) (fun _ _ a => a)
    "Bearer ann" (uuidString 1%N) hdMake hdWorld hdMade.1.2 hdMade.1.1 hdMade.2 1%N) as (_ & H & _).
  - apply empty_ok.
  - exact (hdDo_run hdAnswers "Bearer ann" hdMake 0 hdWorld).
  - reflexivity.
  - refine (H (BindPosition 1) (match hdMade.1.1 with WriteData _ b => b | _ => BTier "" end) _ _); vm_compute; reflexivity.
Defined.

(** ** Where the code falls short of its comments *)

(** A binding made again while the authorization service is down: the first half of
    the request finds the row, the second deletes it, and the tuple stays. *)
Definition hdBound : MWorld HdDB :=
  mkMWorld (mkHdDB ∅ ∅ {[22%N := mkAgent 1 None None (Some 1%N) (Some "Support") None None "ann" 2]} [])
    (mkWorld (mkDB ({[bindingTuple 1%N (BindPosition 1)]} ∪ hdTuples) [] ∅) []) [].
Definition hdDown : Answers :=
  mkAnswers (an_env hdAnswers) (an_authz hdAnswers) (an_canFails hdAnswers) (fun _ => false) (an_lost hdAnswers) (an_memberBy hdAnswers)
    (an_member hdAnswers) (an_position hdAnswers) (an_holder hdAnswers) (an_group hdAnswers) (an_groupMembers hdAnswers) (an_notified hdAnswers).
Definition hdAgain := hdDo hdDown "Bearer ann" hdMake 0 hdBound.

Example rebinding_hides_agent :
  (hdAgain.1.1, bool_decide (bindingTuple 1%N (BindPosition 1) ∈ tuples (w_db (w_authz hdAgain.2))), agents (w_store hdAgain.2)) =
  (unavailable, true, ∅).
Proof. vm_compute. reflexivity. Qed.

(** The reporter closes and reopens at once: both requests see the ticket resolved, and
    the second write takes it from closed to open, which is no edge of the machine. *)
Definition hdRace :=
  interleave demoVerify demoUUID hdAnswers noFaults [1; 1; 1; 1; 0; 0; 0; 0; 0; 1] 0
    ([hdServe "Bearer bob" (ReqTransitionStatus (uuidString 22%N) (Some StatusClosed));
      hdServe "Bearer bob" (ReqTransitionStatus (uuidString 22%N) (Some StatusOpen))], hdResolved).

Example status_race :
  (ev_payload <$> hdAudit (w_store hdRace.2), t_status <$> tickets (w_store hdRace.2) !! 22%N) =
  ([[("from", StatusResolved); ("to", StatusClosed)]; [("from", StatusResolved); ("to", StatusOpen)]], Some StatusOpen) /\
  validEdges StatusClosed StatusOpen = false.
Proof. split; vm_compute; reflexivity. Qed.
End witnesses.
