(* ===== verification/Notification.v ===== *)
(** * The notification store

    modules/notification/service/store.go and the store half of worker.go over the
    tables of the module's migrations: channels and their subscriptions, messages with
    one inbox row per recipient, and the leased delivery jobs.  Times are microseconds.
    A transaction's writes and the reads among them are one step; the reads before its
    first write are steps of their own. *)

From stdpp Require Import base gmap strings list sorting.
From Stdlib Require Import Ascii.
From S2P Require Import Prelude GoStrings OrgTree Org ModuleKit.

Inductive nt_error : Type :=
| NtValidation (field : string)
| WebhookPolicyError
| ErrConflict
| ErrChannelNotFound
| ErrMessageNotFound
| ErrRecipientNotFound
| NtIdempotencyConflict
| ErrLeaseLost
| NtDatabase.

(** ** Rows *)

Record Channel := mkChannel {
  ch_company : UUID; ch_key : string; ch_label : string; ch_kind : string; ch_target : option string; ch_created : Z
}.

Record Subscription := mkSubscription { sub_email : option string; sub_muted : bool }.

Record Message := mkMessage {
  m_company : UUID; m_channel : UUID; m_subjectLine : string; m_body : string; m_createdBy : string;
  m_key : option string; m_hash : option string; m_created : Z
}.

Record DeliveryJob := mkJob {
  j_message : UUID;
  j_kind : string;
  j_target : string;
  j_status : string;
  j_attempts : Z;
  j_leasedUntil : option Z;
  j_lastError : option string;
  j_token : option UUID;
  j_group : string;
  j_created : Z
}.

Record NtEvent := mkNtEvent { ne_actor : string; ne_action : string; ne_subject : string }.

(** Subscriptions are keyed by channel and subject, inbox rows by message and subject;
    an inbox row is the time it was read. *)
Record NtDB := mkNtDB {
  channels : gmap UUID Channel;
  subscriptions : gmap (UUID * string) Subscription;
  messages : gmap UUID Message;
  recipients : gmap (UUID * string) (option Z);
  jobs : gmap UUID DeliveryJob;
  ntAudit : list NtEvent
}.

Definition with_jobs (db : NtDB) js := mkNtDB (channels db) (subscriptions db) (messages db) (recipients db) js (ntAudit db).
Definition with_channels (db : NtDB) cs := mkNtDB cs (subscriptions db) (messages db) (recipients db) (jobs db) (ntAudit db).
Definition with_subscriptions (db : NtDB) ss := mkNtDB (channels db) ss (messages db) (recipients db) (jobs db) (ntAudit db).
Definition with_messages (db : NtDB) ms := mkNtDB (channels db) (subscriptions db) ms (recipients db) (jobs db) (ntAudit db).
Definition with_recipients (db : NtDB) rs := mkNtDB (channels db) (subscriptions db) (messages db) rs (jobs db) (ntAudit db).
Definition with_ntAudit (db : NtDB) a := mkNtDB (channels db) (subscriptions db) (messages db) (recipients db) (jobs db) a.

Abbreviation NtTx A := (TxEnv -> NtDB -> result nt_error (A * NtDB)).

Definition nread {A} (f : NtDB -> result nt_error A) : NtTx A := fun env db =>
  if tx_broken env then Err NtDatabase else let! a := f db in Ok (a, db).

(** A transaction: its statements, then the audit row. *)
Definition audited {A} (m : NtTx A) (event : A -> NtEvent) : NtTx A := fun env db =>
  if tx_broken env then Err NtDatabase
  else let! r := m env db in Ok (r.1, with_ntAudit r.2 (ntAudit r.2 ++ [event r.1])).

(** ** Validation *)

(** First character in [a-z], the others in [a-z0-9_-], within the lengths. *)
Definition lowerStart (c : ascii) : bool := let n := nat_of_ascii c in (97 <=? n)%nat && (n <=? 122)%nat.
Definition keyChar (c : ascii) : bool :=
  let n := nat_of_ascii c in lowerStart c || (48 <=? n)%nat && (n <=? 57)%nat || Ascii.eqb c "_" || Ascii.eqb c "-".
Definition matchesKey (lo hi : nat) (s : string) : bool :=
  match s with
  | String c rest => lowerStart c && all_chars keyChar rest && (lo <=? String.length rest)%nat && (String.length rest <=? hi)%nat
  | EmptyString => false
  end.

(** [channelKeyPattern] and [eventsSourceModulePattern] *)
Definition channelKeyPattern : string -> bool := matchesKey 1 63.
Definition eventsSourceModulePattern : string -> bool := matchesKey 0 55.

(** [validKind] *)
Definition validKind (kind : string) : bool := seqb kind "in_app" || seqb kind "email" || seqb kind "webhook".

(** [validateSubjectLineAndBody]; a rune below 0x20, or 0x7f, is that byte. *)
Definition controlChar (c : ascii) : bool := let n := nat_of_ascii c in (n <? 32)%nat || (n =? 127)%nat.
Definition validateSubjectLineAndBody (subjectLine body : string) : result nt_error unit :=
  if (String.length subjectLine <? 1)%nat || (200 <? String.length subjectLine)%nat then Err (NtValidation "subjectLine")
  else if negb (all_chars (fun c => negb (controlChar c)) subjectLine) then Err (NtValidation "subjectLine")
  else if seqb body "" then Err (NtValidation "body")
  else Ok tt.

Section store.
Context `{UT : UUIDText}.
(** sha256 of the fields with NUL bytes between them, in hexadecimal. *)
Context (idempotencyPayloadHash : UUID -> string -> string -> string).
(** The claim group the store is bound to. *)
Context (claimGroup : string).

Definition channelSubject (id : UUID) : string := "notification_channel:" +:+ uuidString id.

(** ** Channels *)

Definition same_key (companyID : UUID) (key : string) (c : Channel) : Prop := ch_company c = companyID /\ ch_key c = key.

Definition insertChannel (c : Channel) (id : UUID) (db : NtDB) : result nt_error NtDB :=
  if bool_decide (is_Some (channels db !! id)) then Err ErrConflict
  else match find_where (same_key (ch_company c) (ch_key c)) (channels db) with
       | Some _ => Err ErrConflict
       | None => Ok (with_channels db (<[id := c]> (channels db)))
       end.

(** [CreateChannel]; [validateTarget] is the webhook policy with the resolver's answers. *)
Definition CreateChannel (validateTarget : string -> bool) (actor : string) (companyID : UUID) (key label kind : string)
    (target : option string) : NtTx (UUID * Channel) := fun env db =>
  if negb (channelKeyPattern key) then Err (NtValidation "key")
  else if (String.length label <? 1)%nat || (120 <? String.length label)%nat then Err (NtValidation "label")
  else if negb (validKind kind) then Err (NtValidation "kind")
  else
    let! _ := if seqb kind "webhook" then
                if seqb (default "" target) "" then Err (NtValidation "target")
                else if validateTarget (default "" target) then Ok tt else Err WebhookPolicyError
              else Ok tt in
    audited (fun env db =>
        let c := mkChannel companyID key label kind target (tx_now env) in
        let! db' := insertChannel c (tx_newID env) db in Ok ((tx_newID env, c), db'))
      (fun r => mkNtEvent actor "notification.channel.create" (channelSubject r.1)) env db.

Definition channelIn (db : NtDB) (companyID channelID : UUID) : option Channel :=
  c ← channels db !! channelID; if bool_decide (ch_company c = companyID) then Some c else None.

(** [GetChannel] *)
Definition GetChannel (companyID channelID : UUID) : NtTx (UUID * Channel) :=
  nread (fun db => match channelIn db companyID channelID with Some c => Ok (channelID, c) | None => Err ErrChannelNotFound end).

Definition older (a b : UUID * Channel) : Prop := (ch_created a.2 <= ch_created b.2)%Z.
#[local] Instance older_dec : RelDecision older := fun a b => decide_rel Z.le _ _.
Definition companyChannels (companyID : UUID) (db : NtDB) : list (UUID * Channel) :=
  filter (fun kv : UUID * Channel => ch_company kv.2 = companyID) (map_to_list (channels db)).

(** [ListChannels]: the count, then the page. *)
Definition countChannels (companyID : UUID) : NtTx nat := nread (fun db => Ok (length (companyChannels companyID db))).
Definition pageChannels (companyID : UUID) (page pageSize : Z) : NtTx (list (UUID * Channel)) :=
  nread (fun db => pageOf NtDatabase page pageSize (merge_sort older (companyChannels companyID db))).

(** Deleting a channel cascades to its subscriptions and messages, and from messages to
    inbox rows and jobs. *)
Definition cascade (channelID : UUID) (db : NtDB) : NtDB :=
  let gone (id : UUID) := m_channel <$> messages db !! id = Some channelID in
  mkNtDB (delete channelID (channels db))
    (filter (fun kv => kv.1.1 <> channelID) (subscriptions db))
    (filter (fun kv => m_channel kv.2 <> channelID) (messages db))
    (filter (fun kv => ~ gone kv.1.1) (recipients db))
    (filter (fun kv => ~ gone (j_message kv.2)) (jobs db))
    (ntAudit db).

(** [DeleteChannel] *)
Definition DeleteChannel (actor : string) (companyID channelID : UUID) : NtTx unit :=
  audited (fun env db =>
      match channelIn db companyID channelID with
      | None => Err ErrChannelNotFound
      | Some _ => Ok (tt, cascade channelID db)
      end)
    (fun _ => mkNtEvent actor "notification.channel.delete" (channelSubject channelID)).

(** ** Subscriptions *)

(** The transactions of [Subscribe] and [Unsubscribe], after their [GetChannel]. *)
Definition subscribeTx (actor : string) (channelID : UUID) (subject : string) (email : option string) : NtTx unit :=
  audited (fun env db =>
      (* the foreign key *)
      if bool_decide (is_Some (channels db !! channelID))
      then Ok (tt, with_subscriptions db (<[(channelID, subject) := mkSubscription email false]> (subscriptions db)))
      else Err NtDatabase)
    (fun _ => mkNtEvent actor "notification.subscription.create" (channelSubject channelID)).

Definition unsubscribeTx (actor : string) (channelID : UUID) (subject : string) : NtTx unit :=
  audited (fun env db => Ok (tt, with_subscriptions db (delete (channelID, subject) (subscriptions db))))
    (fun _ => mkNtEvent actor "notification.subscription.delete" (channelSubject channelID)).

(** ** Messages *)

Definition message_with_key (channelID : UUID) (key : string) (m : Message) : Prop :=
  m_channel m = channelID /\ m_key m = Some key.

(** [findByIdempotencyKey] *)
Definition findByIdempotencyKey (channelID : UUID) (key : string) : NtTx (option (UUID * Message * string)) :=
  nread (fun db => Ok (r ← find_where (message_with_key channelID key) (messages db); Some (r, default "" (m_hash r.2)))).

(** The subscribers a message fans out to. *)
Definition subscribers (db : NtDB) (channelID : UUID) : list (string * option string) :=
  omap (fun kv : UUID * string * Subscription =>
          if bool_decide (kv.1.1 = channelID) && negb (sub_muted kv.2) then Some (kv.1.2, sub_email kv.2) else None)
    (map_to_list (subscriptions db)).

(** The targets of a message's jobs. *)
Definition jobTargets (c : Channel) (subs : list (string * option string)) : list (string * string) :=
  (if seqb (ch_kind c) "email"
   then omap (fun sub : string * option string => if seqb (default "" sub.2) "" then None else Some ("email", default "" sub.2)) subs
   else []) ++
  (if seqb (ch_kind c) "webhook" && negb (seqb (default "" (ch_target c)) "") then [("webhook", default "" (ch_target c))] else []).

Definition newJob (messageID : UUID) (kind target : string) (now : Z) : DeliveryJob :=
  mkJob messageID kind target "pending" 0 None None None claimGroup now.

(** One INSERT per job, with the ids drawn one after the other. *)
Fixpoint insertJobs (messageID : UUID) (targets : list (string * string)) (ids : nat -> UUID) (now : Z)
    (js : gmap UUID DeliveryJob) : result nt_error (gmap UUID DeliveryJob) :=
  match targets with
  | [] => Ok js
  | (kind, target) :: rest =>
      if bool_decide (is_Some (js !! ids 0)) then Err NtDatabase
      else insertJobs messageID rest (fun n => ids (S n)) now (<[ids 0 := newJob messageID kind target now]> js)
  end.

(** One INSERT per inbox row. *)
Fixpoint insertRecipients (messageID : UUID) (subjects : list string) (rs : gmap (UUID * string) (option Z))
    : result nt_error (gmap (UUID * string) (option Z)) :=
  match subjects with
  | [] => Ok rs
  | s :: rest =>
      if bool_decide (is_Some (rs !! (messageID, s))) then Err NtDatabase
      else insertRecipients messageID rest (<[(messageID, s) := None]> rs)
  end.

(** The transaction of [SendMessage], from its INSERT on; [c] is the channel
    [GetChannel] read. *)
Definition sendTx (actor : string) (companyID channelID : UUID) (c : Channel) (subjectLine body idempotencyKey : string)
    : NtTx (UUID * Message) :=
  audited (fun env db =>
      let id := tx_newID env in
      let key := if seqb idempotencyKey "" then None else Some idempotencyKey in
      let hash := if seqb idempotencyKey "" then None else Some (idempotencyPayloadHash channelID subjectLine body) in
      let m := mkMessage companyID channelID subjectLine body actor key hash (tx_now env) in
      if bool_decide (is_Some (messages db !! id)) then Err ErrConflict
      else match key ≫= (fun k => find_where (message_with_key channelID k) (messages db)) with
      | Some _ => Err ErrConflict
      | None =>
          if negb (bool_decide (is_Some (channels db !! channelID))) then Err NtDatabase
          else
            let subs := subscribers db channelID in
            let! rs := insertRecipients id subs.*1 (recipients db) in
            let! js := insertJobs id (jobTargets c subs) (fun n => tx_ids env (S n)) (tx_now env) (jobs db) in
            Ok ((id, m), with_jobs (with_recipients (with_messages db (<[id := m]> (messages db))) rs) js)
      end)
    (fun _ => mkNtEvent actor "notification.message.send" (channelSubject channelID)).

(** ** Inbox *)

Definition newer (a b : UUID * Message * option Z) : Prop := (m_created b.1.2 <= m_created a.1.2)%Z.
#[local] Instance newer_dec : RelDecision newer := fun a b => decide_rel Z.le _ _.
Definition inbox (companyID : UUID) (subject : string) (db : NtDB) : list (UUID * Message * option Z) :=
  omap (fun kv : UUID * string * option Z =>
          if bool_decide (kv.1.2 = subject)
          then m ← messages db !! kv.1.1; if bool_decide (m_company m = companyID) then Some (kv.1.1, m, kv.2) else None
          else None)
    (map_to_list (recipients db)).

(** [ListInbox] *)
Definition countInbox (companyID : UUID) (subject : string) : NtTx nat := nread (fun db => Ok (length (inbox companyID subject db))).
Definition pageInbox (companyID : UUID) (subject : string) (page pageSize : Z) : NtTx (list (UUID * Message * option Z)) :=
  nread (fun db => pageOf NtDatabase page pageSize (merge_sort newer (inbox companyID subject db))).

(** [recipientExists] *)
Definition recipientExists (db : NtDB) (messageID : UUID) (subject : string) (companyID : UUID) : bool :=
  bool_decide (is_Some (recipients db !! (messageID, subject))) && bool_decide (m_company <$> messages db !! messageID = Some companyID).

(** [MarkRead]; the reload at its end joins on the message's id. *)
Definition MarkRead (actor : string) (companyID messageID : UUID) (subject : string) : NtTx (UUID * Message * option Z) :=
  audited (fun env db =>
      if negb (recipientExists db messageID subject companyID) then Err ErrRecipientNotFound
      else
        let rs := match recipients db !! (messageID, subject) with
                  | Some None => <[(messageID, subject) := Some (tx_now env)]> (recipients db)
                  | _ => recipients db
                  end in
        match messages db !! messageID, rs !! (messageID, subject) with
        | Some m, Some readAt => Ok ((messageID, m, readAt), with_recipients db rs)
        | _, _ => Err NtDatabase
        end)
    (fun _ => mkNtEvent actor "notification.message.read" ("notification_message:" +:+ uuidString messageID)).

(** ** Targeted events *)

(** INSERT INTO notification.channel ... ON CONFLICT (company_id, key) DO UPDATE SET key = EXCLUDED.key *)
Definition eventsChannel (companyID : UUID) (sourceModule : string) (id : UUID) (now : Z) (db : NtDB) : result nt_error (UUID * NtDB) :=
  let key := "events-" +:+ sourceModule in
  match find_where (same_key companyID key) (channels db) with
  | Some (cid, _) => Ok (cid, db)
  | None =>
      if bool_decide (is_Some (channels db !! id)) then Err NtDatabase
      else Ok (id, with_channels db (<[id := mkChannel companyID key ("Events: " +:+ sourceModule) "in_app" None now]> (channels db)))
  end.

(** The transaction of [SendTargetedEvent], for the confirmed recipients. *)
Definition eventTx (actor : string) (companyID : UUID) (sourceModule subjectLine body : string) (confirmed : list string) : NtTx UUID :=
  audited (fun env db =>
      let! r := eventsChannel companyID sourceModule (tx_ids env 0) (tx_now env) db in
      let '(channelID, db1) := r in
      let id := tx_ids env 1 in
      if bool_decide (is_Some (messages db1 !! id)) then Err NtDatabase
      else
        let! rs := insertRecipients id confirmed (recipients db1) in
        let m := mkMessage companyID channelID subjectLine body actor None None (tx_now env) in
        Ok (channelID, with_recipients (with_messages db1 (<[id := m]> (messages db1))) rs))
    (fun channelID => mkNtEvent actor "notification.event.send" (channelSubject channelID)).

(** ** Delivery jobs *)

Definition maxAttempts : Z := 8.

(** Microseconds. *)
Definition second : Z := 1000000.
Definition maxRetryBackoff : Z := 15 * 60 * second.

(** [retryBackoff] *)
Definition retryBackoff (attempts : Z) : Z :=
  let attempts := if (attempts <? 0)%Z then 0%Z else attempts in
  if (10 <? attempts)%Z then maxRetryBackoff else Z.min (Z.shiftl 1 attempts * second) maxRetryBackoff.

(** The claim's predicate. *)
Definition claimable (now : Z) (j : DeliveryJob) : Prop :=
  j_group j = claimGroup /\ j_status j = "pending" /\ match j_leasedUntil j with None => True | Some t => (t < now)%Z end.
#[export] Instance claimable_dec now j : Decision (claimable now j).
Proof. unfold claimable. destruct (j_leasedUntil j); apply _. Defined.

Definition enqueued_before (a b : UUID * DeliveryJob) : Prop := (j_created a.2 <= j_created b.2)%Z.
#[local] Instance enqueued_before_dec : RelDecision enqueued_before := fun a b => decide_rel Z.le _ _.

Definition leaseJob (now lease : Z) (token : UUID) (j : DeliveryJob) : DeliveryJob :=
  mkJob (j_message j) (j_kind j) (j_target j) (j_status j) (j_attempts j + 1) (Some (now + lease)%Z) (j_lastError j) (Some token)
    (j_group j) (j_created j).

(** The rows the claim's subquery picks; [locked] are those SKIP LOCKED passes over. *)
Definition claimed (locked : UUID -> bool) (now : Z) (limit : nat) (db : NtDB) : list (UUID * DeliveryJob) :=
  take limit (merge_sort enqueued_before
    (filter (fun kv : UUID * DeliveryJob => claimable now kv.2 /\ locked kv.1 = false) (map_to_list (jobs db)))).

(** [ClaimJobs] *)
Definition ClaimJobs (locked : UUID -> bool) (lease : Z) (limit : nat) : NtTx (list (UUID * DeliveryJob)) := fun env db =>
  if tx_broken env then Err NtDatabase
  else
    let out := imap (fun n kv => (kv.1, leaseJob (tx_now env) lease (tx_ids env n) kv.2)) (claimed locked (tx_now env) limit db) in
    Ok (out, with_jobs db (list_to_map out ∪ jobs db)).

(** [CountJobsByState] *)
Definition CountJobsByState : NtTx (string -> nat) :=
  nread (fun db => Ok (fun status => length (filter (fun kv : UUID * DeliveryJob =>
    j_group kv.2 = claimGroup /\ j_status kv.2 = status) (map_to_list (jobs db))))).

(** UPDATE ... WHERE id = $1 AND lease_token = $2; no row is [ErrLeaseLost]. *)
Definition fenced (id token : UUID) (f : DeliveryJob -> DeliveryJob) (db : NtDB) : result nt_error NtDB :=
  match jobs db !! id with
  | Some j => if bool_decide (j_token j = Some token) then Ok (with_jobs db (<[id := f j]> (jobs db))) else Err ErrLeaseLost
  | None => Err ErrLeaseLost
  end.

Definition settle (status : string) (leasedUntil : option Z) (lastError : option string) (j : DeliveryJob) : DeliveryJob :=
  mkJob (j_message j) (j_kind j) (j_target j) status (j_attempts j) leasedUntil lastError None (j_group j) (j_created j).

(** [CompleteJob] *)
Definition CompleteJob (id token : UUID) : NtTx unit := fun env db =>
  if tx_broken env then Err NtDatabase
  else let! db' := fenced id token (fun j => settle "done" (j_leasedUntil j) None j) db in Ok (tt, db').

(** [markJobDead] *)
Definition jobSubject (id : UUID) : string := "notification_delivery_job:" +:+ uuidString id.
Definition deadEvent (id : UUID) : NtEvent := mkNtEvent "system:notification-worker" "notification.delivery.dead" (jobSubject id).
Definition markJobDead (id token : UUID) (errMsg : string) : NtTx unit :=
  audited (fun env db => let! db' := fenced id token (settle "dead" None (Some errMsg)) db in Ok (tt, db')) (fun _ => deadEvent id).

(** [FailJob] *)
Definition FailJob (id token : UUID) (attempts : Z) (errMsg : string) : NtTx unit := fun env db =>
  if (maxAttempts <=? attempts)%Z then markJobDead id token errMsg env db
  else if tx_broken env then Err NtDatabase
  else let! db' := fenced id token (settle "pending" (Some (tx_now env + retryBackoff attempts)%Z) (Some errMsg)) db in Ok (tt, db').

(** [FailJobPermanent] *)
Definition FailJobPermanent (id token : UUID) (errMsg : string) : NtTx unit := markJobDead id token errMsg.

(** [ExtendLeaseBatch]: the tokens whose lease it extended. *)
Definition extends (tokens : list UUID) (j : DeliveryJob) : Prop :=
  j_status j = "pending" /\ match j_token j with Some t => t ∈ tokens | None => False end.
#[export] Instance extends_dec tokens j : Decision (extends tokens j).
Proof. unfold extends. destruct (j_token j); apply _. Defined.
Definition extendJob (now lease : Z) (j : DeliveryJob) : DeliveryJob :=
  mkJob (j_message j) (j_kind j) (j_target j) (j_status j) (j_attempts j) (Some (now + lease)%Z) (j_lastError j) (j_token j)
    (j_group j) (j_created j).
Definition ExtendLeaseBatch (tokens : list UUID) (lease : Z) : NtTx (list UUID) := fun env db =>
  if bool_decide (tokens = []) then Ok ([], db)
  else if tx_broken env then Err NtDatabase
  else Ok (omap (fun kv : UUID * DeliveryJob => if bool_decide (extends tokens kv.2) then j_token kv.2 else None) (map_to_list (jobs db)),
           with_jobs db ((fun j => if bool_decide (extends tokens j) then extendJob (tx_now env) lease j else j) <$> jobs db)).

(** [LoadJobDelivery]: the subject line and the body. *)
Definition LoadJobDelivery (j : DeliveryJob) : NtTx (string * string) :=
  nread (fun db => match messages db !! j_message j with Some m => Ok (m_subjectLine m, m_body m) | None => Err ErrMessageNotFound end).
End store.
