(* ===== verification/NotifWorker.v ===== *)
(** * The delivery worker

    modules/notification/service/worker.go: workers that claim batches of jobs, deliver
    them one after the other and settle each, while a heartbeat goroutine per batch
    extends the leases and cancels the jobs it finds lost.  A step is one call to the
    database or one access to the state the two goroutines share; workers may stop at
    any point, and a call may take effect although its reply is lost. *)

From stdpp Require Import base gmap strings list sorting relations.
From S2P Require Import Prelude GoStrings OrgTree Org ModuleKit Notification.

(** What [Deliver] returned; [nonRetryable] is ErrNonRetryableDelivery. *)
Inductive outcome : Type :=
| Delivered
| NotDelivered (nonRetryable : bool) (errMsg : string).

(** The store call that settles a job. *)
Inductive settling : Type :=
| CallComplete
| CallFail (errMsg : string)
| CallFailPermanent (errMsg : string).

(** [batchLease] *)
Record batchLease := mkLease { l_id : UUID; l_job : DeliveryJob; l_cancelled : bool; l_settled : bool }.

(** Where [runOnce] is: at the select of a job, in [deliverLeased], or waiting for the
    heartbeat. *)
Inductive mainPc : Type :=
| AtSelect (i : nat)
| AtLoad (i : nat)
| AtDeliver (i : nat)
| AtReturn (i : nat) (o : outcome)
| AtSettle (i : nat) (a : settling)
| AtDrain.

(** Where [batchHeartbeat] is: waiting, extending the leases it collected, or looking
    at them one by one. *)
Inductive heartbeatPc : Type :=
| HbWait
| HbExtend (pending : list nat)
| HbCancel (pending : list nat) (extended : list UUID)
| HbDone.

Inductive worker : Type :=
| Idle
| Busy (leases : list batchLease) (pc : mainPc) (hb : heartbeatPc).

Definition cancel (l : batchLease) : batchLease := mkLease (l_id l) (l_job l) true (l_settled l).
Definition settled (l : batchLease) : batchLease := mkLease (l_id l) (l_job l) (l_cancelled l) true.
Definition leaseToken (l : batchLease) : UUID := default 0%N (j_token (l_job l)).
Definition newLease (kv : UUID * DeliveryJob) : batchLease := mkLease kv.1 kv.2 false false.

(** [failJob] *)
Definition failJob (o : outcome) : settling :=
  match o with
  | Delivered => CallComplete
  | NotDelivered true errMsg => CallFailPermanent errMsg
  | NotDelivered false errMsg => CallFail errMsg
  end.

(** The verdict a settlement leaves. *)
Inductive verdict : Type := Retried | Completed | Died.
#[export] Instance verdict_eq_dec : EqDecision verdict.
Proof. solve_decision. Defined.

Section worker.
Context `{UT : UUIDText}.
Context (idempotencyPayloadHash : UUID -> string -> string -> string) (claimGroup : string).
(** [LeaseDuration], [BatchSize] and the kinds with a configured deliverer. *)
Context (leaseDuration : Z) (batchSize : nat) (hasDeliverer : string -> bool).

Definition settleTx (l : batchLease) (a : settling) : NtTx unit :=
  match a with
  | CallComplete => CompleteJob (l_id l) (leaseToken l)
  | CallFail errMsg => FailJob (l_id l) (leaseToken l) (j_attempts (l_job l)) errMsg
  | CallFailPermanent errMsg => FailJobPermanent (l_id l) (leaseToken l) errMsg
  end.

(** ** Steps of one worker

    The database before and after, and what the step says to the outside: a delivery
    with its outcome, a settlement that took effect, or tokens drawn. *)

Inductive note : Type :=
| Silent
| Tried (id token : UUID) (o : outcome)
| Settled (id : UUID) (l : batchLease) (a : settling)
| Drew (tokens : list UUID).

Inductive worker_step (now : Z) : NtDB -> worker -> note -> NtDB -> worker -> Prop :=
| ws_claim locked env out batch db db' :
    tx_now env = now -> ClaimJobs claimGroup locked leaseDuration batchSize env db = Ok (out, db') -> out <> [] ->
    (* RETURNING in any order *)
    batch ≡ₚ out ->
    worker_step now db Idle (Drew (imap (fun n _ => tx_ids env n) out)) db' (Busy (newLease <$> batch) (AtSelect 0) HbWait)
| ws_claim_lost locked env out db db' :
    tx_now env = now -> ClaimJobs claimGroup locked leaseDuration batchSize env db = Ok (out, db') ->
    worker_step now db Idle (Drew (imap (fun n _ => tx_ids env n) out)) db' Idle
| ws_skip db ls i l hb :
    ls !! i = Some l -> l_cancelled l = true ->
    worker_step now db (Busy ls (AtSelect i) hb) Silent db (Busy (<[i := settled l]> ls) (AtSelect (S i)) hb)
| ws_begin db ls i l hb :
    ls !! i = Some l -> l_cancelled l = false ->
    worker_step now db (Busy ls (AtSelect i) hb) Silent db (Busy ls (AtLoad i) hb)
| ws_end db ls i hb :
    ls !! i = None -> worker_step now db (Busy ls (AtSelect i) hb) Silent db (Busy ls AtDrain hb)
| ws_load env db ls i l hb r :
    ls !! i = Some l -> LoadJobDelivery (l_job l) env db = Ok r -> hasDeliverer (j_kind (l_job l)) = true ->
    worker_step now db (Busy ls (AtLoad i) hb) Silent db (Busy ls (AtDeliver i) hb)
| ws_no_deliverer env db ls i l hb r :
    ls !! i = Some l -> LoadJobDelivery (l_job l) env db = Ok r -> hasDeliverer (j_kind (l_job l)) = false ->
    worker_step now db (Busy ls (AtLoad i) hb) Silent db (Busy (<[i := settled l]> ls) (AtSelect (S i)) hb)
| ws_load_fails db ls i l hb errMsg :
    ls !! i = Some l -> worker_step now db (Busy ls (AtLoad i) hb) Silent db (Busy ls (AtSettle i (CallFail errMsg)) hb)
| ws_deliver db ls i l hb o :
    ls !! i = Some l ->
    worker_step now db (Busy ls (AtDeliver i) hb) (Tried (l_id l) (leaseToken l) o) db (Busy ls (AtReturn i o) hb)
| ws_lost db ls i l hb o :
    ls !! i = Some l -> l_cancelled l = true ->
    worker_step now db (Busy ls (AtReturn i o) hb) Silent db (Busy (<[i := settled l]> ls) (AtSelect (S i)) hb)
| ws_return db ls i l hb o :
    ls !! i = Some l -> l_cancelled l = false ->
    worker_step now db (Busy ls (AtReturn i o) hb) Silent db (Busy (<[i := cancel l]> ls) (AtSettle i (failJob o)) hb)
| ws_settle env db db' ls i l hb a :
    tx_now env = now -> ls !! i = Some l -> settleTx l a env db = Ok (tt, db') ->
    worker_step now db (Busy ls (AtSettle i a) hb) (Settled (l_id l) l a) db' (Busy (<[i := settled l]> ls) (AtSelect (S i)) hb)
| ws_settle_fails db ls i l hb a :
    ls !! i = Some l -> worker_step now db (Busy ls (AtSettle i a) hb) Silent db (Busy (<[i := settled l]> ls) (AtSelect (S i)) hb)
| ws_drained db ls : worker_step now db (Busy ls AtDrain HbDone) Silent db Idle
| ws_hb_stop db ls : worker_step now db (Busy ls AtDrain HbWait) Silent db (Busy ls AtDrain HbDone)
| ws_hb_tick db ls pc :
    let pending := filter (fun i => l_settled <$> ls !! i = Some false) (seq 0 (length ls)) in
    pending <> [] -> worker_step now db (Busy ls pc HbWait) Silent db (Busy ls pc (HbExtend pending))
| ws_hb_extend env db db' ls pc pending tokens extended :
    tx_now env = now -> tokens = omap (fun i => leaseToken <$> ls !! i) pending ->
    ExtendLeaseBatch tokens leaseDuration env db = Ok (extended, db') ->
    worker_step now db (Busy ls pc (HbExtend pending)) Silent db' (Busy ls pc (HbCancel pending extended))
| ws_hb_extend_lost env db db' ls pc pending tokens extended :
    tx_now env = now -> tokens = omap (fun i => leaseToken <$> ls !! i) pending ->
    ExtendLeaseBatch tokens leaseDuration env db = Ok (extended, db') ->
    worker_step now db (Busy ls pc (HbExtend pending)) Silent db' (Busy ls pc HbWait)
| ws_hb_extend_fails db ls pc pending : worker_step now db (Busy ls pc (HbExtend pending)) Silent db (Busy ls pc HbWait)
| ws_hb_cancel db ls pc i pending extended l :
    ls !! i = Some l -> leaseToken l ∉ extended -> l_settled l = false ->
    worker_step now db (Busy ls pc (HbCancel (i :: pending) extended)) Silent db (Busy (<[i := cancel l]> ls) pc (HbCancel pending extended))
| ws_hb_keep db ls pc i pending extended l :
    ls !! i = Some l -> leaseToken l ∈ extended \/ l_settled l = true ->
    worker_step now db (Busy ls pc (HbCancel (i :: pending) extended)) Silent db (Busy ls pc (HbCancel pending extended))
| ws_hb_done db ls pc extended : worker_step now db (Busy ls pc (HbCancel [] extended)) Silent db (Busy ls pc HbWait)
| ws_stop db w : worker_step now db w Silent db Idle.

(** ** The service

    Requests change the tables too; they settle nothing. *)

Inductive requestMethod : forall X : Type, NtTx X -> Prop :=
| rm_read X (f : NtDB -> result nt_error X) : requestMethod X (nread f)
| rm_CreateChannel v a c k l kd t : requestMethod _ (CreateChannel v a c k l kd t)
| rm_DeleteChannel a c i : requestMethod _ (DeleteChannel a c i)
| rm_subscribe a i s e : requestMethod _ (subscribeTx a i s e)
| rm_unsubscribe a i s : requestMethod _ (unsubscribeTx a i s)
| rm_send a c i ch sl b k : requestMethod _ (sendTx idempotencyPayloadHash claimGroup a c i ch sl b k)
| rm_read_mark a c i s : requestMethod _ (MarkRead a c i s)
| rm_event a c m sl b l : requestMethod _ (eventTx a c m sl b l).

Definition verdictOf (l : batchLease) (a : settling) : verdict :=
  match a with
  | CallComplete => Completed
  | CallFail _ => if (maxAttempts <=? j_attempts (l_job l))%Z then Died else Retried
  | CallFailPermanent _ => Died
  end.

(** [s_used] are the job ids and tokens drawn so far; [s_tried] the deliveries made and
    [s_verdicts] the settlements that took effect, in order. *)
Record system := mkSystem {
  s_db : NtDB; s_now : Z; s_workers : list worker; s_used : gset UUID;
  s_tried : list (UUID * UUID * outcome); s_verdicts : list (UUID * verdict)
}.

Definition hear (n : note) (s : system) (db : NtDB) (ws : list worker) : system :=
  match n with
  | Silent => mkSystem db (s_now s) ws (s_used s) (s_tried s) (s_verdicts s)
  | Tried id token o => mkSystem db (s_now s) ws (s_used s) (s_tried s ++ [(id, token, o)]) (s_verdicts s)
  | Settled id l a => mkSystem db (s_now s) ws (s_used s) (s_tried s) (s_verdicts s ++ [(id, verdictOf l a)])
  | Drew tokens => mkSystem db (s_now s) ws (list_to_set tokens ∪ s_used s) (s_tried s) (s_verdicts s)
  end.

(** gen_random_uuid draws what was never drawn. *)
Definition drawsFresh (n : note) (s : system) : Prop :=
  match n with Drew tokens => NoDup tokens /\ forall t, t ∈ tokens -> t ∉ s_used s | _ => True end.

Inductive system_step : system -> system -> Prop :=
| ss_worker v w n db' w' s :
    s_workers s !! v = Some w -> worker_step (s_now s) (s_db s) w n db' w' -> drawsFresh n s ->
    system_step s (hear n s db' (<[v := w']> (s_workers s)))
| ss_request X m env x db' s :
    requestMethod X m -> tx_now env = s_now s -> m env (s_db s) = Ok (x, db') ->
    (forall id, is_Some (jobs db' !! id) -> jobs (s_db s) !! id = None -> id ∉ s_used s) ->
    system_step s (mkSystem db' (s_now s) (s_workers s) (dom (jobs db') ∪ s_used s) (s_tried s) (s_verdicts s))
| ss_time t s : (s_now s <= t)%Z -> system_step s (mkSystem (s_db s) t (s_workers s) (s_used s) (s_tried s) (s_verdicts s)).
End worker.
