(* ===== verification/NotifDelivery.v ===== *)
(** * Delivery: fenced leases and job histories

    What the steps of the delivery service do to the jobs, and the invariant they keep. *)

From stdpp Require Import base gmap strings list sorting relations.
From S2P Require Import Prelude GoStrings OrgTree Org ModuleKit Notification NotifWorker.

(** A lease as the batch was claimed. *)
Definition core (l : batchLease) : UUID * DeliveryJob := (l_id l, l_job l).
Definition tokenOf (c : UUID * DeliveryJob) : UUID := default 0%N (j_token c.2).
Definition cores (w : worker) : list (UUID * DeliveryJob) := match w with Idle => [] | Busy ls _ _ => core <$> ls end.

Lemma core_insert i l l' (ls : list batchLease) : ls !! i = Some l -> core l' = core l -> core <$> <[i := l']> ls = core <$> ls.
Proof. intros Hi Hl. rewrite list_fmap_insert, Hl. apply list_insert_id. by rewrite list_lookup_fmap, Hi. Qed.

Section delivery.
Context `{UT : UUIDText}.
Context (idempotencyPayloadHash : UUID -> string -> string -> string) (claimGroup : string).
Context (leaseDuration : Z) (batchSize : nat) (hasDeliverer : string -> bool).

Abbreviation worker_step := (worker_step claimGroup leaseDuration batchSize hasDeliverer).
Abbreviation system_step := (system_step idempotencyPayloadHash claimGroup leaseDuration batchSize hasDeliverer).

(** ** Claims *)

Lemma claimed_elem locked now limit db kv :
  kv ∈ claimed claimGroup locked now limit db -> jobs db !! kv.1 = Some kv.2 /\ claimable claimGroup now kv.2 /\ locked kv.1 = false.
Proof.
  unfold claimed. intros Hin. apply elem_of_take in Hin as (i & Hi & _). apply list_elem_of_lookup_2 in Hi.
  rewrite merge_sort_Permutation, list_elem_of_filter in Hi. destruct Hi as [[? ?] Hi]. destruct kv. by apply elem_of_map_to_list in Hi.
Qed.

Lemma claimed_NoDup locked now limit db : NoDup (claimed claimGroup locked now limit db).*1.
Proof.
  unfold claimed. rewrite fmap_take. eapply sublist_NoDup; [|apply sublist_take].
  rewrite merge_sort_Permutation. eapply sublist_NoDup; [|apply fmap_sublist, sublist_filter]. apply NoDup_fst_map_to_list.
Qed.

(** What a claim did: the rows claimed, each with a token of its own. *)
Lemma ClaimJobs_ok locked lease limit env db out db' :
  ClaimJobs claimGroup locked lease limit env db = Ok (out, db') ->
  NoDup out.*1 /\ db' = with_jobs db (list_to_map out ∪ jobs db) /\
  forall n id j', out !! n = Some (id, j') ->
    exists j, jobs db !! id = Some j /\ claimable claimGroup (tx_now env) j /\ j' = leaseJob (tx_now env) lease (tx_ids env n) j.
Proof.
  unfold ClaimJobs. destruct (tx_broken env); [done|]. intros [= <- <-]. split_and!; [|done|].
  - rewrite fmap_imap. eapply (eq_ind _ NoDup (claimed_NoDup _ _ _ _)). apply list_eq. intros i.
    by rewrite list_lookup_imap, list_lookup_fmap.
  - intros n id j'. rewrite list_lookup_imap. intros ([i j] & Hn & [= -> ->])%fmap_Some.
    apply list_elem_of_lookup_2, claimed_elem in Hn as (? & ? & _). by exists j.
Qed.

(** ** The effect of a worker's step on the jobs *)

Definition fenceOf (l : UUID * DeliveryJob) (a : settling) (now : Z) (j : DeliveryJob) : DeliveryJob :=
  match a with
  | CallComplete => settle "done" (j_leasedUntil j) None j
  | CallFail errMsg =>
      if (maxAttempts <=? j_attempts l.2)%Z then settle "dead" None (Some errMsg) j
      else settle "pending" (Some (now + retryBackoff (j_attempts l.2))%Z) (Some errMsg) j
  | CallFailPermanent errMsg => settle "dead" None (Some errMsg) j
  end.
Definition verdict_of (l : UUID * DeliveryJob) (a : settling) : verdict := verdictOf (mkLease l.1 l.2 false false) a.

Inductive effect (now : Z) (db : NtDB) (cs : list (UUID * DeliveryJob)) : note -> NtDB -> list (UUID * DeliveryJob) -> Prop :=
| ef_quiet n : match n with Silent | Tried _ _ _ => True | _ => False end -> effect now db cs n db cs
| ef_idle : effect now db cs Silent db []
| ef_claim env out cs' :
    NoDup out.*1 -> cs' = [] \/ cs' ≡ₚ out ->
    (forall n id j', out !! n = Some (id, j') ->
       exists j, jobs db !! id = Some j /\ claimable claimGroup now j /\ j' = leaseJob now leaseDuration (tx_ids env n) j) ->
    effect now db cs (Drew (imap (fun n _ => tx_ids env n) out)) (with_jobs db (list_to_map out ∪ jobs db)) cs'
| ef_extend tokens :
    (forall t, t ∈ tokens -> exists c, c ∈ cs /\ tokenOf c = t) ->
    effect now db cs Silent (with_jobs db ((fun j => if bool_decide (extends tokens j) then extendJob now leaseDuration j else j) <$> jobs db)) cs
| ef_settle c l a j :
    c ∈ cs -> core l = c -> jobs db !! c.1 = Some j -> j_token j = Some (tokenOf c) ->
    effect now db cs (Settled c.1 l a)
      (mkNtDB (channels db) (subscriptions db) (messages db) (recipients db) (<[c.1 := fenceOf c a now j]> (jobs db))
         (ntAudit db ++ (if bool_decide (verdict_of c a = Died) then [deadEvent c.1] else []))) cs.

Lemma fenced_ok id token f db db' :
  fenced id token f db = Ok db' -> exists j, jobs db !! id = Some j /\ j_token j = Some token /\ db' = with_jobs db (<[id := f j]> (jobs db)).
Proof. unfold fenced. destruct (jobs db !! id) as [j|]; [|done]. case_bool_decide; [|done]. intros [= <-]. eauto. Qed.

Lemma markJobDead_ok id token errMsg env db db' :
  markJobDead id token errMsg env db = Ok (tt, db') ->
  exists j, jobs db !! id = Some j /\ j_token j = Some token /\
    db' = mkNtDB (channels db) (subscriptions db) (messages db) (recipients db) (<[id := settle "dead" None (Some errMsg) j]> (jobs db))
            (ntAudit db ++ [deadEvent id]).
Proof.
  unfold markJobDead, audited. destruct (tx_broken env); [done|]. destruct (fenced _ _ _ db) as [db1|] eqn:E; [|done]. simpl. intros [= <-].
  apply fenced_ok in E as (j & ? & ? & ->). by exists j.
Qed.

Lemma settle_effect l a env db db' cs :
  core l ∈ cs -> settleTx l a env db = Ok (tt, db') -> effect (tx_now env) db cs (Settled (l_id l) l a) db' cs.
Proof.
  intros Hl Hs. unfold settleTx, CompleteJob, FailJob, FailJobPermanent in Hs.
  destruct a as [|errMsg|errMsg].
  - destruct (tx_broken env); [done|]. destruct (fenced _ _ _ db) as [db1|] eqn:E; [|done]. injection Hs as <-.
    apply fenced_ok in E as (j & Hj & Ht & ->). replace (with_jobs _ _) with
      (mkNtDB (channels db) (subscriptions db) (messages db) (recipients db) (<[l_id l := fenceOf (core l) CallComplete (tx_now env) j]> (jobs db))
        (ntAudit db ++ [])) by (by rewrite app_nil_r). by apply (ef_settle _ _ _ (core l)).
  - destruct (maxAttempts <=? j_attempts (l_job l))%Z eqn:Em.
    + apply markJobDead_ok in Hs as (j & Hj & Ht & ->). pose proof (ef_settle (tx_now env) db cs (core l) l (CallFail errMsg) j Hl eq_refl Hj Ht) as H.
      unfold fenceOf, verdict_of, verdictOf in H. simpl in H. rewrite Em in H. exact H.
    + destruct (tx_broken env); [done|]. destruct (fenced _ _ _ db) as [db1|] eqn:E; [|done]. injection Hs as <-.
      apply fenced_ok in E as (j & Hj & Ht & ->). pose proof (ef_settle (tx_now env) db cs (core l) l (CallFail errMsg) j Hl eq_refl Hj Ht) as H.
      unfold fenceOf, verdict_of, verdictOf in H. simpl in H. rewrite Em, app_nil_r in H. exact H.
  - apply markJobDead_ok in Hs as (j & Hj & Ht & ->). exact (ef_settle (tx_now env) db cs (core l) l (CallFailPermanent errMsg) j Hl eq_refl Hj Ht).
Qed.

Lemma core_elem (ls : list batchLease) i l : ls !! i = Some l -> core l ∈ core <$> ls.
Proof. intros H. apply list_elem_of_fmap_2. by eapply list_elem_of_lookup_2. Qed.

Lemma extend_effect tokens env db ext db' ls (pending : list nat) :
  tokens = omap (fun i => leaseToken <$> ls !! i) pending -> ExtendLeaseBatch tokens leaseDuration env db = Ok (ext, db') ->
  effect (tx_now env) db (core <$> ls) Silent db' (core <$> ls).
Proof.
  intros Ht. unfold ExtendLeaseBatch. case_bool_decide as Hn; [intros [= <- <-]; by constructor|]. destruct (tx_broken env); [done|].
  intros [= <- <-]. apply ef_extend. intros t. rewrite Ht, list_elem_of_omap. intros (i & _ & Hi).
  destruct (ls !! i) as [l|] eqn:El; [|done]. injection Hi as <-. exists (core l). split; [by eapply core_elem|done].
Qed.

Lemma worker_effect now db w n db' w' : worker_step now db w n db' w' -> effect now db (cores w) n db' (cores w').
Proof.
  destruct 1; simpl; rewrite ?(core_insert i l) by done; try (by constructor); try (subst; by eapply extend_effect).
  - destruct (ClaimJobs_ok _ _ _ _ _ _ _ H0) as (? & -> & ?). subst. apply ef_claim; [done| |done]. right.
    rewrite <- list_fmap_compose. rewrite <- H2. apply reflexive_eq. rewrite <- (list_fmap_id batch) at 2. apply list_fmap_ext. by intros ? [] _.
  - destruct (ClaimJobs_ok _ _ _ _ _ _ _ H0) as (? & -> & ?). subst. apply ef_claim; auto.
  - subst. apply settle_effect; [by eapply core_elem|done].
Qed.

(** ** What requests do to the jobs *)

Definition enqueues (db db' : NtDB) : Prop :=
  (forall id j, jobs db' !! id = Some j -> jobs db !! id = Some j \/
     (jobs db !! id = None /\ j_status j = "pending" /\ j_attempts j = 0%Z /\ j_token j = None)) /\
  exists l, ntAudit db' = ntAudit db ++ l /\ Forall (fun e => ne_action e <> "notification.delivery.dead") l.

Lemma insertJobs_ok messageID targets ids now js js' :
  insertJobs claimGroup messageID targets ids now js = Ok js' ->
  forall id j, js' !! id = Some j -> js !! id = Some j \/
    (js !! id = None /\ j_status j = "pending" /\ j_attempts j = 0%Z /\ j_token j = None).
Proof.
  revert ids js. induction targets as [|[kind target] rest IH]; intros ids js; simpl; [intros [= <-]; auto|].
  case_bool_decide as Hn; [done|]. intros Hr id j Hj. apply eq_None_not_Some in Hn.
  destruct (IH _ _ Hr id j Hj) as [[[<- <-]|[? ?]]%lookup_insert_Some|([? ?]%lookup_insert_None & ?)]; auto.
Qed.

Lemma audited_enqueues {X} (m : NtTx X) event env db x db' :
  (forall x, ne_action (event x) <> "notification.delivery.dead") ->
  (forall db1, m env db = Ok (x, db1) -> ntAudit db1 = ntAudit db /\
     forall id j, jobs db1 !! id = Some j -> jobs db !! id = Some j \/
       (jobs db !! id = None /\ j_status j = "pending" /\ j_attempts j = 0%Z /\ j_token j = None)) ->
  audited m event env db = Ok (x, db') -> enqueues db db'.
Proof.
  intros He Hm. unfold audited. destruct (tx_broken env); [done|]. destruct (m env db) as [[y db1]|]; [|done]. intros [= -> <-].
  destruct (Hm db1 eq_refl) as [Ha Hj]. split; [exact Hj|]. simpl. rewrite Ha. eexists. split; [done|]. by repeat constructor.
Qed.

Lemma request_enqueues X m env db x db' : requestMethod idempotencyPayloadHash claimGroup X m -> m env db = Ok (x, db') -> enqueues db db'.
Proof.
  destruct 1; intros Hr; try (eapply audited_enqueues; [| |exact Hr]; [done|]; intros db1 H1; cbv beta in H1).
  - unfold nread in Hr. destruct (tx_broken env); [done|]. destruct (f db); [|done]. injection Hr as -> <-.
    split; [by left|]. exists []. by rewrite app_nil_r.
  - unfold CreateChannel in Hr. destruct (negb _); [done|]. destruct (_ || _); [done|]. destruct (negb _); [done|].
    destruct (if seqb kd "webhook" then _ else _) as [[]|]; [|done]. cbn [result_bind] in Hr.
    eapply audited_enqueues; [| |exact Hr]; [done|]. intros db1 H1. cbv beta zeta in H1. unfold insertChannel in H1.
    case_bool_decide; [done|]. destruct (find_where _ _); [done|]. injection H1 as _ <-. split; [done|]. by left.
  - destruct (channelIn db c i); [|done]. injection H1 as _ <-. split; [done|]. simpl.
    intros id j [? _]%map_lookup_filter_Some. by left.
  - case_bool_decide; [|done]. injection H1 as _ <-. split; [done|]. by left.
  - injection H1 as _ <-. split; [done|]. by left.
  - cbv zeta in H1. case_bool_decide; [done|]. destruct (_ ≫= _); [done|]. destruct (negb _); [done|].
    destruct (insertRecipients _ _ _) as [rs|]; [|done]. cbn [result_bind] in H1.
    destruct (insertJobs _ _ _ _ _ _) as [js|] eqn:Ej; [|done]. injection H1 as _ <-. split; [done|]. simpl. by eapply insertJobs_ok.
  - destruct (negb _); [done|]. cbv zeta in H1. destruct (messages db !! i); [|done]. destruct (_ !! (i, s)); [|done].
    injection H1 as _ <-. split; [done|]. by left.
  - unfold eventsChannel in H1. destruct (find_where _ _) as [[cid ?]|]; [|case_bool_decide; [done|]]; cbn [result_bind] in H1;
      (case_bool_decide; [done|]; destruct (insertRecipients _ _ _) as [rs|]; [|done]; injection H1 as _ <-; split; [done|]; by left).
Qed.

(** ** The invariant *)

(** The settlements of a job, in order. *)
Definition history (vs : list (UUID * verdict)) (id : UUID) : list verdict :=
  omap (fun x => if bool_decide (x.1 = id) then Some x.2 else None) vs.

#[local] Instance event_eq_dec : EqDecision NtEvent.
Proof. solve_decision. Defined.
Definition deaths (db : NtDB) (id : UUID) : nat := length (filter (fun e => e = deadEvent id) (ntAudit db)).

(** The story of a job so far: retries, at most seven, and then done or dead. *)
Inductive story (s : system) (id : UUID) (j : DeliveryJob) : Prop :=
| st_pending k :
    j_status j = "pending" -> history (s_verdicts s) id = replicate k Retried -> k <= 7 ->
    (Z.of_nat k + (if j_token j then 1 else 0) <= j_attempts j)%Z -> story s id j
| st_done k token :
    j_status j = "done" -> j_token j = None -> history (s_verdicts s) id = replicate k Retried ++ [Completed] -> k <= 7 ->
    (id, token, Delivered) ∈ s_tried s -> story s id j
| st_dead k :
    j_status j = "dead" -> j_token j = None -> history (s_verdicts s) id = replicate k Retried ++ [Died] -> k <= 7 -> story s id j.

Record jobs_inv (s : system) : Prop := {
  inv_story : forall id j, jobs (s_db s) !! id = Some j -> id ∈ s_used s /\ story s id j;
  inv_token : forall id j t, jobs (s_db s) !! id = Some j -> j_token j = Some t -> t ∈ s_used s;
  inv_distinct : forall id j id' j' t, jobs (s_db s) !! id = Some j -> jobs (s_db s) !! id' = Some j' ->
    j_token j = Some t -> j_token j' = Some t -> id = id';
  inv_fresh : forall id, id ∉ s_used s -> history (s_verdicts s) id = [];
  inv_deaths : forall id, deaths (s_db s) id = length (filter (fun v => v = Died) (history (s_verdicts s) id))
}.

Definition lease_inv (s : system) (c : UUID * DeliveryJob) : Prop :=
  is_Some (j_token c.2) /\ tokenOf c ∈ s_used s /\
  forall id j, jobs (s_db s) !! id = Some j -> j_token j = Some (tokenOf c) -> id = c.1 /\ j_attempts j = j_attempts c.2.

Record leases_inv (s : system) : Prop := {
  inv_lease : forall v w c, s_workers s !! v = Some w -> c ∈ cores w -> lease_inv s c;
  inv_exclusive : forall v w c v' w' c', s_workers s !! v = Some w -> c ∈ cores w -> s_workers s !! v' = Some w' -> c' ∈ cores w' ->
    tokenOf c = tokenOf c' -> v = v' /\ c = c'
}.

(** A worker about to complete a job has delivered it. *)
Definition pc_inv (tried : list (UUID * UUID * outcome)) (w : worker) : Prop :=
  match w with
  | Busy ls (AtReturn i Delivered) _ | Busy ls (AtSettle i CallComplete) _ =>
      exists l, ls !! i = Some l /\ (l_id l, leaseToken l, Delivered) ∈ tried
  | _ => True
  end.

Definition hearTried (n : note) (tried : list (UUID * UUID * outcome)) : list (UUID * UUID * outcome) :=
  match n with Tried id token o => tried ++ [(id, token, o)] | _ => tried end.

Lemma pc_inv_insert tried ls pc hb hb' i l l' :
  ls !! i = Some l -> core l' = core l -> pc_inv tried (Busy ls pc hb) -> pc_inv tried (Busy (<[i := l']> ls) pc hb').
Proof.
  intros Hi Hc. assert (Hk : forall k, (exists x, ls !! k = Some x /\ (l_id x, leaseToken x, Delivered) ∈ tried) ->
    exists x, <[i := l']> ls !! k = Some x /\ (l_id x, leaseToken x, Delivered) ∈ tried).
  { intros k (x & Hx & Ht). destruct (decide (k = i)) as [->|]; [|exists x; by rewrite list_lookup_insert_ne by done].
    exists l'. rewrite list_lookup_insert_eq by (by eapply lookup_lt_Some). split; [done|].
    assert (l = x) as <- by congruence. unfold core in Hc. injection Hc as E1 E2. unfold leaseToken. by rewrite E1, E2. }
  destruct pc as [| | |? []|? []|]; simpl; auto.
Qed.

Lemma pc_step now db w n db' w' tried : worker_step now db w n db' w' -> pc_inv tried w -> pc_inv (hearTried n tried) w'.
Proof.
  destruct 1; simpl; try done; intros Hp.
  - destruct o; [|done]. exists l. split; [done|]. apply elem_of_app. right. by left.
  - destruct o as [|[]]; simpl; [|done..]. destruct Hp as (l' & Hl' & Ht). simplify_eq. exists (cancel l).
    split; [|done]. apply list_lookup_insert_eq. by eapply lookup_lt_Some.
  - by apply (pc_inv_insert tried ls pc HbWait HbWait i l (cancel l)).
Qed.

Lemma pc_settles now db w id l db' w' tried :
  worker_step now db w (Settled id l CallComplete) db' w' -> pc_inv tried w -> exists token, (id, token, Delivered) ∈ tried.
Proof. intros H. inversion H; subst. simpl. intros (l' & Hl' & Ht). simplify_eq. eauto. Qed.

(** ** Preservation *)

Lemma history_app vs id x : history (vs ++ [x]) id = history vs id ++ (if bool_decide (x.1 = id) then [x.2] else []).
Proof. unfold history. rewrite omap_app. simpl. by case_bool_decide. Qed.

Lemma deadEvent_inj i j : deadEvent i = deadEvent j -> i = j.
Proof. unfold deadEvent, jobSubject. intros H. apply uuidString_inj. by simplify_eq/=. Qed.

Lemma deaths_app db db' l id :
  ntAudit db' = ntAudit db ++ l -> deaths db' id = deaths db id + length (filter (fun e => e = deadEvent id) l).
Proof. unfold deaths. intros ->. by rewrite filter_app, length_app. Qed.

Lemma dead_count (v : verdict) i id :
  length (filter (fun e => e = deadEvent id) (if bool_decide (v = Died) then [deadEvent i] else [])) =
  if bool_decide (v = Died) && bool_decide (i = id) then 1 else 0.
Proof.
  destruct (bool_decide (v = Died)); [|done]. rewrite filter_cons. case_decide as E.
  - apply deadEvent_inj in E as ->. by rewrite bool_decide_true.
  - rewrite bool_decide_false; [done|]. by intros ->.
Qed.

Lemma died_count (v : verdict) (i id : UUID) :
  length (filter (fun u => u = Died) (if bool_decide ((i, v).1 = id) then [(i, v).2] else [])) =
  if bool_decide (v = Died) && bool_decide (i = id) then 1 else 0.
Proof. cbn [fst snd]. destruct (bool_decide (i = id)); [|by rewrite andb_false_r]. rewrite andb_true_r. by destruct v. Qed.

Lemma claim_lookup (out : list (UUID * DeliveryJob)) (js : gmap UUID DeliveryJob) id j :
  NoDup out.*1 -> (list_to_map out ∪ js) !! id = Some j -> (exists n, out !! n = Some (id, j)) \/ (id ∉ out.*1 /\ js !! id = Some j).
Proof.
  intros Hn. rewrite lookup_union_Some_raw. intros [H|[H1 H2]].
  - left. by apply elem_of_list_to_map_2, list_elem_of_lookup in H.
  - right. by apply not_elem_of_list_to_map in H1.
Qed.

(** Rows that changed their lease only. *)
Lemma story_extend s id j now lease : story s id j -> story s id (extendJob now lease j).
Proof. destruct 1; [by eapply st_pending|by eapply st_done|by eapply st_dead]. Qed.

Lemma story_mono s s' id j :
  history (s_verdicts s') id = history (s_verdicts s) id -> (forall x, x ∈ s_tried s -> x ∈ s_tried s') -> story s id j -> story s' id j.
Proof. intros Hh Ht. destruct 1; [eapply st_pending|eapply st_done|eapply st_dead]; rewrite ?Hh; eauto. Qed.

Lemma story_token s id j : story s id j -> is_Some (j_token j) -> j_status j = "pending".
Proof. destruct 1 as [| k token ? E|k ? E]; [done|rewrite E; by intros []..]. Qed.

Lemma drew_lookup (env : TxEnv) (out : list (UUID * DeliveryJob)) n kv :
  out !! n = Some kv -> imap (fun n _ => tx_ids env n) out !! n = Some (tx_ids env n).
Proof. intros H. by rewrite list_lookup_imap, H. Qed.

Lemma drew_inj env (out : list (UUID * DeliveryJob)) n kv n' kv' :
  NoDup (imap (fun n _ => tx_ids env n) out) -> out !! n = Some kv -> out !! n' = Some kv' -> tx_ids env n = tx_ids env n' -> n = n'.
Proof. intros Hn H H' E. eapply NoDup_lookup; [exact Hn|by eapply drew_lookup|]. rewrite E. by eapply drew_lookup. Qed.

Section claim.
Context (s : system) (env : TxEnv) (out : list (UUID * DeliveryJob)).
Context (Hj : jobs_inv s) (Hnd : NoDup out.*1) (Hdrew : NoDup (imap (fun n _ => tx_ids env n) out))
  (Hfr : forall t, t ∈ imap (fun n _ => tx_ids env n) out -> t ∉ s_used s).
Context (Hout : forall n id j', out !! n = Some (id, j') ->
  exists j, jobs (s_db s) !! id = Some j /\ claimable claimGroup (s_now s) j /\ j' = leaseJob (s_now s) leaseDuration (tx_ids env n) j).

Lemma drew_fresh n kv : out !! n = Some kv -> tx_ids env n ∉ s_used s.
Proof. intros H. apply Hfr. eapply list_elem_of_lookup_2. by eapply drew_lookup. Qed.

Lemma drew_used n kv : out !! n = Some kv -> tx_ids env n ∈ (list_to_set (imap (fun n _ => tx_ids env n) out) ∪ s_used s : gset UUID).
Proof. intros H. apply elem_of_union_l, elem_of_list_to_set. eapply list_elem_of_lookup_2. by eapply drew_lookup. Qed.

Lemma claim_jobs_inv ws :
  jobs_inv (mkSystem (with_jobs (s_db s) (list_to_map out ∪ jobs (s_db s))) (s_now s) ws
    (list_to_set (imap (fun n _ => tx_ids env n) out) ∪ s_used s) (s_tried s) (s_verdicts s)).
Proof.
  destruct Hj as [J1 J2 J3 J4 J5]. pose proof (fun id j => claim_lookup out (jobs (s_db s)) id j Hnd) as Hcl. split; simpl.
  - intros id j [(n & Hn)|[_ Hi]]%Hcl.
    + destruct (Hout n id j Hn) as (j0 & H0 & (_ & Hs & _) & ->). destruct (J1 id j0 H0) as [Hu Hst]. split; [set_solver|].
      destruct Hst as [k _ Hh Hk Ha|k token E|k E]; [|congruence..]. eapply (st_pending _ _ _ k); simpl; [done|done|done|].
      destruct (j_token j0); lia.
    + destruct (J1 id j Hi) as [? Hst]. split; [set_solver|]. by apply (story_mono s).
  - intros id j t [(n & Hn)|[_ Hi]]%Hcl Ht.
    + destruct (Hout n id j Hn) as (j0 & _ & _ & ->). injection Ht as <-. by eapply drew_used.
    + apply elem_of_union_r. by eapply J2.
  - intros id j id' j' t [(n & Hn)|[_ Hi]]%Hcl [(n' & Hn')|[_ Hi']]%Hcl Ht Ht'; [..|by eauto].
    + destruct (Hout n id j Hn) as (j0 & _ & _ & ->), (Hout n' id' j' Hn') as (j0' & _ & _ & ->). simpl in Ht, Ht'.
      assert (n = n') as <- by (eapply drew_inj; [done..|congruence]). congruence.
    + destruct (Hout n id j Hn) as (j0 & _ & _ & ->). injection Ht as <-. destruct (drew_fresh n _ Hn). by eapply J2.
    + destruct (Hout n' id' j' Hn') as (j0 & _ & _ & ->). injection Ht' as <-. destruct (drew_fresh n' _ Hn'). by eapply J2.
  - intros id Hid. apply J4. set_solver.
  - exact J5.
Qed.

(** Leases held before keep their tokens apart from the new ones. *)
Lemma claim_lease_kept ws c : lease_inv s c ->
  lease_inv (mkSystem (with_jobs (s_db s) (list_to_map out ∪ jobs (s_db s))) (s_now s) ws
    (list_to_set (imap (fun n _ => tx_ids env n) out) ∪ s_used s) (s_tried s) (s_verdicts s)) c.
Proof.
  intros (Ht & Hu & Hr). split_and!; [done|set_solver|]. simpl. intros id j [(n & Hn)|[_ Hi]]%claim_lookup Ej; [|by apply Hr|done].
  destruct (Hout n id j Hn) as (j0 & _ & _ & ->). injection Ej as Ej. destruct (drew_fresh n _ Hn). by rewrite Ej.
Qed.

Lemma claim_lease_new ws n c : out !! n = Some c ->
  tokenOf c = tx_ids env n /\
  lease_inv (mkSystem (with_jobs (s_db s) (list_to_map out ∪ jobs (s_db s))) (s_now s) ws
    (list_to_set (imap (fun n _ => tx_ids env n) out) ∪ s_used s) (s_tried s) (s_verdicts s)) c.
Proof.
  intros Hn. destruct c as [id0 j0']. destruct (Hout n id0 j0' Hn) as (j0 & H0 & _ & ->). split; [done|]. split_and!; [done|by eapply drew_used|].
  simpl. intros id j [(n' & Hn')|[_ Hi]]%claim_lookup Ej; [| |done].
  - destruct (Hout n' id j Hn') as (j1 & ? & _ & ->). injection Ej as Ej. assert (n' = n) as -> by (eapply drew_inj; done).
    rewrite Hn in Hn'. by simplify_eq.
  - destruct (drew_fresh n _ Hn). by eapply inv_token.
Qed.

Lemma claim_leases_inv v w w' :
  leases_inv s -> s_workers s !! v = Some w -> cores w' = [] \/ cores w' ≡ₚ out ->
  leases_inv (mkSystem (with_jobs (s_db s) (list_to_map out ∪ jobs (s_db s))) (s_now s) (<[v := w']> (s_workers s))
    (list_to_set (imap (fun n _ => tx_ids env n) out) ∪ s_used s) (s_tried s) (s_verdicts s)).
Proof.
  intros [L1 L2] Hv Hw'. assert (Hnew : forall c, c ∈ cores w' -> exists n, out !! n = Some c).
  { intros c Hc. destruct Hw' as [E|E]; rewrite E in Hc; [by apply not_elem_of_nil in Hc|by apply list_elem_of_lookup]. }
  assert (Hold : forall u wu c, u <> v -> s_workers s !! u = Some wu -> c ∈ cores wu -> forall c', c' ∈ cores w' -> tokenOf c <> tokenOf c').
  { intros u wu c _ Hu Hc c' (n & Hn)%Hnew E. destruct (claim_lease_new (s_workers s) n c' Hn) as [Et _]. destruct (drew_fresh n _ Hn).
    rewrite <- Et, <- E. by eapply L1. }
  split; cbn [s_workers].
  - intros u wu c [(<- & <- & _)|[Hne Hu]]%list_lookup_insert_Some Hc; [|eapply claim_lease_kept, L1; done].
    destruct (Hnew c Hc) as [n Hn]. by eapply claim_lease_new.
  - intros u wu c u' wu' c' [(<- & <- & _)|[Hne Hu]]%list_lookup_insert_Some Hc [(<- & <- & _)|[Hne' Hu']]%list_lookup_insert_Some Hc' E.
    + split; [done|]. destruct (Hnew c Hc) as [n Hn], (Hnew c' Hc') as [n' Hn'].
      destruct (claim_lease_new (s_workers s) n c Hn) as [E1 _], (claim_lease_new (s_workers s) n' c' Hn') as [E2 _].
      assert (n = n') as <- by (eapply drew_inj; [done..|congruence]). congruence.
    + by edestruct (Hold u' wu' c').
    + by edestruct (Hold u wu c).
    + by eapply L2.
Qed.
End claim.

(** Steps that draw no token: leases and rows keep theirs or lose them. *)
Definition tokens_kept (db db' : NtDB) : Prop :=
  forall id j' t, jobs db' !! id = Some j' -> j_token j' = Some t ->
    exists j, jobs db !! id = Some j /\ j_token j = Some t /\ j_attempts j' = j_attempts j.

Lemma tokens_kept_refl db : tokens_kept db db.
Proof. intros id j t ? ?. eauto. Qed.

Lemma leases_kept s s' :
  tokens_kept (s_db s) (s_db s') -> s_used s ⊆ s_used s' ->
  (forall v w', s_workers s' !! v = Some w' -> exists w, s_workers s !! v = Some w /\ forall c, c ∈ cores w' -> c ∈ cores w) ->
  leases_inv s -> leases_inv s'.
Proof.
  intros Ht Hu Hw [L1 L2]. split.
  - intros v w' c (w & Hv & Hc)%Hw Hin. destruct (L1 v w c Hv (Hc c Hin)) as (E & Hin' & Hr). split_and!; [done|set_solver|].
    intros id j' Hj' Et. destruct (Ht id j' _ Hj' Et) as (j & Hj & Ej & ->). by apply Hr.
  - intros v w1 c v' w2 c' (u1 & H1 & C1)%Hw Hc (u2 & H2 & C2)%Hw Hc' E. eapply L2; eauto.
Qed.

Lemma jobs_kept s s' :
  tokens_kept (s_db s) (s_db s') -> s_used s ⊆ s_used s' -> s_verdicts s' = s_verdicts s -> (forall id, deaths (s_db s') id = deaths (s_db s) id) ->
  (forall id j', jobs (s_db s') !! id = Some j' -> id ∈ s_used s' /\ story s' id j') -> jobs_inv s -> jobs_inv s'.
Proof.
  intros Ht Hu Hv Hd Hst [J1 J2 J3 J4 J5]. split.
  - exact Hst.
  - intros id j' t Hj' Et. destruct (Ht id j' t Hj' Et) as (j & Hj & Ej & _). apply Hu. by eapply J2.
  - intros id j id' j' t H1 H2 E1 E2. destruct (Ht _ _ _ H1 E1) as (? & ? & ? & _), (Ht _ _ _ H2 E2) as (? & ? & ? & _). by eapply J3.
  - intros id Hid. rewrite Hv. apply J4. set_solver.
  - intros id. by rewrite Hd, Hv.
Qed.

Lemma settle_story s c a j now tried :
  story s c.1 j -> j_token j = Some (tokenOf c) -> j_attempts j = j_attempts c.2 ->
  (a = CallComplete -> exists token, (c.1, token, Delivered) ∈ tried) ->
  forall db used ws, story (mkSystem db (s_now s) ws used tried (s_verdicts s ++ [(c.1, verdict_of c a)])) c.1 (fenceOf c a now j).
Proof.
  intros Hst Ht Ha Hc db used ws. pose proof (story_token _ _ _ Hst ltac:(by rewrite Ht)) as Hp.
  destruct Hst as [k _ Hh Hk Hat|? ? E|? E]; [|congruence..]. rewrite Ht in Hat.
  assert (Hh' : history (s_verdicts s ++ [(c.1, verdict_of c a)]) c.1 = replicate k Retried ++ [verdict_of c a]).
  { rewrite history_app, Hh. simpl. by rewrite bool_decide_true. }
  destruct a as [|errMsg|errMsg]; simpl.
  - destruct (Hc eq_refl) as [token Hin]. by apply (st_done _ _ _ k token).
  - unfold verdict_of in Hh'. simpl in Hh'. destruct (maxAttempts <=? j_attempts c.2)%Z eqn:Em; [by apply (st_dead _ _ _ k)|].
    apply Z.leb_gt in Em. unfold maxAttempts in Em. apply (st_pending _ _ _ (S k)); simpl; [done| |lia|lia].
    rewrite Hh', <- (replicate_S_end k). done.
  - by apply (st_dead _ _ _ k).
Qed.

Lemma settle_jobs_inv s c l a j v w db used ws tried :
  jobs_inv s -> leases_inv s -> s_workers s !! v = Some w -> c ∈ cores w -> jobs (s_db s) !! c.1 = Some j -> j_token j = Some (tokenOf c) ->
  (a = CallComplete -> exists token, (c.1, token, Delivered) ∈ tried) -> core l = c -> used = s_used s -> tried = s_tried s ->
  db = mkNtDB (channels (s_db s)) (subscriptions (s_db s)) (messages (s_db s)) (recipients (s_db s))
         (<[c.1 := fenceOf c a (s_now s) j]> (jobs (s_db s)))
         (ntAudit (s_db s) ++ (if bool_decide (verdict_of c a = Died) then [deadEvent c.1] else [])) ->
  jobs_inv (mkSystem db (s_now s) ws used tried (s_verdicts s ++ [(c.1, verdict_of c a)])) /\ tokens_kept (s_db s) db.
Proof.
  intros [J1 J2 J3 J4 J5] [L1 _] Hv Hc Hj Ht Hcomp Hl -> -> ->.
  assert (Hnone : j_token (fenceOf c a (s_now s) j) = None).
  { destruct a; simpl; [done| |done]. by destruct (maxAttempts <=? _)%Z. }
  assert (Hk : tokens_kept (s_db s) (mkNtDB (channels (s_db s)) (subscriptions (s_db s)) (messages (s_db s)) (recipients (s_db s))
         (<[c.1 := fenceOf c a (s_now s) j]> (jobs (s_db s)))
         (ntAudit (s_db s) ++ (if bool_decide (verdict_of c a = Died) then [deadEvent c.1] else [])))).
  { intros id j' t. cbn [jobs]. intros [[<- <-]|[_ Hi]]%lookup_insert_Some E; [congruence|eauto]. }
  split; [|done]. destruct (L1 v w c Hv Hc) as (_ & _ & Hr). destruct (Hr c.1 j Hj Ht) as [_ Hat]. split; simpl.
  - intros id j' [[<- <-]|[Hne Hi]]%lookup_insert_Some.
    + destruct (J1 c.1 j Hj) as [? ?]. split; [done|]. by apply settle_story.
    + destruct (J1 id j' Hi) as [? Hst]. split; [done|]. apply (story_mono s); [|done|done]. simpl.
      rewrite history_app, bool_decide_false by done. by rewrite app_nil_r.
  - intros id j' t Hj' E. destruct (Hk id j' t Hj' E) as (? & ? & ? & _). by eapply J2.
  - intros id j1 id' j2 t H1 H2 E1 E2. destruct (Hk _ _ _ H1 E1) as (? & ? & ? & _), (Hk _ _ _ H2 E2) as (? & ? & ? & _). by eapply J3.
  - intros id Hid. rewrite history_app, (J4 id Hid). simpl. rewrite bool_decide_false; [done|]. intros <-. by destruct (J1 c.1 j Hj).
  - intros id. erewrite deaths_app by done. rewrite J5, history_app, filter_app, length_app. f_equal.
    rewrite dead_count, died_count. done.
Qed.

Record delivery_inv (s : system) : Prop := {
  di_jobs : jobs_inv s;
  di_leases : leases_inv s;
  di_pc : forall v w, s_workers s !! v = Some w -> pc_inv (s_tried s) w
}.

Lemma pc_mono tried x w : pc_inv tried w -> pc_inv (tried ++ [x]) w.
Proof.
  destruct w as [|ls [| | |i []|i []|] hb]; simpl; try done; intros (l & Hl & Ht); exists l; (split; [done|]); apply elem_of_app; by left.
Qed.

Lemma hear_tried n s db ws : s_tried (hear n s db ws) = hearTried n (s_tried s).
Proof. by destruct n. Qed.

(** The jobs and the leases under one worker's step. *)
Lemma effect_inv s v w n db' w' :
  jobs_inv s -> leases_inv s -> s_workers s !! v = Some w -> effect (s_now s) (s_db s) (cores w) n db' (cores w') -> drawsFresh n s ->
  (forall id l, n = Settled id l CallComplete -> exists token, (id, token, Delivered) ∈ s_tried s) ->
  jobs_inv (hear n s db' (<[v := w']> (s_workers s))) /\ leases_inv (hear n s db' (<[v := w']> (s_workers s))).
Proof.
  intros HJ HL Hv He Hfr Hdone. remember (cores w') as cs' eqn:Ecs. symmetry in Ecs.
  assert (Hws : (forall c, c ∈ cs' -> c ∈ cores w) -> forall u wu, <[v := w']> (s_workers s) !! u = Some wu ->
    exists w0, s_workers s !! u = Some w0 /\ forall c, c ∈ cores wu -> c ∈ cores w0).
  { intros Hcs u wu [(<- & <- & _)|[_ ?]]%list_lookup_insert_Some; [|eauto]. rewrite Ecs. eauto. }
  assert (Hst : forall tried, (forall x, x ∈ s_tried s -> x ∈ tried) -> forall db ws id j, jobs (s_db s) !! id = Some j ->
    id ∈ s_used s /\ story (mkSystem db (s_now s) ws (s_used s) tried (s_verdicts s)) id j).
  { intros tried Ht db ws id j Hi. destruct (inv_story s HJ id j Hi) as [? Hst]. split; [done|]. by apply (story_mono s). }
  assert (Hsame : forall ws tried, (forall x, x ∈ s_tried s -> x ∈ tried) ->
    jobs_inv (mkSystem (s_db s) (s_now s) ws (s_used s) tried (s_verdicts s))).
  { intros ws tried Ht. apply (jobs_kept s); [apply tokens_kept_refl|done|done|done| |done]. simpl. by apply Hst. }
  destruct He as [n Hn| |env out cs' Hnd Hcs' Hout|tokens Htok|c l a j Hc Hl Hj Ht].
  - destruct n as [|id token o| |]; try done; simpl.
    + split; [by apply Hsame|].
      eapply (leases_kept s); [apply tokens_kept_refl|done|exact (Hws (fun c H => H))|done].
    + split; [apply Hsame; intros x Hx; apply elem_of_app; by left|].
      eapply (leases_kept s); [apply tokens_kept_refl|done|exact (Hws (fun c H => H))|done].
  - simpl. split; [by apply Hsame|].
    eapply (leases_kept s); [apply tokens_kept_refl|done| |done]. apply Hws. by intros c ?%not_elem_of_nil.
  - destruct Hfr as [Hd Hf]. simpl. split; [by apply claim_jobs_inv|]. eapply claim_leases_inv; try done. by rewrite Ecs.
  - simpl. assert (Hk : tokens_kept (s_db s) (with_jobs (s_db s)
      ((fun j => if bool_decide (extends tokens j) then extendJob (s_now s) leaseDuration j else j) <$> jobs (s_db s)))).
    { intros id j' t. cbn [jobs with_jobs]. rewrite lookup_fmap. intros (j & Hj & ->)%fmap_Some Et. exists j. split; [done|]. by case_bool_decide. }
    split; [eapply (jobs_kept s); [exact Hk|done..| |done]|eapply (leases_kept s); [exact Hk|done|exact (Hws (fun c H => H))|done]]; simpl.
    intros id j'. rewrite lookup_fmap. intros (j & Hj & ->)%fmap_Some. destruct (Hst (s_tried s) (fun x H => H) (with_jobs (s_db s)
      ((fun j => if bool_decide (extends tokens j) then extendJob (s_now s) leaseDuration j else j) <$> jobs (s_db s))) (<[v:=w']> (s_workers s)) id j Hj).
    split; [done|]. case_bool_decide; [by apply story_extend|done].
  - simpl. replace (verdictOf l a) with (verdict_of c a) by (by subst c).
    destruct (settle_jobs_inv s c l a j v w _ _ (<[v:=w']> (s_workers s)) _ HJ HL Hv Hc Hj Ht ltac:(intros ->; by eapply Hdone) Hl eq_refl eq_refl eq_refl) as [? Hk].
    split; [done|]. eapply (leases_kept s); [exact Hk|done|exact (Hws (fun c H => H))|done].
Qed.

Lemma system_inv s s' : delivery_inv s -> system_step s s' -> delivery_inv s'.
Proof.
  intros [HJ HL HP]. destruct 1 as [v w n db' w' s Hv Hw Hfr|X m env x db' s Hm Hnow Hr Hfr|t s Ht].
  - destruct (effect_inv s v w n db' w' HJ HL Hv (worker_effect _ _ _ _ _ _ Hw) Hfr) as [? ?].
    { intros id l ->. eapply pc_settles; [exact Hw|]. by eapply HP. }
    split; [done|done|]. intros u wu. rewrite hear_tried. assert (s_workers (hear n s db' (<[v:=w']> (s_workers s))) = <[v:=w']> (s_workers s)) as -> by (by destruct n).
    intros [(<- & <- & _)|[_ Hu]]%list_lookup_insert_Some; [eapply pc_step; [exact Hw|by eapply HP]|].
    specialize (HP u wu Hu). destruct n; simpl; [done|by apply pc_mono|done|done].
  - apply request_enqueues in Hr as [Hjobs (l & Ha & Hl)]; [|done].
    assert (Hk : tokens_kept (s_db s) db').
    { intros id j' t Hj' Et. destruct (Hjobs id j' Hj') as [?|(_ & _ & _ & ?)]; [eauto|congruence]. }
    split; [|eapply (leases_kept s); [exact Hk|simpl; set_solver| |done]; eauto|done].
    eapply (jobs_kept s); [exact Hk|simpl; set_solver|done| | |done]; simpl.
    + intros id. erewrite deaths_app by exact Ha. replace (filter _ l) with (@nil NtEvent); [simpl; lia|].
      symmetry. apply elem_of_nil_inv. intros e [-> He]%list_elem_of_filter. rewrite Forall_forall in Hl. by apply (Hl _ He).
    + intros id j' Hj'. split; [apply elem_of_union_l, elem_of_dom; eauto|]. destruct (Hjobs id j' Hj') as [Hj|(Hn & Hs & Hat & Htk)].
      * destruct (inv_story s HJ id j' Hj) as [_ ?]. by apply (story_mono s).
      * eapply (st_pending _ _ _ 0); simpl; [done| |lia|rewrite Hat, Htk; lia]. apply (inv_fresh s HJ), Hfr; eauto.
  - split; [|by apply (leases_kept s); [apply tokens_kept_refl|done|eauto|]|done]. eapply (jobs_kept s); [apply tokens_kept_refl|done..| |done]; simpl.
    intros id j Hi. destruct (inv_story s HJ id j Hi). split; [done|]. by apply (story_mono s).
Qed.

(** The service at its start: no jobs, nothing drawn, every worker idle. *)
Definition fresh_system (s : system) : Prop :=
  jobs (s_db s) = ∅ /\ Forall (fun w => w = Idle) (s_workers s) /\ s_verdicts s = [] /\ s_tried s = [] /\ ntAudit (s_db s) = [].

Lemma fresh_inv s : fresh_system s -> delivery_inv s.
Proof.
  intros (Hj & Hw & Hv & Ht & Ha). rewrite Forall_lookup in Hw. split; [split|split|].
  - intros id j. by rewrite Hj, lookup_empty.
  - intros id j t. by rewrite Hj, lookup_empty.
  - intros id j id' j' t. by rewrite Hj, lookup_empty.
  - intros id _. by rewrite Hv.
  - intros id. unfold deaths. by rewrite Hv, Ha.
  - intros v w c ->%Hw. by intros ?%not_elem_of_nil.
  - intros v w c v' w' c' ->%Hw. by intros ?%not_elem_of_nil.
  - by intros v w ->%Hw.
Qed.

Lemma reachable_inv s s' : fresh_system s -> rtc system_step s s' -> delivery_inv s'.
Proof. intros H0 Hr. pose proof (fresh_inv s H0) as HI. clear H0. induction Hr; eauto using system_inv. Qed.
End delivery.
