(* ===== verification/NotifPolicy.v ===== *)
(** * Webhook targets

    modules/notification/service/webhook_policy.go and webhook.go: which addresses a
    webhook may be delivered to, when the target is checked and what is dialled.  Of the
    standard library the address classes of net/netip are modelled; url.Parse,
    netip.ParseAddr and the resolver's answers are parameters. *)

From stdpp Require Import base gmap strings list sorting.
From S2P Require Import Prelude GoStrings NotifWorker.

(** ** Addresses *)

(** [netip.Addr]: the bits, and a zone for IPv6. *)
Inductive Addr : Type :=
| V4 (bits : N)
| V6 (bits : N) (zone : string).

Definition wf_addr (a : Addr) : Prop := match a with V4 b => (b < 2 ^ 32)%N | V6 b _ => (b < 2 ^ 128)%N end.

(** The first byte of an IPv4 address and the first 16 bits of an IPv6 address. *)
Definition v4_0 (b : N) : N := N.shiftr b 24.
Definition v4_1 (b : N) : N := N.land (N.shiftr b 16) 255.
Definition v4_2 (b : N) : N := N.land (N.shiftr b 8) 255.
Definition v6u16_0 (b : N) : N := N.shiftr b 112.

(** [Unmap]: an IPv4-mapped address, ::ffff:0:0/96, as the IPv4 address. *)
Definition Unmap (a : Addr) : Addr :=
  match a with
  | V6 b _ => if (N.shiftr b 32 =? 65535)%N then V4 (N.land b 4294967295) else a
  | V4 _ => a
  end.

Definition IsLoopback (a : Addr) : bool := match a with V4 b => (v4_0 b =? 127)%N | V6 b _ => (b =? 1)%N end.
Definition IsPrivate (a : Addr) : bool :=
  match a with
  | V4 b => (v4_0 b =? 10)%N || ((v4_0 b =? 172)%N && (N.land (v4_1 b) 240 =? 16)%N) || ((v4_0 b =? 192)%N && (v4_1 b =? 168)%N)
  | V6 b _ => (N.land (v6u16_0 b) 65024 =? 64512)%N
  end.
Definition IsLinkLocalUnicast (a : Addr) : bool :=
  match a with V4 b => (v4_0 b =? 169)%N && (v4_1 b =? 254)%N | V6 b _ => (N.land (v6u16_0 b) 65472 =? 65152)%N end.
Definition IsLinkLocalMulticast (a : Addr) : bool :=
  match a with
  | V4 b => (v4_0 b =? 224)%N && (v4_1 b =? 0)%N && (v4_2 b =? 0)%N
  | V6 b _ => (N.land (v6u16_0 b) 65295 =? 65282)%N
  end.
Definition IsInterfaceLocalMulticast (a : Addr) : bool :=
  match a with V4 _ => false | V6 b _ => (N.land (v6u16_0 b) 65295 =? 65281)%N end.
Definition IsMulticast (a : Addr) : bool :=
  match a with V4 b => (N.land (v4_0 b) 240 =? 224)%N | V6 b _ => (N.shiftr (v6u16_0 b) 8 =? 255)%N end.
(** A comparison with the two unspecified addresses, the zone included. *)
Definition IsUnspecified (a : Addr) : bool := match a with V4 b => (b =? 0)%N | V6 b zone => (b =? 0)%N && seqb zone "" end.
(** [siteLocalV6.Contains]: a prefix contains no address with a zone. *)
Definition siteLocalV6_Contains (a : Addr) : bool :=
  match a with V4 _ => false | V6 b zone => seqb zone "" && (N.shiftr b 118 =? 1019)%N end.

(** [isDisallowedWebhookAddr]; the address is valid. *)
Definition isDisallowedWebhookAddr (a : Addr) : bool :=
  let a := Unmap a in
  IsLoopback a || IsPrivate a || IsLinkLocalUnicast a || IsLinkLocalMulticast a || IsInterfaceLocalMulticast a || IsMulticast a ||
  IsUnspecified a || siteLocalV6_Contains a.

(** ** The policy *)

Record URL := mkURL { u_Scheme : string; u_Host : string; u_Hostname : string; u_Port : string }.

Record WebhookPolicy := mkPolicy { AllowHTTP : bool; AllowedHosts : list string }.

Record ResolvedWebhookTarget := mkResolved { rt_port : string; rt_ips : list Addr }.

Section policy.
Context (urlParse : string -> option URL) (ParseAddr : string -> option Addr) (toLower : string -> string).
(** LookupIPAddr as it answers this call; [None] is an error. *)
Context (lookup : string -> option (list Addr)).

(** [resolveHost] *)
Definition resolveHost (host : string) : option (list Addr) :=
  match ParseAddr host with
  | Some ip => Some [Unmap ip]
  | None => match lookup host with Some addrs => Some (map Unmap addrs) | None => None end
  end.

(** [Validate]; [None] is a WebhookPolicyError. *)
Definition Validate (p : WebhookPolicy) (rawURL : string) : option ResolvedWebhookTarget :=
  match urlParse rawURL with
  | None => None
  | Some u =>
      if seqb (u_Host u) "" then None
      else if negb (seqb (u_Scheme u) "https" || seqb (u_Scheme u) "http" && AllowHTTP p) then None
      else
        let host := u_Hostname u in
        if seqb host "" then None
        else
          let port := if seqb (u_Port u) "" then if seqb (u_Scheme u) "https" then "443" else "80" else u_Port u in
          if (0 <? length (AllowedHosts p))%nat && negb (bool_decide (toLower host ∈ AllowedHosts p)) then None
          else
            match resolveHost host with
            | None => None
            | Some addrs =>
                if bool_decide (addrs = []) || existsb isDisallowedWebhookAddr addrs then None else Some (mkResolved port addrs)
            end
  end.

(** [pinnedDialContext]: the addresses it dials, in order, up to the first that
    answers. *)
Fixpoint dialled (answers : Addr -> bool) (ips : list Addr) : list Addr :=
  match ips with
  | [] => []
  | ip :: rest => ip :: (if answers ip then [] else dialled answers rest)
  end.

(** [WebhookSender.Deliver] with [post]: what it dials and what the worker sees; [http]
    is the status over the pinned connection, [None] when there is none, a redirect or
    a time-out. *)
Definition Deliver (p : WebhookPolicy) (target : string) (answers : Addr -> bool) (http : option Z) : list Addr * outcome :=
  match Validate p target with
  | None => ([], NotDelivered true "webhook target rejected")
  | Some t =>
      (dialled answers (rt_ips t),
       match http with
       | None => NotDelivered false "webhook post"
       | Some status => if (300 <=? status)%Z then NotDelivered false "webhook post: HTTP" else Delivered
       end)
  end.
End policy.

(** ** The addresses as prefixes *)

(** [b] has the first [len] bits of [p], in words of [w] bits. *)
Definition inPrefix (w len p b : N) : bool := (N.shiftr b (w - len) =? N.shiftr p (w - len))%N.

Definition prefixes4 : list (N * N) :=
  [(8, 127 * 2 ^ 24); (8, 10 * 2 ^ 24); (12, 172 * 2 ^ 24 + 16 * 2 ^ 16); (16, 192 * 2 ^ 24 + 168 * 2 ^ 16);
   (16, 169 * 2 ^ 24 + 254 * 2 ^ 16); (4, 224 * 2 ^ 24)]%N.
Definition prefixes6 : list (N * N) := [(7, 64512 * 2 ^ 112); (10, 65152 * 2 ^ 112); (8, 65280 * 2 ^ 112); (10, 65216 * 2 ^ 112)]%N.

(** Loopback, private, link-local, multicast, unspecified and site-local. *)
Definition internal (a : Addr) : bool :=
  match Unmap a with
  | V4 b => existsb (fun p => inPrefix 32 p.1 p.2 b) prefixes4 || (b =? 0)%N
  | V6 b _ => existsb (fun p => inPrefix 128 p.1 p.2 b) prefixes6 || (b =? 1)%N || (b =? 0)%N
  end.

Definition zoneless (a : Addr) : bool := match a with V4 _ => true | V6 _ zone => seqb zone "" end.

(** A test on all numbers that extend [acc] by [n] bits, and on sixteen bits. *)
Fixpoint allBits (n : nat) (acc : N) (p : N -> bool) : bool :=
  match n with
  | O => p acc
  | S n' => allBits n' (2 * acc) p && allBits n' (2 * acc + 1) p
  end.

Lemma allBits_spec n acc p y : allBits n acc p = true -> (N.shiftr y (N.of_nat n) = acc)%N -> p y = true.
Proof.
  revert acc. induction n as [|n IH]; intros acc; cbn [allBits]; [by intros H <-|].
  rewrite andb_true_iff. intros [H0 H1] E.
  replace (N.of_nat (S n)) with (N.of_nat n + 1)%N in E by lia. rewrite <- N.shiftr_shiftr, N.shiftr_div_pow2 in E.
  set (z := N.shiftr y (N.of_nat n)) in *. pose proof (N.Div0.div_mod z (2 ^ 1)) as Hd. rewrite E in Hd.
  pose proof (N.mod_upper_bound z (2 ^ 1) ltac:(done)) as Hm. change (2 ^ 1)%N with 2%N in *. clearbody z. clear E.
  generalize dependent (z `mod` 2)%N. intros r Hd Hm.
  assert (z = 2 * acc \/ z = 2 * acc + 1)%N as [Hz|Hz] by lia; eauto.
Qed.

Lemma all16_spec p : allBits 16 0 p = true -> forall y, (y < 65536)%N -> p y = true.
Proof. intros H y Hy. eapply allBits_spec; [exact H|]. rewrite N.shiftr_div_pow2. by apply N.div_small. Qed.

Definition class4 (y : N) : bool :=
  let b0 := N.shiftr y 8 in let b1 := N.land y 255 in
  (b0 =? 127)%N || ((b0 =? 10)%N || ((b0 =? 172)%N && (N.land b1 240 =? 16)%N) || ((b0 =? 192)%N && (b1 =? 168)%N)) ||
  ((b0 =? 169)%N && (b1 =? 254)%N) || (N.land b0 240 =? 224)%N.
Definition class6 (y : N) : bool :=
  (N.land y 65024 =? 64512)%N || (N.land y 65472 =? 65152)%N || (N.land y 65295 =? 65282)%N || (N.land y 65295 =? 65281)%N ||
  (N.shiftr y 8 =? 255)%N || (N.shiftr y 6 =? 1019)%N.

Lemma inPrefix_high w k len p b :
  (len <= 16)%N -> (w = k + 16)%N -> inPrefix w len p b = inPrefix 16 len (N.shiftr p k) (N.shiftr b k).
Proof. intros Hl ->. unfold inPrefix. rewrite !N.shiftr_shiftr. replace (k + 16 - len)%N with (k + (16 - len))%N by lia. done. Qed.

Lemma shift16 w b : (b < 2 ^ (w + 16))%N -> (N.shiftr b w < 65536)%N.
Proof. intros H. rewrite N.shiftr_div_pow2. apply N.Div0.div_lt_upper_bound. rewrite N.pow_add_r in H. exact H. Qed.

Lemma class4_spec y : (y < 65536)%N -> class4 y = existsb (fun p => inPrefix 16 p.1 (N.shiftr p.2 16) y) prefixes4.
Proof.
  intros Hy. apply eqb_prop. revert y Hy. apply all16_spec. vm_compute. reflexivity.
Qed.

Lemma class6_spec y : (y < 65536)%N -> class6 y = existsb (fun p => inPrefix 16 p.1 (N.shiftr p.2 112) y) prefixes6.
Proof. intros Hy. apply eqb_prop. revert y Hy. apply all16_spec. vm_compute. reflexivity. Qed.

(** ** Theorems *)

Lemma Unmap_wf a : wf_addr a -> wf_addr (Unmap a).
Proof.
  destruct a as [b|b zone]; unfold Unmap; [exact (fun H => H)|]. destruct (N.shiftr b 32 =? 65535)%N; [|exact (fun H => H)].
  intros _. unfold wf_addr. change 4294967295%N with (N.ones 32). rewrite N.land_ones. apply N.mod_upper_bound. discriminate.
Qed.

Lemma Unmap_idem a : Unmap (Unmap a) = Unmap a.
Proof.
  destruct a as [b|b zone]; [reflexivity|]. destruct (N.shiftr b 32 =? 65535)%N eqn:E.
  - replace (Unmap (V6 b zone)) with (V4 (N.land b 4294967295)) by (unfold Unmap; rewrite E; reflexivity). reflexivity.
  - assert (Hu : Unmap (V6 b zone) = V6 b zone) by (unfold Unmap; rewrite E; reflexivity). rewrite Hu. exact Hu.
Qed.

Lemma orb_order4 a b c m k u : (m = true -> k = true) -> a || b || c || m || false || k || u || false = a || b || c || k || u.
Proof. destruct a, b, c, m, k, u; naive_solver. Qed.

Lemma orb_order6 a b c d e f u g : a || b || c || d || e || f || (u && true) || (true && g) = b || c || d || e || f || g || a || u.
Proof. by destruct a, b, c, d, e, f, u, g. Qed.

(** The reject list, as netip classifies addresses, is a list of prefixes. *)
Lemma disallowed_prefixes a : wf_addr a -> zoneless (Unmap a) = true -> isDisallowedWebhookAddr a = internal a.
Proof.
  intros Hwf%Unmap_wf. unfold isDisallowedWebhookAddr, internal. destruct (Unmap a) as [b|b zone]; cbn [zoneless] in *.
  - intros _. assert (Hy : (N.shiftr b 16 < 65536)%N) by exact (shift16 16 b Hwf).
    transitivity (class4 (N.shiftr b 16) || (b =? 0)%N).
    + unfold IsLoopback, IsPrivate, IsLinkLocalUnicast, IsLinkLocalMulticast, IsInterfaceLocalMulticast, IsMulticast, IsUnspecified,
        siteLocalV6_Contains, class4, v4_0, v4_1, v4_2. rewrite N.shiftr_shiftr. change (16 + 8)%N with 24%N.
      apply orb_order4. rewrite !andb_true_iff. intros [[->%N.eqb_eq _] _]. reflexivity.
    + rewrite class4_spec by exact Hy. apply (f_equal (fun x => x || (b =? 0)%N)). unfold prefixes4. cbn [existsb fst snd].
      rewrite <- !(inPrefix_high 32 16) by (lia || reflexivity). reflexivity.
  - intros Hz. assert (Hy : (N.shiftr b 112 < 65536)%N) by exact (shift16 112 b Hwf).
    transitivity (class6 (N.shiftr b 112) || (b =? 1)%N || (b =? 0)%N).
    + unfold IsLoopback, IsPrivate, IsLinkLocalUnicast, IsLinkLocalMulticast, IsInterfaceLocalMulticast, IsMulticast, IsUnspecified,
        siteLocalV6_Contains, class6, v6u16_0. rewrite Hz, N.shiftr_shiftr. change (112 + 6)%N with 118%N.
      apply orb_order6.
    + rewrite class6_spec by exact Hy. apply (f_equal (fun x => x || (b =? 1)%N || (b =? 0)%N)). unfold prefixes6. cbn [existsb fst snd].
      rewrite <- !(inPrefix_high 128 112) by (lia || reflexivity). reflexivity.
Qed.

Lemma dialled_sub answers ips a : a ∈ dialled answers ips -> a ∈ ips.
Proof. induction ips as [|ip rest IH]; simpl; [done|]. destruct (answers ip); set_solver. Qed.

(** C27: what a webhook delivery connects to. Every address a delivery dials was checked
    in that same delivery: without a zone it is outside the loopback, private,
    link-local, multicast, unspecified and site-local prefixes, IPv4-mapped addresses
    counted as IPv4; and the target's scheme is https, or http where that is allowed,
    and its host is on the operator's list if there is one. *)
Theorem webhook_dials_allowed urlParse ParseAddr toLower lookup p target answers http a :
  (forall h x, ParseAddr h = Some x -> wf_addr x) -> (forall h l, lookup h = Some l -> Forall wf_addr l) ->
  a ∈ (Deliver urlParse ParseAddr toLower lookup p target answers http).1 ->
  (zoneless a = true -> internal a = false) /\
  exists u, urlParse target = Some u /\ (u_Scheme u = "https" \/ (u_Scheme u = "http" /\ AllowHTTP p = true)) /\
    (AllowedHosts p = [] \/ toLower (u_Hostname u) ∈ AllowedHosts p).
Proof.
  intros HP HL. unfold Deliver. destruct (Validate _ _ _ _ p target) as [t|] eqn:Hv; [|by intros ?%not_elem_of_nil].
  intros Ha%dialled_sub. unfold Validate in Hv. destruct (urlParse target) as [u|]; [|done]. destruct (seqb (u_Host u) ""); [done|].
  destruct (negb (_ || _)) eqn:Hs; [done|]. destruct (seqb (u_Hostname u) ""); [done|].
  destruct ((0 <? _)%nat && _) eqn:Hh; [done|]. destruct (resolveHost _ _ _) as [addrs|] eqn:Hr; [|done].
  destruct (bool_decide (addrs = []) || _) eqn:He; [done|]. injection Hv as <-. apply orb_false_iff in He as [_ He]. simpl in Ha. split.
  - intros Hz. assert (Hd : isDisallowedWebhookAddr a = false).
    { apply not_true_iff_false. intros Hd. rewrite <- not_true_iff_false in He. apply He, existsb_exists. exists a. by rewrite <- list_elem_of_In. }
    assert (Hw : exists x, a = Unmap x /\ wf_addr x).
    { unfold resolveHost in Hr. destruct (ParseAddr (u_Hostname u)) as [x|] eqn:Hx.
      - injection Hr as <-. apply list_elem_of_singleton in Ha. exists x. eauto.
      - destruct (lookup (u_Hostname u)) as [l|] eqn:Hl; [|done]. injection Hr as <-. apply list_elem_of_fmap in Ha as (x & -> & Hin).
        exists x. split; [done|]. specialize (HL _ _ Hl). rewrite Forall_forall in HL. by apply HL. }
    destruct Hw as (x & -> & Hx). rewrite <- Hd. symmetry. apply disallowed_prefixes; [by apply Unmap_wf|].
    rewrite Unmap_idem. exact Hz.
  - exists u. split; [done|]. apply negb_false_iff in Hs. split.
    + rewrite orb_true_iff, andb_true_iff, !seqb_true in Hs. tauto.
    + destruct (AllowedHosts p); [by left|right]. simpl in Hh. apply negb_false_iff, bool_decide_eq_true in Hh. exact Hh.
Qed.

(** A target by name, by an address with a zone, and one the resolver cannot answer. *)
Definition demoParse (s : string) : option URL := Some (mkURL "https" s s "").
Definition demoAddr (s : string) : option Addr := if seqb s "::%lo" then Some (V6 0 "lo") else None.
Definition demoLookup (s : string) : option (list Addr) := if seqb s "hooks.example" then Some [V4 1572395042] else None.
Definition demoDeliver (target : string) : list Addr * outcome :=
  Deliver demoParse demoAddr (fun s => s) demoLookup (mkPolicy false []) target (fun _ => true) (Some 200%Z).

Lemma webhook_dials_allowed_witness :
  V4 1572395042 ∈ (demoDeliver "hooks.example").1 /\ internal (V4 1572395042) = false.
Proof.
  assert (Hin : V4 1572395042 ∈ (demoDeliver "hooks.example").1) by (left).
  split; [exact Hin|].
  refine (proj1 (webhook_dials_allowed demoParse demoAddr (fun s => s) demoLookup (mkPolicy false []) "hooks.example" (fun _ => true)
    (Some 200%Z) (V4 1572395042) _ _ Hin) eq_refl).
  - intros h x. unfold demoAddr. destruct (seqb h "::%lo"); [|discriminate]. intros [= <-]. reflexivity.
  - intros h l. unfold demoLookup. destruct (seqb h "hooks.example"); [|discriminate]. intros [= <-]. repeat constructor.
Defined.

(** The unspecified address with a zone is dialled: netip compares the zone too. *)
Example zoned_unspecified_dialled : (demoDeliver "::%lo").1 = [V6 0 "lo"].
Proof. vm_compute. reflexivity. Qed.

(** A name the resolver fails on is a rejected target, so the job is never retried. *)
Example resolver_failure_is_final : (demoDeliver "flaky.example").2 = NotDelivered true "webhook target rejected".
Proof. vm_compute. reflexivity. Qed.

(** Broadcast, 0.0.0.0/8 and the shared address space are dialled. *)
Example unroutable_allowed :
  existsb isDisallowedWebhookAddr [V4 4294967295; V4 1; V4 (100 * 2 ^ 24 + 64 * 2 ^ 16)] = false.
Proof. vm_compute. reflexivity. Qed.
