(* ===== verification/NotifHTTP.v ===== *)
(** * The notification service

    modules/notification/service/http.go, authzclient.go and orgclient.go: every route
    as a program over the store, the authorization service and org. *)

From stdpp Require Import base gmap strings list.
From S2P Require Import Prelude GoStrings Tuple Decision Clients AuthzHTTP AdminClient OrgTree Org ModuleKit Notification.

(** ** Replies *)

(** A message on the wire, with the time the caller read it. *)
Abbreviation messageWire := (UUID * Message * option Z)%type.
Abbreviation channelWire := (UUID * Channel)%type.

Inductive ntBody : Type :=
| BChannel (c : channelWire)
| BChannels (l : list channelWire) (total : nat) (page pageSize : Z)
| BMessage (m : messageWire)
| BMessages (l : list messageWire) (total : nat) (page pageSize : Z)
| BStatus (s : string)
| BSent (sent skipped : nat).

Inductive ntReply : Type :=
| WriteData (status : Z) (body : ntBody)
| WriteError (status : Z) (code : string)
| NoContent.

(** [writeStoreError] *)
Definition writeStoreError (err : nt_error) : ntReply :=
  match err with
  | NtValidation _ => WriteError 422 "VALIDATION_ERROR"
  | WebhookPolicyError => WriteError 422 "VALIDATION_FAILED"
  | ErrChannelNotFound | ErrMessageNotFound | ErrRecipientNotFound => WriteError 404 "NOT_FOUND"
  | NtIdempotencyConflict => WriteError 409 "IDEMPOTENCY_CONFLICT"
  | ErrConflict => WriteError 409 "CONFLICT"
  | ErrLeaseLost | NtDatabase => WriteError 500 "INTERNAL_ERROR"
  end.

Definition badRequest : ntReply := WriteError 400 "BAD_REQUEST".
Definition denied : ntReply := WriteError 403 "AUTHORIZATION_DENIED".
Definition unavailable : ntReply := WriteError 503 "AUTHORIZATION_UNAVAILABLE".
Definition unauthorized : ntReply := WriteError 401 "AUTH_TOKEN_INVALID".

(** ** Requests *)

Record createChannelRequest := mkCreateChannel { cc_Key : string; cc_Label : string; cc_Kind : string; cc_Target : option string }.
Record sendMessageRequest := mkSendMessage { sm_ChannelID : string; sm_SubjectLine : string; sm_Body : string }.
Record sendEventRequest := mkSendEvent {
  se_RecipientKcSubs : list string; se_SubjectLine : string; se_Body : string; se_SourceModule : string }.

(** The routes; a body that does not decode is [None]. *)
Inductive ntRequest : Type :=
| ReqListChannels (page pageSize : string)
| ReqCreateChannel (body : option createChannelRequest)
| ReqGetChannel (channelId : string)
| ReqDeleteChannel (channelId : string)
| ReqSubscribe (channelId : string) (contentLength : Z) (email : option (option string))
| ReqUnsubscribe (channelId : string)
| ReqListInbox (page pageSize : string)
| ReqSendMessage (body : option sendMessageRequest) (idempotencyKey : string)
| ReqMarkRead (messageId : string)
| ReqSendEvent (body : option sendEventRequest).

Record requestContext := mkContext { rc_Subject : string; rc_RawBearer : string }.

Definition featureChannelsManage : string := "notification.channels.manage".
Definition featureMessagesSend : string := "notification.messages.send".
Definition featureInboxView : string := "notification.inbox.view".

(** [relationLeg]; the object type is company_module whenever there is a relation. *)
Definition relationLeg (featureKey : string) : string :=
  if seqb featureKey featureChannelsManage || seqb featureKey featureMessagesSend then "admin" else "".

Section service.
Context `{UT : UUIDText} (verify : string -> option Claims) (parseUUID : string -> option UUID).
Context (idempotencyPayloadHash : UUID -> string -> string -> string) (claimGroup : string).
(** The webhook policy with what the resolver answers this request. *)
Context (validateTarget : string -> bool).
(** Whether org is configured. *)
Context (hasOrg : bool).

Abbreviation P A := (prog NtDB nt_error A).
Abbreviation Step A := (P (result ntReply A)).

(** A store call whose error is written with [writeStoreError]. *)
Definition storeCall {A} (m : NtTx A) : Step A :=
  let& r := Transact m in
  Ret (match r with Ok a => Ok a | Err e => Err (writeStoreError e) end).

(** [ParsePathUUID] and [DecodeJSON] answer 400. *)
Definition orBadRequest {A} (o : option A) : Step A := Ret (match o with Some a => Ok a | None => Err badRequest end).

(** ** The clients *)

(** [AuthzClient.Can] *)
Definition Can (rawBearer featureKey companyID : string) : P (option bool) :=
  let& r := DoCan rawBearer (canRequest "notification" featureKey companyID (relationLeg featureKey)) in
  Ret (fst <$> r).

(** [GrantChannelAnchor] *)
Definition GrantChannelAnchor (rawBearer companyID channelID : string) : P bool :=
  let& ok := GrantOrRevoke rawBearer companyID "grant" [AnchorTuple "notification" "notification_channel" channelID companyID] channelID in
  Ret ok.

(** [IsActiveMember]; an error and "not a member" are the same to its caller. *)
Definition IsActiveMember (companyID kcSub : string) : P bool :=
  let& r := MemberByKcSub companyID kcSub in
  Ret (match r with Some (_, isMember, isActive) => isMember && isActive | None => false end).

(** [withAuth]; the question is asked about the text of the path. *)
Definition withAuth (header companyId featureKey : string) (next : requestContext -> P ntReply) : P ntReply :=
  match Verify verify (BearerFromHeader header) with
  | None => Ret unauthorized
  | Some subject =>
      if negb (seqb companyId "") then
        run& allowed := Can header featureKey companyId in
        match allowed with
        | None => Ret unavailable
        | Some false => Ret denied
        | Some true => next (mkContext subject header)
        end
      else next (mkContext subject header)
  end.

(** ** Channels *)

Definition handleCreateChannel (companyId : string) (body : option createChannelRequest) (rc : requestContext) : P ntReply :=
  let? companyID := orBadRequest (parseUUID companyId) in
  let? req := orBadRequest body in
  let? c := storeCall (CreateChannel validateTarget (rc_Subject rc) companyID (cc_Key req) (cc_Label req) (cc_Kind req) (cc_Target req)) in
  run& ok := GrantChannelAnchor (rc_RawBearer rc) (uuidString companyID) (uuidString c.1) in
  Ret (if ok then WriteData 201 (BChannel c) else unavailable).

(** [ListChannels]: two statements. *)
Definition handleListChannels (companyId page pageSize : string) (rc : requestContext) : P ntReply :=
  let? companyID := orBadRequest (parseUUID companyId) in
  let '(page, pageSize) := PageParams page pageSize in
  let? total := storeCall (countChannels companyID) in
  let? items := storeCall (pageChannels companyID page pageSize) in
  let '(page, pageSize) := ClampPage page pageSize in
  Ret (WriteData 200 (BChannels items total page pageSize)).

Definition handleGetChannel (companyId channelId : string) (rc : requestContext) : P ntReply :=
  let? companyID := orBadRequest (parseUUID companyId) in
  let? channelID := orBadRequest (parseUUID channelId) in
  let? c := storeCall (GetChannel companyID channelID) in
  Ret (WriteData 200 (BChannel c)).

Definition handleDeleteChannel (companyId channelId : string) (rc : requestContext) : P ntReply :=
  let? companyID := orBadRequest (parseUUID companyId) in
  let? channelID := orBadRequest (parseUUID channelId) in
  let? _ := storeCall (DeleteChannel (rc_Subject rc) companyID channelID) in
  Ret NoContent.

(** ** Subscriptions *)

(** [Subscribe] *)
Definition Subscribe (actor : string) (companyID channelID : UUID) (subject : string) (email : option string) : Step unit :=
  run& r := storeCall (GetChannel companyID channelID) in
  match r with Err e => Ret (Err e) | Ok _ => storeCall (subscribeTx actor channelID subject email) end.

(** [Unsubscribe] *)
Definition Unsubscribe (actor : string) (companyID channelID : UUID) (subject : string) : Step unit :=
  run& r := storeCall (GetChannel companyID channelID) in
  match r with Err e => Ret (Err e) | Ok _ => storeCall (unsubscribeTx actor channelID subject) end.

Definition handleSubscribe (companyId channelId : string) (contentLength : Z) (email : option (option string)) (rc : requestContext)
    : P ntReply :=
  let? companyID := orBadRequest (parseUUID companyId) in
  let? channelID := orBadRequest (parseUUID channelId) in
  let? email := if (contentLength =? 0)%Z then Ret (Ok None) else orBadRequest email in
  let? _ := Subscribe (rc_Subject rc) companyID channelID (rc_Subject rc) email in
  Ret (WriteData 201 (BStatus "subscribed")).

Definition handleUnsubscribe (companyId channelId : string) (rc : requestContext) : P ntReply :=
  let? companyID := orBadRequest (parseUUID companyId) in
  let? channelID := orBadRequest (parseUUID channelId) in
  let? _ := Unsubscribe (rc_Subject rc) companyID channelID (rc_Subject rc) in
  Ret NoContent.

(** ** Messages *)

(** [SendMessage]: the message, and whether it is new. *)
Definition SendMessage (actor : string) (companyID channelID : UUID) (subjectLine body idempotencyKey : string)
    : Step (UUID * Message * bool) :=
  match validateSubjectLineAndBody subjectLine body with
  | Err e => Ret (Err (writeStoreError e))
  | Ok _ =>
      run& r := storeCall (GetChannel companyID channelID) in
      match r with
      | Err e => Ret (Err e)
      | Ok (_, channel) =>
          let send : Step (UUID * Message * bool) :=
            run& r := storeCall (sendTx idempotencyPayloadHash claimGroup actor companyID channelID channel subjectLine body idempotencyKey) in
            Ret (let! m := r in Ok (m, true)) in
          if seqb idempotencyKey "" then send
          else
            run& found := storeCall (findByIdempotencyKey channelID idempotencyKey) in
            match found with
            | Err e => Ret (Err e)
            | Ok (Some (existing, existingHash)) =>
                Ret (if negb (seqb existingHash (idempotencyPayloadHash channelID subjectLine body))
                     then Err (writeStoreError NtIdempotencyConflict) else Ok (existing, false))
            | Ok None => send
            end
      end
  end.

Definition handleSendMessage (companyId : string) (body : option sendMessageRequest) (idempotencyKey : string) (rc : requestContext)
    : P ntReply :=
  let? companyID := orBadRequest (parseUUID companyId) in
  let? req := orBadRequest body in
  let? channelID := orBadRequest (parseUUID (sm_ChannelID req)) in
  if (200 <? String.length idempotencyKey)%nat then Ret badRequest
  else
    let? r := SendMessage (rc_Subject rc) companyID channelID (sm_SubjectLine req) (sm_Body req) idempotencyKey in
    let '(m, created) := r in
    Ret (WriteData (if created : bool then 201 else 200) (BMessage (m, None))).

Definition handleListInbox (companyId page pageSize : string) (rc : requestContext) : P ntReply :=
  let? companyID := orBadRequest (parseUUID companyId) in
  let '(page, pageSize) := PageParams page pageSize in
  let? total := storeCall (countInbox companyID (rc_Subject rc)) in
  let? items := storeCall (pageInbox companyID (rc_Subject rc) page pageSize) in
  let '(page, pageSize) := ClampPage page pageSize in
  Ret (WriteData 200 (BMessages items total page pageSize)).

Definition handleMarkRead (companyId messageId : string) (rc : requestContext) : P ntReply :=
  let? companyID := orBadRequest (parseUUID companyId) in
  let? messageID := orBadRequest (parseUUID messageId) in
  let? m := storeCall (MarkRead (rc_Subject rc) companyID messageID (rc_Subject rc)) in
  Ret (WriteData 200 (BMessage m)).

(** ** Targeted events *)

(** The membership checks of [SendTargetedEvent]: the confirmed recipients in order. *)
Fixpoint confirm (companyID : string) (recipientKcSubs : list string) : P (list string) :=
  match recipientKcSubs with
  | [] => Ret []
  | kcSub :: rest =>
      run& ok := IsActiveMember companyID kcSub in
      run& l := confirm companyID rest in
      Ret (if ok : bool then kcSub :: l else l)
  end.

(** [SendTargetedEvent]: how many it was sent to, and how many it skipped. *)
Definition SendTargetedEvent (actor : string) (companyID : UUID) (sourceModule subjectLine body : string) (recipientKcSubs : list string)
    : Step (nat * nat) :=
  if negb (eventsSourceModulePattern sourceModule) then Ret (Err (writeStoreError (NtValidation "sourceModule")))
  else
    match validateSubjectLineAndBody subjectLine body with
    | Err e => Ret (Err (writeStoreError e))
    | Ok _ =>
        match recipientKcSubs with
        | [] => Ret (Err (writeStoreError (NtValidation "recipientKcSubs")))
        | _ =>
            run& confirmed := confirm (uuidString companyID) recipientKcSubs in
            let skipped := (length recipientKcSubs - length confirmed)%nat in
            match confirmed with
            | [] => Ret (Ok (0, skipped))
            | _ =>
                run& r := storeCall (eventTx actor companyID sourceModule subjectLine body confirmed) in
                Ret (let! _ := r in Ok (length confirmed, skipped))
            end
        end
    end.

(** [handleSendEvent]; not behind [withAuth], its question is about the parsed id. *)
Definition handleSendEvent (header companyId : string) (body : option sendEventRequest) : P ntReply :=
  let? companyID := orBadRequest (parseUUID companyId) in
  match Verify verify (BearerFromHeader header) with
  | None => Ret unauthorized
  | Some subject =>
      run& allowed := Can header featureInboxView (uuidString companyID) in
      match allowed with
      | None => Ret unavailable
      | Some false => Ret denied
      | Some true =>
          let? req := orBadRequest body in
          if negb hasOrg then Ret (WriteError 503 "INTERNAL_ERROR")
          else
            let? r := SendTargetedEvent subject companyID (se_SourceModule req) (se_SubjectLine req) (se_Body req) (se_RecipientKcSubs req) in
            Ret (WriteData 200 (BSent r.1 r.2))
      end
  end.

(** [mountRoutes]: the gate and the handler of each route. *)
Definition serve (header companyId : string) (r : ntRequest) : P ntReply :=
  match r with
  | ReqListChannels page pageSize => withAuth header companyId featureInboxView (handleListChannels companyId page pageSize)
  | ReqCreateChannel body => withAuth header companyId featureChannelsManage (handleCreateChannel companyId body)
  | ReqGetChannel channelId => withAuth header companyId featureInboxView (handleGetChannel companyId channelId)
  | ReqDeleteChannel channelId => withAuth header companyId featureChannelsManage (handleDeleteChannel companyId channelId)
  | ReqSubscribe channelId n email => withAuth header companyId featureInboxView (handleSubscribe companyId channelId n email)
  | ReqUnsubscribe channelId => withAuth header companyId featureInboxView (handleUnsubscribe companyId channelId)
  | ReqListInbox page pageSize => withAuth header companyId featureInboxView (handleListInbox companyId page pageSize)
  | ReqSendMessage body key => withAuth header companyId featureMessagesSend (handleSendMessage companyId body key)
  | ReqMarkRead messageId => withAuth header companyId featureInboxView (handleMarkRead companyId messageId)
  | ReqSendEvent body => handleSendEvent header companyId body
  end.
End service.
