(* ===== verification/NotifProps.v ===== *)
(** * The notification service: who sees and changes what

    What each transaction of the store does, what every step of every request keeps,
    whatever happens between its calls, and the constraints of the schema. *)

From stdpp Require Import base gmap strings list sorting relations.
From S2P Require Import Prelude GoStrings Tuple Decision Clients AuthzHTTP AdminClient OrgTree Org ModuleKit ModuleRules Notification NotifWorker NotifDelivery NotifHTTP.

(** ** Transactions *)

Definition logged (actor action subject : string) (db : NtDB) : NtDB :=
  with_ntAudit db (ntAudit db ++ [mkNtEvent actor action subject]).

Lemma nread_ok {X} (f : NtDB -> result nt_error X) env db x db' : nread f env db = Ok (x, db') -> f db = Ok x /\ db' = db.
Proof. unfold nread. destruct (tx_broken env); [done|]. destruct (f db); [|done]. by intros [= -> ->]. Qed.

Lemma audited_ok {X} (m : NtTx X) ev env db x db' :
  audited m ev env db = Ok (x, db') -> exists db1, m env db = Ok (x, db1) /\ db' = with_ntAudit db1 (ntAudit db1 ++ [ev x]).
Proof.
  unfold audited. destruct (tx_broken env); [done|]. destruct (m env db) as [[y db1]|]; [|done]. simpl. intros [= -> <-]. by exists db1.
Qed.

Lemma channelIn_Some db companyID id c : channelIn db companyID id = Some c <-> channels db !! id = Some c /\ ch_company c = companyID.
Proof.
  unfold channelIn. destruct (channels db !! id) as [c'|]; simpl; [|naive_solver]. case_bool_decide; naive_solver.
Qed.

Lemma insertRecipients_ok id subjects rs rs' :
  insertRecipients id subjects rs = Ok rs' ->
  NoDup subjects /\ (forall s, s ∈ subjects -> rs !! (id, s) = None) /\
  forall k, rs' !! k = if bool_decide (k.1 = id /\ k.2 ∈ subjects) then Some None else rs !! k.
Proof.
  revert rs. induction subjects as [|s rest IH]; intros rs; simpl.
  { intros [= <-]. split_and!; [constructor|by intros s ?%not_elem_of_nil|]. intros k. case_bool_decide as Hk; [|done]. destruct Hk as [_ Hk]. by apply not_elem_of_nil in Hk. }
  case_bool_decide as Hn; [done|]. apply eq_None_not_Some in Hn. intros (Hd & Hfr & Hl)%IH.
  assert (Hs : s ∉ rest). { intros Hs%Hfr. by rewrite lookup_insert_eq in Hs. }
  split_and!; [by constructor| |].
  - intros s' [->|Hs']%elem_of_cons; [done|]. specialize (Hfr s' Hs'). by apply lookup_insert_None in Hfr as [? _].
  - intros [i s']. rewrite Hl. simpl. case_bool_decide as H1; case_bool_decide as H2; try done.
    + destruct H2. destruct H1. split; [done|by right].
    + destruct H2 as [-> [->|?]%elem_of_cons]; [by rewrite lookup_insert_eq|by destruct H1].
    + apply lookup_insert_ne. intros [= <- <-]. apply H2. split; [done|left].
Qed.

Section store.
Context `{UT : UUIDText} (idempotencyPayloadHash : UUID -> string -> string -> string) (claimGroup : string).

(** The jobs a message adds. *)
Definition jobsFor (messageID : UUID) (targets : list (string * string)) (now : Z) : list DeliveryJob :=
  (fun t : string * string => newJob claimGroup messageID t.1 t.2 now) <$> targets.

Lemma insertJobs_exact id targets ids now js js' :
  insertJobs claimGroup id targets ids now js = Ok js' ->
  exists new, new.*2 = jobsFor id targets now /\ NoDup new.*1 /\ (forall i, i ∈ new.*1 -> js !! i = None) /\ js' = list_to_map new ∪ js.
Proof.
  revert ids js. induction targets as [|[kind target] rest IH]; intros ids js; simpl.
  { intros [= <-]. exists []. split_and!; [done|constructor|by intros i ?%not_elem_of_nil|]. by rewrite list_to_map_nil, (left_id_L ∅ (∪)). }
  case_bool_decide as Hn; [done|]. apply eq_None_not_Some in Hn. intros (new & Hj & Hd & Hfr & ->)%IH.
  assert (Hi : ids 0 ∉ new.*1). { intros Hi%Hfr. by rewrite lookup_insert_eq in Hi. }
  exists ((ids 0, newJob claimGroup id kind target now) :: new). split_and!.
  - rewrite fmap_cons, Hj. done.
  - by constructor.
  - intros i [->|Hi']%elem_of_cons; [done|]. by apply Hfr, lookup_insert_None in Hi' as [? _].
  - rewrite list_to_map_cons, <- insert_union_l, insert_union_r; [done|]. by apply not_elem_of_list_to_map_1.
Qed.

(** What a sent message does to the tables. *)
Record sends (actor : string) (companyID ch : UUID) (c : Channel) (subjectLine body key : string) (now : Z)
    (db : NtDB) (id : UUID) (m : Message) (db' : NtDB) : Prop := {
  sends_channel : is_Some (channels db !! ch);
  sends_new : messages db !! id = None;
  sends_message : m = mkMessage companyID ch subjectLine body actor (if seqb key "" then None else Some key)
                        (if seqb key "" then None else Some (idempotencyPayloadHash ch subjectLine body)) now;
  sends_key : key <> "" -> forall i a, messages db !! i = Some a -> ~ message_with_key ch key a;
  sends_tables : exists rs js new,
    db' = logged actor "notification.message.send" (channelSubject ch)
            (with_jobs (with_recipients (with_messages db (<[id := m]> (messages db))) rs) js) /\
    NoDup (subscribers db ch).*1 /\
    (forall k, rs !! k = if bool_decide (k.1 = id /\ k.2 ∈ (subscribers db ch).*1) then Some None else recipients db !! k) /\
    new.*2 = jobsFor id (jobTargets c (subscribers db ch)) now /\ NoDup new.*1 /\ (forall i, i ∈ new.*1 -> jobs db !! i = None) /\
    js = list_to_map new ∪ jobs db
}.

Lemma sendTx_ok actor companyID ch c subjectLine body key env db id m db' :
  sendTx idempotencyPayloadHash claimGroup actor companyID ch c subjectLine body key env db = Ok (id, m, db') ->
  sends actor companyID ch c subjectLine body key (tx_now env) db id m db'.
Proof.
  intros H. apply audited_ok in H as (db1 & H & ->). cbv zeta in H.
  case_bool_decide as Hid; [done|]. apply eq_None_not_Some in Hid. destruct (_ ≫= _) as [?|] eqn:Hk; [done|].
  case_bool_decide as Hch; [|done]. simpl in H.
  destruct (insertRecipients _ _ _) as [rs|] eqn:Er; [|done]. cbn [result_bind] in H.
  destruct (insertJobs _ _ _ _ _ _) as [js|] eqn:Ej; [|done]. injection H as <- <- <-.
  apply insertRecipients_ok in Er as (Hd & _ & Hrs). apply insertJobs_exact in Ej as (new & ? & ? & ? & ?).
  split; [done|done|done| |by exists rs, js, new].
  intros Hkey. destruct (seqb key "") eqn:E; [by apply seqb_true in E|]. simpl in Hk. revert Hk. by rewrite find_where_None.
Qed.

(** What a targeted event does. *)
Record tells (actor : string) (companyID : UUID) (sourceModule subjectLine body : string) (confirmed : list string) (now : Z)
    (db : NtDB) (ch : UUID) (db' : NtDB) : Prop := {
  tells_tables : exists id cs rs c,
    (channels db !! ch = Some c /\ cs = channels db \/
     channels db !! ch = None /\ find_where (same_key companyID ("events-" +:+ sourceModule)) (channels db) = None /\
     c = mkChannel companyID ("events-" +:+ sourceModule) ("Events: " +:+ sourceModule) "in_app" None now /\ cs = <[ch := c]> (channels db)) /\
    same_key companyID ("events-" +:+ sourceModule) c /\ messages db !! id = None /\
    NoDup confirmed /\
    (forall k, rs !! k = if bool_decide (k.1 = id /\ k.2 ∈ confirmed) then Some None else recipients db !! k) /\
    db' = logged actor "notification.event.send" (channelSubject ch)
            (with_recipients (with_messages (with_channels db cs)
               (<[id := mkMessage companyID ch subjectLine body actor None None now]> (messages db))) rs)
}.

Lemma eventTx_ok actor companyID sourceModule subjectLine body confirmed env db ch db' :
  eventTx actor companyID sourceModule subjectLine body confirmed env db = Ok (ch, db') ->
  tells actor companyID sourceModule subjectLine body confirmed (tx_now env) db ch db'.
Proof.
  intros H. apply audited_ok in H as (db1 & H & ->). cbv beta zeta in H. split.
  unfold eventsChannel in H. destruct (find_where _ _) as [[cid c]|] eqn:Ef; cbn [result_bind] in H.
  - case_bool_decide as Hid; [done|]. apply eq_None_not_Some in Hid. destruct (insertRecipients _ _ _) as [rs|] eqn:Er; [|done].
    injection H as <- <-. apply insertRecipients_ok in Er as (? & _ & ?). apply find_where_Some in Ef as [? ?].
    exists (tx_ids env 1), (channels db), rs, c. split_and!; auto.
  - case_bool_decide as Hch; [done|]. apply eq_None_not_Some in Hch. cbn [result_bind] in H.
    case_bool_decide as Hid; [done|]. apply eq_None_not_Some in Hid. destruct (insertRecipients _ _ _) as [rs|] eqn:Er; [|done].
    injection H as <- <-. apply insertRecipients_ok in Er as (? & _ & ?). eexists (tx_ids env 1), _, rs, _.
    split_and!; [right|..]; try done.
Qed.

Lemma CreateChannel_ok validateTarget actor companyID key label kind target env db id c db' :
  CreateChannel validateTarget actor companyID key label kind target env db = Ok (id, c, db') ->
  c = mkChannel companyID key label kind target (tx_now env) /\ channels db !! id = None /\
  find_where (same_key companyID key) (channels db) = None /\
  (kind = "webhook" -> exists t, target = Some t /\ validateTarget t = true) /\
  db' = logged actor "notification.channel.create" (channelSubject id) (with_channels db (<[id := c]> (channels db))).
Proof.
  unfold CreateChannel. destruct (negb _); [done|]. destruct (_ || _); [done|]. destruct (negb _); [done|]. intros H.
  assert (Hw : kind = "webhook" -> exists t, target = Some t /\ validateTarget t = true).
  { intros ->. simpl in H. destruct target as [t|]; [|done]. exists t. split; [done|]. simpl in H. destruct (seqb t ""); [done|].
    by destruct (validateTarget t). }
  destruct (if seqb kind "webhook" then _ else _) as [[]|]; [|done]. cbn [result_bind] in H.
  apply audited_ok in H as (db1 & H & ->). cbv beta zeta in H. unfold insertChannel in H. case_bool_decide as Hid; [done|].
  apply eq_None_not_Some in Hid. simpl in H. destruct (find_where _ _) eqn:Ef; [done|]. injection H as <- <- <-. done.
Qed.

Lemma MarkRead_ok actor companyID messageID subject env db r db' :
  MarkRead actor companyID messageID subject env db = Ok (r, db') ->
  exists m old, messages db !! messageID = Some m /\ m_company m = companyID /\ recipients db !! (messageID, subject) = Some old /\
    r = (messageID, m, Some (default (tx_now env) old)) /\
    db' = logged actor "notification.message.read" ("notification_message:" +:+ uuidString messageID)
            (with_recipients db (<[(messageID, subject) := Some (default (tx_now env) old)]> (recipients db))).
Proof.
  intros H. apply audited_ok in H as (db1 & H & ->). cbv beta zeta in H. destruct (negb _) eqn:E; [done|].
  apply negb_false_iff in E. unfold recipientExists in E. apply andb_true_iff in E as [E1 E2].
  apply bool_decide_eq_true in E1 as [old Ho]. apply bool_decide_eq_true in E2. rewrite Ho in H.
  destruct (messages db !! messageID) as [m|]; [|done]. injection E2 as E2. exists m, old. split_and!; try done; destruct old as [t|].
  - rewrite Ho in H. by injection H as <- _.
  - rewrite lookup_insert_eq in H. by injection H as <- _.
  - rewrite Ho in H. injection H as _ <-. simpl. rewrite insert_id by done. by destruct db.
  - rewrite lookup_insert_eq in H. by injection H as _ <-.
Qed.
End store.

(** ** What a request may do *)

Section props.
Context `{UT : UUIDText} (verify : string -> option Claims) (uuid_ok : string -> bool) (authz : Service -> Prop).
Context (parseUUID : string -> option UUID).
Context (idempotencyPayloadHash : UUID -> string -> string -> string) (claimGroup : string).
Context (validateTarget : string -> bool) (hasOrg : bool).

Abbreviation MW := (MWorld NtDB).
Abbreviation allows := (allows verify authz).

(** The authorization service let the bearer use the feature in the company of this
    text. *)
Definition ntMay (rc : requestContext) (companyId featureKey : string) : Prop :=
  allows (rc_RawBearer rc) (canRequest "notification" featureKey companyId (relationLeg featureKey)).

Section spec.
Context (seen : MW -> Prop) (rc : requestContext) (companyId : string) (companyID : UUID).
Abbreviation may := (ntMay rc companyId).

(** The channel was this one of the company in a world the request saw. *)
Definition channelWas (ch : UUID) (c : Channel) : Prop := exists w, seen w /\ channelIn (w_store w) companyID ch = Some c.

Inductive nt_write (db db' : NtDB) : Prop :=
| nw_create id c :
    may featureChannelsManage -> channels db !! id = None -> ch_company c = companyID ->
    find_where (same_key companyID (ch_key c)) (channels db) = None ->
    (ch_kind c = "webhook" -> exists t, ch_target c = Some t /\ validateTarget t = true) ->
    db' = logged (rc_Subject rc) "notification.channel.create" (channelSubject id) (with_channels db (<[id := c]> (channels db))) ->
    nt_write db db'
| nw_delete id c :
    may featureChannelsManage -> channelIn db companyID id = Some c ->
    db' = logged (rc_Subject rc) "notification.channel.delete" (channelSubject id) (cascade id db) -> nt_write db db'
| nw_subscribe id c email :
    may featureInboxView -> channelWas id c ->
    db' = logged (rc_Subject rc) "notification.subscription.create" (channelSubject id)
            (with_subscriptions db (<[(id, rc_Subject rc) := mkSubscription email false]> (subscriptions db))) -> nt_write db db'
| nw_unsubscribe id c :
    may featureInboxView -> channelWas id c ->
    db' = logged (rc_Subject rc) "notification.subscription.delete" (channelSubject id)
            (with_subscriptions db (delete (id, rc_Subject rc) (subscriptions db))) -> nt_write db db'
| nw_send ch c subjectLine body key now id m :
    may featureMessagesSend -> channelWas ch c ->
    sends idempotencyPayloadHash claimGroup (rc_Subject rc) companyID ch c subjectLine body key now db id m db' -> nt_write db db'
| nw_read id m old now :
    may featureInboxView -> messages db !! id = Some m -> m_company m = companyID -> recipients db !! (id, rc_Subject rc) = Some old ->
    db' = logged (rc_Subject rc) "notification.message.read" ("notification_message:" +:+ uuidString id)
            (with_recipients db (<[(id, rc_Subject rc) := Some (default now old)]> (recipients db))) -> nt_write db db'
| nw_event sourceModule subjectLine body confirmed now ch :
    ntMay rc (uuidString companyID) featureInboxView ->
    tells (rc_Subject rc) companyID sourceModule subjectLine body confirmed now db ch db' -> nt_write db db'.

Definition nt_discloses (r : ntReply) : Prop :=
  match r with
  | WriteData _ (BChannel c) => ch_company c.2 = companyID
  | WriteData _ (BChannels l _ _ n) => Forall (fun c => ch_company c.2 = companyID) l /\ (Z.of_nat (length l) <= n <= 100)%Z
  | WriteData _ (BMessages l _ _ n) =>
      exists w, seen w /\ Forall (fun m => m ∈ inbox companyID (rc_Subject rc) (w_store w)) l /\ (Z.of_nat (length l) <= n <= 100)%Z
  | WriteData _ (BMessage (id, m, readAt)) =>
      (* in the caller's inbox, or sent to a channel of the company by the caller, or sent there before with the same key *)
      (m_company m = companyID /\ exists w old, seen w /\ messages (w_store w) !! id = Some m /\ recipients (w_store w) !! (id, rc_Subject rc) = Some old) \/
      (may featureMessagesSend /\ readAt = None /\ (exists c, channelWas (m_channel m) c) /\
       (m_company m = companyID /\ m_createdBy m = rc_Subject rc \/ is_Some (m_key m)))
  | WriteData _ (BStatus _) | WriteData _ (BSent _ _) | WriteError _ _ | NoContent => True
  end.

Definition ntG (w w' : MW) : Prop := w_store w' = w_store w \/ nt_write (w_store w) (w_store w').
Abbreviation safe := (safe verify uuid_ok authz seen ntG).

Lemma ntG_same (w w' : MW) : w_store w' = w_store w -> ntG w w'.
Proof. by left. Qed.

(** A store call followed by the rest of the handler. *)
Lemma nt_store {X A} (m : NtTx X) (k : X -> prog NtDB nt_error A) (err : ntReply -> A) Q :
  (forall st code, Q (err (WriteError st code))) ->
  (forall w env x db, seen w -> m env (w_store w) = Ok (x, db) -> ntG w (mkMWorld db (w_authz w) (w_sent w)) /\ safe (k x) Q) ->
  safe (bind (storeCall m) (fun r => match r with Ok x => k x | Err e => Ret (err e) end)) Q.
Proof. intros He Hk. apply safe_bind, safe_transact; [apply ntG_same| |done]. intros []; apply He. Qed.

Lemma nt_store_then {X} (m : NtTx X) (k : X -> prog NtDB nt_error ntReply) :
  (forall w env x db, seen w -> m env (w_store w) = Ok (x, db) -> ntG w (mkMWorld db (w_authz w) (w_sent w)) /\ safe (k x) nt_discloses) ->
  safe (orReply (storeCall m) k) nt_discloses.
Proof. intros Hk. by apply (nt_store m k (fun e => e)). Qed.

Lemma nt_bad {A} (o : option A) (k : A -> prog NtDB nt_error ntReply) :
  (forall a, o = Some a -> safe (k a) nt_discloses) -> safe (orReply (orBadRequest o) k) nt_discloses.
Proof. intros Hk. destruct o; simpl; [by apply Hk|done]. Qed.

Lemma nt_reading {X A} (f : NtDB -> result nt_error X) (k : X -> prog NtDB nt_error A) (err : ntReply -> A) Q :
  (forall st code, Q (err (WriteError st code))) ->
  (forall w x, seen w -> f (w_store w) = Ok x -> safe (k x) Q) ->
  safe (bind (storeCall (nread f)) (fun r => match r with Ok x => k x | Err e => Ret (err e) end)) Q.
Proof. intros He Hk. apply nt_store; [done|]. intros w env x db Hw [H ->]%nread_ok. split; [by left|]. by eapply Hk. Qed.

Lemma nt_GetChannel {A} ch (k : UUID * Channel -> prog NtDB nt_error A) (err : ntReply -> A) Q :
  (forall st code, Q (err (WriteError st code))) ->
  (forall c, channelWas ch c -> safe (k (ch, c)) Q) ->
  safe (bind (storeCall (GetChannel companyID ch)) (fun r => match r with Ok x => k x | Err e => Ret (err e) end)) Q.
Proof.
  intros He Hk. apply nt_reading; [done|]. intros w x Hw. destruct (channelIn (w_store w) companyID ch) as [c|] eqn:E; [|done].
  intros [= <-]. apply Hk. by exists w.
Qed.

Hypothesis (HcompanyID : parseUUID companyId = Some companyID).

Ltac enter := apply nt_bad; let e := fresh in intros ? e; simplify_eq; try clear e.

Lemma handleCreateChannel_safe body :
  may featureChannelsManage -> safe (handleCreateChannel parseUUID validateTarget companyId body rc) nt_discloses.
Proof.
  intros Hm. enter. enter. apply nt_store_then. intros w env [id c] db Hw (-> & Hn & Hk & Hv & ->)%CreateChannel_ok. split.
  - right. eapply nw_create; [..|reflexivity]; done.
  - apply safe_bind, safe_quiet; [apply ntG_same|done|]. by intros [].
Qed.

Lemma handleListChannels_safe page pageSize : safe (handleListChannels parseUUID companyId page pageSize rc) nt_discloses.
Proof.
  enter. destruct (PageParams page pageSize) as [p n]. apply (nt_reading _ _ (fun e => e)); [done|]. intros w0 total _ _.
  apply (nt_reading _ _ (fun e => e)); [done|]. intros w l Hw [Hin Hl]%pageOf_ok. destruct (ClampPage p n) as [p' n']. simpl in *. split; [|done].
  apply Forall_forall. intros c Hc%Hin. rewrite merge_sort_Permutation in Hc. by apply list_elem_of_filter in Hc as [? _].
Qed.

Lemma handleGetChannel_safe channelId : safe (handleGetChannel parseUUID companyId channelId rc) nt_discloses.
Proof. enter. enter. apply (nt_GetChannel _ _ (fun e => e)); [done|]. intros c (w & _ & [_ ?]%channelIn_Some). done. Qed.

Lemma handleDeleteChannel_safe channelId :
  may featureChannelsManage -> safe (handleDeleteChannel parseUUID companyId channelId rc) nt_discloses.
Proof.
  intros Hm. enter. enter. apply nt_store_then. intros w env x db Hw H. split; [|done]. right.
  apply audited_ok in H as (db1 & H & ->). destruct (channelIn _ _ _) as [c|] eqn:E; [|done]. injection H as _ <-.
  by eapply nw_delete.
Qed.

Lemma handleSubscribe_safe channelId n email :
  may featureInboxView -> safe (handleSubscribe parseUUID companyId channelId n email rc) nt_discloses.
Proof.
  intros Hm. enter. enter. apply safe_orReply.
  assert (Hgo : forall e, safe (orReply (Subscribe (rc_Subject rc) companyID a (rc_Subject rc) e)
    (fun _ => Ret (WriteData 201 (BStatus "subscribed")))) nt_discloses).
  { intros e. apply safe_orReply, (nt_GetChannel _ _ Err); [done|]. intros c Hc.
    apply safe_transact; [apply ntG_same|by intros []|]. intros w env x db Hw H. split; [|done]. right.
    apply audited_ok in H as (db1 & H & ->). case_bool_decide; [|done]. injection H as _ <-. by eapply nw_subscribe. }
  destruct (n =? 0)%Z; [apply Hgo|]. destruct email; [apply Hgo|done].
Qed.

Lemma handleUnsubscribe_safe channelId :
  may featureInboxView -> safe (handleUnsubscribe parseUUID companyId channelId rc) nt_discloses.
Proof.
  intros Hm. enter. enter. apply safe_orReply, (nt_GetChannel _ _ Err); [done|]. intros c Hc.
  apply safe_transact; [apply ntG_same|by intros []|]. intros w env x db Hw H. split; [|done]. right.
  apply audited_ok in H as (db1 & H & ->). injection H as _ <-. by eapply nw_unsubscribe.
Qed.

Lemma handleSendMessage_safe body key :
  may featureMessagesSend ->
  safe (handleSendMessage parseUUID idempotencyPayloadHash claimGroup companyId body key rc) nt_discloses.
Proof.
  intros Hm. enter. enter. enter. destruct (200 <? String.length key)%nat; [done|]. apply safe_orReply. unfold SendMessage.
  destruct (validateSubjectLineAndBody _ _) as [[]|e]; [|by destruct e].
  apply (nt_GetChannel _ _ Err); [done|]. intros c Hc.
  cbv beta iota zeta. match goal with |- safe (if _ then ?s else _) ?K => assert (Hsend : safe s K) end.
  { apply safe_bind, safe_transact; [apply ntG_same|by intros []|]. intros w env [id m] db Hw H%sendTx_ok.
    split; [right; by eapply nw_send|]. simpl. right. rewrite (sends_message _ _ _ _ _ _ _ _ _ _ _ _ _ _ H). simpl. eauto 8. }
  destruct (seqb key ""); [done|]. apply (nt_reading _ _ Err); [done|]. intros w x Hw [= <-].
  destruct (find_where _ _) as [[id m]|] eqn:Ef; [|exact Hsend]. simpl. destruct (negb _); [done|].
  apply find_where_Some in Ef as (_ & Hch & Hk). simpl. right. rewrite Hch, Hk. eauto 8.
Qed.

Lemma handleListInbox_safe page pageSize : safe (handleListInbox parseUUID companyId page pageSize rc) nt_discloses.
Proof.
  enter. destruct (PageParams page pageSize) as [p n]. apply (nt_reading _ _ (fun e => e)); [done|]. intros w0 total _ _.
  apply (nt_reading _ _ (fun e => e)); [done|]. intros w l Hw [Hin Hl]%pageOf_ok. destruct (ClampPage p n) as [p' n']. simpl in *.
  exists w. split_and!; try done; try lia. apply Forall_forall. intros c Hc%Hin. by rewrite merge_sort_Permutation in Hc.
Qed.

Lemma handleMarkRead_safe messageId : may featureInboxView -> safe (handleMarkRead parseUUID companyId messageId rc) nt_discloses.
Proof.
  intros Hm. enter. enter. apply nt_store_then. intros w env r db Hw (m & old & Hmsg & Hco & Hr & -> & ->)%MarkRead_ok. split.
  - right. by eapply nw_read.
  - simpl. left. eauto 8.
Qed.

Lemma confirm_safe text l Q : (forall c, Q c) -> safe (confirm text l) Q.
Proof.
  revert Q. induction l as [|s l IH]; intros Q HQ; [apply HQ|]. apply safe_bind, safe_quiet; [apply ntG_same|done|]. intros x.
  apply safe_bind, IH. intros c. apply HQ.
Qed.

Lemma sendEvent_safe body :
  ntMay rc (uuidString companyID) featureInboxView ->
  safe (let? req := orBadRequest body in
        if negb hasOrg then Ret (WriteError 503 "INTERNAL_ERROR")
        else
          let? r := SendTargetedEvent (rc_Subject rc) companyID (se_SourceModule req) (se_SubjectLine req) (se_Body req) (se_RecipientKcSubs req) in
          Ret (WriteData 200 (BSent r.1 r.2))) nt_discloses.
Proof.
  intros Hm. enter. destruct (negb hasOrg); [done|]. apply safe_orReply. unfold SendTargetedEvent. destruct (negb _); [done|].
  destruct (validateSubjectLineAndBody _ _) as [[]|e]; [|by destruct e]. destruct (se_RecipientKcSubs a) as [|r0 rs]; [done|].
  apply safe_bind, confirm_safe. intros [|c cs]; [done|]. cbv zeta. apply safe_bind, safe_transact; [apply ntG_same|by intros []|].
  intros w env ch db Hw H%eventTx_ok. split; [|done]. right. by eapply nw_event.
Qed.
End spec.

(** ** The routes *)

(** Each step leaves the store alone or is made for a verified caller, in the company of
    the path; so is each reply that is not an error. *)
Definition nt_step_guarded (seen : MW -> Prop) (header companyId : string) (db db' : NtDB) : Prop :=
  db' = db \/ exists subject companyID, Verify verify (BearerFromHeader header) = Some subject /\ parseUUID companyId = Some companyID /\
    nt_write seen (mkContext subject header) companyId companyID db db'.
Definition ntFeature (r : ntRequest) : string :=
  match r with
  | ReqCreateChannel _ | ReqDeleteChannel _ => featureChannelsManage
  | ReqSendMessage _ _ => featureMessagesSend
  | _ => featureInboxView
  end.
Definition nt_reply_guarded (seen : MW -> Prop) (header companyId : string) (req : ntRequest) (r : ntReply) : Prop :=
  (exists st code, r = WriteError st code) \/
  exists subject companyID text, Verify verify (BearerFromHeader header) = Some subject /\ parseUUID companyId = Some companyID /\
    text ∈ [companyId; uuidString companyID] /\ ntMay (mkContext subject header) text (ntFeature req) /\
    nt_discloses seen (mkContext subject header) companyId companyID r.

Hypothesis (Hempty : parseUUID "" = None).

Section routes.
Context (seen : MW -> Prop) (header companyId : string).
Abbreviation safe := (safe verify uuid_ok authz seen (fun w w' => nt_step_guarded seen header companyId (w_store w) (w_store w'))).

Lemma nt_guarded_same (w w' : MW) : w_store w' = w_store w -> nt_step_guarded seen header companyId (w_store w) (w_store w').
Proof. by left. Qed.

(** A handler that is safe in the company of the path is so behind the gate. *)
Lemma nt_lift subject companyID text (p : prog NtDB nt_error ntReply) req :
  Verify verify (BearerFromHeader header) = Some subject -> parseUUID companyId = Some companyID ->
  text ∈ [companyId; uuidString companyID] -> ntMay (mkContext subject header) text (ntFeature req) ->
  ModuleKit.safe verify uuid_ok authz seen (ntG seen (mkContext subject header) companyId companyID) p
    (nt_discloses seen (mkContext subject header) companyId companyID) ->
  safe p (nt_reply_guarded seen header companyId req).
Proof.
  intros Hv Hp Ht Hm. apply safe_weaken.
  - intros w w' [?|?]; [by left|]. right. eauto.
  - intros r Hr. right. eauto 10.
Qed.

Definition needsCompany (h : requestContext -> prog NtDB nt_error ntReply) : Prop :=
  parseUUID companyId = None -> forall rc, h rc = Ret badRequest.

Lemma nt_withAuth_safe req h :
  needsCompany h ->
  (forall subject companyID, Verify verify (BearerFromHeader header) = Some subject -> parseUUID companyId = Some companyID ->
     ntMay (mkContext subject header) companyId (ntFeature req) ->
     ModuleKit.safe verify uuid_ok authz seen (ntG seen (mkContext subject header) companyId companyID) (h (mkContext subject header))
       (nt_discloses seen (mkContext subject header) companyId companyID)) ->
  safe (withAuth verify header companyId (ntFeature req) h) (nt_reply_guarded seen header companyId req).
Proof.
  intros Hn Hh. unfold withAuth. destruct (Verify _ _) as [subject|] eqn:Hv; [|left; by eexists _, _].
  destruct (negb (seqb companyId "")) eqn:E.
  - apply safe_bind, safe_DoCan; [apply nt_guarded_same|left; by eexists _, _|intros; left; by eexists _, _|]. intros reason Hm. simpl.
    destruct (parseUUID companyId) as [companyID|] eqn:Hp; [|rewrite Hn by done; left; by eexists _, _].
    eapply nt_lift; [done|done|left|exact Hm|by apply Hh].
  - apply negb_false_iff, seqb_true in E. rewrite Hn by (by rewrite E). left. by eexists _, _.
Qed.

Lemma nt_serve_safe req :
  safe (serve verify parseUUID idempotencyPayloadHash claimGroup validateTarget hasOrg header companyId req)
    (nt_reply_guarded seen header companyId req).
Proof.
  destruct req; cbn [serve]; try (match goal with |- safe _ (nt_reply_guarded _ _ _ ?r) => apply (nt_withAuth_safe r) end;
    [unfold needsCompany, handleListChannels, handleCreateChannel, handleGetChannel, handleDeleteChannel, handleSubscribe,
       handleUnsubscribe, handleListInbox, handleSendMessage, handleMarkRead; intros ->; by intros rc|intros subject companyID Hv Hp Hm]).
  - by apply handleListChannels_safe.
  - by apply handleCreateChannel_safe.
  - by apply handleGetChannel_safe.
  - by apply handleDeleteChannel_safe.
  - by apply handleSubscribe_safe.
  - by apply handleUnsubscribe_safe.
  - by apply handleListInbox_safe.
  - by apply handleSendMessage_safe.
  - by apply handleMarkRead_safe.
  - unfold handleSendEvent. destruct (parseUUID companyId) as [companyID|] eqn:Hp; [|left; by eexists _, _]. simpl.
    destruct (Verify _ _) as [subject|] eqn:Hv; [|left; by eexists _, _].
    apply safe_bind, safe_DoCan; [apply nt_guarded_same|left; by eexists _, _|intros; left; by eexists _, _|]. intros reason Hm. simpl.
    eapply (nt_lift subject companyID (uuidString companyID)); [done|done|right; left|exact Hm|].
    exact (sendEvent_safe seen (mkContext subject header) companyId companyID body Hm).
Qed.
End routes.
End props.

(** ** References, keys and idempotent sends

    The constraints of the schema as the store's methods keep them, and what sending the
    same message again does. *)

(** Subscriptions and messages are of channels that exist, inbox rows and jobs of
    messages that exist; keys are unique. *)
Record nt_tables (db : NtDB) : Prop := {
  nt_subscription : forall k s, subscriptions db !! k = Some s -> is_Some (channels db !! k.1);
  nt_message : forall id m, messages db !! id = Some m -> is_Some (channels db !! m_channel m);
  nt_recipient : forall k r, recipients db !! k = Some r -> is_Some (messages db !! k.1);
  nt_job : forall id j, jobs db !! id = Some j -> is_Some (messages db !! j_message j);
  nt_channel_key : forall i c i' c', channels db !! i = Some c -> channels db !! i' = Some c' ->
    ch_company c = ch_company c' -> ch_key c = ch_key c' -> i = i';
  nt_message_key : forall i m i' m' k, messages db !! i = Some m -> messages db !! i' = Some m' ->
    m_channel m = m_channel m' -> m_key m = Some k -> m_key m' = Some k -> i = i';
  nt_webhook : forall i c, channels db !! i = Some c -> ch_kind c = "webhook" -> default "" (ch_target c) <> ""
}.

Lemma nt_tables_logged actor action subject db : nt_tables db -> nt_tables (logged actor action subject db).
Proof. by intros []. Qed.

Lemma nt_tables_empty : nt_tables (mkNtDB ∅ ∅ ∅ ∅ ∅ []).
Proof. split; simpl; intros *; rewrite lookup_empty; done. Qed.

Lemma insert_is_Some {K A} `{Countable K} (m : gmap K A) i j a : is_Some (m !! j) -> is_Some (<[i := a]> m !! j).
Proof. rewrite lookup_insert_is_Some. destruct (decide (i = j)); auto. Qed.

(** A new channel whose key is free. *)
Lemma channel_tables db id c :
  nt_tables db -> channels db !! id = None -> find_where (same_key (ch_company c) (ch_key c)) (channels db) = None ->
  (ch_kind c = "webhook" -> default "" (ch_target c) <> "") -> nt_tables (with_channels db (<[id := c]> (channels db))).
Proof.
  intros [H1 H2 H3 H4 H5 H6 H7] Hn Hk Hw. revert Hk. rewrite find_where_None. intros Hk. split; simpl; try done.
  - intros k s Hs%H1. by apply insert_is_Some.
  - intros i m Hm%H2. by apply insert_is_Some.
  - intros i a i' a' [[<- <-]|[? Ha]]%lookup_insert_Some [[<- <-]|[? Ha']]%lookup_insert_Some Hc Hke; [done| | |by eapply H5].
    + destruct (Hk i' a' Ha'). by split.
    + destruct (Hk i a Ha). by split.
  - intros i a [[<- <-]|[? Ha]]%lookup_insert_Some; [done|by eapply H7].
Qed.

(** A new message of a channel, with its inbox rows. *)
Lemma message_tables db id m rs (subjects : list string) :
  nt_tables db -> messages db !! id = None -> is_Some (channels db !! m_channel m) ->
  (forall k, m_key m = Some k -> forall i a, messages db !! i = Some a -> ~ message_with_key (m_channel m) k a) ->
  (forall k, rs !! k = if bool_decide (k.1 = id /\ k.2 ∈ subjects) then Some None else recipients db !! k) ->
  nt_tables (with_recipients (with_messages db (<[id := m]> (messages db))) rs).
Proof.
  intros [H1 H2 H3 H4 H5 H6 H7] Hn Hc Hk Hrs. split; simpl; try done.
  - intros i a [[<- <-]|[? Ha]]%lookup_insert_Some; [done|by eapply H2].
  - intros k r. rewrite Hrs. case_bool_decide as Hb; [destruct Hb as [-> _]; by rewrite lookup_insert_eq|]. intros Hr%H3. by apply insert_is_Some.
  - intros i j Hj%H4. by apply insert_is_Some.
  - intros i a i' a' k [[<- <-]|[? Ha]]%lookup_insert_Some [[<- <-]|[? Ha']]%lookup_insert_Some Hch Hka Hka'; [done| | |by eapply H6].
    + destruct (Hk k Hka i' a' Ha'). by split.
    + destruct (Hk k Hka' i a Ha). by split.
Qed.

Lemma cascade_tables db id : nt_tables db -> nt_tables (cascade id db).
Proof.
  intros [H1 H2 H3 H4 H5 H6 H7].
  assert (Hm : forall i, is_Some (messages db !! i) -> m_channel <$> messages db !! i <> Some id ->
    is_Some (filter (fun kv : UUID * Message => m_channel kv.2 <> id) (messages db) !! i)).
  { intros i [m Hm] Hne. exists m. apply map_lookup_filter_Some. split; [done|]. rewrite Hm in Hne. simpl in *. congruence. }
  split; simpl.
  - intros k s [Hs Hne]%map_lookup_filter_Some. rewrite lookup_delete_ne by (simpl in *; congruence). by eapply H1.
  - intros i m [Hs Hne]%map_lookup_filter_Some. rewrite lookup_delete_ne by (simpl in *; congruence). by eapply H2.
  - intros k r [Hs Hne]%map_lookup_filter_Some. apply Hm; [by eapply H3|done].
  - intros i j [Hs Hne]%map_lookup_filter_Some. apply Hm; [by eapply H4|done].
  - intros i c i' c' [_ ?]%lookup_delete_Some [_ ?]%lookup_delete_Some. by eapply H5.
  - intros i m i' m' k [? _]%map_lookup_filter_Some [? _]%map_lookup_filter_Some. by eapply H6.
  - intros i c [_ ?]%lookup_delete_Some. by eapply H7.
Qed.

(** Jobs change, each for a message that exists. *)
Lemma jobs_tables db js :
  nt_tables db -> (forall i j, js !! i = Some j -> is_Some (messages db !! j_message j)) -> nt_tables (with_jobs db js).
Proof. intros [H1 H2 H3 H4 H5 H6 H7] Hj. by split. Qed.

Section tables.
Context `{UT : UUIDText}.
Context (idempotencyPayloadHash : UUID -> string -> string -> string) (claimGroup : string).
Context (leaseDuration : Z) (batchSize : nat) (hasDeliverer : string -> bool).
Abbreviation system_step := (system_step idempotencyPayloadHash claimGroup leaseDuration batchSize hasDeliverer).
Abbreviation sends := (sends idempotencyPayloadHash claimGroup).

Lemma sends_tables_ok actor companyID ch c subjectLine body key now db id m db' :
  sends actor companyID ch c subjectLine body key now db id m db' -> nt_tables db -> nt_tables db'.
Proof.
  intros [Hch Hn Hm Hk (rs & js & new & -> & _ & Hrs & Hnew & _ & _ & ->)] Ht. apply nt_tables_logged, jobs_tables.
  - eapply message_tables; [done|done|by subst| |exact Hrs]. subst m. simpl. destruct (seqb key "") eqn:E; [done|]. intros k [= <-]. apply Hk.
    intros ->. done.
  - simpl. intros i j [Hj|[_ Hj]]%lookup_union_Some_raw; [|apply insert_is_Some; by eapply nt_job].
    apply elem_of_list_to_map_2 in Hj. apply (list_elem_of_fmap_2 snd) in Hj. rewrite Hnew in Hj. simpl in Hj.
    apply list_elem_of_fmap in Hj as (t & -> & _). simpl. by rewrite lookup_insert_eq.
Qed.

Lemma tells_tables_ok actor companyID sourceModule subjectLine body confirmed now db ch db' :
  tells actor companyID sourceModule subjectLine body confirmed now db ch db' -> nt_tables db -> nt_tables db'.
Proof.
  intros [(id & cs & rs & c & Hcs & [Hco Hk] & Hn & _ & Hrs & ->)] Ht. apply nt_tables_logged.
  assert (is_Some (cs !! ch) /\ nt_tables (with_channels db cs)) as [? ?].
  { destruct Hcs as [[Hc ->]|(Hc & Hf & -> & ->)]; [split; [eauto|by destruct db, Ht]|]. split; [by rewrite lookup_insert_eq|].
    by apply channel_tables. }
  by eapply (message_tables (with_channels db cs)); [..|exact Hrs].
Qed.

Lemma request_tables X m env db x db' :
  requestMethod idempotencyPayloadHash claimGroup X m -> m env db = Ok (x, db') -> nt_tables db -> nt_tables db'.
Proof.
  destruct 1; intros Hr Ht.
  - by apply nread_ok in Hr as [_ ->].
  - destruct x as [id c']. pose proof Hr as Hv. unfold CreateChannel in Hv. destruct (negb _); [done|]. destruct (_ || _); [done|]. destruct (negb _); [done|].
    apply CreateChannel_ok in Hr as (-> & Hn & Hk & _ & ->). apply nt_tables_logged, channel_tables; try done. simpl. intros ->.
    simpl in Hv. destruct (seqb (default "" t) "") eqn:E; [done|]. intros E'. by rewrite E' in E.
  - apply audited_ok in Hr as (db1 & H & ->). destruct (channelIn _ _ _); [|done]. injection H as _ <-. by apply nt_tables_logged, cascade_tables.
  - apply audited_ok in Hr as (db1 & H & ->). case_bool_decide as Hc; [|done]. injection H as _ <-. apply nt_tables_logged. destruct Ht. split; simpl; try done.
    intros k s' [[<- _]|[_ ?]]%lookup_insert_Some; [done|eauto].
  - apply audited_ok in Hr as (db1 & H & ->). injection H as _ <-. apply nt_tables_logged. destruct Ht. split; simpl; try done.
    intros k s' [_ ?]%lookup_delete_Some. eauto.
  - destruct x. eapply sends_tables_ok; [by eapply sendTx_ok|done].
  - apply MarkRead_ok in Hr as (m & old & ? & ? & ? & _ & ->). apply nt_tables_logged. destruct Ht. split; simpl; try done.
    intros k r [[<- _]|[_ ?]]%lookup_insert_Some; [eauto|eauto].
  - eapply tells_tables_ok; [by eapply eventTx_ok|done].
Qed.

Lemma worker_tables now db w n db' w' :
  worker_step claimGroup leaseDuration batchSize hasDeliverer now db w n db' w' -> nt_tables db -> nt_tables db'.
Proof.
  intros [n0 _| |env out cs' Hnd Hcs Hout|tokens Htok|c l a j Hc Hl Hj Htk]%worker_effect Ht; try done.
  - apply jobs_tables; [done|]. intros i j [Hj|[_ Hj]]%lookup_union_Some_raw; [|by eapply nt_job].
    apply elem_of_list_to_map_2, list_elem_of_lookup in Hj as [k Hk]. destruct (Hout _ _ _ Hk) as (j0 & ? & _ & ->). by eapply (nt_job db Ht i j0).
  - apply jobs_tables; [done|]. intros i j. rewrite lookup_fmap. intros (j0 & Hj & ->)%fmap_Some.
    replace (j_message _) with (j_message j0) by (by case_bool_decide). by eapply nt_job.
  - assert (Hj' : nt_tables (with_jobs db (<[c.1 := fenceOf c a now j]> (jobs db)))).
    { apply jobs_tables; [done|]. intros i j' [[<- <-]|[_ ?]]%lookup_insert_Some; [|by eapply nt_job].
      replace (j_message _) with (j_message j); [by eapply nt_job|]. destruct a; simpl; [done| |done]. by destruct (maxAttempts <=? _)%Z. }
    by destruct Hj'.
Qed.

Lemma system_tables s s' : rtc system_step s s' -> nt_tables (s_db s) -> nt_tables (s_db s').
Proof.
  induction 1 as [s|s s1 s' H1 _ IH]; [done|]. intros Ht. apply IH. destruct H1 as [v w n db' w' s Hv Hw Hf|X m env x db' s Hm Hn Hr Hf|]; [|by eapply request_tables|done].
  replace (s_db (hear n s db' _)) with db' by (by destruct n). by eapply worker_tables.
Qed.

(** ** Sending again *)

Section send.
Context (verify : string -> option Claims) (uuid_ok : string -> bool) (authz : Service -> Prop).
Abbreviation alone := (alone verify uuid_ok authz).
Abbreviation SendMessage := (SendMessage idempotencyPayloadHash claimGroup).
Abbreviation MW := (MWorld NtDB).

Definition is_WriteError (r : ntReply) : Prop := match r with WriteError _ _ => True | _ => False end.

Lemma nt_error_writes e : is_WriteError (writeStoreError e).
Proof. by destruct e. Qed.

Lemma alone_store {X A} (m : NtTx X) (k : result ntReply X -> prog NtDB nt_error A) (w : MW) Q :
  (forall e, alone (k (Err (writeStoreError e))) w Q) ->
  (forall env x db, m env (w_store w) = Ok (x, db) -> alone (k (Ok x)) (mkMWorld db (w_authz w) (w_sent w)) Q) ->
  alone (bind (storeCall m) k) w Q.
Proof.
  intros He Hk x w' [env Hx]. destruct (m env (w_store w)) as [[a db]|e] eqn:E; destruct Hx as [-> ->]; [by eapply Hk|apply He].
Qed.

(** What a send that runs alone does. *)
Definition sendResult (actor : string) (companyID ch : UUID) (subjectLine body key : string) (w : MW)
    (r : result ntReply (UUID * Message * bool)) (w' : MW) : Prop :=
  match r with
  | Err e => w' = w /\ is_WriteError e
  | Ok (id, m, true) => exists c now, channelIn (w_store w) companyID ch = Some c /\
      sends actor companyID ch c subjectLine body key now (w_store w) id m (w_store w')
  | Ok (id, m, false) => w' = w /\ key <> "" /\ messages (w_store w) !! id = Some m /\ message_with_key ch key m /\
      default "" (m_hash m) = idempotencyPayloadHash ch subjectLine body
  end.

Lemma SendMessage_alone actor companyID ch subjectLine body key w :
  alone (SendMessage actor companyID ch subjectLine body key) w (sendResult actor companyID ch subjectLine body key w).
Proof.
  unfold SendMessage. destruct (validateSubjectLineAndBody _ _) as [[]|e]; [|split; [done|apply nt_error_writes]].
  apply alone_store; [intros e; split; [done|apply nt_error_writes]|]. intros env [i c] db [Hc ->]%nread_ok.
  destruct (channelIn (w_store w) companyID ch) as [c'|] eqn:Ec; [|done]. injection Hc as <- ->. destruct w as [db aw sent]. cbn [w_store w_authz w_sent] in *.
  cbv beta iota zeta. match goal with |- alone (if _ then ?s else _) _ ?K => assert (Hsend : alone s (mkMWorld db aw sent) K) end.
  { apply alone_store; [intros e; split; [done|apply nt_error_writes]|]. simpl. intros env0 [id m] db' H%sendTx_ok. eauto. }
  destruct (seqb key "") eqn:Ek; [done|]. apply alone_store; [intros e; split; [done|apply nt_error_writes]|].
  intros env1 x db' [[= <-] ->]%nread_ok. simpl. destruct (find_where _ _) as [[id m]|] eqn:Ef; [|exact Hsend]. simpl.
  destruct (seqb (default "" (m_hash m)) _) eqn:Eh; simpl; [|done]. apply find_where_Some in Ef as [? ?].
  split_and!; try done; [by intros ->|by apply seqb_true].
Qed.
End send.
End tables.
