(* ===== verification/NotifClaims.v ===== *)
(** * The notification service: its guarantees

    Every request's changes and replies are authorised, the tables keep their
    constraints, a message is sent once, and every delivery job has one story, written
    by the workers that hold its lease. *)

From stdpp Require Import base gmap strings list sorting relations.
From S2P Require Import Prelude GoStrings Tuple TupleStore Decision Clients AuthzHTTP AuthzClaims AdminClient OrgTree Org OrgClaims ModuleKit ModuleRules.
From S2P Require Import Notification NotifWorker NotifDelivery NotifHTTP NotifProps.

Section claims.
Context `{UT : UUIDText} (verify : string -> option Claims) (uuid_ok : string -> bool) (authz : Service -> Prop).
Context (parseUUID : string -> option UUID).
Context (idempotencyPayloadHash : UUID -> string -> string -> string) (claimGroup : string).
Context (validateTarget : string -> bool) (hasOrg : bool).
Context (leaseDuration : Z) (batchSize : nat) (hasDeliverer : string -> bool).

Abbreviation MW := (MWorld NtDB).
Abbreviation serve := (serve verify parseUUID idempotencyPayloadHash claimGroup validateTarget hasOrg).
Abbreviation run := (run verify uuid_ok authz).
Abbreviation SendMessage := (SendMessage idempotencyPayloadHash claimGroup).
Abbreviation sends := (sends idempotencyPayloadHash claimGroup).
Abbreviation worker_step := (worker_step claimGroup leaseDuration batchSize hasDeliverer).
Abbreviation system_step := (system_step idempotencyPayloadHash claimGroup leaseDuration batchSize hasDeliverer).

(** ** Requests *)

(** C26: who changes and reads notifications. Whatever happens between the calls of a
    request, each of its steps leaves the store as it was, or writes one audit row in
    the name of the verified caller together with one of: a channel of the path's
    company with a free key, its webhook target accepted by the policy, or the deletion
    of a channel of the company with everything under it, for an administrator of the
    module; the caller's own subscription to a channel of the company; a message of
    the caller with its inbox rows and jobs, for an administrator; the read mark of the
    caller's own inbox row; an event of the company. And each reply that is not an
    error goes to a verified caller the authorization service let use the route's
    feature, with at most 100 rows, all of them channels of the company or rows of the
    caller's inbox, or the message sent. *)
Theorem notification_authorized between header companyId req w steps r w' :
  parseUUID "" = None -> run between (serve header companyId req) w steps r w' ->
  Forall (fun s => nt_step_guarded verify authz parseUUID idempotencyPayloadHash claimGroup validateTarget (fun v => v ∈ steps.*1)
                     header companyId (w_store s.1) (w_store s.2)) steps /\
  nt_reply_guarded verify authz parseUUID (fun v => v ∈ steps.*1) header companyId req r.
Proof.
  intros He Hr. refine (run_safe _ _ _ (fun v => v ∈ steps.*1) _ _ _ _ _ _ _ _ Hr _ (nt_serve_safe _ _ _ _ _ _ _ _ He _ _ _ _)).
  by apply Forall_forall.
Qed.

(** A message is sent once. A send that runs alone and is new adds the message, one
    unread inbox row for each subscriber that has not muted the channel, and one job for
    each address of an email channel or for the target of a webhook channel, and
    nothing else. With a key, every later send to that channel with the same key, by
    whomever, leaves the store as it is: it answers the first message when the payload
    hashes the same, and an error otherwise. *)
Theorem message_sent_once actor companyID ch subjectLine body key w steps id m w' :
  nt_tables (w_store w) -> run eq (SendMessage actor companyID ch subjectLine body key) w steps (Ok (id, m, true)) w' ->
  (exists c now, channelIn (w_store w) companyID ch = Some c /\
     sends actor companyID ch c subjectLine body key now (w_store w) id m (w_store w')) /\
  forall actor' subjectLine' body' steps' r w'', key <> "" ->
    run eq (SendMessage actor' companyID ch subjectLine' body' key) w' steps' r w'' ->
    w'' = w' /\ match r with
                | Ok (id', m', created) => created = false /\ id' = id /\ m' = m /\
                    idempotencyPayloadHash ch subjectLine' body' = idempotencyPayloadHash ch subjectLine body
                | Err e => is_WriteError e
                end.
Proof.
  intros Ht Hr. pose proof (run_alone _ _ _ _ _ _ _ _ _ Hr (SendMessage_alone _ _ verify uuid_ok authz actor companyID ch subjectLine body key w)) as Hs.
  split; [exact Hs|]. destruct Hs as (c & now & _ & Hs). intros actor' sl' b' steps' r w'' Hkey Hr'.
  pose proof (run_alone _ _ _ _ _ _ _ _ _ Hr' (SendMessage_alone _ _ verify uuid_ok authz actor' companyID ch sl' b' key w')) as Hs'.
  pose proof (sends_tables_ok _ _ _ _ _ _ _ _ _ _ _ _ _ _ Hs Ht) as Ht'.
  assert (messages (w_store w') !! id = Some m /\ m_channel m = ch /\ m_key m = Some key /\
    m_hash m = Some (idempotencyPayloadHash ch subjectLine body)) as (Hm & Hch & Hk & Hh).
  { destruct Hs as [_ _ -> _ (rs & js & new & -> & _)]. simpl. rewrite lookup_insert_eq. destruct (seqb key "") eqn:E; [by apply seqb_true in E|done]. }
  destruct r as [[[id' m'] []]|e]; [|destruct Hs' as (-> & _ & Hm' & [Hch' Hk'] & Hh')|exact Hs'].
  - destruct Hs' as (c' & now' & _ & Hs'). destruct (sends_key _ _ _ _ _ _ _ _ _ _ _ _ _ _ Hs' Hkey id m Hm). by split.
  - assert (id' = id) as -> by (eapply (nt_message_key _ Ht'); [done..|congruence|done|done]). rewrite Hm in Hm'. injection Hm' as <-.
    split_and!; try done. by rewrite <- Hh', Hh.
Qed.

(** ** The service as a whole *)

(** The tables under any interleaving. From tables that satisfy it, the empty
    ones among them, whatever requests and workers do and in whatever order: subscriptions and messages are of channels that
    exist, inbox rows and jobs of messages that exist, no two channels of a company
    share a key and no two messages of a channel an idempotency key, and a webhook
    channel has a target. *)
Theorem notification_tables s s' : nt_tables (s_db s) -> rtc system_step s s' -> nt_tables (s_db s').
Proof. intros Ht Hs. by eapply system_tables. Qed.

(** C24: every job has one story. In every state the service reaches from its start,
    with workers that claim, deliver, settle, extend, lose replies and stop at any point,
    each job's settlements so far are at most seven retries, and then, once done,
    one completion, after a delivery of this job that succeeded, or, once dead, one
    death; a job that is done or dead is never settled again; and the audit log has one
    death row for each death and no other. No token is on two jobs. *)
Theorem job_stories s s' :
  fresh_system s -> rtc system_step s s' ->
  (forall id j, jobs (s_db s') !! id = Some j -> story s' id j) /\
  (forall id, deaths (s_db s') id = length (filter (fun v => v = Died) (history (s_verdicts s') id))) /\
  (forall id j id' j' t, jobs (s_db s') !! id = Some j -> jobs (s_db s') !! id' = Some j' ->
     j_token j = Some t -> j_token j' = Some t -> id = id').
Proof.
  intros H0 Hr. destruct (reachable_inv _ _ _ _ _ _ _ H0 Hr) as [HJ HL HP]. split_and!; [|apply HJ|apply HJ].
  intros id j Hj. by apply (inv_story _ HJ).
Qed.

(** C25: leases fence. In every state the service reaches, a worker's step keeps every job,
    and changes a job's row only to claim it, when its status is pending and it has no
    lease in the future, with a token never used before; or as the one worker that
    holds the token now on the row, to extend the lease or to settle the job. A worker
    whose lease was lost changes nothing. *)
Theorem leases_fence s0 s v w n db' w' id j :
  fresh_system s0 -> rtc system_step s0 s -> s_workers s !! v = Some w ->
  worker_step (s_now s) (s_db s) w n db' w' -> drawsFresh n s -> jobs (s_db s) !! id = Some j ->
  exists j', jobs db' !! id = Some j' /\
    (j' = j \/
     (claimable claimGroup (s_now s) j /\ exists t, t ∉ s_used s /\ j' = leaseJob (s_now s) leaseDuration t j) \/
     (exists c, c ∈ cores w /\ c.1 = id /\ j_token j = Some (tokenOf c) /\ j_attempts j = j_attempts c.2 /\
        (forall u wu c', s_workers s !! u = Some wu -> c' ∈ cores wu -> tokenOf c' = tokenOf c -> u = v) /\
        (j' = extendJob (s_now s) leaseDuration j \/ exists a, j' = fenceOf c a (s_now s) j))).
Proof.
  intros H0 Hr Hv Hw Hf Hj. destruct (reachable_inv _ _ _ _ _ _ _ H0 Hr) as [HJ HL HP].
  assert (Hex : forall c, c ∈ cores w -> forall u wu c', s_workers s !! u = Some wu -> c' ∈ cores wu -> tokenOf c' = tokenOf c -> u = v).
  { intros c Hc u wu c' Hu Hc' Ht. symmetry. apply (inv_exclusive _ HL v w c u wu c'); auto. }
  apply worker_effect in Hw. revert Hf. destruct Hw as [n0 _| |env out cs' Hnd Hcs Hout|tokens Htok|c l a j0 Hc Hl Hj0 Htk]; simpl; intros Hf; [eauto|eauto| | |].
  - destruct ((list_to_map out : gmap UUID DeliveryJob) !! id) as [j1|] eqn:E.
    + exists j1. split; [by apply lookup_union_Some_l|]. right. left. apply elem_of_list_to_map_2, list_elem_of_lookup in E as [k Hk].
      destruct (Hout _ _ _ Hk) as (j2 & Hj2 & Hcl & ->). rewrite Hj in Hj2. injection Hj2 as <-. split; [done|]. exists (tx_ids env k). split; [|done].
      apply Hf. apply list_elem_of_lookup. exists k. by rewrite list_lookup_imap, Hk.
    + exists j. split; [|by left]. by rewrite lookup_union_r.
  - rewrite lookup_fmap, Hj. simpl. eexists. split; [done|]. case_bool_decide as He; [|by left]. right. right.
    destruct He as [_ He]. destruct (j_token j) as [t|] eqn:Et; [|done]. destruct (Htok t He) as (c & Hc & <-).
    destruct (inv_lease _ HL v w c Hv Hc) as (_ & _ & Hl). destruct (Hl id j Hj Et) as [? ?]. exists c. split_and!; eauto.
  - destruct (decide (c.1 = id)) as [<-|Hne]; [|exists j; split; [by rewrite lookup_insert_ne|by left]].
    rewrite Hj in Hj0. injection Hj0 as <-. rewrite lookup_insert_eq. eexists. split; [done|]. right. right.
    destruct (inv_lease _ HL v w c Hv Hc) as (_ & _ & Hlj). destruct (Hlj c.1 j Hj Htk) as [_ ?]. exists c. split_and!; eauto.
Qed.
End claims.

(** ** Witnesses

    ann administers the module, bob is a member and subscribes to a webhook channel. *)

Section witnesses.
#[local] Instance ntUUIDText : UUIDText := demoUUIDText.

Definition ntParse (s : string) : option UUID :=
  if seqb (String.substring 0 1 s) "u" then Some (N.of_nat (String.length s - 1)) else None.
Definition ntTuples : Table := {[mkTuple "company_module" (CompanyModuleObjectID "notification" (uuidString 1%N)) "admin" "user" "ann" ""]}.
Definition ntService : Service :=
  let svc := demoService ntTuples in
  mkService (svc_state svc) (svc_capability svc) (svc_company svc) (svc_membership svc) (Ok {["notification" := true]}) None None (Ok [])
    (svc_db svc) (svc_MemberOfCompany svc) (svc_AnchorOf svc).
Definition ntAnswers : Answers :=
  mkAnswers (fun n => mkTxEnv false (fun _ => false) (Z.of_nat n) (fun k => N.of_nat (10 * n + k + 20))) ntService (fun _ => false) (fun _ => true) (fun _ => false)
    (fun _ kcSub => Some ("", seqb kcSub "bob", true)) (fun _ => None) (fun _ => None) (fun _ => None) (fun _ => None) (fun _ => None) (fun _ => true).

Definition ntHash (_ : UUID) (a b : string) : string := a +:+ b.
Definition ntHook : Channel := mkChannel 1 "ops" "Operations" "webhook" (Some "https://hooks.example/ops") 0.
Definition ntStart : NtDB := mkNtDB {[7%N := ntHook]} {[(7%N, "bob") := mkSubscription None false]} ∅ ∅ ∅ [].
Definition ntWorld : MWorld NtDB := mkMWorld ntStart (mkWorld (mkDB ntTuples [] ∅) []) [].
Abbreviation ntServe := (serve demoVerify ntParse ntHash "default" (fun _ => true) true).
Abbreviation ntPerform := (perform demoVerify demoUUID ntAnswers noFaults).

Lemma ntPerform_run {A} n (p : prog NtDB nt_error A) w :
  let res := ntPerform n p w in run demoVerify demoUUID (fun _ => True) eq p w res.1.2 res.1.1 res.2.
Proof. intros res. apply (perform_run _ _ _ ntAnswers noFaults n); [exact I|]. fold res. by destruct res as [[]]. Qed.

Definition ntSendRequest : ntRequest := ReqSendMessage (Some (mkSendMessage (uuidString 7%N) "Down" "The disk is full.")) "k1".
Definition ntSent := ntPerform 0 (ntServe "Bearer ann" (uuidString 1%N) ntSendRequest) ntWorld.

Lemma notification_authorized_witness :
  recipients (w_store ntSent.2) = {[(50%N, "bob") := None]} /\
  Forall (fun s => nt_step_guarded demoVerify (fun _ => True) ntParse ntHash "default" (fun _ => true) (fun v => v ∈ ntSent.1.2.*1)
                     "Bearer ann" (uuidString 1%N) (w_store s.1) (w_store s.2)) ntSent.1.2 /\
  nt_reply_guarded demoVerify (fun _ => True) ntParse (fun v => v ∈ ntSent.1.2.*1) "Bearer ann" (uuidString 1%N) ntSendRequest ntSent.1.1.
Proof.
  split; [vm_compute; reflexivity|].
  apply (notification_authorized demoVerify demoUUID (fun _ => True) ntParse ntHash "default" (fun _ => true) true eq
           "Bearer ann" (uuidString 1%N) ntSendRequest ntWorld ntSent.1.2 ntSent.1.1 ntSent.2); [reflexivity|].
  exact (ntPerform_run 0 _ ntWorld).
Defined.

Definition ntSend := SendMessage ntHash "default" "ann" 1%N 7%N "Down" "The disk is full." "k1".
Definition ntOnce := ntPerform 0 ntSend ntWorld.
Definition ntAgain := ntPerform 5 ntSend ntOnce.2.
Definition ntMessage : Message := mkMessage 1 7 "Down" "The disk is full." "ann" (Some "k1") (Some "DownThe disk is full.") 2.

Lemma ntStart_tables : nt_tables ntStart.
Proof.
  split; simpl.
  - intros k s [<- _]%lookup_singleton_Some. exists ntHook. reflexivity.
  - intros i m. rewrite lookup_empty. discriminate.
  - intros k r. rewrite lookup_empty. discriminate.
  - intros i j. rewrite lookup_empty. discriminate.
  - intros i c i' c' [<- _]%lookup_singleton_Some [<- _]%lookup_singleton_Some. reflexivity.
  - intros i m i' m' k. rewrite lookup_empty. discriminate.
  - intros i c [_ <-]%lookup_singleton_Some _. discriminate.
Qed.

Lemma message_sent_once_witness :
  ntOnce.1.1 = Ok (40%N, ntMessage, true) /\ ntAgain.1.1 = Ok (40%N, ntMessage, false) /\ ntAgain.2 = ntOnce.2.
Proof.
  assert (H1 : ntOnce.1.1 = Ok (40%N, ntMessage, true)) by (vm_compute; reflexivity).
  assert (H2 : ntAgain.1.1 = Ok (40%N, ntMessage, false)) by (vm_compute; reflexivity).
  split; [exact H1|]. split; [exact H2|].
  refine (proj1 (proj2 (message_sent_once demoVerify demoUUID (fun _ => True) ntHash "default" "ann" 1%N 7%N "Down" "The disk is full." "k1"
    ntWorld ntOnce.1.2 40%N ntMessage ntOnce.2 ntStart_tables _) "ann" "Down" "The disk is full." ntAgain.1.2 ntAgain.1.1 ntAgain.2 _ _)).
  - rewrite <- H1. exact (ntPerform_run 0 ntSend ntWorld).
  - discriminate.
  - exact (ntPerform_run 5 ntSend ntOnce.2).
Defined.

(** A message to the webhook channel, claimed by the one worker. *)
Definition ntEnv (now : Z) (first : nat) : TxEnv := mkTxEnv false (fun _ => false) now (fun k => N.of_nat (first + k)).
Definition ntFresh : system := mkSystem ntStart 0 [Idle] ∅ [] [].
Abbreviation ntStep := (system_step ntHash "default" 30 10 (fun _ => true)).
Definition after {X} (m : NtTx X) (env : TxEnv) (db : NtDB) : NtDB := match m env db with Ok (_, db') => db' | Err _ => db end.
Definition ntSendTx := sendTx ntHash "default" "ann" 1%N 7%N ntHook "Down" "The disk is full." "k1".
Definition ntQueuedDB : NtDB := after ntSendTx (ntEnv 0 20) ntStart.
Definition ntQueued : system := mkSystem ntQueuedDB 0 [Idle] (dom (jobs ntQueuedDB) ∪ ∅) [] [].
Definition ntClaim := ClaimJobs "default" (fun _ => false) 30 10.
Definition ntClaimedDB : NtDB := after ntClaim (ntEnv 0 30) ntQueuedDB.
Definition ntJob : DeliveryJob := newJob "default" 20 "webhook" "https://hooks.example/ops" 0.
Definition ntBusy : worker := Busy [newLease (21%N, leaseJob 0 30 30 ntJob)] (AtSelect 0) HbWait.
Definition ntClaimed : system := hear (Drew [30%N]) ntQueued ntClaimedDB [ntBusy].

Lemma ntFresh_ok : fresh_system ntFresh.
Proof. repeat split; repeat constructor. Qed.

Lemma ntQueued_reached : rtc ntStep ntFresh ntQueued.
Proof.
  apply rtc_once. apply (ss_request ntHash "default" 30 10 (fun _ => true) _ ntSendTx (ntEnv 0 20) (20%N, mkMessage 1 7 "Down" "The disk is full." "ann" (Some "k1")
    (Some "DownThe disk is full.") 0) ntQueuedDB ntFresh); [constructor|reflexivity|vm_compute; reflexivity|].
  intros id _ _. apply not_elem_of_empty.
Qed.

Lemma ntClaims_step : worker_step "default" 30 10 (fun _ => true) (s_now ntQueued) (s_db ntQueued) Idle (Drew [30%N]) ntClaimedDB ntBusy.
Proof.
  apply (ws_claim "default" 30 10 (fun _ => true) 0 (fun _ => false) (ntEnv 0 30) [(21%N, leaseJob 0 30 30 ntJob)] [(21%N, leaseJob 0 30 30 ntJob)] ntQueuedDB ntClaimedDB);
    [reflexivity|vm_compute; reflexivity|discriminate|reflexivity].
Qed.

Lemma ntClaims_fresh : drawsFresh (Drew [30%N]) ntQueued.
Proof.
  split; [apply NoDup_singleton|]. intros t ->%list_elem_of_singleton. apply (bool_decide_unpack _). vm_compute. exact I.
Qed.

Lemma ntClaimed_reached : rtc ntStep ntFresh ntClaimed.
Proof.
  eapply rtc_r; [exact ntQueued_reached|].
  exact (ss_worker ntHash "default" 30 10 (fun _ => true) 0 Idle (Drew [30%N]) ntClaimedDB ntBusy ntQueued eq_refl ntClaims_step ntClaims_fresh).
Qed.

Lemma notification_tables_witness : jobs (s_db ntClaimed) !! 21%N = Some (leaseJob 0 30 30 ntJob) /\ nt_tables (s_db ntClaimed).
Proof.
  split; [vm_compute; reflexivity|].
  exact (notification_tables ntHash "default" 30 10 (fun _ => true) ntFresh ntClaimed ntStart_tables ntClaimed_reached).
Defined.

Lemma job_stories_witness : story ntClaimed 21%N (leaseJob 0 30 30 ntJob) /\ deaths (s_db ntClaimed) 21%N = 0.
Proof.
  destruct (job_stories ntHash "default" 30 10 (fun _ => true) ntFresh ntClaimed ntFresh_ok ntClaimed_reached) as (Hs & Hd & _).
  split; [apply Hs; vm_compute; reflexivity|]. rewrite Hd. reflexivity.
Defined.

Lemma leases_fence_witness :
  exists j', jobs ntClaimedDB !! 21%N = Some j' /\ j_token j' = Some 30%N /\
    (j' = ntJob \/ (claimable "default" 0 ntJob /\ exists t, t ∉ s_used ntQueued /\ j' = leaseJob 0 30 t ntJob) \/ exists c, c ∈ cores Idle).
Proof.
  destruct (leases_fence ntHash "default" 30 10 (fun _ => true) ntFresh ntQueued 0 Idle (Drew [30%N]) ntClaimedDB ntBusy 21%N ntJob
    ntFresh_ok ntQueued_reached eq_refl ntClaims_step ntClaims_fresh) as (j' & Hj' & H); [vm_compute; reflexivity|].
  exists j'. split; [exact Hj'|]. split.
  - assert (E : jobs ntClaimedDB !! 21%N = Some (leaseJob 0 30 30 ntJob)) by (vm_compute; reflexivity). rewrite Hj' in E. injection E as ->. reflexivity.
  - destruct H as [H|[H|(c & Hc & _)]]; [left; exact H|right; left; exact H|right; right; exists c; exact Hc].
Defined.

(** ** Where the code falls short of its comments *)

(** An event for the same recipient twice is refused by the inbox's primary key, and
    none of its recipients gets it. *)
Example repeated_recipient_fails :
  (ntPerform 0 (ntServe "Bearer ann" (uuidString 1%N) (ReqSendEvent (Some (mkSendEvent ["bob"; "bob"] "Hi" "there" "docs")))) ntWorld).1.1 =
  WriteError 500 "INTERNAL_ERROR".
Proof. vm_compute. reflexivity. Qed.

(** A page far enough wraps the offset below zero. *)
Example far_page_fails :
  (ntPerform 0 (ntServe "Bearer bob" (uuidString 1%N) (ReqListChannels "9223372036854775807" "100")) ntWorld).1.1 = WriteError 500 "INTERNAL_ERROR".
Proof. vm_compute. reflexivity. Qed.
End witnesses.
