(* ===== verification/Docs.v ===== *)
(** * The docs store

    modules/docs/service/store.go over the tables of the module's migrations: documents,
    the index of shares and the audit rows.  Times are microseconds. *)

From stdpp Require Import base gmap strings list sorting.
From S2P Require Import Prelude GoStrings OrgTree Org ModuleKit.

Inductive dc_error : Type :=
| DcValidation (field : string)
| ErrDocumentNotFound
| ErrShareNotFound
| DcIdempotencyConflict
| DcDatabase.

(** ** Rows *)

Record Document := mkDocument {
  d_company : UUID; d_title : string; d_body : string; d_owner : string; d_created : Z; d_updated : Z;
  d_key : option string; d_hash : option string
}.

Record Share := mkShare {
  s_document : UUID; s_member : UUID; s_relation : string; s_grantedBy : string; s_created : Z;
  s_key : option string; s_hash : option string
}.

Record DcEvent := mkDcEvent {
  de_at : Z; de_actor : string; de_action : string; de_subject : string; de_payload : list (string * string)
}.

Record DcDB := mkDcDB {
  documents : gmap UUID Document;
  shares : gmap UUID Share;
  dcAudit : list DcEvent
}.

Definition with_documents (db : DcDB) ds := mkDcDB ds (shares db) (dcAudit db).
Definition with_shares (db : DcDB) ss := mkDcDB (documents db) ss (dcAudit db).

Abbreviation DcTx A := (TxEnv -> DcDB -> result dc_error (A * DcDB)).

Definition dread {A} (f : DcDB -> result dc_error A) : DcTx A := fun env db =>
  if tx_broken env then Err DcDatabase else let! a := f db in Ok (a, db).

(** A transaction: its statements, then the audit row. *)
Definition daudited {A} (m : DcTx A) (event : A -> Z -> DcEvent) : DcTx A := fun env db =>
  if tx_broken env then Err DcDatabase
  else let! r := m env db in Ok (r.1, mkDcDB (documents r.2) (shares r.2) (dcAudit r.2 ++ [event r.1 (tx_now env)])).

(** [validTitle] *)
Definition validDocTitle (title : string) : bool := negb ((String.length title <? 1)%nat || (200 <? String.length title)%nat).

Section store.
Context `{UT : UUIDText}.
(** sha256 of the fields with NUL bytes between them, in hexadecimal. *)
Context (documentIdempotencyPayloadHash : UUID -> string -> string -> string -> string)
  (shareIdempotencyPayloadHash : UUID -> UUID -> string -> string).

Definition docSubject (id : UUID) : string := "docs_document:" +:+ uuidString id.
Definition docEvent (actor action : string) (companyID docID : UUID) (rest : list (string * string)) (now : Z) : DcEvent :=
  mkDcEvent now actor action (docSubject docID) (("companyId", uuidString companyID) :: rest).

(** ** Documents *)

Definition doc_with_key (companyID : UUID) (owner key : string) (d : Document) : Prop :=
  d_company d = companyID /\ d_owner d = owner /\ d_key d = Some key.

(** [FindDocumentByIdempotencyKey] *)
Definition FindDocumentByIdempotencyKey (companyID : UUID) (owner key : string) : DcTx (option (UUID * Document * string)) :=
  dread (fun db => Ok (r ← find_where (doc_with_key companyID owner key) (documents db); Some (r, default "" (d_hash r.2)))).

(** INSERT INTO docs.document: the primary key and document_idempotency_key_unique *)
Definition insertDocument (docID : UUID) (d : Document) (db : DcDB) : result dc_error DcDB :=
  if bool_decide (is_Some (documents db !! docID)) then Err DcIdempotencyConflict
  else match d_key d ≫= (fun k => find_where (doc_with_key (d_company d) (d_owner d) k) (documents db)) with
       | Some _ => Err DcIdempotencyConflict
       | None => Ok (with_documents db (<[docID := d]> (documents db)))
       end.

(** [CreateDocument] *)
Definition CreateDocument (docID : UUID) (actor : string) (companyID : UUID) (title body idempotencyKey : string)
    : DcTx (UUID * Document) := fun env db =>
  if negb (validDocTitle title) then Err (DcValidation "title")
  else
    daudited (fun env db =>
        let key := if seqb idempotencyKey "" then None else Some idempotencyKey in
        let hash := if seqb idempotencyKey "" then None else Some (documentIdempotencyPayloadHash companyID actor title body) in
        let d := mkDocument companyID title body actor (tx_now env) (tx_now env) key hash in
        let! db' := insertDocument docID d db in Ok ((docID, d), db'))
      (fun _ => docEvent actor "docs.document.create" companyID docID [("title", title)]) env db.

Definition documentIn (db : DcDB) (companyID docID : UUID) : option Document :=
  d ← documents db !! docID; if bool_decide (d_company d = companyID) then Some d else None.

(** [GetDocument] *)
Definition GetDocument (companyID docID : UUID) : DcTx (UUID * Document) :=
  dread (fun db => match documentIn db companyID docID with Some d => Ok (docID, d) | None => Err ErrDocumentNotFound end).

Definition set_content (title body : string) (now : Z) (d : Document) : Document :=
  mkDocument (d_company d) title body (d_owner d) (d_created d) now (d_key d) (d_hash d).

(** [UpdateDocument] *)
Definition UpdateDocument (actor : string) (companyID docID : UUID) (title body : string) : DcTx (UUID * Document) := fun env db =>
  if negb (validDocTitle title) then Err (DcValidation "title")
  else
    daudited (fun env db =>
        match documentIn db companyID docID with
        | None => Err ErrDocumentNotFound
        | Some d => let d' := set_content title body (tx_now env) d in
                    Ok ((docID, d'), with_documents db (<[docID := d']> (documents db)))
        end)
      (fun _ => docEvent actor "docs.document.update" companyID docID [("title", title)]) env db.

(** [DeleteDocument]; shares go with their document. *)
Definition DeleteDocument (actor : string) (companyID docID : UUID) : DcTx unit :=
  daudited (fun env db =>
      match documentIn db companyID docID with
      | None => Err ErrDocumentNotFound
      | Some _ => Ok (tt, mkDcDB (delete docID (documents db)) (filter (fun kv => s_document kv.2 <> docID) (shares db)) (dcAudit db))
      end)
    (fun _ => docEvent actor "docs.document.delete" companyID docID []).

Definition newest (a b : UUID * Document) : Prop := (d_created b.2 <= d_created a.2)%Z.
#[local] Instance newest_dec : RelDecision newest := fun a b => decide_rel Z.le _ _.
Definition documentsWhere (p : UUID * Document -> Prop) `{forall kv, Decision (p kv)} (db : DcDB) : list (UUID * Document) :=
  merge_sort newest (filter p (map_to_list (documents db))).

(** [ListOwnedDocuments] *)
Definition ListOwnedDocuments (companyID : UUID) (owner : string) : DcTx (list (UUID * Document)) :=
  dread (fun db => Ok (documentsWhere (fun kv => d_company kv.2 = companyID /\ d_owner kv.2 = owner) db)).

(** [SharedDocumentIDsForMember] *)
Definition SharedDocumentIDsForMember (companyID memberID : UUID) : DcTx (list UUID) :=
  dread (fun db => Ok (omap (fun kv : UUID * Share =>
    if bool_decide (s_member kv.2 = memberID /\ is_Some (documentIn db companyID (s_document kv.2))) then Some (s_document kv.2) else None)
    (map_to_list (shares db)))).

(** [GetDocumentsByIDs] *)
Definition GetDocumentsByIDs (companyID : UUID) (docIDs : list UUID) : DcTx (list (UUID * Document)) := fun env db =>
  if bool_decide (docIDs = []) then Ok ([], db)
  else dread (fun db => Ok (documentsWhere (fun kv => d_company kv.2 = companyID /\ kv.1 ∈ docIDs) db)) env db.

(** ** Shares *)

Definition share_with_key (docID : UUID) (key : string) (s : Share) : Prop := s_document s = docID /\ s_key s = Some key.

(** [FindShareByIdempotencyKey]; nothing keeps two rows from having the same key, and then
    it is one of them. *)
Definition FindShareByIdempotencyKey (docID : UUID) (key : string) : DcTx (option (UUID * Share * string)) :=
  dread (fun db => Ok (r ← find_where (share_with_key docID key) (shares db); Some (r, default "" (s_hash r.2)))).

Definition share_of (docID memberID : UUID) (s : Share) : Prop := s_document s = docID /\ s_member s = memberID.

Definition share_check (s : Share) : bool := bool_decide (s_relation s ∈ ["viewer"; "editor"]).

(** INSERT ... ON CONFLICT (document_id, member_id) DO UPDATE *)
Definition upsertShare (s : Share) (id : UUID) (db : DcDB) : result dc_error (UUID * DcDB) :=
  if negb (share_check s) then Err DcDatabase
  else
    match find_where (share_of (s_document s) (s_member s)) (shares db) with
    | Some (id', _) => Ok (id', with_shares db (<[id' := s]> (shares db)))
    | None =>
        if bool_decide (is_Some (shares db !! id)) || negb (bool_decide (is_Some (documents db !! s_document s))) then Err DcDatabase
        else Ok (id, with_shares db (<[id := s]> (shares db)))
    end.

(** [RecordShare] *)
Definition RecordShare (actor : string) (companyID docID memberID : UUID) (relation grantedBy idempotencyKey : string)
    : DcTx (UUID * Share) :=
  daudited (fun env db =>
      let key := if seqb idempotencyKey "" then None else Some idempotencyKey in
      let hash := if seqb idempotencyKey "" then None else Some (shareIdempotencyPayloadHash docID memberID relation) in
      let s := mkShare docID memberID relation grantedBy (tx_now env) key hash in
      let! r := upsertShare s (tx_newID env) db in Ok ((r.1, s), r.2))
    (fun _ => docEvent actor "docs.share.grant" companyID docID [("memberId", uuidString memberID); ("relation", relation)]).

(** [RemoveShare] *)
Definition RemoveShare (actor : string) (companyID docID memberID : UUID) : DcTx unit :=
  daudited (fun env db =>
      match find_where (share_of docID memberID) (shares db) with
      | None => Err ErrShareNotFound
      | Some _ => Ok (tt, with_shares db (filter (fun kv => ~ share_of docID memberID kv.2) (shares db)))
      end)
    (fun _ => docEvent actor "docs.share.revoke" companyID docID [("memberId", uuidString memberID)]).

Definition sharedBefore (a b : UUID * Share) : Prop := (s_created a.2 <= s_created b.2)%Z.
#[local] Instance sharedBefore_dec : RelDecision sharedBefore := fun a b => decide_rel Z.le _ _.

(** [ListShares] *)
Definition ListShares (docID : UUID) : DcTx (list (UUID * Share)) :=
  dread (fun db => Ok (merge_sort sharedBefore (filter (fun kv : UUID * Share => s_document kv.2 = docID) (map_to_list (shares db))))).

(** [GetShare] *)
Definition GetShare (docID memberID : UUID) : DcTx (UUID * Share) :=
  dread (fun db => match find_where (share_of docID memberID) (shares db) with Some r => Ok r | None => Err ErrShareNotFound end).

(** ** The audit rows *)

Definition latest (a b : DcEvent) : Prop := (de_at b <= de_at a)%Z.
#[local] Instance latest_dec : RelDecision latest := fun a b => decide_rel Z.le _ _.

(** [DocumentAudit] *)
Definition DocumentAudit (docID : UUID) : DcTx (list DcEvent) :=
  dread (fun db => Ok (take 200 (merge_sort latest (filter (fun e => de_subject e = docSubject docID) (dcAudit db))))).

Definition payloadCompany (e : DcEvent) : option string := snd <$> head (filter (fun kv => kv.1 = "companyId") (de_payload e)).
Definition companyEvents (companyID : UUID) (db : DcDB) : list DcEvent :=
  filter (fun e => payloadCompany e = Some (uuidString companyID)) (dcAudit db).

(** [ModuleAudit]: the count, then the page. *)
Definition countModuleAudit (companyID : UUID) : DcTx nat := dread (fun db => Ok (length (companyEvents companyID db))).
Definition pageModuleAudit (companyID : UUID) (page pageSize : Z) : DcTx (list DcEvent) :=
  dread (fun db => pageOf DcDatabase page pageSize (merge_sort latest (companyEvents companyID db))).
End store.
