(* ===== verification/DocsHTTP.v ===== *)
(** * The docs service

    modules/docs/service/http.go and authzclient.go: every route as a program over the
    store, the authorization service, org and notification. *)

From stdpp Require Import base gmap strings list.
From S2P Require Import Prelude GoStrings Tuple Decision Clients AuthzHTTP AdminClient OrgTree Org ModuleKit Docs.

(** ** Replies *)

(** A document on the wire, with the caller's relation when it is reported. *)
Record documentWire := mkDocumentWire { dw_id : UUID; dw_document : Document; dw_myRelation : string }.

Inductive dcBody : Type :=
| BDocument (d : documentWire)
| BDocuments (owned sharedWithMe : list documentWire)
| BShare (s : UUID * Share)
| BShares (l : list (UUID * Share))
| BEvents (l : list DcEvent)
| BEventPage (l : list DcEvent) (total : nat) (page pageSize : Z).

Inductive dcReply : Type :=
| WriteData (status : Z) (body : dcBody)
| WriteError (status : Z) (code : string)
| NoContent.

(** [writeStoreError] *)
Definition writeStoreError (err : dc_error) : dcReply :=
  match err with
  | DcValidation _ => WriteError 400 "VALIDATION_ERROR"
  | ErrDocumentNotFound | ErrShareNotFound => WriteError 404 "NOT_FOUND"
  | DcIdempotencyConflict => WriteError 409 "IDEMPOTENCY_CONFLICT"
  | DcDatabase => WriteError 500 "INTERNAL_ERROR"
  end.

Definition badRequest : dcReply := WriteError 400 "BAD_REQUEST".
Definition denied : dcReply := WriteError 403 "AUTHORIZATION_DENIED".
Definition unavailable : dcReply := WriteError 503 "AUTHORIZATION_UNAVAILABLE".
Definition unauthorized : dcReply := WriteError 401 "AUTH_TOKEN_INVALID".

(** ** Requests *)

Record createDocumentRequest := mkCreateDocument { cd_title : string; cd_body : string }.
Record createShareRequest := mkCreateShare { cs_member : string; cs_relation : string }.

(** The routes; a body that does not decode is [None], and [newID] is what uuid.New
    draws. *)
Inductive dcRequest : Type :=
| ReqListDocuments
| ReqCreateDocument (body : option createDocumentRequest) (idempotencyKey : string) (newID : UUID)
| ReqGetDocument (docId : string)
| ReqUpdateDocument (docId : string) (body : option createDocumentRequest)
| ReqDeleteDocument (docId : string)
| ReqListShares (docId : string)
| ReqCreateShare (docId : string) (body : option createShareRequest) (idempotencyKey : string)
| ReqRevokeShare (docId memberId : string)
| ReqGetDocumentAudit (docId : string)
| ReqGetModuleAudit (page pageSize : string).

Record requestContext := mkContext { rc_Subject : string; rc_RawBearer : string; rc_CompanyID : UUID; rc_DocID : UUID }.

Definition featureDocsManage : string := "docs.manage".
Definition featureDocsCreate : string := "docs.create".

(** [relationLeg]; the object type is company_module whenever there is a relation. *)
Definition relationLeg (featureKey : string) : string := if seqb featureKey "docs.manage" then "admin" else "".

(** The request of [CanObject], and the base of [BatchCanObject]'s. *)
Definition objectRequest (companyID docID relation : string) : CanRequest :=
  mkCanRequest "docs.document.access" "docs" "company" companyID (mkRef "docs_document" docID) relation.
Definition batchRequest (companyID : string) : CanRequest :=
  mkCanRequest "docs.document.access" "docs" "company" companyID (mkRef "" "") "".
Definition batchItem (docID : string) : DBatchItem := mkItem (mkRef "docs_document" docID) "viewer".

(** The tuples of [GrantDocumentOwner], [GrantShare] and [RevokeShare]. *)
Definition ownerTuple (docID kcSub : string) : Tuple := mkTuple "docs_document" docID "owner" "user" kcSub "".
Definition documentAnchor (companyID docID : string) : Tuple := AnchorTuple "docs" "docs_document" docID companyID.
Definition shareTuple (docID relation kcSub : string) : Tuple := mkTuple "docs_document" docID relation "user" kcSub "".

(** What [BatchCanObject] puts in its map: the last result for the object, and false when
    there is none. *)
Definition verified (results : list (DBatchItem * bool)) (docID : string) : bool :=
  default false (snd <$> last (filter (fun r : DBatchItem * bool => RID (IObject r.1) = docID) results)).

Section service.
Context `{UT : UUIDText} (verify : string -> option Claims) (parseUUID : string -> option UUID).
Context (documentHash : UUID -> string -> string -> string -> string) (shareHash : UUID -> UUID -> string -> string).

Abbreviation P A := (prog DcDB dc_error A).
Abbreviation Step A := (P (result dcReply A)).

(** A store call whose error is written with [writeStoreError]. *)
Definition storeCall {A} (m : DcTx A) : Step A :=
  let& r := Transact m in
  Ret (match r with Ok a => Ok a | Err e => Err (writeStoreError e) end).

Definition orBadRequest {A} (o : option A) : Step A := Ret (match o with Some a => Ok a | None => Err badRequest end).

(** ** The clients *)

(** [Can] and [CanObject] *)
Definition Can (rawBearer featureKey companyID : string) : P (option bool) :=
  let& r := DoCan rawBearer (canRequest "docs" featureKey companyID (relationLeg featureKey)) in Ret (fst <$> r).
Definition CanObject (rawBearer companyID docID relation : string) : P (option bool) :=
  let& r := DoCan rawBearer (objectRequest companyID docID relation) in Ret (fst <$> r).

(** [BatchCanObject] for viewer; the caller names at least one document. *)
Definition BatchCanObject (rawBearer companyID : string) (docIDs : list string) : P (option (string -> bool)) :=
  let& r := BatchCan rawBearer (batchRequest companyID) (batchItem <$> docIDs) in Ret (verified <$> r).

Definition GrantDocumentOwner (rawBearer companyID docID creatorKcSub correlationID : string) : P bool :=
  let& ok := GrantOrRevoke rawBearer companyID "grant" [ownerTuple docID creatorKcSub; documentAnchor companyID docID] correlationID in Ret ok.
Definition GrantShare (rawBearer companyID docID relation kcSub correlationID : string) : P bool :=
  let& ok := GrantOrRevoke rawBearer companyID "grant" [shareTuple docID relation kcSub] correlationID in Ret ok.
Definition RevokeShare (rawBearer companyID docID relation kcSub correlationID : string) : P bool :=
  let& ok := GrantOrRevoke rawBearer companyID "revoke" [shareTuple docID relation kcSub] correlationID in Ret ok.

(** ** Gates *)

(** The end of both gates. *)
Definition gate (allowed : option bool) (next : P dcReply) : P dcReply :=
  match allowed with None => Ret unavailable | Some false => Ret denied | Some true => next end.

(** [withAuth] *)
Definition withAuth (header companyId featureKey : string) (next : requestContext -> P dcReply) : P dcReply :=
  match Verify verify (BearerFromHeader header) with
  | None => Ret unauthorized
  | Some subject =>
      match parseUUID companyId with
      | None => Ret badRequest
      | Some companyID =>
          run& allowed := Can header featureKey (uuidString companyID) in
          gate allowed (next (mkContext subject header companyID 0))
      end
  end.

(** [withObjectAuth] *)
Definition withObjectAuth (header companyId docId relation : string) (next : requestContext -> P dcReply) : P dcReply :=
  match Verify verify (BearerFromHeader header) with
  | None => Ret unauthorized
  | Some subject =>
      match parseUUID companyId, parseUUID docId with
      | Some companyID, Some docID =>
          run& allowed := CanObject header (uuidString companyID) (uuidString docID) relation in
          gate allowed (next (mkContext subject header companyID docID))
      | _, _ => Ret badRequest
      end
  end.

(** ** Documents *)

(** [myRelation] *)
Definition myRelation (rc : requestContext) (r : UUID * Document) : P string :=
  if seqb (d_owner r.2) (rc_Subject rc) then Ret "owner"
  else
    run& allowed := CanObject (rc_RawBearer rc) (uuidString (rc_CompanyID rc)) (uuidString r.1) "editor" in
    Ret (match allowed with Some true => "editor" | _ => "viewer" end).

Definition handleCreateDocument (body : option createDocumentRequest) (idempotencyKey : string) (newID : UUID) (rc : requestContext)
    : P dcReply :=
  let? req := orBadRequest body in
  if (200 <? String.length idempotencyKey)%nat then Ret badRequest
  else
    let create : P dcReply :=
      run& ok := GrantDocumentOwner (rc_RawBearer rc) (uuidString (rc_CompanyID rc)) (uuidString newID) (rc_Subject rc) (uuidString newID) in
      if negb ok then Ret unavailable
      else
        let? d := storeCall (CreateDocument documentHash newID (rc_Subject rc) (rc_CompanyID rc) (cd_title req) (cd_body req) idempotencyKey) in
        Ret (WriteData 201 (BDocument (mkDocumentWire d.1 d.2 "owner"))) in
    if seqb idempotencyKey "" then create
    else
      let& found := Transact (FindDocumentByIdempotencyKey (rc_CompanyID rc) (rc_Subject rc) idempotencyKey) in
      match found with
      | Err _ => Ret (WriteError 500 "INTERNAL_ERROR")
      | Ok (Some (existing, existingHash)) =>
          if negb (seqb existingHash (documentHash (rc_CompanyID rc) (rc_Subject rc) (cd_title req) (cd_body req)))
          then Ret (WriteError 409 "IDEMPOTENCY_CONFLICT")
          else Ret (WriteData 200 (BDocument (mkDocumentWire existing.1 existing.2 "owner")))
      | Ok None => create
      end.

(** The documents shared with the caller; an error on the way leaves it empty. *)
Definition sharedWithMe (rc : requestContext) : P (list (UUID * Document)) :=
  let& who := MemberByKcSub (uuidString (rc_CompanyID rc)) (rc_Subject rc) in
  match who with
  | Some (memberID, true, _) =>
      match (if seqb memberID "" then None else parseUUID memberID) with
      | None => Ret []
      | Some mid =>
          let& candidates := Transact (SharedDocumentIDsForMember (rc_CompanyID rc) mid) in
          match candidates with
          | Ok (c :: cs) =>
              run& answer := BatchCanObject (rc_RawBearer rc) (uuidString (rc_CompanyID rc)) (uuidString <$> c :: cs) in
              match answer with
              | None => Ret []
              | Some ok =>
                  let& docs := Transact (GetDocumentsByIDs (rc_CompanyID rc) (filter (fun id => ok (uuidString id) = true) (c :: cs))) in
                  Ret (match docs with Ok l => l | Err _ => [] end)
              end
          | _ => Ret []
          end
      end
  | _ => Ret []
  end.

Definition handleListDocuments (rc : requestContext) : P dcReply :=
  let? owned := storeCall (ListOwnedDocuments (rc_CompanyID rc) (rc_Subject rc)) in
  run& shared := sharedWithMe rc in
  Ret (WriteData 200 (BDocuments ((fun d => mkDocumentWire d.1 d.2 "owner") <$> owned) ((fun d => mkDocumentWire d.1 d.2 "") <$> shared))).

Definition handleGetDocument (rc : requestContext) : P dcReply :=
  let? d := storeCall (GetDocument (rc_CompanyID rc) (rc_DocID rc)) in
  run& rel := myRelation rc d in
  Ret (WriteData 200 (BDocument (mkDocumentWire d.1 d.2 rel))).

Definition handleUpdateDocument (body : option createDocumentRequest) (rc : requestContext) : P dcReply :=
  let? req := orBadRequest body in
  let? d := storeCall (UpdateDocument (rc_Subject rc) (rc_CompanyID rc) (rc_DocID rc) (cd_title req) (cd_body req)) in
  run& rel := myRelation rc d in
  Ret (WriteData 200 (BDocument (mkDocumentWire d.1 d.2 rel))).

Definition handleDeleteDocument (rc : requestContext) : P dcReply :=
  let? _ := storeCall (DeleteDocument (rc_Subject rc) (rc_CompanyID rc) (rc_DocID rc)) in
  Ret NoContent.

(** ** Shares *)

Definition handleListShares (rc : requestContext) : P dcReply :=
  let? l := storeCall (ListShares (rc_DocID rc)) in
  Ret (WriteData 200 (BShares l)).

(** The notice of a share or a revoke, when the document is still there. *)
Definition notifyDocument (rc : requestContext) (recipient subjectPrefix before after : string) : P unit :=
  let& doc := Transact (GetDocument (rc_CompanyID rc) (rc_DocID rc)) in
  match doc with
  | Err _ => Ret tt
  | Ok d =>
      let& _ := SendEvent (rc_RawBearer rc) (uuidString (rc_CompanyID rc)) recipient (subjectPrefix +:+ d_title d.2)
                  (before +:+ d_title d.2 +:+ after) in
      Ret tt
  end.

(** From the revoke of the old relation on. *)
Definition grantAndRecord (memberID : UUID) (relation kcSub idempotencyKey correlationID : string) (rc : requestContext) : P dcReply :=
  run& ok := GrantShare (rc_RawBearer rc) (uuidString (rc_CompanyID rc)) (uuidString (rc_DocID rc)) relation kcSub correlationID in
  if negb ok then Ret unavailable
  else
    let? sh := storeCall (RecordShare shareHash (rc_Subject rc) (rc_CompanyID rc) (rc_DocID rc) memberID relation (rc_Subject rc) idempotencyKey) in
    run& _ := notifyDocument rc kcSub "Document shared: " "A document, '" ("', was shared with you as " +:+ relation +:+ ".") in
    Ret (WriteData 201 (BShare sh)).

Definition shareWith (memberID : UUID) (relation kcSub idempotencyKey : string) (rc : requestContext) : P dcReply :=
  let correlationID := uuidString (rc_DocID rc) +:+ ":" +:+ uuidString memberID in
  let& existing := Transact (GetShare (rc_DocID rc) memberID) in
  match existing with
  | Ok (_, sh) =>
      if negb (seqb (s_relation sh) relation) then
        run& ok := RevokeShare (rc_RawBearer rc) (uuidString (rc_CompanyID rc)) (uuidString (rc_DocID rc)) (s_relation sh) kcSub
                     (correlationID +:+ ":upgrade-revoke-old") in
        if negb ok then Ret unavailable else grantAndRecord memberID relation kcSub idempotencyKey correlationID rc
      else grantAndRecord memberID relation kcSub idempotencyKey correlationID rc
  | Err ErrShareNotFound => grantAndRecord memberID relation kcSub idempotencyKey correlationID rc
  | Err e => Ret (writeStoreError e)
  end.

Definition handleCreateShare (body : option createShareRequest) (idempotencyKey : string) (rc : requestContext) : P dcReply :=
  let? req := orBadRequest body in
  if negb (seqb (cs_relation req) "viewer" || seqb (cs_relation req) "editor") then Ret badRequest
  else
    let? memberID := orBadRequest (parseUUID (cs_member req)) in
    let& member := GetMember (uuidString memberID) in
    let kcSub := default "" (om_kcsub <$> member) in
    if seqb kcSub "" then Ret (WriteError 422 "VALIDATION_FAILED")
    else if (200 <? String.length idempotencyKey)%nat then Ret badRequest
    else if seqb idempotencyKey "" then shareWith memberID (cs_relation req) kcSub idempotencyKey rc
    else
      let& found := Transact (FindShareByIdempotencyKey (rc_DocID rc) idempotencyKey) in
      match found with
      | Err _ => Ret (WriteError 500 "INTERNAL_ERROR")
      | Ok (Some (existing, existingHash)) =>
          if negb (seqb existingHash (shareHash (rc_DocID rc) memberID (cs_relation req)))
          then Ret (WriteError 409 "IDEMPOTENCY_CONFLICT")
          else Ret (WriteData 200 (BShare existing))
      | Ok None => shareWith memberID (cs_relation req) kcSub idempotencyKey rc
      end.

(** [handleRevokeShare]'s end: the index row and the notice. *)
Definition removeAndNotify (memberID : UUID) (kcSub : string) (rc : requestContext) : P dcReply :=
  let? _ := storeCall (RemoveShare (rc_Subject rc) (rc_CompanyID rc) (rc_DocID rc) memberID) in
  run& _ := if seqb kcSub "" then let& _ := Transact (GetDocument (rc_CompanyID rc) (rc_DocID rc)) in Ret tt
            else notifyDocument rc kcSub "Document access revoked: " "Your access to '" "' was revoked." in
  Ret NoContent.

Definition handleRevokeShare (memberId : string) (rc : requestContext) : P dcReply :=
  let? memberID := orBadRequest (parseUUID memberId) in
  let& member := GetMember (uuidString memberID) in
  match member with
  | None => Ret (WriteError 404 "NOT_FOUND")
  | Some m =>
      let kcSub := om_kcsub m in
      if negb (seqb kcSub "") && seqb kcSub (rc_Subject rc) then Ret badRequest
      else
        let? sh := storeCall (GetShare (rc_DocID rc) memberID) in
        if seqb kcSub "" then removeAndNotify memberID kcSub rc
        else
          run& ok := RevokeShare (rc_RawBearer rc) (uuidString (rc_CompanyID rc)) (uuidString (rc_DocID rc)) (s_relation sh.2) kcSub
                       (uuidString (rc_DocID rc) +:+ ":" +:+ uuidString memberID +:+ ":revoke") in
          if negb ok then Ret unavailable else removeAndNotify memberID kcSub rc
  end.

(** ** The audit rows *)

Definition handleGetDocumentAudit (rc : requestContext) : P dcReply :=
  let? l := storeCall (DocumentAudit (rc_DocID rc)) in
  Ret (WriteData 200 (BEvents l)).

Definition handleGetModuleAudit (page pageSize : string) (rc : requestContext) : P dcReply :=
  let '(page, pageSize) := PageParams page pageSize in
  let? total := storeCall (countModuleAudit (rc_CompanyID rc)) in
  let? events := storeCall (pageModuleAudit (rc_CompanyID rc) page pageSize) in
  let '(page, pageSize) := ClampPage page pageSize in
  Ret (WriteData 200 (BEventPage events total page pageSize)).

(** [mountRoutes]: the gate and the handler of each route. *)
Definition serve (header companyId : string) (r : dcRequest) : P dcReply :=
  match r with
  | ReqListDocuments => withAuth header companyId featureDocsCreate handleListDocuments
  | ReqCreateDocument body key newID => withAuth header companyId featureDocsCreate (handleCreateDocument body key newID)
  | ReqGetDocument docId => withObjectAuth header companyId docId "viewer" handleGetDocument
  | ReqUpdateDocument docId body => withObjectAuth header companyId docId "editor" (handleUpdateDocument body)
  | ReqDeleteDocument docId => withObjectAuth header companyId docId "owner" handleDeleteDocument
  | ReqListShares docId => withObjectAuth header companyId docId "viewer" handleListShares
  | ReqCreateShare docId body key => withObjectAuth header companyId docId "owner" (handleCreateShare body key)
  | ReqRevokeShare docId memberId => withObjectAuth header companyId docId "owner" (handleRevokeShare memberId)
  | ReqGetDocumentAudit docId => withObjectAuth header companyId docId "viewer" handleGetDocumentAudit
  | ReqGetModuleAudit page pageSize => withAuth header companyId featureDocsManage (handleGetModuleAudit page pageSize)
  end.
End service.
