(* ===== verification/DocsProps.v ===== *)
(** * The docs service: who sees and changes what

    What each transaction of the store does, and what every step of every request keeps,
    whatever happens between its calls. *)

From stdpp Require Import base gmap strings list sorting.
From S2P Require Import Prelude GoStrings Tuple Decision Clients AuthzHTTP AdminClient OrgTree Org OrgProps ModuleKit ModuleRules Docs DocsHTTP.

(** ** Transactions *)

Lemma dread_ok {X} (f : DcDB -> result dc_error X) env db x db' : dread f env db = Ok (x, db') -> f db = Ok x /\ db' = db.
Proof. unfold dread. destruct (tx_broken env); [done|]. destruct (f db); [|done]. by intros [= -> ->]. Qed.

Lemma daudited_ok {X} (m : DcTx X) ev env db x db' :
  daudited m ev env db = Ok (x, db') ->
  exists db1, m env db = Ok (x, db1) /\ db' = mkDcDB (documents db1) (shares db1) (dcAudit db1 ++ [ev x (tx_now env)]).
Proof.
  unfold daudited. destruct (tx_broken env); [done|]. destruct (m env db) as [[y db1]|]; [|done]. simpl. intros [= -> <-]. by exists db1.
Qed.

Lemma documentIn_Some db companyID id d : documentIn db companyID id = Some d <-> documents db !! id = Some d /\ d_company d = companyID.
Proof.
  unfold documentIn. destruct (documents db !! id) as [d'|]; simpl; [|naive_solver]. case_bool_decide; naive_solver.
Qed.

Lemma elem_of_documentsWhere p `{forall kv, Decision (p kv)} db kv :
  kv ∈ documentsWhere p db <-> documents db !! kv.1 = Some kv.2 /\ p kv.
Proof.
  unfold documentsWhere. rewrite merge_sort_Permutation, list_elem_of_filter. destruct kv. rewrite elem_of_map_to_list. naive_solver.
Qed.

Lemma last_elem_of {A} (l : list A) x : last l = Some x -> x ∈ l.
Proof. intros [l' ->]%last_Some. apply elem_of_app. right. left. Qed.

Section store.
Context `{UT : UUIDText} (documentHash : UUID -> string -> string -> string -> string) (shareHash : UUID -> UUID -> string -> string).

(** One audit row of the company, about the document, in the name of the actor. *)
Definition dlogged (actor : string) (companyID docID : UUID) (db db' : DcDB) (ds : gmap UUID Document) (ss : gmap UUID Share) : Prop :=
  exists action rest now, db' = mkDcDB ds ss (dcAudit db ++ [docEvent actor action companyID docID rest now]).

Lemma CreateDocument_ok docID actor companyID title body key env db id d db' :
  CreateDocument documentHash docID actor companyID title body key env db = Ok (id, d, db') ->
  id = docID /\ validDocTitle title = true /\
  d = mkDocument companyID title body actor (tx_now env) (tx_now env) (if seqb key "" then None else Some key)
        (if seqb key "" then None else Some (documentHash companyID actor title body)) /\
  documents db !! docID = None /\
  (forall k i a, d_key d = Some k -> documents db !! i = Some a -> ~ doc_with_key companyID actor k a) /\
  dlogged actor companyID docID db db' (<[docID := d]> (documents db)) (shares db).
Proof.
  unfold CreateDocument. destruct (validDocTitle title) eqn:Ht; [|done]. simpl. intros (db1 & H & ->)%daudited_ok.
  unfold insertDocument in H. case_bool_decide as Hn; [done|]. apply eq_None_not_Some in Hn. simpl in H.
  destruct (_ ≫= _) eqn:Hk; [done|]. injection H as <- <- <-. split_and!; try done; [|by eexists _, _, _].
  intros k i a Hkey Ha Hw. simpl in Hkey. rewrite Hkey in Hk. simpl in Hk. revert Hk. rewrite find_where_None. intros Hk. by eapply Hk.
Qed.

Lemma UpdateDocument_ok actor companyID docID title body env db id d' db' :
  UpdateDocument actor companyID docID title body env db = Ok (id, d', db') ->
  exists d, id = docID /\ documentIn db companyID docID = Some d /\ d' = set_content title body (tx_now env) d /\ validDocTitle title = true /\
    dlogged actor companyID docID db db' (<[docID := d']> (documents db)) (shares db).
Proof.
  unfold UpdateDocument. destruct (validDocTitle title) eqn:Ht; [|done]. simpl. intros (db1 & H & ->)%daudited_ok.
  destruct (documentIn _ _ _) as [d|] eqn:E; [|done]. injection H as <- <- <-. exists d. split_and!; try done. by eexists _, _, _.
Qed.

Lemma DeleteDocument_ok actor companyID docID env db x db' :
  DeleteDocument actor companyID docID env db = Ok (x, db') ->
  exists d, documentIn db companyID docID = Some d /\
    dlogged actor companyID docID db db' (delete docID (documents db)) (filter (fun kv => s_document kv.2 <> docID) (shares db)).
Proof.
  intros (db1 & H & ->)%daudited_ok. destruct (documentIn _ _ _) as [d|] eqn:E; [|done]. injection H as _ <-. exists d.
  split; [done|]. by eexists _, _, _.
Qed.

(** The row of a share: the one the pair has, or a new one. *)
Definition share_slot (db : DcDB) (docID memberID id : UUID) : Prop :=
  (exists old, shares db !! id = Some old /\ share_of docID memberID old) \/
  (shares db !! id = None /\ is_Some (documents db !! docID) /\ forall i s, shares db !! i = Some s -> ~ share_of docID memberID s).

Lemma RecordShare_ok actor companyID docID memberID relation grantedBy key env db id s db' :
  RecordShare shareHash actor companyID docID memberID relation grantedBy key env db = Ok (id, s, db') ->
  share_slot db docID memberID id /\ relation ∈ ["viewer"; "editor"] /\
  s = mkShare docID memberID relation grantedBy (tx_now env) (if seqb key "" then None else Some key)
        (if seqb key "" then None else Some (shareHash docID memberID relation)) /\
  dlogged actor companyID docID db db' (documents db) (<[id := s]> (shares db)).
Proof.
  intros (db1 & H & ->)%daudited_ok. cbv zeta in H. unfold upsertShare in H. destruct (share_check _) eqn:Hc; [|done]. simpl in H.
  apply bool_decide_eq_true in Hc. simpl in Hc.
  destruct (find_where _ _) as [[id' old]|] eqn:Ef.
  - injection H as <- <- <-. apply find_where_Some in Ef as [Ho Hs]. split_and!; try done; [left; eauto|by eexists _, _, _].
  - case_bool_decide as Hn; [done|]. case_bool_decide as Hd; [|done]. injection H as <- <- <-. revert Ef. rewrite find_where_None.
    intros Hf. apply eq_None_not_Some in Hn. split_and!; try done; [right; by split_and!|by eexists _, _, _].
Qed.

Lemma RemoveShare_ok actor companyID docID memberID env db x db' :
  RemoveShare actor companyID docID memberID env db = Ok (x, db') ->
  dlogged actor companyID docID db db' (documents db) (filter (fun kv => ~ share_of docID memberID kv.2) (shares db)).
Proof.
  intros (db1 & H & ->)%daudited_ok. destruct (find_where _ _); [|done]. injection H as _ <-. by eexists _, _, _.
Qed.
End store.

(** ** What a request may do *)

Section props.
Context `{UT : UUIDText} (verify : string -> option Claims) (uuid_ok : string -> bool) (authz : Service -> Prop).
Context (parseUUID : string -> option UUID).
Context (documentHash : UUID -> string -> string -> string -> string) (shareHash : UUID -> UUID -> string -> string).

Abbreviation MW := (MWorld DcDB).
Abbreviation accepted := (accepted verify uuid_ok authz).

(** The authorization service let the bearer use the feature in the company, and has it
    hold the relation on the document there. *)
Definition dcMay (rc : requestContext) (featureKey : string) : Prop :=
  allows verify authz (rc_RawBearer rc) (canRequest "docs" featureKey (uuidString (rc_CompanyID rc)) (relationLeg featureKey)).
Definition holds (rc : requestContext) (docID : UUID) (relation : string) : Prop :=
  allows verify authz (rc_RawBearer rc) (objectRequest (uuidString (rc_CompanyID rc)) (uuidString docID) relation).
Definition holdsInBatch (rc : requestContext) (docID : UUID) : Prop :=
  exists ids, allowsItem verify authz (rc_RawBearer rc) (batchRequest (uuidString (rc_CompanyID rc))) (batchItem <$> ids)
                (batchItem (uuidString docID)).

Section spec.
Context (seen : MW -> Prop) (rc : requestContext).
Abbreviation companyID := (rc_CompanyID rc).
Abbreviation docID := (rc_DocID rc).
Abbreviation dlogged id := (dlogged (rc_Subject rc) companyID id).

Inductive dc_write (db db' : DcDB) : Prop :=
| dw_create id d :
    dcMay rc featureDocsCreate ->
    accepted (rc_RawBearer rc) (uuidString companyID) "grant"
      [ownerTuple (uuidString id) (rc_Subject rc); documentAnchor (uuidString companyID) (uuidString id)] ->
    documents db !! id = None -> d_company d = companyID -> d_owner d = rc_Subject rc -> validDocTitle (d_title d) = true ->
    dlogged id db db' (<[id := d]> (documents db)) (shares db) -> dc_write db db'
| dw_update d title body now :
    holds rc docID "editor" -> documentIn db companyID docID = Some d -> validDocTitle title = true ->
    dlogged docID db db' (<[docID := set_content title body now d]> (documents db)) (shares db) -> dc_write db db'
| dw_delete d :
    holds rc docID "owner" -> documentIn db companyID docID = Some d ->
    dlogged docID db db' (delete docID (documents db)) (filter (fun kv => s_document kv.2 <> docID) (shares db)) -> dc_write db db'
| dw_share id s kcSub :
    holds rc docID "owner" -> kcSub <> "" ->
    accepted (rc_RawBearer rc) (uuidString companyID) "grant" [shareTuple (uuidString docID) (s_relation s) kcSub] ->
    s_document s = docID -> s_relation s ∈ ["viewer"; "editor"] -> s_grantedBy s = rc_Subject rc -> share_slot db docID (s_member s) id ->
    dlogged docID db db' (documents db) (<[id := s]> (shares db)) -> dc_write db db'
| dw_unshare memberID :
    holds rc docID "owner" ->
    dlogged docID db db' (documents db) (filter (fun kv => ~ share_of docID memberID kv.2) (shares db)) -> dc_write db db'.

(** A document the caller may read: its own, or one the engine lets it see. *)
Definition readable (w : documentWire) : Prop :=
  d_company (dw_document w) = companyID /\
  (d_owner (dw_document w) = rc_Subject rc \/ exists rel, rel ∈ ["viewer"; "editor"] /\ holds rc (dw_id w) rel) /\
  (dw_myRelation w = "owner" -> d_owner (dw_document w) = rc_Subject rc) /\
  (dw_myRelation w = "editor" -> holds rc (dw_id w) "editor").

Definition dc_discloses (r : dcReply) : Prop :=
  match r with
  | WriteData _ (BDocument w) => readable w
  | WriteData _ (BDocuments owned shared) =>
      Forall (fun w => d_company (dw_document w) = companyID /\ d_owner (dw_document w) = rc_Subject rc) owned /\
      Forall (fun w => d_company (dw_document w) = companyID /\ holdsInBatch rc (dw_id w)) shared
  | WriteData _ (BShare s) => s_document s.2 = docID /\ holds rc docID "owner"
  | WriteData _ (BShares l) => Forall (fun s => s_document s.2 = docID) l /\ holds rc docID "viewer"
  | WriteData _ (BEvents l) => Forall (fun e => de_subject e = docSubject docID) l /\ length l <= 200 /\ holds rc docID "viewer"
  | WriteData _ (BEventPage l _ _ n) =>
      Forall (fun e => payloadCompany e = Some (uuidString companyID)) l /\ (Z.of_nat (length l) <= n <= 100)%Z /\ dcMay rc featureDocsManage
  | WriteError _ _ | NoContent => True
  end.

Definition dcG (w w' : MW) : Prop := w_store w' = w_store w \/ dc_write (w_store w) (w_store w').
Abbreviation safe := (safe verify uuid_ok authz seen dcG).

Lemma dcG_same (w w' : MW) : w_store w' = w_store w -> dcG w w'.
Proof. by left. Qed.

Lemma dc_store {X} (m : DcTx X) (k : X -> prog DcDB dc_error dcReply) :
  (forall w env x db, seen w -> m env (w_store w) = Ok (x, db) -> dcG w (mkMWorld db (w_authz w) (w_sent w)) /\ safe (k x) dc_discloses) ->
  safe (orReply (storeCall m) k) dc_discloses.
Proof. intros Hk. apply safe_orReply, safe_transact; [apply dcG_same|by intros []|done]. Qed.

Lemma dc_reading {X} (f : DcDB -> result dc_error X) (k : X -> prog DcDB dc_error dcReply) :
  (forall w x, seen w -> f (w_store w) = Ok x -> safe (k x) dc_discloses) -> safe (orReply (storeCall (dread f)) k) dc_discloses.
Proof. intros Hk. apply dc_store. intros w env x db Hw [H ->]%dread_ok. split; [by left|]. by eapply Hk. Qed.

(** A read whose error is looked at. *)
Lemma dc_read {X A} (f : DcDB -> result dc_error X) (k : result dc_error X -> prog DcDB dc_error A) Q :
  (forall e, safe (k (Err e)) Q) -> (forall w x, seen w -> f (w_store w) = Ok x -> safe (k (Ok x)) Q) ->
  safe (Call (Transact (dread f)) k) Q.
Proof.
  intros He Hk. apply safe_transact; [apply dcG_same|done|]. intros w env x db Hw [H ->]%dread_ok. split; [by left|]. by eapply Hk.
Qed.

Lemma dc_bad {A} (o : option A) (k : A -> prog DcDB dc_error dcReply) :
  (forall a, safe (k a) dc_discloses) -> safe (orReply (orBadRequest o) k) dc_discloses.
Proof. intros Hk. destruct o; simpl; [by apply Hk|done]. Qed.

Lemma myRelation_safe (r : UUID * Document) Q :
  (forall rel, (rel = "owner" -> d_owner r.2 = rc_Subject rc) -> (rel = "editor" -> holds rc r.1 "editor") -> Q rel) -> safe (myRelation rc r) Q.
Proof.
  intros HQ. unfold myRelation. destruct (seqb _ _) eqn:E; [apply HQ; [by intros _; apply seqb_true|done]|].
  apply safe_bind, safe_DoCan; [apply dcG_same|by apply HQ|intros; by apply HQ|]. intros reason H. apply HQ; [done|]. intros _. exact H.
Qed.

Lemma createDocument_safe req key newID :
  dcMay rc featureDocsCreate ->
  safe (bind (GrantDocumentOwner (rc_RawBearer rc) (uuidString companyID) (uuidString newID) (rc_Subject rc) (uuidString newID))
    (fun ok => if negb ok then Ret unavailable
      else orReply (storeCall (CreateDocument documentHash newID (rc_Subject rc) companyID (cd_title req) (cd_body req) key))
        (fun d => Ret (WriteData 201 (BDocument (mkDocumentWire d.1 d.2 "owner")))))) dc_discloses.
Proof.
  intros Hm. apply safe_bind, safe_Grant; [apply dcG_same|done|]. intros Hg. apply dc_store.
  intros w env [id d] db Hw (-> & Ht & -> & Hn & _ & Hl)%CreateDocument_ok. split.
  - right. eapply dw_create; [..|exact Hl]; done.
  - split_and!; simpl; auto; done.
Qed.

Lemma handleCreateDocument_safe body key newID :
  dcMay rc featureDocsCreate -> safe (handleCreateDocument documentHash body key newID rc) dc_discloses.
Proof.
  intros Hm. apply dc_bad. intros req. destruct (200 <? _)%nat; [done|]. cbv zeta. destruct (seqb key ""); [by apply createDocument_safe|].
  apply dc_read; [done|]. intros w x Hw [= <-]. destruct (find_where _ _) as [[id d]|] eqn:Ef; simpl; [|by apply createDocument_safe].
  destruct (negb _); [done|]. apply find_where_Some in Ef as (_ & Hc & Ho & _). split_and!; simpl; auto; done.
Qed.

Lemma verified_allows l ids id :
  (forall it, (it, true) ∈ l -> allowsItem verify authz (rc_RawBearer rc) (batchRequest (uuidString companyID)) (batchItem <$> ids) it) ->
  verified l (uuidString id) = true -> holdsInBatch rc id.
Proof.
  intros Hl. unfold verified. destruct (last _) as [[it b]|] eqn:E; [|done]. simpl. intros ->.
  apply last_elem_of, list_elem_of_filter in E as [Hid Hin]. apply Hl in Hin. simpl in Hid. exists ids.
  pose proof (allowsItem_in _ _ _ _ _ _ Hin) as Hit. apply list_elem_of_fmap in Hit as (d & -> & _). simpl in Hid. by rewrite <- Hid.
Qed.

Lemma sharedWithMe_safe Q :
  (forall l, Forall (fun d => d_company d.2 = companyID /\ holdsInBatch rc d.1) l -> Q l) -> safe (sharedWithMe parseUUID rc) Q.
Proof.
  intros HQ. assert (Hnil : Q []) by (apply HQ; constructor). apply safe_quiet; [apply dcG_same|done|]. intros [[[memberID []] ?]|]; try done.
  destruct (if seqb memberID "" then _ else _) as [mid|]; [|done]. apply dc_read; [done|]. intros w0 cands _ _. destruct cands as [|c cs]; [done|].
  apply safe_bind, safe_BatchCan; [apply dcG_same|done|]. intros l Hl.
  apply safe_transact; [apply dcG_same|done|]. intros w env docs db Hw H.
  assert (db = w_store w /\ forall d, d ∈ docs -> d_company d.2 = companyID /\ d.1 ∈ filter (fun id => verified l (uuidString id) = true) (c :: cs)) as [-> Hd].
  { unfold GetDocumentsByIDs in H. case_bool_decide; [injection H as <- <-; split; [done|]; by intros d ?%not_elem_of_nil|].
    apply dread_ok in H as [[= <-] ->]. split; [done|]. intros d [_ ?]%elem_of_documentsWhere. done. }
  split; [by left|]. apply HQ. apply Forall_forall. intros d Hd'. destruct (Hd d Hd') as [? [Hv _]%list_elem_of_filter]. split; [done|].
  by apply (verified_allows l (uuidString <$> c :: cs)).
Qed.

Lemma handleListDocuments_safe : safe (handleListDocuments parseUUID rc) dc_discloses.
Proof.
  apply dc_reading. intros w owned Hw [= <-]. apply safe_bind, sharedWithMe_safe. intros l Hl. split.
  - apply Forall_fmap, Forall_forall. by intros d [_ ?]%elem_of_documentsWhere.
  - by apply Forall_fmap.
Qed.

Lemma handleGetDocument_safe : holds rc docID "viewer" -> safe (handleGetDocument rc) dc_discloses.
Proof.
  intros Hh. apply dc_reading. intros w x Hw. destruct (documentIn _ _ _) as [d|] eqn:E; [|done]. intros [= <-]. apply documentIn_Some in E as [_ Hc].
  apply safe_bind, myRelation_safe. intros rel Ho He. split_and!; simpl in *; auto. right. exists "viewer". split; [left|done].
Qed.

Lemma handleUpdateDocument_safe body : holds rc docID "editor" -> safe (handleUpdateDocument body rc) dc_discloses.
Proof.
  intros Hh. apply dc_bad. intros req. apply dc_store. intros w env [id d'] db Hw (d & -> & Hd & -> & Ht & Hl)%UpdateDocument_ok. split.
  - right. by eapply dw_update.
  - apply documentIn_Some in Hd as [_ Hc]. apply safe_bind, myRelation_safe. intros rel Ho He. split_and!; simpl in *; auto.
    right. exists "editor". split; [right; left|done].
Qed.

Lemma handleDeleteDocument_safe : holds rc docID "owner" -> safe (handleDeleteDocument rc) dc_discloses.
Proof.
  intros Hh. apply dc_store. intros w env x db Hw (d & Hd & Hl)%DeleteDocument_ok. split; [|done]. right. by eapply dw_delete.
Qed.

Lemma handleListShares_safe : holds rc docID "viewer" -> safe (handleListShares rc) dc_discloses.
Proof.
  intros Hh. apply dc_reading. intros w l Hw [= <-]. split; [|done]. apply Forall_forall. intros s.
  rewrite merge_sort_Permutation. by intros [? _]%list_elem_of_filter.
Qed.

Lemma notifyDocument_safe kcSub a b c Q : Q tt -> safe (notifyDocument rc kcSub a b c) Q.
Proof. intros HQ. apply dc_read; [done|]. intros w x _ _. by apply safe_quiet; [apply dcG_same| |]. Qed.

Lemma grantAndRecord_safe memberID relation kcSub key corr :
  holds rc docID "owner" -> kcSub <> "" -> safe (grantAndRecord shareHash memberID relation kcSub key corr rc) dc_discloses.
Proof.
  intros Hh Hk. apply safe_bind, safe_Grant; [apply dcG_same|done|]. intros Hg. apply dc_store.
  intros w env [id s] db Hw (Hs & Hr & -> & Hl)%RecordShare_ok. split.
  - right. eapply dw_share; [..|exact Hl]; done.
  - apply safe_bind, notifyDocument_safe. done.
Qed.

Lemma shareWith_safe memberID relation kcSub key :
  holds rc docID "owner" -> kcSub <> "" -> safe (shareWith shareHash memberID relation kcSub key rc) dc_discloses.
Proof.
  intros Hh Hk. apply dc_read; [intros []; try done; by apply grantAndRecord_safe|]. intros w [id sh] _ _.
  destruct (negb _); [|by apply grantAndRecord_safe]. apply safe_bind, safe_Grant; [apply dcG_same|done|]. intros _. by apply grantAndRecord_safe.
Qed.

Lemma handleCreateShare_safe body key : holds rc docID "owner" -> safe (handleCreateShare parseUUID shareHash body key rc) dc_discloses.
Proof.
  intros Hh. apply dc_bad. intros req. destruct (negb (_ || _)); [done|]. apply dc_bad. intros memberID.
  apply safe_quiet; [apply dcG_same|done|]. intros member. cbv zeta. destruct (seqb _ "") eqn:E; [done|].
  assert (Hk : default "" (om_kcsub <$> member) <> "") by (intros Hk; by rewrite Hk in E).
  destruct (200 <? _)%nat; [done|]. destruct (seqb key ""); [by apply shareWith_safe|].
  apply dc_read; [done|]. intros w x Hw [= <-]. destruct (find_where _ _) as [[id s]|] eqn:Ef; simpl; [|by apply shareWith_safe].
  destruct (negb _); [done|]. by apply find_where_Some in Ef as (_ & ? & _).
Qed.

Lemma removeAndNotify_safe memberID kcSub : holds rc docID "owner" -> safe (removeAndNotify memberID kcSub rc) dc_discloses.
Proof.
  intros Hh. apply dc_store. intros w env x db Hw Hl%RemoveShare_ok. split; [right; by eapply dw_unshare|].
  apply safe_bind. destruct (seqb kcSub ""); [by apply dc_read|by apply notifyDocument_safe].
Qed.

Lemma handleRevokeShare_safe memberId : holds rc docID "owner" -> safe (handleRevokeShare parseUUID memberId rc) dc_discloses.
Proof.
  intros Hh. apply dc_bad. intros memberID. apply safe_quiet; [apply dcG_same|done|]. intros [m|]; [|done]. cbv zeta.
  destruct (negb _ && _); [done|]. apply dc_reading. intros w [id sh] _ _. destruct (seqb _ ""); [by apply removeAndNotify_safe|].
  apply safe_bind, safe_Grant; [apply dcG_same|done|]. intros _. by apply removeAndNotify_safe.
Qed.

Lemma handleGetDocumentAudit_safe : holds rc docID "viewer" -> safe (handleGetDocumentAudit rc) dc_discloses.
Proof.
  intros Hh. apply dc_reading. intros w l Hw [= <-]. split_and!; [|rewrite length_take; lia|done]. apply Forall_forall. intros e (i & He & _)%elem_of_take.
  apply list_elem_of_lookup_2 in He. rewrite merge_sort_Permutation in He. by apply list_elem_of_filter in He as [? _].
Qed.

Lemma handleGetModuleAudit_safe page pageSize : dcMay rc featureDocsManage -> safe (handleGetModuleAudit page pageSize rc) dc_discloses.
Proof.
  intros Hm. unfold handleGetModuleAudit. destruct (PageParams page pageSize) as [p n]. apply dc_reading. intros w0 total _ _.
  apply dc_reading. intros w l Hw [Hin Hl]%pageOf_ok. destruct (ClampPage p n) as [p' n']. split_and!; simpl in *; try done; try lia.
  apply Forall_forall. intros e He%Hin. rewrite merge_sort_Permutation in He. by apply list_elem_of_filter in He as [? _].
Qed.
End spec.

(** ** The routes *)

(** Each step leaves the store alone or is made for a verified caller, in the company
    and about the document of the path; so is each reply that is not an error. *)
Definition pathContext (header companyId docId : string) (rc : requestContext) : Prop :=
  Verify verify (BearerFromHeader header) = Some (rc_Subject rc) /\ rc_RawBearer rc = header /\
  parseUUID companyId = Some (rc_CompanyID rc) /\ (rc_DocID rc = 0%N \/ parseUUID docId = Some (rc_DocID rc)).
Definition dcPath (r : dcRequest) : string :=
  match r with
  | ReqListDocuments | ReqCreateDocument _ _ _ | ReqGetModuleAudit _ _ => ""
  | ReqGetDocument d | ReqUpdateDocument d _ | ReqDeleteDocument d | ReqListShares d | ReqCreateShare d _ _ | ReqRevokeShare d _
  | ReqGetDocumentAudit d => d
  end.
Definition dc_step_guarded (header companyId : string) (req : dcRequest) (db db' : DcDB) : Prop :=
  db' = db \/ exists rc, pathContext header companyId (dcPath req) rc /\ dc_write rc db db'.
Definition dc_reply_guarded (header companyId : string) (req : dcRequest) (r : dcReply) : Prop :=
  (exists st code, r = WriteError st code) \/ exists rc, pathContext header companyId (dcPath req) rc /\ dc_discloses rc r.

Section routes.
Context (seen : MW -> Prop) (header companyId : string) (req : dcRequest).
Abbreviation safe := (safe verify uuid_ok authz seen (fun w w' => dc_step_guarded header companyId req (w_store w) (w_store w'))).

Lemma dc_guarded_same (w w' : MW) : w_store w' = w_store w -> dc_step_guarded header companyId req (w_store w) (w_store w').
Proof. by left. Qed.

Lemma dc_lift rc (p : prog DcDB dc_error dcReply) :
  pathContext header companyId (dcPath req) rc ->
  ModuleKit.safe verify uuid_ok authz seen (dcG rc) p (dc_discloses rc) -> safe p (dc_reply_guarded header companyId req).
Proof.
  intros Hp. apply safe_weaken.
  - intros w w' [?|?]; [by left|]. right. eauto.
  - intros r Hr. right. eauto.
Qed.

Lemma dc_withAuth_safe featureKey h :
  (forall rc, pathContext header companyId (dcPath req) rc -> dcMay rc featureKey ->
     ModuleKit.safe verify uuid_ok authz seen (dcG rc) (h rc) (dc_discloses rc)) ->
  safe (withAuth verify parseUUID header companyId featureKey h) (dc_reply_guarded header companyId req).
Proof.
  intros Hh. unfold withAuth. destruct (Verify _ _) as [subject|] eqn:Hv; [|left; by eexists _, _].
  destruct (parseUUID companyId) as [companyID|] eqn:Hp; [|left; by eexists _, _].
  apply safe_bind, safe_DoCan; [apply dc_guarded_same|left; by eexists _, _|intros; left; by eexists _, _|]. intros reason Hm. simpl.
  assert (Hc : pathContext header companyId (dcPath req) (mkContext subject header companyID 0)) by (split_and!; simpl; auto).
  eapply dc_lift; [exact Hc|]. by apply Hh.
Qed.

Lemma dc_withObjectAuth_safe relation h :
  (forall rc, pathContext header companyId (dcPath req) rc -> holds rc (rc_DocID rc) relation ->
     ModuleKit.safe verify uuid_ok authz seen (dcG rc) (h rc) (dc_discloses rc)) ->
  safe (withObjectAuth verify parseUUID header companyId (dcPath req) relation h) (dc_reply_guarded header companyId req).
Proof.
  intros Hh. unfold withObjectAuth. destruct (Verify _ _) as [subject|] eqn:Hv; [|left; by eexists _, _].
  destruct (parseUUID companyId) as [companyID|] eqn:Hp; [|left; by eexists _, _].
  destruct (parseUUID (dcPath req)) as [docID|] eqn:Hd; [|left; by eexists _, _].
  apply safe_bind, safe_DoCan; [apply dc_guarded_same|left; by eexists _, _|intros; left; by eexists _, _|]. intros reason Hm. simpl.
  assert (Hc : pathContext header companyId (dcPath req) (mkContext subject header companyID docID)) by (split_and!; simpl; auto).
  eapply dc_lift; [exact Hc|]. by apply Hh.
Qed.
End routes.

Lemma dc_serve_safe seen header companyId req :
  safe verify uuid_ok authz seen (fun w w' => dc_step_guarded header companyId req (w_store w) (w_store w'))
    (serve verify parseUUID documentHash shareHash header companyId req) (dc_reply_guarded header companyId req).
Proof.
  destruct req; cbn [serve]; match goal with
    | |- context [withObjectAuth _ _ _ _ ?d ?rel _] =>
        match goal with |- ModuleKit.safe _ _ _ _ _ _ (dc_reply_guarded _ _ ?r) => apply (dc_withObjectAuth_safe _ _ _ r rel) end
    | _ => apply dc_withAuth_safe
    end; intros rc Hc Hm.
  - apply handleListDocuments_safe.
  - by apply handleCreateDocument_safe.
  - by apply handleGetDocument_safe.
  - by apply handleUpdateDocument_safe.
  - by apply handleDeleteDocument_safe.
  - by apply handleListShares_safe.
  - by apply handleCreateShare_safe.
  - by apply handleRevokeShare_safe.
  - by apply handleGetDocumentAudit_safe.
  - by apply handleGetModuleAudit_safe.
Qed.
End props.
