(* ===== verification/DocsTables.v ===== *)
(** * The docs tables and the authorization tuples

    The constraints of the schema, and that a document row is never without the tuples
    that make its creator its owner and tie it to its company: what a request has been
    granted so far goes along with it, and no request of the service takes it away.  Then
    what sharing and revoking do to the tuples. *)

From stdpp Require Import base gmap strings list relations.
From S2P Require Import Prelude GoStrings Tuple TupleStore StoreProps Decision Clients AuthzHTTP AuthzProps AdminClient OrgTree Org OrgProps ModuleKit ModuleRules.
From S2P Require Import Docs DocsHTTP DocsProps.

(** Tuples no request of the service revokes. *)
Definition lasting (t : Tuple) : Prop := ObjectType t = "docs_document" /\ (Relation t = "owner" \/ Relation t = "company_module").
#[export] Instance lasting_dec t : Decision (lasting t).
Proof. unfold lasting. apply _. Defined.

Record dc_tables (db : DcDB) : Prop := {
  dc_title : forall id d, documents db !! id = Some d -> validDocTitle (d_title d) = true;
  dc_doc_key : forall i d i' d' k, documents db !! i = Some d -> documents db !! i' = Some d' -> d_company d = d_company d' ->
    d_owner d = d_owner d' -> d_key d = Some k -> d_key d' = Some k -> i = i';
  dc_share_doc : forall id s, shares db !! id = Some s -> is_Some (documents db !! s_document s) /\ s_relation s ∈ ["viewer"; "editor"];
  dc_share_one : forall i s i' s', shares db !! i = Some s -> shares db !! i' = Some s' -> share_of (s_document s) (s_member s) s' -> i = i'
}.

Section tables.
Context `{UT : UUIDText} (verify : string -> option Claims) (uuid_ok : string -> bool) (authz : Service -> Prop).
Context (parseUUID : string -> option UUID).
Context (documentHash : UUID -> string -> string -> string -> string) (shareHash : UUID -> UUID -> string -> string).
Abbreviation MW := (MWorld DcDB).

Definition tuplesOf (w : MW) : Table := tuples (w_db (w_authz w)).

(** Every document has its owner and its anchor. *)
Definition owned (db : DcDB) (tbl : Table) : Prop :=
  forall id d, documents db !! id = Some d ->
    ownerTuple (uuidString id) (d_owner d) ∈ tbl /\ documentAnchor (uuidString (d_company d)) (uuidString id) ∈ tbl.

(** The store's methods; creating a document needs its tuples in [T]. *)
Inductive docMethod (T : Tuple -> Prop) : forall X : Type, DcTx X -> Prop :=
| dm_read X (f : DcDB -> result dc_error X) : docMethod T X (dread f)
| dm_byIDs c l : docMethod T _ (GetDocumentsByIDs c l)
| dm_create id a c t b k :
    T (ownerTuple (uuidString id) a) -> T (documentAnchor (uuidString c) (uuidString id)) -> docMethod T _ (CreateDocument documentHash id a c t b k)
| dm_update a c i t b : docMethod T _ (UpdateDocument a c i t b)
| dm_delete a c i : docMethod T _ (DeleteDocument a c i)
| dm_record a c i m r g k : docMethod T _ (RecordShare shareHash a c i m r g k)
| dm_remove a c i m : docMethod T _ (RemoveShare a c i m).

Lemma method_keeps T X m env db x db' tbl :
  docMethod T X m -> (forall t, T t -> t ∈ tbl) -> m env db = Ok (x, db') ->
  dc_tables db -> owned db tbl -> dc_tables db' /\ owned db' tbl.
Proof.
  intros Hm HT Hr [Ht Hk Hs H1] Ho. destruct Hm as [X f|c l|id a c t b k Hown Hanc|a c i t b|a c i|a c i m r g k|a c i m].
  - by apply dread_ok in Hr as [_ ->].
  - unfold GetDocumentsByIDs in Hr. case_bool_decide; [by injection Hr as _ <-|]. by apply dread_ok in Hr as [_ ->].
  - destruct x as [i d]. apply CreateDocument_ok in Hr as (-> & Hv & Ed & Hn & Hfree & (act & rest & now & ->)).
    assert (d_company d = c /\ d_owner d = a /\ d_title d = t) as (Hdc & Hdo & Hdt) by (by subst d). split; [split|unfold owned]; simpl.
    + intros i e [[<- <-]|[_ ?]]%lookup_insert_Some; [by rewrite Hdt|by eapply Ht].
    + intros i e i' e' q [[<- <-]|[_ He]]%lookup_insert_Some [[<- <-]|[_ He']]%lookup_insert_Some Hc Hw Hq Hq'; [done| | |by eapply Hk].
      * destruct (Hfree q i' e' Hq He'). split_and!; congruence.
      * destruct (Hfree q i e Hq' He). split_and!; congruence.
    + intros i s Hi. destruct (Hs i s Hi) as [? ?]. split; [|done]. rewrite lookup_insert_is_Some. destruct (decide (id = s_document s)); auto.
    + exact H1.
    + intros i e [[<- <-]|[_ ?]]%lookup_insert_Some; [rewrite Hdc, Hdo; auto|by apply Ho].
  - destruct x as [i' d']. apply UpdateDocument_ok in Hr as (d & -> & [Hd _]%documentIn_Some & -> & Hv & (act & rest & now & ->)). split; [split|unfold owned]; simpl.
    + intros j e [[<- <-]|[_ ?]]%lookup_insert_Some; [done|by eapply Ht].
    + intros j e j' e' q [[<- <-]|[_ He]]%lookup_insert_Some [[<- <-]|[_ He']]%lookup_insert_Some; simpl; [done|by eapply Hk..].
    + intros j s Hj. destruct (Hs j s Hj) as [? ?]. split; [|done]. rewrite lookup_insert_is_Some. destruct (decide (i = s_document s)); auto.
    + exact H1.
    + intros j e [[<- <-]|[_ ?]]%lookup_insert_Some; [by apply (Ho i d)|by apply Ho].
  - apply DeleteDocument_ok in Hr as (d & _ & (act & rest & now & ->)). split; [split|unfold owned]; simpl.
    + intros j e [_ ?]%lookup_delete_Some. by eapply Ht.
    + intros j e j' e' q [_ ?]%lookup_delete_Some [_ ?]%lookup_delete_Some. by eapply Hk.
    + intros j s [Hj Hne]%map_lookup_filter_Some. simpl in Hne. rewrite lookup_delete_ne by done. by eapply Hs.
    + intros j s j' s' [? _]%map_lookup_filter_Some [? _]%map_lookup_filter_Some. by eapply H1.
    + intros j e [_ ?]%lookup_delete_Some. by apply Ho.
  - destruct x as [j s]. apply RecordShare_ok in Hr as (Hslot & Hrel & Es & (act & rest & now & ->)).
    assert (s_document s = i /\ s_member s = m /\ s_relation s = r) as (Hsd & Hsm & Hsr) by (by subst s). split; [split|unfold owned]; simpl; try done.
    + intros j' s' [[<- <-]|[_ ?]]%lookup_insert_Some; [|by eapply Hs]. rewrite Hsr, Hsd. split; [|done].
      destruct Hslot as [(old & Hold & <- & _)|(_ & ? & _)]; [|done]. by apply (Hs j old).
    + assert (Hother : forall j' s', shares db !! j' = Some s' -> share_of i m s' -> j' = j).
      { intros j' s' Hj' Hof. destruct Hslot as [(old & Hold & Hof0)|(_ & _ & Hno)]; [|by destruct (Hno _ _ Hj')].
        apply (H1 j' s' j old Hj' Hold). destruct Hof, Hof0. split; congruence. }
      intros j1 s1 j2 s2 [[<- <-]|[_ Hj1]]%lookup_insert_Some [[<- <-]|[_ Hj2]]%lookup_insert_Some [Hd2 Hm2]; [done| | |by eapply H1].
      * symmetry. apply (Hother j2 s2 Hj2). split; congruence.
      * apply (Hother j1 s1 Hj1). split; congruence.
  - apply RemoveShare_ok in Hr as (act & rest & now & ->). split; [split|unfold owned]; simpl; try done.
    + intros j s [? _]%map_lookup_filter_Some. by eapply Hs.
    + intros j s j' s' [? _]%map_lookup_filter_Some [? _]%map_lookup_filter_Some. by eapply H1.
Qed.

(** ** What a request holds *)

(** What a transaction answers. *)
Definition answer {X} (r : result dc_error (X * DcDB)) : result dc_error X := match r with Ok (x, _) => Ok x | Err e => Err e end.

Definition ownsCall (T : Tuple -> Prop) {X} (c : call DcDB dc_error X) : ((Tuple -> Prop) -> X -> Prop) -> Prop :=
  match c in call _ _ X return ((Tuple -> Prop) -> X -> Prop) -> Prop with
  | Transact m => fun K => docMethod T _ m /\ forall env db, dc_tables db -> K T (answer (m env db))
  | GrantOrRevoke _ _ op ts _ => fun K =>
      (op = "grant" /\ K T false /\ K (fun t => T t \/ (lasting t /\ t ∈ ts)) true) \/
      (op = "revoke" /\ Forall (fun t => ~ lasting t /\ is_anchor t = false) ts /\ forall x, K T x)
  | _ => fun K => forall x, K T x
  end.

Fixpoint owns {A} (T : Tuple -> Prop) (p : prog DcDB dc_error A) (Q : (Tuple -> Prop) -> A -> Prop) : Prop :=
  match p with
  | Ret a => Q T a
  | Call c k => ownsCall T c (fun T' x => owns T' (k x) Q)
  end.

Lemma ownsCall_mono T {X} (c : call DcDB dc_error X) (K K' : (Tuple -> Prop) -> X -> Prop) :
  (forall T' x, K T' x -> K' T' x) -> ownsCall T c K -> ownsCall T c K'.
Proof. intros HK. destruct c; simpl; naive_solver. Qed.

Lemma owns_bind {A B} T (p : prog DcDB dc_error A) (k : A -> prog DcDB dc_error B) Q :
  owns T p (fun T' a => owns T' (k a) Q) -> owns T (bind p k) Q.
Proof. revert T. induction p as [a|X c h IH]; intros T; simpl; [done|]. apply ownsCall_mono. intros T' x. apply IH. Qed.

Abbreviation any := (fun (_ : Tuple -> Prop) (_ : dcReply) => True).

Lemma owns_store {X} T (m : DcTx X) (k : X -> prog DcDB dc_error dcReply) :
  docMethod T X m -> (forall x, owns T (k x) any) -> owns T (orReply (storeCall m) k) any.
Proof. intros Hm Hk. apply owns_bind. split; [done|]. intros env db _. destruct (answer _) as [x|e]; [apply Hk|exact I]. Qed.

Lemma owns_read {X A} T (f : DcDB -> result dc_error X) (k : result dc_error X -> prog DcDB dc_error A) Q :
  (forall e, owns T (k (Err e)) Q) -> (forall db x, dc_tables db -> f db = Ok x -> owns T (k (Ok x)) Q) ->
  owns T (Call (Transact (dread f)) k) Q.
Proof.
  intros He Hk. split; [constructor|]. intros env db Hdb. destruct (dread f env db) as [[x db']|e] eqn:E; simpl; [|apply He].
  apply dread_ok in E as [? _]. by eapply Hk.
Qed.

Lemma owns_bad {X} T (o : option X) (k : X -> prog DcDB dc_error dcReply) : (forall x, owns T (k x) any) -> owns T (orReply (orBadRequest o) k) any.
Proof. intros Hk. destruct o; simpl; [apply Hk|done]. Qed.

Lemma owns_gate T allowed p : owns T p any -> owns T (gate allowed p) any.
Proof. destruct allowed as [[]|]; done. Qed.

Section handlers.
Context (T : Tuple -> Prop) (rc : requestContext).

Lemma owns_myRelation r Q : (forall rel, Q T rel) -> owns T (myRelation rc r) Q.
Proof. intros HQ. unfold myRelation. destruct (seqb _ _); [apply HQ|]. intros x. apply HQ. Qed.

Lemma owns_create body key newID : owns T (handleCreateDocument documentHash body key newID rc) any.
Proof.
  apply owns_bad. intros req. destruct (200 <? _)%nat; [done|]. cbv zeta.
  match goal with |- owns T (if _ then ?p else _) _ => assert (Hc : owns T p any) end.
  { apply owns_bind. left. split_and!; [done|done|]. apply owns_store; [|done]. constructor; right; (split; [split; simpl; auto|set_solver]). }
  destruct (seqb key ""); [exact Hc|]. apply owns_read; [done|]. intros db [[[id d] h]|] _ _; simpl; [by destruct (negb _)|exact Hc].
Qed.

Lemma owns_list : owns T (handleListDocuments parseUUID rc) any.
Proof.
  apply owns_store; [constructor|]. intros l. apply owns_bind. intros [[[memberID []] ?]|]; try done. 
  destruct (if seqb memberID "" then _ else _); [|done]. apply owns_read; [done|]. intros db [|c cs] _ _; [done|]. apply owns_bind. intros [r|]; [|done].
  split; [constructor|]. intros env db' _. by destruct (answer _).
Qed.

Lemma owns_notify kcSub a b c Q : (forall x, Q T x) -> owns T (notifyDocument rc kcSub a b c) Q.
Proof. intros HQ. apply owns_read; [intros; apply HQ|]. intros db d _ _ x. apply HQ. Qed.

Lemma lasting_share doc rel kcSub : rel ∈ ["viewer"; "editor"] -> ~ lasting (shareTuple doc rel kcSub) /\ is_anchor (shareTuple doc rel kcSub) = false.
Proof. intros Hr. unfold lasting. simpl. set_solver. Qed.
End handlers.

Lemma owns_record T rc memberID relation kcSub key corr : owns T (grantAndRecord shareHash memberID relation kcSub key corr rc) any.
Proof.
  apply owns_bind. left. split_and!; [done|done|]. apply owns_store; [constructor|]. intros sh. apply owns_bind, owns_notify. done.
Qed.

Lemma owns_revoke {A} T (rc : requestContext) c doc rel kcSub corr (k : bool -> prog DcDB dc_error A) Q :
  rel ∈ ["viewer"; "editor"] -> (forall ok, owns T (k ok) Q) ->
  owns T (bind (RevokeShare (rc_RawBearer rc) c doc rel kcSub corr) k) Q.
Proof.
  intros Hr Hk. apply owns_bind. right. split_and!; [done| |done]. constructor; [by apply lasting_share|constructor].
Qed.

Lemma share_relation db doc member id sh :
  dc_tables db -> find_where (share_of doc member) (shares db) = Some (id, sh) -> s_relation sh ∈ ["viewer"; "editor"].
Proof. intros Hdb [H _]%find_where_Some. by apply (dc_share_doc _ Hdb) in H as [_ ?]. Qed.

Lemma owns_share T rc memberID relation kcSub key : owns T (shareWith shareHash memberID relation kcSub key rc) any.
Proof.
  apply owns_read; [intros []; try done; apply owns_record|]. intros db [id sh] Hdb H. destruct (find_where _ _) eqn:E; [|done]. injection H as ->.
  destruct (negb _); [|apply owns_record]. apply owns_revoke; [by eapply share_relation|]. intros []; [apply owns_record|done].
Qed.

Lemma owns_createShare T rc body key : owns T (handleCreateShare parseUUID shareHash body key rc) any.
Proof.
  apply owns_bad. intros req. destruct (negb (_ || _)); [done|]. apply owns_bad. intros memberID member. cbv zeta.
  destruct (seqb _ ""); [done|]. destruct (200 <? _)%nat; [done|]. destruct (seqb key ""); [apply owns_share|].
  apply owns_read; [done|]. intros db [[[id s] h]|] _ _; [|apply owns_share]. by destruct (negb _).
Qed.

Lemma owns_remove T rc memberID kcSub : owns T (removeAndNotify memberID kcSub rc) any.
Proof.
  apply owns_store; [constructor|]. intros x. apply owns_bind. destruct (seqb kcSub ""); [by apply owns_read|by apply owns_notify].
Qed.

Lemma owns_revokeShare T rc memberId : owns T (handleRevokeShare parseUUID memberId rc) any.
Proof.
  apply owns_bad. intros memberID [m|]; [|done]. cbv zeta. destruct (negb _ && _); [done|]. apply owns_bind. apply owns_read; [done|].
  intros db [id sh] Hdb H. destruct (find_where _ _) eqn:E; [|done]. injection H as ->. cbv beta iota. destruct (seqb _ ""); [apply owns_remove|].
  apply owns_revoke; [by eapply share_relation|]. intros []; [apply owns_remove|done].
Qed.

Lemma serve_owns T header companyId req : owns T (serve verify parseUUID documentHash shareHash header companyId req) any.
Proof.
  assert (Hf : forall f h, (forall rc, owns T (h rc) any) -> owns T (withAuth verify parseUUID header companyId f h) any).
  { intros f h Hh. unfold withAuth. destruct (Verify _ _); [|done]. destruct (parseUUID companyId); [|done]. apply owns_bind.
    intros x. by apply owns_gate. }
  assert (Ho : forall d rel h, (forall rc, owns T (h rc) any) -> owns T (withObjectAuth verify parseUUID header companyId d rel h) any).
  { intros d rel h Hh. unfold withObjectAuth. destruct (Verify _ _); [|done]. destruct (parseUUID companyId); [|done].
    destruct (parseUUID d); [|done]. apply owns_bind. intros x. by apply owns_gate. }
  destruct req; [apply Hf; intros rc; apply owns_list|apply Hf; intros rc; apply owns_create|..|apply Hf; intros rc]; try (apply Ho; intros rc).
  - apply owns_store; [constructor|]. intros d. by apply owns_bind, owns_myRelation.
  - apply owns_bad. intros r. apply owns_store; [constructor|]. intros d. by apply owns_bind, owns_myRelation.
  - by apply owns_store; [constructor|].
  - by apply owns_store; [constructor|].
  - apply owns_createShare.
  - apply owns_revokeShare.
  - by apply owns_store; [constructor|].
  - unfold handleGetModuleAudit. destruct (PageParams _ _). apply owns_store; [constructor|]. intros n. apply owns_store; [constructor|].
    intros l. by destruct (ClampPage _ _).
Qed.

(** ** Requests side by side *)

Abbreviation pool := (list (prog DcDB dc_error dcReply) * MW)%type.

(** A step is one call of one request, the arrival of another, or what the other
    services do, who leave the lasting tuples of documents alone. *)
Inductive dc_advance : pool -> pool -> Prop :=
| da_arrive header companyId req ps w :
    dc_advance (ps, w) (serve verify parseUUID documentHash shareHash header companyId req :: ps, w)
| da_call i ps w X (c : call DcDB dc_error X) k x w' :
    ps !! i = Some (Call c k) -> exec verify uuid_ok authz c w x w' -> dc_advance (ps, w) (<[i := k x]> ps, w')
| da_others ps w aw sent :
    (forall t, lasting t -> t ∈ tuplesOf w -> t ∈ tuples (w_db aw)) -> dc_advance (ps, w) (ps, mkMWorld (w_store w) aw sent).

Definition holding (tbl : Table) (p : prog DcDB dc_error dcReply) : Prop :=
  exists T, (forall t, T t -> lasting t /\ t ∈ tbl) /\ owns T p any.

Lemma holding_mono (tbl tbl' : Table) p : (forall t, lasting t -> t ∈ tbl -> t ∈ tbl') -> holding tbl p -> holding tbl' p.
Proof. intros Hm (T & HT & Hp). exists T. split; [|done]. intros t Ht. destruct (HT t Ht). auto. Qed.

Lemma owned_mono db (tbl tbl' : Table) : (forall t, lasting t -> t ∈ tbl -> t ∈ tbl') -> owned db tbl -> owned db tbl'.
Proof. intros Hm Ho id d Hd. destruct (Ho id d Hd). split; apply Hm; try done; split; simpl; auto. Qed.

(** One call. *)
Lemma call_keeps {X} (c : call DcDB dc_error X) k w x w' :
  dc_tables (w_store w) -> owned (w_store w) (tuplesOf w) -> holding (tuplesOf w) (Call c k) -> exec verify uuid_ok authz c w x w' ->
  dc_tables (w_store w') /\ owned (w_store w') (tuplesOf w') /\ holding (tuplesOf w') (k x) /\
  forall t, lasting t -> t ∈ tuplesOf w -> t ∈ tuplesOf w'.
Proof.
  intros Ht Ho (T & HT & Hp) Hx. assert (Hquiet : w' = w -> owns T (k x) any -> dc_tables (w_store w') /\ owned (w_store w') (tuplesOf w') /\
    holding (tuplesOf w') (k x) /\ forall t, lasting t -> t ∈ tuplesOf w -> t ∈ tuplesOf w').
  { intros -> Hk. split_and!; [done|done|by exists T|done]. }
  destruct c; simpl in Hp, Hx; try (by apply Hquiet; [|apply Hp]); try (by destruct Hx as [-> _]; apply Hquiet; [|apply Hp]).
  - destruct Hp as [Hm Hp], Hx as [env Hx]. specialize (Hp env (w_store w) Ht). destruct (m env (w_store w)) as [[a db]|e] eqn:E; destruct Hx as [-> ->].
    + destruct (method_keeps T _ m env (w_store w) a db (tuplesOf w) Hm ltac:(intros t Hin; by apply HT) E Ht Ho).
      split_and!; [done|done|by exists T|done].
    + split_and!; [done|done|by exists T|done].
  - destruct Hp as [(-> & Hf & Hg)|(-> & Hts & Hp)].
    + apply (grant_exec (Er := dc_error)) in Hx as (Hs & _ & Hm & Hok). assert (Hl : forall t, lasting t -> t ∈ tuplesOf w -> t ∈ tuplesOf w') by (intros t _; apply Hm).
      rewrite Hs. split_and!; [done|by eapply owned_mono| |done]. destruct x.
      * eexists. split; [|exact Hg]. intros t [HTt|[Hlt Hin]]; [destruct (HT t HTt); auto|]. split; [done|]. by apply Hok.
      * exists T. split; [|done]. intros t HTt. destruct (HT t HTt). auto.
    + apply (revoke_exec (Er := dc_error)) in Hx as (Hs & _ & Hm & _).
      assert (Hl : forall t, lasting t -> t ∈ tuplesOf w -> t ∈ tuplesOf w').
      { intros t Hlt Hin. apply Hm; [done|]. eapply Forall_impl; [exact Hts|]. intros u [Hu ?]. split; [|done]. by intros ->. }
      rewrite Hs. split_and!; [done|by eapply owned_mono| |done]. exists T. split; [|apply Hp]. intros t HTt. destruct (HT t HTt). auto.
  - destruct Hx as [[_ ->]| ->]; (split_and!; [done|done|exists T; split; [done|apply Hp]|done]).
Qed.

Lemma advance_keeps s s' :
  dc_advance s s' -> dc_tables (w_store s.2) -> owned (w_store s.2) (tuplesOf s.2) -> Forall (holding (tuplesOf s.2)) s.1 ->
  dc_tables (w_store s'.2) /\ owned (w_store s'.2) (tuplesOf s'.2) /\ Forall (holding (tuplesOf s'.2)) s'.1.
Proof.
  destruct 1 as [header companyId req ps w|i ps w X c k x w' Hi Hx|ps w aw sent Hl]; simpl; intros Ht Ho Hp.
  - split_and!; [done|done|]. constructor; [|done]. exists (fun _ => False). split; [done|apply serve_owns].
  - destruct (call_keeps c k w x w' Ht Ho (Forall_lookup_1 _ _ _ _ Hp Hi) Hx) as (? & ? & ? & Hl). split_and!; [done|done|].
    apply Forall_insert; [|done]. eapply Forall_impl; [exact Hp|]. intros p. by apply holding_mono.
  - split_and!; [done|by eapply owned_mono|]. eapply Forall_impl; [exact Hp|]. intros p. by apply holding_mono.
Qed.

Lemma advances_keep s s' :
  rtc dc_advance s s' -> dc_tables (w_store s.2) -> owned (w_store s.2) (tuplesOf s.2) -> Forall (holding (tuplesOf s.2)) s.1 ->
  dc_tables (w_store s'.2) /\ owned (w_store s'.2) (tuplesOf s'.2).
Proof.
  induction 1 as [s|s s1 s' H1 _ IH]; intros Ht Ho Hp; [done|]. destruct (advance_keeps _ _ H1 Ht Ho Hp) as (? & ? & ?). auto.
Qed.
End tables.

(** ** Sharing a document

    What a share or a revoke that runs alone does to the row of the index and to the
    tuples of the member's account, org answering the same throughout. *)

Section shares.
Context `{UT : UUIDText} (verify : string -> option Claims) (uuid_ok : string -> bool) (authz : Service -> Prop).
Context (parseUUID : string -> option UUID).
Context (documentHash : UUID -> string -> string -> string -> string) (shareHash : UUID -> UUID -> string -> string).
Context (account : string -> option OrgMember) (memberOf : string -> string -> option (string * bool * bool)).
Abbreviation MW := (MWorld DcDB).
Abbreviation alone p w Q := (alone verify uuid_ok authz (answering account memberOf p) w Q).

Definition shared_as (db : DcDB) (doc member : UUID) (rel : string) : Prop :=
  exists id s, shares db !! id = Some s /\ share_of doc member s /\ s_relation s = rel.
Definition reads (w : MW) (doc : UUID) (kcSub rel : string) : Prop := shareTuple (uuidString doc) rel kcSub ∈ tuplesOf w.

(** The index and the tuples say the same of the member's account. *)
Definition agree (w : MW) (doc member : UUID) (kcSub : string) : Prop :=
  forall rel, rel ∈ ["viewer"; "editor"] -> shared_as (w_store w) doc member rel <-> reads w doc kcSub rel.

(** Nothing but the member's tuples on the document changes. *)
Definition elsewhere_same (w w' : MW) (doc : UUID) (kcSub : string) : Prop :=
  forall t, t ∉ [shareTuple (uuidString doc) "viewer" kcSub; shareTuple (uuidString doc) "editor" kcSub] ->
    t ∈ tuplesOf w' <-> t ∈ tuplesOf w.

Definition kcSubOf (member : UUID) : string := default "" (om_kcsub <$> account (uuidString member)).

Lemma share_one db doc member id s id' s' :
  dc_tables db -> shares db !! id = Some s -> share_of doc member s -> shares db !! id' = Some s' -> share_of doc member s' -> id' = id /\ s' = s.
Proof.
  intros Hdb Hs Ho Hs' Ho'. assert (id = id') as <-.
  { apply (dc_share_one _ Hdb id s id' s' Hs Hs'). destruct Ho, Ho'. split; congruence. }
  by simplify_eq.
Qed.

Lemma alone_call {X A} (m : DcTx X) (k : result dcReply X -> prog DcDB dc_error A) w Q :
  (forall e, alone (k (Err (writeStoreError e))) w Q) ->
  (forall env x db, m env (w_store w) = Ok (x, db) -> alone (k (Ok x)) (mkMWorld db (w_authz w) (w_sent w)) Q) ->
  alone (bind (storeCall m) k) w Q.
Proof.
  intros He Hk x w' [env Hx]. destruct (m env (w_store w)) as [[a db]|e] eqn:E; destruct Hx as [-> ->]; [by eapply Hk|apply He].
Qed.

Lemma alone_read {X A} (f : DcDB -> result dc_error X) (k : result dc_error X -> prog DcDB dc_error A) w Q :
  (forall e, e = DcDatabase \/ f (w_store w) = Err e -> alone (k (Err e)) w Q) -> (forall x, f (w_store w) = Ok x -> alone (k (Ok x)) w Q) ->
  alone (Call (Transact (dread f)) k) w Q.
Proof.
  intros He Hk x w' [env Hx]. destruct (dread f env (w_store w)) as [[a db]|e] eqn:E; destruct Hx as [-> ->].
  - apply dread_ok in E as [E ->]. destruct w. by apply Hk.
  - apply He. unfold dread in E. destruct (tx_broken env); [left; by injection E|right]. destruct (f (w_store w)); simpl in E; congruence.
Qed.

Lemma alone_notify rc kcSub a b c w Q : (forall sent, Q tt (mkMWorld (w_store w) (w_authz w) sent)) -> alone (notifyDocument rc kcSub a b c) w Q.
Proof.
  intros HQ. assert (Hw : Q tt w) by (destruct w; apply HQ). apply alone_read; [done|]. intros d _ x w' Hx. simpl in Hx.
  destruct Hx as [[_ ->]| ->]; [done|apply HQ].
Qed.

Lemma alone_bad {A} (a : A) (k : A -> prog DcDB dc_error dcReply) w Q : alone (k a) w Q -> alone (orReply (orBadRequest (Some a)) k) w Q.
Proof. done. Qed.

Lemma alone_member {A} i (k : option OrgMember -> prog DcDB dc_error A) w Q : alone (k (account i)) w Q -> alone (Call (GetMember i) k) w Q.
Proof. done. Qed.

Section handler.
Context (rc : requestContext) (w : MW) (member : UUID).
Abbreviation doc := (rc_DocID rc).
Abbreviation kcSub := (kcSubOf member).
Hypothesis (Hw : dc_tables (w_store w)).

(** After 201. *)
Definition created (rel : string) (r : dcReply) (w' : MW) : Prop :=
  match r with
  | WriteData 201 _ =>
      kcSub <> "" /\ shared_as (w_store w') doc member rel /\ reads w' doc kcSub rel /\ elsewhere_same w w' doc kcSub /\
      (agree w doc member kcSub -> agree w' doc member kcSub)
  | _ => True
  end.

(** After 204. *)
Definition revokedShare (r : dcReply) (w' : MW) : Prop :=
  match r with
  | NoContent =>
      (forall rel, ~ shared_as (w_store w') doc member rel) /\ elsewhere_same w w' doc kcSub /\
      (kcSub <> "" -> agree w doc member kcSub -> agree w' doc member kcSub)
  | _ => True
  end.

Lemma in_relations rel : rel ∈ ["viewer"; "editor"] <-> rel = "viewer" \/ rel = "editor".
Proof. set_solver. Qed.

Lemma shareTuple_relation d rel rel' k : shareTuple d rel k = shareTuple d rel' k -> rel = rel'.
Proof. by intros [= ->]. Qed.

(** [w1] is [w] with the tuples of other relations perhaps gone. *)
Lemma record_created rel key corr w1 :
  kcSub <> "" -> rel ∈ ["viewer"; "editor"] -> w_store w1 = w_store w -> elsewhere_same w w1 doc kcSub ->
  (agree w doc member kcSub -> forall rel', rel' ∈ ["viewer"; "editor"] -> rel' <> rel -> ~ reads w1 doc kcSub rel') ->
  alone (grantAndRecord shareHash member rel kcSub key corr rc) w1 (created rel).
Proof.
  intros Hk Hrel Hs He Hothers. apply alone_answering_bind. intros ok w2 Hx. apply grant_exec in Hx as (Hs2 & Ht & _ & Hok). destruct ok; [|done]. cbn [negb].
  apply alone_call; [by intros []|]. rewrite Hs2, Hs. intros env [id s] db (Hslot & _ & -> & (act & rest & now & ->))%RecordShare_ok.
  apply alone_answering_bind, alone_notify. intros sent. cbn [created].
  assert (Hnew : forall rel', shared_as (mkDcDB (documents (w_store w)) (<[id:=mkShare doc member rel (rc_Subject rc) (tx_now env)
      (if seqb key "" then None else Some key) (if seqb key "" then None else Some (shareHash doc member rel))]> (shares (w_store w)))
      (dcAudit (w_store w) ++ [docEvent (rc_Subject rc) act (rc_CompanyID rc) doc rest now])) doc member rel' <-> rel' = rel).
  { intros rel'. unfold shared_as. cbn [shares]. split; [|intros ->; exists id; eexists; rewrite lookup_insert_eq; by split_and!].
    intros (i & s' & [[<- <-]|[Hne Hi]]%lookup_insert_Some & Hof & <-); [done|]. exfalso.
    destruct Hslot as [(old & Hold & Hof0)|(_ & _ & Hno)]; [|by eapply Hno].
    by destruct (share_one _ _ _ _ _ _ _ Hw Hold Hof0 Hi Hof) as [-> _]. }
  assert (Hreads : reads w2 doc kcSub rel) by (apply Hok; [done|left]).
  split_and!.
  - exact Hk.
  - by apply Hnew.
  - exact Hreads.
  - intros t Hnin. cbn. rewrite (Ht t); [by apply He|]. intros ->%list_elem_of_singleton. apply Hnin. apply in_relations in Hrel as [->| ->]; set_solver.
  - intros Ha rel' Hr'. rewrite Hnew. split; [intros ->; exact Hreads|]. intros Hin. destruct (decide (rel' = rel)) as [|Hne]; [done|exfalso].
    apply (Hothers Ha rel' Hr' Hne). unfold reads. apply (Ht (shareTuple (uuidString doc) rel' kcSub)); [|exact Hin].
    by intros E%list_elem_of_singleton%shareTuple_relation.
Qed.

Lemma shareWith_created rel key :
  kcSub <> "" -> rel ∈ ["viewer"; "editor"] -> alone (shareWith shareHash member rel kcSub key rc) w (created rel).
Proof.
  intros Hk Hrel. assert (Hsame : elsewhere_same w w doc kcSub) by done.
  assert (Hgo : (forall rel', rel' ∈ ["viewer"; "editor"] -> shared_as (w_store w) doc member rel' -> rel' = rel) -> forall corr,
    alone (grantAndRecord shareHash member rel kcSub key corr rc) w (created rel)).
  { intros Hone corr. apply record_created; try done. intros Ha rel' Hr' Hne Hin. apply Hne, Hone; [done|]. by apply Ha. }
  apply alone_read.
  - intros e [->|Hf]; [done|]. destruct (find_where _ _) eqn:E; [done|]. injection Hf as <-. apply Hgo. intros rel' _ (id & s & Hs & Hof & _).
    revert E. rewrite find_where_None. intros Hno. by destruct (Hno id s).
  - intros [id sh] H. destruct (find_where _ _) eqn:E; [|done]. injection H as ->. apply find_where_Some in E as [Hsh Hof].
    assert (Hold : forall rel', shared_as (w_store w) doc member rel' -> rel' = s_relation sh).
    { intros rel' (id' & s' & Hs' & Hof' & <-). by destruct (share_one _ _ _ _ _ _ _ Hw Hsh Hof Hs' Hof') as [-> ->]. }
    destruct (seqb (s_relation sh) rel) eqn:Er; cbn [negb].
    { apply seqb_true in Er. apply Hgo. intros rel' _ Hs'. rewrite <- Er. by apply Hold. }
    apply seqb_false in Er. apply alone_answering_bind. intros ok w1 Hx. apply revoke_exec in Hx as (Hs & Hsub & Hkeep & Hok).
    assert (Hrs : s_relation sh ∈ ["viewer"; "editor"]) by (by apply (dc_share_doc _ Hw) in Hsh as [_ ?]).
    destruct ok; [|done]. apply record_created; [done..| |].
    + intros t Hnin. split; [apply Hsub|]. intros Hin. apply Hkeep; [done|]. constructor; [|constructor]. split; [|by apply lasting_share].
      intros <-. apply Hnin. apply in_relations in Hrs as [->| ->]; set_solver.
    + intros Ha rel' Hr' Hne Hin. assert (rel' = s_relation sh) as -> by (apply Hold, Ha, Hsub; done). eapply Hok; [done|left|exact Hin].
Qed.

Lemma createShare_created body key :
  parseUUID (cs_member body) = Some member -> alone (handleCreateShare parseUUID shareHash (Some body) key rc) w (created (cs_relation body)).
Proof.
  intros Hm. unfold handleCreateShare. set (long := (200 <? String.length key)%nat). clearbody long. cbn. destruct (seqb (cs_relation body) "viewer" || seqb (cs_relation body) "editor") eqn:Er; [|done]. cbn.
  rewrite Hm. cbn. fold (kcSubOf member). destruct (seqb kcSub "") eqn:Ek; [done|].
  assert (Hk : kcSub <> "") by (intros Hk; by rewrite Hk in Ek). destruct long; [done|].
  assert (Hgo : alone (shareWith shareHash member (cs_relation body) kcSub key rc) w (created (cs_relation body))).
  { apply shareWith_created; [done|]. rewrite orb_true_iff, !seqb_true in Er. by apply in_relations. }
  destruct (seqb key ""); [exact Hgo|]. apply alone_read; [done|]. intros [[[id s] h]|] _; [|exact Hgo]. by destruct (negb _).
Qed.

Lemma remove_revoked w1 :
  w_store w1 = w_store w -> elsewhere_same w w1 doc kcSub ->
  (kcSub <> "" -> agree w doc member kcSub -> forall rel, rel ∈ ["viewer"; "editor"] -> ~ reads w1 doc kcSub rel) ->
  alone (removeAndNotify member kcSub rc) w1 revokedShare.
Proof.
  intros Hs He Hgone. apply alone_call; [by intros []|]. rewrite Hs. intros env [] db (act & rest & now & ->)%RemoveShare_ok.
  assert (Hno : forall rel, ~ shared_as (mkDcDB (documents (w_store w)) (filter (fun kv => ~ share_of doc member kv.2) (shares (w_store w)))
    (dcAudit (w_store w) ++ [docEvent (rc_Subject rc) act (rc_CompanyID rc) doc rest now])) doc member rel).
  { intros rel (i & s & [_ Hne]%map_lookup_filter_Some & Hof & _). by apply Hne. }
  match goal with |- alone _ ?w2 _ => assert (HQ : forall sent, revokedShare NoContent (mkMWorld (w_store w2) (w_authz w2) sent)) end.
  { intros sent. split_and!; [exact Hno|exact He|]. intros Hk Ha rel Hr. split; [intros Hsh; by destruct (Hno rel)|]. intros Hin.
    by destruct (Hgone Hk Ha rel Hr). }
  apply alone_answering_bind. destruct (seqb kcSub ""); [|by apply alone_notify]. apply alone_read; intros; apply HQ.
Qed.

Lemma revokeShare_revoked memberId :
  parseUUID memberId = Some member -> alone (handleRevokeShare parseUUID memberId rc) w revokedShare.
Proof.
  intros Hm. unfold handleRevokeShare. rewrite Hm. apply alone_bad, alone_member. destruct (account (uuidString member)) as [m|] eqn:Ea; [|done].
  assert (Hk : om_kcsub m = kcSub) by (unfold kcSubOf; by rewrite Ea). cbv zeta. rewrite Hk. destruct (negb (seqb kcSub "") && _); [done|].
  apply alone_call; [by intros []|]. intros env [id sh] db [H ->]%dread_ok.
  destruct (find_where _ _) eqn:E; [|done]. injection H as ->. apply find_where_Some in E as [Hsh Hof].
  assert (Hrs : s_relation sh ∈ ["viewer"; "editor"]) by (by apply (dc_share_doc _ Hw) in Hsh as [_ ?]).
  cbv beta iota zeta. cbn [snd]. destruct (seqb kcSub "") eqn:Ek.
  - apply remove_revoked; [done|done|]. intros Hne. by apply seqb_true in Ek.
  - apply alone_answering_bind. intros ok w1 Hx. apply revoke_exec in Hx as (Hs & Hsub & Hkeep & Hok). destruct ok; [|done].
    apply remove_revoked; [done| |].
    + intros t Hnin. split; [apply Hsub|]. intros Hin. apply Hkeep; [done|]. constructor; [|constructor]. split; [|by apply lasting_share].
      intros <-. apply Hnin. apply in_relations in Hrs as [->| ->]; set_solver.
    + intros _ Ha rel Hr Hin. assert (Hs' : shared_as (w_store w) doc member rel) by (apply Ha, Hsub; done).
      destruct Hs' as (id' & s' & Hs' & Hof' & <-). destruct (share_one _ _ _ _ _ _ _ Hw Hsh Hof Hs' Hof') as [-> ->].
      eapply Hok; [done|left|exact Hin].
Qed.
End handler.

(** The gate in front of a document's routes. *)
Lemma alone_object header companyId docId relation h w Q :
  (forall st code, Q (WriteError st code) w) ->
  (forall rc, parseUUID docId = Some (rc_DocID rc) -> alone (h rc) w Q) ->
  alone (withObjectAuth verify parseUUID header companyId docId relation h) w Q.
Proof.
  intros He Hh. unfold withObjectAuth. destruct (Verify _ _) as [subject|]; [|apply He].
  destruct (parseUUID companyId) as [companyID|]; [|apply He]. destruct (parseUUID docId) as [docID|] eqn:Hd; [|apply He].
  apply alone_answering_bind. intros x w' [-> _]. destruct x as [[[] reason]|]; cbn; [|apply He..]. apply Hh. done.
Qed.
End shares.
