(* ===== verification/DocsClaims.v ===== *)
(** * The docs service: its guarantees

    Every request's changes and replies are authorised, a document is never without its
    owner and its company, and the index of shares follows the tuples that grant them. *)

From stdpp Require Import base gmap strings list sorting relations.
From S2P Require Import Prelude GoStrings Model Tuple TupleStore Fragment Decision Clients AuthzHTTP AuthzClaims AdminClient OrgTree Org OrgClaims ModuleKit ModuleRules.
From S2P Require Import Docs DocsHTTP DocsProps DocsTables.

Section claims.
Context `{UT : UUIDText} (verify : string -> option Claims) (uuid_ok : string -> bool) (authz : Service -> Prop).
Context (parseUUID : string -> option UUID).
Context (documentHash : UUID -> string -> string -> string -> string) (shareHash : UUID -> UUID -> string -> string).

Abbreviation serve := (serve verify parseUUID documentHash shareHash).
Abbreviation run := (run verify uuid_ok authz).
Abbreviation dc_advance := (dc_advance verify uuid_ok authz parseUUID documentHash shareHash).

(** C29: who changes and reads documents. Whatever happens between the calls of a
    request, each of its steps leaves the store as it was, or is made for the verified
    caller in the path's company and writes one audit row in its name together with
    one of: a new document of the caller, whose owner and anchor tuples the
    authorization service had accepted; the title and body of the path's document, for
    an editor by the engine; its deletion with its shares, for an owner; a share of it,
    for an owner, with the tuple already accepted; or the removal of a share, for an
    owner. And each reply that is not an error carries only documents of the company
    that the caller owns or that the engine lets it see, shares and audit rows of the
    path's document for a viewer, or events of the company for an administrator. *)
Theorem docs_authorized between header companyId req w steps r w' :
  run between (serve header companyId req) w steps r w' ->
  Forall (fun s => dc_step_guarded verify uuid_ok authz parseUUID header companyId req (w_store s.1) (w_store s.2)) steps /\
  dc_reply_guarded verify authz parseUUID header companyId req r.
Proof.
  intros Hr. refine (run_safe _ _ _ (fun _ => True) _ _ _ _ _ _ _ _ Hr _ (dc_serve_safe _ _ _ _ _ _ _ _ _ _)). by apply Forall_true.
Qed.

(** C28: a document is never without its owner and its company. From an empty store, in
    every state that any requests, interleaved call by call and with calls that fail or
    lose their reply, reach while the other services leave the owner and anchor tuples
    of documents alone: every document row has its creator's owner tuple and the anchor
    to its company among the tuples; titles have 1 to 200 bytes; no two documents of a
    company and owner share an idempotency key; and every share is of a document that
    exists, as viewer or editor, at most one for each member. *)
Theorem documents_owned w0 s :
  w_store w0 = mkDcDB ∅ ∅ [] -> rtc dc_advance ([], w0) s -> dc_tables (w_store s.2) /\ owned (w_store s.2) (tuplesOf s.2).
Proof.
  intros H0 Hr. apply (advances_keep _ _ _ _ _ _ _ _ Hr); simpl; rewrite ?H0; [|intros id d; simpl; by rewrite lookup_empty|constructor].
  split; simpl; intros *; by rewrite lookup_empty.
Qed.

(** The index follows the tuples. A share that runs alone, with org's answers fixed,
    and answers 201 leaves the member in the index with the relation asked for and the
    member's account with its tuple, and touches no other tuple; one that answers 204
    leaves no row for the member and touches no tuple but the account's. Either way, if
    the index and the tuples agreed on the member's account before, they agree after:
    the account is an editor or a viewer of the document exactly as the index says. *)
Theorem shares_follow_tuples account memberOf header companyId req w steps r w' :
  dc_tables (w_store w) -> run eq (answering account memberOf (serve header companyId req)) w steps r w' ->
  match req with
  | ReqCreateShare docId (Some body) _ => forall member, parseUUID (cs_member body) = Some member -> forall b, r = WriteData 201 b ->
      exists doc, let kcSub := kcSubOf account member in
        parseUUID docId = Some doc /\ kcSub <> "" /\ shared_as (w_store w') doc member (cs_relation body) /\
        reads w' doc kcSub (cs_relation body) /\ elsewhere_same w w' doc kcSub /\ (agree w doc member kcSub -> agree w' doc member kcSub)
  | ReqRevokeShare docId memberId => forall member, parseUUID memberId = Some member -> r = NoContent ->
      exists doc, let kcSub := kcSubOf account member in
        parseUUID docId = Some doc /\ (forall rel, ~ shared_as (w_store w') doc member rel) /\ elsewhere_same w w' doc kcSub /\
        (kcSub <> "" -> agree w doc member kcSub -> agree w' doc member kcSub)
  | _ => True
  end.
Proof.
  intros Hw Hr. destruct req as [| | | | | |docId [body|] key|docId memberId| |]; try done; intros member Hm.
  - refine (run_alone _ _ _ _ _ _ _ _ (fun r w' => forall b, r = WriteData 201 b -> _) Hr _).
    apply alone_object; [done|]. intros rc Hd. eapply alone_mono; [|by eapply createShare_created]. intros r' w1 Hc b ->. by exists (rc_DocID rc).
  - refine (run_alone _ _ _ _ _ _ _ _ (fun r w' => r = NoContent -> _) Hr _).
    apply alone_object; [done|]. intros rc Hd. eapply alone_mono; [|by eapply revokeShare_revoked]. intros r' w1 Hc ->. by exists (rc_DocID rc).
Qed.
End claims.

(** ** Witnesses

    ann owns a document, which she shares with bob's membership. *)

Section witnesses.
#[local] Instance dcUUIDText : UUIDText := demoUUIDText.

Definition dcParse (s : string) : option UUID :=
  if seqb (String.substring 0 1 s) "u" then Some (N.of_nat (String.length s - 1)) else None.
Definition dcThis : json := JObj [("this", JBool true)].
Definition dcUnion (relation : string) : json := JObj [("union", JArr [dcThis; JObj [("computedUserset", JStr relation)]])].
Definition dcFragment : Row :=
  mkFragment "docs" (Some (JObj [("docs_document", JObj [("company_module", dcThis); ("owner", dcThis); ("editor", dcUnion "owner");
    ("viewer", dcUnion "editor")])])) true.
Definition dcTuples : Table :=
  {[ownerTuple (uuidString 7%N) "ann"; documentAnchor (uuidString 1%N) (uuidString 7%N)]}.
Definition dcService : Service :=
  let svc := demoService dcTuples in
  mkService (svc_state svc) (svc_capability svc) (svc_company svc) (svc_membership svc) (Ok {["docs" := true]}) None None (Ok [dcFragment])
    (svc_db svc) (svc_MemberOfCompany svc) (svc_AnchorOf svc).
Definition dcAccount (i : string) : option OrgMember := if seqb i (uuidString 5%N) then Some (mkOrgMember (uuidString 1%N) "Bob" true "bob") else None.
Definition dcMemberOf (_ kcSub : string) : option (string * bool * bool) := Some (if seqb kcSub "bob" then uuidString 5%N else "", true, true).
Definition dcAnswers : Answers :=
  mkAnswers (fun n => mkTxEnv false (fun _ => false) (Z.of_nat n) (fun k => N.of_nat (10 * n + k + 20))) dcService (fun _ => false) (fun _ => true) (fun _ => false)
    dcMemberOf dcAccount (fun _ => None) (fun _ => None) (fun _ => None)
    (fun _ => None) (fun _ => true).

Definition dcHash (_ : UUID) (a b c : string) : string := a +:+ b +:+ c.
Definition dcShareHash (_ _ : UUID) (a : string) : string := a.
Definition dcDocument : Document := mkDocument 1 "Plan" "Q3" "ann" 0 0 None None.
Definition dcStart : DcDB := mkDcDB {[7%N := dcDocument]} ∅ [].
Definition dcWorld : MWorld DcDB := mkMWorld dcStart (mkWorld (mkDB dcTuples [] ∅) []) [].
Definition dcEmpty : MWorld DcDB := mkMWorld (mkDcDB ∅ ∅ []) (mkWorld (mkDB ∅ [] ∅) []) [].
Definition dcServe (header : string) (req : dcRequest) := serve demoVerify dcParse dcHash dcShareHash header (uuidString 1%N) req.
Abbreviation dcPerform := (perform demoVerify demoUUID dcAnswers noFaults).

Lemma dcPerform_run {A} n (p : prog DcDB dc_error A) w :
  let res := dcPerform n p w in run demoVerify demoUUID (fun _ => True) eq p w res.1.2 res.1.1 res.2.
Proof. intros res. apply (perform_run _ _ _ dcAnswers noFaults n); [exact I|]. fold res. by destruct res as [[]]. Qed.

Definition dcCreate : dcRequest := ReqCreateDocument (Some (mkCreateDocument "Notes" "")) "k1" 9%N.
Definition dcShare : dcRequest := ReqCreateShare (uuidString 7%N) (Some (mkCreateShare (uuidString 5%N) "viewer")) "".
Definition dcCreated := dcPerform 0 (dcServe "Bearer ann" dcCreate) dcEmpty.
Definition dcShared := dcPerform 0 (answering dcAccount dcMemberOf (dcServe "Bearer ann" dcShare)) dcWorld.

Lemma docs_authorized_witness :
  is_Some (documents (w_store dcCreated.2) !! 9%N) /\
  Forall (fun s => dc_step_guarded demoVerify demoUUID (fun _ => True) dcParse "Bearer ann" (uuidString 1%N) dcCreate (w_store s.1) (w_store s.2)) dcCreated.1.2 /\
  dc_reply_guarded demoVerify (fun _ => True) dcParse "Bearer ann" (uuidString 1%N) dcCreate dcCreated.1.1.
Proof.
  split; [vm_compute; by eexists|].
  apply (docs_authorized demoVerify demoUUID (fun _ => True) dcParse dcHash dcShareHash eq
           "Bearer ann" (uuidString 1%N) dcCreate dcEmpty dcCreated.1.2 dcCreated.1.1 dcCreated.2).
  exact (dcPerform_run 0 (dcServe "Bearer ann" dcCreate) dcEmpty).
Defined.

(** Two creations side by side, a call each in turn. *)
Definition dcOther : dcRequest := ReqCreateDocument (Some (mkCreateDocument "More" "")) "" 11%N.
Definition dcSide :=
  interleave demoVerify demoUUID dcAnswers noFaults [0; 1; 0; 1; 0; 1; 0; 1] 0 ([dcServe "Bearer ann" dcOther; dcServe "Bearer bob" dcCreate], dcEmpty).
Abbreviation dcAdvance := (dc_advance demoVerify demoUUID (fun _ => True) dcParse dcHash dcShareHash).

Lemma documents_owned_witness :
  d_owner <$> documents (w_store dcSide.2) !! 9%N = Some "bob" /\ dc_tables (w_store dcSide.2) /\ owned (w_store dcSide.2) (tuplesOf dcSide.2).
Proof.
  split; [vm_compute; reflexivity|].
  apply (documents_owned demoVerify demoUUID (fun _ => True) dcParse dcHash dcShareHash dcEmpty dcSide); [reflexivity|].
  apply (rtc_l dcAdvance _ _ _ (da_arrive _ _ _ _ _ _ "Bearer bob" (uuidString 1%N) dcCreate [] dcEmpty)).
  apply (rtc_l dcAdvance _ _ _ (da_arrive _ _ _ _ _ _ "Bearer ann" (uuidString 1%N) dcOther [_] dcEmpty)).
  apply (interleave_steps _ _ (fun _ => True)); [exact (da_call _ _ _ _ _ _)|exact I].
Defined.

Lemma dcStart_tables : dc_tables dcStart.
Proof.
  split; simpl.
  - intros id d [_ <-]%lookup_singleton_Some. reflexivity.
  - intros i d i' d' k [<- _]%lookup_singleton_Some [<- _]%lookup_singleton_Some. reflexivity.
  - intros id s. rewrite lookup_empty. discriminate.
  - intros i s i' s'. rewrite lookup_empty. discriminate.
Qed.

Lemma dcStart_agrees : agree dcWorld 7%N 5%N "bob".
Proof.
  intros rel Hr. split.
  - intros (id & s & H & _). simpl in H. by rewrite lookup_empty in H.
  - unfold reads. simpl. intros [E|E]%elem_of_union; apply elem_of_singleton in E; by injection E.
Qed.

Definition dcShareBody : dcBody := match dcShared.1.1 with WriteData _ b => b | _ => BShares [] end.
Lemma dcShared_run :
  run demoVerify demoUUID (fun _ => True) eq (answering dcAccount dcMemberOf (dcServe "Bearer ann" dcShare)) dcWorld dcShared.1.2 dcShared.1.1 dcShared.2.
Proof. exact (dcPerform_run 0 _ dcWorld). Qed.

Lemma shares_follow_tuples_witness :
  exists doc, dcParse (uuidString 7%N) = Some doc /\ shared_as (w_store dcShared.2) doc 5%N "viewer" /\ agree dcShared.2 doc 5%N "bob".
Proof.
  assert (Hr : dcShared.1.1 = WriteData 201 dcShareBody) by (vm_compute; reflexivity).
  pose proof (shares_follow_tuples demoVerify demoUUID (fun _ => True) dcParse dcHash dcShareHash dcAccount dcMemberOf "Bearer ann" (uuidString 1%N) dcShare
    dcWorld dcShared.1.2 dcShared.1.1 dcShared.2 dcStart_tables dcShared_run 5%N eq_refl dcShareBody Hr) as (doc & Hd & _ & Hs & _ & _ & Ha).
  exists doc. split; [exact Hd|]. split; [exact Hs|]. apply Ha. injection Hd as <-. exact dcStart_agrees.
Defined.

(** ** Where the code falls short of its comments *)

(** A title that the store refuses: the tuples of the document that is not made stay. *)
Definition dcRefused := dcPerform 0 (dcServe "Bearer ann" (ReqCreateDocument (Some (mkCreateDocument "" "")) "" 9%N)) dcEmpty.

Example refused_document_owned :
  (dcRefused.1.1, documents (w_store dcRefused.2), size (tuplesOf dcRefused.2)) = (WriteError 400 "VALIDATION_ERROR", ∅, 2).
Proof. vm_compute. reflexivity. Qed.

(** A revoke after the member's account is unlinked: the row goes and the account keeps
    its tuple. *)
Definition dcUnlinked (i : string) : option OrgMember := Some (mkOrgMember (uuidString 1%N) "Bob" true "").
Definition dcRevoke : dcRequest := ReqRevokeShare (uuidString 7%N) (uuidString 5%N).
Definition dcRevoked := dcPerform 0 (answering dcUnlinked dcMemberOf (dcServe "Bearer ann" dcRevoke)) dcShared.2.

Example unlinked_keeps_access :
  (dcRevoked.1.1, shares (w_store dcRevoked.2), bool_decide (shareTuple (uuidString 7%N) "viewer" "bob" ∈ tuplesOf dcRevoked.2)) = (NoContent, ∅, true).
Proof. vm_compute. reflexivity. Qed.

(** An upgrade whose grant does not arrive: the old tuple is revoked, and the index
    still shows it. *)
Definition dcHalf : Answers :=
  mkAnswers (an_env dcAnswers) (an_authz dcAnswers) (an_canFails dcAnswers) (fun n => (n <? 4)%nat) (an_lost dcAnswers) (an_memberBy dcAnswers)
    (an_member dcAnswers) (an_position dcAnswers) (an_holder dcAnswers) (an_group dcAnswers) (an_groupMembers dcAnswers) (an_notified dcAnswers).
Definition dcUpgrade : dcRequest := ReqCreateShare (uuidString 7%N) (Some (mkCreateShare (uuidString 5%N) "editor")) "".
Definition dcUpgraded := perform demoVerify demoUUID dcHalf noFaults 0 (dcServe "Bearer ann" dcUpgrade) dcShared.2.

Example failed_upgrade_shown :
  (dcUpgraded.1.1, (fun kv => s_relation kv.2) <$> map_to_list (shares (w_store dcUpgraded.2)),
   bool_decide (shareTuple (uuidString 7%N) "viewer" "bob" ∈ tuplesOf dcUpgraded.2),
   bool_decide (shareTuple (uuidString 7%N) "editor" "bob" ∈ tuplesOf dcUpgraded.2)) = (unavailable, ["viewer"], false, false).
Proof. vm_compute. reflexivity. Qed.
End witnesses.
