(* ===== verification/SqlScan.v ===== *)
(** * The migration scanner

    internal/modvalidate/sqlscan.go: the tokenizer and the rule table a module's
    migration must pass.  Source text is a list of bytes.  Each call of [fail]
    appends one [scan_error], which keeps the rule and what was refused; the wording
    of the messages is left out.  [None] is a run-time panic. *)

From stdpp Require Import base gmap strings list.
From Stdlib Require Import Ascii.
From S2P Require Import Prelude.

Abbreviation bytes := (list ascii).

(** [string(mf.Contents)] and token texts. *)
Definition text_of (l : bytes) : string := foldr String EmptyString l.

(** ** Tokens *)

Inductive tokKind : Type := tIdent | tString | tNumber | tPunct.

#[export] Instance tokKind_eq_dec : EqDecision tokKind.
Proof. solve_decision. Defined.

Record token := mkToken { kind : tokKind; text : string; quoted : bool }.

#[export] Instance token_eq_dec : EqDecision token.
Proof. solve_decision. Defined.

Definition code (c : ascii) : N := N_of_ascii c.
Definition between (lo hi : ascii) (c : ascii) : bool := ((code lo <=? code c) && (code c <=? code hi))%N.
Definition ceq (c d : ascii) : bool := Ascii.eqb c d.
Arguments between : simpl never.
Arguments ceq : simpl never.

Definition isDigit (c : ascii) : bool := between "0" "9" c.
Definition isIdentStart (c : ascii) : bool :=
  ceq c "_" || between "a" "z" c || between "A" "Z" c || (128 <=? code c)%N.
Definition isIdentChar (c : ascii) : bool := isIdentStart c || isDigit c || ceq c "$".
Definition isSpace (c : ascii) : bool :=
  ceq c " " || (code c =? 9)%N || (code c =? 10)%N || (code c =? 13)%N.

Arguments isDigit : simpl never.
Arguments isIdentStart : simpl never.
Arguments isIdentChar : simpl never.
Arguments isSpace : simpl never.

Definition quote1 : ascii := "'".
Definition quote2 : ascii := ascii_of_N 34.
Definition backslash : ascii := "\".
Definition newline : ascii := ascii_of_N 10.

(** The longest prefix of bytes that satisfy [p], and the rest. *)
Fixpoint span (p : ascii -> bool) (l : bytes) : bytes * bytes :=
  match l with
  | c :: l' => if p c then let '(a, b) := span p l' in (c :: a, b) else ([], l)
  | [] => ([], [])
  end.

(** A block comment from its opening [/*]: the rest after the matching [*/]. *)
Fixpoint skipBlock (depth : nat) (l : bytes) : bytes :=
  match l with
  | [] => []
  | c :: l1 =>
      match l1 with
      | d :: l2 =>
          if ceq c "/" && ceq d "*" then skipBlock (S depth) l2
          else if ceq c "*" && ceq d "/" then
            match depth with
            | S (S depth') => skipBlock (S depth') l2
            | _ => l2
            end
          else skipBlock depth l1
      | [] => []
      end
  end.

(** A string body after its opening quote. *)
Fixpoint scanString (escaped : bool) (l : bytes) : bytes * bytes :=
  match l with
  | [] => ([], [])
  | c :: l1 =>
      match l1 with
      | d :: l2 =>
          if escaped && ceq c backslash then let '(a, b) := scanString escaped l2 in (d :: a, b)
          else if ceq c quote1 then
            if ceq d quote1 then let '(a, b) := scanString escaped l2 in (quote1 :: a, b) else ([], l1)
          else let '(a, b) := scanString escaped l1 in (c :: a, b)
      | [] => if ceq c quote1 then ([], []) else ([c], [])
      end
  end.

(** A quoted identifier after its opening quote. *)
Fixpoint scanQuoted (l : bytes) : bytes * bytes :=
  match l with
  | [] => ([], [])
  | c :: l1 =>
      if ceq c quote2 then
        match l1 with
        | d :: l2 => if ceq d quote2 then let '(a, b) := scanQuoted l2 in (quote2 :: a, b) else ([], l1)
        | [] => ([], [])
        end
      else let '(a, b) := scanQuoted l1 in (c :: a, b)
  end.

Fixpoint has_prefix (p l : bytes) : bool :=
  match p, l with
  | [], _ => true
  | c :: p', d :: l' => ceq c d && has_prefix p' l'
  | _ :: _, [] => false
  end.

(** [strings.Index] of [tag] in [l]: the bytes before it and after it. *)
Fixpoint splitAt (tag l : bytes) : option (bytes * bytes) :=
  if has_prefix tag l then Some ([], drop (length tag) l)
  else match l with
       | [] => None
       | c :: l' =>
           match splitAt tag l' with
           | Some (a, b) => Some (c :: a, b)
           | None => None
           end
       end.

Definition head_is (p : ascii -> bool) (l : bytes) : bool :=
  match l with c :: _ => p c | [] => false end.

Section tokenizer.
(** [strings.ToLower] on text with a byte over 127, which goes through Unicode. *)
Context (toLowerUnicode : bytes -> bytes).

Definition lower (c : ascii) : ascii := if between "A" "Z" c then ascii_of_N (code c + 32) else c.
Definition ToLower (l : bytes) : bytes :=
  if forallb (fun c => (code c <? 128)%N) l then lower <$> l else toLowerUnicode l.

(** The case [c == '$']: dollar quote, parameter, or punctuation; [l] follows the
    dollar sign. *)
Definition scanDollar (l : bytes) : token * bytes :=
  let '(tagBody, after) := span (fun c => isIdentChar c && negb (ceq c "$")) l in
  match after with
  | d :: body =>
      if ceq d "$" && ((length tagBody =? 0)%nat || head_is isIdentStart l) then
        let tag := "$"%char :: tagBody ++ ["$"%char] in
        match splitAt tag body with
        | None => (mkToken tString (text_of body) false, [])
        | Some (inside, rest) => (mkToken tString (text_of inside) false, rest)
        end
      else if head_is isDigit l then
        (mkToken tNumber "$" false, (span (fun c => ceq c "$" || isDigit c) l).2)
      else (mkToken tPunct "$" false, l)
  | [] =>
      if head_is isDigit l then
        (mkToken tNumber "$" false, (span (fun c => ceq c "$" || isDigit c) l).2)
      else (mkToken tPunct "$" false, l)
  end.

(** One turn of the loop of [tokenize] on [c :: l]. *)
Definition scanOne (c : ascii) (l : bytes) : option token * bytes :=
  if isSpace c then (None, l)
  else if ceq c "-" && head_is (ceq "-") l then (None, (span (fun d => negb (ceq d newline)) l).2)
  else if ceq c "/" && head_is (ceq "*") l then (None, skipBlock 0 (c :: l))
  else if ceq c quote1 then
    let '(s, rest) := scanString false l in (Some (mkToken tString (text_of s) false), rest)
  else if (ceq c "e" || ceq c "E") && head_is (ceq quote1) l then
    let '(s, rest) := scanString true (drop 1 l) in (Some (mkToken tString (text_of s) false), rest)
  else if ceq c quote2 then
    let '(s, rest) := scanQuoted l in (Some (mkToken tIdent (text_of s) true), rest)
  else if ceq c "$" then let '(t, rest) := scanDollar l in (Some t, rest)
  else if isIdentStart c then
    let '(s, rest) := span isIdentChar (c :: l) in (Some (mkToken tIdent (text_of (ToLower s)) false), rest)
  else if isDigit c then
    let '(s, rest) := span (fun d => isIdentChar d || ceq d ".") (c :: l) in
    (Some (mkToken tNumber (text_of s) false), rest)
  else (Some (mkToken tPunct (String c EmptyString) false), l).

Fixpoint tokenizeN (fuel : nat) (src : bytes) : option (list token) :=
  match src with
  | [] => Some []
  | c :: l =>
      match fuel with
      | O => None
      | S fuel' =>
          let '(t, rest) := scanOne c l in
          match tokenizeN fuel' rest with
          | None => None
          | Some ts => Some (match t with Some tok => tok :: ts | None => ts end)
          end
      end
  end.

(** [tokenize]: the loop makes at most one turn per byte. *)
Definition tokenize (src : bytes) : list token := default [] (tokenizeN (length src) src).
End tokenizer.

Definition is_punct (p : string) (t : token) : bool := bool_decide (kind t = tPunct) && seqb (text t) p.

(** [splitStatements]; [cur] holds the current statement. *)
Fixpoint splitLoop (toks cur : list token) : list (list token) :=
  match toks with
  | [] => if (length cur =? 0)%nat then [] else [cur]
  | t :: toks' =>
      if is_punct ";" t then
        if (length cur =? 0)%nat then splitLoop toks' [] else cur :: splitLoop toks' []
      else splitLoop toks' (cur ++ [t])
  end.
Definition splitStatements (toks : list token) : list (list token) := splitLoop toks [].

(** [kw] *)
Definition kw (ts : list token) (i : nat) : string :=
  match ts !! i with
  | Some t => if bool_decide (kind t = tIdent) && negb (quoted t) then text t else ""
  | None => ""
  end.

(** ** References *)

Record schemaRef := mkSRef { schema : string; rname : string; pos : nat }.

Definition ident_at (ts : list token) (i : nat) : option string :=
  match ts !! i with
  | Some t => if bool_decide (kind t = tIdent) then Some (text t) else None
  | None => None
  end.
Definition punct_at (p : string) (ts : list token) (i : nat) : bool :=
  match ts !! i with Some t => is_punct p t | None => false end.

(** [refAt] *)
Definition refAt (ts : list token) (i : nat) : schemaRef * nat :=
  match ident_at ts i with
  | None => (mkSRef "" "" i, i)
  | Some first =>
      match (if punct_at "." ts (i + 1) then ident_at ts (i + 2) else None) with
      | None => (mkSRef "" first i, i + 1)
      | Some second =>
          (mkSRef first second i,
           if punct_at "." ts (i + 3) && bool_decide (is_Some (ident_at ts (i + 4))) then i + 5 else i + 3)
      end
  end.

(** [allRefs]: [n] bounds the turns; every turn moves forward. *)
Fixpoint allRefsN (n : nat) (ts : list token) (i to : nat) : list schemaRef :=
  match n with
  | O => []
  | S n' =>
      if (to <=? i)%nat then []
      else
        let '(r, next) := refAt ts i in
        if (next =? i)%nat then allRefsN n' ts (i + 1) to
        else (if negb (seqb (schema r) "") then [r] else []) ++ allRefsN n' ts next to
  end.
Definition allRefs (ts : list token) (from to : nat) : list schemaRef := allRefsN (to - from) ts from to.

Definition mem (k : string) (l : list string) : bool := bool_decide (k ∈ l).

(** [dmlRefs] *)
Definition dmlRefs (ts : list token) (from to : nat) : list schemaRef :=
  mjoin ((fun i =>
    if mem (kw ts i) ["into"; "update"; "from"; "join"; "using"; "only"] then
      let '(r, next) := refAt ts (i + 1) in
      if (i + 1 <? next)%nat && negb (seqb (schema r) "") then [r] else []
    else []) <$> seq from (to - from)).

(** ** The rule table *)

Inductive scan_error : Type :=
| CrossSchema (what : string) (r : schemaRef)
| UnsafeStatement (what : string).

Definition grandfatheredMigrations : list string :=
  ["d6f7ea747260278ff115ac1d7597de8ef80bbccd3f40c7d6fb8cd9f48c883207";
   "dc4c983ab0fdfa989fc6bb5e11b0d841620260538123ce5c575227658298358e";
   "4fac26da34ae6af10d01b439e86cc0c54e84e4f2eaa4f66254f5dc6d2ed09241";
   "0aac013ce237b0395cf5680db60af67904a53837a45d37b3cc68a70af169d862"].

Definition sharedAuditFunction : string := "reject_mutation".
Definition allowedExtensions : list string := ["pgcrypto"].
Definition createKinds : list string :=
  ["schema"; "extension"; "table"; "index"; "function"; "procedure"; "trigger"; "type"; "sequence"; "view"; "policy"; "domain"].
Definition alterKinds : list string :=
  ["table"; "index"; "function"; "procedure"; "trigger"; "type"; "sequence"; "view"; "policy"; "domain"].
Definition dropKinds : list string :=
  ["schema"; "table"; "index"; "function"; "procedure"; "trigger"; "type"; "sequence"; "view"; "policy"; "domain"].
Definition commentKinds : list string :=
  ["table"; "column"; "index"; "function"; "procedure"; "trigger"; "type"; "sequence"; "view"; "policy"; "domain"; "constraint"].
Definition schemaScopedKinds : list string :=
  ["table"; "function"; "procedure"; "type"; "sequence"; "view"; "domain"].
Definition createModifiers : list string :=
  ["or"; "replace"; "unique"; "materialized"; "temp"; "temporary"; "unlogged"; "constraint"; "global"; "local"].

Definition bare (name : string) : schemaRef := mkSRef "" name 0.

Section scan.
(** [sqlScan]: the module and whether this file is grandfathered. *)
Context (moduleKey : string) (grandfathered : bool).

(** [checkRef] *)
Definition checkRef (r : schemaRef) (target : bool) : list scan_error :=
  if seqb (schema r) moduleKey then []
  else if seqb (schema r) "audit" && HasPrefix (rname r) (moduleKey +:+ "__") then []
  else if seqb (schema r) "audit" && seqb (rname r) sharedAuditFunction then
    if negb target || grandfathered then [] else [CrossSchema "shared function" r]
  else if seqb (schema r) "public" && seqb (rname r) ("schema_version_" +:+ moduleKey) then []
  else [CrossSchema "fence" r].

Definition checkRefs (rs : list schemaRef) (target : bool) : list scan_error :=
  mjoin ((fun r => checkRef r target) <$> rs).

(** The index of the first keyword [k] at or after [i]. *)
Fixpoint findKwN (n : nat) (k : string) (ts : list token) (i : nat) : option nat :=
  match n with
  | O => None
  | S n' => if seqb (kw ts i) k then Some i else findKwN n' k ts (i + 1)
  end.
Definition findKw (k : string) (ts : list token) (i : nat) : option nat := findKwN (length ts - i) k ts i.

(** The first index at or after [i] whose keyword is not in [l]. *)
Fixpoint skipKwN (n : nat) (l : list string) (ts : list token) (i : nat) : nat :=
  match n with
  | O => i
  | S n' => if mem (kw ts i) l then skipKwN n' l ts (i + 1) else i
  end.
Definition skipKw (l : list string) (ts : list token) (i : nat) : nat := skipKwN (length ts) l ts i.

(** [forbidAnywhere] *)
Definition forbidAnywhere (ts : list token) : list scan_error :=
  mjoin ((fun j =>
    if seqb (kw ts j) "security" && seqb (kw ts (j + 1)) "definer" then [UnsafeStatement "SECURITY DEFINER"]
    else if seqb (kw ts j) "search_path" then [UnsafeStatement "search_path"] else []) <$> seq 0 (length ts)).

(** The argument list [targetList] skips: the index past the matching parenthesis. *)
Fixpoint skipArgsN (n depth : nat) (ts : list token) (i : nat) : nat :=
  match n with
  | O => i
  | S n' =>
      if (length ts <=? i)%nat then i
      else if punct_at "(" ts i then skipArgsN n' (S depth) ts (i + 1)
      else if punct_at ")" ts i then
        match depth with
        | S (S depth') => skipArgsN n' (S depth') ts (i + 1)
        | _ => i + 1
        end
      else skipArgsN n' depth ts (i + 1)
  end.

(** [targetList]: the qualified targets, and an error for each unqualified one. *)
Fixpoint targetListN (n : nat) (ts : list token) (i : nat) : list schemaRef * list scan_error :=
  match n with
  | O => ([], [])
  | S n' =>
      if (length ts <=? i)%nat then ([], [])
      else
        let '(r, next) := refAt ts i in
        if (next =? i)%nat then ([], [])
        else
          let here := if seqb (schema r) "" then ([], [CrossSchema "unqualified" r]) else ([r], []) in
          let next' := if punct_at "(" ts next then skipArgsN (length ts) 0 ts next else next in
          let more := if punct_at "," ts next' then targetListN n' ts (next' + 1) else ([], []) in
          (here.1 ++ more.1, here.2 ++ more.2)
  end.
Definition targetList (ts : list token) (i : nat) : list schemaRef * list scan_error :=
  targetListN (length ts) ts i.

Definition checkTargets (ts : list token) (i : nat) : list scan_error :=
  let '(rs, errs) := targetList ts i in errs ++ checkRefs rs true.

(** [nameList] *)
Fixpoint nameListN (n : nat) (ts : list token) (i : nat) : list string :=
  match n with
  | O => []
  | S n' =>
      match ident_at ts i with
      | None => []
      | Some name => name :: (if punct_at "," ts (i + 1) then nameListN n' ts (i + 2) else [])
      end
  end.
Definition nameList (ts : list token) (i : nat) : list string := nameListN (length ts) ts i.

(** The index [i] of [create] at the kind, and at the name once CONCURRENTLY and
    IF NOT EXISTS are passed. *)
Definition createKindAt (ts : list token) : nat := skipKw createModifiers ts 1.
Definition createAfterKind (ts : list token) : nat :=
  let i0 := createKindAt ts in
  if seqb (kw ts (i0 + 1)) "concurrently" then i0 + 2 else i0 + 1.
Definition ifNotExists (ts : list token) : bool :=
  let i1 := createAfterKind ts in
  seqb (kw ts i1) "if" && seqb (kw ts (i1 + 1)) "not" && seqb (kw ts (i1 + 2)) "exists".
Definition createNameAt (ts : list token) : nat :=
  if ifNotExists ts then createAfterKind ts + 3 else createAfterKind ts.

(** Where the references of a CREATE end: at the AS of a view's or table's query. *)
Definition queryAt (ts : list token) (knd : string) (next : nat) : option nat :=
  if mem knd ["view"; "table"] then findKw "as" ts next else None.

(** The tail of [create] for kinds other than schema and extension; [i] is the
    index of the name. *)
Definition createObject (ts : list token) (knd : string) (i : nat) : list scan_error :=
  let '(target, next) := refAt ts i in
  forbidAnywhere ts
  ++ (if mem knd schemaScopedKinds && seqb (schema target) "" then [CrossSchema "unqualified" target] else [])
  ++ (if negb (seqb (schema target) "") then checkRef target true else [])
  ++ match findKw "on" ts next with
     | None => []
     | Some j =>
         let '(r, n) := refAt ts (j + 1) in
         if (j + 1 <? n)%nat then
           if seqb (schema r) "" && mem knd ["index"; "trigger"; "policy"] then [CrossSchema "unqualified" r]
           else if negb (seqb (schema r) "") then checkRef r true else []
         else []
     end
  ++ match queryAt ts knd next with
     | Some j => checkRefs (dmlRefs ts j (length ts)) false
     | None => []
     end
  ++ checkRefs (allRefs ts next (default (length ts) (queryAt ts knd next))) false.

(** [create] *)
Definition create (ts : list token) : list scan_error :=
  let knd := kw ts (createKindAt ts) in
  if negb (mem knd createKinds) then [UnsafeStatement "CREATE"]
  else
    let i := createNameAt ts in
    if seqb knd "schema" then
      let name := kw ts i in
      (if negb (seqb name moduleKey) && negb (seqb name "audit" && ifNotExists ts)
       then [CrossSchema "CREATE SCHEMA" (bare name)] else [])
      ++ (if seqb (kw ts (i + 1)) "authorization" && negb (seqb (kw ts (i + 2)) "kiban")
          then [UnsafeStatement "CREATE SCHEMA AUTHORIZATION"] else [])
    else if seqb knd "extension" then
      if negb (mem (kw ts i) allowedExtensions) || negb (i + 1 =? length ts)%nat
      then [UnsafeStatement "CREATE EXTENSION"] else []
    else createObject ts knd i.

(** The ownership and schema moves [alter] refuses, from index [i]. *)
Definition alterForbidden (ts : list token) (i : nat) : list scan_error :=
  mjoin ((fun j =>
    if seqb (kw ts j) "owner" && seqb (kw ts (j + 1)) "to" then [UnsafeStatement "OWNER TO"]
    else if seqb (kw ts j) "set" && seqb (kw ts (j + 1)) "schema" then [UnsafeStatement "SET SCHEMA"]
    else []) <$> seq i (length ts - 1 - i)).

Definition alterKindAt (ts : list token) : nat := if seqb (kw ts 1) "materialized" then 2 else 1.
Definition alterNameAt (ts : list token) : nat := skipKw ["if"; "exists"; "only"] ts (alterKindAt ts + 1).

(** [alter] *)
Definition alter (ts : list token) : list scan_error :=
  let knd := kw ts (alterKindAt ts) in
  if negb (mem knd alterKinds) then [UnsafeStatement "ALTER"]
  else
    let i := alterNameAt ts in
    let '(target0, next0) := refAt ts i in
    let '(target, next) :=
      if mem knd ["trigger"; "policy"] then
        match findKw "on" ts next0 with
        | Some j => refAt ts (j + 1)
        | None => (target0, next0)
        end
      else (target0, next0) in
    forbidAnywhere ts ++ alterForbidden ts i
    ++ (if seqb (schema target) "" then [CrossSchema "unqualified" target] else checkRef target true)
    ++ checkRefs (allRefs ts next (length ts)) false.

(** [drop] *)
Definition dropStatement (ts : list token) : list scan_error :=
  let knd := kw ts 1 in
  if negb (mem knd dropKinds) then [UnsafeStatement "DROP"]
  else
    let i0 := if seqb (kw ts 2) "concurrently" then 3 else 2 in
    let i := if seqb (kw ts i0) "if" && seqb (kw ts (i0 + 1)) "exists" then i0 + 2 else i0 in
    if seqb knd "schema" then
      if negb (seqb (kw ts i) moduleKey) then [CrossSchema "DROP SCHEMA" (bare (kw ts i))] else []
    else
      let i' := if mem knd ["trigger"; "policy"] then
                  match findKw "on" ts i with Some j => j + 1 | None => i end
                else i in
      checkTargets ts i'.

Definition forbidNames (what : string) (ok : string -> bool) (names : list string) : list scan_error :=
  mjoin ((fun n => if ok n then [] else [CrossSchema what (bare n)]) <$> names).

(** [grant], for GRANT and REVOKE. *)
Definition grantStatement (ts : list token) : list scan_error :=
  match findKw "on" ts 0 with
  | None => [UnsafeStatement "role membership"]
  | Some on =>
      let i := on + 1 in
      mjoin ((fun j => if seqb (kw ts j) "grant" && seqb (kw ts (j + 1)) "option"
                       then [UnsafeStatement "GRANT OPTION"] else []) <$> seq 0 (length ts))
      ++ (if seqb (kw ts i) "schema" then
            forbidNames "ON SCHEMA" (fun n => seqb n moduleKey || seqb n "audit") (nameList ts (i + 1))
          else if seqb (kw ts i) "all" then
            let j := default (length ts) (findKw "schema" ts i) in
            forbidNames "ON ALL IN SCHEMA" (fun n => seqb n moduleKey) (nameList ts (j + 1))
          else if mem (kw ts i) ["table"; "sequence"; "function"; "procedure"; "routine"] then
            checkTargets ts (i + 1)
          else if mem (kw ts i) ["database"; "tablespace"; "language"; "foreign"; "large"; "type"; "domain"; "parameter"]
          then [UnsafeStatement "GRANT ON"]
          else checkTargets ts i)
      ++ match findKw (if seqb (kw ts 0) "revoke" then "from" else "to") ts on with
         | None => []
         | Some j =>
             mjoin ((fun n => if seqb n ("kiban_" +:+ moduleKey) then [] else [UnsafeStatement "role"])
                      <$> nameList ts (j + 1))
         end
  end.

(** [comment]: its refusal slices [ts[2:]], which panics on a one-token statement. *)
Definition comment (ts : list token) : option (list scan_error) :=
  let knd := kw ts 2 in
  if negb (seqb (kw ts 1) "on") || negb (mem knd commentKinds) then
    if (length ts <? 2)%nat then None else Some [UnsafeStatement "COMMENT ON"]
  else
    let i := if mem knd ["trigger"; "policy"; "constraint"] then
               match findKw "on" ts 3 with Some j => j + 1 | None => 3 end
             else 3 in
    Some (checkTargets ts i).

Definition truncate (ts : list token) : list scan_error :=
  let '(rs, errs) := targetList ts (skipKw ["table"; "only"] ts 1) in
  errs ++ mjoin ((fun r => if seqb (schema r) moduleKey then [] else [UnsafeStatement "TRUNCATE"]) <$> rs).

(** [statement] *)
Definition statement (ts : list token) : option (list scan_error) :=
  let k := kw ts 0 in
  if seqb k "create" then Some (create ts)
  else if seqb k "alter" then Some (alter ts)
  else if seqb k "drop" then Some (dropStatement ts)
  else if mem k ["grant"; "revoke"] then Some (grantStatement ts)
  else if seqb k "truncate" then Some (truncate ts)
  else if mem k ["insert"; "update"; "delete"; "with"] then
    Some (checkRefs (dmlRefs ts 0 (length ts)) true)
  else if seqb k "comment" then comment ts
  else Some [UnsafeStatement "statement"].

Fixpoint statements (sts : list (list token)) : option (list scan_error) :=
  match sts with
  | [] => Some []
  | st :: sts' =>
      match statement st, statements sts' with
      | Some e, Some es => Some (e ++ es)
      | _, _ => None
      end
  end.
End scan.

(** [scanMigration] *)
Definition scanMigration (toLowerUnicode : bytes -> bytes) (moduleKey checksum : string) (contents : bytes)
    : option (list scan_error) :=
  statements moduleKey (mem checksum grandfatheredMigrations)
    (splitStatements (tokenize toLowerUnicode contents)).
