(* ===== verification/SqlTokens.v ===== *)
(** * The tokenizer of the migration scanner

    The source texts of a token list: its lexemes, spelled in any case and with any
    quotes, with white space and comments between them or nothing where none is needed.
    [tokenize] yields exactly the tokens of every such text. *)

From stdpp Require Import base gmap strings list.
From Stdlib Require Import Ascii.
From S2P Require Import Prelude SqlScan.

(** ** Every turn of the loop consumes a byte *)

Lemma span_length p l : length (span p l).2 <= length l.
Proof.
  induction l as [|c l IH]; simpl; [done|]. destruct (p c); simpl; [|lia].
  destruct (span p l) as [a b]. simpl in *. lia.
Qed.

(** Induction on the length, for the scanners that step over two bytes. *)
Lemma bytes_len_ind (P : bytes -> Prop) :
  (forall l, (forall l', length l' < length l -> P l') -> P l) -> forall l, P l.
Proof.
  intros H l. remember (length l) as n eqn:Hn. revert l Hn.
  induction n as [n IH] using lt_wf_ind. intros l ->. apply H. intros l' Hl. by eapply IH.
Qed.

Lemma skipBlock_length d l : length (skipBlock d l) <= length l.
Proof.
  revert d. induction l as [l IH] using bytes_len_ind. intros d. destruct l as [|c [|e l]]; simpl; [lia..|].
  destruct (ceq c "/" && ceq e "*"); [specialize (IH l ltac:(simpl; lia) (S d)); lia|].
  destruct (ceq c "*" && ceq e "/").
  - destruct d as [|[|d]]; [lia..|]. specialize (IH l ltac:(simpl; lia) (S d)). lia.
  - specialize (IH (e :: l) ltac:(simpl; lia) d). simpl in IH. lia.
Qed.

Lemma scanString_length esc l : length (scanString esc l).2 <= length l.
Proof.
  induction l as [l IH] using bytes_len_ind. destruct l as [|c [|e l]]; simpl; [lia| |].
  - destruct (ceq c quote1); simpl; lia.
  - pose proof (IH l ltac:(simpl; lia)). pose proof (IH (e :: l) ltac:(simpl; lia)) as IH1. simpl in IH1.
    destruct (esc && ceq c backslash); [destruct (scanString esc l); simpl in *; lia|].
    destruct (ceq c quote1).
    + destruct (ceq e quote1); [destruct (scanString esc l); simpl in *; lia|simpl; lia].
    + destruct (match l with [] => _ | _ => _ end) as [a b] eqn:E in IH1 |- *. simpl in *. lia.
Qed.

Lemma scanQuoted_length l : length (scanQuoted l).2 <= length l.
Proof.
  induction l as [l IH] using bytes_len_ind. destruct l as [|c l]; simpl; [lia|].
  destruct (ceq c quote2).
  - destruct l as [|e l]; simpl; [lia|]. destruct (ceq e quote2); [|simpl; lia].
    pose proof (IH l ltac:(simpl; lia)). destruct (scanQuoted l); simpl in *; lia.
  - pose proof (IH l ltac:(simpl; lia)). destruct (scanQuoted l); simpl in *; lia.
Qed.

Lemma splitAt_length tag l a b : splitAt tag l = Some (a, b) -> length b <= length l.
Proof.
  revert a. induction l as [|c l IH]; intros a; simpl; case_match; try done.
  - intros [= <- <-]. rewrite length_drop. simpl. lia.
  - intros [= <- <-]. rewrite length_drop. simpl. lia.
  - destruct (splitAt tag l) as [[a' b']|]; [|done]. intros [= <- <-]. specialize (IH a' eq_refl). lia.
Qed.

Lemma scanDollar_length l : length (scanDollar l).2 <= length l.
Proof.
  unfold scanDollar. pose proof (span_length (fun c => isIdentChar c && negb (ceq c "$")) l) as H.
  pose proof (span_length (fun c => ceq c "$" || isDigit c) l) as H2.
  destruct (span _ l) as [tb [|d body]]; simpl in H.
  - destruct (head_is isDigit l); simpl; lia.
  - destruct (ceq d "$" && _).
    + destruct (splitAt _ body) as [[a b]|] eqn:E; simpl; [|lia]. apply splitAt_length in E. lia.
    + destruct (head_is isDigit l); simpl; lia.
Qed.

Section tokenizer.
Context (low : bytes -> bytes).

Lemma scanOne_length c l : length (scanOne low c l).2 <= length l.
Proof.
  unfold scanOne.
  pose proof (span_length (fun d => negb (ceq d newline)) l).
  pose proof (skipBlock_length 0 (c :: l)) as Hb. pose proof (scanString_length false l).
  pose proof (scanString_length true (drop 1 l)) as Ht. rewrite length_drop in Ht.
  pose proof (scanQuoted_length l). pose proof (scanDollar_length l).
  destruct (isSpace c); [simpl; lia|].
  destruct (ceq c "-" && _); [simpl; lia|].
  destruct (ceq c "/" && head_is (ceq "*") l) eqn:Hc.
  { apply andb_true_iff in Hc as [Hc Hl]. destruct l as [|d l]; [done|]. simpl in Hl.
    cbn [skipBlock snd] in *. apply Ascii.eqb_eq in Hc as ->. apply Ascii.eqb_eq in Hl as <-. simpl.
    pose proof (skipBlock_length 1 l). lia. }
  destruct (ceq c quote1); [destruct (scanString false l); simpl in *; lia|].
  destruct ((ceq c "e" || ceq c "E") && _); [destruct (scanString true (drop 1 l)); simpl in *; lia|].
  destruct (ceq c quote2); [destruct (scanQuoted l); simpl in *; lia|].
  destruct (ceq c "$"); [destruct (scanDollar l); simpl in *; lia|].
  destruct (isIdentStart c) eqn:Hs.
  { cbn [span]. unfold isIdentChar at 1. rewrite Hs. simpl. pose proof (span_length isIdentChar l).
    destruct (span isIdentChar l); simpl in *; lia. }
  destruct (isDigit c) eqn:Hd; [|simpl; lia].
  cbn [span]. unfold isIdentChar at 1. rewrite Hs, Hd. simpl.
  pose proof (span_length (fun d => isIdentChar d || ceq d ".") l) as Hn.
  destruct (span (fun d => isIdentChar d || ceq d ".") l); simpl in *; lia.
Qed.

(** More fuel than bytes changes nothing. *)
Lemma tokenizeN_enough n src : length src <= n -> tokenizeN low n src = Some (tokenize low src).
Proof.
  unfold tokenize. revert n. induction src as [src IH] using bytes_len_ind. intros n Hn.
  destruct src as [|c l]; [by destruct n|]. destruct n as [|n]; simpl in *; [lia|].
  pose proof (scanOne_length c l). destruct (scanOne low c l) as [t rest]. simpl in *.
  rewrite (IH rest), (IH rest (ltac:(simpl; lia)) (length l)) by lia. simpl. by destruct t.
Qed.

Lemma tokenize_step c l :
  tokenize low (c :: l) =
  let '(t, rest) := scanOne low c l in
  match t with Some tok => tok :: tokenize low rest | None => tokenize low rest end.
Proof.
  pose proof (scanOne_length c l) as H. pose proof (tokenizeN_enough (length (c :: l)) (c :: l) ltac:(lia)) as He.
  simpl in He. destruct (scanOne low c l) as [t rest]. simpl in H.
  rewrite (tokenizeN_enough (length l) rest H) in He. injection He as <-. by destruct t.
Qed.
End tokenizer.

(** ** Laying out tokens *)

Fixpoint bytes_of (s : string) : bytes :=
  match s with EmptyString => [] | String c s' => c :: bytes_of s' end.

Lemma text_of_bytes_of s : text_of (bytes_of s) = s.
Proof. induction s as [|c s IH]; simpl; [done|]. by rewrite IH. Qed.

(** A block comment's inside: text, possibly with nested comments. *)
Inductive block : Type :=
| BDone (t : bytes)
| BNest (t : bytes) (inner rest : block).

Definition comment_text (t : bytes) : bool := forallb (fun c => negb (ceq c "/") && negb (ceq c "*")) t.

Fixpoint wf_block (b : block) : bool :=
  match b with
  | BDone t => comment_text t
  | BNest t inner rest => comment_text t && wf_block inner && wf_block rest
  end.

Definition opening : bytes := ["/"; "*"]%char.
Definition closing : bytes := ["*"; "/"]%char.

Fixpoint block_bytes (b : block) : bytes :=
  match b with
  | BDone t => t
  | BNest t inner rest => t ++ opening ++ block_bytes inner ++ closing ++ block_bytes rest
  end.

(** What may stand between tokens: a byte of white space, a line comment, which a line
    feed ends, perhaps after a carriage return, and a block comment.  PostgreSQL ends
    a line comment at a carriage return too, so there is none inside. *)
Inductive gap : Type :=
| GSpace (c : ascii)
| GLine (body : bytes) (crlf : bool)
| GBlock (b : block).

Definition return_ : ascii := ascii_of_N 13.
Definition lineChar (c : ascii) : bool := negb (ceq c newline) && negb (ceq c return_).

Definition wf_gap (g : gap) : bool :=
  match g with
  | GSpace c => isSpace c
  | GLine body _ => forallb lineChar body
  | GBlock b => wf_block b
  end.

Definition gap_bytes (g : gap) : bytes :=
  match g with
  | GSpace c => [c]
  | GLine body crlf => ["-"; "-"]%char ++ body ++ (if crlf then [return_; newline] else [newline])
  | GBlock b => opening ++ block_bytes b ++ closing
  end.

Fixpoint doubled (q : ascii) (l : bytes) : bytes :=
  match l with
  | [] => []
  | c :: l' => if ceq c q then q :: q :: doubled q l' else c :: doubled q l'
  end.

(** What the body of an E'...' string is made of. *)
Inductive unit_ : Type :=
| UPlain (c : ascii)
| UQuote
| UBackslash (c : ascii).

Definition unit_bytes (u : unit_) : bytes :=
  match u with UPlain c => [c] | UQuote => [quote1; quote1] | UBackslash c => [backslash; c] end.
Definition unit_text (u : unit_) : ascii := match u with UPlain c => c | UQuote => quote1 | UBackslash c => c end.
Definition wf_unit (u : unit_) : bool :=
  match u with UPlain c => negb (ceq c quote1) && negb (ceq c backslash) | _ => true end.

(** A token as it is spelled: a word in any case, a quoted identifier, the three kinds
    of strings, a number, a parameter, a punctuation byte. *)
Inductive lexeme : Type :=
| LWord (s : bytes)
| LQuoted (s : bytes)
| LString (s : bytes)
| LEscape (e : ascii) (us : list unit_)
| LDollar (tag body : bytes)
| LNumber (s : bytes)
| LParam (s : bytes)
| LPunct (c : ascii).

Definition dollar : ascii := "$".
Definition dollar_tag (tag : bytes) : bytes := dollar :: tag ++ [dollar].

Definition lexeme_bytes (x : lexeme) : bytes :=
  match x with
  | LWord s | LNumber s => s
  | LQuoted s => quote2 :: doubled quote2 s ++ [quote2]
  | LString s => quote1 :: doubled quote1 s ++ [quote1]
  | LEscape e us => e :: quote1 :: mjoin (unit_bytes <$> us) ++ [quote1]
  | LDollar tag body => dollar_tag tag ++ body ++ dollar_tag tag
  | LParam s => dollar :: s
  | LPunct c => [c]
  end.

Definition tagChar (c : ascii) : bool := isIdentChar c && negb (ceq c dollar).
Definition numberChar (c : ascii) : bool := isIdentChar c || ceq c ".".
Definition paramChar (c : ascii) : bool := ceq c dollar || isDigit c.

(** The body of a dollar quote does not hold its tag. *)
Definition first_tag (tag body : bytes) : bool :=
  bool_decide (splitAt (dollar_tag tag) (body ++ dollar_tag tag) = Some (body, [])).

(** Vertical tab and form feed: white space to PostgreSQL, not to the scanner. *)
Definition sqlSpace (c : ascii) : bool := (code c =? 11)%N || (code c =? 12)%N.

Definition wf_lexeme (x : lexeme) : bool :=
  match x with
  | LWord s => head_is isIdentStart s && forallb isIdentChar s
  | LQuoted _ | LString _ => true
  | LEscape e us => (ceq e "e" || ceq e "E") && forallb wf_unit us
  | LDollar tag body => (bool_decide (tag = []) || head_is isIdentStart tag) && forallb tagChar tag && first_tag tag body
  | LNumber s => head_is isDigit s && forallb numberChar s
  | LParam s => head_is isDigit s && forallb isDigit s
  | LPunct c =>
      negb (isSpace c) && negb (ceq c quote1) && negb (ceq c quote2) && negb (isIdentStart c) && negb (isDigit c) && negb (sqlSpace c)
  end.

(** The dollar sign before [rest] is not the start of a dollar quote or a parameter. *)
Definition bare_dollar (rest : bytes) : bool := bool_decide (scanDollar rest = (mkToken tPunct "$" false, rest)).

(** The words that make a string that follows at once something else in SQL. *)
Definition prefixes : list bytes := bytes_of <$> ["e"; "E"; "b"; "B"; "x"; "X"; "n"; "N"].
Definition unicodes : list bytes := bytes_of <$> ["u"; "U"].

(** Whether a lexeme ends where [rest] follows. *)
Definition ends (x : lexeme) (rest : bytes) : bool :=
  match x with
  | LWord s =>
      negb (head_is isIdentChar rest) &&
      negb (bool_decide (s ∈ prefixes) && head_is (ceq quote1) rest) &&
      negb (bool_decide (s ∈ unicodes) && head_is (ceq "&") rest && (head_is (ceq quote1) (drop 1 rest) || head_is (ceq quote2) (drop 1 rest)))
  | LQuoted _ => negb (head_is (ceq quote2) rest)
  | LString _ | LEscape _ _ => negb (head_is (ceq quote1) rest)
  | LDollar _ _ => true
  | LNumber _ => negb (head_is numberChar rest)
  | LParam _ => negb (head_is paramChar rest)
  | LPunct c =>
      negb (ceq c "-" && head_is (ceq "-") rest) && negb (ceq c "/" && head_is (ceq "*") rest) &&
      (negb (ceq c dollar) || bare_dollar rest)
  end.

(** A source text: lexemes, each with the gaps before it, and what ends the file:
    gaps and perhaps a line comment without a newline. *)
Abbreviation item := (list gap * lexeme)%type.
Record ending := mkEnding { e_gaps : list gap; e_comment : option bytes }.

Definition gaps_bytes (gs : list gap) : bytes := mjoin (gap_bytes <$> gs).
Definition ending_bytes (e : ending) : bytes :=
  gaps_bytes (e_gaps e) ++ match e_comment e with Some body => ["-"; "-"]%char ++ body | None => [] end.
Definition wf_ending (e : ending) : bool :=
  forallb wf_gap (e_gaps e) && match e_comment e with Some body => forallb lineChar body | None => true end.

Fixpoint source (items : list item) (e : ending) : bytes :=
  match items with
  | [] => ending_bytes e
  | (gs, x) :: rest => gaps_bytes gs ++ lexeme_bytes x ++ source rest e
  end.

(** PostgreSQL reads a string after an E'...' string, with a newline in between, as a
    part of it. *)
Definition continues (x : lexeme) (rest : list item) : bool :=
  match x, rest with LEscape _ _, (_, LString _) :: _ => true | _, _ => false end.

Fixpoint wf_source (items : list item) (e : ending) : bool :=
  match items with
  | [] => wf_ending e
  | (gs, x) :: rest => forallb wf_gap gs && wf_lexeme x && ends x (source rest e) && negb (continues x rest) && wf_source rest e
  end.

Section layout.
Context (low : bytes -> bytes).

(** The token a lexeme spells: a word in lower case, a string's or a quoted
    identifier's content; a parameter is a number without its digits. *)
Definition token_of (x : lexeme) : token :=
  match x with
  | LWord s => mkToken tIdent (text_of (ToLower low s)) false
  | LQuoted s => mkToken tIdent (text_of s) true
  | LString s => mkToken tString (text_of s) false
  | LEscape _ us => mkToken tString (text_of (unit_text <$> us)) false
  | LDollar _ body => mkToken tString (text_of body) false
  | LNumber s => mkToken tNumber (text_of s) false
  | LParam _ => mkToken tNumber "$" false
  | LPunct c => mkToken tPunct (String c EmptyString) false
  end.

(** *** Scanners over laid out text *)

Lemma ceq_true c d : ceq c d = true <-> c = d.
Proof. apply Ascii.eqb_eq. Qed.
Lemma ceq_false c d : ceq c d = false <-> c <> d.
Proof. apply Ascii.eqb_neq. Qed.
Lemma ceq_refl c : ceq c c = true.
Proof. by apply ceq_true. Qed.

Lemma span_app p a rest : forallb p a = true -> head_is p rest = false -> span p (a ++ rest) = (a, rest).
Proof.
  intros Ha Hr. induction a as [|c a IH]; simpl in *.
  - destruct rest as [|d rest]; simpl in *; [done|]. by rewrite Hr.
  - apply andb_true_iff in Ha as [-> Ha]. by rewrite IH.
Qed.

Lemma scanString_cons esc c l :
  l <> [] -> ceq c quote1 = false -> esc && ceq c backslash = false ->
  scanString esc (c :: l) = let '(a, b) := scanString esc l in (c :: a, b).
Proof. intros Hl Hq Hb. destruct l as [|d l]; [done|]. cbn [scanString]. by rewrite Hb, Hq. Qed.

Lemma scanString_close esc rest : head_is (ceq quote1) rest = false -> scanString esc (quote1 :: rest) = ([], rest).
Proof.
  intros Hr. destruct rest as [|d l]; cbn [scanString]; change (ceq quote1 quote1) with true; [done|].
  change (ceq quote1 backslash) with false. rewrite andb_false_r. simpl in Hr. assert (ceq d quote1 = false) as ->; [|done].
  apply ceq_false. intros ->. discriminate Hr.
Qed.

Lemma scanString_quoted esc l : scanString esc (quote1 :: quote1 :: l) = let '(a, b) := scanString esc l in (quote1 :: a, b).
Proof. cbn [scanString]. change (ceq quote1 backslash) with false. rewrite andb_false_r. by change (ceq quote1 quote1) with true. Qed.

Lemma scanString_doubled a rest :
  head_is (ceq quote1) rest = false -> scanString false (doubled quote1 a ++ quote1 :: rest) = (a, rest).
Proof.
  intros Hr. induction a as [|c a IH]; cbn [doubled app]; [by apply scanString_close|].
  destruct (ceq c quote1) eqn:Hc; cbn [app].
  - apply ceq_true in Hc as ->. by rewrite scanString_quoted, IH.
  - rewrite scanString_cons, IH by (done || by destruct (doubled quote1 a)). done.
Qed.

Lemma scanString_units us rest :
  forallb wf_unit us = true -> head_is (ceq quote1) rest = false ->
  scanString true (mjoin (unit_bytes <$> us) ++ quote1 :: rest) = (unit_text <$> us, rest).
Proof.
  intros Hus Hr. induction us as [|u us IH]; [by apply scanString_close|]. cbn [forallb] in Hus. apply andb_true_iff in Hus as [Hu Hus].
  specialize (IH Hus). assert (Hne : mjoin (unit_bytes <$> us) ++ quote1 :: rest <> []) by (by destruct (mjoin (unit_bytes <$> us))).
  change (mjoin (unit_bytes <$> u :: us)) with (unit_bytes u ++ mjoin (unit_bytes <$> us)). rewrite <- (assoc_L (++)).
  change (unit_text <$> u :: us) with (unit_text u :: (unit_text <$> us)). generalize dependent (mjoin (unit_bytes <$> us) ++ quote1 :: rest). intros r IH Hne.
  destruct u as [c| |c]; cbn [unit_bytes unit_text wf_unit app] in *.
  - apply andb_true_iff in Hu as [Hq%negb_true_iff Hb%negb_true_iff]. rewrite scanString_cons, IH by done. done.
  - by rewrite scanString_quoted, IH.
  - cbn [scanString]. change (ceq backslash backslash) with true. cbn [andb]. by rewrite IH.
Qed.

Lemma scanQuoted_doubled a rest :
  head_is (ceq quote2) rest = false -> scanQuoted (doubled quote2 a ++ quote2 :: rest) = (a, rest).
Proof.
  intros Hr. induction a as [|c a IH]; cbn [doubled app].
  - cbn [scanQuoted]. rewrite ceq_refl. destruct rest as [|d l]; [done|]. simpl in Hr.
    assert (ceq d quote2 = false) as ->; [|done]. apply ceq_false. intros ->. discriminate Hr.
  - destruct (ceq c quote2) eqn:Hc; cbn [app scanQuoted].
    + apply ceq_true in Hc as ->. rewrite !ceq_refl. by rewrite IH.
    + rewrite Hc. by rewrite IH.
Qed.

Lemma has_prefix_app tag a rest : length tag <= length a -> has_prefix tag (a ++ rest) = has_prefix tag a.
Proof.
  revert a. induction tag as [|c tag IH]; intros a Hl; [done|]. destruct a as [|d a]; simpl in *; [lia|]. by rewrite IH by lia.
Qed.

Lemma has_prefix_self tag rest : has_prefix tag (tag ++ rest) = true.
Proof. induction tag as [|c tag IH]; simpl; [done|]. by rewrite ceq_refl. Qed.

Lemma splitAt_app tag body rest :
  tag <> [] -> splitAt tag (body ++ tag) = Some (body, []) -> splitAt tag (body ++ tag ++ rest) = Some (body, rest).
Proof.
  intros Htag. assert (Hhit : forall l, has_prefix tag l = true -> splitAt tag l = Some ([], drop (length tag) l)).
  { intros [|c l] Hp; simpl; by rewrite Hp. }
  induction body as [|c body IH]; cbn [app]; intros H.
  - rewrite Hhit by apply has_prefix_self. by rewrite drop_app_length.
  - cbn [splitAt] in *. change (c :: body ++ tag ++ rest) with ((c :: body) ++ tag ++ rest).
    rewrite (assoc_L (++)), has_prefix_app by (rewrite length_app; simpl; lia). cbn [app] in *.
    destruct (has_prefix tag (c :: body ++ tag)); [done|].
    destruct (splitAt tag (body ++ tag)) as [[a b]|]; [|done]. injection H as -> ->. by rewrite IH.
Qed.

Lemma skipBlock_text d t l : comment_text t = true -> l <> [] -> skipBlock d (t ++ l) = skipBlock d l.
Proof.
  intros Ht Hl. induction t as [|c t IH]; [done|]. simpl in Ht.
  rewrite !andb_true_iff, !negb_true_iff in Ht. destruct Ht as [[H1 H2] Ht]. rewrite <- IH by done.
  simpl. destruct (t ++ l) as [|e l'] eqn:E; [by destruct t, l|]. by rewrite H1, H2.
Qed.

Lemma skipBlock_close d l :
  skipBlock (S d) (closing ++ l) = match d with S d' => skipBlock (S d') l | O => l end.
Proof. by destruct d. Qed.

Lemma skipBlock_block b d l :
  wf_block b = true ->
  skipBlock (S d) (block_bytes b ++ closing ++ l) = match d with S d' => skipBlock (S d') l | O => l end.
Proof.
  revert d l. induction b as [t|t inner IH1 rest IH2]; intros d l; cbn [wf_block block_bytes].
  - intros Ht. rewrite skipBlock_text by done. apply skipBlock_close.
  - rewrite !andb_true_iff. intros [[Ht Hi] Hr]. rewrite <- !(assoc_L (++)), skipBlock_text by done.
    change (skipBlock (S d) (opening ++ ?x)) with (skipBlock (S (S d)) x).
    rewrite IH1 by done. apply IH2. done.
Qed.

Lemma isSpace_cases c : isSpace c = true -> c = " "%char \/ code c = 9%N \/ code c = 10%N \/ code c = 13%N.
Proof.
  unfold isSpace. rewrite !orb_true_iff, !N.eqb_eq. intros [[[H%ceq_true|H]|H]|H]; auto.
Qed.

(** No space is part of any other class of bytes. *)
Lemma space_class p c :
  forallb (fun d => negb (p d)) (ascii_of_N <$> [32; 9; 10; 13]%N) = true -> isSpace c = true -> p c = false.
Proof.
  intros Hp Hc. assert (Hin : c ∈ ascii_of_N <$> [32; 9; 10; 13]%N).
  { rewrite <- (ascii_N_embedding c). unfold isSpace, ceq, code in Hc. apply list_elem_of_fmap.
    exists (N_of_ascii c). split; [done|]. rewrite !orb_true_iff, !N.eqb_eq, Ascii.eqb_eq in Hc.
    destruct Hc as [[[->| ->]| ->]| ->]; cbn; set_solver. }
  rewrite forallb_forall in Hp. apply negb_true_iff, Hp. by apply list_elem_of_In.
Qed.

Lemma tokenize_space c l : isSpace c = true -> tokenize low (c :: l) = tokenize low l.
Proof. intros Hc. rewrite tokenize_step. unfold scanOne. by rewrite Hc. Qed.

Lemma line_body body : forallb lineChar body = true -> forallb (fun c => negb (ceq c newline)) body = true.
Proof.
  rewrite !forallb_forall. intros H c Hc. specialize (H c Hc). unfold lineChar in H. by apply andb_true_iff in H as [? _].
Qed.

Lemma comment_rest body l :
  forallb (fun c => negb (ceq c newline)) body = true -> head_is (fun d => negb (ceq d newline)) l = false ->
  tokenize low ("-"%char :: "-"%char :: body ++ l) = tokenize low l.
Proof.
  intros Hb Hl. rewrite tokenize_step. unfold scanOne. cbn [head_is].
  change (isSpace "-") with false. change (ceq "-" "-") with true. cbn [andb].
  assert (span (fun d => negb (ceq d newline)) ("-"%char :: body ++ l) = ("-"%char :: body, l)) as ->; [|done].
  by apply (span_app _ ("-"%char :: body)).
Qed.

Lemma tokenize_comment body l :
  forallb (fun c => negb (ceq c newline)) body = true ->
  tokenize low ("-"%char :: "-"%char :: body ++ newline :: l) = tokenize low l.
Proof. intros Hb. rewrite comment_rest by done. by apply tokenize_space. Qed.

Lemma tokenize_gap g l : wf_gap g = true -> tokenize low (gap_bytes g ++ l) = tokenize low l.
Proof.
  destruct g as [c|body crlf|b]; cbn [wf_gap gap_bytes]; intros Hg.
  - by apply tokenize_space.
  - rewrite <- !(assoc_L (++)). cbn [app]. destruct crlf; cbn [app].
    + rewrite (assoc_L (++) body [return_] (newline :: l) : body ++ return_ :: newline :: l = (body ++ [return_]) ++ newline :: l).
      apply tokenize_comment. rewrite forallb_app. rewrite (line_body body Hg). done.
    + apply tokenize_comment. by apply line_body.
  - rewrite <- !(assoc_L (++)). unfold opening at 1. cbn [app]. rewrite tokenize_step. unfold scanOne. cbn [head_is].
    change (isSpace "/") with false. change (ceq "/" "-") with false. change (ceq "/" "/") with true.
    change (ceq "*" "*") with true. cbn [andb].
    change (skipBlock 0 ("/"%char :: "*"%char :: ?x)) with (skipBlock 1 x).
    by rewrite skipBlock_block.
Qed.

Lemma tokenize_gaps gs l : forallb wf_gap gs = true -> tokenize low (gaps_bytes gs ++ l) = tokenize low l.
Proof.
  unfold gaps_bytes. induction gs as [|g gs IH]; [done|]. simpl. rewrite andb_true_iff. intros [Hg Hgs].
  rewrite <- (assoc_L (++)), tokenize_gap by done. by apply IH.
Qed.

(** *** One token *)

Local Ltac by_class :=
  match goal with
  | H : isSpace ?c = true |- ?b = false =>
      let f := eval pattern c in b in
      match f with ?p _ => apply (space_class p c); [vm_compute; reflexivity | exact H] end
  end.

Lemma ident_head c l :
  isIdentStart c = true ->
  (ceq c "e" || ceq c "E") && head_is (ceq quote1) l = false ->
  scanOne low c l =
    let '(s, rest) := span isIdentChar (c :: l) in (Some (mkToken tIdent (text_of (ToLower low s)) false), rest).
Proof.
  intros Hc Hl. unfold scanOne. rewrite Hc, Hl.
  assert (Hne : forall d, isIdentStart d = false -> ceq c d = false).
  { intros d Hd. apply ceq_false. intros ->. congruence. }
  rewrite !Hne by reflexivity.
  destruct (isSpace c) eqn:Hs; [|done].
  assert (isIdentStart c = false) by by_class. congruence.
Qed.

Lemma digit_start c : isDigit c = true -> isIdentStart c = false.
Proof.
  intros Hc. assert (Hne : ceq c "_" = false) by (apply ceq_false; intros ->; discriminate Hc).
  unfold isDigit, isIdentStart, between in *. rewrite Hne. rewrite andb_true_iff, !N.leb_le in Hc.
  change (code "0") with 48%N in Hc. change (code "9") with 57%N in Hc. change (code "a") with 97%N. change (code "A") with 65%N.
  destruct (N.leb_spec 97 (code c)); [lia|]. destruct (N.leb_spec 65 (code c)); [lia|]. destruct (N.leb_spec 128 (code c)); [lia|]. done.
Qed.

Lemma digit_head c l :
  isDigit c = true ->
  scanOne low c l =
    let '(s, rest) := span (fun d => isIdentChar d || ceq d ".") (c :: l) in
    (Some (mkToken tNumber (text_of s) false), rest).
Proof.
  intros Hc. assert (Hne : forall d, isDigit d = false -> ceq c d = false).
  { intros d Hd. apply ceq_false. intros ->. congruence. }
  pose proof (digit_start c Hc) as Hi.
  unfold scanOne. rewrite Hc, Hi. rewrite !Hne by reflexivity. simpl.
  destruct (isSpace c) eqn:Hs; [|done]. assert (isDigit c = false) by by_class. congruence.
Qed.

Lemma text_text s : bytes_of (text_of s) = s.
Proof. induction s as [|c s IH]; simpl; [done|]. by rewrite IH. Qed.

Lemma e_string c b rest :
  head_is isIdentStart (c :: b) = true -> forallb isIdentChar (c :: b) = true -> ends (LWord (c :: b)) rest = true ->
  (ceq c "e" || ceq c "E") && head_is (ceq quote1) (b ++ rest) = false.
Proof.
  cbn [ends]. rewrite !andb_true_iff, !negb_true_iff. intros _ Ha [[_ Hp] _]. destruct b as [|d b]; cbn [app].
  - destruct (ceq c "e" || ceq c "E") eqn:He; [|done]. cbn [andb]. rewrite bool_decide_true in Hp; [done|].
    apply orb_true_iff in He as [->%ceq_true| ->%ceq_true]; vm_compute; [left|right; left].
  - cbn [forallb] in Ha. rewrite !andb_true_iff in Ha. destruct Ha as (_ & Hd & _). apply andb_false_iff. right. simpl.
    apply ceq_false. intros <-. discriminate Hd.
Qed.

Lemma word_lexeme s rest :
  wf_lexeme (LWord s) = true -> ends (LWord s) rest = true ->
  tokenize low (s ++ rest) = token_of (LWord s) :: tokenize low rest.
Proof.
  intros Hwf He. pose proof Hwf as Hwf'. cbn [wf_lexeme] in Hwf'. apply andb_true_iff in Hwf' as [Hh Ha].
  destruct s as [|c b]; [done|]. pose proof (e_string c b rest Hh Ha He) as Hes. cbn [app token_of].
  cbn [ends] in He. rewrite !andb_true_iff, !negb_true_iff in He. destruct He as [[Hr _] _].
  rewrite tokenize_step, ident_head by done.
  by rewrite (span_app isIdentChar (c :: b) rest Ha Hr : span isIdentChar (c :: b ++ rest) = _).
Qed.

Lemma number_lexeme s rest :
  wf_lexeme (LNumber s) = true -> ends (LNumber s) rest = true ->
  tokenize low (s ++ rest) = token_of (LNumber s) :: tokenize low rest.
Proof.
  cbn [wf_lexeme ends token_of]. rewrite andb_true_iff, negb_true_iff. intros [Hh Ha] Hr.
  destruct s as [|c b]; [done|]. cbn [app]. rewrite tokenize_step, digit_head by done.
  by rewrite (span_app numberChar (c :: b) rest Ha Hr : span (fun d => isIdentChar d || ceq d ".") (c :: b ++ rest) = _).
Qed.

(** A dollar sign that starts a quote, and one that starts a parameter. *)
Lemma scanDollar_quote tag body rest :
  wf_lexeme (LDollar tag body) = true ->
  scanDollar (tag ++ dollar :: body ++ dollar_tag tag ++ rest) = (token_of (LDollar tag body), rest).
Proof.
  cbn [wf_lexeme token_of]. rewrite !andb_true_iff, orb_true_iff, bool_decide_eq_true. intros [[Hh Ha] Hf%bool_decide_eq_true].
  unfold scanDollar. rewrite (span_app (fun c => isIdentChar c && negb (ceq c "$")) tag) by done. rewrite ceq_refl. cbn [andb].
  assert ((length tag =? 0) || head_is isIdentStart (tag ++ dollar :: body ++ dollar_tag tag ++ rest) = true) as ->.
  { destruct Hh as [->|Hh]; [done|]. destruct tag as [|c tag]; [done|]. simpl in *. by rewrite Hh. }
  change ("$"%char :: tag ++ ["$"%char]) with (dollar_tag tag). by rewrite (splitAt_app (dollar_tag tag) body rest) by done.
Qed.

Lemma scanDollar_param s rest :
  wf_lexeme (LParam s) = true -> ends (LParam s) rest = true -> scanDollar (s ++ rest) = (mkToken tNumber "$" false, rest).
Proof.
  cbn [wf_lexeme ends]. rewrite andb_true_iff, negb_true_iff. intros [Hh Ha] Hr. destruct s as [|c b]; [done|]. simpl in Hh.
  assert (Hparam : forallb paramChar (c :: b) = true).
  { rewrite forallb_forall in *. intros d Hd. unfold paramChar. by rewrite (Ha d Hd), orb_true_r. }
  assert (Hrest : (span (fun d => ceq d "$" || isDigit d) (c :: b ++ rest)).2 = rest).
  { pose proof (span_app paramChar (c :: b) rest Hparam Hr) as Hs. unfold paramChar in Hs. cbn [app] in Hs. change dollar with "$"%char in Hs. by rewrite Hs. }
  assert (Hdig : isIdentStart c = false) by by apply digit_start.
  assert (Htag : isIdentChar c && negb (ceq c "$") = true).
  { unfold isIdentChar. rewrite Hdig, Hh. simpl. apply negb_true_iff, ceq_false. intros ->. discriminate Hh. }
  unfold scanDollar. cbn [app]. set (digits := span (fun d => ceq d "$" || isDigit d) (c :: b ++ rest)) in *. clearbody digits.
  cbn [span head_is]. rewrite Htag, Hdig, Hh. destruct (span _ (b ++ rest)) as [tb after]. cbn [app] in *.
  destruct after as [|d body]; [by rewrite Hrest|]. cbn [length Nat.eqb orb]. rewrite andb_false_r. by rewrite Hrest.
Qed.

Lemma punct_lexeme c rest :
  wf_lexeme (LPunct c) = true -> ends (LPunct c) rest = true ->
  tokenize low (c :: rest) = token_of (LPunct c) :: tokenize low rest.
Proof.
  cbn [wf_lexeme ends token_of]. rewrite !andb_true_iff, !negb_true_iff. intros (((((Hs & Hc1) & Hc2) & Hi) & Hd) & _) ((Hm & Hb) & Hdol).
  assert (He : ceq c "e" || ceq c "E" = false).
  { apply orb_false_iff. split; apply ceq_false; intros ->; discriminate Hi. }
  rewrite tokenize_step. unfold scanOne. rewrite Hs, Hm, Hb, Hc1, He, Hc2, Hi, Hd. cbn [andb].
  change (ceq c "$") with (ceq c dollar). destruct (ceq c dollar) eqn:Hq; [|done]. apply ceq_true in Hq as ->.
  simpl in Hdol. apply bool_decide_eq_true in Hdol. by rewrite Hdol.
Qed.

Lemma tokenize_lexeme x rest :
  wf_lexeme x = true -> ends x rest = true ->
  tokenize low (lexeme_bytes x ++ rest) = token_of x :: tokenize low rest.
Proof.
  intros Hwf He. destruct x as [s|s|s|e us|tag body|s|s|c]; cbn [lexeme_bytes].
  - by apply word_lexeme.
  - cbn [ends] in He. apply negb_true_iff in He. rewrite <- app_comm_cons, <- (assoc_L (++)). cbn [app]. rewrite tokenize_step.
    assert (scanOne low quote2 (doubled quote2 s ++ quote2 :: rest) =
      let '(t, r) := scanQuoted (doubled quote2 s ++ quote2 :: rest) in (Some (mkToken tIdent (text_of t) true), r)) as -> by done.
    by rewrite scanQuoted_doubled.
  - cbn [ends] in He. apply negb_true_iff in He. rewrite <- app_comm_cons, <- (assoc_L (++)). cbn [app]. rewrite tokenize_step.
    assert (scanOne low quote1 (doubled quote1 s ++ quote1 :: rest) =
      let '(t, r) := scanString false (doubled quote1 s ++ quote1 :: rest) in (Some (mkToken tString (text_of t) false), r)) as -> by done.
    by rewrite scanString_doubled.
  - cbn [ends wf_lexeme] in *. apply negb_true_iff in He. apply andb_true_iff in Hwf as [Hee Hus].
    rewrite <- !app_comm_cons, <- (assoc_L (++)). cbn [app]. rewrite tokenize_step.
    assert (scanOne low e (quote1 :: mjoin (unit_bytes <$> us) ++ quote1 :: rest) =
      let '(t, r) := scanString true (mjoin (unit_bytes <$> us) ++ quote1 :: rest) in (Some (mkToken tString (text_of t) false), r)) as ->.
    { apply orb_true_iff in Hee as [->%ceq_true| ->%ceq_true]; done. }
    by rewrite scanString_units.
  - unfold dollar_tag at 1. rewrite <- !(assoc_L (++)). cbn [app]. rewrite <- !(assoc_L (++)). cbn [app]. rewrite tokenize_step.
    assert (forall l, scanOne low dollar l = let '(t, r) := scanDollar l in (Some t, r)) as -> by done. by rewrite scanDollar_quote.
  - by apply number_lexeme.
  - rewrite <- app_comm_cons, tokenize_step. assert (forall l, scanOne low dollar l = let '(t, r) := scanDollar l in (Some t, r)) as -> by done.
    by rewrite scanDollar_param.
  - by apply punct_lexeme.
Qed.

Lemma tokenize_ending e : wf_ending e = true -> tokenize low (ending_bytes e) = [].
Proof.
  unfold wf_ending, ending_bytes. rewrite andb_true_iff. intros [Hg Hc]. rewrite tokenize_gaps by done.
  destruct (e_comment e) as [body|]; [|done]. cbn [app].
  rewrite <- (app_nil_r body), comment_rest by first [done|by apply line_body]. done.
Qed.

Lemma tokenize_source items e : wf_source items e = true -> tokenize low (source items e) = token_of <$> items.*2.
Proof.
  induction items as [|[gs x] items IH]; cbn [wf_source source]; [apply tokenize_ending|].
  rewrite !andb_true_iff. intros [[[[Hg Hx] He] _] Hrest]. rewrite tokenize_gaps, tokenize_lexeme, IH by done. done.
Qed.
End layout.
