(* ===== verification/SqlProps.v ===== *)
(** * Properties of the migration scanner

    What an accepted migration cannot contain. *)

From stdpp Require Import base gmap strings list.
From Stdlib Require Import Ascii.
From S2P Require Import Prelude SqlScan SqlTokens.

(** ** Statements *)

Definition semicolon : token := mkToken tPunct ";" false.

Definition plain (st : list token) : Prop := st <> [] /\ Forall (fun t => is_punct ";" t = false) st.

Lemma splitLoop_plain st cur rest :
  Forall (fun t => is_punct ";" t = false) st -> splitLoop (st ++ rest) cur = splitLoop rest (cur ++ st).
Proof.
  intros H. revert cur. induction H as [|t st Ht _ IH]; intros cur; simpl; [by rewrite app_nil_r|].
  rewrite Ht, IH. by rewrite <- (assoc_L (++)).
Qed.

(** The statements of a token list: a semicolon ends each, the last one perhaps not, and
    stray semicolons are allowed. *)
Inductive statements_of : list token -> list (list token) -> Prop :=
| so_end : statements_of [] []
| so_last st : plain st -> statements_of st [st]
| so_stray toks sts : statements_of toks sts -> statements_of (semicolon :: toks) sts
| so_statement st toks sts : plain st -> statements_of toks sts -> statements_of (st ++ semicolon :: toks) (st :: sts).

Lemma splitStatements_of toks sts : statements_of toks sts -> splitStatements toks = sts.
Proof.
  unfold splitStatements. induction 1 as [|st [Hne Hp]|toks sts _ IH|st toks sts [Hne Hp] _ IH]; [done| |done|].
  - rewrite <- (app_nil_r st) at 1. rewrite splitLoop_plain by done. by destruct st.
  - rewrite splitLoop_plain by done. simpl. destruct st; [done|]. simpl. by f_equal.
Qed.

Lemma statements_accept mk g sts :
  statements mk g sts = Some [] <-> Forall (fun st => statement mk g st = Some []) sts.
Proof.
  induction sts as [|st sts IH]; simpl; [done|]. rewrite Forall_cons, <- IH.
  destruct (statement mk g st) as [e|], (statements mk g sts) as [es|]; split; try naive_solver.
  intros [= H]. apply app_nil in H as [-> ->]. done.
Qed.

(** ** References are all seen *)

Definition qualified (ts : list token) (p : nat) (x y : string) : Prop :=
  ident_at ts p = Some x /\ punct_at "." ts (p + 1) = true /\ ident_at ts (p + 2) = Some y /\ x <> "" /\
  (p = 0 \/ punct_at "." ts (p - 1) = false).

Lemma ident_not_punct ts p x c : ident_at ts p = Some x -> punct_at c ts p = false.
Proof.
  unfold ident_at, punct_at, is_punct. destruct (ts !! p) as [t|]; [|done].
  case_bool_decide as H; [|done]. by rewrite H.
Qed.

Lemma refAt_qualified ts p x y : qualified ts p x y -> (refAt ts p).1 = mkSRef x y p /\ p < (refAt ts p).2.
Proof.
  intros (Hx & Hd & Hy & _). unfold refAt. rewrite Hx, Hd, Hy. split; [done|]. simpl. case_match; lia.
Qed.

(** A reference never ends inside a later qualified name. *)
Lemma refAt_skip ts i p x y : qualified ts p x y -> i < p -> (refAt ts i).2 <= p.
Proof.
  intros (Hx & Hd & Hy & _ & Hprev) Hlt. destruct Hprev as [|Hprev]; [lia|].
  unfold refAt. destruct (ident_at ts i) as [first|]; [|simpl; lia].
  destruct (punct_at "." ts (i + 1)) eqn:H1; [|simpl; lia]. destruct (ident_at ts (i + 2)) as [second|]; [|simpl; lia].
  assert (p <> i + 1) by (intros ->; by rewrite (ident_not_punct _ _ _ "." Hx) in H1).
  assert (p <> i + 2) by (intros ->; replace (i + 2 - 1) with (i + 1) in Hprev by lia; congruence).
  simpl. destruct (punct_at "." ts (i + 3) && _) eqn:H3; [|lia]. apply andb_true_iff in H3 as [H3 _].
  assert (p <> i + 3) by (intros ->; by rewrite (ident_not_punct _ _ _ "." Hx) in H3).
  assert (p <> i + 4) by (intros ->; replace (i + 4 - 1) with (i + 3) in Hprev by lia; congruence). lia.
Qed.

Lemma refAt_forward ts i : i <= (refAt ts i).2.
Proof. unfold refAt. repeat case_match; simpl; lia. Qed.

Lemma allRefsN_complete n ts i to p x y :
  to - i <= n -> i <= p -> p < to -> qualified ts p x y -> mkSRef x y p ∈ allRefsN n ts i to.
Proof.
  intros Hn Hip Hpt Hq. revert i Hn Hip. induction n as [|n IH]; intros i Hn Hip; [lia|]. simpl.
  destruct (Nat.leb_spec to i); [lia|]. pose proof (refAt_forward ts i) as Hf.
  destruct (decide (i = p)) as [->|Hne].
  - destruct (refAt_qualified ts p x y Hq) as [Hr Hlt]. destruct (refAt ts p) as [r next]. simpl in *. subst r.
    destruct (Nat.eqb_spec next p); [lia|]. apply elem_of_app. left. simpl.
    destruct Hq as (_ & _ & _ & Hx & _). rewrite (proj2 (seqb_false x "") Hx). by left.
  - pose proof (refAt_skip ts i p x y Hq ltac:(lia)) as Hs. destruct (refAt ts i) as [r next]. simpl in *.
    destruct (Nat.eqb_spec next i); [apply IH; lia|]. apply elem_of_app. right. apply IH; lia.
Qed.

Lemma allRefs_complete ts from to p x y :
  from <= p -> p < to -> qualified ts p x y -> mkSRef x y p ∈ allRefs ts from to.
Proof. intros. by apply allRefsN_complete. Qed.

(** ** The fence *)

(** What a module migration may refer to. *)
Definition in_fence (mk x y : string) : Prop :=
  x = mk \/ (x = "audit" /\ (HasPrefix y (mk +:+ "__") = true \/ y = sharedAuditFunction)) \/
  (x = "public" /\ y = "schema_version_" +:+ mk).

(** What it may create, change or drop. *)
Definition in_own (mk : string) (g : bool) (x y : string) : Prop :=
  x = mk \/ (x = "audit" /\ (HasPrefix y (mk +:+ "__") = true \/ y = sharedAuditFunction /\ g = true)) \/
  (x = "public" /\ y = "schema_version_" +:+ mk).

Lemma checkRef_nil mk g r target :
  checkRef mk g r target = [] ->
  if target then in_own mk g (schema r) (rname r) else in_fence mk (schema r) (rname r).
Proof.
  unfold checkRef, in_own, in_fence. intros H.
  destruct (seqb (schema r) mk) eqn:E1; [apply seqb_true in E1; destruct target; auto|].
  destruct (seqb (schema r) "audit" && HasPrefix (rname r) (mk +:+ "__")) eqn:E2.
  { apply andb_true_iff in E2 as [E2%seqb_true ->]. destruct target; auto. }
  destruct (seqb (schema r) "audit" && seqb (rname r) sharedAuditFunction) eqn:E3.
  { apply andb_true_iff in E3 as [E3%seqb_true E4%seqb_true]. destruct target, g; simpl in H; auto 6; done. }
  destruct (seqb (schema r) "public" && seqb (rname r) ("schema_version_" +:+ mk)) eqn:E4; [|done].
  apply andb_true_iff in E4 as [E4%seqb_true E5%seqb_true]. destruct target; auto.
Qed.

Lemma in_own_fence mk g x y : in_own mk g x y -> in_fence mk x y.
Proof. unfold in_own, in_fence. naive_solver. Qed.

Lemma mjoin_nil {A B} (f : A -> list B) l : mjoin (f <$> l) = [] <-> forall x, x ∈ l -> f x = [].
Proof.
  induction l as [|a l IH]; [split; [intros _ x Hx; by apply elem_of_nil in Hx|done]|].
  cbn [fmap list_fmap mjoin list_join]. rewrite app_nil, IH. setoid_rewrite elem_of_cons. naive_solver.
Qed.

Lemma checkRefs_nil mk g rs target r :
  checkRefs mk g rs target = [] -> r ∈ rs -> checkRef mk g r target = [].
Proof. unfold checkRefs. rewrite mjoin_nil. auto. Qed.

(** The keywords that change who a definition runs as. *)
Definition forbidden_at (ts : list token) (j : nat) : Prop :=
  (kw ts j = "security" /\ kw ts (j + 1) = "definer") \/ kw ts j = "search_path".

Lemma kw_range ts j : kw ts j <> "" -> j < length ts.
Proof. unfold kw. destruct (ts !! j) eqn:E; [intros _; by eapply lookup_lt_Some|done]. Qed.

Lemma forbidAnywhere_nil ts j : forbidAnywhere ts = [] -> ~ forbidden_at ts j.
Proof.
  unfold forbidAnywhere. rewrite mjoin_nil. intros H Hf.
  assert (Hj : j < length ts). { apply kw_range. destruct Hf as [[-> _]| ->]; done. }
  specialize (H j ltac:(apply elem_of_seq; lia)). destruct Hf as [[E1 E2]|E1]; rewrite E1 in H; [|done].
  by rewrite E2 in H.
Qed.

(** A statement's references from its name on: the name is a target, the rest are
    references. *)
Lemma refs_from_name mk g ts i to p x y :
  ((refAt ts i).1.(schema) <> "" -> checkRef mk g (refAt ts i).1 true = []) ->
  checkRefs mk g (allRefs ts (refAt ts i).2 to) false = [] ->
  i <= p -> p < to -> qualified ts p x y -> in_fence mk x y.
Proof.
  intros Ht Hr Hip Hpt Hq. destruct (decide (i = p)) as [->|Hne].
  - destruct (refAt_qualified ts p x y Hq) as [E _]. rewrite E in Ht. simpl in Ht.
    destruct Hq as (_ & _ & _ & Hx & _). by apply Ht, checkRef_nil, in_own_fence in Hx.
  - pose proof (refAt_skip ts i p x y Hq ltac:(lia)).
    by apply (checkRefs_nil _ _ _ _ (mkSRef x y p)), checkRef_nil in Hr; [|apply allRefs_complete].
Qed.

(** ** The properties *)

(** C35: the scanner reads SQL text as the lexemes it is made of, however it is laid out.
    Take any source text made of lexemes: words in any case, quoted identifiers,
    '...', E'...' and $tag$...$tag$ strings with any content their quoting allows,
    numbers, parameters and punctuation, with any number of blanks, tabs, line ends,
    line comments and nested block comments before each, or none where the lexemes
    stay apart without.  Then no string, comment or quoted identifier hides a statement
    or adds one: the verdict on the file is the concatenation of the verdicts on the
    statements its tokens form, and it is accepted exactly when each of them is.  Where
    PostgreSQL splits a text otherwise it is no such source: a carriage return inside a
    line comment, a form feed or a vertical tab, and a string that continues an E'...' one;
    the examples below show what each of them hides. *)
Theorem scanMigration_layout low mk ck items e sts :
  wf_source items e = true -> statements_of (token_of low <$> items.*2) sts ->
  scanMigration low mk ck (source items e) = statements mk (mem ck grandfatheredMigrations) sts /\
  (scanMigration low mk ck (source items e) = Some [] <->
   Forall (fun st => statement mk (mem ck grandfatheredMigrations) st = Some []) sts).
Proof.
  intros Hwf Hsts.
  assert (H : scanMigration low mk ck (source items e) = statements mk (mem ck grandfatheredMigrations) sts).
  { unfold scanMigration. by rewrite (tokenize_source low items e Hwf), (splitStatements_of _ _ Hsts). }
  rewrite H. split; [done|apply statements_accept].
Qed.

Definition word (s : string) : token := mkToken tIdent s false.
Definition dot : token := mkToken tPunct "." false.

(** A file whose statements have nothing to spare between their tokens. *)
Definition demoText : string := "CREATE/*a/*b*/*/TYPE docs.Mood AS Enum('it''s',E'\'',$q$;'$q$);DROP
TABLE identity.user_account--done".

Definition demoItems : list item :=
  let w s := LWord (bytes_of s) in let p c := LPunct c in let sp := GSpace " " in
  [([], w "CREATE"); ([GBlock (BNest ["a"%char] (BDone ["b"%char]) (BDone []))], w "TYPE"); ([sp], w "docs"); ([], p "."%char);
   ([], w "Mood"); ([sp], w "AS"); ([sp], w "Enum"); ([], p "("%char); ([], LString (bytes_of "it's")); ([], p ","%char);
   ([], LEscape "E" [UBackslash quote1]); ([], p ","%char); ([], LDollar ["q"%char] (bytes_of ";'")); ([], p ")"%char); ([], p ";"%char);
   ([], w "DROP"); ([GSpace newline], w "TABLE"); ([sp], w "identity"); ([], p "."%char); ([], w "user_account")].
Definition demoEnd : ending := mkEnding [] (Some (bytes_of "done")).

(** Its two statements. *)
Definition demoType : list token :=
  [word "create"; word "type"; word "docs"; dot; word "mood"; word "as"; word "enum"; mkToken tPunct "(" false; mkToken tString "it's" false;
   mkToken tPunct "," false; mkToken tString "'" false; mkToken tPunct "," false; mkToken tString ";'" false; mkToken tPunct ")" false].
Definition demoDrop : list token := [word "drop"; word "table"; word "identity"; dot; word "user_account"].

Lemma demo_statements : statements_of (token_of id <$> demoItems.*2) [demoType; demoDrop].
Proof.
  change (token_of id <$> demoItems.*2) with (demoType ++ semicolon :: demoDrop).
  apply so_statement; [split; [discriminate|repeat constructor]|]. apply so_last. split; [discriminate|repeat constructor].
Qed.

Lemma scanMigration_layout_witness :
  source demoItems demoEnd = bytes_of demoText /\
  scanMigration id "docs" "" (bytes_of demoText) = Some [CrossSchema "fence" (mkSRef "identity" "user_account" 2)] /\
  ~ Forall (fun st => statement "docs" false st = Some []) [demoType; demoDrop].
Proof.
  assert (Htext : source demoItems demoEnd = bytes_of demoText) by (vm_compute; reflexivity).
  assert (Hwf : wf_source demoItems demoEnd = true) by (vm_compute; reflexivity).
  destruct (scanMigration_layout id "docs" "" demoItems demoEnd [demoType; demoDrop] Hwf demo_statements) as [Hv Hiff].
  rewrite Htext in Hv, Hiff. split; [exact Htext|]. split; [rewrite Hv; vm_compute; reflexivity|].
  intros Hall. apply Hiff in Hall. rewrite Hv in Hall. vm_compute in Hall. discriminate Hall.
Defined.

(** Where the references of a CREATE end. *)
Definition createEnd (ts : list token) : nat :=
  default (length ts) (queryAt ts (kw ts (createKindAt ts)) (refAt ts (createNameAt ts)).2).

(** An accepted CREATE stays inside the module's fence. Its kind is one of the
    listed ones; CREATE SCHEMA names the module's own schema, or idempotently the
    audit schema; any other object (extensions apart) has every qualified name from
    its own name up to its query inside the fence, its own name, where the kind is
    schema scoped, qualified and owned by the module, and no SECURITY DEFINER or
    search_path anywhere. *)
Theorem create_accepted mk g ts :
  kw ts 0 = "create" -> statement mk g ts = Some [] ->
  let knd := kw ts (createKindAt ts) in
  let target := (refAt ts (createNameAt ts)).1 in
  knd ∈ createKinds /\
  (knd = "schema" -> kw ts (createNameAt ts) = mk \/ (kw ts (createNameAt ts) = "audit" /\ ifNotExists ts = true)) /\
  (knd <> "schema" -> knd <> "extension" ->
     (forall j, ~ forbidden_at ts j) /\
     (forall p x y, createNameAt ts <= p -> p < createEnd ts -> qualified ts p x y -> in_fence mk x y) /\
     (knd ∈ schemaScopedKinds -> schema target <> "" /\ in_own mk g (schema target) (rname target))).
Proof.
  intros Hk Hs. unfold statement in Hs. rewrite Hk in Hs. cbn in Hs. injection Hs as Hs. unfold create in Hs.
  set (knd := kw ts (createKindAt ts)) in *. destruct (mem knd createKinds) eqn:Hm; [|done]. cbn [negb] in Hs.
  split; [by apply bool_decide_eq_true in Hm|]. split.
  { intros E. rewrite E in Hs. cbn in Hs. apply app_nil in Hs as [Hs _].
    destruct (seqb (kw ts (createNameAt ts)) mk) eqn:E1; [apply seqb_true in E1; auto|].
    destruct (seqb (kw ts (createNameAt ts)) "audit" && ifNotExists ts) eqn:E2; [|done].
    apply andb_true_iff in E2 as [E2%seqb_true ->]. auto. }
  intros Hns Hne. rewrite (proj2 (seqb_false knd "schema") Hns), (proj2 (seqb_false knd "extension") Hne) in Hs.
  unfold createObject in Hs. unfold createEnd. fold knd.
  destruct (refAt ts (createNameAt ts)) as [target next] eqn:Hr.
  rewrite !app_nil in Hs. destruct Hs as (Hf & Hq & Ht & _ & _ & Hrefs).
  assert (Htarget : schema target <> "" -> checkRef mk g target true = []).
  { intros Hx. by rewrite (proj2 (seqb_false _ _) Hx) in Ht. }
  split; [intros j; by apply forbidAnywhere_nil|]. split.
  - intros p x y. apply (refs_from_name mk g); by rewrite Hr.
  - intros Hss. assert (Hmem : mem knd schemaScopedKinds = true) by (by apply (bool_decide_eq_true _)). rewrite Hmem in Hq.
    simpl in *. destruct (seqb (schema target) "") eqn:E; [done|]. apply seqb_false in E.
    split; [done|]. by apply Htarget, checkRef_nil in E.
Qed.

Lemma create_accepted_witness :
  kw demoType 0 = "create" /\
  forall p x y, createNameAt demoType <= p -> p < createEnd demoType -> qualified demoType p x y -> in_fence "docs" x y.
Proof.
  split; [vm_compute; reflexivity|].
  destruct (create_accepted "docs" false demoType) as (_ & _ & H).
  - vm_compute. reflexivity.
  - vm_compute. reflexivity.
  - destruct H as (_ & H & _); [vm_compute; discriminate|vm_compute; discriminate|]. exact H.
Defined.

(** The index of an ALTER's target: the name, or the table of a trigger or policy. *)
Definition alterTargetAt (ts : list token) : nat :=
  if mem (kw ts (alterKindAt ts)) ["trigger"; "policy"]
  then match findKw "on" ts (refAt ts (alterNameAt ts)).2 with
       | Some j => j + 1
       | None => alterNameAt ts
       end
  else alterNameAt ts.

(** An accepted ALTER changes only the module's own objects: its target is
    qualified and owned, every qualified name from the object's name on is inside
    the fence (triggers and policies are checked from their table on), and it
    neither changes an owner, moves a schema, nor sets SECURITY DEFINER or a
    search_path. *)
Theorem alter_accepted mk g ts :
  kw ts 0 = "alter" -> statement mk g ts = Some [] ->
  let target := (refAt ts (alterTargetAt ts)).1 in
  kw ts (alterKindAt ts) ∈ alterKinds /\ schema target <> "" /\ in_own mk g (schema target) (rname target) /\
  (forall p x y, alterTargetAt ts <= p -> p < length ts -> qualified ts p x y -> in_fence mk x y) /\
  (forall j, ~ forbidden_at ts j) /\
  (forall j, alterNameAt ts <= j -> ~ (kw ts j = "owner" /\ kw ts (j + 1) = "to") /\ ~ (kw ts j = "set" /\ kw ts (j + 1) = "schema")).
Proof.
  intros Hk Hs. unfold statement in Hs. rewrite Hk in Hs. cbn in Hs. injection Hs as Hs. unfold alter in Hs.
  destruct (mem (kw ts (alterKindAt ts)) alterKinds) eqn:Hm; [|done]. cbn [negb] in Hs. cbv zeta.
  split; [by apply bool_decide_eq_true in Hm|].
  assert (Hat : (let '(target0, next0) := refAt ts (alterNameAt ts) in
      if mem (kw ts (alterKindAt ts)) ["trigger"; "policy"] then
        match findKw "on" ts next0 with Some j => refAt ts (j + 1) | None => (target0, next0) end
      else (target0, next0)) = refAt ts (alterTargetAt ts)).
  { unfold alterTargetAt. destruct (refAt ts (alterNameAt ts)) as [t0 n0] eqn:E. simpl. 
    destruct (mem (kw ts (alterKindAt ts)) ["trigger"; "policy"]), (findKw "on" ts n0); congruence. }
  destruct (refAt ts (alterNameAt ts)) as [t0 n0]. rewrite Hat in Hs.
  destruct (refAt ts (alterTargetAt ts)) as [target next] eqn:Hr.
  rewrite !app_nil in Hs. destruct Hs as (Hf & Ha & Ht & Hrefs).
  destruct (seqb (schema target) "") eqn:E; [done|]. apply seqb_false in E.
  split; [done|]. split; [by apply checkRef_nil in Ht|]. split; [|split; [intros j; by apply forbidAnywhere_nil|]].
  - intros p x y. apply (refs_from_name mk g); by rewrite Hr.
  - intros j Hj. unfold alterForbidden in Ha. rewrite mjoin_nil in Ha.
    assert (Hin : kw ts (j + 1) <> "" -> j ∈ seq (alterNameAt ts) (length ts - 1 - alterNameAt ts)).
    { intros Hlt%kw_range. apply elem_of_seq. lia. }
    split; intros [E1 E2]; rewrite E2 in Hin; specialize (Ha j (Hin ltac:(discriminate))); by rewrite E1, E2 in Ha.
Qed.

(** ALTER TABLE docs . page ADD COLUMN n int *)
Definition demoAlter : list token :=
  [word "alter"; word "table"; word "docs"; dot; word "page"; word "add"; word "column"; word "n"; word "int"].

Lemma alter_accepted_witness : in_own "docs" false "docs" "page".
Proof.
  destruct (alter_accepted "docs" false demoAlter) as (_ & _ & H & _).
  - vm_compute. reflexivity.
  - vm_compute. reflexivity.
  - exact H.
Defined.

(** An accepted GRANT or REVOKE is about privileges on objects (it has an ON),
    names no role but the module's own runtime role, never passes a GRANT OPTION
    on, and on named tables, sequences and routines has every target qualified and
    owned by the module. *)
Theorem grant_accepted mk g ts :
  kw ts 0 ∈ ["grant"; "revoke"] -> statement mk g ts = Some [] ->
  exists on, findKw "on" ts 0 = Some on /\
    (forall j r, findKw (if seqb (kw ts 0) "revoke" then "from" else "to") ts on = Some j ->
       r ∈ nameList ts (j + 1) -> r = "kiban_" +:+ mk) /\
    (forall j, ~ (kw ts j = "grant" /\ kw ts (j + 1) = "option")) /\
    (kw ts (on + 1) ∈ ["table"; "sequence"; "function"; "procedure"; "routine"] ->
       (targetList ts (on + 2)).2 = [] /\
       forall r, r ∈ (targetList ts (on + 2)).1 -> in_own mk g (schema r) (rname r)).
Proof.
  intros Hk Hs. assert (Hg : statement mk g ts = Some (grantStatement mk g ts)).
  { unfold statement. rewrite !elem_of_cons, elem_of_nil in Hk. destruct Hk as [->|[->|[]]]; done. }
  rewrite Hg in Hs. injection Hs as Hs. unfold grantStatement in Hs.
  destruct (findKw "on" ts 0) as [on|]; [|done]. exists on. split; [done|].
  rewrite !app_nil in Hs. destruct Hs as (Hopt & Hobj & Hrole). split_and!.
  - intros j r Hj Hr. rewrite Hj in Hrole. rewrite mjoin_nil in Hrole. specialize (Hrole r Hr).
    destruct (seqb r ("kiban_" +:+ mk)) eqn:E; [by apply seqb_true in E|done].
  - rewrite mjoin_nil in Hopt. intros j [E1 E2].
    assert (Hj : j < length ts) by (apply kw_range; by rewrite E1).
    specialize (Hopt j ltac:(apply elem_of_seq; lia)). by rewrite E1, E2 in Hopt.
  - intros Hin. assert (Hct : checkTargets mk g ts (on + 2) = []).
    { replace (on + 2) with (on + 1 + 1) by lia. rewrite !elem_of_cons, elem_of_nil in Hin.
      destruct_or! Hin; rewrite ?Hin in Hobj; done. }
    unfold checkTargets in Hct. destruct (targetList ts (on + 2)) as [rs errs]. apply app_nil in Hct as [-> Hct].
    split; [done|]. intros r Hr. by apply (checkRefs_nil _ _ _ _ r), checkRef_nil in Hct.
Qed.

(** GRANT SELECT ON TABLE docs . page TO kiban_docs *)
Definition demoGrantSQL : list token :=
  [word "grant"; word "select"; word "on"; word "table"; word "docs"; dot; word "page"; word "to"; word "kiban_docs"].

Lemma grant_accepted_witness :
  exists on, findKw "on" demoGrantSQL 0 = Some on /\
    forall j r, findKw "to" demoGrantSQL on = Some j -> r ∈ nameList demoGrantSQL (j + 1) -> r = "kiban_docs".
Proof.
  destruct (grant_accepted "docs" false demoGrantSQL) as (on & Hon & H & _).
  - left.
  - vm_compute. reflexivity.
  - exists on. split; [exact Hon|]. exact H.
Defined.

(** ** Statements the rules do not see through *)

(** A bare COMMENT makes the refusal itself panic. *)
Example comment_panics : statement "docs" false [word "comment"] = None.
Proof. reflexivity. Qed.

(** The elements of a CREATE SCHEMA are not scanned: here a grant on another
    module's table. *)
Example create_schema_elements :
  statement "docs" false
    ([word "create"; word "schema"; word "docs"; word "grant"; word "all"; word "on"; word "identity"; dot; word "user_account";
      word "to"; word "kiban_docs"]) = Some [].
Proof. vm_compute. reflexivity. Qed.

(** Only the first table of a FROM list is seen. *)
Example from_list_tail :
  statement "docs" false
    ([word "insert"; word "into"; word "docs"; dot; word "t"; word "select"; word "x"; word "from"; word "docs"; dot; word "a";
      mkToken tPunct "," false; word "identity"; dot; word "user_account"]) = Some [].
Proof. vm_compute. reflexivity. Qed.

(** ** Texts PostgreSQL reads differently *)

Definition scan_text (l : bytes) : option (list scan_error) := scanMigration id "docs" "" l.

(** PostgreSQL ends a line comment at a carriage return; the scanner reads on to the
    line feed, and what stands in between is dropped unread. *)
Example comment_hides_statement :
  scan_text (bytes_of "-- note" ++ [return_] ++ bytes_of "DROP TABLE identity.user_account;") = Some [].
Proof. vm_compute. reflexivity. Qed.

(** A form feed is white space to PostgreSQL and a punctuation token to the scanner,
    which then sees no table after FROM. *)
Example form_feed_hides_table :
  scan_text (bytes_of "INSERT INTO docs.t SELECT x FROM" ++ [ascii_of_N 12] ++ bytes_of "identity.user_account;") = Some [].
Proof. vm_compute. reflexivity. Qed.

(** A string that continues an E'...' string on a new line keeps its backslash escapes;
    the scanner reads it as a plain string, and takes the statement after it for its
    content. *)
Example continuation_hides_statement :
  scan_text (bytes_of "INSERT INTO docs.t VALUES (E'a'" ++ [newline] ++ bytes_of "'\''); DROP TABLE identity.user_account; --');") = Some [].
Proof. vm_compute. reflexivity. Qed.
