(* ===== verification/Timesheet.v ===== *)
(** * The timesheet store

    modules/timesheet/service: entries, projects, configuration, approver
    assignments and versioned submissions.  A store method runs its reads on the
    pool, then one transaction; the transaction either commits as a whole or leaves
    the tables alone, so it is a function from the tables to an error or to its
    result and the next tables.  The pool reads see an earlier state [db0] of the
    tables: other transactions may commit in between.  Ids are UUIDs as numbers, a
    generated id is an argument; times are seconds since the epoch (UTC) and dates
    are days; hours are decimals, stored as hundredths (numeric(6,2)).  A statement
    that fails ends the call with its error and no change; only the reads whose
    failure the code swallows carry a flag for it.  Columns that no method reads
    (creation times, the assignment's member_kc_sub and assigned_by_kc_sub) are left
    out, and an audit row keeps the actor, the action and the subject's id. *)

From stdpp Require Import base gmap strings list.
From Stdlib Require Import QArith Qround.
From S2P Require Import Prelude GoStrings.
Open Scope Z_scope.

Abbreviation UUID := N.
Abbreviation Day := Z.

(** The statuses the tables' CHECK constraints list. *)
Inductive Status : Type := draft | submitted | approved | rejected.
#[export] Instance Status_eq_dec : EqDecision Status.
Proof. solve_decision. Defined.

Record Entry := mkEntry {
  e_company : UUID;
  e_member : UUID;
  e_project : UUID;
  e_date : Day;
  e_real : Z;
  e_billable : Z;
  e_status : Status
}.

Record Project := mkProject { p_company : UUID; p_code : string; p_name : string; p_status : string }.

(** What a row of timesheet.configuration holds under its company, and what a caller
    may set of it. *)
Record Settings := mkSettings {
  EnforceBillableWithinActual : bool;
  AllowBillableAboveEightHours : bool;
  AllowedPreviousWeeks : Z;
  AllowedFutureWeeks : Z
}.
Record Config := mkConfig { CompanyID : UUID; settings :> Settings }.

Record Submission := mkSubmission {
  s_company : UUID;
  s_member : UUID;
  s_week : Day;
  s_version : Z;
  s_root : UUID;
  s_supersedes : option UUID;
  s_current : bool;
  s_status : Status;
  s_approver : UUID;
  s_approver_sub : string;
  s_by : string;
  s_decided_by : option string;
  s_reason : option string;
  s_key : option string;
  s_hash : option string
}.

(** A row of timesheet.submission_entry. *)
Record Snapshot := mkSnapshot {
  n_submission : UUID;
  n_project : UUID;
  n_code : string;
  n_name : string;
  n_date : Day;
  n_real : Z;
  n_billable : Z
}.

Record AuditRow := mkAudit { a_actor : string; a_action : string; a_subject : UUID }.

Record TS := mkTS {
  entries : gmap UUID Entry;
  projects : gmap UUID Project;
  configs : gmap UUID Settings;
  assignments : gmap (UUID * UUID) (UUID * string);
  submissions : gmap UUID Submission;
  snapshots : list Snapshot;
  auditLog : list AuditRow
}.

Inductive ts_error : Type :=
| ValidationError (field : string)
| ErrConflict
| ErrProjectNotFound
| ErrEntryNotFound
| ErrSubmissionNotFound
| ErrEntryNotDraft
| ErrNoDraftEntries
| ErrNoApproverAssigned
| ErrNotAssignedApprover
| ErrSubmissionSuperseded
| ErrSubmissionNotSubmitted
| ErrIdempotencyConflict
| ErrDatabase.

(** ** Time *)

Definition secondsPerDay : Z := 86400.
Definition dayOf (t : Z) : Day := t / secondsPerDay.
(** [time.Weekday]: 0 is Sunday; day 0 was a Thursday. *)
Definition weekday (d : Day) : Z := (d + 4) mod 7.

(** [isoMonday] *)
Definition isoMonday (t : Z) : Z :=
  let wd := weekday (dayOf t) in
  let wd' := if wd =? 0 then 7 else wd in
  (dayOf t - (wd' - 1)) * secondsPerDay.

Definition addDays (t n : Z) : Z := t + n * secondsPerDay.

(** ** Configuration *)

(** [defaultConfig] *)
Definition defaultConfig (companyID : UUID) : Config := mkConfig companyID (mkSettings true false 4 1).

(** [GetConfig]: any failure of the query, a missing row included, is the default. *)
Definition GetConfig (readFails : bool) (db : TS) (companyID : UUID) : Config :=
  if readFails then defaultConfig companyID
  else match configs db !! companyID with Some s => mkConfig companyID s | None => defaultConfig companyID end.

Definition with_configs (db : TS) (m : gmap UUID Settings) : TS :=
  mkTS (entries db) (projects db) m (assignments db) (submissions db) (snapshots db) (auditLog db).
Definition with_entries (db : TS) (m : gmap UUID Entry) : TS :=
  mkTS m (projects db) (configs db) (assignments db) (submissions db) (snapshots db) (auditLog db).
Definition with_projects (db : TS) (m : gmap UUID Project) : TS :=
  mkTS (entries db) m (configs db) (assignments db) (submissions db) (snapshots db) (auditLog db).
Definition with_assignments (db : TS) (m : gmap (UUID * UUID) (UUID * string)) : TS :=
  mkTS (entries db) (projects db) (configs db) m (submissions db) (snapshots db) (auditLog db).
Definition with_submissions (db : TS) (m : gmap UUID Submission) : TS :=
  mkTS (entries db) (projects db) (configs db) (assignments db) m (snapshots db) (auditLog db).
Definition with_snapshots (db : TS) (l : list Snapshot) : TS :=
  mkTS (entries db) (projects db) (configs db) (assignments db) (submissions db) l (auditLog db).
Definition record (db : TS) (actor action : string) (subject : UUID) : TS :=
  mkTS (entries db) (projects db) (configs db) (assignments db) (submissions db) (snapshots db)
    (auditLog db ++ [mkAudit actor action subject]).

(** [UpdateConfig] *)
Definition UpdateConfig (db : TS) (actor : string) (companyID : UUID) (c : Settings) : result ts_error (Config * TS) :=
  if AllowedPreviousWeeks c <? 0 then Err (ValidationError "allowedPreviousWeeks")
  else if AllowedFutureWeeks c <? 0 then Err (ValidationError "allowedFutureWeeks")
  else Ok (mkConfig companyID c, record (with_configs db (<[companyID := c]> (configs db))) actor "timesheet.config.update" companyID).

(** ** Projects *)

(** [projectCodePattern]: ^[A-Z0-9_-]{1,20}$ *)
Definition codeMatches (code : string) : bool := matchesCode 1 20 code.

(** [validateProject] *)
Definition validateProject (code name status : string) : result ts_error unit :=
  if negb (codeMatches code) then Err (ValidationError "code")
  else if (String.length name <? 1)%nat || (100 <? String.length name)%nat then Err (ValidationError "name")
  else if negb (seqb status "") && negb (seqb status "active") && negb (seqb status "inactive")
  then Err (ValidationError "status")
  else Ok tt.

(** UNIQUE (company_id, code), apart from the row [except]. *)
Definition code_taken (db : TS) (companyID : UUID) (code : string) (except : option UUID) : bool :=
  existsb (fun kv => bool_decide (p_company kv.2 = companyID /\ p_code kv.2 = code /\ Some kv.1 <> except))
    (map_to_list (projects db)).

(** [CreateProject] *)
Definition CreateProject (db : TS) (newID : UUID) (actor : string) (companyID : UUID) (code name status0 : string)
    : result ts_error (UUID * TS) :=
  let status := if seqb status0 "" then "active" else status0 in
  let! _ := validateProject code name status in
  if code_taken db companyID code None then Err ErrConflict
  else if bool_decide (is_Some (projects db !! newID)) then Err ErrConflict
  else
    let p := mkProject companyID code name status in
    Ok (newID, record (with_projects db (<[newID := p]> (projects db))) actor "timesheet.project.create" newID).

(** [UpdateProject] *)
Definition UpdateProject (db : TS) (actor : string) (companyID projectID : UUID) (code name status0 : string)
    : result ts_error (UUID * TS) :=
  let status := if seqb status0 "" then "active" else status0 in
  let! _ := validateProject code name status in
  match projects db !! projectID with
  | Some p =>
      if negb (bool_decide (p_company p = companyID)) then Err ErrProjectNotFound
      else if code_taken db companyID code (Some projectID) then Err ErrConflict
      else
        let p' := mkProject companyID code name status in
        Ok (projectID, record (with_projects db (<[projectID := p']> (projects db))) actor "timesheet.project.update" projectID)
  | None => Err ErrProjectNotFound
  end.

(** [getProject]: any failure of the query is "not found". *)
Definition getProject (readFails : bool) (db : TS) (companyID projectID : UUID) : result ts_error Project :=
  match projects db !! projectID with
  | Some p => if negb readFails && bool_decide (p_company p = companyID) then Ok p else Err ErrProjectNotFound
  | None => Err ErrProjectNotFound
  end.

(** ** Approver assignments *)

(** [RecordApproverAssignment] *)
Definition RecordApproverAssignment (db : TS) (actor : string) (companyID memberID approverMemberID : UUID)
    (approverKcSub : string) : TS :=
  record (with_assignments db (<[(companyID, memberID) := (approverMemberID, approverKcSub)]> (assignments db)))
    actor "timesheet.approver.assign" companyID.

(** [AssignedApprover]: any failure of the query is "no assignment". *)
Definition AssignedApprover (readFails : bool) (db : TS) (companyID memberID : UUID) : option (UUID * string) :=
  if readFails then None else assignments db !! (companyID, memberID).

(** ** Entries *)

(** [validateHours] *)
Definition validateHours (cfg : Config) (real billable : Q) : result ts_error unit :=
  if negb (Qle_bool 0 real) || negb (Qle_bool real 24) then Err (ValidationError "realHours")
  else if negb (Qle_bool 0 billable) || negb (Qle_bool billable 24) then Err (ValidationError "billableHours")
  else if EnforceBillableWithinActual cfg && negb (Qle_bool billable real) then Err (ValidationError "billableHours")
  else if negb (AllowBillableAboveEightHours cfg) && negb (Qle_bool billable 8) then Err (ValidationError "billableHours")
  else Ok tt.

(** numeric(6,2): the value in hundredths, rounded half away from zero (hours are
    not negative here). *)
Definition numeric62 (q : Q) : Z := Qfloor (q * 100 + (1 # 2)).

(** [validateWeekWindow] *)
Definition validateWeekWindow (cfg : Config) (now entryDate : Z) : result ts_error unit :=
  let thisWeek := isoMonday now in
  let entryWeek := isoMonday entryDate in
  let earliest := addDays thisWeek (-7 * AllowedPreviousWeeks cfg) in
  let latest := addDays thisWeek (7 * AllowedFutureWeeks cfg) in
  if (entryWeek <? earliest) || (latest <? entryWeek) then Err (ValidationError "entryDate") else Ok tt.

(** The row of UNIQUE (company_id, member_id, project_id, entry_date). *)
Definition same_slot (companyID memberID projectID : UUID) (d : Day) (e : Entry) : Prop :=
  e_company e = companyID /\ e_member e = memberID /\ e_project e = projectID /\ e_date e = d.
#[export] Instance same_slot_dec c m p d e : Decision (same_slot c m p d e).
Proof. unfold same_slot. apply _. Defined.

Definition find_entry (db : TS) (companyID memberID projectID : UUID) (d : Day) : option (UUID * Entry) :=
  list_find (fun kv => same_slot companyID memberID projectID d kv.2) (map_to_list (entries db)) ≫= (fun x => Some x.2).

(** INSERT ... ON CONFLICT DO UPDATE of [UpsertEntry]; project_id references project. *)
Definition insertEntry (db : TS) (newID : UUID) (actor : string) (e : Entry) : result ts_error (UUID * TS) :=
  match find_entry db (e_company e) (e_member e) (e_project e) (e_date e) with
  | Some (id, _) => Ok (id, record (with_entries db (<[id := e]> (entries db))) actor "timesheet.entry.upsert" id)
  | None =>
      if bool_decide (is_Some (entries db !! newID)) || negb (bool_decide (is_Some (projects db !! e_project e)))
      then Err ErrDatabase
      else Ok (newID, record (with_entries db (<[newID := e]> (entries db))) actor "timesheet.entry.upsert" newID)
  end.

(** [UpsertEntry]; [entryDate] is a day. The pool reads see [db0], the SELECT ... FOR
    UPDATE sees [db1] and the INSERT runs on [db]: the lock holds a row it found,
    but nothing when it found none. *)
Definition UpsertEntry (cfgFails prjFails : bool) (db0 db1 db : TS) (newID : UUID) (now : Z) (actor : string)
    (companyID memberID projectID : UUID) (entryDate : Day) (real billable : Q) : result ts_error (UUID * TS) :=
  let cfg := GetConfig cfgFails db0 companyID in
  let! _ := validateHours cfg real billable in
  let! _ := validateWeekWindow cfg now (entryDate * secondsPerDay) in
  let! _ := getProject prjFails db0 companyID projectID in
  let! _ :=
    match find_entry db1 companyID memberID projectID entryDate with
    | Some (_, old) => if negb (bool_decide (e_status old = draft)) then Err ErrEntryNotDraft else Ok tt
    | None => Ok tt
    end in
  insertEntry db newID actor
    (mkEntry companyID memberID projectID entryDate (numeric62 real) (numeric62 billable) draft).

(** [DeleteEntry] *)
Definition DeleteEntry (db : TS) (actor : string) (companyID memberID entryID : UUID) : result ts_error (unit * TS) :=
  match entries db !! entryID with
  | Some e =>
      if negb (bool_decide (e_company e = companyID /\ e_member e = memberID)) then Err ErrEntryNotFound
      else if negb (bool_decide (e_status e = draft)) then Err ErrEntryNotDraft
      else Ok (tt, record (with_entries db (delete entryID (entries db))) actor "timesheet.entry.delete" entryID)
  | None => Err ErrEntryNotFound
  end.

(** An entry of a member's week. *)
Definition in_week (companyID memberID : UUID) (weekStart : Day) (e : Entry) : Prop :=
  e_company e = companyID /\ e_member e = memberID /\ weekStart <= e_date e < weekStart + 7.
#[export] Instance in_week_dec c m w e : Decision (in_week c m w e).
Proof. unfold in_week. apply _. Defined.

(** [ListEntriesForWeek], in some order. *)
Definition ListEntriesForWeek (db : TS) (companyID memberID : UUID) (weekStart : Day) : list (UUID * Entry) :=
  filter (fun kv => in_week companyID memberID weekStart kv.2) (map_to_list (entries db)).

(** ** Submissions *)

Section submissions.
(** [submissionIdempotencyPayloadHash]: sha256 over the company, the member and the
    week. *)
Context (payloadHash : UUID -> UUID -> Day -> string).

Definition same_week (companyID memberID : UUID) (weekStart : Day) (s : Submission) : Prop :=
  s_company s = companyID /\ s_member s = memberID /\ s_week s = weekStart.
#[export] Instance same_week_dec c m w s : Decision (same_week c m w s).
Proof. unfold same_week. apply _. Defined.

(** [findSubmissionByIdempotencyKey]: the row and its stored hash. *)
Definition findSubmissionByIdempotencyKey (db : TS) (companyID memberID : UUID) (key : string)
    : option (UUID * Submission * string) :=
  list_find (fun kv => s_company kv.2 = companyID /\ s_member kv.2 = memberID /\ s_key kv.2 = Some key)
    (map_to_list (submissions db)) ≫= (fun x => Some (x.2.1, x.2.2, default "" (s_hash x.2.2))).

(** The current version of a week, locked. *)
Definition find_current (db : TS) (companyID memberID : UUID) (weekStart : Day) : option (UUID * Submission) :=
  list_find (fun kv => same_week companyID memberID weekStart kv.2 /\ s_current kv.2 = true)
    (map_to_list (submissions db)) ≫= (fun x => Some x.2).

Definition set_current (b : bool) (s : Submission) : Submission :=
  mkSubmission (s_company s) (s_member s) (s_week s) (s_version s) (s_root s) (s_supersedes s) b (s_status s)
    (s_approver s) (s_approver_sub s) (s_by s) (s_decided_by s) (s_reason s) (s_key s) (s_hash s).

Definition set_entry_status (st : Status) (e : Entry) : Entry :=
  mkEntry (e_company e) (e_member e) (e_project e) (e_date e) (e_real e) (e_billable e) st.

(** The draft rows [SubmitWeek] locks, joined with their projects. *)
Definition is_week_draft (db : TS) (companyID memberID : UUID) (weekStart : Day) (e : Entry) : Prop :=
  in_week companyID memberID weekStart e /\ e_status e = draft /\ is_Some (projects db !! e_project e).
#[export] Instance is_week_draft_dec db c m w e : Decision (is_week_draft db c m w e).
Proof. unfold is_week_draft. apply _. Defined.

Definition week_drafts (db : TS) (companyID memberID : UUID) (weekStart : Day) : list (UUID * Entry) :=
  filter (fun kv => is_week_draft db companyID memberID weekStart kv.2) (map_to_list (entries db)).

Definition snapshot_of (db : TS) (subID : UUID) (e : Entry) : Snapshot :=
  let p := projects db !! e_project e in
  mkSnapshot subID (e_project e) (default "" (p_code <$> p)) (default "" (p_name <$> p)) (e_date e) (e_real e) (e_billable e).

(** A key another submission of the member already carries. *)
Definition key_taken (db : TS) (companyID memberID : UUID) (key : option string) : bool :=
  match key with
  | None => false
  | Some k => bool_decide (is_Some (findSubmissionByIdempotencyKey db companyID memberID k))
  end.

(** The row [SubmitWeek] inserts: the version after the current one, or a first
    version under a new root. *)
Definition newSubmission (db : TS) (newRoot : UUID) (actorKcSub : string) (companyID memberID : UUID)
    (weekStart : Day) (idempotencyKey : string) (approver : UUID * string) : Submission :=
  let prev := find_current db companyID memberID weekStart in
  let versionNumber := match prev with Some (_, p) => s_version p + 1 | None => 1 end in
  let rootID := match prev with Some (_, p) => s_root p | None => newRoot end in
  let key := if seqb idempotencyKey "" then None else Some idempotencyKey in
  let hash := if seqb idempotencyKey "" then None else Some (payloadHash companyID memberID weekStart) in
  mkSubmission companyID memberID weekStart versionNumber rootID (fst <$> prev) true submitted
    approver.1 approver.2 actorKcSub None None key hash.

(** The transaction of [SubmitWeek], with the approver the pool read found. *)
Definition submitTx (db : TS) (newID newRoot : UUID) (actorKcSub : string) (companyID memberID : UUID)
    (weekStart : Day) (idempotencyKey : string) (approver : UUID * string) : result ts_error (UUID * TS) :=
  let drafts := week_drafts db companyID memberID weekStart in
  if (length drafts =? 0)%nat then Err ErrNoDraftEntries
  else
    let subs := match find_current db companyID memberID weekStart with
                | Some (pid, p) => <[pid := set_current false p]> (submissions db)
                | None => submissions db
                end in
    let sub := newSubmission db newRoot actorKcSub companyID memberID weekStart idempotencyKey approver in
    if key_taken db companyID memberID (s_key sub) || bool_decide (is_Some (submissions db !! newID))
    then Err ErrConflict
    else
      let db1 := with_submissions db (<[newID := sub]> subs) in
      let db2 := with_snapshots db1 (snapshots db ++ ((fun kv => snapshot_of db newID kv.2) <$> drafts)) in
      let db3 := with_entries db2
        ((fun e => if decide (is_week_draft db companyID memberID weekStart e) then set_entry_status submitted e else e)
           <$> entries db) in
      Ok (newID, record db3 actorKcSub "timesheet.submission.submit" newID).

(** [SubmitWeek]: the pool reads see [db0], the transaction runs on [db]; the flag
    says whether a submission was created. *)
Definition SubmitWeek (asgFails : bool) (db0 db : TS) (newID newRoot : UUID) (actorKcSub : string)
    (companyID memberID : UUID) (weekStart : Day) (idempotencyKey : string) : result ts_error (UUID * bool * TS) :=
  let create :=
    match AssignedApprover asgFails db0 companyID memberID with
    | None => Err ErrNoApproverAssigned
    | Some approver =>
        let! r := submitTx db newID newRoot actorKcSub companyID memberID weekStart idempotencyKey approver in
        Ok (r.1, true, r.2)
    end in
  if negb (seqb idempotencyKey "") then
    match findSubmissionByIdempotencyKey db0 companyID memberID idempotencyKey with
    | Some (id, _, existingHash) =>
        if negb (seqb existingHash (payloadHash companyID memberID weekStart)) then Err ErrIdempotencyConflict
        else Ok (id, false, db)
    | None => create
    end
  else create.

Definition decided (actorKcSub : string) (approve : bool) (reason : string) (s : Submission) : Submission :=
  mkSubmission (s_company s) (s_member s) (s_week s) (s_version s) (s_root s) (s_supersedes s) (s_current s)
    (if approve then approved else rejected) (s_approver s) (s_approver_sub s) (s_by s) (Some actorKcSub)
    (if approve then None else Some reason) (s_key s) (s_hash s).

(** [decideSubmission] *)
Definition decideSubmission (db : TS) (actorKcSub : string) (companyID submissionID : UUID) (approve : bool)
    (reason : string) : result ts_error (unit * TS) :=
  match submissions db !! submissionID with
  | None => Err ErrSubmissionNotFound
  | Some s =>
      if negb (bool_decide (s_company s = companyID)) then Err ErrSubmissionNotFound
      else if negb (seqb (s_approver_sub s) actorKcSub) then Err ErrNotAssignedApprover
      else if negb (s_current s) then Err ErrSubmissionSuperseded
      else if negb (bool_decide (s_status s = submitted)) then Err ErrSubmissionNotSubmitted
      else if negb approve && seqb reason "" then Err (ValidationError "reason")
      else
        let db1 := with_submissions db (<[submissionID := decided actorKcSub approve reason s]> (submissions db)) in
        let db2 := with_entries db1
          ((fun e => if decide (in_week companyID (s_member s) (s_week s) e /\ e_status e = submitted)
                     then set_entry_status (if approve then approved else draft) e else e) <$> entries db) in
        Ok (tt, record db2 actorKcSub (if approve then "timesheet.submission.approve" else "timesheet.submission.reject")
                  submissionID)
  end.

(** [ApproveSubmission] and [RejectSubmission] *)
Definition ApproveSubmission (db : TS) (actorKcSub : string) (companyID submissionID : UUID) :=
  decideSubmission db actorKcSub companyID submissionID true "".
Definition RejectSubmission (db : TS) (actorKcSub : string) (companyID submissionID : UUID) (reason : string) :=
  decideSubmission db actorKcSub companyID submissionID false reason.

(** [GetSubmission] *)
Definition GetSubmission (db : TS) (companyID submissionID : UUID) : result ts_error Submission :=
  match submissions db !! submissionID with
  | Some s => if bool_decide (s_company s = companyID) then Ok s else Err ErrSubmissionNotFound
  | None => Err ErrSubmissionNotFound
  end.

(** ** The store as a transition system *)

(** One committed call, whatever earlier state its pool reads saw; the statements
    of its transaction see one state. *)
Inductive step : TS -> TS -> Prop :=
| step_config db actor cid c c' db' : UpdateConfig db actor cid c = Ok (c', db') -> step db db'
| step_create_project db id actor cid code name st id' db' :
    CreateProject db id actor cid code name st = Ok (id', db') -> step db db'
| step_update_project db actor cid pid code name st id' db' :
    UpdateProject db actor cid pid code name st = Ok (id', db') -> step db db'
| step_assign db actor cid m a sub : step db (RecordApproverAssignment db actor cid m a sub)
| step_upsert f1 f2 db0 db id now actor cid m p d real bill id' db' :
    UpsertEntry f1 f2 db0 db db id now actor cid m p d real bill = Ok (id', db') -> step db db'
| step_delete db actor cid m e db' : DeleteEntry db actor cid m e = Ok (tt, db') -> step db db'
| step_submit f db0 db id root actor cid m w key id' created db' :
    SubmitWeek f db0 db id root actor cid m w key = Ok (id', created, db') -> step db db'
| step_decide db actor cid sid approve reason db' :
    decideSubmission db actor cid sid approve reason = Ok (tt, db') -> step db db'.
End submissions.
