(* ===== verification/TimesheetProps.v ===== *)
(** * Properties of the timesheet store

    Invariants of the tables over every sequence of committed calls, and the
    guarantees of the submission workflow. *)

From stdpp Require Import base gmap strings list relations pretty.
From Stdlib Require Import QArith Qround Lqa.
From S2P Require Import Prelude Timesheet.
Open Scope Z_scope.

(** ** Finding rows *)

Lemma find_row_Some {A} (P : UUID * A -> Prop) `{forall x, Decision (P x)} (m : gmap UUID A) kv :
  (list_find P (map_to_list m) ≫= (fun x => Some x.2)) = Some kv -> m !! kv.1 = Some kv.2 /\ P kv.
Proof.
  intros ([n x] & Hf & [= <-])%bind_Some. apply list_find_Some in Hf as (Hl & HP & _).
  split; [|done]. apply elem_of_map_to_list. rewrite <- surjective_pairing. by eapply list_elem_of_lookup_2.
Qed.

Lemma find_row_None {A} (P : UUID * A -> Prop) `{forall x, Decision (P x)} (m : gmap UUID A) id a :
  (list_find P (map_to_list m) ≫= (fun x => Some x.2)) = None -> m !! id = Some a -> ~ P (id, a).
Proof.
  intros Hf Ha HP. apply bind_None in Hf as [Hf|(x & _ & [=])]. apply list_find_None in Hf.
  rewrite Forall_forall in Hf. apply (Hf (id, a)); [by apply elem_of_map_to_list|done].
Qed.

Section props.
Context (payloadHash : UUID -> UUID -> Day -> string).

Lemma findKey_Some db c m k id s h :
  findSubmissionByIdempotencyKey db c m k = Some (id, s, h) ->
  submissions db !! id = Some s /\ s_company s = c /\ s_member s = m /\ s_key s = Some k /\ h = default "" (s_hash s).
Proof.
  unfold findSubmissionByIdempotencyKey. intros ([n [id' s']] & Hf & [= <- <- <-])%bind_Some. simpl in *.
  apply list_find_Some in Hf as (Hl & HP & _). simpl in HP. split; [|naive_solver].
  apply elem_of_map_to_list. by eapply list_elem_of_lookup_2.
Qed.

Lemma findKey_None db c m k id s :
  findSubmissionByIdempotencyKey db c m k = None -> submissions db !! id = Some s ->
  ~ (s_company s = c /\ s_member s = m /\ s_key s = Some k).
Proof.
  unfold findSubmissionByIdempotencyKey. intros Hf Hs HP. apply bind_None in Hf as [Hf|(x & _ & [=])].
  apply list_find_None in Hf. rewrite Forall_forall in Hf.
  apply (Hf (id, s)); [by apply elem_of_map_to_list|done].
Qed.

(** ** What a submit does to the tables *)

(** The fields a submission never loses. *)
Definition wk (s : Submission) : UUID * UUID * Day := (s_company s, s_member s, s_week s).

Lemma submitTx_ok db newID newRoot actor c m w key a id db' :
  submitTx payloadHash db newID newRoot actor c m w key a = Ok (id, db') ->
  id = newID /\ submissions db !! newID = None /\
  key_taken db c m (if seqb key "" then None else Some key) = false /\
  (exists e, exists eid, entries db !! eid = Some e /\ is_week_draft db c m w e) /\
  exists sub, wk sub = (c, m, w) /\ s_current sub = true /\ s_status sub = submitted /\
    s_key sub = (if seqb key "" then None else Some key) /\
    s_hash sub = (if seqb key "" then None else Some (payloadHash c m w)) /\ s_approver_sub sub = a.2 /\
    match find_current db c m w with
    | Some (pid, p) =>
        s_version sub = s_version p + 1 /\ s_root sub = s_root p /\ s_supersedes sub = Some pid /\
        submissions db' = <[newID := sub]> (<[pid := set_current false p]> (submissions db))
    | None =>
        s_version sub = 1 /\ s_supersedes sub = None /\ submissions db' = <[newID := sub]> (submissions db)
    end /\
    entries db' = (fun e => if decide (is_week_draft db c m w e) then set_entry_status submitted e else e) <$> entries db.
Proof.
  unfold submitTx. destruct (length (week_drafts db c m w) =? 0)%nat eqn:Hlen; [done|].
  destruct (key_taken db c m _ || _) eqn:Hk; [done|]. apply orb_false_iff in Hk as [Hk Hid].
  apply bool_decide_eq_false in Hid. intros [= <- <-]. split; [done|].
  split; [by apply eq_None_not_Some|]. split; [done|]. split.
  { apply Nat.eqb_neq in Hlen. unfold week_drafts in Hlen.
    destruct (filter _ _) as [|[eid e] l] eqn:E; [done|].
    assert (Hin : (eid, e) ∈ filter (fun kv => is_week_draft db c m w kv.2) (map_to_list (entries db))) by (rewrite E; left).
    apply list_elem_of_filter in Hin as [Hd Hin%elem_of_map_to_list]. exists e, eid. done. }
  exists (newSubmission payloadHash db newRoot actor c m w key a). do 6 (split; [reflexivity|]). split; [|done].
  unfold newSubmission. destruct (find_current db c m w) as [[pid p]|]; simpl; done.
Qed.

(** ** The version chain *)

Record versions_ok (subs : gmap UUID Submission) : Prop := {
  vo_current : forall i j si sj, subs !! i = Some si -> subs !! j = Some sj -> wk si = wk sj ->
    s_current si = true -> s_current sj = true -> i = j;
  vo_max : forall i si, subs !! i = Some si ->
    exists j sj, subs !! j = Some sj /\ wk sj = wk si /\ s_current sj = true /\ s_version si <= s_version sj;
  vo_unique : forall i j si sj, subs !! i = Some si -> subs !! j = Some sj -> wk si = wk sj ->
    s_version si = s_version sj -> i = j;
  vo_chain : forall i si, subs !! i = Some si ->
    match s_supersedes si with
    | None => s_version si = 1
    | Some p => exists sp, subs !! p = Some sp /\ wk sp = wk si /\ s_root sp = s_root si /\
        s_version si = s_version sp + 1 /\ s_current sp = false
    end
}.

Lemma versions_ok_empty : versions_ok ∅.
Proof. split; intros *; rewrite lookup_empty; done. Qed.

Lemma find_current_Some db c m w pid p :
  find_current db c m w = Some (pid, p) ->
  submissions db !! pid = Some p /\ wk p = (c, m, w) /\ s_current p = true.
Proof.
  intros H. apply (find_row_Some _ (submissions db) (pid, p)) in H as [H ((E1 & E2 & E3) & Hc)]. simpl in *.
  split; [done|]. split; [|done]. unfold wk. by rewrite E1, E2, E3.
Qed.

Lemma find_current_None db c m w id s :
  find_current db c m w = None -> submissions db !! id = Some s -> wk s = (c, m, w) -> s_current s = false.
Proof.
  intros H Hs [= E1 E2 E3]. eapply find_row_None in H; [|exact Hs]. simpl in H. unfold same_week in H.
  destruct (s_current s); [|done]. exfalso. by apply H.
Qed.

(** A first version. *)
Lemma versions_first subs newID sub :
  versions_ok subs -> subs !! newID = None -> (forall i s, subs !! i = Some s -> wk s <> wk sub) ->
  s_version sub = 1 -> s_supersedes sub = None -> s_current sub = true ->
  versions_ok (<[newID := sub]> subs).
Proof.
  intros [Hc Hm Hu Hch] Hnew Hno Hv Hs Hcur. split.
  - intros i j si sj. rewrite !lookup_insert_Some. intros [[<- <-]|[Hi Hsi]] [[<- <-]|[Hj Hsj]] Hw H1 H2; eauto.
    + by edestruct Hno.
    + by edestruct Hno.
  - intros i si. rewrite lookup_insert_Some. intros [[<- <-]|[Hi Hsi]].
    + exists newID, sub. rewrite lookup_insert_eq. done.
    + destruct (Hm i si Hsi) as (j & sj & Hsj & ?). exists j, sj. rewrite lookup_insert_ne; [done|].
      intros <-. congruence.
  - intros i j si sj. rewrite !lookup_insert_Some. intros [[<- <-]|[Hi Hsi]] [[<- <-]|[Hj Hsj]] Hw H1; eauto.
    + by edestruct Hno.
    + by edestruct Hno.
  - intros i si. rewrite lookup_insert_Some. intros [[<- <-]|[Hi Hsi]]; [by rewrite Hs|].
    pose proof (Hch i si Hsi) as H. destruct (s_supersedes si) as [p|]; [|done].
    destruct H as (sp & Hsp & ?). exists sp. rewrite lookup_insert_ne; [done|]. intros <-. congruence.
Qed.

(** A version that supersedes the current one. *)
Lemma versions_next subs newID sub pid p :
  versions_ok subs -> subs !! newID = None -> subs !! pid = Some p -> wk p = wk sub -> s_current p = true ->
  s_version sub = s_version p + 1 -> s_root sub = s_root p -> s_supersedes sub = Some pid -> s_current sub = true ->
  versions_ok (<[newID := sub]> (<[pid := set_current false p]> subs)).
Proof.
  intros [Hc Hm Hu Hch] Hnew Hp Hwp Hcp Hv Hr Hs Hcur.
  assert (Hne : newID <> pid) by (intros ->; congruence).
  set (subs' := <[newID := sub]> (<[pid := set_current false p]> subs)).
  assert (Hold : forall i s, i <> newID -> subs' !! i = Some s ->
    exists s0, subs !! i = Some s0 /\ wk s = wk s0 /\ s_version s = s_version s0 /\ s_root s = s_root s0 /\
      s_supersedes s = s_supersedes s0 /\ (s_current s = true -> s_current s0 = true /\ i <> pid)).
  { intros i s Hi. unfold subs'. rewrite lookup_insert_ne by done. rewrite lookup_insert_Some.
    intros [[<- <-]|[Hip Hsi]]; [exists p|exists s]; repeat split; auto; done. }
  assert (Hnew' : subs' !! newID = Some sub) by apply lookup_insert_eq.
  assert (Hmax : forall i s0, subs !! i = Some s0 -> wk s0 = wk sub -> s_version s0 <= s_version p).
  { intros i s0 Hi Hw. destruct (Hm i s0 Hi) as (j & sj & Hj & Hwj & Hcj & Hle).
    assert (j = pid) as -> by (eapply Hc; eauto; congruence). simplify_eq. done. }
  assert (Hkeep : forall i s0, subs !! i = Some s0 -> exists s, subs' !! i = Some s /\ wk s = wk s0 /\
      s_version s = s_version s0 /\ s_root s = s_root s0 /\ s_current s = (if decide (i = pid) then false else s_current s0)).
  { intros i s0 Hi. unfold subs'. rewrite lookup_insert_ne by (intros <-; congruence).
    destruct (decide (i = pid)) as [->|Hip].
    - rewrite lookup_insert_eq. simplify_eq. eexists. split; [done|]. done.
    - rewrite lookup_insert_ne by done. exists s0. done. }
  split.
  - intros i j si sj Hi Hj Hw H1 H2.
    destruct (decide (i = newID)) as [->|Hin], (decide (j = newID)) as [->|Hjn]; [done| | |].
    + exfalso. rewrite Hnew' in Hi. injection Hi as <-. destruct (Hold j sj Hjn Hj) as (s0 & Hs0 & Hw0 & _ & _ & _ & Hc0).
      destruct (Hc0 H2) as [Hc1 Hjp]. apply Hjp. eapply Hc; eauto. congruence.
    + exfalso. rewrite Hnew' in Hj. injection Hj as <-. destruct (Hold i si Hin Hi) as (s0 & Hs0 & Hw0 & _ & _ & _ & Hc0).
      destruct (Hc0 H1) as [Hc1 Hjp]. apply Hjp. eapply Hc; eauto. congruence.
    + destruct (Hold i si Hin Hi) as (s0 & Hs0 & Hw0 & _ & _ & _ & Hc0), (Hold j sj Hjn Hj) as (t0 & Ht0 & Hw1 & _ & _ & _ & Hc1).
      eapply Hc; [exact Hs0|exact Ht0|congruence|by apply Hc0|by apply Hc1].
  - intros i si Hi. destruct (decide (i = newID)) as [->|Hin].
    { exists newID, sub. rewrite Hnew' in Hi. injection Hi as <-. done. }
    destruct (Hold i si Hin Hi) as (s0 & Hs0 & Hw0 & Hv0 & _).
    destruct (decide (wk s0 = wk sub)) as [Hw|Hw].
    + exists newID, sub. split; [done|]. split; [congruence|]. split; [done|]. pose proof (Hmax i s0 Hs0 Hw). lia.
    + destruct (Hm i s0 Hs0) as (j & sj & Hsj & Hwj & Hcj & Hle).
      destruct (Hkeep j sj Hsj) as (s & Hs' & Hws & Hvs & _ & Hcs). exists j, s.
      rewrite decide_False in Hcs by (intros ->; assert (sj = p) by congruence; subst sj; congruence).
      split; [done|]. split; [congruence|]. split; [congruence|]. lia.
  - intros i j si sj Hi Hj Hw Hver.
    destruct (decide (i = newID)) as [->|Hin], (decide (j = newID)) as [->|Hjn]; [done| | |].
    + exfalso. rewrite Hnew' in Hi. injection Hi as <-. destruct (Hold j sj Hjn Hj) as (s0 & Hs0 & Hw0 & Hv0 & _).
      pose proof (Hmax j s0 Hs0 ltac:(congruence)). lia.
    + exfalso. rewrite Hnew' in Hj. injection Hj as <-. destruct (Hold i si Hin Hi) as (s0 & Hs0 & Hw0 & Hv0 & _).
      pose proof (Hmax i s0 Hs0 ltac:(congruence)). lia.
    + destruct (Hold i si Hin Hi) as (s0 & Hs0 & Hw0 & Hv0 & _), (Hold j sj Hjn Hj) as (t0 & Ht0 & Hw1 & Hv1 & _).
      eapply Hu; [exact Hs0|exact Ht0|congruence|lia].
  - intros i si Hi. destruct (decide (i = newID)) as [->|Hin].
    { rewrite Hnew' in Hi. injection Hi as <-. rewrite Hs. destruct (Hkeep pid p Hp) as (s & Hs' & Hws & Hvs & Hrs & Hcs).
      rewrite decide_True in Hcs by done. exists s. split; [done|]. split; [congruence|]. split; [congruence|]. split; [lia|done]. }
    destruct (Hold i si Hin Hi) as (s0 & Hs0 & Hw0 & Hv0 & Hr0 & Hsup & _). rewrite Hsup. pose proof (Hch i s0 Hs0) as Hx.
    destruct (s_supersedes s0) as [q|]; [|lia]. destruct Hx as (sp & Hsp & Hwq & Hrq & Hvq & Hcq).
    destruct (Hkeep q sp Hsp) as (s & Hs' & Hws & Hvs & Hrs & Hcs). exists s.
    split; [done|]. split; [congruence|]. split; [congruence|]. split; [lia|]. rewrite Hcs. by case_decide.
Qed.

(** ** Steps *)

Lemma SubmitWeek_ok f db0 db id root actor c m w key id' created db' :
  SubmitWeek payloadHash f db0 db id root actor c m w key = Ok (id', created, db') ->
  (created = false /\ db' = db) \/
  (created = true /\ exists a, submitTx payloadHash db id root actor c m w key a = Ok (id', db')).
Proof.
  unfold SubmitWeek. set (create := match AssignedApprover _ _ _ _ with Some _ => _ | None => _ end).
  assert (Hcreate : create = Ok (id', created, db') ->
    created = true /\ exists a, submitTx payloadHash db id root actor c m w key a = Ok (id', db')).
  { unfold create. destruct (AssignedApprover f db0 c m) as [a|]; [|done].
    intros ([i d] & Htx & [= <- <- <-])%result_bind_ok. split; [done|]. by exists a. }
  destruct (negb (seqb key "")); [|by auto].
  destruct (findSubmissionByIdempotencyKey db0 c m key) as [[[i s] h]|]; [|by auto].
  destruct (negb (seqb h (payloadHash c m w))); [done|]. intros [= <- <- <-]. by left.
Qed.

Lemma decideSubmission_ok db actor c sid approve reason db' :
  decideSubmission db actor c sid approve reason = Ok (tt, db') ->
  exists s, submissions db !! sid = Some s /\ s_company s = c /\ s_approver_sub s = actor /\ s_current s = true /\
    s_status s = submitted /\ (approve = false -> reason <> "") /\
    submissions db' = <[sid := decided actor approve reason s]> (submissions db) /\
    entries db' = (fun e => if decide (in_week c (s_member s) (s_week s) e /\ e_status e = submitted)
                            then set_entry_status (if approve then approved else draft) e else e) <$> entries db.
Proof.
  unfold decideSubmission. destruct (submissions db !! sid) as [s|]; [|done].
  case_bool_decide as Hc; [|done]. simpl. destruct (seqb (s_approver_sub s) actor) eqn:Ha; [|done]. apply seqb_true in Ha.
  destruct (s_current s) eqn:Hcur; [|done]. simpl. case_bool_decide as Hst; [|done]. simpl.
  destruct (negb approve && seqb reason "") eqn:Hr; [done|]. intros [= <-]. exists s.
  repeat (split; [done|]). split; [|done]. intros ->. simpl in Hr. by apply seqb_false.
Qed.

(** Every step either keeps the submissions, submits or decides. *)
Lemma step_submissions db db' :
  step payloadHash db db' ->
  submissions db' = submissions db \/
  (exists id root actor c m w key a i, submitTx payloadHash db id root actor c m w key a = Ok (i, db')) \/
  (exists actor c sid approve reason, decideSubmission db actor c sid approve reason = Ok (tt, db')).
Proof.
  intros [db0 actor cid c c' db1 H|db0 id actor cid code name st id' db1 H|db0 actor cid pid code name st id' db1 H
         |db0 actor cid m a sub|f1 f2 db0 db2 id now actor cid m p d real bill id' db1 H|db0 actor cid m e db1 H
         |f db0 db2 id root actor cid m w key id' created db1 H|db0 actor cid sid approve reason db1 H].
  - left. unfold UpdateConfig in H. repeat case_match; naive_solver.
  - left. unfold CreateProject in H. apply result_bind_ok in H as (? & _ & H). repeat case_match; naive_solver.
  - left. unfold UpdateProject in H. apply result_bind_ok in H as (? & _ & H). repeat case_match; naive_solver.
  - by left.
  - left. unfold UpsertEntry in H. do 4 (apply result_bind_ok in H as (? & _ & H)).
    unfold insertEntry in H. repeat case_match; naive_solver.
  - left. unfold DeleteEntry in H. repeat case_match; naive_solver.
  - apply SubmitWeek_ok in H as [[_ ->]|[_ [a H]]]; [by left|]. right. left. by repeat eexists.
  - right. right. by repeat eexists.
Qed.

Lemma decided_wk actor approve reason s : wk (decided actor approve reason s) = wk s.
Proof. done. Qed.

(** Deciding changes no field of the chain. *)
Lemma versions_decide subs sid s actor approve reason :
  versions_ok subs -> subs !! sid = Some s -> versions_ok (<[sid := decided actor approve reason s]> subs).
Proof.
  intros [Hc Hm Hu Hch] Hs.
  assert (Hold : forall i x, <[sid := decided actor approve reason s]> subs !! i = Some x ->
    exists x0, subs !! i = Some x0 /\ wk x = wk x0 /\ s_version x = s_version x0 /\ s_root x = s_root x0 /\
      s_supersedes x = s_supersedes x0 /\ s_current x = s_current x0).
  { intros i x. rewrite lookup_insert_Some. intros [[<- <-]|[_ Hx]]; [by exists s|by exists x]. }
  assert (Hkeep : forall i x0, subs !! i = Some x0 -> exists x, <[sid := decided actor approve reason s]> subs !! i = Some x /\
    wk x = wk x0 /\ s_version x = s_version x0 /\ s_root x = s_root x0 /\ s_current x = s_current x0).
  { intros i x0 Hi. destruct (decide (i = sid)) as [->|Hne].
    - rewrite lookup_insert_eq. eexists. split; [done|]. simplify_eq. done.
    - rewrite lookup_insert_ne by done. by exists x0. }
  split.
  - intros i j si sj (a & Ha & Hwa & _ & _ & _ & Hca)%Hold (b & Hb & Hwb & _ & _ & _ & Hcb)%Hold Hw H1 H2.
    eapply Hc; eauto; congruence.
  - intros i si (a & Ha & Hwa & Hva & _)%Hold. destruct (Hm i a Ha) as (j & sj & Hj & Hwj & Hcj & Hle).
    destruct (Hkeep j sj Hj) as (x & Hx & Hwx & Hvx & _ & Hcx). exists j, x.
    split; [done|]. split; [congruence|]. split; [congruence|]. lia.
  - intros i j si sj (a & Ha & Hwa & Hva & _)%Hold (b & Hb & Hwb & Hvb & _)%Hold Hw H1.
    eapply Hu; [exact Ha|exact Hb|congruence|lia].
  - intros i si (a & Ha & Hwa & Hva & Hra & Hsa & _)%Hold. rewrite Hsa. pose proof (Hch i a Ha) as Hx.
    destruct (s_supersedes a) as [q|]; [|lia]. destruct Hx as (sp & Hsp & Hwq & Hrq & Hvq & Hcq).
    destruct (Hkeep q sp Hsp) as (x & Hx & Hwx & Hvx & Hrx & Hcx). exists x.
    split; [done|]. split; [congruence|]. split; [congruence|]. split; [lia|congruence].
Qed.

Lemma step_versions db db' : step payloadHash db db' -> versions_ok (submissions db) -> versions_ok (submissions db').
Proof.
  intros [->|[(id & root & actor & c & m & w & key & a & i & H)|(actor & c & sid & ap & reason & H)]]%step_submissions Hok; [done| |].
  - apply submitTx_ok in H as (_ & Hnew & _ & _ & sub & Hw & Hcur & _ & _ & _ & _ & Hprev & _).
    destruct (find_current db c m w) as [[pid p]|] eqn:Hf.
    + apply find_current_Some in Hf as (Hp & Hwp & Hcp). destruct Hprev as (Hv & Hr & Hs & ->).
      apply versions_next; auto. congruence.
    + destruct Hprev as (Hv & Hs & ->). apply versions_first; auto. intros j s Hj Hwj.
      destruct (vo_max _ Hok j s Hj) as (k & sk & Hk & Hwk & Hck & _).
      rewrite (find_current_None db c m w k sk Hf Hk) in Hck; [done|congruence].
  - apply decideSubmission_ok in H as (s & Hs & _ & _ & _ & _ & _ & -> & _). by apply versions_decide.
Qed.

(** ** Entries *)

Lemma find_entry_Some db c m p d id e :
  find_entry db c m p d = Some (id, e) -> entries db !! id = Some e /\ same_slot c m p d e.
Proof. intros H. by apply (find_row_Some _ (entries db) (id, e)) in H. Qed.

Lemma insertEntry_ok db nid actor e id db' :
  insertEntry db nid actor e = Ok (id, db') ->
  entries db' = <[id := e]> (entries db) /\ submissions db' = submissions db /\
  ((exists old, find_entry db (e_company e) (e_member e) (e_project e) (e_date e) = Some (id, old)) \/
   (entries db !! id = None /\ is_Some (projects db !! e_project e))).
Proof.
  unfold insertEntry. intros H.
  destruct (find_entry db (e_company e) (e_member e) (e_project e) (e_date e)) as [[i old]|].
  - injection H as <- <-. eauto.
  - case_bool_decide as Hn; [done|]. case_bool_decide as Hp; [|done]. injection H as <- <-.
    rewrite <- eq_None_not_Some in Hn. auto.
Qed.

(** An entry that is neither a draft nor submitted never changes again. *)
Lemma step_entry_final db db' id e :
  step payloadHash db db' -> entries db !! id = Some e -> e_status e = approved -> entries db' !! id = Some e.
Proof.
  intros [db0 actor cid c c' db1 H|db0 nid actor cid code name st id' db1 H|db0 actor cid pid code name st id' db1 H
         |db0 actor cid m a sub|f1 f2 db0 db2 nid now actor cid m p d real bill id' db1 H|db0 actor cid m eid db1 H
         |f db0 db2 nid root actor cid m w key id' created db1 H|db0 actor cid sid approve reason db1 H] He Hst.
  - unfold UpdateConfig in H. repeat case_match; naive_solver.
  - unfold CreateProject in H. apply result_bind_ok in H as (? & _ & H). repeat case_match; naive_solver.
  - unfold UpdateProject in H. apply result_bind_ok in H as (? & _ & H). repeat case_match; naive_solver.
  - done.
  - unfold UpsertEntry in H. do 3 (apply result_bind_ok in H as (? & _ & H)). apply result_bind_ok in H as (? & Hlock & H).
    apply insertEntry_ok in H as (-> & _ & [[old Hf]|[Hn _]]); (rewrite lookup_insert_ne; [done|]); intros ->.
    + simpl in Hf. rewrite Hf in Hlock. apply find_entry_Some in Hf as [Hold _].
      case_bool_decide; [|done]. simplify_eq. congruence.
    + congruence.
  - unfold DeleteEntry in H. destruct (entries db0 !! eid) as [x|] eqn:Hx; [|done].
    case_bool_decide; [|done]. simpl in H. case_bool_decide as Hd; [|done]. injection H as <-. simpl.
    rewrite lookup_delete_ne; [done|]. intros ->. simplify_eq. congruence.
  - apply SubmitWeek_ok in H as [[_ ->]|[_ [a H]]]; [done|].
    apply submitTx_ok in H as (_ & _ & _ & _ & sub & _ & _ & _ & _ & _ & _ & _ & ->).
    rewrite lookup_fmap, He. simpl. rewrite decide_False; [done|]. intros (_ & Hd & _). congruence.
  - apply decideSubmission_ok in H as (s & _ & _ & _ & _ & _ & _ & _ & ->).
    rewrite lookup_fmap, He. simpl. rewrite decide_False; [done|]. intros [_ Hd]. congruence.
Qed.

(** ** Submissions keep their key and their decision *)

Definition sub_keeps (s s' : Submission) : Prop :=
  wk s' = wk s /\ s_version s' = s_version s /\ s_key s' = s_key s /\ s_hash s' = s_hash s /\
  (s_status s <> submitted -> s_status s' = s_status s /\ s_reason s' = s_reason s) /\
  (s_current s = false -> s_current s' = false).

Lemma step_submission_kept db db' id s :
  step payloadHash db db' -> submissions db !! id = Some s ->
  exists s', submissions db' !! id = Some s' /\ sub_keeps s s'.
Proof.
  intros [->|[(nid & root & actor & c & m & w & key & a & i & H)|(actor & c & sid & ap & reason & H)]]%step_submissions Hs.
  - exists s. done.
  - apply submitTx_ok in H as (_ & Hnew & _ & _ & sub & Hw & _ & _ & _ & _ & _ & Hprev & _).
    assert (Hne : id <> nid) by (intros ->; congruence).
    destruct (find_current db c m w) as [[pid p]|] eqn:Hf.
    + apply find_current_Some in Hf as (Hp & _ & _). destruct Hprev as (_ & _ & _ & ->).
      rewrite lookup_insert_ne by done. destruct (decide (id = pid)) as [->|Hip].
      * rewrite lookup_insert_eq. simplify_eq. eexists. split; [done|]. done.
      * rewrite lookup_insert_ne by done. exists s. done.
    + destruct Hprev as (_ & _ & ->). rewrite lookup_insert_ne by done. exists s. done.
  - apply decideSubmission_ok in H as (x & Hx & _ & _ & Hc & Hst & _ & -> & _).
    destruct (decide (id = sid)) as [->|Hne].
    + rewrite lookup_insert_eq. simplify_eq. eexists. split; [done|]. by repeat split.
    + rewrite lookup_insert_ne by done. exists s. done.
Qed.

Lemma sub_keeps_trans s1 s2 s3 : sub_keeps s1 s2 -> sub_keeps s2 s3 -> sub_keeps s1 s3.
Proof.
  intros (E1 & E2 & E3 & E4 & E5 & E6) (F1 & F2 & F3 & F4 & F5 & F6). unfold sub_keeps.
  rewrite F1, F2, F3, F4, E1, E2, E3, E4. repeat split; auto.
  - destruct (E5 H) as [E _]. rewrite <- E in H |- *. by destruct (F5 H).
  - destruct (E5 H) as [E Er]. rewrite <- Er. rewrite <- E in H. by destruct (F5 H).
Qed.

Lemma steps_submission_kept db db' id s :
  rtc (step payloadHash) db db' -> submissions db !! id = Some s ->
  exists s', submissions db' !! id = Some s' /\ sub_keeps s s'.
Proof.
  intros H. revert s. induction H as [db|db1 db2 db3 H _ IH]; intros s Hs; [exists s; done|].
  destruct (step_submission_kept _ _ _ _ H Hs) as (s2 & Hs2 & K2). destruct (IH s2 Hs2) as (s3 & Hs3 & K3).
  exists s3. split; [done|]. by eapply sub_keeps_trans.
Qed.

(** One submission per idempotency key. *)
Definition keys_unique (subs : gmap UUID Submission) : Prop :=
  forall i j si sj k, subs !! i = Some si -> subs !! j = Some sj ->
    s_company si = s_company sj -> s_member si = s_member sj -> s_key si = Some k -> s_key sj = Some k -> i = j.

(** The key of a new submission is new. *)
Definition fresh_key (db : TS) (s : Submission) : Prop :=
  forall y sy k, submissions db !! y = Some sy -> s_company sy = s_company s -> s_member sy = s_member s ->
    s_key s = Some k -> s_key sy <> Some k.

Lemma submitTx_rows db nid root actor c m w key a i db' :
  submitTx payloadHash db nid root actor c m w key a = Ok (i, db') ->
  exists sub, fresh_key db sub /\
    forall x sx, submissions db' !! x = Some sx -> submissions db !! x = None -> x = nid /\ sx = sub.
Proof.
  intros (_ & _ & Htaken & _ & sub & Hw & _ & _ & Hkey & _ & _ & Hprev & _)%submitTx_ok. exists sub. split.
  - intros y sy k Hy Hyc Hym Hk Hk'. unfold wk in Hw. injection Hw as E1 E2 _. rewrite Hkey in Hk.
    destruct (seqb key ""); [done|]. injection Hk as ->. simpl in Htaken.
    apply bool_decide_eq_false, eq_None_not_Some in Htaken.
    apply (findKey_None _ _ _ _ y sy Htaken Hy). split; [congruence|]. split; [congruence|done].
  - intros x sx Hx Hn. destruct (find_current db c m w) as [[pid p]|] eqn:Hf.
    + apply find_current_Some in Hf as (Hp & _ & _). destruct Hprev as (_ & _ & _ & E). rewrite E in Hx.
      apply lookup_insert_Some in Hx as [[<- <-]|[_ Hx]]; [done|].
      apply lookup_insert_Some in Hx as [[<- _]|[_ Hx]]; congruence.
    + destruct Hprev as (_ & _ & E). rewrite E in Hx. apply lookup_insert_Some in Hx as [[<- <-]|[_ Hx]]; [done|congruence].
Qed.

(** Where the rows of the next state come from: the state before, or one new
    submission. *)
Lemma step_rows db db' :
  step payloadHash db db' ->
  exists nid sub, fresh_key db sub /\
    forall x sx, submissions db' !! x = Some sx ->
      (exists s0, submissions db !! x = Some s0 /\ sub_keeps s0 sx) \/ (x = nid /\ sx = sub).
Proof.
  intros Hstep.
  assert (Hnew : exists nid sub, fresh_key db sub /\
    forall x sx, submissions db' !! x = Some sx -> submissions db !! x = None -> x = nid /\ sx = sub).
  { pose proof Hstep as [E|[(nid & root & actor & c & m & w & key & a & i & H)|(actor & c & sid & ap & reason & H)]]%step_submissions.
    - exists 0%N, (mkSubmission 0 0 0 0 0 None false draft 0 "" "" None None None None). split; [done|]. intros x sx. rewrite E. congruence.
    - apply submitTx_rows in H as (sub & Hf & H). by exists nid, sub.
    - exists 0%N, (mkSubmission 0 0 0 0 0 None false draft 0 "" "" None None None None). split; [done|].
      apply decideSubmission_ok in H as (s & Hs & _ & _ & _ & _ & _ & E & _). intros x sx. rewrite E.
      intros [[<- _]|[_ Hx]]%lookup_insert_Some; congruence. }
  destruct Hnew as (nid & sub & Hf & Hnew). exists nid, sub. split; [done|]. intros x sx Hx.
  destruct (submissions db !! x) as [s0|] eqn:H0; [left|right; by apply Hnew].
  destruct (step_submission_kept _ _ _ _ Hstep H0) as (s' & Hs' & K). exists s0. split; [done|]. rewrite Hx in Hs'. by injection Hs' as <-.
Qed.

Lemma step_keys db db' : step payloadHash db db' -> keys_unique (submissions db) -> keys_unique (submissions db').
Proof.
  intros (nid & sub & Hf & Hrows)%step_rows Hk i j si sj k Hi Hj Hc Hm Hki Hkj.
  assert (Hkeep : forall s0 s, sub_keeps s0 s -> s_company s0 = s_company s /\ s_member s0 = s_member s /\ s_key s0 = s_key s).
  { intros s0 s (Hw & _ & -> & _). unfold wk in Hw. by injection Hw as -> -> _. }
  destruct (Hrows i si Hi) as [(s0 & H0 & (C0 & M0 & K0)%Hkeep)|[-> ->]], (Hrows j sj Hj) as [(t0 & H1 & (C1 & M1 & K1)%Hkeep)|[-> ->]].
  - apply (Hk i j s0 t0 k H0 H1); congruence.
  - exfalso. eapply (Hf i s0 k H0); congruence.
  - exfalso. eapply (Hf j t0 k H1); congruence.
  - done.
Qed.
End props.

(** ** Hours *)

Definition hours_ok (e : Entry) : Prop := 0 <= e_real e <= 2400 /\ 0 <= e_billable e <= 2400.

Lemma numeric62_range (q : Q) : (0 <= q)%Q -> (q <= 24)%Q -> 0 <= numeric62 q <= 2400.
Proof.
  intros H0 H1. unfold numeric62. split.
  - change 0 with (Qfloor (0 # 1)). apply Qfloor_resp_le. lra.
  - assert (H : Qfloor (q * 100 + (1 # 2)) < 2401).
    { rewrite Zlt_Qlt. eapply Qle_lt_trans; [apply Qfloor_le|]. unfold inject_Z. lra. }
    lia.
Qed.

Lemma validateHours_ok cfg real bill :
  validateHours cfg real bill = Ok tt ->
  (0 <= real <= 24)%Q /\ (0 <= bill <= 24)%Q /\
  (EnforceBillableWithinActual cfg = true -> (bill <= real)%Q) /\
  (AllowBillableAboveEightHours cfg = false -> (bill <= 8)%Q).
Proof.
  unfold validateHours. intros H.
  destruct (negb (Qle_bool 0 real) || negb (Qle_bool real 24)) eqn:E1; [done|].
  destruct (negb (Qle_bool 0 bill) || negb (Qle_bool bill 24)) eqn:E2; [done|].
  destruct (EnforceBillableWithinActual cfg && negb (Qle_bool bill real)) eqn:E3; [done|].
  destruct (negb (AllowBillableAboveEightHours cfg) && negb (Qle_bool bill 8)) eqn:E4; [done|].
  rewrite orb_false_iff, !negb_false_iff, !Qle_bool_iff in E1, E2.
  rewrite andb_false_iff, negb_false_iff, Qle_bool_iff in E3. rewrite andb_false_iff, !negb_false_iff, Qle_bool_iff in E4.
  split_and!; try tauto; intros Hc; rewrite Hc in *; naive_solver.
Qed.

(** The fields an entry step may write are a draft's with valid hours. *)
Lemma UpsertEntry_ok f1 f2 db0 db1 db nid now actor c m p d real bill id db' :
  UpsertEntry f1 f2 db0 db1 db nid now actor c m p d real bill = Ok (id, db') ->
  validateHours (GetConfig f1 db0 c) real bill = Ok tt /\
  validateWeekWindow (GetConfig f1 db0 c) now (d * secondsPerDay) = Ok tt /\
  is_ok (getProject f2 db0 c p) = true /\
  entries db' = <[id := mkEntry c m p d (numeric62 real) (numeric62 bill) draft]> (entries db).
Proof.
  unfold UpsertEntry. intros ([] & H1 & H)%result_bind_ok. apply result_bind_ok in H as ([] & H2 & H).
  apply result_bind_ok in H as (pr & H3 & H). apply result_bind_ok in H as ([] & _ & H).
  split; [done|]. split; [done|]. split; [by rewrite H3|].
  by apply insertEntry_ok in H as [-> _].
Qed.

Lemma step_hours H db db' :
  step H db db' -> map_Forall (fun _ e => hours_ok e) (entries db) -> map_Forall (fun _ e => hours_ok e) (entries db').
Proof.
  intros [db0 actor cid c c' db1 Hs|db0 nid actor cid code name st id' db1 Hs|db0 actor cid pid code name st id' db1 Hs
         |db0 actor cid m a sub|f1 f2 db0 db2 nid now actor cid m p d real bill id' db1 Hs|db0 actor cid m eid db1 Hs
         |f db0 db2 nid root actor cid m w key id' created db1 Hs|db0 actor cid sid approve reason db1 Hs] Hok.
  - unfold UpdateConfig in Hs. repeat case_match; naive_solver.
  - unfold CreateProject in Hs. apply result_bind_ok in Hs as (? & _ & Hs). repeat case_match; naive_solver.
  - unfold UpdateProject in Hs. apply result_bind_ok in Hs as (? & _ & Hs). repeat case_match; naive_solver.
  - done.
  - apply UpsertEntry_ok in Hs as (Hh & _ & _ & ->). apply validateHours_ok in Hh as ([? ?] & [? ?] & _).
    apply map_Forall_insert_2; [|done]. split; by apply numeric62_range.
  - unfold DeleteEntry in Hs. repeat case_match; simplify_eq/=; try done. by apply map_Forall_delete.
  - apply SubmitWeek_ok in Hs as [[_ ->]|[_ [a Hs]]]; [done|].
    apply submitTx_ok in Hs as (_ & _ & _ & _ & sub & _ & _ & _ & _ & _ & _ & _ & ->).
    intros i e. rewrite lookup_fmap_Some. intros (e0 & <- & He0). specialize (Hok i e0 He0). by case_decide.
  - apply decideSubmission_ok in Hs as (s & _ & _ & _ & _ & _ & _ & _ & ->).
    intros i e. rewrite lookup_fmap_Some. intros (e0 & <- & He0). specialize (Hok i e0 He0). by case_decide.
Qed.

Definition emptyTS : TS := mkTS ∅ ∅ ∅ ∅ ∅ [] [].

(** ** A worked week *)

(** An injective stand-in for the payload hash. *)
Definition demoHash (c m : UUID) (w : Day) : string :=
  pretty c +:+ "/" +:+ pretty m +:+ "/" +:+ pretty w.

Definition run_or {A} (db : TS) (r : result ts_error (A * TS)) : TS := match r with Ok (_, d) => d | Err _ => db end.

(** Company 1, project 10, member 2 whose approver is member 3; week of day 4
    (1970-01-05, a Monday). *)
Definition week0 : TS :=
  RecordApproverAssignment (run_or emptyTS (CreateProject emptyTS 10 "admin" 1 "P1" "Project" "")) "admin" 1 2 3 "boss".
Definition logHours (db : TS) (id : UUID) (d : Day) : result ts_error (UUID * TS) :=
  UpsertEntry false false db db db id 432000 "ann" 1 2 10 d 8 8.
Definition week1 : TS := run_or week0 (logHours week0 100 4).
Definition submitWeek (db : TS) (id : UUID) (w : Day) (key : string) : result ts_error (UUID * bool * TS) :=
  SubmitWeek demoHash false db db id 500 "ann" 1 2 w key.
Definition week2 : TS := run_or week1 (submitWeek week1 200 4 "k1").
Definition week3 : TS := run_or week2 (RejectSubmission week2 "boss" 1 200 "too long").
Definition week4 : TS := run_or week3 (submitWeek week3 201 4 "k2").
Definition week5 : TS := run_or week4 (ApproveSubmission week4 "boss" 1 201).

Lemma demoHash_inj c m v v' : demoHash c m v = demoHash c m v' -> v = v'.
Proof. unfold demoHash. intros H. by simplify_eq. Qed.

Lemma run_or_ok {A} db (r : result ts_error (A * TS)) : is_ok r = true -> exists a, r = Ok (a, run_or db r).
Proof. destruct r as [[a d]|]; [|done]. by exists a. Qed.

Lemma week0_reached : rtc (step demoHash) emptyTS week0.
Proof.
  assert (H : is_ok (CreateProject emptyTS 10 "admin" 1 "P1" "Project" "") = true) by (by vm_compute).
  apply (run_or_ok emptyTS) in H as [a H]. apply step_create_project with (payloadHash := demoHash) in H.
  eapply rtc_l; [exact H|]. eapply rtc_l; [apply step_assign|]. apply rtc_refl.
Qed.
Lemma week1_step : step demoHash week0 week1.
Proof.
  assert (H : is_ok (logHours week0 100 4) = true) by (by vm_compute).
  apply (run_or_ok week0) in H as [a H]. eapply step_upsert, H.
Qed.
Lemma week2_submit : submitWeek week1 200 4 "k1" = Ok (200%N, true, week2).
Proof. by vm_compute. Qed.
Lemma week3_reject : RejectSubmission week2 "boss" 1 200 "too long" = Ok (tt, week3).
Proof. by vm_compute. Qed.
Lemma week4_submit : submitWeek week3 201 4 "k2" = Ok (201%N, true, week4).
Proof. by vm_compute. Qed.
Lemma week5_approve : ApproveSubmission week4 "boss" 1 201 = Ok (tt, week5).
Proof. by vm_compute. Qed.
Lemma week5_from_2 : rtc (step demoHash) week2 week5.
Proof.
  eapply rtc_l; [eapply step_decide, week3_reject|]. eapply rtc_l; [eapply step_submit, week4_submit|].
  eapply rtc_l; [eapply step_decide, week5_approve|]. apply rtc_refl.
Qed.
Lemma week5_reached : rtc (step demoHash) emptyTS week5.
Proof.
  etrans; [apply week0_reached|]. eapply rtc_l; [apply week1_step|].
  eapply rtc_l; [eapply step_submit, week2_submit|]. apply week5_from_2.
Qed.

(** ** The properties *)

Section claims.
Context (payloadHash : UUID -> UUID -> Day -> string).

(** The version chain of submissions. Over every sequence of committed calls
    from empty tables, each week of a member has at most one current submission and,
    if it has any, a current one whose version is the highest; version numbers never
    repeat; and each version above 1 names as its predecessor an existing submission
    of the same week and root with the previous number, which is no longer current. *)
Theorem submission_versions db : rtc (step payloadHash) emptyTS db -> versions_ok (submissions db).
Proof.
  intros H. assert (Hgen : forall a, rtc (step payloadHash) a db -> versions_ok (submissions a) -> versions_ok (submissions db)).
  { intros a Ha. induction Ha as [x|x y z Hxy _ IH]; [done|]. intros Hx. apply IH; [done|]. by eapply step_versions. }
  apply (Hgen emptyTS H). apply versions_ok_empty.
Qed.

(** An approved entry is final. Once approved, an entry is never changed or
    deleted by any later call: edits and deletions need a draft, a submit takes only
    drafts and a decision only submitted entries. The statements of one transaction
    see one state here; [upsert_race] shows what happens when they do not. *)
Theorem approved_entry_final db db' id e :
  rtc (step payloadHash) db db' -> entries db !! id = Some e -> e_status e = approved -> entries db' !! id = Some e.
Proof.
  intros H. induction H as [db|db1 db2 db3 H _ IH]; [done|]. intros He Hst. apply IH; [|done].
  by eapply step_entry_final.
Qed.

(** A decision is final and made once, by the assigned approver. A decision
    that succeeds is the assigned approver's, on a current submitted version, with a
    reason if it rejects; it decides exactly the submitted entries of that week
    (approved, or back to draft), and whatever follows, the submission keeps its
    outcome and reason, and no later decision on it succeeds. *)
Theorem decision_final db actor c sid ap reason db1 db2 actor' c' ap' reason' :
  decideSubmission db actor c sid ap reason = Ok (tt, db1) ->
  rtc (step payloadHash) db1 db2 ->
  (exists s s2, submissions db !! sid = Some s /\ s_approver_sub s = actor /\ s_current s = true /\
     s_status s = submitted /\ (ap = false -> reason <> "") /\
     (forall id e, entries db !! id = Some e ->
        entries db1 !! id = Some (if decide (in_week c (s_member s) (s_week s) e /\ e_status e = submitted)
                                  then set_entry_status (if ap then approved else draft) e else e)) /\
     submissions db2 !! sid = Some s2 /\ s_status s2 = (if ap then approved else rejected) /\
     s_reason s2 = (if ap then None else Some reason)) /\
  is_ok (decideSubmission db2 actor' c' sid ap' reason') = false.
Proof.
  intros H Hsteps. apply decideSubmission_ok in H as (s & Hs & _ & Ha & Hc & Hst & Hr & Hsubs & Hent).
  assert (H1 : submissions db1 !! sid = Some (decided actor ap reason s)) by (rewrite Hsubs; apply lookup_insert_eq).
  destruct (steps_submission_kept payloadHash _ _ _ _ Hsteps H1) as (s2 & Hs2 & _ & _ & _ & _ & Hkeep & _).
  destruct Hkeep as [Hk1 Hk2]; [simpl; by destruct ap|]. split.
  - exists s, s2. repeat (split; [done|]). split; [|by repeat split].
    intros id e He. by rewrite Hent, lookup_fmap, He.
  - destruct (decideSubmission db2 actor' c' sid ap' reason') as [[[] db3]|] eqn:E; [|done].
    apply decideSubmission_ok in E as (s' & Hs' & _ & _ & _ & Hst' & _). simplify_eq. simpl in Hk1.
    rewrite Hk1 in Hst'. by destruct ap.
Qed.

(** Submitting is idempotent per key. After a submit that created a submission
    under a key, and whatever has happened since, the same member's submit with that
    key answers the same submission without creating anything if it is for the same
    week, and is refused as a key conflict if it is for another week (the hash being
    collision free over weeks). *)
Theorem submit_idempotent f db0 db nid root actor c m w key id db1 db2 f' nid' root' actor' w' :
  key <> "" -> (forall v v', payloadHash c m v = payloadHash c m v' -> v = v') ->
  keys_unique (submissions db) ->
  SubmitWeek payloadHash f db0 db nid root actor c m w key = Ok (id, true, db1) ->
  rtc (step payloadHash) db1 db2 ->
  SubmitWeek payloadHash f' db2 db2 nid' root' actor' c m w' key =
    if decide (w' = w) then Ok (id, false, db2) else Err ErrIdempotencyConflict.
Proof.
  intros Hkey Hinj Hu Hsub Hsteps. pose proof Hsub as Hstep.
  apply (step_submit payloadHash) in Hstep. assert (Hu1 := step_keys _ _ _ Hstep Hu).
  apply SubmitWeek_ok in Hsub as [[[=] _]|[_ [a Htx]]].
  apply submitTx_ok in Htx as (-> & _ & _ & _ & sub & Hw & _ & _ & Hk & Hh & _ & Hprev & _).
  rewrite (proj2 (seqb_false key "") Hkey) in Hk, Hh.
  assert (H1 : submissions db1 !! nid = Some sub).
  { destruct (find_current db c m w) as [[pid p]|]; [destruct Hprev as (_ & _ & _ & ->)|destruct Hprev as (_ & _ & ->)];
      apply lookup_insert_eq. }
  destruct (steps_submission_kept payloadHash _ _ _ _ Hsteps H1) as (s2 & Hs2 & Hw2 & _ & Hk2 & Hh2 & _).
  assert (Hu2 : keys_unique (submissions db2)).
  { clear -Hsteps Hu1. induction Hsteps as [x|x y z Hxy _ IH]; [done|]. apply IH. by eapply step_keys. }
  unfold wk in Hw, Hw2. rewrite Hw in Hw2. injection Hw2 as Ec Em Ew.
  unfold SubmitWeek. rewrite (proj2 (seqb_false key "") Hkey). cbn [negb].
  destruct (findSubmissionByIdempotencyKey db2 c m key) as [[[i s] h]|] eqn:Hf.
  2:{ exfalso. apply (findKey_None _ _ _ _ nid s2 Hf Hs2). rewrite Hk2, Hk. done. }
  apply (findKey_Some payloadHash) in Hf as (Hs & Hsc & Hsm & Hsk & ->).
  assert (i = nid) as -> by (apply (Hu2 i nid s s2 key Hs Hs2); congruence).
  assert (s = s2) as -> by congruence. rewrite Hh2, Hh. simpl.
  destruct (decide (w' = w)) as [->|Hne]; [by rewrite seqb_refl|].
  rewrite (proj2 (seqb_false _ _)); [done|]. intros E. apply Hne. symmetry. by apply Hinj.
Qed.

(** Stored hours stay in range. Over every sequence of committed calls from
    empty tables every entry has between 0 and 24 real and billable hours, in
    hundredths. *)
Theorem hours_in_range db :
  rtc (step payloadHash) emptyTS db -> map_Forall (fun _ e => hours_ok e) (entries db).
Proof.
  intros H. assert (Hgen : forall a, rtc (step payloadHash) a db ->
    map_Forall (fun _ e => hours_ok e) (entries a) -> map_Forall (fun _ e => hours_ok e) (entries db)).
  { intros a Ha. induction Ha as [x|x y z Hxy _ IH]; [done|]. intros Hx. apply IH; [done|]. by eapply step_hours. }
  apply (Hgen emptyTS H). apply map_Forall_empty.
Qed.
End claims.


(** Two versions of the week: the first rejected, the second approved. *)
Lemma submission_versions_witness :
  versions_ok (submissions week5) /\
  s_version <$> (submissions week5 !! 201%N) = Some 2 /\ s_current <$> (submissions week5 !! 200%N) = Some false.
Proof. split; [apply (submission_versions demoHash), week5_reached|by vm_compute]. Defined.

Definition approvedEntry : Entry := mkEntry 1 2 10 4 800 800 approved.

(** The approved entry survives another project's creation and a refused edit. *)
Definition week6 : TS := run_or week5 (CreateProject week5 11 "admin" 1 "P2" "Other" "").
Lemma week6_step : step demoHash week5 week6.
Proof.
  assert (H : is_ok (CreateProject week5 11 "admin" 1 "P2" "Other" "") = true) by (by vm_compute).
  apply (run_or_ok week5) in H as [a H]. eapply step_create_project, H.
Qed.

Lemma approved_entry_final_witness :
  entries week6 !! 100%N = Some approvedEntry /\ logHours week6 101 4 = Err ErrEntryNotDraft.
Proof.
  split; [|by vm_compute]. apply (approved_entry_final demoHash week5 week6).
  - eapply rtc_l; [apply week6_step|apply rtc_refl].
  - by vm_compute.
  - reflexivity.
Defined.

Lemma decision_final_witness :
  is_ok (ApproveSubmission week5 "boss" 1 200) = false.
Proof.
  apply (decision_final demoHash week2 "boss" 1 200 false "too long" week3 week5 "boss" 1 true "").
  - exact week3_reject.
  - eapply rtc_l; [eapply step_submit, week4_submit|]. eapply rtc_l; [eapply step_decide, week5_approve|]. apply rtc_refl.
Defined.

Lemma submit_idempotent_witness :
  submitWeek week5 300 4 "k1" = Ok (200%N, false, week5) /\ submitWeek week5 300 11 "k1" = Err ErrIdempotencyConflict.
Proof.
  split.
  - apply (submit_idempotent demoHash false week1 week1 200 500 "ann" 1 2 4 "k1" 200 week2 week5 false 300 500 "ann" 4);
      [done|apply demoHash_inj|intros i j si sj k Hi; by vm_compute in Hi|exact week2_submit|exact week5_from_2].
  - apply (submit_idempotent demoHash false week1 week1 200 500 "ann" 1 2 4 "k1" 200 week2 week5 false 300 500 "ann" 11);
      [done|apply demoHash_inj|intros i j si sj k Hi; by vm_compute in Hi|exact week2_submit|exact week5_from_2].
Defined.

Lemma hours_in_range_witness : map_Forall (fun _ e => hours_ok e) (entries week5).
Proof. apply (hours_in_range demoHash), week5_reached. Defined.

(** ** The upsert race

    [UpsertEntry] locks a row it finds, but holds nothing when it finds none: if the
    entry is created, submitted and approved between its SELECT ... FOR UPDATE and its
    INSERT, the INSERT ... ON CONFLICT turns the approved entry back into a draft with
    other hours. *)
Example upsert_race :
  e_status <$> (entries week5 !! 100%N) = Some approved /\
  exists db', UpsertEntry false false week0 week0 week5 101 432000 "ann" 1 2 10 4 1 1 = Ok (100%N, db') /\
    entries db' !! 100%N = Some (mkEntry 1 2 10 4 100 100 draft).
Proof.
  split; [by vm_compute|].
  eexists; split; [vm_compute; reflexivity|by vm_compute].
Qed.
