(* ===== verification/TimesheetHTTP.v ===== *)
(** * The timesheet service

    modules/timesheet/service/http*.go and authzclient.go: every route as a program over
    the store, the authorization service and org.  A store method is one call for each
    of its reads on the pool and one for its transaction; [UpsertEntry]'s transaction is
    two when its SELECT ... FOR UPDATE finds no row to lock. *)

From stdpp Require Import base gmap strings list.
From Stdlib Require Import Ascii QArith.
From S2P Require Import Prelude GoStrings Tuple Decision Clients AuthzHTTP AdminClient OrgTree Org ModuleKit Timesheet.
Open Scope Z_scope.

(** ** Dates *)

(** Digits of time.Parse with the layout 2006-01-02: exactly [n] of them. *)
Fixpoint digits (n : nat) (acc : Z) (s : string) : option (Z * string) :=
  match n, s with
  | O, _ => Some (acc, s)
  | S n', String c rest =>
      let d := Z.of_nat (nat_of_ascii c) - 48 in
      if (0 <=? d) && (d <=? 9) then digits n' (acc * 10 + d) rest else None
  | S _, EmptyString => None
  end.

Definition isLeap (y : Z) : bool := (y mod 4 =? 0) && (negb (y mod 100 =? 0) || (y mod 400 =? 0)).
Definition daysIn (m y : Z) : Z :=
  if m =? 2 then if isLeap y then 29 else 28
  else if (m =? 4) || (m =? 6) || (m =? 9) || (m =? 11) then 30 else 31.

(** The days before the year, and before the month in it. *)
Definition daysBeforeYear (y : Z) : Z := let y1 := y - 1 in 365 * y + y1 / 4 - y1 / 100 + y1 / 400.
Definition daysBeforeMonth (m y : Z) : Z :=
  foldr Z.add 0 (map (fun i => daysIn (Z.of_nat i) y) (seq 1 (Z.to_nat (m - 1)))).
Definition dayNumber (y m d : Z) : Day := daysBeforeYear y - daysBeforeYear 1970 + daysBeforeMonth m y + (d - 1).

(** time.Parse with the layout 2006-01-02. *)
Definition ParseDate (raw : string) : option Day :=
  match digits 4 0 raw with
  | Some (y, String "-" r1) =>
      match digits 2 0 r1 with
      | Some (m, String "-" r2) =>
          match digits 2 0 r2 with
          | Some (d, EmptyString) =>
              if (1 <=? m) && (m <=? 12) && (1 <=? d) && (d <=? daysIn m y) then Some (dayNumber y m d) else None
          | _ => None
          end
      | _ => None
      end
  | _ => None
  end.

(** ** Replies *)

(** A submission on the wire, with the caller's permission to decide it. *)
Record submissionWire := mkSubmissionWire { sw_id : UUID; sw_submission : Submission; sw_canDecide : bool }.
Record approverAssignmentWire := mkAssignmentWire { aw_company : UUID; aw_member : UUID; aw_approver : UUID }.

Inductive tsBody : Type :=
| BConfig (c : Config)
| BProject (p : UUID * Project)
| BProjects (l : list (UUID * Project)) (total : nat) (page pageSize : Z)
| BApprover (a : approverAssignmentWire)
| BApprovers (l : list approverAssignmentWire) (total : nat) (page pageSize : Z)
| BEntry (e : UUID * Entry)
| BEntries (l : list (UUID * Entry))
| BSubmission (s : submissionWire)
| BSubmissions (l : list submissionWire) (total : nat) (page pageSize : Z).

Inductive tsReply : Type :=
| WriteData (status : Z) (body : tsBody)
| WriteError (status : Z) (code : string)
| NoContent.

(** [writeStoreError] *)
Definition writeStoreError (err : ts_error) : tsReply :=
  match err with
  | ValidationError _ => WriteError 422 "VALIDATION_ERROR"
  | ErrProjectNotFound | ErrEntryNotFound | ErrSubmissionNotFound => WriteError 404 "NOT_FOUND"
  | ErrEntryNotDraft | ErrNoDraftEntries | ErrNoApproverAssigned => WriteError 422 "VALIDATION_ERROR"
  | ErrNotAssignedApprover => WriteError 403 "AUTHORIZATION_DENIED"
  | ErrSubmissionSuperseded | ErrSubmissionNotSubmitted => WriteError 422 "VALIDATION_ERROR"
  | ErrConflict => WriteError 409 "CONFLICT"
  | ErrIdempotencyConflict => WriteError 409 "IDEMPOTENCY_CONFLICT"
  | ErrDatabase => WriteError 500 "INTERNAL_ERROR"
  end.

Definition badRequest : tsReply := WriteError 400 "BAD_REQUEST".
Definition denied : tsReply := WriteError 403 "AUTHORIZATION_DENIED".
Definition unavailable : tsReply := WriteError 503 "AUTHORIZATION_UNAVAILABLE".
Definition unauthorized : tsReply := WriteError 401 "AUTH_TOKEN_INVALID".
Definition invalid : tsReply := WriteError 422 "VALIDATION_ERROR".

(** ** Requests *)

Record createProjectRequest := mkCreateProject { cp_code : string; cp_name : string; cp_status : string }.
Record assignApproverRequest := mkAssignApprover { ar_member : string; ar_approver : string }.
Record upsertEntryRequest := mkUpsertEntry { ue_project : string; ue_date : string; ue_real : Q; ue_billable : Q }.

(** The routes; a body that does not decode is [None], and [now] is what time.Now reads
    in [UpsertEntry]. *)
Inductive tsRequest : Type :=
| ReqGetConfig
| ReqUpdateConfig (body : option Settings)
| ReqListProjects (page pageSize : string)
| ReqCreateProject (body : option createProjectRequest)
| ReqUpdateProject (projectId : string) (body : option createProjectRequest)
| ReqListApprovers (page pageSize : string)
| ReqAssignApprover (body : option assignApproverRequest) (correlationID : string)
| ReqListEntries (weekStart : string)
| ReqUpsertEntry (body : option upsertEntryRequest) (now : Z)
| ReqDeleteEntry (entryId : string)
| ReqListSubmissions (view page pageSize : string)
| ReqSubmitWeek (weekStart : option string) (idempotencyKey : string)
| ReqGetSubmission (submissionId : string)
| ReqApproveSubmission (submissionId : string)
| ReqRejectSubmission (submissionId : string) (reason : option string).

Record requestContext := mkContext { rc_Subject : string; rc_RawBearer : string }.

Definition featureProjectsManage : string := "timesheet.projects.manage".
Definition featureConfigManage : string := "timesheet.config.manage".
Definition featureApproversManage : string := "timesheet.approvers.manage".
Definition featureSubmissionsSubmit : string := "timesheet.submissions.submit".
Definition featureSubmissionsApprove : string := "timesheet.submissions.approve".
Definition featureEntriesManageOwn : string := "timesheet.entries.manage-own".

(** [relationLeg]; the object type is company_module whenever there is a relation. *)
Definition relationLeg (featureKey : string) : string :=
  if seqb featureKey featureProjectsManage || seqb featureKey featureConfigManage || seqb featureKey featureApproversManage then "admin"
  else if seqb featureKey featureSubmissionsSubmit then "submitter"
  else if seqb featureKey featureSubmissionsApprove then "approver"
  else "".

(** The tuple of [GrantRelation]. *)
Definition relationTuple (companyID relation kcSub : string) : Tuple :=
  mkTuple "company_module" (CompanyModuleObjectID "timesheet" companyID) relation "user" kcSub "".

(** ** The store's calls *)

Abbreviation TsTx A := (TxEnv -> TS -> result ts_error (A * TS)).

(** A read on the pool. *)
Definition tread {A} (f : TS -> result ts_error A) : TsTx A := fun env db =>
  if tx_broken env then Err ErrDatabase else let! a := f db in Ok (a, db).

(** A read whose failure the store turns into an answer. *)
Definition tswallow {A} (f : bool -> TS -> result ts_error A) : TsTx A := fun env db =>
  let! a := f (tx_broken env) db in Ok (a, db).

(** A transaction, after [check], which does not reach the database. *)
Definition twrite {A} (check : result ts_error unit) (m : TxEnv -> TS -> result ts_error (A * TS)) : TsTx A := fun env db =>
  let! _ := check in if tx_broken env then Err ErrDatabase else m env db.

(** The row a statement returns. *)
Definition returning {R} (rows : TS -> gmap UUID R) (r : result ts_error (UUID * TS)) : result ts_error (UUID * R * TS) :=
  let! x := r in
  match rows x.2 !! x.1 with Some a => Ok (x.1, a, x.2) | None => Err ErrDatabase end.

Section service.
Context `{UT : UUIDText} (verify : string -> option Claims) (parseUUID : string -> option UUID).
Context (payloadHash : UUID -> UUID -> Day -> string).
(** ORDER BY a column the model leaves out, or under the database's collation. *)
Context (byCode : list (UUID * Project) -> list (UUID * Project))
  (byAssignedAt : list approverAssignmentWire -> list approverAssignmentWire)
  (bySubmittedAt : list (UUID * Submission) -> list (UUID * Submission)).

Abbreviation P A := (prog TS ts_error A).
Abbreviation Step A := (P (result tsReply A)).

(** ** Listings *)

Definition companyProjects (companyID : UUID) (db : TS) : list (UUID * Project) :=
  filter (fun kv => p_company kv.2 = companyID) (map_to_list (projects db)).
Definition companyAssignments (companyID : UUID) (db : TS) : list approverAssignmentWire :=
  (fun kv => mkAssignmentWire kv.1.1 kv.1.2 kv.2.1) <$> filter (fun kv => kv.1.1 = companyID) (map_to_list (assignments db)).

(** The WHERE of [ListSubmissions]. *)
Definition in_view (companyID : UUID) (scope callerKcSub : string) (callerMemberID : UUID) (s : Submission) : Prop :=
  s_company s = companyID /\
  (if seqb scope "approvals" then s_approver_sub s = callerKcSub else if seqb scope "all" then True else s_member s = callerMemberID).
#[export] Instance in_view_dec c sc k m s : Decision (in_view c sc k m s).
Proof. unfold in_view. repeat case_match; apply _. Defined.
Definition viewed (companyID : UUID) (scope callerKcSub : string) (callerMemberID : UUID) (db : TS) : list (UUID * Submission) :=
  filter (fun kv => in_view companyID scope callerKcSub callerMemberID kv.2) (map_to_list (submissions db)).

(** A store call whose error is written with [writeStoreError]. *)
Definition orStoreError {A} (p : P (result ts_error A)) : Step A :=
  run& r := p in
  Ret (match r with Ok a => Ok a | Err e => Err (writeStoreError e) end).
Definition storeCall {A} (m : TsTx A) : Step A := orStoreError (let& r := Transact m in Ret r).

(** The count and the page of [ListProjects], [ListApproverAssignments] and
    [ListSubmissions]. *)
Definition listPage {A} (rows : TS -> list A) (order : list A -> list A) (page pageSize : Z) (k : list A -> nat -> P tsReply) : P tsReply :=
  let? total := storeCall (tread (fun db => Ok (length (rows db)))) in
  let? items := storeCall (tread (fun db => pageOf ErrDatabase page pageSize (order (rows db)))) in
  k items total.

(** ** The store's methods *)

(** Steps that may end with an error. *)
Definition orFail {A B} (p : P (result ts_error A)) (k : A -> P (result ts_error B)) : P (result ts_error B) :=
  run& r := p in match r with Ok a => k a | Err e => Ret (Err e) end.
Notation "'let^' x ':=' p 'in' k" := (orFail p (fun x => k)) (at level 10, x binder, p at level 100, k at level 200).
Definition transact {A} (m : TsTx A) : P (result ts_error A) := let& r := Transact m in Ret r.

Definition getConfig (companyID : UUID) : P (result ts_error Config) := transact (tswallow (fun fails db => Ok (GetConfig fails db companyID))).

(** The SELECT ... FOR UPDATE of [UpsertEntry], and the rest of the transaction when it
    found a row; [None] is no row and no lock. *)
Definition lockedUpsert (actor : string) (e : Entry) : TsTx (option (UUID * Entry)) := twrite (Ok tt) (fun env db =>
  match find_entry db (e_company e) (e_member e) (e_project e) (e_date e) with
  | None => Ok (None, db)
  | Some (_, old) =>
      if negb (bool_decide (e_status old = draft)) then Err ErrEntryNotDraft
      else let! r := returning entries (insertEntry db (tx_newID env) actor e) in Ok (Some r.1, r.2)
  end).
Definition unlockedUpsert (actor : string) (e : Entry) : TsTx (UUID * Entry) := twrite (Ok tt) (fun env db =>
  returning entries (insertEntry db (tx_newID env) actor e)).

(** [UpsertEntry] *)
Definition upsertEntry (actor : string) (companyID memberID projectID : UUID) (entryDate : Day) (real billable : Q) (now : Z)
    : P (result ts_error (UUID * Entry)) :=
  let^ cfg := getConfig companyID in
  let^ _ := Ret (validateHours cfg real billable) in
  let^ _ := Ret (validateWeekWindow cfg now (entryDate * secondsPerDay)) in
  let^ _ := transact (tswallow (fun fails db => getProject fails db companyID projectID)) in
  let e := mkEntry companyID memberID projectID entryDate (numeric62 real) (numeric62 billable) draft in
  let^ locked := transact (lockedUpsert actor e) in
  match locked with
  | Some r => Ret (Ok r)
  | None => transact (unlockedUpsert actor e)
  end.

Definition deleteEntry (actor : string) (companyID memberID entryID : UUID) : TsTx unit :=
  twrite (Ok tt) (fun _ db => DeleteEntry db actor companyID memberID entryID).

(** The transaction of [SubmitWeek]. *)
Definition submit (actorKcSub : string) (companyID memberID : UUID) (weekStart : Day) (key : string) (approver : UUID * string)
    : TsTx (UUID * Submission) := twrite (Ok tt) (fun env db =>
  returning submissions (submitTx payloadHash db (tx_ids env 0) (tx_ids env 1) actorKcSub companyID memberID weekStart key approver)).

(** [SubmitWeek] *)
Definition submitWeek (actorKcSub : string) (companyID memberID : UUID) (weekStart : Day) (key : string)
    : P (result ts_error (UUID * Submission * bool)) :=
  let create : P (result ts_error (UUID * Submission * bool)) :=
    let^ approver := transact (tswallow (fun fails db => Ok (AssignedApprover fails db companyID memberID))) in
    match approver with
    | None => Ret (Err ErrNoApproverAssigned)
    | Some a => let^ sub := transact (submit actorKcSub companyID memberID weekStart key a) in Ret (Ok (sub, true))
    end in
  if seqb key "" then create
  else
    let^ found := transact (tread (fun db => Ok (findSubmissionByIdempotencyKey db companyID memberID key))) in
    match found with
    | Some (existing, existingHash) =>
        if negb (seqb existingHash (payloadHash companyID memberID weekStart)) then Ret (Err ErrIdempotencyConflict)
        else Ret (Ok (existing, false))
    | None => create
    end.

(** [decideSubmission], with the read that follows its transaction. *)
Definition decideAndGet (actorKcSub : string) (companyID submissionID : UUID) (approve : bool) (reason : string)
    : P (result ts_error (UUID * Submission)) :=
  let^ _ := transact (twrite (Ok tt) (fun _ db => decideSubmission db actorKcSub companyID submissionID approve reason)) in
  let^ s := transact (tread (fun db => GetSubmission db companyID submissionID)) in
  Ret (Ok (submissionID, s)).

(** ** The clients *)

(** [Can] *)
Definition Can (rawBearer featureKey companyID : string) : P (option bool) :=
  let& r := DoCan rawBearer (canRequest "timesheet" featureKey companyID (relationLeg featureKey)) in Ret (fst <$> r).

(** [GrantRelation] *)
Definition GrantRelation (rawBearer companyID relation kcSub correlationID : string) : P bool :=
  let& ok := GrantOrRevoke rawBearer companyID "grant" [relationTuple companyID relation kcSub] correlationID in Ret ok.

(** ** Gates and parameters *)

(** [withAuth]; the company is the path's text. *)
Definition withAuth (header companyId featureKey : string) (next : requestContext -> P tsReply) : P tsReply :=
  match Verify verify (BearerFromHeader header) with
  | None => Ret unauthorized
  | Some subject =>
      if seqb companyId "" then next (mkContext subject header)
      else
        run& allowed := Can header featureKey companyId in
        match allowed with None => Ret unavailable | Some false => Ret denied | Some true => next (mkContext subject header) end
  end.

Definition orBadRequest {A} (o : option A) : Step A := Ret (match o with Some a => Ok a | None => Err badRequest end).

(** [resolveCallerMember] *)
Definition resolveCallerMember (companyID subject : string) : Step UUID :=
  let& who := MemberByKcSub companyID subject in
  Ret (match who with
       | None => Err (WriteError 503 "INTERNAL_ERROR")
       | Some (memberID, isMember, isActive) =>
           if negb isMember || negb isActive then Err invalid
           else match parseUUID memberID with None => Err (WriteError 500 "INTERNAL_ERROR") | Some id => Ok id end
       end).

(** [parseWeekStart] *)
Definition parseWeekStart (raw : string) : result tsReply Day :=
  match ParseDate raw with
  | None => Err badRequest
  | Some d => if isoMonday (d * secondsPerDay) =? d * secondsPerDay then Ok d else Err invalid
  end.

(** [toSubmissionWire] *)
Definition toSubmissionWire (callerIsAssignedApprover : bool) (r : UUID * Submission) : submissionWire :=
  mkSubmissionWire r.1 r.2 (callerIsAssignedApprover && s_current r.2 && bool_decide (s_status r.2 = submitted)).
Definition toCallersWire (rc : requestContext) (r : UUID * Submission) : submissionWire :=
  toSubmissionWire (seqb (s_approver_sub r.2) (rc_Subject rc)) r.

(** ** Configuration and projects *)

Definition handleGetConfig (companyId : string) (rc : requestContext) : P tsReply :=
  let? companyID := orBadRequest (parseUUID companyId) in
  let? c := orStoreError (getConfig companyID) in
  Ret (WriteData 200 (BConfig c)).

(** The checks of [UpdateConfig] and [validateProject] come before the transaction. *)
Definition checkConfig (c : Settings) : result ts_error unit :=
  if AllowedPreviousWeeks c <? 0 then Err (ValidationError "allowedPreviousWeeks")
  else if AllowedFutureWeeks c <? 0 then Err (ValidationError "allowedFutureWeeks") else Ok tt.

Definition updateConfig (actor : string) (companyID : UUID) (c : Settings) : TsTx Config :=
  twrite (checkConfig c) (fun _ db => UpdateConfig db actor companyID c).

Definition handleUpdateConfig (companyId : string) (body : option Settings) (rc : requestContext) : P tsReply :=
  let? companyID := orBadRequest (parseUUID companyId) in
  let? req := orBadRequest body in
  let? c := storeCall (updateConfig (rc_Subject rc) companyID req) in
  Ret (WriteData 200 (BConfig c)).

Definition checkProject (code name status0 : string) : result ts_error unit :=
  validateProject code name (if seqb status0 "" then "active" else status0).

Definition createProject (actor : string) (companyID : UUID) (code name status : string) : TsTx (UUID * Project) :=
  twrite (checkProject code name status) (fun env db => returning projects (CreateProject db (tx_newID env) actor companyID code name status)).
Definition updateProject (actor : string) (companyID projectID : UUID) (code name status : string) : TsTx (UUID * Project) :=
  twrite (checkProject code name status) (fun env db => returning projects (UpdateProject db actor companyID projectID code name status)).

Definition handleCreateProject (companyId : string) (body : option createProjectRequest) (rc : requestContext) : P tsReply :=
  let? companyID := orBadRequest (parseUUID companyId) in
  let? req := orBadRequest body in
  let? p := storeCall (createProject (rc_Subject rc) companyID (cp_code req) (cp_name req) (cp_status req)) in
  Ret (WriteData 201 (BProject p)).

Definition handleUpdateProject (companyId projectId : string) (body : option createProjectRequest) (rc : requestContext) : P tsReply :=
  let? companyID := orBadRequest (parseUUID companyId) in
  let? projectID := orBadRequest (parseUUID projectId) in
  let? req := orBadRequest body in
  let? p := storeCall (updateProject (rc_Subject rc) companyID projectID (cp_code req) (cp_name req) (cp_status req)) in
  Ret (WriteData 200 (BProject p)).

Definition handleListProjects (companyId page pageSize : string) (rc : requestContext) : P tsReply :=
  let? companyID := orBadRequest (parseUUID companyId) in
  let '(page, pageSize) := PageParams page pageSize in
  listPage (companyProjects companyID) byCode page pageSize (fun items total =>
    let '(page, pageSize) := ClampPage page pageSize in Ret (WriteData 200 (BProjects items total page pageSize))).

(** ** Approvers *)

Definition recordApproverAssignment (actor : string) (companyID memberID approverMemberID : UUID) (approverKcSub : string) : TsTx unit :=
  twrite (Ok tt) (fun _ db => Ok (tt, RecordApproverAssignment db actor companyID memberID approverMemberID approverKcSub)).

Definition handleAssignApprover (companyId : string) (body : option assignApproverRequest) (correlationID : string) (rc : requestContext)
    : P tsReply :=
  let? companyID := orBadRequest (parseUUID companyId) in
  let? req := orBadRequest body in
  let? memberID := orBadRequest (parseUUID (ar_member req)) in
  let? approverMemberID := orBadRequest (parseUUID (ar_approver req)) in
  let& member := GetMember (uuidString memberID) in
  let kcSub := default "" (om_kcsub <$> member) in
  if seqb kcSub "" then Ret invalid
  else
    let& approver := GetMember (uuidString approverMemberID) in
    let approverKcSub := default "" (om_kcsub <$> approver) in
    if seqb approverKcSub "" then Ret invalid
    else
      run& ok := GrantRelation (rc_RawBearer rc) (uuidString companyID) "submitter" kcSub correlationID in
      if negb ok then Ret unavailable
      else
        run& ok := GrantRelation (rc_RawBearer rc) (uuidString companyID) "approver" approverKcSub correlationID in
        if negb ok then Ret unavailable
        else
          let? _ := storeCall (recordApproverAssignment (rc_Subject rc) companyID memberID approverMemberID approverKcSub) in
          Ret (WriteData 200 (BApprover (mkAssignmentWire companyID memberID approverMemberID))).

Definition handleListApprovers (companyId page pageSize : string) (rc : requestContext) : P tsReply :=
  let? companyID := orBadRequest (parseUUID companyId) in
  let '(page, pageSize) := PageParams page pageSize in
  listPage (companyAssignments companyID) byAssignedAt page pageSize (fun items total =>
    let '(page, pageSize) := ClampPage page pageSize in Ret (WriteData 200 (BApprovers items total page pageSize))).

(** ** Entries *)

Definition handleListEntries (companyId weekStart : string) (rc : requestContext) : P tsReply :=
  let? companyID := orBadRequest (parseUUID companyId) in
  let? week := Ret (parseWeekStart weekStart) in
  let? memberID := resolveCallerMember (uuidString companyID) (rc_Subject rc) in
  let? items := storeCall (tread (fun db => Ok (ListEntriesForWeek db companyID memberID week))) in
  Ret (WriteData 200 (BEntries items)).

Definition handleUpsertEntry (companyId : string) (body : option upsertEntryRequest) (now : Z) (rc : requestContext) : P tsReply :=
  let? companyID := orBadRequest (parseUUID companyId) in
  let? req := orBadRequest body in
  let? projectID := orBadRequest (parseUUID (ue_project req)) in
  let? entryDate := orBadRequest (ParseDate (ue_date req)) in
  let? memberID := resolveCallerMember (uuidString companyID) (rc_Subject rc) in
  let? e := orStoreError (upsertEntry (rc_Subject rc) companyID memberID projectID entryDate (ue_real req) (ue_billable req) now) in
  Ret (WriteData 200 (BEntry e)).

Definition handleDeleteEntry (companyId entryId : string) (rc : requestContext) : P tsReply :=
  let? companyID := orBadRequest (parseUUID companyId) in
  let? entryID := orBadRequest (parseUUID entryId) in
  let? memberID := resolveCallerMember (uuidString companyID) (rc_Subject rc) in
  let? _ := storeCall (deleteEntry (rc_Subject rc) companyID memberID entryID) in
  Ret NoContent.

(** ** Submissions *)

Definition handleSubmitWeek (companyId : string) (weekStart : option string) (key : string) (rc : requestContext) : P tsReply :=
  let? companyID := orBadRequest (parseUUID companyId) in
  let? raw := orBadRequest weekStart in
  let? week := Ret (parseWeekStart raw) in
  let? memberID := resolveCallerMember (uuidString companyID) (rc_Subject rc) in
  if (200 <? String.length key)%nat then Ret badRequest
  else
    let? r := orStoreError (submitWeek (rc_Subject rc) companyID memberID week key) in
    Ret (WriteData (if (r.2 : bool) then 201 else 200) (BSubmission (toCallersWire rc r.1))).

Definition handleGetSubmission (companyId submissionId : string) (rc : requestContext) : P tsReply :=
  let? companyID := orBadRequest (parseUUID companyId) in
  let? submissionID := orBadRequest (parseUUID submissionId) in
  let? sub := storeCall (tread (fun db => GetSubmission db companyID submissionID)) in
  Ret (WriteData 200 (BSubmission (toCallersWire rc (submissionID, sub)))).

Definition handleApproveSubmission (companyId submissionId : string) (rc : requestContext) : P tsReply :=
  let? companyID := orBadRequest (parseUUID companyId) in
  let? submissionID := orBadRequest (parseUUID submissionId) in
  let? sub := orStoreError (decideAndGet (rc_Subject rc) companyID submissionID true "") in
  Ret (WriteData 200 (BSubmission (toSubmissionWire true sub))).

Definition handleRejectSubmission (companyId submissionId : string) (reason : option string) (rc : requestContext) : P tsReply :=
  let? companyID := orBadRequest (parseUUID companyId) in
  let? submissionID := orBadRequest (parseUUID submissionId) in
  let? reason := orBadRequest reason in
  let? sub := orStoreError (decideAndGet (rc_Subject rc) companyID submissionID false reason) in
  Ret (WriteData 200 (BSubmission (toSubmissionWire true sub))).

Definition handleListSubmissions (companyId view page pageSize : string) (rc : requestContext) : P tsReply :=
  let? companyID := orBadRequest (parseUUID companyId) in
  let view := if seqb view "" then "mine" else view in
  let? memberID := resolveCallerMember (uuidString companyID) (rc_Subject rc) in
  let '(page, pageSize) := PageParams page pageSize in
  listPage (viewed companyID view (rc_Subject rc) memberID) bySubmittedAt page pageSize (fun items total =>
    let '(page, pageSize) := ClampPage page pageSize in
    Ret (WriteData 200 (BSubmissions (toCallersWire rc <$> items) total page pageSize))).

(** [mountRoutes]: the gate and the handler of each route. *)
Definition routeFeature (r : tsRequest) : string :=
  match r with
  | ReqUpdateConfig _ => featureConfigManage
  | ReqCreateProject _ | ReqUpdateProject _ _ => featureProjectsManage
  | ReqListApprovers _ _ | ReqAssignApprover _ _ => featureApproversManage
  | ReqSubmitWeek _ _ => featureSubmissionsSubmit
  | ReqApproveSubmission _ | ReqRejectSubmission _ _ => featureSubmissionsApprove
  | _ => featureEntriesManageOwn
  end.
Definition handlerOf (companyId : string) (r : tsRequest) : requestContext -> P tsReply :=
  match r with
  | ReqGetConfig => handleGetConfig companyId
  | ReqUpdateConfig body => handleUpdateConfig companyId body
  | ReqListProjects page pageSize => handleListProjects companyId page pageSize
  | ReqCreateProject body => handleCreateProject companyId body
  | ReqUpdateProject projectId body => handleUpdateProject companyId projectId body
  | ReqListApprovers page pageSize => handleListApprovers companyId page pageSize
  | ReqAssignApprover body correlationID => handleAssignApprover companyId body correlationID
  | ReqListEntries weekStart => handleListEntries companyId weekStart
  | ReqUpsertEntry body now => handleUpsertEntry companyId body now
  | ReqDeleteEntry entryId => handleDeleteEntry companyId entryId
  | ReqListSubmissions view page pageSize => handleListSubmissions companyId view page pageSize
  | ReqSubmitWeek weekStart key => handleSubmitWeek companyId weekStart key
  | ReqGetSubmission submissionId => handleGetSubmission companyId submissionId
  | ReqApproveSubmission submissionId => handleApproveSubmission companyId submissionId
  | ReqRejectSubmission submissionId reason => handleRejectSubmission companyId submissionId reason
  end.
Definition serve (header companyId : string) (r : tsRequest) : P tsReply :=
  withAuth header companyId (routeFeature r) (handlerOf companyId r).
End service.
