(* ===== verification/TimesheetService.v ===== *)
(** * The timesheet service: who changes and sees what

    Every step of every request, whatever happens between its calls, and what the
    committed calls of interleaved requests keep. *)

From stdpp Require Import base gmap strings list.
From Stdlib Require Import QArith.
From S2P Require Import Prelude GoStrings Tuple TupleStore Decision Clients AuthzHTTP AdminClient OrgTree Org OrgProps ModuleKit ModuleRules Timesheet TimesheetProps TimesheetHTTP.
Open Scope Z_scope.

(** ** Transactions *)

Lemma tread_ok {X} (f : TS -> result ts_error X) env db x db' : tread f env db = Ok (x, db') -> f db = Ok x /\ db' = db.
Proof. unfold tread. destruct (tx_broken env); [done|]. destruct (f db); [|done]. by intros [= -> ->]. Qed.

Lemma tswallow_ok {X} (f : bool -> TS -> result ts_error X) env db x db' : tswallow f env db = Ok (x, db') -> f (tx_broken env) db = Ok x /\ db' = db.
Proof. unfold tswallow. destruct (f _ db); [|done]. by intros [= -> ->]. Qed.

Lemma twrite_ok {X} check (m : TsTx X) env db x db' : twrite check m env db = Ok (x, db') -> m env db = Ok (x, db').
Proof. unfold twrite. destruct check; [|done]. simpl. by destruct (tx_broken env). Qed.

Lemma returning_ok {R} (rows : TS -> gmap UUID R) r id a db' :
  returning rows r = Ok (id, a, db') -> r = Ok (id, db') /\ rows db' !! id = Some a.
Proof. unfold returning. destruct r as [[i d]|]; [|done]. simpl. destruct (rows d !! i) eqn:E; [|done]. by intros [= -> -> ->]. Qed.

(** ** What a request may do *)

Section props.
Context `{UT : UUIDText} (verify : string -> option Claims) (uuid_ok : string -> bool) (authz : Service -> Prop).
Context (parseUUID : string -> option UUID) (payloadHash : UUID -> UUID -> Day -> string).
Context (byCode : list (UUID * Project) -> list (UUID * Project))
  (byAssignedAt : list approverAssignmentWire -> list approverAssignmentWire)
  (bySubmittedAt : list (UUID * Submission) -> list (UUID * Submission)).
(** An ORDER BY permutes. *)
Hypothesis (HbyCode : forall l, byCode l ≡ₚ l) (HbyAssignedAt : forall l, byAssignedAt l ≡ₚ l) (HbySubmittedAt : forall l, bySubmittedAt l ≡ₚ l).
Context (account : string -> option OrgMember) (memberOf : string -> string -> option (string * bool * bool)).

Abbreviation MW := (MWorld TS).
Abbreviation accepted := (accepted verify uuid_ok authz).

(** The caller is this active member of the company, by org's answer. *)
Definition callerMember (c : UUID) (subject : string) (m : UUID) : Prop :=
  exists text, memberOf (uuidString c) subject = Some (text, true, true) /\ parseUUID text = Some m.

Section spec.
Context (seen : MW -> Prop) (rc : requestContext) (companyId : string) (c : UUID) (feature : string).
Abbreviation subject := (rc_Subject rc).

(** The authorization service let the bearer use the feature in the company. *)
Definition tsMay : Prop := allows verify authz (rc_RawBearer rc) (canRequest "timesheet" feature companyId (relationLeg feature)).

Inductive ts_write (db db' : TS) : Prop :=
| tw_config cfg x : feature = featureConfigManage -> UpdateConfig db subject c cfg = Ok (x, db') -> ts_write db db'
| tw_create_project nid code name st id : feature = featureProjectsManage -> CreateProject db nid subject c code name st = Ok (id, db') -> ts_write db db'
| tw_update_project pid code name st id : feature = featureProjectsManage -> UpdateProject db subject c pid code name st = Ok (id, db') -> ts_write db db'
| tw_assign m a memberSub approverSub :
    feature = featureApproversManage -> memberSub <> "" -> approverSub <> "" ->
    om_kcsub <$> account (uuidString m) = Some memberSub -> om_kcsub <$> account (uuidString a) = Some approverSub ->
    accepted (rc_RawBearer rc) (uuidString c) "grant" [relationTuple (uuidString c) "submitter" memberSub] ->
    accepted (rc_RawBearer rc) (uuidString c) "grant" [relationTuple (uuidString c) "approver" approverSub] ->
    db' = RecordApproverAssignment db subject c m a approverSub -> ts_write db db'
| tw_entry nid m e id :
    feature = featureEntriesManageOwn -> callerMember c subject m -> e_company e = c -> e_member e = m -> e_status e = draft -> hours_ok e ->
    (forall id0 old, find_entry db c m (e_project e) (e_date e) = Some (id0, old) ->
       e_status old = draft \/ exists v, seen v /\ find_entry (w_store v) c m (e_project e) (e_date e) = None) ->
    insertEntry db nid subject e = Ok (id, db') -> ts_write db db'
| tw_delete m id : feature = featureEntriesManageOwn -> callerMember c subject m -> DeleteEntry db subject c m id = Ok (tt, db') -> ts_write db db'
| tw_submit m w key nid root approver id :
    feature = featureSubmissionsSubmit -> callerMember c subject m -> isoMonday (w * secondsPerDay) = w * secondsPerDay ->
    (exists v, seen v /\ assignments (w_store v) !! (c, m) = Some approver) ->
    submitTx payloadHash db nid root subject c m w key approver = Ok (id, db') -> ts_write db db'
| tw_decide sid approve reason :
    feature = featureSubmissionsApprove -> decideSubmission db subject c sid approve reason = Ok (tt, db') -> ts_write db db'.

(** The caller is the approver of the company's submission in a state the request saw. *)
Definition approves (id : UUID) : Prop :=
  exists v s, seen v /\ submissions (w_store v) !! id = Some s /\ s_company s = c /\ s_approver_sub s = subject.

(** A submission of the company; the permission is that of its approver. *)
Definition shown (w : submissionWire) : Prop :=
  s_company (sw_submission w) = c /\
  (sw_canDecide w = true -> s_current (sw_submission w) = true /\ s_status (sw_submission w) = submitted /\
     (s_approver_sub (sw_submission w) = subject \/ approves (sw_id w))).

(** The company's configuration: the default, its row in a state the request saw, or
    what the request has made of it. *)
Definition configured (cfg : Config) : Prop :=
  CompanyID cfg = c /\
  (cfg = defaultConfig c \/ (exists v, seen v /\ configs (w_store v) !! c = Some (settings cfg)) \/
   exists v db, seen v /\ UpdateConfig (w_store v) subject c (settings cfg) = Ok (cfg, db)).

Definition pageBound {A} (l : list A) (n : Z) : Prop := Z.of_nat (length l) <= n <= 100.

Definition ts_discloses (r : tsReply) : Prop :=
  match r with
  | WriteData _ (BProject p) => p_company p.2 = c
  | WriteData _ (BProjects l _ _ n) => Forall (fun p => p_company p.2 = c) l /\ pageBound l n
  | WriteData _ (BApprover a) => aw_company a = c
  | WriteData _ (BApprovers l _ _ n) => Forall (fun a => aw_company a = c) l /\ pageBound l n
  | WriteData _ (BEntry e) => e_company e.2 = c /\ callerMember c subject (e_member e.2)
  | WriteData _ (BEntries l) => Forall (fun e => e_company e.2 = c /\ callerMember c subject (e_member e.2)) l
  | WriteData _ (BSubmission s) => shown s
  | WriteData _ (BSubmissions l _ _ n) => Forall shown l /\ pageBound l n
  | WriteData _ (BConfig cfg) => configured cfg
  | WriteError _ _ | NoContent => True
  end.

Definition tsG (w w' : MW) : Prop := w_store w' = w_store w \/ ts_write (w_store w) (w_store w').
Abbreviation safe p Q := (safe verify uuid_ok authz seen tsG (answering account memberOf p) Q).

Lemma tsG_same (w w' : MW) : w_store w' = w_store w -> tsG w w'.
Proof. by left. Qed.

(** ** Rules *)

Lemma ts_bind {A B} (p : prog TS ts_error A) (k : A -> prog TS ts_error B) Q : safe p (fun a => safe (k a) Q) -> safe (bind p k) Q.
Proof. apply safe_answering_bind. Qed.

Lemma ts_weaken {A} (p : prog TS ts_error A) (Q Q' : A -> Prop) : (forall a, Q a -> Q' a) -> safe p Q -> safe p Q'.
Proof. apply safe_mono. Qed.

(** What may be used of a result: nothing when it is an error. *)
Definition onOk {E A} (R : A -> Prop) (r : result E A) : Prop := match r with Ok a => R a | Err _ => True end.

Lemma ts_orReply {A} (p : prog TS ts_error (result tsReply A)) (k : A -> prog TS ts_error tsReply) (R : A -> Prop) :
  safe p (fun r => match r with Ok a => R a | Err e => ts_discloses e end) -> (forall a, R a -> safe (k a) ts_discloses) ->
  safe (orReply p k) ts_discloses.
Proof. intros Hp Hk. apply ts_bind. eapply ts_weaken; [|exact Hp]. intros [a|e]; [apply Hk|done]. Qed.

Lemma writeStoreError_safe e : ts_discloses (writeStoreError e).
Proof. by destruct e. Qed.

Lemma ts_orStoreError {A} (p : prog TS ts_error (result ts_error A)) (k : A -> prog TS ts_error tsReply) (R : A -> Prop) :
  safe p (onOk R) -> (forall a, R a -> safe (k a) ts_discloses) -> safe (orReply (orStoreError p) k) ts_discloses.
Proof.
  intros Hp Hk. eapply ts_orReply; [|exact Hk]. apply ts_bind. eapply ts_weaken; [|exact Hp]. intros [a|e]; [done|]. intros _. apply writeStoreError_safe.
Qed.

Lemma ts_bad {A} (o : option A) (k : A -> prog TS ts_error tsReply) :
  (forall a, o = Some a -> safe (k a) ts_discloses) -> safe (orReply (orBadRequest o) k) ts_discloses.
Proof. intros Hk. destruct o; simpl; [by apply Hk|done]. Qed.

(** A company that parses is the path's. *)
Lemma ts_company (k : UUID -> prog TS ts_error tsReply) :
  (forall c', parseUUID companyId = Some c' -> c' = c) -> safe (k c) ts_discloses -> safe (orReply (orBadRequest (parseUUID companyId)) k) ts_discloses.
Proof. intros Hc Hk. apply ts_bad. intros c' ->%Hc. done. Qed.

Lemma ts_call {X} (m : TsTx X) (R : X -> Prop) :
  (forall w env x db, seen w -> m env (w_store w) = Ok (x, db) -> tsG w (mkMWorld db (w_authz w) (w_sent w)) /\ R x) -> safe (transact m) (onOk R).
Proof.
  intros Hm w x w' Hw [env Hx]. destruct (m env (w_store w)) as [[a db]|e] eqn:E; destruct Hx as [-> ->].
  - by eapply Hm.
  - split; [by left|done].
Qed.

Lemma ts_tread {X} (f : TS -> result ts_error X) (R : X -> Prop) : (forall w x, seen w -> f (w_store w) = Ok x -> R x) -> safe (transact (tread f)) (onOk R).
Proof. intros Hf. apply ts_call. intros w env x db Hw [H ->]%tread_ok. split; [by left|]. by eapply Hf. Qed.

Lemma ts_tswallow {X} (f : bool -> TS -> result ts_error X) (R : X -> Prop) :
  (forall w b x, seen w -> f b (w_store w) = Ok x -> R x) -> safe (transact (tswallow f)) (onOk R).
Proof. intros Hf. apply ts_call. intros w env x db Hw [H ->]%tswallow_ok. split; [by left|]. by eapply Hf. Qed.

Lemma ts_orFail {A B} (p : prog TS ts_error (result ts_error A)) (k : A -> prog TS ts_error (result ts_error B)) R Q :
  safe p (onOk R) -> (forall a, R a -> safe (k a) (onOk Q)) -> safe (orFail p k) (onOk Q).
Proof. intros Hp Hk. apply ts_bind. eapply ts_weaken; [|exact Hp]. intros [a|e]; [apply Hk|done]. Qed.

Lemma ts_check {A B} (r : result ts_error A) (k : A -> prog TS ts_error (result ts_error B)) Q :
  (forall a, r = Ok a -> safe (k a) (onOk Q)) -> safe (orFail (Ret r) k) (onOk Q).
Proof. intros Hk. destruct r; [by apply Hk|done]. Qed.

Lemma ts_member (k : UUID -> prog TS ts_error tsReply) :
  (forall m, callerMember c subject m -> safe (k m) ts_discloses) ->
  safe (orReply (resolveCallerMember parseUUID (uuidString c) subject) k) ts_discloses.
Proof.
  intros Hk. eapply ts_orReply; [|exact Hk]. simpl. destruct (memberOf (uuidString c) subject) as [[[text isMember] isActive]|] eqn:E; [|done].
  destruct (negb isMember || negb isActive) eqn:Ea; [done|]. destruct (parseUUID text) as [id|] eqn:Ep; [|done].
  apply orb_false_iff in Ea as [Hm Ha]. apply negb_false_iff in Hm as ->, Ha as ->. by exists text.
Qed.

(** ** The handlers *)

Hypothesis (Hmay : tsMay) (Hcompany : parseUUID companyId = Some c).

Lemma ts_at_company (k : UUID -> prog TS ts_error tsReply) :
  safe (k c) ts_discloses -> safe (orReply (orBadRequest (parseUUID companyId)) k) ts_discloses.
Proof. intros Hk. apply ts_company; [|done]. intros c' Hc'. congruence. Qed.

Lemma getConfig_safe : safe (getConfig c) (onOk configured).
Proof.
  apply ts_tswallow. intros v b cfg Hv [= <-]. unfold GetConfig, configured. destruct b; [auto|].
  destruct (configs (w_store v) !! c) as [s|] eqn:E; [|auto]. split; [done|]. right. left. by exists v.
Qed.

Lemma handleGetConfig_safe : safe (handleGetConfig parseUUID companyId rc) ts_discloses.
Proof. apply ts_at_company. eapply ts_orStoreError; [apply getConfig_safe|]. intros cfg Hc. exact Hc. Qed.

Lemma handleUpdateConfig_safe body : feature = featureConfigManage -> safe (handleUpdateConfig parseUUID companyId body rc) ts_discloses.
Proof.
  intros Hf. apply ts_at_company, ts_bad. intros req _. eapply ts_orStoreError; [apply (ts_call _ configured)|intros cfg Hc; exact Hc].
  intros w env x db Hw H%twrite_ok. split; [right; by eapply tw_config|].
  assert (x = mkConfig c req) as -> by (unfold UpdateConfig in H; repeat case_match; congruence). split; [done|]. right. right. by exists w, db.
Qed.

Lemma CreateProject_ok db nid actor c' code name st id db' p :
  CreateProject db nid actor c' code name st = Ok (id, db') -> projects db' !! id = Some p -> p_company p = c'.
Proof.
  unfold CreateProject. intros (u & _ & H)%result_bind_ok. repeat case_match; try done; injection H as <- <-; simpl; rewrite lookup_insert_eq; by intros [= <-].
Qed.

Lemma UpdateProject_ok db actor c' pid code name st id db' p :
  UpdateProject db actor c' pid code name st = Ok (id, db') -> projects db' !! id = Some p -> p_company p = c'.
Proof.
  unfold UpdateProject. intros (u & _ & H)%result_bind_ok. repeat case_match; try done; injection H as <- <-; simpl; rewrite lookup_insert_eq; by intros [= <-].
Qed.

Lemma handleCreateProject_safe body : feature = featureProjectsManage -> safe (handleCreateProject parseUUID companyId body rc) ts_discloses.
Proof.
  intros Hf. apply ts_at_company, ts_bad. intros req _.
  eapply ts_orStoreError; [apply (ts_call _ (fun p : UUID * Project => p_company p.2 = c))|intros p Hp; exact Hp].
  intros w env [id p] db _ [H Hp]%twrite_ok%returning_ok. split; [right; by eapply tw_create_project|by eapply CreateProject_ok].
Qed.

Lemma handleUpdateProject_safe projectId body :
  feature = featureProjectsManage -> safe (handleUpdateProject parseUUID companyId projectId body rc) ts_discloses.
Proof.
  intros Hf. apply ts_at_company, ts_bad. intros pid _. apply ts_bad. intros req _.
  eapply ts_orStoreError; [apply (ts_call _ (fun p : UUID * Project => p_company p.2 = c))|intros p Hp; exact Hp].
  intros w env [id p] db _ [H Hp]%twrite_ok%returning_ok. split; [right; by eapply tw_update_project|by eapply UpdateProject_ok].
Qed.

(** A page of rows: all of them rows, and as many as the page size allows. *)
Lemma listPage_safe {A} (rows : TS -> list A) order page pageSize k (R : A -> Prop) :
  (forall l, order l ≡ₚ l) -> (forall w x, seen w -> x ∈ rows (w_store w) -> R x) ->
  (forall l total, Forall R l -> pageBound l (ClampPage page pageSize).2 -> safe (k l total) ts_discloses) ->
  safe (listPage rows order page pageSize k) ts_discloses.
Proof.
  intros Ho HR Hk. eapply ts_orStoreError; [by apply (ts_tread _ (fun _ => True))|]. intros total _.
  eapply ts_orStoreError; [apply (ts_tread _ (fun l => Forall R l /\ pageBound l (ClampPage page pageSize).2))|intros l []; by apply Hk].
  intros w l Hw [Hin Hl]%pageOf_ok. split; [|exact Hl]. apply Forall_forall. intros x Hx%Hin. rewrite Ho in Hx. by eapply HR.
Qed.

Lemma handleListProjects_safe page pageSize : safe (handleListProjects parseUUID byCode companyId page pageSize rc) ts_discloses.
Proof.
  apply ts_at_company. destruct (PageParams page pageSize) as [p n].
  apply (listPage_safe _ _ _ _ _ (fun x : UUID * Project => p_company x.2 = c)); [done| |].
  - intros w x _ [? _]%list_elem_of_filter. done.
  - intros l total Hl Hb. by destruct (ClampPage p n).
Qed.

Lemma handleListApprovers_safe page pageSize : safe (handleListApprovers parseUUID byAssignedAt companyId page pageSize rc) ts_discloses.
Proof.
  apply ts_at_company. destruct (PageParams page pageSize) as [p n].
  apply (listPage_safe _ _ _ _ _ (fun a => aw_company a = c)); [done| |].
  - intros w x _ ([k v] & -> & [? _]%list_elem_of_filter)%list_elem_of_fmap. done.
  - intros l total Hl Hb. by destruct (ClampPage p n).
Qed.

Lemma ts_grant relation kcSub corr (k : bool -> prog TS ts_error tsReply) :
  safe (k false) ts_discloses ->
  (accepted (rc_RawBearer rc) (uuidString c) "grant" [relationTuple (uuidString c) relation kcSub] -> safe (k true) ts_discloses) ->
  safe (bind (GrantRelation (rc_RawBearer rc) (uuidString c) relation kcSub corr) k) ts_discloses.
Proof. intros H0 H1. apply ts_bind. apply (safe_Grant verify uuid_ok authz seen tsG tsG_same); [exact H0|exact H1]. Qed.

Lemma handleAssignApprover_safe body corr :
  feature = featureApproversManage -> safe (handleAssignApprover parseUUID companyId body corr rc) ts_discloses.
Proof.
  intros Hf. apply ts_at_company, ts_bad. intros req _. apply ts_bad. intros m _. apply ts_bad. intros a _.
  cbn [answering answerCall]. destruct (seqb (default "" _) "") eqn:E1; [done|].
  cbn [answering answerCall]. destruct (seqb (default "" (om_kcsub <$> account (uuidString a))) "") eqn:E2; [done|].
  assert (Hsub : forall x, seqb (default "" (om_kcsub <$> account x)) "" = false ->
    exists s, om_kcsub <$> account x = Some s /\ s <> "" /\ default "" (om_kcsub <$> account x) = s).
  { intros x. destruct (account x) as [o|]; simpl; [|done]. intros Hx. exists (om_kcsub o). split_and!; [done|by apply seqb_false|done]. }
  apply Hsub in E1 as (ms & Hms & Hmne & ->), E2 as (bs & Hbs & Hbne & ->).
  apply ts_grant; [done|]. intros G1. apply ts_grant; [done|]. intros G2.
  eapply ts_orStoreError; [apply (ts_call _ (fun _ => True))|done].
  intros w env x db _ H. apply (twrite_ok (Ok tt)) in H.
  assert (db = RecordApproverAssignment (w_store w) subject c m a bs) as -> by congruence. split; [right; by eapply (tw_assign _ _ m a ms bs)|done].
Qed.

Lemma handleListEntries_safe weekStart : safe (handleListEntries parseUUID companyId weekStart rc) ts_discloses.
Proof.
  apply ts_at_company. eapply ts_orReply; [by instantiate (1 := fun _ => True); destruct (parseWeekStart weekStart) as [|e] eqn:E; [|
    unfold parseWeekStart in E; repeat case_match; simplify_eq]|]. intros week _.
  apply ts_member. intros m Hm. eapply ts_orStoreError; [apply (ts_tread _ (Forall (fun e : UUID * Entry => e_company e.2 = c /\ callerMember c subject (e_member e.2))))|done].
  intros w l _ [= <-]. apply Forall_forall. intros e [(-> & <- & _) _]%list_elem_of_filter. done.
Qed.

Lemma upsertEntry_safe m p d real bill now :
  feature = featureEntriesManageOwn -> callerMember c subject m ->
  safe (upsertEntry subject c m p d real bill now) (onOk (fun e => e_company e.2 = c /\ e_member e.2 = m)).
Proof.
  intros Hf Hm. eapply ts_orFail; [apply getConfig_safe|]. intros cfg _. apply ts_check. intros [] Hh. apply ts_check. intros _ _.
  eapply ts_orFail; [by apply (ts_tswallow _ (fun _ => True))|]. intros pr _. cbv zeta.
  set (e := mkEntry _ _ _ _ _ _ _).
  assert (Hhe : hours_ok e) by (apply validateHours_ok in Hh as ([? ?] & [? ?] & _); split; by apply numeric62_range).
  assert (Hrow : forall db nid id e' db', insertEntry db nid subject e = Ok (id, db') -> entries db' !! id = Some e' -> e' = e).
  { intros db nid id e' db' (-> & _)%insertEntry_ok. rewrite lookup_insert_eq. by intros [= <-]. }
  eapply (ts_orFail _ _ (fun r => match r with Some r => e_company r.2 = c /\ e_member r.2 = m
                                  | None => exists v, seen v /\ find_entry (w_store v) c m p d = None end)).
  - apply ts_call. intros w env r db Hw H%(twrite_ok (Ok tt)). simpl in H.
    destruct (find_entry (w_store w) c m p d) as [[id0 old]|] eqn:Ef; [|injection H as <- <-; split; [by left|by exists w]].
    case_bool_decide as Hd; [|done]. simpl in H. apply result_bind_ok in H as ([[id e'] db1] & H & [= <- <-]).
    apply returning_ok in H as [H He]. split; [|by rewrite (Hrow _ _ _ _ _ H He)]. right. eapply (tw_entry _ _ _ m e); try done.
    intros id1 old1 E. left. simpl in E. congruence.
  - intros [r|]; [done|]. intros (v & Hv & Hn). apply ts_call. intros w env [id e'] db Hw [H He]%(twrite_ok (Ok tt))%returning_ok.
    split; [|by rewrite (Hrow _ _ _ _ _ H He)]. right. eapply (tw_entry _ _ _ m e); try done. intros id1 old1 _. right. by exists v.
Qed.

Lemma handleUpsertEntry_safe body now : feature = featureEntriesManageOwn -> safe (handleUpsertEntry parseUUID companyId body now rc) ts_discloses.
Proof.
  intros Hf. apply ts_at_company, ts_bad. intros req _. apply ts_bad. intros p _. apply ts_bad. intros d _.
  apply ts_member. intros m Hm. eapply ts_orStoreError; [by apply upsertEntry_safe|]. by intros e [? <-].
Qed.

Lemma handleDeleteEntry_safe entryId : feature = featureEntriesManageOwn -> safe (handleDeleteEntry parseUUID companyId entryId rc) ts_discloses.
Proof.
  intros Hf. apply ts_at_company, ts_bad. intros id _. apply ts_member. intros m Hm.
  eapply ts_orStoreError; [apply (ts_call _ (fun _ => True))|done].
  intros w env [] db _ H%(twrite_ok (Ok tt)). split; [right; by eapply tw_delete|done].
Qed.

Lemma parseWeekStart_ok raw w : parseWeekStart raw = Ok w -> isoMonday (w * secondsPerDay) = w * secondsPerDay.
Proof. unfold parseWeekStart. destruct (ParseDate raw); [|done]. destruct (_ =? _) eqn:E; [|done]. intros [= <-]. by apply Z.eqb_eq. Qed.

Lemma ts_week raw (k : Day -> prog TS ts_error tsReply) :
  (forall w, isoMonday (w * secondsPerDay) = w * secondsPerDay -> safe (k w) ts_discloses) ->
  safe (orReply (Ret (parseWeekStart raw)) k) ts_discloses.
Proof.
  intros Hk. destruct (parseWeekStart raw) as [w|e] eqn:E; simpl; [apply Hk; by eapply parseWeekStart_ok|].
  unfold parseWeekStart in E. repeat case_match; by simplify_eq.
Qed.

Lemma toSubmissionWire_shown b (r : UUID * Submission) :
  s_company r.2 = c -> (b = true -> s_approver_sub r.2 = subject \/ approves r.1) -> shown (toSubmissionWire b r).
Proof.
  intros Hc Hb. split; [done|]. simpl. rewrite !andb_true_iff, bool_decide_eq_true. intros [[? ?] ?]. auto.
Qed.

Lemma toCallersWire_shown (r : UUID * Submission) : s_company r.2 = c -> shown (toCallersWire rc r).
Proof. intros Hc. apply toSubmissionWire_shown; [done|]. intros ?%seqb_true. auto. Qed.

Lemma submitTx_row db nid root m w key a id db' s :
  submitTx payloadHash db nid root subject c m w key a = Ok (id, db') -> submissions db' !! id = Some s -> s_company s = c.
Proof.
  intros (-> & _ & _ & _ & sub & Hw & _ & _ & _ & _ & _ & Hrows & _)%submitTx_ok Hs. unfold wk in Hw. injection Hw as Hc _ _.
  destruct (find_current db c m w) as [[pid p]|].
  - destruct Hrows as (_ & _ & _ & E). rewrite E, lookup_insert_eq in Hs. congruence.
  - destruct Hrows as (_ & _ & E). rewrite E, lookup_insert_eq in Hs. congruence.
Qed.

Lemma submitWeek_safe m w key :
  feature = featureSubmissionsSubmit -> callerMember c subject m -> isoMonday (w * secondsPerDay) = w * secondsPerDay ->
  safe (submitWeek payloadHash subject c m w key) (onOk (fun r => s_company r.1.2 = c)).
Proof.
  intros Hf Hm Hw. unfold submitWeek. cbv zeta.
  set (create := orFail _ _). assert (Hcreate : safe create (onOk (fun r => s_company r.1.2 = c))).
  { eapply (ts_orFail _ _ (fun o => forall a, o = Some a -> exists v, seen v /\ assignments (w_store v) !! (c, m) = Some a)).
    - apply ts_tswallow. intros v b o Hv [= <-] a. destruct b; [done|]. simpl. eauto.
    - intros [a|] Ha; [|done]. eapply (ts_orFail _ _ (fun r => s_company r.2 = c)); [|by intros r].
      apply ts_call. intros v env [id s] db Hv [H Hs]%(twrite_ok (Ok tt))%returning_ok. split; [right; by eapply tw_submit; eauto|by eapply submitTx_row]. }
  clearbody create. destruct (seqb key ""); [done|]. eapply (ts_orFail _ _ (fun o => forall r, o = Some r -> s_company r.1.2 = c)).
  - apply ts_tread. intros v o _ [= <-] [[id s] h] (_ & H & _)%(findKey_Some payloadHash). done.
  - intros [[[id s] h]|] Ho; [|done]. simpl. destruct (negb _); [done|]. exact (Ho _ eq_refl).
Qed.

Lemma handleSubmitWeek_safe raw key : feature = featureSubmissionsSubmit -> safe (handleSubmitWeek parseUUID payloadHash companyId raw key rc) ts_discloses.
Proof.
  intros Hf. apply ts_at_company, ts_bad. intros r _. apply ts_week. intros w Hw. apply ts_member. intros m Hm.
  destruct (200 <? _)%nat; [done|]. eapply ts_orStoreError; [by apply submitWeek_safe|]. intros s Hs. by apply toCallersWire_shown.
Qed.

Lemma GetSubmission_ok db sid s : GetSubmission db c sid = Ok s -> s_company s = c.
Proof. unfold GetSubmission. destruct (submissions db !! sid); [|done]. case_bool_decide; [|done]. by intros [= <-]. Qed.

Lemma handleGetSubmission_safe submissionId : safe (handleGetSubmission parseUUID companyId submissionId rc) ts_discloses.
Proof.
  apply ts_at_company, ts_bad. intros sid _. eapply ts_orStoreError; [apply (ts_tread _ (fun s => s_company s = c))|intros s Hs; by apply toCallersWire_shown].
  intros v s _. apply GetSubmission_ok.
Qed.

Lemma decideAndGet_safe sid approve reason :
  feature = featureSubmissionsApprove -> safe (decideAndGet subject c sid approve reason) (onOk (fun s => s_company s.2 = c /\ approves s.1)).
Proof.
  intros Hf. eapply (ts_orFail _ _ (fun _ => approves sid)).
  - apply ts_call. intros v env [] db Hv H%(twrite_ok (Ok tt)). split; [right; by eapply tw_decide|].
    apply decideSubmission_ok in H as (s & Hs & Hc & Ha & _). by exists v, s.
  - intros _ Ha. eapply (ts_orFail _ _ (fun s => s_company s = c)); [|by intros s]. apply ts_tread. intros v s _. apply GetSubmission_ok.
Qed.

Lemma handleApproveSubmission_safe submissionId :
  feature = featureSubmissionsApprove -> safe (handleApproveSubmission parseUUID companyId submissionId rc) ts_discloses.
Proof.
  intros Hf. apply ts_at_company, ts_bad. intros sid _. eapply ts_orStoreError; [by apply decideAndGet_safe|]. intros s [Hs Ha].
  apply toSubmissionWire_shown; auto.
Qed.

Lemma handleRejectSubmission_safe submissionId reason :
  feature = featureSubmissionsApprove -> safe (handleRejectSubmission parseUUID companyId submissionId reason rc) ts_discloses.
Proof.
  intros Hf. apply ts_at_company, ts_bad. intros sid _. apply ts_bad. intros why _. eapply ts_orStoreError; [by apply decideAndGet_safe|]. intros s [Hs Ha].
  apply toSubmissionWire_shown; auto.
Qed.

Lemma handleListSubmissions_safe view page pageSize :
  safe (handleListSubmissions parseUUID bySubmittedAt companyId view page pageSize rc) ts_discloses.
Proof.
  apply ts_at_company. cbv zeta. apply ts_member. intros m _. destruct (PageParams page pageSize) as [p n].
  apply (listPage_safe _ _ _ _ _ (fun s : UUID * Submission => s_company s.2 = c)); [done| |].
  - intros w s _ [[? _] _]%list_elem_of_filter. done.
  - intros l total Hl Hb. destruct (ClampPage p n) as [p' n']. split; [|unfold pageBound in *; by rewrite length_fmap].
    apply Forall_fmap. eapply Forall_impl; [exact Hl|]. intros s Hs. by apply toCallersWire_shown.
Qed.

Lemma handler_safe req :
  feature = routeFeature req ->
  safe (handlerOf parseUUID payloadHash byCode byAssignedAt bySubmittedAt companyId req rc) ts_discloses.
Proof.
  destruct req; simpl; intros Hf.
  - apply handleGetConfig_safe.
  - by apply handleUpdateConfig_safe.
  - apply handleListProjects_safe.
  - by apply handleCreateProject_safe.
  - by apply handleUpdateProject_safe.
  - apply handleListApprovers_safe.
  - by apply handleAssignApprover_safe.
  - apply handleListEntries_safe.
  - by apply handleUpsertEntry_safe.
  - by apply handleDeleteEntry_safe.
  - apply handleListSubmissions_safe.
  - by apply handleSubmitWeek_safe.
  - apply handleGetSubmission_safe.
  - by apply handleApproveSubmission_safe.
  - by apply handleRejectSubmission_safe.
Qed.
End spec.

(** ** The routes *)

(** A verified caller whom the authorization service let use the route's feature in the
    path's company. *)
Definition tsCaller (header companyId : string) (req : tsRequest) (rc : requestContext) (c : UUID) : Prop :=
  Verify verify (BearerFromHeader header) = Some (rc_Subject rc) /\ rc_RawBearer rc = header /\ parseUUID companyId = Some c /\
  tsMay rc companyId (routeFeature req).
Definition ts_step_guarded (seen : MW -> Prop) (header companyId : string) (req : tsRequest) (db db' : TS) : Prop :=
  db' = db \/ exists rc c, tsCaller header companyId req rc c /\ ts_write seen rc c (routeFeature req) db db'.
Definition ts_reply_guarded (seen : MW -> Prop) (header companyId : string) (req : tsRequest) (r : tsReply) : Prop :=
  (exists st code, r = WriteError st code) \/ exists rc c, tsCaller header companyId req rc c /\ ts_discloses seen rc c r.

Hypothesis (Hempty : parseUUID "" = None).

Lemma handlerOf_bad companyId req rc :
  parseUUID companyId = None -> handlerOf parseUUID payloadHash byCode byAssignedAt bySubmittedAt companyId req rc = Ret badRequest.
Proof.
  intros H. destruct req; simpl; unfold handleGetConfig, handleUpdateConfig, handleListProjects, handleCreateProject, handleUpdateProject,
    handleListApprovers, handleAssignApprover, handleListEntries, handleUpsertEntry, handleDeleteEntry, handleListSubmissions, handleSubmitWeek,
    handleGetSubmission, handleApproveSubmission, handleRejectSubmission; by rewrite H.
Qed.

Lemma ts_serve_safe seen header companyId req :
  safe verify uuid_ok authz seen (fun w w' => ts_step_guarded seen header companyId req (w_store w) (w_store w'))
    (answering account memberOf (serve verify parseUUID payloadHash byCode byAssignedAt bySubmittedAt header companyId req))
    (ts_reply_guarded seen header companyId req).
Proof.
  assert (Hsame : forall w w' : MW, w_store w' = w_store w -> ts_step_guarded seen header companyId req (w_store w) (w_store w')) by (by left).
  unfold serve, withAuth. destruct (Verify _ _) as [subject|] eqn:Hv; [|left; by eexists _, _].
  destruct (seqb companyId "") eqn:E.
  { apply seqb_true in E as ->. rewrite handlerOf_bad by done. left. by eexists _, _. }
  apply safe_answering_bind. apply (safe_DoCan verify uuid_ok authz seen _ Hsame); [left; by eexists _, _|intros; left; by eexists _, _|].
  intros reason Hm. simpl. destruct (parseUUID companyId) as [c|] eqn:Hp; [|rewrite handlerOf_bad by done; left; by eexists _, _].
  set (rc := mkContext subject header). assert (Hc : tsCaller header companyId req rc c) by done.
  eapply safe_weaken; [| |apply (handler_safe seen rc companyId c (routeFeature req)); done].
  - intros w w' [?|?]; [by left|]. right. eauto.
  - intros r Hr. right. eauto.
Qed.
End props.
