(* ===== verification/TimesheetTables.v ===== *)
(** * The timesheet tables under interleaved requests

    The constraints of the schema and the version chains, kept by every call of every
    request of the service, in whatever order they come. *)

From stdpp Require Import base gmap strings list relations.
From Stdlib Require Import QArith.
From S2P Require Import Prelude GoStrings Tuple TupleStore Decision Clients AuthzHTTP AdminClient OrgTree Org OrgProps ModuleKit ModuleRules Timesheet TimesheetProps TimesheetHTTP TimesheetService.
Open Scope Z_scope.

Definition slot (e : Entry) : UUID * UUID * UUID * Day := (e_company e, e_member e, e_project e, e_date e).
Definition monday (d : Day) : Prop := isoMonday (d * secondsPerDay) = d * secondsPerDay.

Record ts_tables (db : TS) : Prop := {
  tt_versions : versions_ok (submissions db);
  tt_keys : keys_unique (submissions db);
  tt_mondays : forall i s, submissions db !! i = Some s -> monday (s_week s);
  tt_hours : map_Forall (fun _ e => hours_ok e) (entries db);
  tt_slots : forall i j e f, entries db !! i = Some e -> entries db !! j = Some f -> slot e = slot f -> i = j;
  tt_entry_project : forall i e, entries db !! i = Some e -> is_Some (projects db !! e_project e);
  tt_codes : forall i j p q, projects db !! i = Some p -> projects db !! j = Some q -> p_company p = p_company q -> p_code p = p_code q -> i = j
}.

Lemma ts_tables_empty : ts_tables emptyTS.
Proof.
  split; simpl; unfold keys_unique; try (intros *; by rewrite lookup_empty); [apply versions_ok_empty|apply map_Forall_empty].
Qed.

Section change.
Context (payloadHash : UUID -> UUID -> Day -> string).

(** What a call of the service does to the tables: nothing, a committed store call, or
    the insert of an entry for which no row was locked. *)
Inductive ts_change (db db' : TS) : Prop :=
| tc_same : db' = db -> ts_change db db'
| tc_step : step payloadHash db db' ->
    (forall i s, submissions db' !! i = Some s -> submissions db !! i = None -> monday (s_week s)) -> ts_change db db'
| tc_insert nid actor e id : hours_ok e -> insertEntry db nid actor e = Ok (id, db') -> ts_change db db'.

(** ** Entries *)

Lemma find_entry_None db e i f :
  find_entry db (e_company e) (e_member e) (e_project e) (e_date e) = None -> entries db !! i = Some f -> slot f <> slot e.
Proof. intros Hn Hi E. unfold slot in E. injection E as ? ? ? ?. by apply (find_row_None _ _ i f Hn Hi). Qed.

Lemma find_entry_slot db e i f :
  find_entry db (e_company e) (e_member e) (e_project e) (e_date e) = Some (i, f) -> entries db !! i = Some f /\ slot f = slot e.
Proof. intros [? (E1 & E2 & E3 & E4)]%find_entry_Some. split; [done|]. unfold slot. congruence. Qed.

(** The rows of the entries after a change: the old ones with their slots, and one
    with a slot of its own. *)
Definition entry_rows (db db' : TS) : Prop :=
  exists nid ne, (forall j f, entries db !! j = Some f -> slot f = slot ne -> j = nid) /\ is_Some (projects db !! e_project ne) /\
    forall i e, entries db' !! i = Some e -> (exists e0, entries db !! i = Some e0 /\ slot e = slot e0) \/ (i = nid /\ e = ne).
Definition entries_kept (db db' : TS) : Prop :=
  forall i e, entries db' !! i = Some e -> exists e0, entries db !! i = Some e0 /\ slot e = slot e0.

Lemma insertEntry_rows db nid actor e id db' : ts_tables db -> insertEntry db nid actor e = Ok (id, db') -> entry_rows db db'.
Proof.
  intros Hdb H. pose proof (insertEntry_ok _ _ _ _ _ _ H) as (E & _ & Hwhere). exists id, e. split; [|split].
  - intros j f Hj Hs. destruct Hwhere as [[old Hf]|[Hn _]].
    + apply find_entry_slot in Hf as [Hid Ho]. apply (tt_slots _ Hdb j id f old Hj Hid). congruence.
    + exfalso. unfold insertEntry in H. destruct (find_entry _ _ _ _ _) as [[i old]|] eqn:Hf.
      * injection H as <- <-. apply find_entry_slot in Hf as [Hid _]. congruence.
      * by apply (find_entry_None _ _ _ _ Hf Hj).
  - destruct Hwhere as [[old Hf]|[_ Hp]]; [|done]. apply find_entry_slot in Hf as [Hid Ho]. unfold slot in Ho. injection Ho as _ _ <- _.
    by apply (tt_entry_project _ Hdb id).
  - intros i f. rewrite E. intros [[<- <-]|[_ Hi]]%lookup_insert_Some; [by right|left]. eauto.
Qed.

Lemma fmap_entries_kept db db' (g : Entry -> Entry) : entries db' = g <$> entries db -> (forall e, slot (g e) = slot e) -> entries_kept db db'.
Proof. intros E Hg i e. rewrite E. intros (e0 & <- & He)%lookup_fmap_Some. eauto. Qed.

Lemma step_entries db db' : step payloadHash db db' -> ts_tables db -> entries_kept db db' \/ entry_rows db db'.
Proof.
  assert (Hsame : forall d d', entries d' = entries d -> entries_kept d d') by (intros d d' E i e; rewrite E; eauto).
  intros [db0 actor cid cf c' db1 H|db0 nid actor cid code name st id' db1 H|db0 actor cid pid code name st id' db1 H
         |db0 actor cid m a sub|f1 f2 db0 db2 nid now actor cid m p d real bill id' db1 H|db0 actor cid m eid db1 H
         |f db0 db2 nid root actor cid m w key id' created db1 H|db0 actor cid sid approve reason db1 H] Hdb.
  - left. apply Hsame. unfold UpdateConfig in H. repeat case_match; naive_solver.
  - left. apply Hsame. unfold CreateProject in H. apply result_bind_ok in H as (? & _ & H). repeat case_match; naive_solver.
  - left. apply Hsame. unfold UpdateProject in H. apply result_bind_ok in H as (? & _ & H). repeat case_match; naive_solver.
  - left. by apply Hsame.
  - right. unfold UpsertEntry in H. do 4 (apply result_bind_ok in H as (? & _ & H)). by eapply insertEntry_rows.
  - left. unfold DeleteEntry in H. destruct (entries db0 !! eid); [|done]. destruct (negb _); [done|]. destruct (negb _); [done|]. injection H as <-.
    intros i x; simpl; intros [_ Hi]%lookup_delete_Some. eauto.
  - left. apply SubmitWeek_ok in H as [[_ ->]|[_ [a H]]]; [by apply Hsame|].
    apply submitTx_ok in H as (_ & _ & _ & _ & sub & _ & _ & _ & _ & _ & _ & _ & E).
    eapply fmap_entries_kept; [exact E|]. intros x. cbv beta. by case_decide.
  - left. apply decideSubmission_ok in H as (s & _ & _ & _ & _ & _ & _ & _ & E).
    eapply fmap_entries_kept; [exact E|]. intros x. cbv beta. by case_decide.
Qed.

Lemma slots_rows db db' : ts_tables db -> entries_kept db db' \/ entry_rows db db' ->
  forall i j e f, entries db' !! i = Some e -> entries db' !! j = Some f -> slot e = slot f -> i = j.
Proof.
  intros Hdb [H|(nid & ne & Hn & _ & H)] i j e f Hi Hj E.
  - destruct (H i e Hi) as (e0 & He & E1), (H j f Hj) as (f0 & Hf & E2). apply (tt_slots _ Hdb i j e0 f0 He Hf). congruence.
  - destruct (H i e Hi) as [(e0 & He & E1)|[-> ->]], (H j f Hj) as [(f0 & Hf & E2)|[-> ->]].
    + apply (tt_slots _ Hdb i j e0 f0 He Hf). congruence.
    + apply (Hn i e0 He). congruence.
    + symmetry. apply (Hn j f0 Hf). congruence.
    + done.
Qed.

Lemma project_rows db db' : ts_tables db -> entries_kept db db' \/ entry_rows db db' ->
  (forall p, is_Some (projects db !! p) -> is_Some (projects db' !! p)) ->
  forall i e, entries db' !! i = Some e -> is_Some (projects db' !! e_project e).
Proof.
  intros Hdb H Hp i e Hi.
  assert (Hold : forall e0, entries db !! i = Some e0 -> slot e = slot e0 -> is_Some (projects db' !! e_project e)).
  { intros e0 He E. unfold slot in E. injection E as _ _ -> _. by eapply Hp, tt_entry_project. }
  destruct H as [H|(nid & ne & _ & Hne & H)]; [destruct (H i e Hi) as (e0 & ? & ?); eauto|].
  destruct (H i e Hi) as [(e0 & ? & ?)|[-> ->]]; eauto.
Qed.

(** ** Projects *)

Lemma code_taken_false db c code ex i p :
  code_taken db c code ex = false -> projects db !! i = Some p -> p_company p = c -> p_code p = code -> Some i = ex.
Proof.
  unfold code_taken. intros H Hi Hc Hk. apply not_true_iff_false in H. rewrite existsb_exists in H. apply dec_stable. intros Hne. apply H.
  exists (i, p). split; [by apply list_elem_of_In, elem_of_map_to_list|]. apply bool_decide_eq_true. done.
Qed.

Definition codes_ok (m : gmap UUID Project) : Prop :=
  forall i j p q, m !! i = Some p -> m !! j = Some q -> p_company p = p_company q -> p_code p = p_code q -> i = j.

Lemma codes_insert db id p :
  codes_ok (projects db) -> (forall i q, projects db !! i = Some q -> p_company q = p_company p -> p_code q = p_code p -> i = id) ->
  codes_ok (<[id := p]> (projects db)).
Proof.
  intros H Hn i j q r [[<- <-]|[_ Hi]]%lookup_insert_Some [[<- <-]|[_ Hj]]%lookup_insert_Some Hc Hk; [done|symmetry| |].
  - by eapply Hn.
  - by eapply Hn.
  - by eapply H.
Qed.

Lemma step_projects db db' : step payloadHash db db' -> codes_ok (projects db) ->
  codes_ok (projects db') /\ forall p, is_Some (projects db !! p) -> is_Some (projects db' !! p).
Proof.
  assert (Hsame : forall d d', projects d' = projects d -> codes_ok (projects d) ->
    codes_ok (projects d') /\ forall p, is_Some (projects d !! p) -> is_Some (projects d' !! p)) by (intros d d' ->; done).
  assert (Hins : forall d d' id p, projects d' = <[id := p]> (projects d) -> codes_ok (projects d) ->
    (forall i q, projects d !! i = Some q -> p_company q = p_company p -> p_code q = p_code p -> i = id) ->
    codes_ok (projects d') /\ forall p, is_Some (projects d !! p) -> is_Some (projects d' !! p)).
  { intros d d' id p -> H Hn. split; [by apply codes_insert|]. intros i. rewrite lookup_insert_is_Some. destruct (decide (id = i)); auto. }
  intros [db0 actor cid cf c' db1 H|db0 nid actor cid code name st id' db1 H|db0 actor cid pid code name st id' db1 H
         |db0 actor cid m a sub|f1 f2 db0 db2 nid now actor cid m p d real bill id' db1 H|db0 actor cid m eid db1 H
         |f db0 db2 nid root actor cid m w key id' created db1 H|db0 actor cid sid approve reason db1 H] Hc.
  - apply Hsame; [|done]. unfold UpdateConfig in H. repeat case_match; naive_solver.
  - unfold CreateProject in H. apply result_bind_ok in H as (u & _ & H). destruct (code_taken _ _ _ _) eqn:Ht; [done|].
    case_bool_decide; [done|]. injection H as _ <-. eapply Hins; [done|done|]. simpl. intros i q Hi E1 E2. by pose proof (code_taken_false _ _ _ _ _ _ Ht Hi E1 E2).
  - unfold UpdateProject in H. apply result_bind_ok in H as (u & _ & H). destruct (projects db0 !! pid) as [p|] eqn:Hp; [|done].
    destruct (negb _); [done|]. destruct (code_taken _ _ _ _) eqn:Ht; [done|]. injection H as _ <-. eapply Hins; [done|done|].
    simpl. intros i q Hi E1 E2. pose proof (code_taken_false _ _ _ _ _ _ Ht Hi E1 E2). congruence.
  - by apply Hsame.
  - apply Hsame; [|done]. unfold UpsertEntry in H. do 4 (apply result_bind_ok in H as (? & _ & H)). unfold insertEntry in H. repeat case_match; naive_solver.
  - apply Hsame; [|done]. unfold DeleteEntry in H. repeat case_match; naive_solver.
  - apply Hsame; [|done]. apply SubmitWeek_ok in H as [[_ ->]|[_ [a H]]]; [done|]. unfold submitTx in H. repeat case_match; naive_solver.
  - apply Hsame; [|done]. unfold decideSubmission in H. repeat case_match; naive_solver.
Qed.

(** ** Every change keeps the tables *)

Lemma step_weeks db db' i s :
  step payloadHash db db' -> submissions db' !! i = Some s -> is_Some (submissions db !! i) ->
  exists s0, submissions db !! i = Some s0 /\ s_week s = s_week s0.
Proof.
  intros Hs Hi [s0 H0]. exists s0. split; [done|]. destruct (step_submission_kept _ _ _ _ _ Hs H0) as (s' & Hs' & Hw & _).
  unfold wk in Hw. injection Hw as _ _ Hw. congruence.
Qed.

Lemma ts_change_tables db db' : ts_change db db' -> ts_tables db -> ts_tables db'.
Proof.
  intros [->|Hs Hm|nid actor e id He Hi] Hdb; [done| |].
  - destruct (step_projects _ _ Hs (tt_codes _ Hdb)) as [Hc Hp]. pose proof (step_entries _ _ Hs Hdb) as Hrows. split; [..|exact Hc].
    + by eapply step_versions, tt_versions.
    + by eapply step_keys, tt_keys.
    + intros i s Hi. destruct (submissions db !! i) as [s0|] eqn:E; [|by eapply Hm]. destruct (step_weeks _ _ i s Hs Hi) as (s1 & Hs1 & ->); [done|].
      by eapply tt_mondays.
    + by eapply step_hours, tt_hours.
    + by apply (slots_rows db).
    + by apply (project_rows db).
  - pose proof (insertEntry_rows _ _ _ _ _ _ Hdb Hi) as Hrows. pose proof (insertEntry_ok _ _ _ _ _ _ Hi) as (Ee & Es & _).
    assert (Ep : projects db' = projects db) by (unfold insertEntry in Hi; repeat case_match; naive_solver).
    split; rewrite ?Es, ?Ep; try apply Hdb.
    + rewrite Ee. apply map_Forall_insert_2; [done|apply Hdb].
    + apply (slots_rows db); auto.
    + rewrite <- Ep. apply (project_rows db); [done|auto|by rewrite Ep].
Qed.
End change.

(** ** The service's calls *)

Section service.
Context `{UT : UUIDText} (verify : string -> option Claims) (uuid_ok : string -> bool) (authz : Service -> Prop).
Context (parseUUID : string -> option UUID) (payloadHash : UUID -> UUID -> Day -> string).
Context (byCode : list (UUID * Project) -> list (UUID * Project))
  (byAssignedAt : list approverAssignmentWire -> list approverAssignmentWire)
  (bySubmittedAt : list (UUID * Submission) -> list (UUID * Submission)).

(** The transactions of the service's methods. *)
Inductive tsMethod : forall X : Type, TsTx X -> Prop :=
| tm_read X (f : TS -> result ts_error X) : tsMethod X (tread f)
| tm_swallow X (f : bool -> TS -> result ts_error X) : tsMethod X (tswallow f)
| tm_config a c cfg : tsMethod _ (updateConfig a c cfg)
| tm_create a c code name st : tsMethod _ (createProject a c code name st)
| tm_update a c p code name st : tsMethod _ (updateProject a c p code name st)
| tm_assign a c m ap sub : tsMethod _ (recordApproverAssignment a c m ap sub)
| tm_locked a e : hours_ok e -> e_status e = draft -> tsMethod _ (lockedUpsert a e)
| tm_unlocked a e : hours_ok e -> e_status e = draft -> tsMethod _ (unlockedUpsert a e)
| tm_delete a c m e : tsMethod _ (deleteEntry a c m e)
| tm_submit a c m w k ap : monday w -> tsMethod _ (submit payloadHash a c m w k ap)
| tm_decide a c s ap why : tsMethod _ (twrite (Ok tt) (fun _ db => decideSubmission db a c s ap why)).

Abbreviation change := (ts_change payloadHash).

Lemma keeps_submissions db db' : submissions db' = submissions db ->
  forall i s, submissions db' !! i = Some s -> submissions db !! i = None -> monday (s_week s).
Proof. intros -> i s. congruence. Qed.

(** A submit is a step whose reads saw no earlier use of the key. *)
Lemma submitTx_step db nid root actor c m w key a id db' :
  submitTx payloadHash db nid root actor c m w key a = Ok (id, db') -> step payloadHash db db'.
Proof.
  intros H. apply (step_submit payloadHash false (with_assignments emptyTS {[(c, m) := a]}) db nid root actor c m w key id true).
  unfold SubmitWeek, AssignedApprover. simpl. rewrite lookup_singleton_eq, H. destruct (seqb key ""); [done|]. simpl.
  unfold findSubmissionByIdempotencyKey. simpl. by rewrite map_to_list_empty.
Qed.

Lemma ts_method_change X (m : TsTx X) env db x db' : tsMethod X m -> m env db = Ok (x, db') -> change db db'.
Proof.
  destruct 1 as [X f|X f|a c cfg|a c code name st|a c p code name st|a c m ap sub|a e He Hd|a e He Hd|a c m e|a c m w k ap Hw|a c s ap why]; intros H.
  - apply tread_ok in H as [_ ->]. by apply tc_same.
  - apply tswallow_ok in H as [_ ->]. by apply tc_same.
  - apply twrite_ok in H. apply tc_step; [by eapply step_config|]. apply keeps_submissions. unfold UpdateConfig in H. repeat case_match; naive_solver.
  - destruct x as [i p]. apply twrite_ok, returning_ok in H as [H _]. apply tc_step; [by eapply step_create_project|]. apply keeps_submissions.
    unfold CreateProject in H. apply result_bind_ok in H as (? & _ & H). repeat case_match; naive_solver.
  - destruct x as [i q]. apply twrite_ok, returning_ok in H as [H _]. apply tc_step; [by eapply step_update_project|]. apply keeps_submissions.
    unfold UpdateProject in H. apply result_bind_ok in H as (? & _ & H). repeat case_match; naive_solver.
  - apply (twrite_ok (Ok tt)) in H. assert (db' = RecordApproverAssignment db a c m ap sub) as -> by congruence.
    apply tc_step; [apply step_assign|]. by apply keeps_submissions.
  - apply (twrite_ok (Ok tt)) in H. simpl in H. destruct (find_entry _ _ _ _ _) as [[i old]|]; [|injection H as _ <-; by apply tc_same].
    destruct (negb _); [done|]. apply result_bind_ok in H as ([[i' e'] d] & H & E). apply returning_ok in H as [H _]. injection E as _ <-. by eapply tc_insert.
  - destruct x as [i p]. apply (twrite_ok (Ok tt)), returning_ok in H as [H _]. by eapply tc_insert.
  - apply (twrite_ok (Ok tt)) in H. destruct x. apply tc_step; [by eapply step_delete|]. apply keeps_submissions. unfold DeleteEntry in H.
    repeat case_match; naive_solver.
  - destruct x as [i p]. apply (twrite_ok (Ok tt)), returning_ok in H as [H _]. apply tc_step; [by eapply submitTx_step|]. intros j s Hj Hn.
    pose proof (submitTx_ok _ _ _ _ _ _ _ _ _ _ _ _ H) as (-> & _ & _ & _ & sub & Hwk & _ & _ & _ & _ & _ & Hrows & _). unfold wk in Hwk. injection Hwk as _ _ Hwk.
    destruct (find_current db c m w) as [[pid pr]|] eqn:Ef.
    + destruct Hrows as (_ & _ & _ & E). rewrite E in Hj. apply lookup_insert_Some in Hj as [[_ <-]|[_ Hj]]; [by rewrite Hwk|].
      apply lookup_insert_Some in Hj as [[<- _]|[_ Hj]]; [|congruence]. apply find_current_Some in Ef as [Ef _]. congruence.
    + destruct Hrows as (_ & _ & E). rewrite E in Hj. apply lookup_insert_Some in Hj as [[_ <-]|[_ Hj]]; [by rewrite Hwk|congruence].
  - apply (twrite_ok (Ok tt)) in H. destruct x. apply tc_step; [by eapply step_decide|]. apply decideSubmission_ok in H as (s0 & Hs & _ & _ & _ & _ & _ & E & _).
    intros j y. rewrite E. intros [[<- _]|[_ Hy]]%lookup_insert_Some; congruence.
Qed.

Definition tsCall (X : Type) (c : call TS ts_error X) : Prop :=
  match c with @Transact _ _ Y m => tsMethod Y m | _ => True end.
Abbreviation stored := (calls tsCall).

Lemma transact_stored {A} (m : TsTx A) : tsMethod _ m -> stored (transact m).
Proof. by split. Qed.

Lemma storeCall_stored {A} (m : TsTx A) : tsMethod _ m -> stored (storeCall m).
Proof. by split. Qed.

Lemma orReply_stored {A} (p : prog TS ts_error (result tsReply A)) k : stored p -> (forall a, stored (k a)) -> stored (orReply p k).
Proof. apply calls_orReply. Qed.

Lemma orStoreError_stored {A} (p : prog TS ts_error (result ts_error A)) : stored p -> stored (orStoreError p).
Proof. intros Hp. apply calls_bind; [done|]. by intros. Qed.

Lemma orFail_stored {A B} (p : prog TS ts_error (result ts_error A)) (k : A -> prog TS ts_error (result ts_error B)) :
  stored p -> (forall a, stored (k a)) -> stored (orFail p k).
Proof. intros Hp Hk. apply calls_bind; [done|]. by intros []. Qed.

Lemma check_stored {A B} (r : result ts_error A) (k : A -> prog TS ts_error (result ts_error B)) :
  (forall a, r = Ok a -> stored (k a)) -> stored (orFail (Ret r) k).
Proof. intros Hk. destruct r; [by apply Hk|done]. Qed.

Lemma orBadRequest_stored {A} (o : option A) k : (forall a, stored (k a)) -> stored (orReply (orBadRequest o) k).
Proof. intros Hk. destruct o; [apply Hk|done]. Qed.

Lemma member_stored c s k : (forall m, stored (k m)) -> stored (orReply (resolveCallerMember parseUUID c s) k).
Proof. intros Hk. apply orReply_stored; [by split|done]. Qed.

Lemma listPage_stored {A} (rows : TS -> list A) order p n k : (forall l t, stored (k l t)) -> stored (listPage rows order p n k).
Proof. intros Hk. apply orReply_stored; [by apply storeCall_stored; constructor|]. intros t. apply orReply_stored; [by apply storeCall_stored; constructor|]. auto. Qed.

Lemma upsertEntry_stored a c m p d real bill now : stored (upsertEntry a c m p d real bill now).
Proof.
  apply orFail_stored; [by split; [constructor|]|]. intros cfg.
  apply check_stored. intros [] Hh. apply check_stored. intros _ _. apply orFail_stored; [by split; [constructor|]|]. intros pr. cbv zeta. set (e := mkEntry _ _ _ _ _ _ _).
  assert (hours_ok e) by (apply validateHours_ok in Hh as ([? ?] & [? ?] & _); split; by apply numeric62_range).
  apply orFail_stored; [by apply transact_stored; constructor|]. intros [r|]; [done|]. by apply transact_stored; constructor.
Qed.

Lemma submitWeek_stored a c m w key : monday w -> stored (submitWeek payloadHash a c m w key).
Proof.
  intros Hw. unfold submitWeek. cbv zeta. set (create := orFail _ _). assert (Hc : stored create).
  { apply orFail_stored; [by split; [constructor|]|]. intros [ap|]; [|done]. apply orFail_stored; [by apply transact_stored; constructor|]. done. }
  clearbody create. destruct (seqb key ""); [done|]. apply orFail_stored; [by split; [constructor|]|]. intros [[[i s] h]|]; [|done]. by destruct (negb _).
Qed.

Lemma decideAndGet_stored a c s ap why : stored (decideAndGet a c s ap why).
Proof.
  apply orFail_stored; [by apply transact_stored; constructor|]. intros _. apply orFail_stored; [by apply transact_stored; constructor|]. done.
Qed.

Lemma week_stored raw k : (forall w, monday w -> stored (k w)) -> stored (orReply (Ret (parseWeekStart raw)) k).
Proof.
  intros Hk. destruct (parseWeekStart raw) as [w|e] eqn:E; simpl; [|done]. apply Hk. by eapply parseWeekStart_ok.
Qed.

Lemma handler_stored companyId req rc :
  stored (handlerOf parseUUID payloadHash byCode byAssignedAt bySubmittedAt companyId req rc).
Proof.
  destruct req; simpl; apply orBadRequest_stored; intros c.
  - apply orReply_stored; [|done]. by split; [constructor|].
  - apply orBadRequest_stored. intros r. apply orReply_stored; [apply storeCall_stored; constructor|done].
  - destruct (PageParams _ _) as [p n]. apply listPage_stored. intros l t. by destruct (ClampPage p n).
  - apply orBadRequest_stored. intros r. apply orReply_stored; [apply storeCall_stored; constructor|done].
  - apply orBadRequest_stored. intros pid. apply orBadRequest_stored. intros r. apply orReply_stored; [apply storeCall_stored; constructor|done].
  - destruct (PageParams _ _) as [p n]. apply listPage_stored. intros l t. by destruct (ClampPage p n).
  - apply orBadRequest_stored. intros r. apply orBadRequest_stored. intros m. apply orBadRequest_stored. intros a. split; [done|]. intros o1. cbv zeta.
    destruct (seqb _ ""); [done|]. split; [done|]. intros o2. cbv zeta. destruct (seqb _ ""); [done|]. apply calls_bind; [by split|]. intros [|]; [|done].
    apply calls_bind; [by split|]. intros [|]; [|done]. apply orReply_stored; [apply storeCall_stored; constructor|done].
  - apply week_stored. intros w _. apply member_stored. intros m. apply orReply_stored; [apply storeCall_stored; constructor|done].
  - apply orBadRequest_stored. intros r. apply orBadRequest_stored. intros p. apply orBadRequest_stored. intros d. apply member_stored. intros m.
    apply orReply_stored; [apply orStoreError_stored, upsertEntry_stored|done].
  - apply orBadRequest_stored. intros e. apply member_stored. intros m. apply orReply_stored; [apply storeCall_stored; constructor|done].
  - cbv zeta. apply member_stored. intros m. destruct (PageParams _ _) as [p n]. apply listPage_stored. intros l t. by destruct (ClampPage p n).
  - apply orBadRequest_stored. intros r. apply week_stored. intros w Hw. apply member_stored. intros m. destruct (200 <? _)%nat; [done|].
    apply orReply_stored; [by apply orStoreError_stored, submitWeek_stored|done].
  - apply orBadRequest_stored. intros s. apply orReply_stored; [apply storeCall_stored; constructor|done].
  - apply orBadRequest_stored. intros s. apply orReply_stored; [apply orStoreError_stored, decideAndGet_stored|done].
  - apply orBadRequest_stored. intros s. apply orBadRequest_stored. intros why. apply orReply_stored; [apply orStoreError_stored, decideAndGet_stored|done].
Qed.

Lemma ts_serve_stored header companyId req : stored (serve verify parseUUID payloadHash byCode byAssignedAt bySubmittedAt header companyId req).
Proof.
  unfold serve, withAuth. destruct (Verify _ _); [|done]. destruct (seqb companyId ""); [apply handler_stored|].
  apply calls_bind; [by split|]. intros [[]|]; [apply handler_stored|done..].
Qed.

(** ** Requests side by side *)

Abbreviation pool := (list (prog TS ts_error tsReply) * MWorld TS)%type.

(** A step is one call of one request, the arrival of another, or what the other
    services do. *)
Inductive ts_advance : pool -> pool -> Prop :=
| ta_arrive header companyId req ps w :
    ts_advance (ps, w) (serve verify parseUUID payloadHash byCode byAssignedAt bySubmittedAt header companyId req :: ps, w)
| ta_call i ps w X (c : call TS ts_error X) k x w' :
    ps !! i = Some (Call c k) -> exec verify uuid_ok authz c w x w' -> ts_advance (ps, w) (<[i := k x]> ps, w')
| ta_others ps w aw sent : ts_advance (ps, w) (ps, mkMWorld (w_store w) aw sent).

Lemma exec_ts_change {X} (c : call TS ts_error X) w x w' : tsCall X c -> exec verify uuid_ok authz c w x w' -> change (w_store w) (w_store w').
Proof.
  destruct c; simpl; intros Hm Hx; try (subst; by apply tc_same).
  - destruct Hx as [env Hx]. destruct (m env (w_store w)) as [[a db]|e] eqn:E; destruct Hx as [_ ->]; [by eapply ts_method_change|by apply tc_same].
  - destruct Hx as [-> _]. by apply tc_same.
  - destruct Hx as [-> _]. by apply tc_same.
  - destruct Hx as [[_ ->]|(? & ? & ? & ? & _ & _ & _ & ->)]; by apply tc_same.
  - destruct Hx as [[_ ->]| ->]; by apply tc_same.
Qed.

Lemma ts_advance_keeps s s' :
  ts_advance s s' -> Forall (fun p => stored p) s.1 -> Forall (fun p => stored p) s'.1 /\ change (w_store s.2) (w_store s'.2).
Proof.
  destruct 1 as [header companyId req ps w|i ps w X c k x w' Hi Hx|ps w aw sent]; simpl; intros Hs.
  - split; [|by apply tc_same]. constructor; [apply ts_serve_stored|done].
  - pose proof (Forall_lookup_1 _ _ _ _ Hs Hi) as [Hm Hk]. split; [by apply Forall_insert|by eapply exec_ts_change].
  - split; [done|by apply tc_same].
Qed.

Lemma ts_advances_keep s s' : rtc ts_advance s s' -> Forall (fun p => stored p) s.1 -> ts_tables (w_store s.2) -> ts_tables (w_store s'.2).
Proof.
  induction 1 as [s|s s1 s' H1 _ IH]; intros Hs Ht; [done|]. destruct (ts_advance_keeps _ _ H1 Hs) as [Hs1 Hc].
  apply IH; [done|]. by eapply ts_change_tables.
Qed.
End service.
