(* ===== verification/TimesheetClaims.v ===== *)
(** * The timesheet service: its guarantees

    Every request's changes and replies are authorised, and the version chains, hours
    and constraints of the tables hold whatever requests run side by side. *)

From stdpp Require Import base gmap strings list relations.
From Stdlib Require Import QArith.
From S2P Require Import Prelude GoStrings Tuple TupleStore Decision Clients AuthzHTTP AuthzClaims AdminClient OrgTree Org OrgClaims ModuleKit ModuleRules.
From S2P Require Import Timesheet TimesheetProps TimesheetHTTP TimesheetService TimesheetTables.
Open Scope Z_scope.

Section claims.
Context `{UT : UUIDText} (verify : string -> option Claims) (uuid_ok : string -> bool) (authz : Service -> Prop).
Context (parseUUID : string -> option UUID) (payloadHash : UUID -> UUID -> Day -> string).
Context (byCode : list (UUID * Project) -> list (UUID * Project))
  (byAssignedAt : list approverAssignmentWire -> list approverAssignmentWire)
  (bySubmittedAt : list (UUID * Submission) -> list (UUID * Submission)).

Abbreviation serve := (serve verify parseUUID payloadHash byCode byAssignedAt bySubmittedAt).
Abbreviation run := (run verify uuid_ok authz).
Abbreviation ts_advance := (ts_advance verify uuid_ok authz parseUUID payloadHash byCode byAssignedAt bySubmittedAt).


(** C40: the timesheet tables under any interleaving. From empty tables, in every state
    that any requests, interleaved call by call, reach: each week of a member has at
    most one current submission and, if it has any, a current one whose version is the
    highest, and each version names the previous one, of the same root and no longer
    current; weeks start on a Monday; no two submissions of a member share an
    idempotency key; every entry has between 0 and 24 real and billable hours and a
    project that exists, and no two entries of a member the same project and day; and
    no two projects of a company share a code. *)
Theorem timesheet_tables w0 s : w_store w0 = emptyTS -> rtc ts_advance ([], w0) s -> ts_tables (w_store s.2).
Proof.
  intros H0 Hr. apply (ts_advances_keep _ _ _ _ _ _ _ _ _ _ Hr); simpl; [constructor|]. rewrite H0. apply ts_tables_empty.
Qed.
End claims.

(** ** Witnesses

    bob submits, boss approves, ann administers. *)

Section witnesses.
#[local] Instance tsUUIDText : UUIDText := demoUUIDText.

Definition tsParse (s : string) : option UUID :=
  if seqb (String.substring 0 1 s) "u" then Some (N.of_nat (String.length s - 1)) else None.
Definition tsTuples : Table :=
  {[relationTuple (uuidString 1%N) "admin" "ann"; relationTuple (uuidString 1%N) "submitter" "bob"; relationTuple (uuidString 1%N) "approver" "boss"]}.
Definition tsService : Service :=
  let svc := demoService tsTuples in
  mkService (svc_state svc) (svc_capability svc) (svc_company svc) (svc_membership svc) (Ok {["timesheet" := true]}) None None (Ok [])
    (svc_db svc) (svc_MemberOfCompany svc) (svc_AnchorOf svc).
Definition tsMember (kcSub : string) : UUID := if seqb kcSub "bob" then 2%N else if seqb kcSub "boss" then 3%N else 4%N.
Definition tsMemberOf (_ kcSub : string) : option (string * bool * bool) := Some (uuidString (tsMember kcSub), true, true).
Definition tsAccount (i : string) : option OrgMember :=
  if seqb i (uuidString 2%N) then Some (mkOrgMember (uuidString 1%N) "Bob" true "bob")
  else if seqb i (uuidString 3%N) then Some (mkOrgMember (uuidString 1%N) "Boss" true "boss") else None.
Definition tsAnswers (broken : nat -> bool) : Answers :=
  mkAnswers (fun n => mkTxEnv (broken n) (fun _ => false) (Z.of_nat n) (fun k => N.of_nat (10 * n + k + 20))) tsService (fun _ => false) (fun _ => true) (fun _ => false)
    tsMemberOf tsAccount (fun _ => None) (fun _ => None) (fun _ => None) (fun _ => None) (fun _ => true).

Definition tsServe (header : string) (req : tsRequest) :=
  serve demoVerify tsParse demoHash (fun l => l) (fun l => l) (fun l => l) header (uuidString 1%N) req.
Abbreviation tsPerform broken := (perform demoVerify demoUUID (tsAnswers broken) noFaults).
Definition sound (_ : nat) : bool := false.


(** Dates as time.Parse reads them. *)
Example parse_dates :
  (ParseDate "1970-01-01", ParseDate "2024-02-29", ParseDate "2023-02-29", ParseDate "2024-2-01", ParseDate "2024-13-01", ParseDate "1600-03-01") =
  (Some 0, Some 19782, None, None, None, Some (-135080)).
Proof. vm_compute. reflexivity. Qed.




(** Two projects made side by side, a call each in turn, then an entry on the first. *)
Definition tsEmpty : MWorld TS := mkMWorld emptyTS (mkWorld (mkDB tsTuples [] ∅) []) [].
Definition tsCreate (code : string) : tsRequest := ReqCreateProject (Some (mkCreateProject code "Name" "")).
Definition tsSide := interleave demoVerify demoUUID (tsAnswers sound) noFaults [0%nat; 1%nat; 0%nat; 1%nat] 0
  ([tsServe "Bearer ann" (tsCreate "B"); tsServe "Bearer ann" (tsCreate "A")], tsEmpty).
Definition tsUpsert : tsRequest := ReqUpsertEntry (Some (mkUpsertEntry (uuidString 40%N) "1970-01-06" (15 # 2) 4)) 0.
Definition tsNext := interleave demoVerify demoUUID (tsAnswers sound) noFaults (replicate 7 0%nat) 4
  (tsServe "Bearer bob" tsUpsert :: tsSide.1, tsSide.2).
Abbreviation tsAdvance := (ts_advance demoVerify demoUUID (fun _ => True) tsParse demoHash (fun l => l) (fun l => l) (fun l => l)).

Lemma tsNext_reached : rtc tsAdvance ([], tsEmpty) tsNext.
Proof.
  assert (Hcalls : forall sched n s, rtc tsAdvance s (interleave demoVerify demoUUID (tsAnswers sound) noFaults sched n s)).
  { intros sched n s. apply (interleave_steps _ _ (fun _ => True)); [exact (ta_call _ _ _ _ _ _ _ _)|exact I]. }
  apply (rtc_l tsAdvance _ _ _ (ta_arrive _ _ _ _ _ _ _ _ "Bearer ann" (uuidString 1%N) (tsCreate "A") [] tsEmpty)).
  apply (rtc_l tsAdvance _ _ _ (ta_arrive _ _ _ _ _ _ _ _ "Bearer ann" (uuidString 1%N) (tsCreate "B") [_] tsEmpty)).
  etransitivity; [apply (Hcalls [0%nat; 1%nat; 0%nat; 1%nat] 0%nat)|]. fold tsSide.
  apply (rtc_l tsAdvance tsSide (tsServe "Bearer bob" tsUpsert :: tsSide.1, tsSide.2)); [|apply Hcalls].
  rewrite (surjective_pairing tsSide) at 1. exact (ta_arrive _ _ _ _ _ _ _ _ "Bearer bob" (uuidString 1%N) tsUpsert tsSide.1 tsSide.2).
Qed.

Lemma timesheet_tables_witness :
  e_real <$> (map_to_list (entries (w_store tsNext.2))).*2 = [750] /\ ts_tables (w_store tsNext.2).
Proof.
  split; [vm_compute; reflexivity|].
  exact (timesheet_tables demoVerify demoUUID (fun _ => True) tsParse demoHash (fun l => l) (fun l => l) (fun l => l) tsEmpty tsNext eq_refl tsNext_reached).
Defined.
End witnesses.
