(* ===== verification/Registry.v ===== *)
(** * The registry's store

    internal/registry: store.go, app.go, authzfragment.go, authzdefaultgrant.go and
    queries.sql.go over the tables of migrations/registry, with the two tables of the
    authorization service the registry writes and what it reads of org.  The queries
    are written against [Executor], the interface of a pool and of a transaction: on
    the pool each statement commits by itself, in a transaction all of them do or none.
    The timestamps and the payload of an audit event are not kept, and a fragment is
    kept as the document sent. *)

From stdpp Require Import base gmap strings list.
From Stdlib Require Import Ascii.
From S2P Require Import Prelude GoStrings Model BaseModel Tuple Engine TupleStore ModuleKit.

(** ** Patterns *)

Definition lower (c : ascii) : bool := (97 <=? N_of_ascii c)%N && (N_of_ascii c <=? 122)%N.
Definition word_char (c : ascii) : bool :=
  lower c || ((48 <=? N_of_ascii c)%N && (N_of_ascii c <=? 57)%N) || bool_decide (c = "_"%char).

(** A lower case letter and then [lo] to [hi] characters of [rest]. *)
Definition headed (rest : ascii -> bool) (lo hi : nat) (s : string) : bool :=
  match s with
  | EmptyString => false
  | String c t => lower c && all_chars rest t && (lo <=? String.length t)%nat && (String.length t <=? hi)%nat
  end.

(** [moduleKeyPattern], [serviceClientIDPattern] and [featureKeyPattern] *)
Definition moduleKeyPattern : string -> bool := headed word_char 1 31.
Definition serviceClientIDPattern : string -> bool := headed (fun c => word_char c || bool_decide (c = "-"%char)) 1 63.
Definition featureKeyPattern (s : string) : bool :=
  let segs := Split "." s in
  (2 <=? length segs)%nat && forallb (fun seg => headed word_char 0 (String.length seg) seg) segs.

(** ** Data *)

(** [AppManifest]; a fragment that was left out is [None]. *)
Record AppManifest := mkAppManifest {
  am_Key : string; am_DisplayName : string; am_Version : string; am_ServiceClientID : string;
  am_Features : list string; am_AuthzFragment : option json
}.

(** [UpsertModuleCatalogParams] without the key, and a row of platform.module_catalog. *)
Record CatalogParams := mkCatalogParams {
  c_DisplayName : string; c_ScopeType : string; c_Mandatory : bool; c_BasePath : string; c_HealthPath : string;
  c_Port : Z; c_LicenseClass : string; c_ManifestVersion : string; c_IsActive : bool
}.
Record CatalogRow := mkCatalogRow { c_params : CatalogParams; c_Features : list string }.

(** [PlatformModuleInstallation] *)
Record InstallRow := mkInstall { i_Installed : bool; i_Enabled : bool; i_Version : option string }.

(** Rows of platform.app_registration and authz.model_fragment. *)
Record AppRow := mkAppRow { a_ServiceClientID : string; a_Manifest : AppManifest; a_RegisteredBy : string }.
Record FragRow := mkFragRow { f_Fragment : json; f_Active : bool }.

Record RegEvent := mkRegEvent { e_Actor : string; e_Action : string; e_Subject : string }.

(** The database: the registry's tables, authz.model_fragment and the tuple tables, and
    the keys of org.org_unit_type and the ids of the active companies, in order. *)
Record RegDB := mkRegDB {
  catalog : gmap string CatalogRow;
  installation : gmap string InstallRow;
  dependency : gmap (string * string) string;
  registration : gmap string AppRow;
  fragments : gmap string FragRow;
  regAuthz : AuthzDB;
  orgTypes : gset string;
  orgCompanies : list string;
  regAudit : list RegEvent
}.

Definition with_catalog (f : gmap string CatalogRow -> gmap string CatalogRow) (db : RegDB) : RegDB :=
  mkRegDB (f (catalog db)) (installation db) (dependency db) (registration db) (fragments db) (regAuthz db) (orgTypes db) (orgCompanies db) (regAudit db).
Definition with_installation (f : gmap string InstallRow -> gmap string InstallRow) (db : RegDB) : RegDB :=
  mkRegDB (catalog db) (f (installation db)) (dependency db) (registration db) (fragments db) (regAuthz db) (orgTypes db) (orgCompanies db) (regAudit db).
Definition with_dependency (f : gmap (string * string) string -> gmap (string * string) string) (db : RegDB) : RegDB :=
  mkRegDB (catalog db) (installation db) (f (dependency db)) (registration db) (fragments db) (regAuthz db) (orgTypes db) (orgCompanies db) (regAudit db).
Definition with_registration (f : gmap string AppRow -> gmap string AppRow) (db : RegDB) : RegDB :=
  mkRegDB (catalog db) (installation db) (dependency db) (f (registration db)) (fragments db) (regAuthz db) (orgTypes db) (orgCompanies db) (regAudit db).
Definition with_fragments (f : gmap string FragRow -> gmap string FragRow) (db : RegDB) : RegDB :=
  mkRegDB (catalog db) (installation db) (dependency db) (registration db) (f (fragments db)) (regAuthz db) (orgTypes db) (orgCompanies db) (regAudit db).
Definition with_regAuthz (az : AuthzDB) (db : RegDB) : RegDB :=
  mkRegDB (catalog db) (installation db) (dependency db) (registration db) (fragments db) az (orgTypes db) (orgCompanies db) (regAudit db).
Definition with_regAudit (f : list RegEvent -> list RegEvent) (db : RegDB) : RegDB :=
  mkRegDB (catalog db) (installation db) (dependency db) (registration db) (fragments db) (regAuthz db) (orgTypes db) (orgCompanies db) (f (regAudit db)).

(** Why a fragment is refused. *)
Inductive fragment_error : Type :=
| SubsetWall (e : model_error)
| NoAnchor (e : model_error)
| BaseType (typ : string)
| TypeTaken (other : string).

Inductive reg_error : Type :=
| ErrModuleNotFound
| ErrMandatoryModule
| ErrModuleNotInstalled
| ErrInvalidManifest (field : string)
| FragmentRefused (moduleKey : string) (why : fragment_error)
| UnknownModules (keys : list string)
| SeedRefused (moduleKey : string) (why : string)
| Panicked
| RegDatabase.

(** ** Where a query runs *)

(** [DBTX], [sqlExecutor] and [txQueryer]: what runs a statement, a table update or an
    error of the database, with the error flow of its callers. *)
Class Executor (M : Type -> Type) := {
  ex_ok {A} : A -> M A;
  ex_err {A} : reg_error -> M A;
  ex_bind {A B} : M A -> (A -> M B) -> M B;
  ex_run {A} : (RegDB -> result reg_error (A * RegDB)) -> M A
}.
Notation "'let+' x ':=' m 'in' k" := (ex_bind m (fun x => k))
  (at level 10, x binder, m at level 100, k at level 200) : kiban_scope.

(** The pool: every statement is a transaction. *)
Definition Pool (A : Type) : Type := prog RegDB reg_error (result reg_error A).
Definition autocommit {A} (f : RegDB -> result reg_error (A * RegDB)) (env : TxEnv) (db : RegDB) : result reg_error (A * RegDB) :=
  if tx_broken env then Err RegDatabase else f db.
#[export] Instance pool_executor : Executor Pool := {|
  ex_ok A a := Ret (Ok a);
  ex_err A e := Ret (Err e);
  ex_bind A B m k := bind m (fun r => match r with Ok a => k a | Err e => Ret (Err e) end);
  ex_run A f := Call (Transact (autocommit f)) (fun r => Ret r)
|}.

(** A transaction: the tables as it sees them and the number of statements run. *)
Record regState := mkRegTx { r_db : RegDB; r_statements : nat }.
Definition RegTx (A : Type) : Type := regState -> result reg_error (A * regState).

Definition tx_executor (fails : nat -> bool) : Executor RegTx := {|
  ex_ok A a := fun s => Ok (a, s);
  ex_err A e := fun _ => Err e;
  ex_bind A B m k := fun s => match m s with Ok (a, s') => k a s' | Err e => Err e end;
  ex_run A f := fun s =>
    if fails (r_statements s) then Err RegDatabase
    else match f (r_db s) with Ok (a, db) => Ok (a, mkRegTx db (S (r_statements s))) | Err e => Err e end
|}.

(** From Begin to Commit. *)
Definition committed {A} (m : (nat -> bool) -> RegTx A) (env : TxEnv) (db : RegDB) : result reg_error (A * RegDB) :=
  match m (tx_fails env) (mkRegTx db 0) with
  | Ok (a, s) => if tx_broken env then Err RegDatabase else Ok (a, r_db s)
  | Err e => Err e
  end.
Definition inTx {A} (m : (nat -> bool) -> RegTx A) : Pool A := Call (Transact (committed m)) (fun r => Ret r).

(** A call of the tuple store inside the transaction. *)
Definition viaTuples {A} (m : Tx A) : RegTx A := fun s =>
  match m (mkTx (regAuthz (r_db s)) (r_statements s)) with
  | Ok (a, t) => Ok (a, mkRegTx (with_regAuthz (tx_db t) (r_db s)) (statements t))
  | Err _ => Err RegDatabase
  end.

(** ** The dependency walk *)

(** The rows of the recursive query: a dependency and the keys on the way to it. *)
Abbreviation walk := (string * list string)%type.

Definition dependsOn (deps : gmap (string * string) string) (key : string) : list string :=
  snd <$> filter (fun e => e.1 = key) (fst <$> map_to_list deps).

(** The two terms of the query. *)
Definition firstDeps (deps : gmap (string * string) string) (key : string) : list walk :=
  (fun d => (d, [key; d])) <$> dependsOn deps key.
Definition nextDeps (deps : gmap (string * string) string) (w : walk) : list walk :=
  (fun d => (d, w.2 ++ [d])) <$> filter (fun d => d ∉ w.2) (dependsOn deps w.1).

(** WITH RECURSIVE ... UNION: the last round's rows are extended until a round gives no
    new row. *)
Fixpoint recurse (deps : gmap (string * string) string) (fuel : nat) (work all : list walk) : list walk :=
  match fuel with
  | 0 => all
  | S fuel =>
      match filter (fun w => w ∉ all) (remove_dups (work ≫= nextDeps deps)) with
      | [] => all
      | new => recurse deps fuel new (all ++ new)
      end
  end.

(** [listTransitiveDependencyKeys]; a walk repeats no key, so the number of dependencies
    bounds the rounds. *)
Definition transitiveDependencies (deps : gmap (string * string) string) (key : string) : list string :=
  let first := remove_dups (firstDeps deps key) in
  remove_dups (fst <$> recurse deps (S (size deps)) first first).

(** ** Queries *)

Section queries.
Context {M : Type -> Type} `{Executor M}.

Definition select {A} (f : RegDB -> A) : M A := ex_run (fun db => Ok (f db, db)).
Definition update (f : RegDB -> RegDB) : M unit := ex_run (fun db => Ok (tt, f db)).

(** [GetModuleCatalogEntry]; [None] is pgx.ErrNoRows. *)
Definition GetModuleCatalogEntry (moduleKey : string) : M (option CatalogRow) := select (fun db => catalog db !! moduleKey).

(** [ListInstallationStatusForKeys] *)
Definition ListInstallationStatusForKeys (moduleKeys : list string) : M (list (string * InstallRow)) :=
  select (fun db => filter (fun r => r.1 ∈ moduleKeys) (map_to_list (installation db))).

(** [ListTransitiveDependencyKeys] *)
Definition ListTransitiveDependencyKeys (moduleKey : string) : M (list string) :=
  select (fun db => transitiveDependencies (dependency db) moduleKey).

(** The CHECK constraints of platform.module_catalog. *)
Definition catalogChecks (moduleKey : string) (p : CatalogParams) : bool :=
  moduleKeyPattern moduleKey && bool_decide (c_ScopeType p ∈ ["global"; "company"])
  && ((0 <=? c_Port p)%Z && (c_Port p <? 65536)%Z)
  && bool_decide (c_LicenseClass p ∈ ["foundation"; "open"; "commercial"]).

(** [UpsertModuleCatalog]: the features of an existing row stay. *)
Definition UpsertModuleCatalog (moduleKey : string) (p : CatalogParams) : M unit :=
  ex_run (fun db =>
    if catalogChecks moduleKey p
    then Ok (tt, with_catalog (fun t => <[moduleKey := mkCatalogRow p (default [] (c_Features <$> t !! moduleKey))]> t) db)
    else Err RegDatabase).

(** [setCatalogFeatures] *)
Definition setCatalogFeatures (moduleKey : string) (features : list string) : M unit :=
  update (with_catalog (alter (fun r => mkCatalogRow (c_params r) features) moduleKey)).

(** [SeedModuleInstallationMissing]; the key must be in the catalog. *)
Definition SeedModuleInstallationMissing (moduleKey : string) (row : InstallRow) : M unit :=
  ex_run (fun db =>
    match installation db !! moduleKey, catalog db !! moduleKey with
    | Some _, _ => Ok (tt, db)
    | None, Some _ => Ok (tt, with_installation (<[moduleKey := row]>) db)
    | None, None => Err RegDatabase
    end).

(** [SetModuleEnabled]; [None] is pgx.ErrNoRows. *)
Definition SetModuleEnabled (moduleKey : string) (enabled : bool) : M (option InstallRow) :=
  ex_run (fun db =>
    let row : option InstallRow := (fun r => mkInstall (i_Installed r) enabled (i_Version r)) <$> installation db !! moduleKey in
    Ok (row, match row with Some r => with_installation (<[moduleKey := r]>) db | None => db end)).

(** The rows of platform.app_registration with another module's client, and the
    INSERT ... ON CONFLICT (module_key) of [RegisterApp]: service_client_id is unique. *)
Definition clientTaken (moduleKey client : string) (t : gmap string AppRow) : bool :=
  bool_decide (filter (fun kv => kv.1 <> moduleKey /\ a_ServiceClientID kv.2 = client) (map_to_list t) <> []).
Definition putRegistration (moduleKey : string) (row : AppRow) : M unit :=
  ex_run (fun db =>
    match catalog db !! moduleKey with
    | Some _ =>
        if serviceClientIDPattern (a_ServiceClientID row) && negb (clientTaken moduleKey (a_ServiceClientID row) (registration db))
        then Ok (tt, with_registration (<[moduleKey := row]>) db)
        else Err RegDatabase
    | None => Err RegDatabase
    end).

(** The rows the query "fragment ?| types" finds: another module's fragment with one of
    the types among its keys.  LIMIT 1 returns any of them; [None] is pgx.ErrNoRows. *)
Definition topKeys (fragment : json) : list string := match fragment with JObj kvs => fst <$> kvs | _ => [] end.
Definition typeOwners (moduleKey : string) (types : list string) (t : gmap string FragRow) : list string :=
  fst <$> filter (fun kv => kv.1 <> moduleKey /\ Exists (fun typ => typ ∈ topKeys (f_Fragment kv.2)) types) (map_to_list t).

(** What [upsertAuthzFragment] checks of the fragment itself. *)
Definition checkFragment (fragment : json) : result fragment_error Model :=
  match LoadModel (Some fragment) with
  | Err e => Err (SubsetWall e)
  | Ok m =>
      match ValidateCompanyModuleAnchor m with
      | Err e => Err (NoAnchor e)
      | Ok _ =>
          match filter (fun typ => IsBaseType typ = true) (fst <$> map_to_list m) with
          | typ :: _ => Err (BaseType typ)
          | [] => Ok m
          end
      end
  end.

(** [upsertAuthzFragment]; [stored] is what the ownership query sees of
    authz.model_fragment where it runs. *)
Definition upsertAuthzFragment (stored : M (gmap string FragRow)) (moduleKey : string) (fragment : option json) (active : bool) : M unit :=
  match fragment with
  | None => ex_ok tt
  | Some doc =>
      match checkFragment doc with
      | Err why => ex_err (FragmentRefused moduleKey why)
      | Ok m =>
          let+ seen := stored in
          match typeOwners moduleKey (fst <$> map_to_list m) seen with
          | other :: _ => ex_err (FragmentRefused moduleKey (TypeTaken other))
          | [] => update (with_fragments (<[moduleKey := mkFragRow doc active]>))
          end
      end
  end.

(** [setAuthzFragmentActive] *)
Definition setAuthzFragmentActive (moduleKey : string) (active : bool) : M unit :=
  update (with_fragments (alter (fun r => mkFragRow (f_Fragment r) active) moduleKey)).

(** [activeCompanyIDs] *)
Definition activeCompanyIDs : M (list string) := select orgCompanies.

(** [audit.Writer.Record] *)
Definition recordEvent (ev : RegEvent) : M unit := update (with_regAudit (fun l => l ++ [ev])).
End queries.

(** ** Reading *)

(** [Capability] *)
Record Capability := mkCapability {
  cap_Module : string; cap_Installed : bool; cap_Enabled : bool; cap_Dependencies : list string;
  cap_MissingDependencies : list string; cap_External : bool; cap_ServiceClientID : string; cap_Features : list string
}.

(** [statuses[key]] on a Go map: a missing key is neither installed nor enabled. *)
Definition status (rows : list (string * InstallRow)) (key : string) : bool * bool :=
  match (list_to_map rows : gmap string InstallRow) !! key with Some r => (i_Installed r, i_Enabled r) | None => (false, false) end.
Definition ready (rows : list (string * InstallRow)) (key : string) : bool := (status rows key).1 && (status rows key).2.

(** What [Capability] makes of the rows it read. *)
Definition capabilityOf (moduleKey : string) (entry : CatalogRow) (features : list string) (client : string)
    (depKeys : list string) (rows : list (string * InstallRow)) : Capability * string :=
  let installed := (status rows moduleKey).1 in
  let enabled := installed && (status rows moduleKey).2 in
  let missing := filter (fun dk => ready rows dk = false) depKeys in
  (mkCapability moduleKey installed enabled depKeys missing (c_Port (c_params entry) =? 0)%Z client features,
   if negb installed then "MODULE_NOT_INSTALLED"
   else if negb enabled then "MODULE_DISABLED"
   else if (0 <? length missing)%nat then "MODULE_DEPENDENCY_MISSING" else "").

(** [Store.Capability] *)
Definition Capability_ (moduleKey : string) : Pool (Capability * string) :=
  let+ entry := GetModuleCatalogEntry moduleKey in
  match entry with
  | None => ex_err ErrModuleNotFound
  | Some entry =>
      let+ features := select (A := option (list string)) (fun db => c_Features <$> catalog db !! moduleKey) in
      match features with
      | None => ex_err RegDatabase
      | Some features =>
          let+ client := if (c_Port (c_params entry) =? 0)%Z
            then select (A := string) (fun db => default "" (a_ServiceClientID <$> registration db !! moduleKey)) else ex_ok "" in
          let+ depKeys := ListTransitiveDependencyKeys moduleKey in
          let+ rows := ListInstallationStatusForKeys (moduleKey :: depKeys) in
          ex_ok (capabilityOf moduleKey entry features client depKeys rows)
      end
  end.

(** [CatalogEntry] *)
Record CatalogEntry := mkCatalogEntry {
  ce_ModuleKey : string; ce_Params : CatalogParams; ce_Installed : bool; ce_Enabled : bool;
  ce_External : bool; ce_ServiceClientID : string; ce_Features : list string
}.

(** [listModuleCatalog]; [byKey] is ORDER BY module_key in the database's collation. *)
Definition catalogRows (byKey : list string -> list string) (db : RegDB) : list (string * CatalogParams * option InstallRow) :=
  omap (fun k => match catalog db !! k with Some r => Some (k, c_params r, installation db !! k) | None => None end)
    (byKey (fst <$> map_to_list (catalog db))).

(** An entry of the listing: an absent installation row is neither installed nor enabled. *)
Definition catalogEntry (apps : gmap string string) (features : gmap string (list string))
    (row : string * CatalogParams * option InstallRow) : CatalogEntry :=
  let '(k, p, i) := row in
  mkCatalogEntry k p (match i with Some r => i_Installed r | None => false end) (match i with Some r => i_Enabled r | None => false end)
    (c_Port p =? 0)%Z (default "" (apps !! k)) (default [] (features !! k)).

(** [Catalog] *)
Definition Catalog (byKey : list string -> list string) : Pool (list CatalogEntry) :=
  let+ rows := select (catalogRows byKey) in
  let+ apps := select (A := gmap string string) (fun db => a_ServiceClientID <$> registration db) in
  let+ features := select (A := gmap string (list string)) (fun db => c_Features <$> catalog db) in
  ex_ok (catalogEntry apps features <$> rows).

(** ** Changing *)

(** [validate]; slicing a feature key that is shorter than "<key>." panics. *)
Fixpoint validateFeatures (key : string) (features : list string) : result reg_error unit :=
  match features with
  | [] => Ok tt
  | f :: rest =>
      if negb (featureKeyPattern f) then Err (ErrInvalidManifest "features")
      else if (String.length f <? String.length key + 1)%nat then Err Panicked
      else if negb (seqb (String.substring 0 (String.length key + 1) f) (key +:+ ".")) then Err (ErrInvalidManifest "features")
      else validateFeatures key rest
  end.
Definition validate (m : AppManifest) : result reg_error unit :=
  if negb (moduleKeyPattern (am_Key m)) then Err (ErrInvalidManifest "key")
  else if seqb (am_DisplayName m) "" then Err (ErrInvalidManifest "displayName")
  else if seqb (am_Version m) "" then Err (ErrInvalidManifest "version")
  else if negb (serviceClientIDPattern (am_ServiceClientID m)) then Err (ErrInvalidManifest "serviceClientId")
  else if bool_decide (am_AuthzFragment m = None) then Err (ErrInvalidManifest "authzFragment")
  else validateFeatures (am_Key m) (am_Features m).

Definition defaultGrantActor : string := "registry-default".

Section transactions.
(** Which statements of the transaction fail. *)
Context (fails : nat -> bool).
#[local] Instance executor : Executor RegTx := tx_executor fails.

(** The loop over the companies in [SetEnabled]. *)
Fixpoint ensureDefaultGrants (moduleKey : string) (companyIDs : list string) : RegTx unit :=
  match companyIDs with
  | [] => ex_ok tt
  | companyID :: rest =>
      let+ _ := viaTuples (EnsureDefaultGrant fails defaultGrantActor "" companyID moduleKey) in
      ensureDefaultGrants moduleKey rest
  end.

(** The guards of [SetEnabled]. *)
Definition mayDisable (moduleKey : string) : RegTx unit :=
  let+ entry := GetModuleCatalogEntry moduleKey in
  match entry with
  | None => ex_err ErrModuleNotFound
  | Some entry => if c_Mandatory (c_params entry) then ex_err ErrMandatoryModule else ex_ok tt
  end.
Definition mayEnable (moduleKey : string) : RegTx unit :=
  let+ statuses := ListInstallationStatusForKeys [moduleKey] in
  match statuses with
  | [(_, row)] => if negb (i_Installed row) then ex_err ErrModuleNotInstalled else ex_ok tt
  | _ => ex_ok tt
  end.

(** [SetEnabled] *)
Definition SetEnabled (moduleKey : string) (enabled : bool) (auditRecord : RegEvent) : RegTx InstallRow :=
  let+ _ := if negb enabled then mayDisable moduleKey else mayEnable moduleKey in
  let+ row := SetModuleEnabled moduleKey enabled in
  match row with
  | None => ex_err ErrModuleNotFound
  | Some row =>
      let+ _ := setAuthzFragmentActive moduleKey enabled in
      let+ _ := if enabled then let+ companyIDs := activeCompanyIDs in ensureDefaultGrants moduleKey companyIDs else ex_ok tt in
      let+ _ := recordEvent auditRecord in
      ex_ok row
  end.

(** A step whose error is reported as the manifest's field. *)
Definition orInvalid {A} (field : string) (m : RegTx A) : RegTx A := fun s =>
  match m s with Ok r => Ok r | Err _ => Err (ErrInvalidManifest field) end.

Definition appCatalogRow (m : AppManifest) : CatalogParams :=
  mkCatalogParams (am_DisplayName m) "company" false ("/api/" +:+ am_Key m) "/health" 0 "open" (am_Version m) true.

(** The transaction of [RegisterApp], at its commit.  Its ownership query saw the
    fragments in [seen]: under READ COMMITTED those committed when that statement ran,
    and no lock keeps other fragments from being committed before this transaction is.
    The rows its other statements read it has itself written, and so locked, before. *)
Definition registerAppTx (seen : gmap string FragRow) (m : AppManifest) (actor : string) (auditRecord : RegEvent) : RegTx unit :=
  let key := am_Key m in
  let+ _ := UpsertModuleCatalog key (appCatalogRow m) in
  let+ _ := SeedModuleInstallationMissing key (mkInstall true false (Some (am_Version m))) in
  let+ _ := update (with_installation (alter (fun r => mkInstall true (i_Enabled r) (Some (am_Version m))) key)) in
  let+ _ := setCatalogFeatures key (am_Features m) in
  let+ _ := putRegistration key (mkAppRow (am_ServiceClientID m) m actor) in
  let+ enabled := select (A := option bool) (fun db => i_Enabled <$> installation db !! key) in
  match enabled with
  | None => ex_err RegDatabase
  | Some enabled =>
      let+ _ := orInvalid "authzFragment" (upsertAuthzFragment (select (fun _ => seen)) key (am_AuthzFragment m) enabled) in
      recordEvent auditRecord
  end.
End transactions.

(** What a statement of an open transaction sees of the fragments other transactions
    have committed; it changes nothing. *)
Definition committedFragments (env : TxEnv) (db : RegDB) : result reg_error (gmap string FragRow * RegDB) := Ok (fragments db, db).
Definition seeFragments : Pool (gmap string FragRow) := Call (Transact committedFragments) (fun r => Ret r).

(** [RegisterApp]: the ownership query's look at the fragments, and the commit; other
    requests may come in between. *)
Definition RegisterApp (m : AppManifest) (actor : string) (auditRecord : RegEvent) : Pool unit :=
  match validate m with
  | Err e => ex_err e
  | Ok _ => let+ seen := seeFragments in inTx (fun fails => registerAppTx fails seen m actor auditRecord)
  end.
