(* ===== verification/RegistrySeed.v ===== *)
(** * Seeding the registry

    internal/registry/seed.go and builtin.go: the modules a registry is built with, the
    checks on them, KIBAN_INSTALLED_MODULES and the boot-time seed.  The seed runs on
    the pool, so every statement of it commits by itself and other requests may come in
    between. *)

From stdpp Require Import base gmap strings list pretty sorting.
From Stdlib Require Import Ascii.
From S2P Require Import Prelude GoStrings Model Tuple TupleStore ModuleKit Registry.

(** [ModuleManifest]; an empty fragment is [None]. *)
Record ModuleManifest := mkManifest {
  ModuleKey : string; DisplayName : string; ScopeType : string; Mandatory : bool; BasePath : string; HealthPath : string;
  Port : Z; LicenseClass : string; ManifestVersion : string; AuthzFragment : option json; Features : list string;
  RequiredOrgUnitTypes : list string; Dependencies : list (string * string)
}.

(** [knownKey] *)
Definition knownKey (known : list ModuleManifest) (key : string) : bool := existsb (fun m => seqb (ModuleKey m) key) known.

(** The claims of a manifest in [seen]. *)
Definition claims (m : ModuleManifest) : list string :=
  ["key:" +:+ ModuleKey m; "basePath:" +:+ BasePath m; "port:" +:+ pretty (Port m)].

Fixpoint validateDependencies (known : list ModuleManifest) (key : string) (deps : list (string * string)) : result reg_error unit :=
  match deps with
  | [] => Ok tt
  | d :: rest =>
      if seqb d.1 key then Err (SeedRefused key "depends on itself")
      else if negb (knownKey known d.1) then Err (SeedRefused key "unknown dependency")
      else validateDependencies known key rest
  end.

Fixpoint validateClaims (key : string) (kvs : list string) (seen : gmap string string) : result reg_error (gmap string string) :=
  match kvs with
  | [] => Ok seen
  | kv :: rest =>
      match seen !! kv with
      | Some _ => Err (SeedRefused key "claimed twice")
      | None => validateClaims key rest (<[kv := key]> seen)
      end
  end.

(** [validateKnownManifests]: the loop over the manifests from [rest] on. *)
Fixpoint validateManifests (known rest : list ModuleManifest) (seen : gmap string string) : result reg_error unit :=
  match rest with
  | [] => Ok tt
  | m :: rest =>
      let key := ModuleKey m in
      if negb (moduleKeyPattern key) then Err (SeedRefused key "key")
      else if negb (seqb (BasePath m) ("/api/" +:+ key)) then Err (SeedRefused key "basePath")
      else if (Port m <? 1)%Z || (65535 <? Port m)%Z then Err (SeedRefused key "port")
      else if negb (HasPrefix (HealthPath m) "/") then Err (SeedRefused key "healthPath")
      else
        let! _ := validateDependencies known key (Dependencies m) in
        let! seen := validateClaims key (claims m) seen in
        validateManifests known rest seen
  end.
Definition validateKnownManifests (known : list ModuleManifest) : result reg_error unit := validateManifests known known ∅.

(** The first module that requires a type the taxonomy does not have. *)
Definition lacksType (types : gset string) (m : ModuleManifest) : bool :=
  existsb (fun t => bool_decide (t ∉ types)) (RequiredOrgUnitTypes m).

(** [checkOrgUnitTaxonomy]; nothing is read when no type is required. *)
Definition checkOrgUnitTaxonomy (known : list ModuleManifest) : Pool unit :=
  let want := known ≫= RequiredOrgUnitTypes in
  if (length want =? 0)%nat then ex_ok tt
  else
    let+ types := select orgTypes in
    match filter (fun m => lacksType types m = true) known with
    | [] => ex_ok tt
    | m :: _ => ex_err (SeedRefused (ModuleKey m) "org unit type")
    end.

(** ** KIBAN_INSTALLED_MODULES *)

Section csv.
Context `{UC : Unicode}.

(** The keys the list names. *)
Definition csvKeys (csv : string) : list string :=
  let csv := TrimSpace csv in
  if seqb csv "" then [] else filter (fun key => key <> "") (TrimSpace <$> Split "," csv).

(** [ParseInstalledModules] *)
Definition ParseInstalledModules (csv : string) (known : list ModuleManifest) : result reg_error (gset string) :=
  let keys := csvKeys csv in
  match filter (fun key => knownKey known key = false) keys with
  | [] => Ok (list_to_set keys ∪ list_to_set (ModuleKey <$> filter (fun m => Mandatory m = true) known))
  | unknown => Err (UnknownModules (merge_sort String.le unknown))
  end.
End csv.

(** ** The seed *)

Definition catalogParams (m : ModuleManifest) : CatalogParams :=
  mkCatalogParams (DisplayName m) (ScopeType m) (Mandatory m) (BasePath m) (HealthPath m) (Port m) (LicenseClass m) (ManifestVersion m) true.

(** The UPDATE that installs a module listed after its first boot. *)
Definition installListed (version : string) (r : InstallRow) : InstallRow :=
  if i_Installed r then r else mkInstall true true (Some version).

(** The first loop of [Seed]. *)
Fixpoint seedCatalog (known : list ModuleManifest) (installedKeys : gset string) : Pool unit :=
  match known with
  | [] => ex_ok tt
  | m :: rest =>
      let key := ModuleKey m in
      let listed := bool_decide (key ∈ installedKeys) in
      let+ _ := UpsertModuleCatalog key (catalogParams m) in
      let+ _ := setCatalogFeatures key (Features m) in
      let+ _ := SeedModuleInstallationMissing key (mkInstall listed listed (Some (ManifestVersion m))) in
      let+ _ := if listed then update (with_installation (alter (installListed (ManifestVersion m)) key)) else ex_ok tt in
      seedCatalog rest installedKeys
  end.

(** INSERT INTO platform.module_dependency, with the table's constraints. *)
Definition insertDependency (key dep range : string) : Pool unit :=
  ex_run (fun db =>
    match catalog db !! key, catalog db !! dep, dependency db !! (key, dep) with
    | Some _, Some _, None => if seqb key dep then Err RegDatabase else Ok (tt, with_dependency (<[(key, dep) := range]>) db)
    | _, _, _ => Err RegDatabase
    end).
Fixpoint insertDependencies (key : string) (deps : list (string * string)) : Pool unit :=
  match deps with
  | [] => ex_ok tt
  | d :: rest => let+ _ := insertDependency key d.1 d.2 in insertDependencies key rest
  end.
Fixpoint seedDependencies (known : list ModuleManifest) : Pool unit :=
  match known with
  | [] => ex_ok tt
  | m :: rest =>
      let+ _ := update (with_dependency (filter (fun kv => kv.1.1 <> ModuleKey m))) in
      let+ _ := insertDependencies (ModuleKey m) (Dependencies m) in
      seedDependencies rest
  end.

(** The manifests of [known] with a fragment, under the key they are looked up by: the
    first manifest with the key. *)
Definition fragmentKeys (known : list ModuleManifest) : list string :=
  ModuleKey <$> filter (fun m => is_Some (AuthzFragment m)) known.
Definition fragmentOf (known : list ModuleManifest) (key : string) : option json :=
  head (filter (fun m => ModuleKey m = key) known) ≫= AuthzFragment.

(** The loop that installs the fragments. *)
Fixpoint seedFragments (known : list ModuleManifest) (enabled : string -> bool) (keys : list string) : Pool unit :=
  match keys with
  | [] => ex_ok tt
  | key :: rest =>
      let+ _ := upsertAuthzFragment (select fragments) key (fragmentOf known key) (enabled key) in
      seedFragments known enabled rest
  end.

(** [defaultGrantModuleForAllActiveCompanies]: one transaction per company. *)
Definition defaultGrant (moduleKey companyID : string) : Pool bool :=
  inTx (fun fails => viaTuples (EnsureDefaultGrant fails defaultGrantActor "" companyID moduleKey)).
Fixpoint grantCompanies (moduleKey : string) (companyIDs : list string) : Pool unit :=
  match companyIDs with
  | [] => ex_ok tt
  | companyID :: rest =>
      let+ _ := defaultGrant moduleKey companyID in
      grantCompanies moduleKey rest
  end.
Definition defaultGrantModuleForAllActiveCompanies (moduleKey : string) : Pool unit :=
  let+ companyIDs := activeCompanyIDs in grantCompanies moduleKey companyIDs.

(** The last loop of [Seed]. *)
Fixpoint seedGrants (enabled : string -> bool) (known : list ModuleManifest) : Pool unit :=
  match known with
  | [] => ex_ok tt
  | m :: rest =>
      let+ _ := if enabled (ModuleKey m) then defaultGrantModuleForAllActiveCompanies (ModuleKey m) else ex_ok tt in
      seedGrants enabled rest
  end.

(** [Seed] after its two checks. *)
Definition seedTables (known : list ModuleManifest) (installedKeys : gset string) : Pool unit :=
  let+ _ := seedCatalog known installedKeys in
  if (length known =? 0)%nat then ex_ok tt
  else
    let+ _ := seedDependencies known in
    let+ rows := ListInstallationStatusForKeys (ModuleKey <$> known) in
    let+ _ := seedFragments known (ready rows) (fragmentKeys known) in
    seedGrants (ready rows) known.

(** [Seed] *)
Definition Seed (known : list ModuleManifest) (installedKeys : gset string) : Pool unit :=
  match validateKnownManifests known with
  | Err e => ex_err e
  | Ok _ =>
      let+ _ := checkOrgUnitTaxonomy known in
      seedTables known installedKeys
  end.

(** ** The built-in modules *)

Definition this_ : json := JObj [("this", JBool true)].
Definition or_ (rel : string) : json := JObj [("union", JArr [this_; JObj [("computedUserset", JStr rel)]])].

(** [notificationAuthzRelations] and [docsAuthzRelations]: the "relations" of the two
    modules' authz.fragment.json; timesheet's and helpdesk's have none. *)
Definition notificationAuthzRelations : option json := Some (JObj [
  ("notification_channel", JObj [("company_module", this_); ("owner", this_); ("editor", or_ "owner");
    ("viewer", JObj [("union", JArr [this_; JObj [("computedUserset", JStr "editor")];
      JObj [("tupleToUserset", JObj [("tupleset", JStr "company_module"); ("computedUserset", JStr "member")])]])])])]).
Definition docsAuthzRelations : option json := Some (JObj [
  ("docs_document", JObj [("company_module", this_); ("owner", this_); ("editor", or_ "owner"); ("viewer", or_ "editor")])]).

Definition builtin (key name : string) (port : Z) (fragment : option json) (features : list string) : ModuleManifest :=
  mkManifest key name "company" false ("/api/" +:+ key) "/health" port "foundation" "0.1.0" fragment features ["company"] [].

(** [BuiltinModules], with what mustManifest and mustFeatureKeys read from the modules'
    files. *)
Definition BuiltinModules : list ModuleManifest := [
  builtin "notification" "Notification" 8150 notificationAuthzRelations
    ["notification.channels.manage"; "notification.messages.send"; "notification.inbox.view"];
  builtin "timesheet" "Timesheet" 8160 None
    ["timesheet.projects.manage"; "timesheet.config.manage"; "timesheet.approvers.manage"; "timesheet.submissions.submit";
     "timesheet.submissions.approve"; "timesheet.entries.manage-own"];
  builtin "docs" "Docs" 8170 docsAuthzRelations ["docs.manage"; "docs.create"; "docs.document.access"];
  builtin "helpdesk" "Helpdesk" 8180 None ["helpdesk.manage"; "helpdesk.tickets.work"; "helpdesk.tickets.create"]].

(** [SeedBuiltin] *)
Definition SeedBuiltin : Pool unit := Seed BuiltinModules (list_to_set (ModuleKey <$> BuiltinModules)).
