(* ===== verification/RegistryHTTP.v ===== *)
(** * The registry's HTTP surface

    internal/registry/http.go, adminauthz.go and service.go: every route as a program
    over the registry's tables.  The round trip to the authorization service is an
    argument, as for the other users of the administration client; a panic ends the
    request with the recovery middleware's 500. *)

From stdpp Require Import base gmap strings list.
From S2P Require Import Prelude GoStrings AdminClient OrgHTTP ModuleKit Registry.

Inductive rgBody : Type :=
| BCapabilities (l : list Capability)
| BCapability (c : Capability)
| BCatalog (l : list CatalogEntry)
| BEnabled (enabled : bool)
| BHealth.

Inductive rgReply : Type :=
| RgData (status : Z) (body : rgBody)
| RgError (status : Z) (code detail : string).

Inductive rgRequest : Type :=
| ReqCapabilities
| ReqCapability (module : string)
| ReqCatalog
| ReqSetEnabled (enabled : bool) (key : string)
| ReqRegisterApp (body : option AppManifest)
| ReqHealth.

Definition internalError : rgReply := RgError 500 "INTERNAL_ERROR" "".
Definition notFound : rgReply := RgError 404 "NOT_FOUND" "".

Section handlers.
Context `{UC : Unicode} (byKey : list string -> list string).
Context (send : string -> adminWire -> option adminResponse) (parseInsecure : string -> option string) (correlationID : string).

Abbreviation P A := (prog RegDB reg_error A).

(** The [Can] of [EffectiveAccessAuthorizer]: the same mapping as org's. *)
Definition RegistryCan (header action : string) : result auth_error bool := mapDecision (Decide send header action correlationID).

(** [actorFor] *)
Definition actorOf (header : string) : string := actorFor parseInsecure header.

(** audit.Denial: its own transaction, and a failed write is ignored. *)
Definition auditDenial (header action subject : string) : P unit :=
  run& _ := recordEvent (M := Pool) (mkRegEvent (actorOf header) action subject) in Ret tt.

(** [authorize] *)
Definition authorize (header action subject : string) (next : P rgReply) : P rgReply :=
  match RegistryCan header action with
  | Ok true => next
  | Err (DeniedError reason) =>
      run& _ := auditDenial header action subject in Ret (RgError 403 "AUTHORIZATION_DENIED" reason)
  | _ => run& _ := auditDenial header action subject in Ret (RgError 503 "AUTHORIZATION_UNAVAILABLE" "")
  end.

(** The loop of [handleCapabilitiesAll]. *)
Fixpoint capabilitiesOf (keys : list string) : Pool (list Capability) :=
  match keys with
  | [] => ex_ok []
  | key :: rest =>
      let+ c := Capability_ key in
      let+ caps := capabilitiesOf rest in
      ex_ok (c.1 :: caps)
  end.

Definition handleCapabilitiesAll : P rgReply :=
  orError (Catalog byKey) (fun _ => internalError) (fun entries =>
  orError (capabilitiesOf (ce_ModuleKey <$> entries)) (fun _ => internalError) (fun caps =>
  Ret (RgData 200 (BCapabilities caps)))).

Definition handleCapabilityOne (moduleKey : string) : P rgReply :=
  orError (Capability_ moduleKey) (fun e => match e with ErrModuleNotFound => notFound | _ => internalError end) (fun c =>
  Ret (RgData 200 (BCapability c.1))).

Definition handleCatalog : P rgReply :=
  orError (Catalog byKey) (fun _ => internalError) (fun entries => Ret (RgData 200 (BCatalog entries))).

Definition setEnabledAction (enabled : bool) : string := if enabled then "platform.module.enable" else "platform.module.disable".
Definition setEnabledError (e : reg_error) : rgReply :=
  match e with
  | ErrModuleNotFound => notFound
  | ErrModuleNotInstalled => RgError 409 "MODULE_NOT_INSTALLED" ""
  | ErrMandatoryModule => RgError 422 "VALIDATION_ERROR" "key"
  | _ => internalError
  end.

(** [handleSetEnabled] *)
Definition handleSetEnabled (header : string) (enabled : bool) (key : string) : P rgReply :=
  let action := setEnabledAction enabled in
  let subject := "module:" +:+ key in
  authorize header action subject
    (orError (inTx (fun fails => SetEnabled fails key enabled (mkRegEvent (actorOf header) action subject))) setEnabledError (fun _ =>
     Ret (RgData 200 (BEnabled enabled)))).

Definition registerError (e : reg_error) : rgReply :=
  match e with ErrInvalidManifest field => RgError 422 "VALIDATION_ERROR" field | _ => internalError end.

(** [handleRegisterApp]; a body over 1 MB or that does not decode is [None]. *)
Definition handleRegisterApp (header : string) (body : option AppManifest) : P rgReply :=
  match body with
  | None => Ret (RgError 400 "BAD_REQUEST" "")
  | Some m =>
      let subject := "app:" +:+ am_Key m in
      authorize header "platform.app.register" subject
        (orError (RegisterApp m (actorOf header) (mkRegEvent (actorOf header) "platform.app.register" subject)) registerError (fun _ =>
         orError (Capability_ (am_Key m)) (fun _ => internalError) (fun c =>
         Ret (RgData 200 (BCapability c.1)))))
  end.

(** [Routes] *)
Definition serveRegistry (header : string) (req : rgRequest) : P rgReply :=
  match req with
  | ReqCapabilities => handleCapabilitiesAll
  | ReqCapability module => handleCapabilityOne module
  | ReqCatalog => handleCatalog
  | ReqSetEnabled enabled key => handleSetEnabled header enabled key
  | ReqRegisterApp body => handleRegisterApp header body
  | ReqHealth => Ret (RgData 200 BHealth)
  end.
End handlers.
