(* ===== verification/RegistryEffects.v ===== *)
(** * What the registry's transactions do

    The walk over the dependencies, the committed effect of [SetEnabled] and [registerAppTx], the rules for statements
    on the pool, and what a capability answers when nothing comes in between. *)

From stdpp Require Import base gmap strings list relations.
From Stdlib Require Import Lia.
From S2P Require Import Prelude GoStrings Model BaseModel Tuple Engine TupleStore StoreProps Decision Clients AuthzHTTP ModuleKit Registry.

(** ** The dependency walk

    [listTransitiveDependencyKeys] against reachability in platform.module_dependency:
    the recursive query ends, and lists exactly the modules one gets to. *)

Section walk.
Context (deps : gmap (string * string) string) (key : string).

(** One module declares the other. *)
Definition needs (a b : string) : Prop := is_Some (deps !! (a, b)).

Lemma elem_of_dependsOn a b : b ∈ dependsOn deps a <-> needs a b.
Proof.
  unfold dependsOn, needs. rewrite list_elem_of_fmap. split.
  - intros ([a' b'] & -> & [Ha Hin]%list_elem_of_filter). simpl in *. subst a'.
    apply list_elem_of_fmap in Hin as ([e v] & -> & Hin%elem_of_map_to_list). by exists v.
  - intros [v Hv]. exists (a, b). split; [done|]. apply list_elem_of_filter. split; [done|].
    apply list_elem_of_fmap. exists ((a, b), v). split; [done|]. by apply elem_of_map_to_list.
Qed.

(** A walk from [key] that repeats no module. *)
Inductive walks : string -> list string -> Prop :=
| walks_one d : needs key d -> d <> key -> walks d [key; d]
| walks_more x p d : walks x p -> needs x d -> d ∉ p -> walks d (p ++ [d]).

Lemma walks_key d p : walks d p -> exists t, p = key :: t /\ d ∈ t.
Proof.
  induction 1 as [d ? ?|x p d _ (t & -> & _) _ _]; [exists [d]|exists (t ++ [d])].
  - split; [done|]. by left.
  - split; [done|]. rewrite elem_of_app. right. by left.
Qed.

Lemma walks_targets d p : walks d p -> NoDup p /\ forall x, x ∈ p -> x = key \/ exists a, needs a x.
Proof.
  induction 1 as [d Hd Hne|x p d _ [Hnd Hin] Hd Hfresh].
  - split.
    + repeat constructor; rewrite ?list_elem_of_singleton; [done|by apply not_elem_of_nil].
    + intros y [->|[->|Hy%not_elem_of_nil]%elem_of_cons]%elem_of_cons; [by left|right; by exists key|done].
  - split.
    + apply NoDup_app. split; [done|]. split; [|by apply NoDup_singleton].
      intros y Hy ->%list_elem_of_singleton. done.
    + intros y [Hy| ->%list_elem_of_singleton]%elem_of_app; [by apply Hin|right; by exists x].
Qed.

Lemma walks_length d p : walks d p -> length p <= S (size deps).
Proof.
  intros Hw. destruct (walks_key _ _ Hw) as (t & -> & _). apply walks_targets in Hw as [[Hk Hnd]%NoDup_cons Hin].
  assert (Hs : t ⊆+ snd <$> (fst <$> map_to_list deps)).
  { apply NoDup_submseteq; [done|]. intros x Hx. destruct (Hin x) as [->|[a [v Ha]]]; [by right|done|].
    apply list_elem_of_fmap. exists (a, x). split; [done|]. apply list_elem_of_fmap. exists ((a, x), v).
    split; [done|]. by apply elem_of_map_to_list. }
  apply submseteq_length in Hs. rewrite !length_fmap, length_map_to_list in Hs. simpl. lia.
Qed.

(** ** The rounds of the query *)

Lemma elem_of_nextDeps w w' :
  w' ∈ nextDeps deps w <-> needs w.1 w'.1 /\ w'.1 ∉ w.2 /\ w'.2 = w.2 ++ [w'.1].
Proof.
  unfold nextDeps. rewrite list_elem_of_fmap. destruct w' as [d p]. simpl. split.
  - intros (d' & [= -> ->] & [Hn Hin]%list_elem_of_filter). by rewrite elem_of_dependsOn in Hin.
  - intros (Hn & Hf & ->). exists d. split; [done|]. apply list_elem_of_filter. by rewrite elem_of_dependsOn.
Qed.

Definition walk_row (w : walk) : Prop := walks w.1 w.2.
Definition closed (l : list walk) : Prop := forall w w', w ∈ l -> w' ∈ nextDeps deps w -> w' ∈ l.

Lemma next_walk w w' : walk_row w -> w' ∈ nextDeps deps w -> walk_row w' /\ length w'.2 = S (length w.2).
Proof.
  intros Hw (Hn & Hf & E)%elem_of_nextDeps. unfold walk_row in *. rewrite E, length_app. simpl. split; [by econstructor|lia].
Qed.

Lemma recurse_spec fuel n work all :
  (forall w, w ∈ work -> length w.2 = n) -> work ⊆ all -> Forall walk_row all ->
  (forall w, w ∈ all -> w ∈ work \/ forall w', w' ∈ nextDeps deps w -> w' ∈ all) ->
  S (size deps) < n + fuel ->
  all ⊆ recurse deps fuel work all /\ Forall walk_row (recurse deps fuel work all) /\ closed (recurse deps fuel work all).
Proof.
  revert n work all. induction fuel as [|fuel IH]; intros n work all Hn Hsub Hrow Hext Hfuel; simpl.
  - split_and!; [done..|]. intros w w' Hw Hw'. destruct (Hext w Hw) as [Hwk|Hall]; [|by apply Hall].
    exfalso. rewrite Forall_forall in Hrow. pose proof (walks_length _ _ (Hrow w Hw)). specialize (Hn w Hwk). lia.
  - set (new := filter (fun w => w ∉ all) (remove_dups (work ≫= nextDeps deps))).
    assert (Hnew : forall w, w ∈ new <-> w ∉ all /\ exists u, u ∈ work /\ w ∈ nextDeps deps u).
    { intros w. unfold new. rewrite list_elem_of_filter, elem_of_remove_dups, list_elem_of_bind. naive_solver. }
    assert (Hcover : forall w w', w ∈ all -> w' ∈ nextDeps deps w -> w' ∈ all ++ new).
    { intros w w' Hw Hw'. rewrite elem_of_app. destruct (decide (w' ∈ all)); [by left|]. destruct (Hext w Hw) as [Hwk|Hall]; [|auto].
      right. apply Hnew. split; [done|]. by exists w. }
    destruct new as [|v new'] eqn:E.
    { split_and!; [done..|]. intros w w' Hw Hw'. specialize (Hcover w w' Hw Hw'). by rewrite app_nil_r in Hcover. }
    rewrite <- E in *. clear E.
    assert (Hrown : forall w, w ∈ new -> walk_row w /\ length w.2 = S n).
    { intros w (_ & u & Hu & Hw)%Hnew. rewrite Forall_forall in Hrow. rewrite <- (Hn u Hu). apply next_walk; auto. }
    destruct (IH (S n) new (all ++ new)) as (H1 & H2 & H3).
    + intros w Hw. by apply Hrown.
    + intros w Hw. rewrite elem_of_app. by right.
    + apply Forall_app. split; [done|]. rewrite Forall_forall. intros w Hw. by apply Hrown.
    + intros w [Hw|Hw]%elem_of_app; [right|by left]. intros w' Hw'. by eapply Hcover.
    + lia.
    + split_and!; [|done..]. intros w Hw. apply H1. rewrite elem_of_app. by left.
Qed.

(** ** Reachability *)

Context (Hself : deps !! (key, key) = None).

Lemma elem_of_firstDeps w : w ∈ firstDeps deps key <-> needs key w.1 /\ w.2 = [key; w.1].
Proof.
  unfold firstDeps. rewrite list_elem_of_fmap. destruct w as [d p]. simpl. split.
  - intros (d' & [= -> ->] & ?). by rewrite <- elem_of_dependsOn.
  - intros [Hn ->]. exists d. by rewrite elem_of_dependsOn.
Qed.

Lemma walks_of_tc d : (exists p, walks d p) <-> tc needs key d /\ d <> key.
Proof.
  split.
  - intros [p Hp]. split.
    + induction Hp as [d Hd _|x p d _ IH Hd _]; [by apply tc_once|by eapply tc_r].
    + intros ->. destruct (walks_key _ _ Hp) as (t & -> & Hin). apply walks_targets in Hp as [[? _]%NoDup_cons _]. done.
  - intros [Ht Hne]. assert (Hr : forall x, rtc needs key x -> x = key \/ exists p, walks x p).
    { intros x. revert x. apply rtc_ind_r; [by left|]. intros x y _ Hxy IH. destruct (decide (y = key)) as [|Hyk]; [by left|right].
      destruct IH as [->|[p Hp]]; [by exists [key; y]; constructor|].
      destruct (decide (y ∈ p)) as [Hin|]; [|by exists (p ++ [y]); econstructor].
      clear Hxy. induction Hp as [z ? ?|x p z Hp IHp ? ?].
      - apply elem_of_cons in Hin as [?|?%list_elem_of_singleton]; [done|subst]. exists [key; z]. by constructor.
      - apply elem_of_app in Hin as [Hin| ->%list_elem_of_singleton]; [by apply IHp|]. exists (p ++ [z]). by econstructor. }
    destruct (Hr d); [by apply tc_rtc|done|done].
Qed.

Lemma closed_walks l d p : firstDeps deps key ⊆ l -> closed l -> walks d p -> (d, p) ∈ l.
Proof.
  intros Hf Hc. induction 1 as [d Hd Hne|x p d Hp IH Hd Hfr].
  - apply Hf, elem_of_firstDeps. done.
  - eapply Hc; [exact IH|]. by apply elem_of_nextDeps.
Qed.

Lemma transitive_reach d : d ∈ transitiveDependencies deps key <-> tc needs key d /\ d <> key.
Proof.
  rewrite <- walks_of_tc. unfold transitiveDependencies. rewrite elem_of_remove_dups, list_elem_of_fmap.
  set (first := remove_dups (firstDeps deps key)).
  assert (Hfirst : forall w, w ∈ first -> walk_row w /\ length w.2 = 2).
  { intros [d' p'] Hw. unfold first in Hw. rewrite elem_of_remove_dups, elem_of_firstDeps in Hw. destruct Hw as [Hn E]. simpl in *. subst p'.
    split; [|done]. constructor; simpl; [done|]. intros ->. destruct Hn as [v Hv]. congruence. }
  destruct (recurse_spec (S (size deps)) 2 first first) as (H1 & H2 & H3).
  - intros w Hw. by apply Hfirst.
  - done.
  - rewrite Forall_forall. intros w Hw. by apply Hfirst.
  - by left.
  - lia.
  - split.
    + intros ([d' p] & -> & Hin). rewrite Forall_forall in H2. exists p. by apply (H2 (d', p)).
    + intros [p Hp]. exists (d, p). split; [done|]. eapply closed_walks; [|exact H3|exact Hp].
      intros w Hw. apply H1. unfold first. by rewrite elem_of_remove_dups.
Qed.
End walk.

Lemma transitive_nodup deps key : NoDup (transitiveDependencies deps key).
Proof. apply NoDup_remove_dups. Qed.

#[local] Arguments ex_ok : simpl never.
#[local] Arguments ex_err : simpl never.
#[local] Arguments ex_bind : simpl never.
#[local] Arguments ex_run : simpl never.

(** ** Transactions *)

Section tx.
Context (fails : nat -> bool).
Abbreviation ex := (tx_executor fails).

(** The tables after a piece of a transaction. *)
Definition runs {A} (m : RegTx A) (db : RegDB) (a : A) (db' : RegDB) : Prop :=
  exists n n', m (mkRegTx db n) = Ok (a, mkRegTx db' n').

Lemma runs_bind {A B} (m : RegTx A) (k : A -> RegTx B) db b db' :
  runs (ex_bind (Executor := ex) m k) db b db' -> exists a db1, runs m db a db1 /\ runs (k a) db1 b db'.
Proof.
  intros (n & n' & H). unfold ex_bind in H. simpl in H. destruct (m (mkRegTx db n)) as [[a [db1 n1]]|e] eqn:E; [|done].
  exists a, db1. split; [by exists n, n1|by exists n1, n'].
Qed.

Lemma runs_run {A} (f : RegDB -> result reg_error (A * RegDB)) db a db' :
  runs (ex_run (Executor := ex) f) db a db' -> f db = Ok (a, db').
Proof.
  intros (n & n' & H). unfold ex_run in H. simpl in H. destruct (fails n); [done|]. destruct (f db) as [[a1 db1]|]; [|done]. by injection H as -> -> _.
Qed.

Lemma runs_ok {A} (x a : A) db db' : runs (ex_ok (Executor := ex) x) db a db' -> a = x /\ db' = db.
Proof. intros (n & n' & [= -> -> ->]). done. Qed.

Lemma runs_err {A} e db (a : A) db' : ~ runs (ex_err (Executor := ex) e) db a db'.
Proof. by intros (n & n' & H). Qed.

Lemma runs_select {A} (f : RegDB -> A) db a db' : runs (select (H := ex) f) db a db' -> a = f db /\ db' = db.
Proof. intros H%runs_run. by simplify_eq. Qed.

Lemma runs_update f db u db' : runs (update (H := ex) f) db u db' -> db' = f db.
Proof. intros H%runs_run. by simplify_eq. Qed.
End tx.

Lemma committed_ok {A} (m : (nat -> bool) -> RegTx A) env db a db' :
  committed m env db = Ok (a, db') -> runs (m (tx_fails env)) db a db'.
Proof.
  unfold committed. destruct (m _ _) as [[a1 [db1 n1]]|] eqn:E; [|done]. destruct (tx_broken env); [done|].
  intros [= <- <-]. by exists 0, n1.
Qed.

(** Takes a committed piece apart, one statement at a time. *)
Ltac steps :=
  repeat match goal with
  | H : runs (ex_bind _ _) _ _ _ |- _ => apply runs_bind in H as (? & ? & ? & H)
  | H : runs (select _) _ _ _ |- _ => apply runs_select in H as [-> ->]
  | H : runs (update _) _ _ _ |- _ => apply runs_update in H as ->
  | H : runs (ex_run _) _ _ _ |- _ => apply runs_run in H
  | H : runs (ex_ok _) _ _ _ |- _ => apply runs_ok in H as [? ?]; subst
  | H : runs (ex_err _) _ _ _ |- _ => by apply runs_err in H
  end.

(** ** The rows of a status query *)

Definition statusRows (db : RegDB) (keys : list string) : list (string * InstallRow) :=
  filter (fun r => r.1 ∈ keys) (map_to_list (installation db)).

Lemma statusRows_nodup db keys : NoDup (statusRows db keys).*1.
Proof.
  eapply sublist_NoDup; [apply (NoDup_fst_map_to_list (installation db))|]. apply fmap_sublist. apply sublist_filter.
Qed.

Lemma statusRows_lookup db keys k :
  k ∈ keys -> (list_to_map (statusRows db keys) : gmap string InstallRow) !! k = installation db !! k.
Proof.
  intros Hk. apply option_eq. intros r. rewrite <- elem_of_list_to_map by apply statusRows_nodup.
  unfold statusRows. rewrite list_elem_of_filter, elem_of_map_to_list. naive_solver.
Qed.

(** A module is ready when it is installed and enabled. *)
Definition module_ready (db : RegDB) (k : string) : bool :=
  match installation db !! k with Some r => i_Installed r && i_Enabled r | None => false end.

Lemma status_rows db keys k :
  k ∈ keys -> status (statusRows db keys) k = match installation db !! k with Some r => (i_Installed r, i_Enabled r) | None => (false, false) end.
Proof. intros Hk. unfold status. by rewrite statusRows_lookup. Qed.

Lemma ready_rows db keys k : k ∈ keys -> ready (statusRows db keys) k = module_ready db k.
Proof. intros Hk. unfold ready, module_ready. rewrite status_rows by done. by destruct (installation db !! k). Qed.

(** The query for one key. *)
Lemma statusRows_one db k :
  statusRows db [k] = match installation db !! k with Some r => [(k, r)] | None => [] end.
Proof.
  pose proof (statusRows_nodup db [k]) as Hnd.
  assert (Hin : forall x, x ∈ statusRows db [k] <-> x.1 = k /\ installation db !! k = Some x.2).
  { intros [k' r]. unfold statusRows. rewrite list_elem_of_filter, elem_of_map_to_list, list_elem_of_singleton. simpl. naive_solver. }
  destruct (statusRows db [k]) as [|[k1 r1] [|[k2 r2] l]].
  - destruct (installation db !! k) as [r|] eqn:E; [|done]. pose proof (proj2 (Hin (k, r)) (conj eq_refl eq_refl)) as []%not_elem_of_nil.
  - destruct (proj1 (Hin (k1, r1))) as [? E]; [by left|]. simpl in *. subst. by rewrite E.
  - destruct (proj1 (Hin (k1, r1))) as [? _]; [by left|]. destruct (proj1 (Hin (k2, r2))) as [? _]; [right; by left|]. simpl in *. subst.
    apply NoDup_cons in Hnd as [Hn _]. destruct Hn. by left.
Qed.

(** ** Enabling and disabling *)

(** The default grants of a module for some companies: each pair is claimed, and the
    grant is given to the pairs that were not. *)
Definition granted (moduleKey : string) (companyIDs : list string) (az az' : AuthzDB) : Prop :=
  (forall c, c ∈ companyIDs -> (c, moduleKey) ∈ defaults az') /\
  (forall p, p ∈ defaults az -> p ∈ defaults az') /\
  (forall t, t ∈ tuples az -> t ∈ tuples az') /\
  (forall t, t ∈ tuples az' -> t ∈ tuples az \/ exists c, c ∈ companyIDs /\
    (t = companyAnchor c moduleKey \/ (t = systemGrant c moduleKey /\ (c, moduleKey) ∉ defaults az))) /\
  (forall c, c ∈ companyIDs -> (c, moduleKey) ∉ defaults az -> systemGrant c moduleKey ∈ tuples az').

Lemma ensureDefaultGrants_ok fails moduleKey companyIDs db u db' :
  runs (ensureDefaultGrants fails moduleKey companyIDs) db u db' ->
  db' = with_regAuthz (regAuthz db') db /\ granted moduleKey companyIDs (regAuthz db) (regAuthz db').
Proof.
  revert db. induction companyIDs as [|c cs IH]; intros db H.
  - apply (runs_ok fails) in H as [_ ->]. split; [by destruct db|]. split_and!; [by intros ? ?%not_elem_of_nil|done..| |by intros ? ?%not_elem_of_nil]. by left.
  - apply (runs_bind fails) in H as (b & db1 & (n & n' & Hv) & H). unfold viaTuples in Hv. simpl in Hv.
    destruct (EnsureDefaultGrant _ _ _ _ _ _) as [[b' s1]|] eqn:E; [|done]. injection Hv as -> <- _.
    apply IH in H as (Hdb & Hc & Hd & Ht & Hn & Hg). clear IH.
    apply EnsureDefault_ok in E as (Hb & Hd1 & Ht1 & _). simpl in *.
    split; [rewrite Hdb; by destruct db|]. split_and!.
    + intros x [->|Hx]%elem_of_cons; [|by apply Hc]. apply Hd. rewrite Hd1. set_solver.
    + intros p Hp. apply Hd. rewrite Hd1. set_solver.
    + intros t Hin. apply Ht. rewrite Ht1. set_solver.
    + intros t [Hin|(x & Hx & Hcase)]%Hn.
      * rewrite Ht1 in Hin. apply elem_of_union in Hin as [Hin|Hin]; [|by left].
        right. exists c. split; [by left|]. apply elem_of_union in Hin as [Hin| ->%elem_of_singleton]; [|by left].
        destruct b; [|by apply not_elem_of_empty in Hin]. apply elem_of_singleton in Hin as ->. right. split; [done|].
        symmetry in Hb. apply negb_true_iff, bool_decide_eq_false in Hb. done.
      * right. exists x. split; [by right|]. destruct Hcase as [->|[-> Hfr]]; [by left|right]. split; [done|].
        intros Hin. apply Hfr. rewrite Hd1. set_solver.
    + intros x [->|Hx]%elem_of_cons Hfr.
      * apply Ht. rewrite Ht1, Hb, bool_decide_false by done. simpl. set_solver.
      * destruct (decide (x = c)) as [->|Hne]; [|apply Hg; [done|]].
        -- apply Ht. rewrite Ht1, Hb, bool_decide_false by done. simpl. set_solver.
        -- rewrite Hd1, elem_of_union, elem_of_singleton. intros [[= ?]|?]; done.
Qed.

(** What an enable or a disable of [k] may do. *)
Record enabledEffect (k : string) (en : bool) (ev : RegEvent) (db : RegDB) (row : InstallRow) (db' : RegDB) : Prop := {
  ee_row : exists old, installation db !! k = Some old /\ row = mkInstall (i_Installed old) en (i_Version old) /\ (en = true -> i_Installed old = true);
  ee_may : en = false -> exists c, catalog db !! k = Some c /\ c_Mandatory (c_params c) = false;
  ee_catalog : catalog db' = catalog db; ee_dependency : dependency db' = dependency db; ee_registration : registration db' = registration db;
  ee_org : orgTypes db' = orgTypes db /\ orgCompanies db' = orgCompanies db;
  ee_installation : installation db' = <[k := row]> (installation db);
  ee_fragments : fragments db' = alter (fun r => mkFragRow (f_Fragment r) en) k (fragments db);
  ee_audit : regAudit db' = regAudit db ++ [ev];
  ee_grants : if en then granted k (orgCompanies db) (regAuthz db) (regAuthz db') else regAuthz db' = regAuthz db
}.

Lemma SetEnabled_ok fails k en ev db row db' :
  runs (SetEnabled fails k en ev) db row db' -> enabledEffect k en ev db row db'.
Proof.
  unfold SetEnabled. intros H. apply runs_bind in H as (u & db0 & Hg & H).
  assert (db0 = db /\ (en = true -> forall old, installation db !! k = Some old -> i_Installed old = true) /\
          (en = false -> exists c, catalog db !! k = Some c /\ c_Mandatory (c_params c) = false)) as (-> & Hen & Hdis).
  { destruct en; simpl in Hg.
    - unfold mayEnable in Hg. apply runs_bind in Hg as (rows & d & Hs%runs_select & Hg). destruct Hs as [-> ->].
      fold (statusRows db [k]) in Hg. rewrite statusRows_one in Hg.
      destruct (installation db !! k) as [r|]; [destruct (i_Installed r) eqn:Ei; simpl in Hg|]; steps; split_and!; try done; naive_solver.
    - unfold mayDisable in Hg. apply runs_bind in Hg as (rows & d & Hs%runs_select & Hg). destruct Hs as [-> ->].
      destruct (catalog db !! k) as [c|]; [destruct (c_Mandatory (c_params c)) eqn:Ei; simpl in Hg|]; steps; split_and!; try done; eauto. }
  unfold SetModuleEnabled, setAuthzFragmentActive, recordEvent, activeCompanyIDs in H. steps.
  destruct (installation db !! k) as [old|] eqn:Eold; simplify_eq/=; steps.
  destruct en; steps.
  - match goal with Hg : runs (ensureDefaultGrants _ _ _) _ _ _ |- _ => apply ensureDefaultGrants_ok in Hg as [Edb Hgr] end.
    rewrite Edb. split; simpl; try done; eauto 10.
  - split; simpl; try done; eauto 10.
Qed.

(** ** Registering an app *)

(** What the fragment's checks accept. *)
Definition fragment_free (k : string) (m : Model) (stored : gmap string FragRow) : Prop :=
  forall k' r t, k' <> k -> stored !! k' = Some r -> t ∈ dom m -> t ∉ topKeys (f_Fragment r).

Lemma typeOwners_nil k m stored : typeOwners k (fst <$> map_to_list m) stored = [] <-> fragment_free k m stored.
Proof.
  assert (Hdom : forall t, t ∈ (fst <$> map_to_list m) <-> t ∈ dom m).
  { intros t. rewrite list_elem_of_fmap, elem_of_dom. split.
    - intros ([t' x] & -> & H%elem_of_map_to_list). by exists x.
    - intros [x Hx%elem_of_map_to_list]. by exists (t, x). }
  unfold typeOwners. split.
  - intros E k' r t Hk Hr Ht Hin. apply fmap_nil_inv in E. apply (not_elem_of_nil (k', r)). rewrite <- E, list_elem_of_filter, elem_of_map_to_list.
    split; [|done]. split; [done|]. apply Exists_exists. exists t. split; [by apply Hdom|done].
  - intros Hf. match goal with |- fst <$> ?l = [] => enough (l = []) as -> by done end. apply elem_of_nil_inv. intros [k' r].
    rewrite list_elem_of_filter, elem_of_map_to_list, Exists_exists. simpl. intros [[Hk (t & Ht%Hdom & Hin)] Hr]. by apply (Hf k' r t).
Qed.

Record registered (seen : gmap string FragRow) (m : AppManifest) (actor : string) (ev : RegEvent) (db db' : RegDB) : Prop := {
  rg_fragment : exists doc mdl, am_AuthzFragment m = Some doc /\ checkFragment doc = Ok mdl /\ fragment_free (am_Key m) mdl seen /\
    fragments db' = <[am_Key m := mkFragRow doc (match installation db !! am_Key m with Some r => i_Enabled r | None => false end)]> (fragments db);
  rg_installation : installation db' =
    <[am_Key m := mkInstall true (match installation db !! am_Key m with Some r => i_Enabled r | None => false end) (Some (am_Version m))]> (installation db);
  rg_catalog : catalog db' = <[am_Key m := mkCatalogRow (appCatalogRow m) (am_Features m)]> (catalog db);
  rg_client : clientTaken (am_Key m) (am_ServiceClientID m) (registration db) = false;
  rg_registration : registration db' = <[am_Key m := mkAppRow (am_ServiceClientID m) m actor]> (registration db);
  rg_same : dependency db' = dependency db /\ regAuthz db' = regAuthz db /\ orgTypes db' = orgTypes db /\ orgCompanies db' = orgCompanies db;
  rg_audit : regAudit db' = regAudit db ++ [ev]
}.

Lemma upsertFragment_ok fails seen k fragment active db u db' :
  runs (upsertAuthzFragment (H := tx_executor fails) (select (H := tx_executor fails) (fun _ => seen)) k (Some fragment) active) db u db' ->
  exists m, checkFragment fragment = Ok m /\ fragment_free k m seen /\ db' = with_fragments <[k := mkFragRow fragment active]> db.
Proof.
  unfold upsertAuthzFragment. destruct (checkFragment fragment) as [m|] eqn:E; [|intros; steps]. intros H. steps.
  destruct (typeOwners _ _ _) eqn:Eo; steps. exists m. split_and!; [done| |done]. by apply typeOwners_nil.
Qed.

Lemma alter_as_insert {A} (f : A -> A) (k : string) (t : gmap string A) x : t !! k = Some x -> alter f k t = <[k := f x]> t.
Proof.
  intros Hx. apply map_eq. intros j. destruct (decide (k = j)) as [<-|].
  - by rewrite lookup_alter_eq, lookup_insert_eq, Hx.
  - by rewrite lookup_alter_ne, lookup_insert_ne.
Qed.

Lemma seedInstallation_ok fails k row c db u db' :
  catalog db !! k = Some c -> runs (SeedModuleInstallationMissing (H := tx_executor fails) k row) db u db' ->
  db' = with_installation (fun t => <[k := default row (t !! k)]> t) db.
Proof.
  intros Hc H%runs_run. rewrite Hc in H. unfold with_installation. destruct (installation db !! k) as [r|] eqn:E; injection H as _ <-; simpl; [|done].
  rewrite insert_id by done. by destruct db.
Qed.

Lemma putRegistration_ok fails k row db u db' :
  runs (putRegistration (H := tx_executor fails) k row) db u db' ->
  clientTaken k (a_ServiceClientID row) (registration db) = false /\ db' = with_registration <[k := row]> db.
Proof.
  intros H%runs_run. destruct (catalog db !! k); [|done]. destruct (_ && _) eqn:E; [|done]. injection H as _ <-.
  apply andb_true_iff in E as [_ E%negb_true_iff]. done.
Qed.

Lemma orInvalid_ok {A} field (m : RegTx A) db a db' : runs (orInvalid field m) db a db' -> runs m db a db'.
Proof. intros (n & n' & H). unfold orInvalid in H. exists n, n'. by destruct (m (mkRegTx db n)). Qed.

Lemma registerAppTx_ok fails seen m actor ev db u db' :
  am_AuthzFragment m <> None -> runs (registerAppTx fails seen m actor ev) db u db' -> registered seen m actor ev db db'.
Proof.
  intros Hfr H. unfold registerAppTx in H. set (k := am_Key m) in *.
  apply runs_bind in H as ([] & d1 & H1%runs_run & H). destruct (catalogChecks _ _); [|done]. injection H1 as <-.
  apply runs_bind in H as ([] & d2 & H2 & H).
  eapply seedInstallation_ok in H2 as ->; [|apply lookup_insert_eq].
  apply runs_bind in H as ([] & d3 & H3%runs_update & H). apply runs_bind in H as ([] & d4 & H4%runs_update & H). subst d3 d4.
  apply runs_bind in H as ([] & d5 & [Hcl ->]%putRegistration_ok & H).
  apply runs_bind in H as (o & d6 & [-> ->]%runs_select & H). cbn in H.
  rewrite (alter_as_insert _ _ _ _ (lookup_insert_eq _ _ _)), insert_insert_eq, lookup_insert_eq in H. cbn in H.
  apply runs_bind in H as ([] & d7 & H7 & H). apply runs_update in H as ->.
  assert (exists doc, am_AuthzFragment m = Some doc) as [doc Edoc] by (destruct (am_AuthzFragment m); [eauto|done]).
  apply orInvalid_ok in H7. rewrite Edoc in H7. apply upsertFragment_ok in H7 as (mdl & Hck & Hfree & ->).
  assert (Hen : i_Enabled (default (mkInstall true false (Some (am_Version m))) (installation db !! k)) =
    match installation db !! k with Some r => i_Enabled r | None => false end) by (by destruct (installation db !! k)).
  split; fold k; simpl; try done.
  - exists doc, mdl. rewrite Hen. done.
  - rewrite (alter_as_insert _ _ _ _ (lookup_insert_eq _ _ _)), insert_insert_eq, Hen. done.
  - rewrite (alter_as_insert _ _ _ _ (lookup_insert_eq _ _ _)), insert_insert_eq. done.
Qed.

(** ** The pool *)

Abbreviation RW := (MWorld RegDB).
Definition at_store (w : RW) (db : RegDB) : RW := mkMWorld db (w_authz w) (w_sent w).

Section pool.
Context (verify : string -> option Claims) (uuid_ok : string -> bool) (authz : Service -> Prop).
Abbreviation alone := (alone verify uuid_ok authz).

Lemma alone_ex_bind {A B} (m : Pool A) (k : A -> Pool B) w Q :
  alone m w (fun r w' => match r with Ok a => alone (k a) w' Q | Err e => Q (Err e) w' end) -> alone (ex_bind m k) w Q.
Proof. intros H. apply alone_bind. eapply alone_mono; [|exact H]. by intros []. Qed.

Lemma alone_ex_run {A} (f : RegDB -> result reg_error (A * RegDB)) w (Q : result reg_error A -> RW -> Prop) :
  Q (Err RegDatabase) w -> match f (w_store w) with Ok (a, db) => Q (Ok a) (at_store w db) | Err e => Q (Err e) w end ->
  alone (ex_run (M := Pool) f) w Q.
Proof.
  intros He Hok x w' [env Hx]. unfold autocommit in Hx. simpl. destruct (tx_broken env); [by destruct Hx as [-> ->]|].
  destruct (f (w_store w)) as [[a db]|e]; by destruct Hx as [-> ->].
Qed.

Lemma alone_select {A} (f : RegDB -> A) w (Q : result reg_error A -> RW -> Prop) :
  Q (Err RegDatabase) w -> Q (Ok (f (w_store w))) w -> alone (select (M := Pool) f) w Q.
Proof. intros He Hok. apply alone_ex_run; [done|]. by destruct w. Qed.

Lemma alone_update f w (Q : result reg_error unit -> RW -> Prop) :
  Q (Err RegDatabase) w -> Q (Ok tt) (at_store w (f (w_store w))) -> alone (update (M := Pool) f) w Q.
Proof. intros He Hok. by apply alone_ex_run. Qed.

(** ** Capabilities *)

Definition registeredClient (db : RegDB) (k : string) : string := default "" (a_ServiceClientID <$> registration db !! k).

(** What [Capability_] computes from one state of the tables. *)
Definition capabilityAt (db : RegDB) (k : string) (row : CatalogRow) : Capability * string :=
  let deps := transitiveDependencies (dependency db) k in
  capabilityOf k row (c_Features row) (if (c_Port (c_params row) =? 0)%Z then registeredClient db k else "") deps (statusRows db (k :: deps)).

Lemma Capability_alone k w :
  alone (Capability_ k) w (fun r w' => w' = w /\
    (r = Err RegDatabase \/ match catalog (w_store w) !! k with Some row => r = Ok (capabilityAt (w_store w) k row) | None => r = Err ErrModuleNotFound end)).
Proof.
  apply alone_ex_bind, alone_select; [by auto|]. destruct (catalog (w_store w) !! k) as [row|] eqn:E; [|split; [done|by right]].
  apply alone_ex_bind, alone_select; [by auto|]. rewrite E. cbn [fmap option_fmap option_map].
  apply alone_ex_bind. set (c := if (c_Port (c_params row) =? 0)%Z then registeredClient (w_store w) k else "").
  assert (Hc : forall Q, Q (Err RegDatabase) w -> Q (Ok c) w -> alone (if (c_Port (c_params row) =? 0)%Z
    then select (M := Pool) (A := string) (fun db => registeredClient db k) else ex_ok "") w Q).
  { intros Q He Hok. unfold c in Hok. destruct (_ =? 0)%Z; [by apply alone_select|exact Hok]. }
  apply Hc; [by auto|]. apply alone_ex_bind, alone_select; [by auto|]. apply alone_ex_bind, alone_select; [by auto|].
  split; [done|]. by right.
Qed.
End pool.

(** The code a capability carries, in terms of the tables: it is empty exactly when the
    module and every module one gets to are installed and enabled. *)
Lemma capabilityAt_spec db k row :
  dependency db !! (k, k) = None ->
  let '(cap, code) := capabilityAt db k row in
  cap_Module cap = k /\ (cap_Installed cap = match installation db !! k with Some r => i_Installed r | None => false end) /\
  cap_Enabled cap = module_ready db k /\
  NoDup (cap_Dependencies cap) /\
  (forall d, d ∈ cap_Dependencies cap <-> tc (needs (dependency db)) k d /\ d <> k) /\
  (forall d, d ∈ cap_MissingDependencies cap <-> d ∈ cap_Dependencies cap /\ module_ready db d = false) /\
  (code = "MODULE_NOT_INSTALLED" <-> cap_Installed cap = false) /\
  (code = "MODULE_DISABLED" <-> cap_Installed cap = true /\ cap_Enabled cap = false) /\
  (code = "MODULE_DEPENDENCY_MISSING" <-> cap_Enabled cap = true /\ exists d, d ∈ cap_MissingDependencies cap) /\
  (code = "" <-> forall d, d = k \/ tc (needs (dependency db)) k d -> module_ready db d = true).
Proof.
  intros Hself. unfold capabilityAt, capabilityOf. set (deps := transitiveDependencies (dependency db) k).
  set (rows := statusRows db (k :: deps)).
  assert (Hk : status rows k = match installation db !! k with Some r => (i_Installed r, i_Enabled r) | None => (false, false) end) by (apply status_rows; by left).
  assert (Hdeps : forall d, d ∈ deps <-> tc (needs (dependency db)) k d /\ d <> k) by (intros d; by apply transitive_reach).
  assert (Hready : forall d, d ∈ deps -> ready rows d = module_ready db d) by (intros d Hd; apply ready_rows; by right).
  set (missing := filter (fun dk => ready rows dk = false) deps).
  assert (Hmiss : forall d, d ∈ missing <-> d ∈ deps /\ module_ready db d = false).
  { intros d. unfold missing. rewrite list_elem_of_filter. split; [intros [Hr Hd]|intros [Hd Hr]]; (split; [|]); rewrite ?Hready in *; done. }
  assert (Hen : (status rows k).1 && (status rows k).2 = module_ready db k).
  { rewrite Hk. unfold module_ready. by destruct (installation db !! k). }
  assert (Hin1 : (status rows k).1 = match installation db !! k with Some r => i_Installed r | None => false end).
  { rewrite Hk. by destruct (installation db !! k). }
  assert (Hnone : missing = [] <-> forall d, d ∈ deps -> module_ready db d = true).
  { split.
    - intros E d Hd. apply not_false_iff_true. intros Hr. apply (not_elem_of_nil d). rewrite <- E. by apply Hmiss.
    - intros Hall. apply elem_of_nil_inv. intros d [Hd Hr]%Hmiss. by rewrite Hall in Hr. }
  assert (Hlen : (0 <? length missing)%nat = false <-> missing = []) by (destruct missing; simpl; naive_solver).
  assert (Hsome : missing <> [] <-> exists d, d ∈ missing).
  { destruct missing as [|d l]; [split; [done|by intros [d ?%not_elem_of_nil]]|]. split; [intros _; exists d; by left|done]. }
  cbn [cap_Module cap_Installed cap_Enabled cap_Dependencies cap_MissingDependencies]. rewrite Hen.
  split; [done|]. split; [done|]. split; [done|]. split; [apply transitive_nodup|]. split; [done|]. split; [done|].
  assert (Himp : module_ready db k = true -> (status rows k).1 = true) by (rewrite <- Hen; by destruct ((status rows k).1)).
  assert (Hall : (forall d, d = k \/ tc (needs (dependency db)) k d -> module_ready db d = true) <-> module_ready db k = true /\ missing = []).
  { rewrite Hnone. split.
    - intros H. split; [apply H; by left|]. intros d [Hd _]%Hdeps. apply H. by right.
    - intros [H1 H2] d [->|Hd]; [done|]. destruct (decide (d = k)) as [->|]; [done|]. apply H2. by apply Hdeps. }
  rewrite Hall, <- Hsome.
  destruct ((status rows k).1) eqn:E1; cbn [negb].
  - destruct (module_ready db k) eqn:E2; cbn [negb].
    + destruct (0 <? length missing)%nat eqn:E3.
      * assert (missing <> []) by (intros ?%Hlen; congruence). naive_solver.
      * pose proof (proj1 Hlen eq_refl). naive_solver.
    + naive_solver.
  - assert (module_ready db k = false) as -> by (apply not_true_iff_false; naive_solver). naive_solver.
Qed.

(** ** Refusals *)

Section refusals.
Context (fails : nat -> bool).
Abbreviation ex := (tx_executor fails).

Lemma err_bind {A B} (m : RegTx A) (k : A -> RegTx B) s e :
  ex_bind (Executor := ex) m k s = Err e -> m s = Err e \/ exists a s', m s = Ok (a, s') /\ k a s' = Err e.
Proof. unfold ex_bind. simpl. destruct (m s) as [[a s']|e'] eqn:E; [right; eauto|intros [= <-]; by left]. Qed.

Lemma err_run {A} (f : RegDB -> result reg_error (A * RegDB)) s e :
  ex_run (Executor := ex) f s = Err e -> e = RegDatabase \/ f (r_db s) = Err e.
Proof. unfold ex_run. simpl. destruct (fails _); [intros [= <-]; by left|]. destruct (f (r_db s)) as [[a db]|e'] eqn:E; [done|intros [= <-]; by right]. Qed.

Lemma ok_run {A} (f : RegDB -> result reg_error (A * RegDB)) s a s' : ex_run (Executor := ex) f s = Ok (a, s') -> f (r_db s) = Ok (a, r_db s').
Proof. unfold ex_run. simpl. destruct (fails _); [done|]. destruct (f (r_db s)) as [[a1 db]|]; [|done]. by intros [= <- <-]. Qed.

Lemma err_grants k cs s e : ensureDefaultGrants fails k cs s = Err e -> e = RegDatabase.
Proof.
  revert s. induction cs as [|c cs IH]; intros s; [done|]. intros [H|(b & s' & _ & H)]%err_bind; [|by eapply IH].
  unfold viaTuples in H. by destruct (EnsureDefaultGrant _ _ _ _ _ _) as [[]|]; [|injection H as <-].
Qed.

(** Why an enable or a disable is refused. *)
Definition refused (k : string) (en : bool) (db : RegDB) (e : reg_error) : Prop :=
  match e with
  | ErrModuleNotFound => installation db !! k = None \/ (en = false /\ catalog db !! k = None)
  | ErrMandatoryModule => en = false /\ exists c, catalog db !! k = Some c /\ c_Mandatory (c_params c) = true
  | ErrModuleNotInstalled => en = true /\ exists r, installation db !! k = Some r /\ i_Installed r = false
  | RegDatabase => True
  | _ => False
  end.

Lemma SetEnabled_err k en ev s e : SetEnabled fails k en ev s = Err e -> refused k en (r_db s) e.
Proof.
  unfold SetEnabled. intros [H|([] & s1 & H1 & H)]%err_bind.
  - destruct en; cbn [negb] in H.
    + apply err_bind in H as [[->|H]%err_run|(rows & s' & [= <- _]%ok_run & H)]; [done|done|].
      fold (statusRows (r_db s) [k]) in H. rewrite statusRows_one in H. destruct (installation (r_db s) !! k) as [r|] eqn:E; [|done].
      destruct (i_Installed r) eqn:Ei; [done|]. injection H as <-. simpl. eauto.
    + apply err_bind in H as [[->|H]%err_run|(o & s' & [= <- _]%ok_run & H)]; [done|done|].
      destruct (catalog (r_db s) !! k) as [c|] eqn:E; [|injection H as <-; by right].
      destruct (c_Mandatory (c_params c)) eqn:Em; [|done]. injection H as <-. simpl. eauto.
  - assert (r_db s1 = r_db s) as Hs1.
    { destruct en; cbn [negb] in H1; unfold mayEnable, mayDisable, ex_bind in H1; simpl in H1; unfold select, ex_run in H1; simpl in H1;
        destruct (fails _); try done; repeat (case_match; simplify_eq/=; try done); unfold ex_ok, ex_err in H1; simpl in H1; by injection H1 as <-. }
    apply err_bind in H as [[->|H]%err_run|(row & s2 & H2%ok_run & H)]; [done|done|].
    injection H2 as <- _. rewrite Hs1 in H. destruct (installation (r_db s) !! k) as [old|] eqn:E; [|injection H as <-; by left].
    cbn [fmap option_fmap option_map] in H.
    apply err_bind in H as [[->|H]%err_run|(u3 & s3 & _ & H)]; [done|done|].
    apply err_bind in H as [H|(u4 & s4 & _ & H)].
    { destruct en; [|done]. apply err_bind in H as [[->|H]%err_run|(cs & s5 & _ & H)]; [done|done|]. by apply err_grants in H as ->. }
    apply err_bind in H as [[->|H]%err_run|(u5 & s5 & _ & H)]; [done|done|]. done.
Qed.
End refusals.

(** ** Enabling goes through *)

Lemma grant_claim_total fails actor corr t s :
  (forall n, fails n = false) -> has_empty_field t = false -> is_anchor t = false -> exists s', Grant fails actor corr [t] s = Ok (tt, s').
Proof.
  intros Hf He Ha. unfold Grant, writeTuples, writeTuplesLoop, writeTuple. rewrite He, Ha, andb_false_r. unfold tbind, TupleStore.exec. simpl.
  rewrite Hf. unfold insertTuple. rewrite Ha. case_decide; simpl; [eauto|]. rewrite Hf. simpl. eauto.
Qed.

Lemma nonempty_append a b : a <> "" -> a +:+ b <> "".
Proof. by destruct a. Qed.

Lemma EnsureDefaultGrant_total fails actor companyID moduleKey s :
  (forall n, fails n = false) -> companyID <> "" -> moduleKey <> "" -> exists b s', EnsureDefaultGrant fails actor "" companyID moduleKey s = Ok (b, s').
Proof.
  intros Hf Hc Hk. pose proof (nonempty_append companyID ("/" +:+ moduleKey) Hc) as Ho.
  assert (Hse : forall x : string, x <> "" -> seqb x "" = false) by (intros x; apply seqb_false).
  assert (Ha : forall s0, exists s', EnsureCompanyModuleAnchor fails actor "" companyID moduleKey s0 = Ok (tt, s')).
  { intros s0. unfold EnsureCompanyModuleAnchor, tbind, TupleStore.exec. rewrite Hf. case_bool_decide; [by eexists|].
    apply grant_claim_total; [done| |done]. unfold has_empty_field, companyAnchor. simpl. by rewrite !Hse. }
  unfold EnsureDefaultGrant. rewrite (Hse companyID), (Hse moduleKey) by done. cbn [orb]. unfold tbind at 1. destruct (Ha s) as [s1 ->].
  unfold tbind at 1, TupleStore.exec. rewrite Hf. unfold claimDefault. case_decide; [by eexists _, _|].
  unfold tbind. cbv beta iota. match goal with |- context [Grant fails actor "" _ ?st] =>
    destruct (grant_claim_total fails actor "" (systemGrant companyID moduleKey) st) as [s3 Hs3] end; [done| |done|].
  - unfold has_empty_field, systemGrant. simpl. by rewrite !Hse.
  - rewrite Hs3. by eexists _, _.
Qed.

Lemma grants_total fails k cs s :
  (forall n, fails n = false) -> k <> "" -> Forall (fun c => c <> "") cs -> exists s', ensureDefaultGrants fails k cs s = Ok (tt, s').
Proof.
  intros Hf Hk Hcs. revert s. induction Hcs as [|c cs Hc _ IH]; intros s; [by eexists|]. simpl. unfold ex_bind. simpl. unfold viaTuples.
  destruct (EnsureDefaultGrant_total fails defaultGrantActor c k (mkTx (regAuthz (r_db s)) (r_statements s)) Hf Hc Hk) as (b & s' & ->). apply IH.
Qed.

(** No statement fails and the guards hold. *)
Definition mayCommit (k : string) (en : bool) (env : TxEnv) (db : RegDB) : Prop :=
  (forall n, tx_fails env n = false) /\ tx_broken env = false /\ k <> "" /\ Forall (fun c => c <> "") (orgCompanies db) /\
  (exists r, installation db !! k = Some r /\ (en = true -> i_Installed r = true)) /\
  (en = false -> exists c, catalog db !! k = Some c /\ c_Mandatory (c_params c) = false).

Lemma SetEnabled_total k en ev env db :
  mayCommit k en env db -> exists row db', committed (fun fails => SetEnabled fails k en ev) env db = Ok (row, db').
Proof.
  intros (Hf & Hb & Hk & Hcs & (r & Hr & Hen) & Hdis). unfold committed.
  assert (Hrun : forall A (f : RegDB -> result reg_error (A * RegDB)) s a db1, f (r_db s) = Ok (a, db1) ->
    ex_run (Executor := tx_executor (tx_fails env)) f s = Ok (a, mkRegTx db1 (S (r_statements s)))).
  { intros A f s a db1 E. unfold ex_run. simpl. by rewrite Hf, E. }
  assert (Hbind : forall A B (m : RegTx A) (q : A -> RegTx B) s a s' res, m s = Ok (a, s') -> q a s' = res ->
    ex_bind (Executor := tx_executor (tx_fails env)) m q s = res).
  { intros A B m q s a s' res E <-. unfold ex_bind. simpl. by rewrite E. }
  assert (exists row db' n, SetEnabled (tx_fails env) k en ev (mkRegTx db 0) = Ok (row, mkRegTx db' n)) as (row & db' & n & ->); [|rewrite Hb; eauto].
  set (s0 := mkRegTx (with_fragments (alter (fun r => mkFragRow (f_Fragment r) en) k)
    (with_installation <[k := mkInstall (i_Installed r) en (i_Version r)]> db)) 3). assert (exists s1, (if en then ex_bind (Executor := tx_executor (tx_fails env)) (activeCompanyIDs (H := tx_executor (tx_fails env)))
    (fun cs => ensureDefaultGrants (tx_fails env) k cs) else ex_ok (Executor := tx_executor (tx_fails env)) tt) s0 = Ok (tt, s1)) as [s1 Hs1].
  { destruct en; [|by eexists]. destruct (grants_total (tx_fails env) k (orgCompanies db) (mkRegTx (r_db s0) (S (r_statements s0))) Hf Hk Hcs) as [s1 Hs1].
    exists s1. eapply Hbind; [by apply Hrun|]. exact Hs1. }
  do 3 eexists. eapply Hbind.
  { instantiate (1 := mkRegTx db 1). instantiate (1 := tt). destruct en; cbn [negb].
    - eapply Hbind; [by apply Hrun|]. cbn [r_db]. fold (statusRows db [k]). rewrite statusRows_one, Hr. by rewrite Hen.
    - eapply Hbind; [by apply Hrun|]. cbn [r_db]. destruct Hdis as (c & -> & ->); done. }
  eapply Hbind; [by apply Hrun|]. cbn [r_db r_statements]. rewrite Hr. cbn [fmap option_fmap option_map].
  eapply Hbind; [by apply Hrun|]. cbn [r_db r_statements].
  eapply Hbind; [exact Hs1|]. eapply Hbind; [by apply Hrun|]. reflexivity.
Qed.
