(* ===== verification/RegistryTables.v ===== *)
(** * The registry's tables

    What every statement of every request and every seed keeps: stored fragments pass
    the checks, enabled modules are installed, a service client belongs to one app.  That
    no two stored fragments share a type is kept by a statement that stores a fragment
    only while the ownership query before it is still right.  Loading the effective model
    stops at a stored fragment only when it shares a type with another. *)

From stdpp Require Import base gmap strings list relations.
From Stdlib Require Import Lia.
From S2P Require Import Prelude GoStrings Model BaseModel Tuple Engine Fragment TupleStore StoreProps Decision Clients AuthzHTTP AdminClient ModuleKit Registry RegistrySeed RegistryHTTP RegistryEffects.

Record reg_tables (db : RegDB) : Prop := {
  rt_fragment : forall k r, fragments db !! k = Some r -> exists m, checkFragment (f_Fragment r) = Ok m;
  rt_enabled : forall k r, installation db !! k = Some r -> i_Enabled r = true -> i_Installed r = true;
  rt_client : forall k k' a a', registration db !! k = Some a -> registration db !! k' = Some a' ->
    a_ServiceClientID a = a_ServiceClientID a' -> k = k';
  rt_installed : forall k, is_Some (installation db !! k) -> is_Some (catalog db !! k);
  rt_registered : forall k, is_Some (registration db !! k) -> is_Some (catalog db !! k);
  rt_depends : forall k d, is_Some (dependency db !! (k, d)) -> k <> d /\ is_Some (catalog db !! k) /\ is_Some (catalog db !! d)
}.

(** Two modules whose stored fragments declare the same type. *)
Definition shared_type (stored : gmap string FragRow) (k k' t : string) : Prop :=
  k <> k' /\ (exists r, stored !! k = Some r /\ t ∈ topKeys (f_Fragment r)) /\
  exists r, stored !! k' = Some r /\ t ∈ topKeys (f_Fragment r).
Definition types_once (stored : gmap string FragRow) : Prop := forall k k' t, ~ shared_type stored k k' t.

(** The stored documents, without the flags. *)
Definition documents (stored : gmap string FragRow) : gmap string json := f_Fragment <$> stored.

Lemma shared_documents stored stored' k k' t : documents stored = documents stored' -> shared_type stored k k' t -> shared_type stored' k k' t.
Proof.
  intros E (Hne & H1 & H2). assert (Hin : forall j, (exists r, stored !! j = Some r /\ t ∈ topKeys (f_Fragment r)) ->
    exists r, stored' !! j = Some r /\ t ∈ topKeys (f_Fragment r)).
  { intros j (r & Hr & Ht). assert (Hd : documents stored' !! j = Some (f_Fragment r)) by (rewrite <- E; unfold documents; by rewrite lookup_fmap, Hr).
    unfold documents in Hd. apply lookup_fmap_Some in Hd as (r' & Ef & Hr'). exists r'. by rewrite Ef. }
  split_and!; auto.
Qed.

Lemma types_once_documents stored stored' : documents stored = documents stored' -> types_once stored -> types_once stored'.
Proof. intros E H k k' t Hs. apply (H k k' t). by eapply shared_documents. Qed.

(** A fragment is active exactly while its module is installed and enabled. *)
Definition mirrored (db : RegDB) : Prop :=
  forall k r, fragments db !! k = Some r -> f_Active r = module_ready db k.

(** ** Fragments *)

Lemma LoadModel_keys doc m : LoadModel (Some doc) = Ok m -> dom m = list_to_set (topKeys doc).
Proof.
  cbn [LoadModel]. intros H. apply result_bind_ok in H as (m' & Hm & H). case_decide as Hsz; [done|].
  apply result_bind_ok in H as ([] & _ & [= <-]). destruct doc as [| | | | |kvs]; try discriminate Hm.
  - injection Hm as <-. by destruct Hsz.
  - cbn [decode_map] in Hm. apply result_bind_ok in Hm as (vs & Hvs%collect_ok & [= <-]). simpl.
    rewrite dom_list_to_map_L, fmap_reverse. apply set_eq. intros t. rewrite !elem_of_list_to_set, elem_of_reverse.
    enough (vs.*1 = kvs.*1) as -> by done. clear -Hvs. revert vs Hvs. induction kvs as [|kv kvs IH]; intros [|v vs] Hvs; simplify_eq/=; [done|].
    match goal with H : _ = Ok v |- _ => apply result_bind_ok in H as (a & _ & [= <-]) end. f_equal. by apply IH.
Qed.

Lemma checkFragment_ok doc m :
  checkFragment doc = Ok m <-> LoadModel (Some doc) = Ok m /\ ValidateCompanyModuleAnchor m = Ok tt /\ forall t, t ∈ dom m -> IsBaseType t = false.
Proof.
  unfold checkFragment. generalize IsBaseType. intros isBase. destruct (LoadModel (Some doc)) as [m'|e]; [|split; [done|by intros [? _]]].
  destruct (ValidateCompanyModuleAnchor m') as [[]|e] eqn:Ea; [|split; [done|intros ([= ->] & ? & _); congruence]].
  assert (Hdom : forall t, t ∈ (fst <$> map_to_list m') <-> t ∈ dom m').
  { intros t. rewrite list_elem_of_fmap, elem_of_dom. split.
    - intros ([t' x] & -> & H%elem_of_map_to_list). by exists x.
    - intros [x Hx%elem_of_map_to_list]. by exists (t, x). }
  destruct (filter _ _) as [|t l] eqn:Ef.
  - split; [|by intros [[= ->] _]]. intros [= <-]. split; [done|]. split; [done|]. intros t Ht%Hdom. apply not_true_iff_false. intros Hb.
    apply (not_elem_of_nil t). rewrite <- Ef. by apply list_elem_of_filter.
  - split; [done|]. intros ([= ->] & _ & Hb). assert (Hin : t ∈ t :: l) by left. rewrite <- Ef in Hin.
    apply list_elem_of_filter in Hin as [Ht Hin%Hdom]. by rewrite Hb in Ht.
Qed.

Lemma checkFragment_keys doc m : checkFragment doc = Ok m -> dom m = list_to_set (topKeys doc).
Proof. intros [H _]%checkFragment_ok. by apply LoadModel_keys. Qed.

(** ** Loading the effective model *)

(** The rows authz reads, in some order. *)
Definition fragmentRow (kr : string * FragRow) : Row := mkFragment kr.1 (Some (f_Fragment kr.2)) (f_Active kr.2).

Section loading.
(** The base model, by its types only. *)
Context (B : Model) (Hbase : forall t, IsBaseType t = bool_decide (t ∈ dom B)).

Lemma claimTypes_err key types own e :
  NoDup types -> (forall t, t ∈ types -> IsBaseType t = false) -> claimTypes key types own = Err e ->
  exists t prev, t ∈ types /\ own !! t = Some prev /\ e = DeclaredTwice key t prev.
Proof.
  intros Hnd. revert own. induction Hnd as [|t types Ht Hnd IH]; intros own Hb H; [done|]. cbn [claimTypes] in H.
  rewrite (Hb t) in H by left. destruct (own !! t) as [prev|] eqn:E.
  - injection H as <-. exists t, prev. split; [by left|done].
  - apply IH in H as (t' & prev & Hin & Hown & ->); [|intros t' Ht'; apply Hb; by right]. exists t', prev. split_and!; [by right| |done].
    rewrite lookup_insert_ne in Hown; [done|]. by intros ->.
Qed.

(** One stored fragment is loaded or shares a type with an earlier one. *)
Lemma loadRow_ends ke k r s :
  (exists m, checkFragment (f_Fragment r) = Ok m) -> (exists rows, load_inv (dom B) ke B rows s) ->
  (exists s', loadRow ke (fragmentRow (k, r)) s = Ok s') \/
  exists t prev, t ∈ topKeys (f_Fragment r) /\ owner s !! t = Some prev /\ loadRow ke (fragmentRow (k, r)) s = Err (DeclaredTwice k t prev).
Proof.
  intros [m Hm] [rows Hi'].
  destruct (effective ke (fragmentRow (k, r))) eqn:He; [|left; eexists; by apply loadRow_inert].
  pose proof (checkFragment_keys _ _ Hm) as Hkeys. apply checkFragment_ok in Hm as (Hload & Hanc & Hnb).
  assert (Hdom : forall t, t ∈ (fst <$> map_to_list m) -> t ∈ dom m).
  { intros t ([t' x] & -> & H%elem_of_map_to_list)%list_elem_of_fmap. apply elem_of_dom. by exists x. }
  destruct (claimTypes k (fst <$> map_to_list m) (owner s)) as [own'|e] eqn:Ec.
  - left. apply (claimTypes_model _ Hbase) in Ec as (Hb & Ho & _). eexists. apply (loadRow_effective _ Hbase); [done|].
    exists m. split_and!; try done. apply map_disjoint_dom. rewrite (li_dom _ _ _ _ _ Hi'). clear -Hb Ho. set_solver.
  - right. pose proof Ec as Herr. apply claimTypes_err in Ec as (t & prev & Hin & Hown & ->); [|apply NoDup_fst_map_to_list|intros t Ht; by apply Hnb, Hdom].
    exists t, prev. split_and!; [|done|].
    + apply Hdom in Hin. by rewrite Hkeys, elem_of_list_to_set in Hin.
    + by eapply loadRow_claimed.
Qed.

Lemma loadRows_ends ke db (done todo : list (string * FragRow)) s :
  reg_tables db -> (forall kr, kr ∈ done ++ todo -> fragments db !! kr.1 = Some kr.2) -> NoDup (done ++ todo).*1 ->
  load_inv (dom B) ke B (fragmentRow <$> done) s ->
  (exists s', loadRows ke (fragmentRow <$> todo) s = Ok s') \/
  exists k t k', shared_type (fragments db) k k' t /\ loadRows ke (fragmentRow <$> todo) s = Err (DeclaredTwice k t k').
Proof.
  intros Hdb. revert done s. induction todo as [|[k r] todo IH]; intros done s Hin Hnd Hi; [left; by exists s|].
  assert (Hk : fragments db !! k = Some r) by (apply (Hin (k, r)); rewrite elem_of_app; right; left).
  cbn [fmap list_fmap loadRows]. change (list_fmap _ _ fragmentRow todo) with (fragmentRow <$> todo).
  destruct (loadRow_ends ke k r s (rt_fragment db Hdb k r Hk)) as [[s1 Hs1]|(t & prev & Ht & Hown & Herr)]; [by eauto| |].
  - rewrite Hs1. cbn [result_bind]. apply (IH (done ++ [(k, r)])).
    + intros kr Hkr. apply Hin. by rewrite <- (assoc_L (++)) in Hkr.
    + by rewrite <- (assoc_L (++)).
    + rewrite fmap_app. eapply (load_inv_step _ Hbase); [done|exact Hi|exact Hs1].
  - right. exists k, t, prev. rewrite Herr. split; [|done].
    assert (is_Some (merged s !! t)) as [rels Hrels].
    { apply elem_of_dom. rewrite (li_dom _ _ _ _ _ Hi). apply elem_of_union. right. apply elem_of_dom. by exists prev. }
    destruct (li_owned _ _ _ _ _ Hi t prev rels Hown Hrels) as (row & m2 & Hrow & <- & _ & Hm2 & Ht2 & _).
    apply list_elem_of_fmap in Hrow as ([k2 r2] & -> & Hdone). simpl in *. split_and!.
    + intros ->. rewrite fmap_app in Hnd. apply NoDup_app in Hnd as (_ & Hd & _). apply (Hd k2); [|by left].
      apply list_elem_of_fmap. by exists (k2, r2).
    + by exists r.
    + exists r2. split; [apply (Hin (k2, r2)); rewrite elem_of_app; by left|].
      apply LoadModel_keys in Hm2. apply elem_of_dom_2 in Ht2. by rewrite Hm2, elem_of_list_to_set in Ht2.
Qed.

End loading.

(** What loading the stored fragments comes to. *)
Lemma tables_load db ke rows :
  reg_tables db -> rows ≡ₚ fragmentRow <$> map_to_list (fragments db) ->
  (exists l, Load (Ok rows) ke = Ok l) \/ (exists e, Load (Ok rows) ke = Err (EffectiveInvalid e)) \/
  exists k t k', shared_type (fragments db) k k' t /\ Load (Ok rows) ke = Err (DeclaredTwice k t k').
Proof.
  intros Hdb Hp. assert (exists l, rows = fragmentRow <$> l /\ l ≡ₚ map_to_list (fragments db)) as (l & -> & Hl).
  { apply Permutation_map_inv in Hp as (l & -> & Hl). exists l. split; [done|]. by symmetry. }
  destruct (loadRows_ends BaseModel IsBaseType_spec ke db [] l initialLoad) as [[s Hs]|(k & t & k' & Hsh & Herr)].
  - done.
  - intros [k r] Hkr. apply elem_of_map_to_list. by rewrite <- Hl.
  - simpl. rewrite Hl. apply NoDup_fst_map_to_list.
  - apply initial_inv.
  - unfold Load. cbn [result_bind]. rewrite Hs. cbn [result_bind].
    destruct (ValidateTupleToUsersetTargets (merged s)) as [[]|e]; [left|right; left]; eauto.
  - right. right. exists k, t, k'. split; [done|]. unfold Load. cbn [result_bind]. by rewrite Herr.
Qed.

(** ** Transactions keep the tables *)

Lemma clientTaken_false k client t k' a :
  clientTaken k client t = false -> t !! k' = Some a -> a_ServiceClientID a = client -> k' = k.
Proof.
  unfold clientTaken. intros H%bool_decide_eq_false Hk' Hc. destruct (decide (k' = k)) as [|Hne]; [done|]. exfalso. apply H. intros E.
  apply (not_elem_of_nil (k', a)). rewrite <- E. apply list_elem_of_filter. split; [done|]. by apply elem_of_map_to_list.
Qed.

Lemma is_Some_insert {A} (t : gmap string A) k v x : is_Some (t !! x) -> is_Some (<[k := v]> t !! x).
Proof. rewrite lookup_insert_is_Some. destruct (decide (k = x)); auto. Qed.

Lemma enabled_keeps k en ev db row db' : enabledEffect k en ev db row db' -> reg_tables db -> reg_tables db'.
Proof.
  intros [(old & Hold & -> & Hen) _ Hc Hd Hr _ Hi Hf _ _] [H1 H3 H4 H5 H6 H7].
  assert (Hfrag : forall j r, fragments db' !! j = Some r -> exists r0, fragments db !! j = Some r0 /\ f_Fragment r = f_Fragment r0).
  { intros j r Hj. rewrite Hf in Hj. destruct (decide (k = j)) as [<-|Hne].
    - rewrite lookup_alter_eq in Hj. apply fmap_Some in Hj as (r0 & Hr0 & ->). eauto.
    - rewrite lookup_alter_ne in Hj by done. eauto. }
  split; rewrite ?Hc, ?Hd, ?Hr, ?Hi; try done.
  - intros j r (r0 & Hr0 & ->)%Hfrag. by eapply H1.
  - intros j r [[<- <-]|[_ Hj]]%lookup_insert_Some; [exact Hen|by eapply H3].
  - intros j. rewrite lookup_insert_is_Some. intros [->|[_ Hj]]; [apply H5; eauto|by apply H5].
Qed.

Lemma enabled_mirrors k en ev db row db' : enabledEffect k en ev db row db' -> mirrored db -> mirrored db'.
Proof.
  intros [(old & Hold & -> & Hen) _ _ _ _ _ Hi Hf _ _] Hm j r. rewrite Hf. unfold module_ready. rewrite Hi. destruct (decide (k = j)) as [<-|Hne].
  - rewrite lookup_alter_eq, lookup_insert_eq. intros (r0 & _ & ->)%fmap_Some. simpl. destruct en; [by rewrite Hen|by rewrite andb_false_r].
  - rewrite lookup_alter_ne, lookup_insert_ne by done. apply Hm.
Qed.

Lemma enabled_documents k en ev db row db' : enabledEffect k en ev db row db' -> documents (fragments db') = documents (fragments db).
Proof.
  intros [_ _ _ _ _ _ _ Hf _ _]. unfold documents. rewrite Hf. apply map_eq. intros j. rewrite !lookup_fmap. destruct (decide (k = j)) as [<-|Hne].
  - rewrite lookup_alter_eq. by destruct (fragments db !! k).
  - by rewrite lookup_alter_ne.
Qed.

(** Putting a fragment that passes the checks, and one whose types are free. *)
Lemma fragment_keeps k doc m active db :
  checkFragment doc = Ok m -> reg_tables db -> reg_tables (with_fragments <[k := mkFragRow doc active]> db).
Proof.
  intros Hck [H1 H3 H4 H5 H6 H7]. split; simpl; try done.
  intros j r [[<- <-]|[_ Hj]]%lookup_insert_Some; [by exists m|by eapply H1].
Qed.

Lemma fragment_once k doc m active stored :
  checkFragment doc = Ok m -> fragment_free k m stored -> types_once stored -> types_once (<[k := mkFragRow doc active]> stored).
Proof.
  intros Hck Hfree Ho. pose proof (checkFragment_keys _ _ Hck) as Hkeys.
  assert (Hother : forall j r t, k <> j -> stored !! j = Some r -> t ∈ topKeys doc -> t ∈ topKeys (f_Fragment r) -> False).
  { intros j r t Hne Hj Ht Hr. apply (Hfree j r t); [done|done| |done]. by rewrite Hkeys, elem_of_list_to_set. }
  intros j j' t (Hne & (r & Hj & Ht) & (r' & Hj' & Ht')).
  apply lookup_insert_Some in Hj as [[<- <-]|[Hk Hj]]; apply lookup_insert_Some in Hj' as [[<- <-]|[Hk' Hj']].
  - done.
  - by destruct (Hother j' r' t).
  - by destruct (Hother j r t).
  - apply (Ho j j' t). split_and!; eauto.
Qed.

(** Whether the types are free depends on the stored documents only. *)
Lemma free_documents k m stored stored' : documents stored = documents stored' -> fragment_free k m stored -> fragment_free k m stored'.
Proof.
  intros E Hf j r t Hne Hj Ht. assert (Hd : documents stored !! j = Some (f_Fragment r)) by (rewrite E; unfold documents; by rewrite lookup_fmap, Hj).
  unfold documents in Hd. apply lookup_fmap_Some in Hd as (r' & Ef & Hr'). rewrite <- Ef. by apply (Hf j r' t).
Qed.

Lemma registered_keeps seen m actor ev db db' : registered seen m actor ev db db' -> reg_tables db -> reg_tables db'.
Proof.
  intros [(doc & mdl & _ & Hck & _ & Hf) Hi Hc Hcl Hr (Hd & _) _] Hdb.
  pose proof (fragment_keeps _ doc mdl (match installation db !! am_Key m with Some r => i_Enabled r | None => false end) db Hck Hdb : reg_tables (with_fragments <[am_Key m := _]> db)) as [F1 _ _ _ _ _].
  simpl in F1. destruct Hdb as [_ H3 H4 H5 H6 H7].
  split; rewrite ?Hc, ?Hd, ?Hr, ?Hi, ?Hf; try done.
  - intros j r [[<- <-]|[_ Hj]]%lookup_insert_Some; [done|by eapply H3].
  - intros j j' a a' [[<- <-]|[Hne Hj]]%lookup_insert_Some [[<- <-]|[Hne' Hj']]%lookup_insert_Some Ha; simpl in *; [done| | |by eapply H4].
    + symmetry. by eapply clientTaken_false.
    + by eapply clientTaken_false.
  - intros j. rewrite !lookup_insert_is_Some. naive_solver.
  - intros j. rewrite !lookup_insert_is_Some. naive_solver.
  - intros j d Hj. destruct (H7 j d Hj) as (? & ? & ?). split; [done|]. split; by apply is_Some_insert.
Qed.

(** A registration keeps the types apart if what it saw of them still holds. *)
Lemma registered_once seen m actor ev db db' :
  registered seen m actor ev db db' -> documents seen = documents (fragments db) -> types_once (fragments db) -> types_once (fragments db').
Proof.
  intros [(doc & mdl & _ & Hck & Hfree & ->) _ _ _ _ _ _] E Ho. eapply fragment_once; [exact Hck| |exact Ho]. by eapply free_documents.
Qed.

Lemma registered_mirrors seen m actor ev db db' : registered seen m actor ev db db' -> mirrored db -> mirrored db'.
Proof.
  intros [(doc & mdl & _ & _ & _ & Hf) Hi _ _ _ _ _] Hm j r. rewrite Hf. unfold module_ready. rewrite Hi. destruct (decide (am_Key m = j)) as [<-|Hne].
  - rewrite !lookup_insert_eq. by intros [= <-].
  - rewrite !lookup_insert_ne by done. apply Hm.
Qed.
