(* ===== verification/RegistryService.v ===== *)
(** * Histories of the registry

    The calls of the registry's requests and of its seeds, what each knows of the stored
    fragments when it stores one, and the step relation of a registry in service:
    requests and seeds that interleave call by call, and other services' writes. *)

From stdpp Require Import base gmap strings list relations.
From S2P Require Import Prelude GoStrings Model Tuple TupleStore StoreProps Decision Clients AuthzHTTP AdminClient ModuleKit Registry RegistrySeed RegistryHTTP RegistryEffects RegistryTables.

#[local] Arguments ex_ok : simpl never.
#[local] Arguments ex_err : simpl never.
#[local] Arguments ex_bind : simpl never.
#[local] Arguments ex_run : simpl never.

(** ** The calls of a request *)

Abbreviation method X := (TxEnv -> RegDB -> result reg_error (X * RegDB)).

(** A call that is a transaction satisfying [T]. *)
Definition txCall (T : forall X, method X -> Prop) (X : Type) (c : call RegDB reg_error X) : Prop :=
  match c in call _ _ X with @Transact _ _ X m => T X m | _ => False end.

Section txcalls.
Context (T : forall X, method X -> Prop).
Abbreviation onTx := (calls (txCall T)).

Lemma onTx_bind {A B} (m : Pool A) (k : A -> Pool B) : onTx m -> (forall a, onTx (k a)) -> onTx (ex_bind m k).
Proof. intros Hm Hk. apply calls_bind; [done|]. by intros []. Qed.

Lemma onTx_run {A} (f : RegDB -> result reg_error (A * RegDB)) : T A (autocommit f) -> onTx (ex_run (M := Pool) f).
Proof. by split. Qed.

Lemma onTx_inTx {A} (m : (nat -> bool) -> RegTx A) : T A (committed m) -> onTx (inTx m).
Proof. by split. Qed.
End txcalls.

Section methods.
Context `{UC : Unicode} (byKey : list string -> list string).
Context (send : string -> adminWire -> option adminResponse) (parseInsecure : string -> option string) (correlationID : string).

(** Reads, the audit row of a denial, and for an administrator the two mutations. *)
Inductive regMethod (may : Prop) : forall X, method X -> Prop :=
| rm_read X (f : RegDB -> X) : regMethod may X (autocommit (fun db => Ok (f db, db)))
| rm_see : regMethod may (gmap string FragRow) committedFragments
| rm_denial ev : regMethod may unit (autocommit (fun db => Ok (tt, with_regAudit (fun l => l ++ [ev]) db)))
| rm_enable k en ev : may -> regMethod may InstallRow (committed (fun fails => SetEnabled fails k en ev))
| rm_register seen m actor ev : may -> validate m = Ok tt -> am_AuthzFragment m <> None ->
    regMethod may unit (committed (fun fails => registerAppTx fails seen m actor ev)).

(** The parts of requests that only read, whatever else [T] allows. *)
Section reads.
Context (T : forall X, method X -> Prop).
Context (T_read : forall X (f : RegDB -> X), T X (autocommit (fun db => Ok (f db, db)))).
Context (T_denial : forall ev, T unit (autocommit (fun db => Ok (tt, with_regAudit (fun l => l ++ [ev]) db)))).
Abbreviation served := (calls (txCall T)).

Lemma served_select {A} (f : RegDB -> A) : served (select (M := Pool) f).
Proof. apply onTx_run, T_read. Qed.

Lemma served_capability k : served (Capability_ k).
Proof.
  apply onTx_bind; [apply served_select|]. intros [row|]; [|exact I]. apply onTx_bind; [apply served_select|]. intros [fs|]; [|exact I].
  apply onTx_bind; [destruct (_ =? 0)%Z; [apply served_select|exact I]|]. intros client.
  apply onTx_bind; [apply served_select|]. intros deps. apply onTx_bind; [apply served_select|]. intros rows. exact I.
Qed.

Lemma served_catalog : served (Catalog byKey).
Proof.
  apply onTx_bind; [apply served_select|]. intros rows. apply onTx_bind; [apply served_select|]. intros apps.
  apply onTx_bind; [apply served_select|]. intros fs. exact I.
Qed.

Lemma served_capabilities keys : served (capabilitiesOf keys).
Proof.
  induction keys as [|k keys IH]; [exact I|]. apply onTx_bind; [apply served_capability|]. intros c. apply onTx_bind; [exact IH|]. intros cs. exact I.
Qed.

Lemma served_denial header action subject (reply : rgReply) :
  served (run& _ := auditDenial parseInsecure header action subject in Ret reply).
Proof. unfold auditDenial. apply calls_bind; [|done]. apply calls_bind; [apply onTx_run, T_denial|done]. Qed.

(** Every request but a registration, with [T]'s word for the enabling. *)
Context (header : string).
Context (T_enable : forall k en ev, (exists action, RegistryCan send correlationID header action = Ok true) ->
  T InstallRow (committed (fun fails => SetEnabled fails k en ev))).

(** The caller was let through, or the denial is recorded. *)
Lemma authorize_ends action subject (next : prog RegDB reg_error rgReply) :
  (RegistryCan send correlationID header action = Ok true /\ authorize send parseInsecure correlationID header action subject next = next) \/
  exists reply, authorize send parseInsecure correlationID header action subject next = (run& _ := auditDenial parseInsecure header action subject in Ret reply).
Proof. unfold authorize. destruct (RegistryCan _ _ _ _) as [[]|[]]; [by left|right; by eexists..]. Qed.

Lemma served_registered k : served (orError (Capability_ k) (fun _ => internalError) (fun c => Ret (RgData 200 (BCapability c.1)))).
Proof. apply calls_orError; [apply served_capability|]. done. Qed.

Lemma served_others req :
  match req with ReqRegisterApp (Some _) => False | _ => True end ->
  served (serveRegistry byKey send parseInsecure correlationID header req).
Proof.
  intros Hreq. destruct req as [|k| |en k|[m|]|]; cbn [serveRegistry]; unfold handleCapabilitiesAll, handleCapabilityOne, handleCatalog, handleSetEnabled, handleRegisterApp; try exact I; try done.
  - apply calls_orError; [apply served_catalog|]. intros entries. apply calls_orError; [apply served_capabilities|]. done.
  - apply calls_orError; [apply served_capability|]. done.
  - apply calls_orError; [apply served_catalog|]. done.
  - match goal with |- context [authorize _ _ _ _ ?a ?sb ?nx] => destruct (authorize_ends a sb nx) as [[Hc ->]|[reply ->]] end; [|apply served_denial].
    apply calls_orError; [|done]. apply onTx_inTx. apply T_enable. by eexists.
Qed.
End reads.

Lemma validate_fragment m : validate m = Ok tt -> am_AuthzFragment m <> None.
Proof.
  unfold validate. repeat (case_match; [done|]). intros _. by match goal with H : bool_decide _ = false |- _ => apply bool_decide_eq_false in H end.
Qed.

(** Somebody the authorization service takes for a superadmin. *)
Definition admin (header : string) : Prop := exists action, RegistryCan send correlationID header action = Ok true.

Lemma serveRegistry_calls header req :
  calls (txCall (regMethod (admin header))) (serveRegistry byKey send parseInsecure correlationID header req).
Proof.
  destruct req as [|k| |en k|[m|]|]; try (apply served_others; by constructor). cbn [serveRegistry]. unfold handleRegisterApp.
  match goal with |- context [authorize _ _ _ _ ?a ?sb ?nx] => destruct (authorize_ends header a sb nx) as [[Hc ->]|[reply ->]] end;
    [|apply served_denial; by constructor].
  apply calls_orError; [|intros _; apply served_registered; by constructor].
  unfold RegisterApp. destruct (validate m) as [[]|e] eqn:E; [|exact I]. apply onTx_bind; [by repeat constructor|].
  intros seen. apply onTx_inTx. constructor; [by eexists|done|by apply validate_fragment].
Qed.

Lemma autocommit_ok {A} (f : RegDB -> result reg_error (A * RegDB)) env db r : autocommit f env db = Ok r -> f db = Ok r.
Proof. unfold autocommit. by destruct (tx_broken env). Qed.

Lemma regMethod_mirrors may X m env db x db' : regMethod may X m -> m env db = Ok (x, db') -> mirrored db -> mirrored db'.
Proof.
  intros Hm H. destruct Hm as [X f| |ev|k en ev _|seen m actor ev _ _ Hfr].
  - apply autocommit_ok in H. by injection H as _ <-.
  - by injection H as _ <-.
  - apply autocommit_ok in H. by injection H as _ <-.
  - apply committed_ok, SetEnabled_ok in H. by eapply enabled_mirrors.
  - apply committed_ok, registerAppTx_ok in H; [|done]. by eapply registered_mirrors.
Qed.
End methods.

(** A default grant only touches the tuple tables. *)
Lemma defaultGrant_ok k c env db b db' :
  committed (fun fails => viaTuples (EnsureDefaultGrant fails defaultGrantActor "" c k)) env db = Ok (b, db') ->
  db' = with_regAuthz (regAuthz db') db /\ (c, k) ∈ defaults (regAuthz db') /\ defaults (regAuthz db) ⊆ defaults (regAuthz db').
Proof.
  intros (n & n' & H)%committed_ok. unfold viaTuples in H. simpl in H. destruct (EnsureDefaultGrant _ _ _ _ _ _) as [[b' s1]|] eqn:E; [|done].
  injection H as _ <- _. apply EnsureDefault_ok in E as (_ & Hd & _). simpl in *. rewrite Hd. set_solver.
Qed.

(** ** What a statement knows of the fragments *)

(** A method keeps the tables, and keeps the types apart if the stored documents are
    still those of [at_]. *)
Definition sound_at (at_ : gmap string FragRow) (X : Type) (m : method X) : Prop :=
  forall env db x db', m env db = Ok (x, db') -> (reg_tables db -> reg_tables db') /\
    (documents (fragments db) = documents at_ -> types_once (fragments db) -> types_once (fragments db')).

(** A method that keeps the tables and stores no document. *)
Definition steady (X : Type) (m : method X) : Prop :=
  forall env db x db', m env db = Ok (x, db') -> (reg_tables db -> reg_tables db') /\ documents (fragments db') = documents (fragments db).

Lemma steady_sound at_ X (m : method X) : steady X m -> sound_at at_ X m.
Proof.
  intros Hm env db x db' H. destruct (Hm env db x db' H) as [H1 H2]. split; [done|]. intros _. apply types_once_documents. by symmetry.
Qed.

Section follows.
Context (verify : string -> option Claims) (uuid_ok : string -> bool) (authz : Service -> Prop).

(** Each statement of a program is sound at the fragments of the statement before it. *)
Fixpoint follows {A} (at_ : gmap string FragRow) (p : prog RegDB reg_error A) : Prop :=
  match p with
  | Ret _ => True
  | Call c k => txCall (sound_at at_) _ c /\ forall w x w', exec verify uuid_ok authz c w x w' -> follows (fragments (w_store w')) (k x)
  end.

Lemma follows_bind {A B} at_ (p : prog RegDB reg_error A) (k : A -> prog RegDB reg_error B) :
  follows at_ p -> (forall a at', follows at' (k a)) -> follows at_ (bind p k).
Proof.
  intros Hp Hk. revert at_ Hp. induction p as [a|X c h IH]; intros at_ Hp; simpl in *; [apply Hk|]. destruct Hp as [Hc Hp].
  split; [done|]. intros w x w' Hx. by apply IH, (Hp w).
Qed.

Lemma steady_follows {A} (p : prog RegDB reg_error A) : calls (txCall steady) p -> forall at_, follows at_ p.
Proof.
  induction p as [a|X c k IH]; simpl; [done|]. intros [Hc Hk] at_. split; [|intros w x w' _; by apply IH].
  destruct c; simpl in *; try done. by apply steady_sound.
Qed.

(** A piece that may come anywhere in a program. *)
Definition keeps {A} (m : Pool A) : Prop := forall at_, follows at_ m.

Lemma keeps_steady {A} (m : Pool A) : calls (txCall steady) m -> keeps m.
Proof. exact (steady_follows m). Qed.

Lemma keeps_ok {A} (a : A) : keeps (ex_ok a).
Proof. done. Qed.
Lemma keeps_err {A} e : keeps (A := A) (ex_err e).
Proof. done. Qed.
Lemma keeps_bind {A B} (m : Pool A) (k : A -> Pool B) : keeps m -> (forall a, keeps (k a)) -> keeps (ex_bind m k).
Proof. intros Hm Hk at_. apply follows_bind; [apply Hm|]. intros [a|e] at'; [apply Hk|done]. Qed.
Lemma keeps_run {A} (f : RegDB -> result reg_error (A * RegDB)) :
  (forall db a db', f db = Ok (a, db') -> (reg_tables db -> reg_tables db') /\ fragments db' = fragments db) -> keeps (ex_run (M := Pool) f).
Proof.
  intros Hf. apply keeps_steady, onTx_run. intros env db x db' H%autocommit_ok. destruct (Hf db x db' H) as [H1 ->]. done.
Qed.
Lemma keeps_select {A} (f : RegDB -> A) : keeps (select (M := Pool) f).
Proof. apply keeps_run. by intros db a db' [= _ <-]. Qed.
Lemma keeps_update f : (forall db, (reg_tables db -> reg_tables (f db)) /\ fragments (f db) = fragments db) -> keeps (update (M := Pool) f).
Proof. intros Hf. apply keeps_run. intros db a db' [= _ <-]. apply Hf. Qed.

(** ** The seed *)

Lemma keeps_upsertCatalog k p : keeps (UpsertModuleCatalog k p).
Proof.
  apply keeps_run. intros db u db' H. destruct (catalogChecks k p); [|done]. injection H as _ <-. split; [|done]. intros [H1 H3 H4 H5 H6 H7].
  split; simpl; try done.
  - intros j Hj. by apply is_Some_insert, H5.
  - intros j Hj. by apply is_Some_insert, H6.
  - intros j d Hj. destruct (H7 j d Hj) as (? & ? & ?). split_and!; [done|by apply is_Some_insert..].
Qed.

Lemma is_Some_alter {A} (f : A -> A) (k x : string) (t : gmap string A) : is_Some (alter f k t !! x) <-> is_Some (t !! x).
Proof. apply lookup_alter_is_Some. Qed.

Lemma keeps_features k fs : keeps (setCatalogFeatures k fs).
Proof.
  apply keeps_update. intros db. split; [|done]. intros [H1 H3 H4 H5 H6 H7]. split; simpl; try done; intros *; rewrite ?is_Some_alter; auto.
Qed.

Lemma keeps_seedInstallation k b v : keeps (SeedModuleInstallationMissing k (mkInstall b b v)).
Proof.
  apply keeps_run. intros db u db' H. destruct (installation db !! k) eqn:E; [by injection H as _ <-|].
  destruct (catalog db !! k) eqn:Ec; [|done]. injection H as _ <-. split; [|done]. intros [H1 H3 H4 H5 H6 H7]. split; simpl; try done.
  - intros j r [[<- <-]|[_ Hj]]%lookup_insert_Some; [done|by eapply H3].
  - intros j. rewrite lookup_insert_is_Some. intros [->|[_ Hj]]; [by rewrite Ec|by apply H5].
Qed.

Lemma keeps_install k v : keeps (update (M := Pool) (with_installation (alter (installListed v) k))).
Proof.
  apply keeps_update. intros db. split; [|done]. intros [H1 H3 H4 H5 H6 H7]. split; simpl; try done.
  - intros j r [[<- (r0 & Hr0 & ->)]|[_ Hj]]%lookup_alter_Some; [|by eapply H3]. unfold installListed. destruct (i_Installed r0) eqn:E; [by intros _|done].
  - intros j. rewrite is_Some_alter. apply H5.
Qed.

Lemma keeps_seedCatalog known installedKeys : keeps (seedCatalog known installedKeys).
Proof.
  induction known as [|m known IH]; [apply keeps_ok|]. apply keeps_bind; [apply keeps_upsertCatalog|intros _].
  apply keeps_bind; [apply keeps_features|intros _]. apply keeps_bind; [apply keeps_seedInstallation|intros _].
  apply keeps_bind; [destruct (bool_decide _); [apply keeps_install|apply keeps_ok]|intros _]. apply IH.
Qed.

Lemma keeps_insertDependency k d r : keeps (insertDependency k d r).
Proof.
  apply keeps_run. intros db u db' H. destruct (catalog db !! k) eqn:Ek; [|done]. destruct (catalog db !! d) eqn:Ed; [|done].
  destruct (dependency db !! (k, d)); [done|]. destruct (seqb k d) eqn:Es; [done|]. apply seqb_false in Es. injection H as _ <-.
  split; [|done]. intros [H1 H3 H4 H5 H6 H7]. split; simpl; try done. intros a b. rewrite lookup_insert_is_Some. intros [[= <- <-]|[_ Hab]]; [|by apply H7].
  by rewrite Ek, Ed.
Qed.

Lemma keeps_seedDependencies known : keeps (seedDependencies known).
Proof.
  induction known as [|m known IH]; [apply keeps_ok|]. apply keeps_bind.
  { apply keeps_update. intros db. split; [|done]. intros [H1 H3 H4 H5 H6 H7]. split; simpl; try done.
    intros a b [v Hv]. apply map_lookup_filter_Some in Hv as [Hv _]. apply H7. by exists v. }
  intros _. apply keeps_bind; [|intros _; apply IH]. induction (Dependencies m) as [|d ds IHd]; [apply keeps_ok|].
  apply keeps_bind; [apply keeps_insertDependency|]. by intros _.
Qed.

(** The store comes right after the query: it is sound at what the query saw. *)
Lemma keeps_upsertFragment k fragment active : keeps (upsertAuthzFragment (select fragments) k fragment active).
Proof.
  intros at_. unfold upsertAuthzFragment. destruct fragment as [doc|]; [|done]. destruct (checkFragment doc) as [m|why] eqn:E; [|done].
  split; [apply steady_sound; by intros env db x db' [= _ <-]%autocommit_ok|]. intros w x w' [env Hx]. simpl.
  destruct (autocommit _ env (w_store w)) as [[seen db]|e] eqn:Ea; destruct Hx as [-> ->]; [|done]. apply autocommit_ok in Ea as [= <- <-]. simpl.
  destruct (typeOwners _ _ _) eqn:Eo; [|done]. apply typeOwners_nil in Eo. split; [|done].
  intros env' db x db' [= _ <-]%autocommit_ok. split; simpl; [by eapply fragment_keeps|].
  intros Ed. eapply fragment_once; [exact E|]. by eapply free_documents.
Qed.

Lemma keeps_seedFragments known en keys : keeps (seedFragments known en keys).
Proof. induction keys as [|k keys IH]; [apply keeps_ok|]. apply keeps_bind; [apply keeps_upsertFragment|]. by intros _. Qed.

Lemma keeps_grants en known : keeps (seedGrants en known).
Proof.
  induction known as [|m known IH]; [apply keeps_ok|]. apply keeps_bind; [|by intros _]. destruct (en (ModuleKey m)); [|apply keeps_ok].
  apply keeps_bind; [apply keeps_select|]. intros cs. induction cs as [|c cs IHc]; [apply keeps_ok|].
  apply keeps_bind; [|by intros _]. apply keeps_steady, onTx_inTx. intros env db x db' H. apply defaultGrant_ok in H as [-> _]. split; [|done]. by intros [].
Qed.

Lemma keeps_seed known installedKeys : keeps (Seed known installedKeys).
Proof.
  unfold Seed. destruct (validateKnownManifests known); [|apply keeps_err]. apply keeps_bind.
  { unfold checkOrgUnitTaxonomy. destruct (_ =? 0)%nat; [apply keeps_ok|]. apply keeps_bind; [apply keeps_select|]. intros types.
    destruct (filter _ _); [apply keeps_ok|apply keeps_err]. }
  intros _. apply keeps_bind; [apply keeps_seedCatalog|intros _]. destruct (_ =? 0)%nat; [apply keeps_ok|].
  apply keeps_bind; [apply keeps_seedDependencies|intros _]. apply keeps_bind; [apply keeps_select|intros rows].
  apply keeps_bind; [apply keeps_seedFragments|intros _]. apply keeps_grants.
Qed.
End follows.

(** ** A registry in service *)

Section service.
Context `{UC : Unicode} (byKey : list string -> list string).
Context (send : string -> adminWire -> option adminResponse) (parseInsecure : string -> option string) (correlationID : string).
Context (verify : string -> option Claims) (uuid_ok : string -> bool) (authz : Service -> Prop).

Abbreviation serve := (serveRegistry byKey send parseInsecure correlationID).
Abbreviation follows := (follows verify uuid_ok authz).

(** A request, and the fragments as they were at its last statement. *)
Abbreviation pool := (list (prog RegDB reg_error rgReply * gmap string FragRow) * RW)%type.

(** Another service's write: org's tables and the tuples. *)
Definition others (db db' : RegDB) : Prop :=
  catalog db' = catalog db /\ installation db' = installation db /\ dependency db' = dependency db /\
  registration db' = registration db /\ fragments db' = fragments db /\ regAudit db' = regAudit db.

(** A seed beside the requests; nobody sees its result. *)
Definition boot (known : list ModuleManifest) (installedKeys : gset string) : prog RegDB reg_error rgReply :=
  run& _ := Seed known installedKeys in Ret (RgData 200 BHealth).

(** No fragment was stored since [at_], or the statement stores none. *)
Definition apart (at_ : gmap string FragRow) (w w' : RW) : Prop :=
  documents (fragments (w_store w)) = documents at_ \/ documents (fragments (w_store w')) = documents (fragments (w_store w)).

(** Requests and seeds in progress and the tables.  [seeds]: whether a seed may run;
    [overlap]: whether a fragment may be stored between the ownership query of a
    registration or a seed and the store that relies on it. *)
Inductive reg_step (seeds overlap : bool) : pool -> pool -> Prop :=
| rs_arrive ps w header req : reg_step seeds overlap (ps, w) (ps ++ [(serve header req, fragments (w_store w))], w)
| rs_boot ps w known installedKeys :
    seeds = true -> reg_step seeds overlap (ps, w) (ps ++ [(boot known installedKeys, fragments (w_store w))], w)
| rs_call i ps w X (c : call RegDB reg_error X) k at_ x w' :
    ps !! i = Some (Call c k, at_) -> exec verify uuid_ok authz c w x w' -> overlap = true \/ apart at_ w w' ->
    reg_step seeds overlap (ps, w) (<[i := (k x, fragments (w_store w'))]> ps, w')
| rs_others ps w db' : others (w_store w) db' -> reg_step seeds overlap (ps, w) (ps, at_store w db').

(** Every request follows, registrations too. *)
Lemma RegisterApp_follows m actor ev at_ : follows at_ (RegisterApp m actor ev).
Proof.
  unfold RegisterApp. destruct (validate m) as [[]|e] eqn:E; [|done]. apply validate_fragment in E. split.
  - apply steady_sound. by intros env db x db' [= _ <-].
  - intros w x w' [env [-> ->]]. simpl. split; [|done]. intros env' db x db' H. apply committed_ok, registerAppTx_ok in H; [|done].
    split; [by eapply registered_keeps|]. intros Ed. eapply registered_once; [exact H|by symmetry].
Qed.

Lemma steady_read X (f : RegDB -> X) : steady X (autocommit (fun db => Ok (f db, db))).
Proof. by intros env db x db' [= _ <-]%autocommit_ok. Qed.
Lemma steady_denial ev : steady unit (autocommit (fun db => Ok (tt, with_regAudit (fun l => l ++ [ev]) db))).
Proof. intros env db x db' [= _ <-]%autocommit_ok. split; [|done]. by intros []. Qed.
Lemma steady_enable k en ev : steady InstallRow (committed (fun fails => SetEnabled fails k en ev)).
Proof. intros env db x db' H. apply committed_ok, SetEnabled_ok in H. split; [by eapply enabled_keeps|by eapply enabled_documents]. Qed.

Lemma serve_follows header req at_ : follows at_ (serve header req).
Proof.
  pose proof steady_read as Hr. pose proof steady_denial as Hd.
  destruct req as [|k| |en k|[m|]|]; try (apply steady_follows, served_others; [exact Hr|exact Hd|intros *; intros _; apply steady_enable|exact I]).
  cbn [serveRegistry]. unfold handleRegisterApp.
  match goal with |- context [authorize _ _ _ _ ?a ?sb ?nx] => destruct (authorize_ends send parseInsecure correlationID header a sb nx) as [[Hc ->]|[reply ->]] end.
  - apply follows_bind; [apply RegisterApp_follows|]. intros [u|e] at'; [|done]. by apply steady_follows, served_registered.
  - by apply steady_follows, served_denial.
Qed.

Lemma boot_follows known installedKeys at_ : follows at_ (boot known installedKeys).
Proof. apply follows_bind; [apply keeps_seed|done]. Qed.

Lemma others_keeps db db' :
  others db db' -> (reg_tables db -> reg_tables db') /\ fragments db' = fragments db /\ (mirrored db -> mirrored db').
Proof.
  intros (Hc & Hi & Hd & Hr & Hf & _). split_and!; [|done|].
  - intros [H1 H3 H4 H5 H6 H7]. split; by rewrite ?Hc, ?Hi, ?Hd, ?Hr, ?Hf.
  - intros Hm k r. rewrite Hf. unfold module_ready. rewrite Hi. apply Hm.
Qed.

(** What a state of the service satisfies. *)
Record in_order (seeds overlap : bool) (s : pool) : Prop := {
  io_follows : Forall (fun e => follows e.2 e.1) s.1;
  io_calls : seeds = false -> Forall (fun e => exists may, calls (txCall (regMethod may)) e.1) s.1;
  io_tables : reg_tables (w_store s.2);
  io_types : overlap = false -> types_once (fragments (w_store s.2));
  io_mirrored : seeds = false -> mirrored (w_store s.2)
}.

Lemma call_order X (c : call RegDB reg_error X) at_ w x w' :
  txCall (sound_at at_) X c -> exec verify uuid_ok authz c w x w' -> (reg_tables (w_store w) -> reg_tables (w_store w')) /\
  (apart at_ w w' -> types_once (fragments (w_store w)) -> types_once (fragments (w_store w'))).
Proof.
  destruct c; simpl; try done. intros Hm [env Hx].
  destruct (m env (w_store w)) as [[a db]|e] eqn:E; destruct Hx as [-> ->]; [|done]. destruct (Hm _ _ _ _ E) as [H1 H2]. split; [done|].
  intros [Ha|Ha]; [by apply H2|]. intros Ho. eapply types_once_documents; [|exact Ho]. by symmetry.
Qed.

Lemma call_mirrored may X (c : call RegDB reg_error X) w x w' :
  txCall (regMethod may) X c -> exec verify uuid_ok authz c w x w' -> mirrored (w_store w) -> mirrored (w_store w').
Proof.
  destruct c; simpl; try done. intros Hm [env Hx]. destruct (m env (w_store w)) as [[a db]|e] eqn:E; destruct Hx as [-> ->]; [|done].
  by eapply regMethod_mirrors.
Qed.

Lemma reg_step_order seeds overlap s s' : reg_step seeds overlap s s' -> in_order seeds overlap s -> in_order seeds overlap s'.
Proof.
  intros Hs [Hps Hc Hdb Ht Hm]. destruct Hs as [ps w header req|ps w known inst Hseeds|i ps w X c k at_ x w' Hi Hx Ha|ps w db' Ho]; simpl in *.
  - split; simpl; try done.
    + apply Forall_app. split; [done|]. constructor; [apply serve_follows|constructor].
    + intros Es. apply Forall_app. split; [by apply Hc|]. constructor; [|constructor]. eexists. apply serveRegistry_calls.
  - split; simpl; try done; [|intros ->; done]. apply Forall_app. split; [done|]. constructor; [apply boot_follows|constructor].
  - destruct (proj1 (Forall_lookup _ _) Hps i _ Hi) as [Hs Hk]. simpl in Hs, Hk. destruct (call_order X c at_ w x w' Hs Hx) as [H1 H2]. split; simpl.
    + apply Forall_insert; [done|]. by eapply Hk.
    + intros Es. destruct (proj1 (Forall_lookup _ _) (Hc Es) i _ Hi) as [may [_ Hk']]. apply Forall_insert; [by apply Hc|]. exists may; apply Hk'.
    + by apply H1.
    + intros Eo. destruct Ha as [Ha|Ha]; [congruence|]. by apply H2, Ht.
    + intros Es. destruct (proj1 (Forall_lookup _ _) (Hc Es) i _ Hi) as [may [Hc' _]]. eapply call_mirrored; [exact Hc'|exact Hx|by apply Hm].
  - destruct (others_keeps _ _ Ho) as (H1 & H2 & H3). split; simpl; try done; [by apply H1|by rewrite H2|auto].
Qed.

Lemma reg_steps_order seeds overlap s s' : rtc (reg_step seeds overlap) s s' -> in_order seeds overlap s -> in_order seeds overlap s'.
Proof. induction 1; eauto using reg_step_order. Qed.
End service.

(** The tables the migrations leave. *)
Definition migrated (az : AuthzDB) (types : gset string) (companies : list string) : RegDB := mkRegDB ∅ ∅ ∅ ∅ ∅ az types companies [].

Lemma migrated_order verify uuid_ok authz seeds overlap az types companies aw sent :
  in_order verify uuid_ok authz seeds overlap ([], mkMWorld (migrated az types companies) aw sent).
Proof.
  split; simpl; [constructor|constructor| | |].
  - split; simpl; intros *; rewrite ?lookup_empty; first [done|by intros []].
  - intros _ k k' t (_ & (r & Hr & _) & _). by rewrite lookup_empty in Hr.
  - intros _ k r Hk. simpl in Hk. by rewrite lookup_empty in Hk.
Qed.
