(* ===== verification/RegistrySeeded.v ===== *)
(** * What a seed leaves behind

    A seed that ran without interruption installs the listed modules, mirrors their
    fragments and claims their default grants; whatever runs beside it, no statement of
    a seed changes the row of a module that is installed. *)

From stdpp Require Import base gmap strings list relations pretty.
From S2P Require Import Prelude GoStrings Model Tuple TupleStore StoreProps Decision Clients AuthzHTTP AdminClient ModuleKit Registry RegistrySeed RegistryHTTP RegistryEffects RegistryTables RegistryService.

#[local] Arguments ex_ok : simpl never.
#[local] Arguments ex_err : simpl never.
#[local] Arguments ex_bind : simpl never.
#[local] Arguments ex_run : simpl never.

(** ** The checks *)

Lemma validateClaims_ok key kvs seen seen' :
  validateClaims key kvs seen = Ok seen' -> (forall kv, kv ∈ kvs -> seen !! kv = None) /\
  (forall kv, is_Some (seen !! kv) -> is_Some (seen' !! kv)) /\ (forall kv, kv ∈ kvs -> is_Some (seen' !! kv)).
Proof.
  revert seen. induction kvs as [|kv kvs IH]; intros seen H; simpl in H.
  - injection H as <-. split_and!; [by intros ? ?%not_elem_of_nil|done|by intros ? ?%not_elem_of_nil].
  - destruct (seen !! kv) eqn:E; [done|]. apply IH in H as (H1 & H2 & H3). split_and!.
    + intros x [->|Hx]%elem_of_cons; [done|]. specialize (H1 x Hx). by apply lookup_insert_None in H1 as [? _].
    + intros x Hx. apply H2. by apply is_Some_insert.
    + intros x [->|Hx]%elem_of_cons; [|by apply H3]. apply H2. by rewrite lookup_insert_eq.
Qed.

Lemma validateManifests_nodup known rest seen :
  validateManifests known rest seen = Ok tt ->
  NoDup (ModuleKey <$> rest) /\ forall m, m ∈ rest -> seen !! ("key:" +:+ ModuleKey m) = None.
Proof.
  revert seen. induction rest as [|m rest IH]; intros seen H; cbn [validateManifests fmap list_fmap] in *.
  - split; [constructor|by intros ? ?%not_elem_of_nil].
  - repeat (case_match; [done|]). apply result_bind_ok in H as ([] & _ & H). apply result_bind_ok in H as (seen' & Hc & H).
    apply IH in H as [Hnd Hfresh]. apply validateClaims_ok in Hc as (Hnone & Hmono & Hin). split.
    + constructor; [|done]. intros (m' & E & Hm')%list_elem_of_fmap.
      destruct (Hin ("key:" +:+ ModuleKey m)) as [v Hv]; [by left|]. rewrite E, (Hfresh m' Hm') in Hv. done.
    + intros m' [->|Hm']%elem_of_cons; [apply Hnone; by left|]. specialize (Hfresh m' Hm').
      destruct (seen !! _) eqn:E; [|done]. destruct (Hmono ("key:" +:+ ModuleKey m')) as [v Hv]; [by rewrite E|]. by rewrite Hfresh in Hv.
Qed.

Lemma known_nodup known : validateKnownManifests known = Ok tt -> NoDup (ModuleKey <$> known).
Proof. by intros [? _]%validateManifests_nodup. Qed.

(** The fragment looked up by key is the manifest's own. *)
Lemma fragmentOf_known known m : NoDup (ModuleKey <$> known) -> m ∈ known -> fragmentOf known (ModuleKey m) = AuthzFragment m.
Proof.
  unfold fragmentOf. induction known as [|x known IH]; simpl; [by intros _ ?%not_elem_of_nil|].
  intros [Hx Hnd]%NoDup_cons [->|Hm]%elem_of_cons.
  - rewrite filter_cons_True by done. done.
  - rewrite filter_cons_False; [by apply IH|]. intros E. apply Hx. rewrite E. apply list_elem_of_fmap. eauto.
Qed.

(** ** Piece by piece *)

Section pieces.
Context (verify : string -> option Claims) (uuid_ok : string -> bool) (authz : Service -> Prop).
Abbreviation alone := (alone verify uuid_ok authz).

(** What a piece has done if it ends well. *)
Definition does {A} (m : Pool A) (R : A -> RegDB -> RegDB -> Prop) : Prop :=
  forall w, alone m w (fun r w' => forall a, r = Ok a -> R a (w_store w) (w_store w')).

Lemma does_bind {A B} (m : Pool A) (k : A -> Pool B) (R1 : A -> RegDB -> RegDB -> Prop) (R : B -> RegDB -> RegDB -> Prop) :
  does m R1 -> (forall a, does (k a) (fun b db1 db2 => forall db, R1 a db db1 -> R b db db2)) -> does (ex_bind m k) R.
Proof.
  intros Hm Hk w. apply alone_ex_bind. eapply alone_mono; [|apply Hm]. intros [a|e] w1 H1; simpl in H1; [|by intros b Hb].
  eapply alone_mono; [|apply Hk]. intros r w2 H2 b Hb. apply (H2 b Hb), H1. done.
Qed.
Lemma does_ok {A} (a : A) (R : A -> RegDB -> RegDB -> Prop) : (forall db, R a db db) -> does (ex_ok a) R.
Proof. intros HR w b [= <-]. apply HR. Qed.
Lemma does_err {A} e (R : A -> RegDB -> RegDB -> Prop) : does (ex_err e) R.
Proof. by intros w a. Qed.
Lemma does_run {A} (f : RegDB -> result reg_error (A * RegDB)) (R : A -> RegDB -> RegDB -> Prop) :
  (forall db a db', f db = Ok (a, db') -> R a db db') -> does (ex_run (M := Pool) f) R.
Proof.
  intros Hf w. apply alone_ex_run; [done|]. destruct (f (w_store w)) as [[a db]|e] eqn:E; [|done]. intros b [= <-]. by apply Hf.
Qed.
Lemma does_select {A} (f : RegDB -> A) (R : A -> RegDB -> RegDB -> Prop) : (forall db, R (f db) db db) -> does (select (M := Pool) f) R.
Proof. intros HR. apply does_run. by intros db a db' [= <- <-]. Qed.
Lemma does_update f (R : unit -> RegDB -> RegDB -> Prop) : (forall db, R tt db (f db)) -> does (update (M := Pool) f) R.
Proof. intros HR. apply does_run. by intros db [] db' [= <-]. Qed.
Lemma does_mono {A} (m : Pool A) (R R' : A -> RegDB -> RegDB -> Prop) : (forall a db db', R a db db' -> R' a db db') -> does m R -> does m R'.
Proof. intros HR Hm w. eapply alone_mono; [|apply Hm]. intros r w' H a Ha. by apply HR, H. Qed.

(** The installation row of a module after the first loop. *)
Definition seededRow (listed : bool) (version : string) (old : option InstallRow) : InstallRow :=
  match old with
  | None => mkInstall listed listed (Some version)
  | Some r => if listed then installListed version r else r
  end.

(** What the tables the loops do not touch have in common. *)
Definition sameFragments (db db' : RegDB) : Prop :=
  fragments db' = fragments db /\ regAuthz db' = regAuthz db /\ orgCompanies db' = orgCompanies db.

Lemma seedCatalog_does known installedKeys :
  NoDup (ModuleKey <$> known) ->
  does (seedCatalog known installedKeys) (fun _ db db' => sameFragments db db' /\
    (forall m, m ∈ known -> installation db' !! ModuleKey m =
       Some (seededRow (bool_decide (ModuleKey m ∈ installedKeys)) (ManifestVersion m) (installation db !! ModuleKey m))) /\
    (forall k, k ∉ ModuleKey <$> known -> installation db' !! k = installation db !! k)).
Proof.
  induction known as [|m known IH]; intros Hnd.
  { apply does_ok. intros db. split; [done|]. split; [by intros ? ?%not_elem_of_nil|done]. }
  simpl in Hnd. apply NoDup_cons in Hnd as [Hm Hnd]. set (k := ModuleKey m) in *. set (listed := bool_decide (k ∈ installedKeys)).
  eapply does_bind with (R1 := fun _ db db' => sameFragments db db' /\ installation db' = installation db).
  { apply does_run. intros db u db' H. destruct (catalogChecks _ _); [|done]. by injection H as _ <-. }
  intros _. eapply does_bind with (R1 := fun _ db db' => sameFragments db db' /\ installation db' = installation db); [by apply does_update|].
  intros _. eapply does_bind with (R1 := fun _ db db' => sameFragments db db' /\
    installation db' = <[k := default (mkInstall listed listed (Some (ManifestVersion m))) (installation db !! k)]> (installation db)).
  { apply does_run. intros db u db' H. change (ModuleKey m) with k in H. destruct (installation db !! k) as [r|] eqn:E; simpl.
    - injection H as _ <-. by rewrite insert_id.
    - destruct (catalog db !! k); [|done]. by injection H as _ <-. }
  intros _. eapply does_bind with (R1 := fun _ db db' => sameFragments db db' /\
    installation db' = if listed then alter (installListed (ManifestVersion m)) k (installation db) else installation db).
  { fold k listed. destruct listed; [by apply does_update|by apply does_ok]. }
  intros _. eapply does_mono; [|by apply IH]. simpl. intros _ db4 db5 [Hs5 [Hin Hout]] db3 [Hs4 H4] db2 [Hs3 H3] db1 [Hs2 H2] db [Hs1 H1].
  rewrite H2, H1 in H3. clear H1 H2. split; [unfold sameFragments in *; naive_solver congruence|].
  assert (Hk : installation db4 !! k = Some (seededRow listed (ManifestVersion m) (installation db !! k))).
  { rewrite H4, H3. unfold seededRow. destruct listed; rewrite ?lookup_alter_eq, lookup_insert_eq; simpl; [|by destruct (installation db !! k)].
    destruct (installation db !! k) as [r|]; [done|]. unfold installListed. done. }
  assert (Hother : forall j, j <> k -> installation db4 !! j = installation db !! j).
  { intros j Hj. rewrite H4, H3. destruct listed; rewrite ?lookup_alter_ne, ?lookup_insert_ne by done; done. }
  split.
  - intros m' [->|Hm']%elem_of_cons; [by rewrite Hout|]. rewrite (Hin m' Hm'), Hother; [done|].
    intros E. apply Hm. rewrite <- E. apply list_elem_of_fmap. eauto.
  - intros j [Hj Hj']%not_elem_of_cons. rewrite Hout by done. by apply Hother.
Qed.

Lemma seedDependencies_does known :
  does (seedDependencies known) (fun _ db db' => sameFragments db db' /\ installation db' = installation db).
Proof.
  induction known as [|m known IH]; [by apply does_ok|].
  eapply does_bind with (R1 := fun _ db db' => sameFragments db db' /\ installation db' = installation db); [by apply does_update|].
  intros _. eapply does_bind with (R1 := fun _ db db' => sameFragments db db' /\ installation db' = installation db).
  2: { intros _. eapply does_mono; [|exact IH]. unfold sameFragments. simpl. naive_solver congruence. }
  eapply does_mono with (R := fun _ db db' => sameFragments db db' /\ installation db' = installation db).
  { unfold sameFragments. simpl. naive_solver congruence. }
  induction (Dependencies m) as [|d ds IHd]; [by apply does_ok|].
  eapply does_bind with (R1 := fun _ db db' => sameFragments db db' /\ installation db' = installation db).
  - apply does_run. intros db u db' H. repeat (case_match; try done). by injection H as _ <-.
  - intros _. eapply does_mono; [|exact IHd]. unfold sameFragments. simpl. naive_solver congruence.
Qed.

Lemma upsert_does k fragment active :
  does (upsertAuthzFragment (select fragments) k fragment active) (fun _ db db' => installation db' = installation db /\
    regAuthz db' = regAuthz db /\ orgCompanies db' = orgCompanies db /\
    fragments db' = match fragment with Some doc => <[k := mkFragRow doc active]> (fragments db) | None => fragments db end).
Proof.
  unfold upsertAuthzFragment. destruct fragment as [doc|]; [|by apply does_ok]. destruct (checkFragment doc); [|apply does_err].
  eapply does_bind with (R1 := fun _ db db' => db' = db); [by apply does_select|]. intros seen.
  destruct (typeOwners _ _ seen); [|apply does_err].
  apply does_update. by intros db1 db ->.
Qed.

Lemma seedFragments_does known en keys :
  does (seedFragments known en keys) (fun _ db db' => installation db' = installation db /\
    regAuthz db' = regAuthz db /\ orgCompanies db' = orgCompanies db /\
    forall k, fragments db' !! k = match (if decide (k ∈ keys) then fragmentOf known k else None) with
                                   | Some doc => Some (mkFragRow doc (en k)) | None => fragments db !! k end).
Proof.
  induction keys as [|k keys IH]; [apply does_ok; intros db; split_and!; try done; intros k; by rewrite decide_False by apply not_elem_of_nil|].
  eapply does_bind; [apply upsert_does|]. intros u. eapply does_mono; [|exact IH]. simpl.
  intros _ db1 db2 (Hi2 & Ha2 & Hc2 & Hf2) db (Hi1 & Ha1 & Hc1 & Hf1). split_and!; [congruence..|]. intros j. rewrite Hf2, Hf1.
  destruct (decide (j = k)) as [->|Hne].
  - rewrite (decide_True (P := k ∈ k :: keys)) by (by left). destruct (fragmentOf known k) as [doc|] eqn:E.
    + rewrite lookup_insert_eq. by destruct (decide (k ∈ keys)).
    + by destruct (decide (k ∈ keys)).
  - destruct (decide (j ∈ keys)) as [Hj|Hj].
    + rewrite decide_True by (by right). destruct (fragmentOf known j); [done|]. destruct (fragmentOf known k); [by rewrite lookup_insert_ne|done].
    + rewrite decide_False by (rewrite elem_of_cons; naive_solver). destruct (fragmentOf known k); [by rewrite lookup_insert_ne|done].
Qed.

Lemma grantCompanies_does k cs :
  does (grantCompanies k cs) (fun _ db db' => installation db' = installation db /\ fragments db' = fragments db /\
    defaults (regAuthz db) ⊆ defaults (regAuthz db') /\ forall c, c ∈ cs -> (c, k) ∈ defaults (regAuthz db')).
Proof.
  induction cs as [|c cs IH]; [apply does_ok; intros db; split_and!; try done; by intros ? ?%not_elem_of_nil|].
  eapply does_bind with (R1 := fun _ db db' => installation db' = installation db /\ fragments db' = fragments db /\
    defaults (regAuthz db) ⊆ defaults (regAuthz db') /\ (c, k) ∈ defaults (regAuthz db')).
  - intros w x w' [env Hx] b ->. simpl in *. destruct (committed _ env (w_store w)) as [[b' db]|e] eqn:E; destruct Hx as [Hb ->]; [|done].
    apply defaultGrant_ok in E as (-> & ? & ?). done.
  - intros _. eapply does_mono; [|exact IH]. simpl. intros _ db1 db2 (Hi2 & Hf2 & Hd2 & Hc2) db (Hi1 & Hf1 & Hd1 & Hc1).
    split_and!; [congruence..|set_solver|]. intros x [->|Hx]%elem_of_cons; [by apply Hd2|by apply Hc2].
Qed.

Lemma seedGrants_does en known :
  does (seedGrants en known) (fun _ db db' => installation db' = installation db /\ fragments db' = fragments db).
Proof.
  induction known as [|m known IH]; [by apply does_ok|].
  eapply does_bind with (R1 := fun _ db db' => installation db' = installation db /\ fragments db' = fragments db).
  2: { intros _. eapply does_mono; [|exact IH]. simpl. naive_solver congruence. }
  destruct (en (ModuleKey m)); [|by apply does_ok].
  eapply does_bind with (R1 := fun _ db db' => db' = db); [by apply does_select|]. intros cs.
  eapply does_mono; [|apply grantCompanies_does]. simpl. intros _ db1 db2 (Hi & Hf & _) db ->. done.
Qed.

(** The state of the registry after a seed. *)
Record seeded (known : list ModuleManifest) (installedKeys : gset string) (db db' : RegDB) : Prop := {
  sd_listed : forall m, m ∈ known -> installation db' !! ModuleKey m =
    Some (seededRow (bool_decide (ModuleKey m ∈ installedKeys)) (ManifestVersion m) (installation db !! ModuleKey m));
  sd_others : forall k, k ∉ ModuleKey <$> known -> installation db' !! k = installation db !! k;
  sd_fragments : forall m doc, m ∈ known -> AuthzFragment m = Some doc ->
    fragments db' !! ModuleKey m = Some (mkFragRow doc (module_ready db' (ModuleKey m)));
  sd_untouched : forall k, k ∉ fragmentKeys known -> fragments db' !! k = fragments db !! k
}.

Lemma seedTables_does known installedKeys :
  NoDup (ModuleKey <$> known) -> does (seedTables known installedKeys) (fun _ db db' => seeded known installedKeys db db').
Proof.
  intros Hnd. eapply does_bind; [by apply seedCatalog_does|]. intros u. destruct (length known =? 0)%nat eqn:El.
  { apply Nat.eqb_eq, length_zero_iff_nil in El as ->. apply does_ok. intros db1 db ((Hf & _) & _ & Ho).
    split; [by intros ? ?%not_elem_of_nil|exact Ho|by intros ? ? ?%not_elem_of_nil|]. intros k _. by rewrite Hf. }
  eapply does_bind; [apply seedDependencies_does|]. intros u1.
  eapply does_bind with (R1 := fun rows db db' => db' = db /\ rows = statusRows db (ModuleKey <$> known)); [by apply does_select|]. intros rows.
  eapply does_bind; [apply seedFragments_does|]. intros u2. eapply does_mono; [|apply seedGrants_does]. simpl.
  intros _ db4 db5 [Hi5 Hf5] db3 (Hi4 & _ & _ & Hf4) db2 [-> ->] db1 [(Hf2 & _) Hi2] db [(Hf1 & _) [Hin Hout]].
  assert (Hi : installation db5 = installation db1) by congruence.
  split; rewrite ?Hi, ?Hf5; [exact Hin|exact Hout| |].
  - intros m doc Hm Hdoc. rewrite Hf4, decide_True, (fragmentOf_known known m), Hdoc by
      first [done|unfold fragmentKeys; apply list_elem_of_fmap; exists m; split; [done|]; apply list_elem_of_filter; rewrite Hdoc; eauto].
    do 2 f_equal. rewrite ready_rows by (apply list_elem_of_fmap; eauto). unfold module_ready. by rewrite Hi5, Hi4.
  - intros k Hk. rewrite Hf4, decide_False by done. by rewrite Hf2, Hf1.
Qed.

Lemma Seed_does known installedKeys : does (Seed known installedKeys) (fun _ db db' => seeded known installedKeys db db').
Proof.
  unfold Seed. destruct (validateKnownManifests known) as [[]|e] eqn:E; [|apply does_err]. apply known_nodup in E.
  eapply does_bind with (R1 := fun _ db db' => db' = db).
  - unfold checkOrgUnitTaxonomy. destruct (_ =? 0)%nat; [by apply does_ok|]. eapply does_bind with (R1 := fun _ db db' => db' = db); [by apply does_select|].
    intros types. destruct (filter _ _); [|apply does_err]. apply does_ok. by intros db1 db ->.
  - intros _. eapply does_mono; [|by apply seedTables_does]. simpl. by intros _ db1 db2 H db ->.
Qed.
End pieces.

(** A seed leaves every fragment as active as its module is ready, if the fragments of
    the known modules are all among the manifests'. *)
Lemma seeded_mirrors known installedKeys db db' :
  seeded known installedKeys db db' -> mirrored db ->
  (forall k, k ∈ ModuleKey <$> known -> is_Some (fragments db !! k) -> k ∈ fragmentKeys known) -> mirrored db'.
Proof.
  intros [_ Ho Hf Hu] Hm Hcov k r Hk. destruct (decide (k ∈ fragmentKeys known)) as [Hin|Hin].
  - unfold fragmentKeys in Hin. apply list_elem_of_fmap in Hin as (m & -> & [[doc Hdoc] Hm']%list_elem_of_filter).
    rewrite (Hf m doc Hm' Hdoc) in Hk. by injection Hk as <-.
  - rewrite Hu in Hk by done. rewrite (Hm k r Hk). unfold module_ready. rewrite Ho; [done|]. intros Hk'. apply Hin, Hcov; eauto.
Qed.

(** ** Beside other requests *)

(** A statement that leaves the rows of installed modules as they are. *)
Definition keepsInstalled (X : Type) (m : method X) : Prop :=
  forall env db x db', m env db = Ok (x, db') -> forall k r, installation db !! k = Some r -> i_Installed r = true -> installation db' !! k = Some r.
Abbreviation quiet := (calls (txCall keepsInstalled)).

Lemma quiet_run {A} (f : RegDB -> result reg_error (A * RegDB)) :
  (forall db a db', f db = Ok (a, db') -> forall k r, installation db !! k = Some r -> i_Installed r = true -> installation db' !! k = Some r) ->
  quiet (ex_run (M := Pool) f).
Proof. intros Hf. apply onTx_run. intros env db x db' H%autocommit_ok. by eapply Hf. Qed.
Lemma quiet_update f : (forall db k r, installation db !! k = Some r -> i_Installed r = true -> installation (f db) !! k = Some r) -> quiet (update (M := Pool) f).
Proof. intros Hf. apply quiet_run. intros db a db' [= _ <-]. apply Hf. Qed.
Lemma quiet_select {A} (f : RegDB -> A) : quiet (select (M := Pool) f).
Proof. apply quiet_run. by intros db a db' [= _ <-]. Qed.

Lemma quiet_seedCatalog known installedKeys : quiet (seedCatalog known installedKeys).
Proof.
  induction known as [|m known IH]; [exact I|].
  apply onTx_bind; [apply quiet_run; intros db a db' H; destruct (catalogChecks _ _); [by injection H as _ <-|done]|intros _].
  apply onTx_bind; [by apply quiet_update|intros _]. apply onTx_bind; [|intros _].
  { apply quiet_run. intros db a db' H k r Hk Hr. destruct (installation db !! ModuleKey m) eqn:E; [by injection H as _ <-|].
    destruct (catalog db !! ModuleKey m); [|done]. injection H as _ <-. simpl. rewrite lookup_insert_ne; [done|]. intros <-. congruence. }
  apply onTx_bind; [|intros _; exact IH]. destruct (bool_decide _); [|exact I]. apply quiet_update. intros db k r Hk Hr. simpl.
  destruct (decide (ModuleKey m = k)) as [<-|]; [|by rewrite lookup_alter_ne]. rewrite lookup_alter_eq, Hk. simpl. unfold installListed. by rewrite Hr.
Qed.

Lemma quiet_seed known installedKeys : quiet (Seed known installedKeys).
Proof.
  unfold Seed. destruct (validateKnownManifests known); [|exact I]. apply onTx_bind.
  { unfold checkOrgUnitTaxonomy. destruct (_ =? 0)%nat; [exact I|]. apply onTx_bind; [apply quiet_select|]. intros types. by destruct (filter _ _). }
  intros _. apply onTx_bind; [apply quiet_seedCatalog|intros _]. destruct (_ =? 0)%nat; [exact I|].
  apply onTx_bind; [|intros _].
  { induction known as [|m known IH]; [exact I|]. apply onTx_bind; [by apply quiet_update|intros _]. apply onTx_bind; [|by intros _].
    induction (Dependencies m) as [|d ds IHd]; [exact I|]. apply onTx_bind; [|by intros _].
    apply quiet_run. intros db a0 db' H. repeat (case_match; try done). by injection H as _ <-. }
  apply onTx_bind; [apply quiet_select|intros rows]. apply onTx_bind; [|intros _].
  { induction (fragmentKeys known) as [|k ks IH]; [exact I|]. apply onTx_bind; [|by intros _]. unfold upsertAuthzFragment.
    destruct (fragmentOf known k) as [doc|]; [|exact I]. destruct (checkFragment doc); [|exact I]. apply onTx_bind; [apply quiet_select|].
    intros seen. destruct (typeOwners _ _ seen); [by apply quiet_update|exact I]. }
  induction known as [|m known IH]; [exact I|]. apply onTx_bind; [|by intros _]. destruct (ready rows (ModuleKey m)); [|exact I].
  apply onTx_bind; [apply quiet_select|]. intros cs. induction cs as [|c cs IHc]; [exact I|]. apply onTx_bind; [|by intros _].
  apply onTx_inTx. intros env db x db' H k r. apply defaultGrant_ok in H as [-> _]. done.
Qed.
