(* ===== verification/RegistryClaims.v ===== *)
(** * The registry's theorems

    What a capability says of the module graph, that no history of registrations,
    enablements and seeds leaves a fragment the effective model refuses, who changes the
    registry, and what enabling and seeding do.  The examples are runs in which the code
    does less than its comments say. *)

From stdpp Require Import base gmap strings list relations.
From S2P Require Import Prelude GoStrings Model BaseModel Tuple Engine Fragment TupleStore StoreProps Decision Clients AuthzHTTP AuthzProps AuthzClaims AdminClient OrgHTTP OrgProps OrgClaims OrgHTTPProps ModuleKit.
From S2P Require Import Registry RegistrySeed RegistryHTTP RegistryEffects RegistryTables RegistryService RegistrySeeded.

(** ** Capabilities *)

(** What a capability answer says about the tables. *)
Definition capability_says (db : RegDB) (k : string) (cap : Capability) (code : string) : Prop :=
  cap_Module cap = k /\ cap_Installed cap = (match installation db !! k with Some r => i_Installed r | None => false end) /\
  cap_Enabled cap = module_ready db k /\
  NoDup (cap_Dependencies cap) /\
  (forall d, d ∈ cap_Dependencies cap <-> tc (needs (dependency db)) k d /\ d <> k) /\
  (forall d, d ∈ cap_MissingDependencies cap <-> d ∈ cap_Dependencies cap /\ module_ready db d = false) /\
  (code = "MODULE_NOT_INSTALLED" <-> cap_Installed cap = false) /\
  (code = "MODULE_DISABLED" <-> cap_Installed cap = true /\ cap_Enabled cap = false) /\
  (code = "MODULE_DEPENDENCY_MISSING" <-> cap_Enabled cap = true /\ exists d, d ∈ cap_MissingDependencies cap) /\
  (code = "" <-> forall d, d = k \/ tc (needs (dependency db)) k d -> module_ready db d = true).

Lemma capability_performed verify uuid_ok an f n k w :
  (forall i, tx_broken (an_env an i) = false) ->
  (perform verify uuid_ok an f n (Capability_ k) w).1.1 =
    match catalog (w_store w) !! k with Some row => Ok (capabilityAt (w_store w) k row) | None => Err ErrModuleNotFound end.
Proof.
  intros Hb. unfold Capability_. cbn. unfold autocommit. rewrite Hb. cbn.
  destruct (catalog (w_store w) !! k) as [row|] eqn:E; [|reflexivity]. cbn. rewrite Hb. cbn. rewrite E. cbn.
  unfold capabilityAt. destruct (c_Port (c_params row) =? 0)%Z; cbn; rewrite ?Hb; cbn; rewrite ?Hb; cbn; rewrite ?Hb; reflexivity.
Qed.

(** C31: readiness is the module graph's.  A capability asked for with nothing in
    between answers from the tables: its dependencies are exactly the modules reached
    through platform.module_dependency, whatever cycles there are, each once; those
    missing are the ones not installed and enabled; the code is the first of the
    documented order that applies, and empty exactly when the module and everything it
    reaches is installed and enabled.  Without a failing statement it does answer, and
    an unknown module is reported as such. *)
Theorem capability_ready verify uuid_ok authz an f n k w :
  reg_tables (w_store w) ->
  alone verify uuid_ok authz (Capability_ k) w (fun r w' => w' = w /\
    match r with
    | Ok (cap, code) => is_Some (catalog (w_store w) !! k) /\ capability_says (w_store w) k cap code
    | Err ErrModuleNotFound => catalog (w_store w) !! k = None
    | Err e => e = RegDatabase
    end) /\
  ((forall i, tx_broken (an_env an i) = false) ->
   match (perform verify uuid_ok an f n (Capability_ k) w).1.1 with
   | Ok (cap, code) => is_Some (catalog (w_store w) !! k) /\ capability_says (w_store w) k cap code
   | Err e => e = ErrModuleNotFound /\ catalog (w_store w) !! k = None
   end).
Proof.
  intros Hdb. assert (Hself : dependency (w_store w) !! (k, k) = None).
  { destruct (dependency (w_store w) !! (k, k)) eqn:E; [|done]. destruct (rt_depends _ Hdb k k) as [? _]; [by rewrite E|done]. }
  assert (Hsays : forall row, let '(cap, code) := capabilityAt (w_store w) k row in capability_says (w_store w) k cap code).
  { intros row. by apply capabilityAt_spec. }
  split.
  - eapply alone_mono; [|apply Capability_alone]. intros r w' [-> H]. split; [done|]. destruct H as [->|H]; [done|].
    destruct (catalog (w_store w) !! k) as [row|]; subst r; [|done]. specialize (Hsays row). destruct (capabilityAt _ _ _). eauto.
  - intros Hb. rewrite capability_performed by done. destruct (catalog (w_store w) !! k) as [row|]; [|done].
    specialize (Hsays row). destruct (capabilityAt _ _ _). eauto.
Qed.

(** ** Histories *)

(** C30: what can keep the stored fragments from loading.  From the migrated tables,
    whatever requests come and seeds run, succeeding or not, and however their
    statements interleave with each other and with other services' writes: loading the
    stored fragments, in any order and with any set of enabled modules, succeeds, fails
    on the merged model's targets, or fails on a type that two stored fragments declare;
    no stored fragment is malformed, unanchored or redefines a base type.  The last
    happens only if a fragment was stored between the ownership query of a registration
    or a seed and the store that relies on it; without such an overlap no two stored
    fragments ever share a type. *)
Theorem fragments_load `{UC : Unicode} byKey send parseInsecure correlationID verify uuid_ok authz overlap az types companies aw sent ps w ke rows :
  rtc (reg_step byKey send parseInsecure correlationID verify uuid_ok authz true overlap) ([], mkMWorld (migrated az types companies) aw sent) (ps, w) ->
  rows ≡ₚ fragmentRow <$> map_to_list (fragments (w_store w)) ->
  ((exists l, Load (Ok rows) ke = Ok l) \/ (exists e, Load (Ok rows) ke = Err (EffectiveInvalid e)) \/
   overlap = true /\ exists k t k', shared_type (fragments (w_store w)) k k' t /\ Load (Ok rows) ke = Err (DeclaredTwice k t k')) /\
  (overlap = false -> forall k k' t, ~ shared_type (fragments (w_store w)) k k' t).
Proof.
  intros Hs Hp. apply reg_steps_order in Hs as [_ _ Hdb Ht _]; [|apply migrated_order]. simpl in *. split; [|exact Ht].
  destruct (tables_load _ ke rows Hdb Hp) as [Hl|[Hl|(k & t & k' & Hsh & Hl)]]; [by left|by right; left|right; right].
  destruct overlap; [split; [done|]; eauto 6|]. by destruct (Ht eq_refl k k' t).
Qed.

(** The registry's tables.  In every state that requests and seeds reach from the
    migrated tables, an enabled module is installed, installed and registered modules
    and both ends of a dependency are in the catalog, no module depends on itself, and
    a service client belongs to one app.  As long as no seed runs, a fragment is also
    active exactly while its module is installed and enabled. *)
Theorem registry_tables `{UC : Unicode} byKey send parseInsecure correlationID verify uuid_ok authz seeds overlap az types companies aw sent ps w :
  rtc (reg_step byKey send parseInsecure correlationID verify uuid_ok authz seeds overlap) ([], mkMWorld (migrated az types companies) aw sent) (ps, w) ->
  (forall k r, installation (w_store w) !! k = Some r -> is_Some (catalog (w_store w) !! k) /\ (i_Enabled r = true -> i_Installed r = true)) /\
  (forall k a k' a', registration (w_store w) !! k = Some a -> registration (w_store w) !! k' = Some a' ->
     is_Some (catalog (w_store w) !! k) /\ (a_ServiceClientID a = a_ServiceClientID a' -> k = k')) /\
  (forall k d, needs (dependency (w_store w)) k d -> k <> d /\ is_Some (catalog (w_store w) !! k) /\ is_Some (catalog (w_store w) !! d)) /\
  (seeds = false -> forall k r, fragments (w_store w) !! k = Some r -> f_Active r = module_ready (w_store w) k).
Proof.
  intros Hs. apply reg_steps_order in Hs as [_ _ [H1 H3 H4 H5 H6 H7] _ Hm]; [|apply migrated_order].
  simpl in *. split_and!; [|intros k a k' a' Hk Hk'; split; [apply H6; eauto|by apply (H4 k k' a a')]|done|exact Hm].
  intros k r Hk. split; [apply H5; eauto|by eapply H3].
Qed.

(** C32: who changes the registry.  Let every 200 the administration client sees come
    from the authorization service.  Whatever happens between the calls of a request,
    each of its steps leaves everything but the audit trail as it was, or the bearer
    was a superadmin while the request was served. *)
Theorem registry_authorized `{UC : Unicode} byKey send parseInsecure correlationID verify uuid_ok authz during between header req w steps r w' :
  authz_backed verify during send ->
  run verify uuid_ok authz between (serveRegistry byKey send parseInsecure correlationID header req) w steps r w' ->
  Forall (fun s => (exists l, s.2 = at_store s.1 (with_regAudit (fun a => a ++ l) (w_store s.1))) \/ superadmin_now verify during header) steps.
Proof.
  intros Hback Hr. pose proof (run_calls verify uuid_ok authz _ _ _ _ _ _ _ Hr (serveRegistry_calls byKey send parseInsecure correlationID header req)) as Hf. eapply Forall_impl; [exact Hf|].
  intros [w1 w2] (X & c & x & Hc & Hx). destruct c; simpl in Hc; try done. destruct Hx as [env Hx]. simpl in *.
  assert (Hsame : exists l, w1 = at_store w1 (with_regAudit (fun a => a ++ l) (w_store w1))).
  { exists []. destruct w1 as [[] ? ?]. unfold at_store, with_regAudit. simpl. by rewrite app_nil_r. }
  assert (Hadmin : admin send correlationID header -> superadmin_now verify during header).
  { intros (action & (d & Hd & Ha & _)%mapDecision_ok). by eapply Decide_allowed. }
  destruct (m env (w_store w1)) as [[a db]|e] eqn:E; destruct Hx as [_ ->]; [|by left].
  destruct Hc as [X f| |ev|k en ev Hmay|seen app actor ev Hmay _ _]; [| | |right; by apply Hadmin..].
  - apply autocommit_ok in E. injection E as _ <-. left. destruct w1; exact Hsame.
  - injection E as _ <-. left. destruct w1; exact Hsame.
  - apply autocommit_ok in E. injection E as _ <-. left. by exists [ev].
Qed.

(** ** Enabling and seeding *)

(** C33: what an enable or a disable does.  If it commits, the module was installed for
    an enable and not mandatory for a disable; its row and its fragment's active flag
    change together, the audit event is added, and an enable claims the default grant
    of every active company, giving the grant only to those that never had it, while a
    disable touches no tuple; nothing else changes.  If it does not, the error is the
    guard that failed or the database, and with no failing statement and the guards met
    it commits. *)
Theorem set_enabled_exact k en ev env db :
  match committed (fun fails => SetEnabled fails k en ev) env db with
  | Ok (row, db') => enabledEffect k en ev db row db'
  | Err e => refused k en db e
  end /\
  (mayCommit k en env db -> is_ok (committed (fun fails => SetEnabled fails k en ev) env db) = true).
Proof.
  split.
  - destruct (committed _ env db) as [[row db']|e] eqn:E.
    + apply committed_ok in E. by eapply SetEnabled_ok.
    + unfold committed in E. destruct (SetEnabled _ _ _ _ _) as [[row s]|e'] eqn:E'.
      * destruct (tx_broken env); [by injection E as <-|done].
      * injection E as <-. by apply SetEnabled_err in E'.
  - intros (row & db' & ->)%(SetEnabled_total k en ev). done.
Qed.

(** C34: what a seed does.  No statement of a seed, whatever runs beside it, changes the
    row of an installed module, so an administrator's disable survives every boot.  A
    seed that ends without an error, with nothing in between, leaves the known modules
    installed as listed or as they were, other modules alone, and the manifests'
    fragments stored and as active as their modules are ready. *)
Theorem seed_exact verify uuid_ok authz between known installedKeys w steps r w' :
  run verify uuid_ok authz between (Seed known installedKeys) w steps r w' ->
  Forall (fun s => forall k row, installation (w_store s.1) !! k = Some row -> i_Installed row = true ->
                    installation (w_store s.2) !! k = Some row) steps /\
  (between = eq -> r = Ok tt -> seeded known installedKeys (w_store w) (w_store w')).
Proof.
  intros Hr. split.
  - eapply Forall_impl; [exact (run_calls verify uuid_ok authz _ _ _ _ _ _ _ Hr (quiet_seed known installedKeys))|].
    intros [w1 w2] (X & c & x & Hc & Hx) k row Hk Hrow. destruct c; simpl in Hc; try done. destruct Hx as [env Hx]. simpl in *.
    destruct (m env (w_store w1)) as [[a db]|e] eqn:E; destruct Hx as [_ ->]; [|done]. by eapply Hc.
  - intros -> ->. exact (run_alone verify uuid_ok authz _ _ _ _ _ _ Hr (Seed_does verify uuid_ok authz known installedKeys w) tt eq_refl).
Qed.

(** ** Witnesses *)

Section witnesses.
#[local] Existing Instance demoUnicode.

Definition rgAnswers (broken : nat -> bool) : Answers :=
  mkAnswers (fun n => mkTxEnv (broken n) (fun _ => false) (Z.of_nat n) (fun _ => 0%N)) (demoService ∅) (fun _ => false) (fun _ => true) (fun _ => false)
    (fun _ _ => None) (fun _ => None) (fun _ => None) (fun _ => None) (fun _ => None) (fun _ => None) (fun _ => true).
Definition sound (_ : nat) : bool := false.
Abbreviation rgPerform := (perform demoVerify demoUUID (rgAnswers sound) noFaults).

Lemma rgPerform_run {A} n (p : prog RegDB reg_error A) w :
  let res := rgPerform n p w in run demoVerify demoUUID (fun _ => True) eq p w res.1.2 res.1.1 res.2.
Proof. intros res. apply (perform_run _ _ _ (rgAnswers sound) noFaults n); [exact I|]. fold res. by destruct res as [[]]. Qed.

(** ann is a superadmin. *)
Definition rgAdmins : Service := demoService {[SuperadminTuple "ann"]}.
Definition rgSend : string -> adminWire -> option adminResponse := sendTo rgAdmins.
Definition rgServe (header : string) (req : rgRequest) := serveRegistry id rgSend Some "" header req.

Definition rgWorld (db : RegDB) : RW := mkMWorld db (mkWorld (mkDB ∅ [] ∅) []) [].
Definition rgEmpty : RegDB := migrated (mkDB ∅ [] ∅) {["company"]} ["c1"].

(** An app with one object type; [target] is what viewer asks of the anchor. *)
Definition appType (target : string) : json :=
  JObj [("company_module", this_); ("viewer", JObj [("union", JArr [this_;
    JObj [("tupleToUserset", JObj [("tupleset", JStr "company_module"); ("computedUserset", JStr target)])]])])].
Definition app (key typ target : string) : AppManifest :=
  mkAppManifest key "App" "1.0" "crm-backend" [] (Some (JObj [(typ, appType target)])).
Definition crm : AppManifest := app "crm" "crm_deal" "admin".

(** The boot of a registry with all built-in modules. *)
Definition rgSeeded := rgPerform 0 (Seed BuiltinModules {["docs"]}) (rgWorld rgEmpty).
Definition rgBooted : RegDB := w_store rgSeeded.2.

Lemma rgSeeded_run : run demoVerify demoUUID (fun _ => True) eq (Seed BuiltinModules {["docs"]}) (rgWorld rgEmpty) rgSeeded.1.2 rgSeeded.1.1 rgSeeded.2.
Proof. exact (rgPerform_run 0 _ (rgWorld rgEmpty)). Qed.

Lemma seed_exact_witness :
  is_ok rgSeeded.1.1 = true /\ installation rgBooted !! "timesheet" = Some (mkInstall false false (Some "0.1.0")) /\
  installation rgBooted !! "docs" = Some (mkInstall true true (Some "0.1.0")) /\
  (rgSeeded.1.1 = Ok tt -> seeded BuiltinModules {["docs"]} rgEmpty rgBooted).
Proof.
  split; [vm_compute; reflexivity|]. split; [vm_compute; reflexivity|]. split; [vm_compute; reflexivity|].
  intros Hok. exact (proj2 (seed_exact demoVerify demoUUID (fun _ => True) eq BuiltinModules _ (rgWorld rgEmpty) rgSeeded.1.2 rgSeeded.1.1 rgSeeded.2 rgSeeded_run) eq_refl Hok).
Defined.

Abbreviation rgStep seeds overlap := (reg_step id rgSend Some "" demoVerify demoUUID (fun _ => True) seeds overlap).
Abbreviation rgPool := (list (prog RegDB reg_error rgReply * gmap string FragRow) * RW)%type.

(** Requests and seeds side by side; the schedule says whose statement is next. *)
Definition rgArrive (p : prog RegDB reg_error rgReply) (s : rgPool) : rgPool := (s.1 ++ [(p, fragments (w_store s.2))], s.2).
Definition rgAdvance (i n : nat) (s : rgPool) : rgPool :=
  match s.1 !! i with
  | Some (Call c k, _) => let '(x, w) := answer1 demoVerify demoUUID (rgAnswers sound) noFaults n c s.2 in (<[i := (k x, fragments (w_store w))]> s.1, w)
  | _ => s
  end.
Fixpoint rgRun (sched : list nat) (n : nat) (s : rgPool) : rgPool :=
  match sched with [] => s | i :: rest => rgRun rest (S n) (rgAdvance i n s) end.

(** No statement of the schedule stores a fragment after another was stored since the
    statement before it. *)
Fixpoint rgApart (sched : list nat) (n : nat) (s : rgPool) : Prop :=
  match sched with
  | [] => True
  | i :: rest =>
      match s.1 !! i with Some (_, at_) => apart at_ s.2 (rgAdvance i n s).2 | None => True end /\ rgApart rest (S n) (rgAdvance i n s)
  end.

Lemma rgRun_reached seeds overlap sched n s : overlap = true \/ rgApart sched n s -> rtc (rgStep seeds overlap) s (rgRun sched n s).
Proof.
  revert n s. induction sched as [|i rest IH]; intros n [ps w] Ha; [done|]. simpl.
  assert (Hrest : overlap = true \/ rgApart rest (S n) (rgAdvance i n (ps, w))) by (destruct Ha as [?|[_ ?]]; auto).
  etrans; [|by apply IH]. unfold rgAdvance in *. simpl in *. destruct (ps !! i) as [[[a|X c k] at_]|] eqn:Hi; [done| |done].
  destruct (answer1 _ _ _ _ n c w) as [x w1] eqn:Hx. apply rtc_once. eapply rs_call; [exact Hi|by eapply (answer1_exec _ _ (fun _ => True))|].
  destruct Ha as [?|[Ha _]]; [by left|right]. unfold rgAdvance in Ha. simpl in Ha. by rewrite Hi, Hx in Ha.
Qed.

(** ann registers the app and enables it. *)
Definition rgAsked (m : AppManifest) : rgPool :=
  rgArrive (rgServe "Bearer ann" (ReqSetEnabled true (am_Key m))) (rgArrive (rgServe "Bearer ann" (ReqRegisterApp (Some m))) ([], rgWorld rgEmpty)).
Definition rgDone (m : AppManifest) : rgPool := rgRun [0; 0; 1]%nat 0 (rgAsked m).

Lemma rgAsked_reached seeds overlap m : rtc (rgStep seeds overlap) ([], rgWorld rgEmpty) (rgAsked m).
Proof. eapply rtc_l; [apply rs_arrive|]. apply rtc_once, rs_arrive. Qed.

Lemma crm_apart : rgApart [0; 0; 1]%nat 0 (rgAsked crm).
Proof.
  vm_compute. split; [left; reflexivity|]. split; [left; reflexivity|]. split; [right; reflexivity|exact I].
Qed.

Lemma crm_reached seeds : rtc (rgStep seeds false) ([], rgWorld rgEmpty) (rgDone crm).
Proof.
  transitivity (rgAsked crm); [apply rgAsked_reached|]. unfold rgDone.
  exact (rgRun_reached seeds false [0; 0; 1]%nat 0 (rgAsked crm) (or_intror crm_apart)).
Qed.

Lemma fragments_load_witness :
  module_ready (w_store (rgDone crm).2) "crm" = true /\
  ((exists l, Load (Ok (fragmentRow <$> map_to_list (fragments (w_store (rgDone crm).2)))) {["crm" := true]} = Ok l) \/
   exists e, Load (Ok (fragmentRow <$> map_to_list (fragments (w_store (rgDone crm).2)))) {["crm" := true]} = Err (EffectiveInvalid e)).
Proof.
  split; [vm_compute; reflexivity|].
  destruct (fragments_load id rgSend Some "" demoVerify demoUUID (fun _ => True) false (mkDB ∅ [] ∅) {["company"]} ["c1"] (mkWorld (mkDB ∅ [] ∅) []) []
    (rgDone crm).1 (rgDone crm).2 {["crm" := true]} (fragmentRow <$> map_to_list (fragments (w_store (rgDone crm).2)))) as [[Hl|[Hl|[Ho _]]] _];
    [rewrite <- surjective_pairing; exact (crm_reached true)|reflexivity|left; exact Hl|right; exact Hl|discriminate Ho].
Defined.

Lemma registry_tables_witness :
  f_Active <$> fragments (w_store (rgDone crm).2) !! "crm" = Some true /\
  (forall k r, fragments (w_store (rgDone crm).2) !! k = Some r -> f_Active r = module_ready (w_store (rgDone crm).2) k).
Proof.
  split; [vm_compute; reflexivity|].
  refine (proj2 (proj2 (proj2 (registry_tables id rgSend Some "" demoVerify demoUUID (fun _ => True) false false (mkDB ∅ [] ∅) {["company"]} ["c1"] (mkWorld (mkDB ∅ [] ∅) []) []
    (rgDone crm).1 (rgDone crm).2 _))) eq_refl).
  rewrite <- surjective_pairing. exact (crm_reached false).
Defined.

Definition rgRegistered := rgPerform 0 (rgServe "Bearer ann" (ReqRegisterApp (Some crm))) (rgWorld rgEmpty).

Lemma registry_authorized_witness :
  is_Some (catalog (w_store rgRegistered.2) !! "crm") /\
  Forall (fun s => (exists l, s.2 = at_store s.1 (with_regAudit (fun a => a ++ l) (w_store s.1))) \/ superadmin_now demoVerify (eq rgAdmins) "Bearer ann") rgRegistered.1.2.
Proof.
  split; [vm_compute; eauto|].
  apply (registry_authorized id rgSend Some "" demoVerify demoUUID (fun _ => True) (eq rgAdmins) eq "Bearer ann" (ReqRegisterApp (Some crm)) (rgWorld rgEmpty)
    rgRegistered.1.2 rgRegistered.1.1 rgRegistered.2 (sendTo_backed rgAdmins)).
  exact (rgPerform_run 0 _ (rgWorld rgEmpty)).
Defined.

Definition rgEnv : TxEnv := mkTxEnv false (fun _ => false) 0 (fun _ => 0%N).
Definition rgEvent : RegEvent := mkRegEvent "ann" "platform.module.disable" "module:docs".

Lemma rgBooted_companies : orgCompanies rgBooted = ["c1"].
Proof. vm_compute. reflexivity. Qed.
Lemma rgBooted_docs : installation rgBooted !! "docs" = Some (mkInstall true true (Some "0.1.0")).
Proof. vm_compute. reflexivity. Qed.
Lemma rgBooted_optional : (fun c => c_Mandatory (c_params c)) <$> catalog rgBooted !! "docs" = Some false.
Proof. vm_compute. reflexivity. Qed.

Lemma set_enabled_exact_witness :
  is_ok (committed (fun fails => SetEnabled fails "docs" false rgEvent) rgEnv rgBooted) = true.
Proof.
  generalize rgBooted_companies, rgBooted_docs, rgBooted_optional. generalize rgBooted. intros db Hc Hd Ho.
  apply (proj2 (set_enabled_exact "docs" false rgEvent rgEnv db)). split; [done|]. split; [done|]. split; [done|]. split; [|split].
  - rewrite Hc. by repeat constructor.
  - exists (mkInstall true true (Some "0.1.0")). split; [exact Hd|done].
  - intros _. destruct (proj1 (fmap_Some _ _ _) Ho) as (c & Hrow & Hm). exists c. split; [exact Hrow|exact (eq_sym Hm)].
Defined.

(** a depends on b, b on c and c on a; c is disabled. *)
Definition rgCycle : RegDB :=
  let row p := mkCatalogRow (mkCatalogParams "A" "company" false "/api/a" "/health" p "open" "1" true) [] in
  mkRegDB {["aa" := row 8000%Z; "bb" := row 8001%Z; "cc" := row 8002%Z]}
    {["aa" := mkInstall true true None; "bb" := mkInstall true true None; "cc" := mkInstall true false None]}
    {[("aa", "bb") := "*"; ("bb", "cc") := "*"; ("cc", "aa") := "*"]} ∅ ∅ (mkDB ∅ [] ∅) ∅ [] [].

Lemma rgCycle_tables : reg_tables rgCycle.
Proof.
  split; unfold rgCycle; cbn [fragments installation registration catalog dependency]; try (intros *; rewrite ?lookup_empty; first [done|by intros []]).
  - intros k r Hk. rewrite !lookup_insert_Some, lookup_singleton_Some in Hk. destruct Hk as [[_ <-]|[_ [[_ <-]|[_ [_ <-]]]]]; done.
  - intros k [r Hk]. rewrite !lookup_insert_Some, lookup_singleton_Some in Hk. destruct Hk as [[<- _]|[_ [[<- _]|[_ [<- _]]]]]; vm_compute; eauto.
  - intros k d [v Hk]. rewrite !lookup_insert_Some, lookup_singleton_Some in Hk.
    destruct Hk as [[[= <- <-] _]|[_ [[[= <- <-] _]|[_ [[= <- <-] _]]]]]; (split; [done|]); vm_compute; eauto.
Qed.

Lemma capability_ready_witness :
  match (perform demoVerify demoUUID (rgAnswers sound) noFaults 0 (Capability_ "aa") (rgWorld rgCycle)).1.1 with
  | Ok (cap, code) => code = "MODULE_DEPENDENCY_MISSING" /\ cap_MissingDependencies cap = ["cc"] /\ capability_says rgCycle "aa" cap code
  | Err _ => False
  end.
Proof.
  pose proof (proj2 (capability_ready demoVerify demoUUID (fun _ => True) (rgAnswers sound) noFaults 0 "aa" (rgWorld rgCycle) rgCycle_tables) (fun _ => eq_refl)) as H.
  destruct (perform demoVerify demoUUID (rgAnswers sound) noFaults 0 (Capability_ "aa") (rgWorld rgCycle)).1.1 as [[cap code]|e] eqn:E.
  - vm_compute in E. injection E as <- <-. split; [reflexivity|]. split; [reflexivity|]. exact (proj2 H).
  - vm_compute in E. discriminate E.
Defined.

(** ** What the code lets through *)

(** An app whose fragment asks an undefined relation of its anchor is registered and
    enabled, and from then on the effective model does not load, for any module. *)
Definition badApp : AppManifest := app "crm" "crm_deal" "nobody".

Example app_breaks_every_check :
  module_ready (w_store (rgDone badApp).2) "crm" = true /\
  match Load (Ok (fragmentRow <$> map_to_list (fragments (w_store (rgDone badApp).2)))) {["crm" := true; "docs" := true]} with
  | Err (EffectiveInvalid _) => True
  | _ => False
  end.
Proof. split; vm_compute; [reflexivity|exact I]. Qed.

(** A feature key shorter than the module's prefix is a panic, a 500 instead of the 422
    the next longer one gets. *)
Definition withFeature (f : string) : AppManifest := mkAppManifest "crm" "App" "1.0" "crm-backend" [f] (am_AuthzFragment crm).
Example short_feature_panics :
  (rgPerform 0 (rgServe "Bearer ann" (ReqRegisterApp (Some (withFeature "a.b")))) (rgWorld rgEmpty)).1.1 = internalError /\
  (rgPerform 0 (rgServe "Bearer ann" (ReqRegisterApp (Some (withFeature "a.bc")))) (rgWorld rgEmpty)).1.1 = RgError 422 "VALIDATION_ERROR" "features".
Proof. split; vm_compute; reflexivity. Qed.

(** An app may take the key of a built-in module: the catalog then has no upstream for
    it, and its types belong to the app's client. *)
Example app_takes_builtin :
  match (rgPerform 0 (rgServe "Bearer ann" (ReqRegisterApp (Some (app "docs" "docs_document" "admin")))) (rgWorld rgBooted)).1.1 with
  | RgData 200 (BCapability c) => cap_External c = true /\ cap_ServiceClientID c = "crm-backend"
  | _ => False
  end.
Proof. vm_compute. by split. Qed.

(** Two apps that declare the same type are registered side by side: each ownership
    query runs before the other's commit, both commit, and once both are enabled the
    effective model does not load, for any module.  Reached from the migrated tables. *)
Definition rgTwoApps : rgPool :=
  rgRun [0; 1; 0; 1; 2; 3]%nat 0
    (rgArrive (rgServe "Bearer ann" (ReqSetEnabled true "erp")) (rgArrive (rgServe "Bearer ann" (ReqSetEnabled true "crm"))
    (rgArrive (rgServe "Bearer ann" (ReqRegisterApp (Some (mkAppManifest "erp" "App" "1.0" "erp-backend" [] (am_AuthzFragment crm)))))
    (rgArrive (rgServe "Bearer ann" (ReqRegisterApp (Some crm))) ([], rgWorld rgEmpty))))).

Example registrations_race :
  rtc (rgStep false true) ([], rgWorld rgEmpty) rgTwoApps /\
  module_ready (w_store rgTwoApps.2) "crm" && module_ready (w_store rgTwoApps.2) "erp" = true /\
  match Load (Ok (fragmentRow <$> map_to_list (fragments (w_store rgTwoApps.2)))) {["crm" := true; "erp" := true]} with
  | Err (DeclaredTwice _ typ _) => typ = "crm_deal"
  | _ => False
  end.
Proof.
  split; [|split; vm_compute; reflexivity].
  do 4 (eapply rtc_l; [apply rs_arrive|]). unfold rgTwoApps. apply rgRun_reached. by left.
Qed.

(** The seed looks for another owner of a type and stores the fragment in two
    statements: an app registered in between declares the type too, and once it is
    enabled the effective model does not load. *)
Definition docsOnly : list ModuleManifest := [builtin "docs" "Docs" 8170 docsAuthzRelations []].
Definition rgRaced : rgPool :=
  rgRun (replicate 8 0 ++ [1; 1; 0; 2])%nat 0
    (rgArrive (rgServe "Bearer ann" (ReqSetEnabled true "crm")) (rgArrive (rgServe "Bearer ann" (ReqRegisterApp (Some (app "crm" "docs_document" "admin"))))
    (rgArrive (boot docsOnly {["docs"]}) ([], rgWorld (migrated (mkDB ∅ [] ∅) {["company"]} []))))).

Example seed_races_registration :
  module_ready (w_store rgRaced.2) "crm" && module_ready (w_store rgRaced.2) "docs" = true /\
  match Load (Ok (fragmentRow <$> map_to_list (fragments (w_store rgRaced.2)))) {["crm" := true; "docs" := true]} with
  | Err (DeclaredTwice _ typ _) => typ = "docs_document"
  | _ => False
  end.
Proof. split; vm_compute; reflexivity. Qed.
End witnesses.
