(* ===== verification/Identity.v ===== *)
(** * The identity service's store

    internal/identity: store.go, superadmin.go and queries.sql.go over the tables of
    migrations/identity.  The two partial unique indexes of identity.mfa_policy make it
    one global row and at most one row per account; both are kept so.  A method that
    opens a transaction is one step, a read on the pool is one step per statement.  Timestamps and
    the payload of an audit event are not kept, and login observations are left out:
    no code writes them. *)

From stdpp Require Import base gmap strings list sorting.
From S2P Require Import Prelude GoStrings TupleStore OrgTree Org ModuleKit.

(** ** Data *)

(** [IdentityUserAccount], the row, and [User], its shape outside the package. *)
Record Account := mkAccount { ac_KcSub : string; ac_Email : option string; ac_PreferredUsername : option string; ac_Lifecycle : string; ac_Kind : string }.
Record User := mkUser { us_ID : UUID; us_KcSub : string; us_Email : string; us_PreferredUsername : string; us_Lifecycle : string; us_Kind : string }.

(** [IdentityMfaPolicy] and [MfaPolicy] *)
Record PolicyRow := mkPolicyRow { pr_Required : bool; pr_Method : option string }.
Record MfaPolicy := mkPolicy { Required : bool; Method : string }.
#[export] Instance MfaPolicy_eq_dec : EqDecision MfaPolicy.
Proof. solve_decision. Defined.

Record IdEvent := mkIdEvent { ie_Actor : string; ie_Action : string; ie_Subject : string }.

Record IdDB := mkIdDB {
  accounts : gmap UUID Account;
  globalPolicy : option PolicyRow;
  overrides : gmap UUID PolicyRow;
  idAudit : list IdEvent
}.
Definition with_accounts (f : gmap UUID Account -> gmap UUID Account) (db : IdDB) : IdDB := mkIdDB (f (accounts db)) (globalPolicy db) (overrides db) (idAudit db).
Definition with_global (g : option PolicyRow) (db : IdDB) : IdDB := mkIdDB (accounts db) g (overrides db) (idAudit db).
Definition with_overrides (f : gmap UUID PolicyRow -> gmap UUID PolicyRow) (db : IdDB) : IdDB := mkIdDB (accounts db) (globalPolicy db) (f (overrides db)) (idAudit db).
Definition with_idAudit (f : list IdEvent -> list IdEvent) (db : IdDB) : IdDB := mkIdDB (accounts db) (globalPolicy db) (overrides db) (f (idAudit db)).

Inductive id_error : Type :=
| ErrUserNotFound
| ErrMfaMethodUnenforceable
| ErrMfaPolicyWeakerThanGlobal
| IdDatabase.
#[export] Instance id_error_eq_dec : EqDecision id_error.
Proof. solve_decision. Defined.

(** [pgconv.StrOrNil] and [pgconv.DerefStr] *)
Definition StrOrNil (v : string) : option string := if seqb v "" then None else Some v.
Definition DerefStr (v : option string) : string := default "" v.

Lemma Deref_StrOrNil v : DerefStr (StrOrNil v) = v.
Proof. unfold StrOrNil. destruct (seqb v "") eqn:E; [by apply seqb_true in E as ->|done]. Qed.

(** [userFromRow] *)
Definition userFromRow (id : UUID) (r : Account) : User :=
  mkUser id (ac_KcSub r) (DerefStr (ac_Email r)) (DerefStr (ac_PreferredUsername r)) (ac_Lifecycle r) (ac_Kind r).

Definition policyFromRow (r : PolicyRow) : MfaPolicy := mkPolicy (pr_Required r) (DerefStr (pr_Method r)).
Definition policyRow (required : bool) (method : string) : PolicyRow := mkPolicyRow required (StrOrNil method).

(** The migration's tables: the seeded global row and nothing else. *)
Definition idMigrated : IdDB := mkIdDB ∅ (Some (mkPolicyRow false None)) ∅ [].

(** ** Statements *)

Abbreviation IdTx A := (IdDB -> result id_error (A * IdDB)).

Definition read {A} (f : IdDB -> A) : IdTx A := fun db => Ok (f db, db).
Definition write (f : IdDB -> IdDB) : IdTx unit := fun db => Ok (tt, f db).

(** The CHECK constraints of the two tables. *)
Definition accountChecks (r : Account) : bool :=
  bool_decide (ac_Lifecycle r ∈ ["active"; "disabled"]) && bool_decide (ac_Kind r ∈ ["person"; "service"]).
Definition methodCheck (method : option string) : bool :=
  match method with None => true | Some m => bool_decide (m ∈ ["otp"; "passkey"; "otp_or_passkey"]) end.

(** [GetUserAccountByKcSub] and [GetUserAccountByID]; [None] is pgx.ErrNoRows. *)
Definition accountBySub (db : IdDB) (kcSub : string) : option (UUID * Account) := find_where (fun r => ac_KcSub r = kcSub) (accounts db).
Definition GetUserAccountByKcSub (kcSub : string) : IdTx (option (UUID * Account)) := read (fun db => accountBySub db kcSub).
Definition GetUserAccountByID (id : UUID) : IdTx (option Account) := read (fun db => accounts db !! id).

(** [UpsertUserAccount]: the kc_sub is unique, and [newID] is the id a new row draws. *)
Definition UpsertUserAccount (newID : UUID) (kcSub : string) (email preferredUsername : option string) (kind : string) : IdTx (UUID * Account) :=
  fun db =>
    let put id r :=
      if accountChecks r then Ok ((id, r), with_accounts (<[id := r]>) db) else Err IdDatabase in
    match accountBySub db kcSub with
    | Some (id, r) => put id (mkAccount kcSub email preferredUsername (ac_Lifecycle r) kind)
    | None =>
        match accounts db !! newID with
        | Some _ => Err IdDatabase
        | None => put newID (mkAccount kcSub email preferredUsername "active" kind)
        end
    end.

(** [GetUserMfaPolicy] and [GetGlobalMfaPolicy] *)
Definition GetUserMfaPolicy (userID : UUID) : IdTx (option PolicyRow) := read (fun db => overrides db !! userID).
Definition GetGlobalMfaPolicy : IdTx (option PolicyRow) := read globalPolicy.

(** [SetGlobalMfaPolicy]: an UPDATE, which does nothing when there is no row. *)
Definition SetGlobalMfaPolicy (row : PolicyRow) : IdTx unit := fun db =>
  match globalPolicy db with
  | None => Ok (tt, db)
  | Some _ => if methodCheck (pr_Method row) then Ok (tt, with_global (Some row) db) else Err IdDatabase
  end.

(** [UpsertUserMfaPolicy]: the account must exist. *)
Definition UpsertUserMfaPolicy (userID : UUID) (row : PolicyRow) : IdTx unit := fun db =>
  if bool_decide (is_Some (accounts db !! userID)) && methodCheck (pr_Method row)
  then Ok (tt, with_overrides (<[userID := row]>) db) else Err IdDatabase.

(** [DeleteUserMfaPolicy]; the row count is not used. *)
Definition DeleteUserMfaPolicy (userID : UUID) : IdTx unit := write (with_overrides (delete userID)).

(** [ListUserAccountsWithMfaPolicy]: a left join, in the order of the ids. *)
Definition byID {A} (x y : UUID * A) : Prop := (x.1 <= y.1)%N.
#[export] Instance byID_dec {A} (x y : UUID * A) : Decision (byID x y) := decide (x.1 <= y.1)%N.
Definition accountsByID (db : IdDB) : list (UUID * Account) := merge_sort byID (map_to_list (accounts db)).
Definition ListUserAccountsWithMfaPolicy : IdTx (list (UUID * string * option PolicyRow)) :=
  read (fun db => (fun kv => (kv.1, ac_KcSub kv.2, overrides db !! kv.1)) <$> accountsByID db).

(** [audit.Writer.Record] *)
Definition recordEvent (ev : IdEvent) : IdTx unit := write (with_idAudit (fun l => l ++ [ev])).

(** ** Where statements run *)

(** Any statement, or the commit, of a transaction may fail, and then nothing of it
    stays; a statement on the pool is a transaction of its own. *)
Abbreviation Pool A := (prog IdDB id_error (result id_error A)).

Definition inTx {A} (m : UUID -> IdTx A) : Pool A :=
  Call (Transact (fun env db => if tx_broken env then Err IdDatabase else m (tx_newID env) db)) (fun r => Ret r).
Definition onPool {A} (m : IdTx A) : Pool A := inTx (fun _ => m).

Definition answer {A} (a : A) : Pool A := Ret (Ok a).
Definition failed {A} (e : id_error) : Pool A := Ret (Err e).

(** ** Methods *)

Definition UserKindPerson : string := "person".
Definition UserKindService : string := "service".

(** [ResolveOrCreate] *)
Definition ResolveOrCreate (kcSub email preferredUsername kind : string) : Pool User :=
  let kind := if seqb kind "" then UserKindPerson else kind in
  let^ row := inTx (fun newID => UpsertUserAccount newID kcSub (StrOrNil email) (StrOrNil preferredUsername) kind) in
  answer (userFromRow row.1 row.2).

(** [SeedSuperadmin], in the caller's transaction. *)
Definition SeedSuperadmin (newID : UUID) (kcSub email preferredUsername : string) : IdTx User :=
  let* row := UpsertUserAccount newID kcSub (StrOrNil email) (StrOrNil preferredUsername) UserKindPerson in
  tret (userFromRow row.1 row.2).

(** [GetUserByKcSub] and [GetUserByID] *)
Definition GetUserByKcSub (kcSub : string) : Pool User :=
  let^ row := onPool (GetUserAccountByKcSub kcSub) in
  match row with Some (id, r) => answer (userFromRow id r) | None => failed ErrUserNotFound end.
Definition GetUserByID (id : UUID) : Pool User :=
  let^ row := onPool (GetUserAccountByID id) in
  match row with Some r => answer (userFromRow id r) | None => failed ErrUserNotFound end.

(** [GetGlobalPolicy]; no row is an error like any other. *)
Definition GetGlobalPolicy : Pool MfaPolicy :=
  let^ row := onPool GetGlobalMfaPolicy in
  match row with Some r => answer (policyFromRow r) | None => failed IdDatabase end.

(** [requireUser] *)
Definition requireUser (userID : UUID) : IdTx unit :=
  let* row := GetUserAccountByID userID in
  match row with Some _ => tret tt | None => tfail ErrUserNotFound end.

(** [EffectivePolicy] *)
Definition EffectivePolicy (userID : UUID) : Pool MfaPolicy :=
  let^ userRow := onPool (GetUserMfaPolicy userID) in
  match userRow with
  | Some r => answer (policyFromRow r)
  | None =>
      let^ _ := onPool (requireUser userID) in
      GetGlobalPolicy
  end.

(** [isEnforceableMfaMethod] *)
Definition isEnforceableMfaMethod (method : string) : bool := bool_decide (method ∈ ["otp"; "passkey"; "otp_or_passkey"]).

(** [mfaPolicyRank] *)
Definition mfaPolicyRank (p : MfaPolicy) : Z :=
  if negb (Required p) then 0%Z
  else if seqb (Method p) "otp" then 1%Z
  else if seqb (Method p) "otp_or_passkey" then 2%Z
  else if seqb (Method p) "passkey" then 3%Z
  else 0%Z.

(** [SetGlobalPolicy] *)
Definition SetGlobalPolicy (required : bool) (method : string) (ev : IdEvent) : Pool unit :=
  if required && negb (isEnforceableMfaMethod method) then failed ErrMfaMethodUnenforceable
  else inTx (fun _ =>
    let* _ := SetGlobalMfaPolicy (policyRow required method) in
    recordEvent ev).

(** The transaction of [SetUserPolicy]. *)
Definition setUserPolicyTx (userID : UUID) (required : bool) (method : string) (ev : IdEvent) : IdTx unit :=
  let* _ := requireUser userID in
  let* global := GetGlobalMfaPolicy in
  match global with
  | None => tfail IdDatabase
  | Some g =>
      if (mfaPolicyRank (mkPolicy required method) <? mfaPolicyRank (policyFromRow g))%Z then tfail ErrMfaPolicyWeakerThanGlobal
      else
        let* _ := UpsertUserMfaPolicy userID (policyRow required method) in
        recordEvent ev
  end.

(** [SetUserPolicy] *)
Definition SetUserPolicy (userID : UUID) (required : bool) (method : string) (ev : IdEvent) : Pool unit :=
  if required && negb (isEnforceableMfaMethod method) then failed ErrMfaMethodUnenforceable
  else inTx (fun _ => setUserPolicyTx userID required method ev).

(** [ClearUserPolicy] *)
Definition ClearUserPolicy (userID : UUID) (ev : IdEvent) : Pool unit :=
  inTx (fun _ =>
    let* _ := requireUser userID in
    let* _ := DeleteUserMfaPolicy userID in
    recordEvent ev).

(** [UserPolicyInput] and [ListEffectivePolicies] *)
Record UserPolicyInput := mkInput { in_UserID : UUID; in_KcSub : string; in_Policy : MfaPolicy }.
Definition ListEffectivePolicies : Pool (list UserPolicyInput) :=
  let^ rows := onPool ListUserAccountsWithMfaPolicy in
  let^ global := GetGlobalPolicy in
  answer ((fun r => mkInput r.1.1 r.1.2 (match r.2 with Some row => policyFromRow row | None => global end)) <$> rows).
