(* ===== verification/IdentityKC.v ===== *)
(** * Keycloak as identity sees it

    internal/identity/kcadmin.go, userstate.go and sync.go: the admin REST client, the
    sources of the enabled flag, and the MFA synchronisation.  Keycloak's answers are
    an argument: whatever was asked before, any answer may come.  The cache of the
    enabled flag is a step relation, since its calls interleave and take time. *)

From stdpp Require Import base gmap strings list relations.
From S2P Require Import Prelude GoStrings TupleStore Clients OrgTree Org ModuleKit Identity.

(** ** Requests *)

(** What encoding/json decodes into an [any]; []string{v} marshals as [AList [AString v]]. *)
Inductive any : Type :=
| ANull
| ABool (b : bool)
| ANumber (lexeme : string)
| AString (s : string)
| AList (l : list any)
| AMap (m : gmap string any).
Abbreviation kcUser := (gmap string any).

(** A request and what its body decodes to when the status is 200; each but the first
    carries the access token.  Keycloak describes a user as an object, never as null. *)
Inductive kcRequest : Type -> Type :=
| TokenRequest : kcRequest string
| EnabledRequest (token kcSub : string) : kcRequest (option bool)
| UserRequest (token kcSub : string) : kcRequest kcUser
| UpdateRequest (token kcSub : string) (user : kcUser) : kcRequest unit
| ClientsRequest (token clientID : string) : kcRequest (list string)
| ServiceUserRequest (token client : string) : kcRequest string.

(** The requests sent, oldest first. *)
Record Sent := mkSent { s_type : Type; s_request : kcRequest s_type }.
Arguments mkSent {s_type}.

Inductive kc_error : Type :=
| KcFailed (e : dep_error)
| NoAccessToken
| NoEnabledField
| NotInRealm.

(** [KCState] *)
Definition KCStateTrue : string := "true".
Definition KCStateFalse : string := "false".
Definition KCStateUnknown : string := "unknown".

(** [RequiredModeAttribute] *)
Definition RequiredModeAttribute : string := "kiban.login_security.required_mode".

(** [requiredModeFor]; [None] is its error. *)
Definition requiredModeFor (policy : MfaPolicy) : option string :=
  if negb (Required policy) then Some "none"
  else if seqb (Method policy) "otp" then Some "otp_required"
  else if seqb (Method policy) "passkey" then Some "passkey_required"
  else if seqb (Method policy) "otp_or_passkey" then Some "otp_or_passkey_required"
  else None.

(** [SyncOutcome]; the error's wording is left out. *)
Record SyncOutcome := mkOutcome { so_UserID : UUID; so_KcSub : string; so_Required : bool; so_RequiredMode : string; so_Success : bool }.

Section admin.
(** client.Do, after the requests sent so far. *)
Context (kc : forall X, list Sent -> kcRequest X -> HTTP X).

(** Code that talks to Keycloak: the requests sent are threaded through. *)
Definition KC (A : Type) : Type := list Sent -> A * list Sent.
Definition kcRet {A} (a : A) : KC A := fun log => (a, log).
Definition kcBind {A B} (m : KC A) (k : A -> KC B) : KC B := fun log => let '(a, log') := m log in k a log'.
Definition ask {X} (r : kcRequest X) : KC (HTTP X) := fun log => (kc X log r, log ++ [mkSent r]).
Definition orKc {A B} (m : KC (result kc_error A)) (k : A -> KC (result kc_error B)) : KC (result kc_error B) :=
  kcBind m (fun r => match r with Ok a => k a | Err e => kcRet (Err e) end).

(** A request whose status must be 200 and whose body must decode. *)
Definition getJSON {X} (r : kcRequest X) : KC (result kc_error X) :=
  kcBind (ask r) (fun resp => kcRet (match result_bind resp expectOK with Ok x => Ok x | Err e => Err (KcFailed e) end)).

(** [token] *)
Definition token : KC (result kc_error string) :=
  orKc (getJSON TokenRequest) (fun t => kcRet (if seqb t "" then Err NoAccessToken else Ok t)).

Definition withToken {A} (k : string -> KC (result kc_error A)) : KC (result kc_error A) := orKc token k.

(** [AdminClient.UserEnabled]: the state, and the error for the log. *)
Definition AdminUserEnabled (kcSub : string) : KC (string * option kc_error) :=
  kcBind (withToken (fun t => getJSON (EnabledRequest t kcSub))) (fun r => kcRet
    (match r with
     | Err e => (KCStateUnknown, Some e)
     | Ok None => (KCStateUnknown, Some NoEnabledField)
     | Ok (Some true) => (KCStateTrue, None)
     | Ok (Some false) => (KCStateFalse, None)
     end)).

(** [getUser] *)
Definition getUser (kcSub : string) : KC (result kc_error kcUser) := withToken (fun t => getJSON (UserRequest t kcSub)).

(** The loop of [IsServiceAccount]. *)
Fixpoint anyServiceUser (kcSub : string) (clients : list string) : KC bool :=
  match clients with
  | [] => kcRet false
  | cl :: rest =>
      kcBind (withToken (fun t => getJSON (ServiceUserRequest t cl))) (fun r =>
        match r with
        | Err _ => anyServiceUser kcSub rest
        | Ok id => if seqb id kcSub then kcRet true else anyServiceUser kcSub rest
        end)
  end.

(** [IsServiceAccount] *)
Definition serviceAccountPrefix : string := "service-account-".
Definition username (user : kcUser) : string := match user !! "username" with Some (AString s) => s | _ => "" end.
Definition IsServiceAccount (kcSub : string) : KC (result kc_error bool) :=
  orKc (getUser kcSub) (fun user =>
  let name := username user in
  if negb (HasPrefix name serviceAccountPrefix) then kcRet (Ok false)
  else
    orKc (withToken (fun t => getJSON (ClientsRequest t (TrimPrefix name serviceAccountPrefix)))) (fun clients =>
    kcBind (anyServiceUser kcSub clients) (fun b => kcRet (Ok b)))).

(** [updateUser]: 204 or 200. *)
Definition updateUser (kcSub : string) (user : kcUser) : KC (result kc_error unit) :=
  withToken (fun t =>
  kcBind (ask (UpdateRequest t kcSub user)) (fun resp => kcRet
    (match resp with
     | Ok r => if (StatusCode r =? 204)%Z || (StatusCode r =? 200)%Z then Ok tt else Err (KcFailed (StatusError (StatusCode r)))
     | Err e => Err (KcFailed e)
     end))).

(** [SetUserAttribute] *)
Definition attributes (user : kcUser) : gmap string any := match user !! "attributes" with Some (AMap m) => m | _ => ∅ end.
Definition withAttribute (key value : string) (user : kcUser) : kcUser :=
  <["attributes" := AMap (<[key := AList [AString value]]> (attributes user))]> user.
Definition SetUserAttribute (kcSub key value : string) : KC (result kc_error unit) :=
  orKc (getUser kcSub) (fun user => updateUser kcSub (withAttribute key value user)).

(** One turn of [SyncMfaPolicy]'s loop, and the loop. *)
Definition syncOne (i : UserPolicyInput) : KC SyncOutcome :=
  match requiredModeFor (in_Policy i) with
  | None => kcRet (mkOutcome (in_UserID i) (in_KcSub i) (Required (in_Policy i)) "" false)
  | Some mode =>
      kcBind (SetUserAttribute (in_KcSub i) RequiredModeAttribute mode) (fun r =>
      kcRet (mkOutcome (in_UserID i) (in_KcSub i) (Required (in_Policy i)) mode (is_ok r)))
  end.
Fixpoint syncAll (inputs : list UserPolicyInput) : KC (list SyncOutcome) :=
  match inputs with
  | [] => kcRet []
  | i :: rest => kcBind (syncOne i) (fun o => kcBind (syncAll rest) (fun os => kcRet (o :: os)))
  end.

(** [SyncMfaPolicy], with the requests it sent. *)
Definition SyncMfaPolicy : Pool (list SyncOutcome * list Sent) :=
  let^ inputs := ListEffectivePolicies in answer (syncAll inputs []).
End admin.

(** ** Sources of the enabled flag *)

(** [KCDBReader.UserEnabled], from the answer of its query. *)
Definition readerUserEnabled (row : result dep_error (option bool)) : string * option kc_error :=
  match row with
  | Ok None => (KCStateUnknown, Some NotInRealm)
  | Err e => (KCStateUnknown, Some (KcFailed e))
  | Ok (Some true) => (KCStateTrue, None)
  | Ok (Some false) => (KCStateFalse, None)
  end.

(** [ResolveUserState], when [source] answers so. *)
Record UserState := mkState { st_Lifecycle : string; st_KCEnabled : string; st_Kind : string }.
Definition ResolveUserState (source : string -> string * option kc_error) (kcSub : string) : Pool UserState :=
  let^ user := GetUserByKcSub kcSub in
  answer (mkState (us_Lifecycle user) (source kcSub).1 (us_Kind user)).

(** ** The cache

    [CachedUserState]: a call looks the subject up, asks the inner source on a miss,
    and stores a definite answer.  The mutex makes each access of the map one step. *)
Module Cache.

Record cachedState := mkCached { c_state : string; c_until : Z }.

(** Where a call is: before its look-up; waiting for the inner source since it was
    asked; with Keycloak's answer, given at a time, on its way; or returned at a time. *)
Inductive cacheCall : Type :=
| Started (kcSub : string)
| Asking (kcSub : string) (asked : Z)
| Answered (kcSub : string) (asked given : Z) (state : string)
| Finished (kcSub state : string) (at_ : Z).

(** The clock, the map, the calls, and what Keycloak ever answered and when. *)
Record cacheState := mkCache { ch_now : Z; ch_seen : gmap string cachedState; ch_calls : list cacheCall; ch_told : list (string * string * Z) }.

(** The look-up: a cached answer, if the entry has not run out. *)
Definition hit (ttl now : Z) (seen : gmap string cachedState) (kcSub : string) : option string :=
  if (0 <? ttl)%Z then
    match seen !! kcSub with
    | Some e => if (now <? c_until e)%Z then Some (c_state e) else None
    | None => None
    end
  else None.

(** The store after the inner call. *)
Definition remember (ttl now : Z) (kcSub state : string) (seen : gmap string cachedState) : gmap string cachedState :=
  if (0 <? ttl)%Z && negb (seqb state KCStateUnknown) then <[kcSub := mkCached state (now + ttl)]> seen else seen.

(** The inner call ends within [timeout] of its start, with an unknown state if need be. *)
Definition in_time (timeout now : Z) (c : cacheCall) : Prop :=
  match c with Asking _ asked | Answered _ asked _ _ => (now <= asked + timeout)%Z | _ => True end.

Section cache.
Context (ttl timeout : Z).

(** [CachedUserState.UserEnabled], by the calls in progress. *)
Inductive cache_step : cacheState -> cacheState -> Prop :=
| cs_time d s :
    (0 <= d)%Z -> Forall (in_time timeout (ch_now s + d)) (ch_calls s) ->
    cache_step s (mkCache (ch_now s + d) (ch_seen s) (ch_calls s) (ch_told s))
| cs_call kcSub s : cache_step s (mkCache (ch_now s) (ch_seen s) (ch_calls s ++ [Started kcSub]) (ch_told s))
| cs_hit i kcSub state s :
    ch_calls s !! i = Some (Started kcSub) -> hit ttl (ch_now s) (ch_seen s) kcSub = Some state ->
    cache_step s (mkCache (ch_now s) (ch_seen s) (<[i := Finished kcSub state (ch_now s)]> (ch_calls s)) (ch_told s))
| cs_miss i kcSub s :
    ch_calls s !! i = Some (Started kcSub) -> hit ttl (ch_now s) (ch_seen s) kcSub = None ->
    cache_step s (mkCache (ch_now s) (ch_seen s) (<[i := Asking kcSub (ch_now s)]> (ch_calls s)) (ch_told s))
| cs_inner i kcSub asked state s :
    ch_calls s !! i = Some (Asking kcSub asked) -> state ∈ [KCStateTrue; KCStateFalse; KCStateUnknown] ->
    cache_step s (mkCache (ch_now s) (ch_seen s) (<[i := Answered kcSub asked (ch_now s) state]> (ch_calls s)) (ch_told s ++ [(kcSub, state, ch_now s)]))
| cs_store i kcSub asked given state s :
    ch_calls s !! i = Some (Answered kcSub asked given state) ->
    cache_step s (mkCache (ch_now s) (remember ttl (ch_now s) kcSub state (ch_seen s)) (<[i := Finished kcSub state (ch_now s)]> (ch_calls s)) (ch_told s)).

(** The steps as a function, to run the cache. *)
Inductive move : Type := Wait (d : Z) | Begin (kcSub : string) | LookUp (i : nat) | Tell (i : nat) (state : string) | Return (i : nat).

#[local] Instance in_time_dec now c : Decision (in_time timeout now c).
Proof. destruct c; simpl; apply _. Defined.

Definition moved (m : move) (s : cacheState) : option cacheState :=
  let with_call i c := mkCache (ch_now s) (ch_seen s) (<[i := c]> (ch_calls s)) (ch_told s) in
  match m with
  | Wait d =>
      if bool_decide (0 <= d)%Z && bool_decide (Forall (in_time timeout (ch_now s + d)) (ch_calls s))
      then Some (mkCache (ch_now s + d) (ch_seen s) (ch_calls s) (ch_told s)) else None
  | Begin kcSub => Some (mkCache (ch_now s) (ch_seen s) (ch_calls s ++ [Started kcSub]) (ch_told s))
  | LookUp i =>
      match ch_calls s !! i with
      | Some (Started kcSub) =>
          Some (with_call i (match hit ttl (ch_now s) (ch_seen s) kcSub with
                             | Some state => Finished kcSub state (ch_now s)
                             | None => Asking kcSub (ch_now s)
                             end))
      | _ => None
      end
  | Tell i state =>
      match ch_calls s !! i with
      | Some (Asking kcSub asked) =>
          if bool_decide (state ∈ [KCStateTrue; KCStateFalse; KCStateUnknown])
          then Some (mkCache (ch_now s) (ch_seen s) (<[i := Answered kcSub asked (ch_now s) state]> (ch_calls s)) (ch_told s ++ [(kcSub, state, ch_now s)]))
          else None
      | _ => None
      end
  | Return i =>
      match ch_calls s !! i with
      | Some (Answered kcSub asked given state) =>
          Some (mkCache (ch_now s) (remember ttl (ch_now s) kcSub state (ch_seen s)) (<[i := Finished kcSub state (ch_now s)]> (ch_calls s)) (ch_told s))
      | _ => None
      end
  end.

Lemma moved_step m s s' : moved m s = Some s' -> cache_step s s'.
Proof.
  destruct m as [d|k|i|i st|i]; simpl.
  - destruct (_ && _) eqn:E; [|done]. apply andb_true_iff in E as [?%bool_decide_eq_true ?%bool_decide_eq_true]. intros [= <-]. by constructor.
  - intros [= <-]. constructor.
  - destruct (ch_calls s !! i) as [[k| | |]|] eqn:Ei; [|done..]. destruct (hit _ _ _ _) eqn:Eh; intros [= <-]; by econstructor.
  - destruct (ch_calls s !! i) as [[|k asked| |]|] eqn:Ei; [done| |done..]. case_bool_decide; [|done]. intros [= <-]. by econstructor.
  - destruct (ch_calls s !! i) as [[| |k asked given st|]|] eqn:Ei; [done|done| |done..]. intros [= <-]. by econstructor.
Qed.

Definition moves (ms : list move) (s : cacheState) : option cacheState := foldl (fun o m => o ≫= moved m) (Some s) ms.

Lemma moves_steps ms s s' : moves ms s = Some s' -> rtc cache_step s s'.
Proof.
  unfold moves. revert s. induction ms as [|m ms IH]; intros s; simpl; [by intros [= ->]|].
  destruct (moved m s) as [s1|] eqn:E.
  - intros H. eapply rtc_l; [by eapply moved_step|]. by apply IH.
  - clear. induction ms; [done|]. done.
Qed.

(** ** What is remembered was told *)

Definition call_fresh (s : cacheState) (c : cacheCall) : Prop :=
  match c with
  | Started _ => True
  | Asking _ asked => (asked <= ch_now s <= asked + timeout)%Z
  | Answered kcSub asked given state => (kcSub, state, given) ∈ ch_told s /\ (asked <= given <= ch_now s)%Z /\ (ch_now s <= asked + timeout)%Z
  | Finished kcSub state at_ => exists g, (kcSub, state, g) ∈ ch_told s /\ (g <= at_ <= g + Z.max 0 ttl + timeout)%Z
  end.

Record cache_ok (s : cacheState) : Prop := {
  co_seen : forall kcSub e, ch_seen s !! kcSub = Some e ->
    c_state e <> KCStateUnknown /\ exists g, (kcSub, c_state e, g) ∈ ch_told s /\ (g <= ch_now s)%Z /\ (c_until e <= g + ttl + timeout)%Z;
  co_calls : Forall (call_fresh s) (ch_calls s)
}.

Lemma call_fresh_mono s s' c :
  ch_told s ⊆ ch_told s' -> ch_now s = ch_now s' -> call_fresh s c -> call_fresh s' c.
Proof. intros Ht Hn. destruct c; simpl; rewrite <- ?Hn; [done|done|intros (? & ?); split; [by apply Ht|done]|intros (g & ? & ?); exists g; split; [by apply Ht|done]]. Qed.

Lemma cache_step_ok s s' : (0 <= timeout)%Z -> cache_step s s' -> cache_ok s -> cache_ok s'.
Proof.
  intros Htimeout Hs [Hseen Hcalls].
  assert (Hadv : forall d, (0 <= d)%Z -> forall kcSub e, ch_seen s !! kcSub = Some e ->
    c_state e <> KCStateUnknown /\ exists g, (kcSub, c_state e, g) ∈ ch_told s /\ (g <= ch_now s + d)%Z /\ (c_until e <= g + ttl + timeout)%Z).
  { intros d Hd k e He. destruct (Hseen k e He) as (? & g & ? & ? & ?). split; [done|]. exists g. split_and!; [done|lia|done]. }
  destruct Hs as [d s Hd Ht|k s|i k st s Hi Hh|i k s Hi Hh|i k asked st s Hi Hst|i k asked given st s Hi]; split; simpl; try done.
  - by apply Hadv.
  - rewrite Forall_forall in Hcalls, Ht |- *. intros c Hc. specialize (Hcalls c Hc). specialize (Ht c Hc). destruct c; simpl in *; [done|lia| |done].
    destruct Hcalls as (? & ? & ?). split_and!; [done|lia|lia|lia].
  - apply Forall_app. split; [done|]. by repeat constructor.
  - apply Forall_insert; [done|]. simpl. unfold hit in Hh. destruct (0 <? ttl)%Z eqn:E; [|done]. apply Z.ltb_lt in E.
    destruct (ch_seen s !! k) as [e|] eqn:Ee; [|done]. destruct (ch_now s <? c_until e)%Z eqn:Eu; [|done]. apply Z.ltb_lt in Eu. injection Hh as <-.
    destruct (Hseen k e Ee) as (_ & g & ? & ? & ?). exists g. split; [done|lia].
  - apply Forall_insert; [done|]. simpl. lia.
  - intros k' e He. destruct (Hseen k' e He) as (? & g & ? & ? & ?). split; [done|]. exists g. rewrite elem_of_app. eauto.
  - assert (Hc := proj1 (Forall_lookup _ _) Hcalls i _ Hi). simpl in Hc. apply Forall_insert.
    + eapply Forall_impl; [exact Hcalls|]. intros c. apply call_fresh_mono; [|done]. simpl. set_solver.
    + simpl. split; [set_solver|lia].
  - assert (Hc := proj1 (Forall_lookup _ _) Hcalls i _ Hi). simpl in Hc. destruct Hc as (Hin & Hg & Hd).
    unfold remember. destruct ((0 <? ttl)%Z && negb (seqb st KCStateUnknown)) eqn:E; [|by apply Hseen]. breakb.
    intros k' e. rewrite lookup_insert_Some. intros [[<- <-]|[_ He]]; [|by apply Hseen]. simpl. split; [done|]. exists given. split_and!; [done|lia|lia].
  - assert (Hc := proj1 (Forall_lookup _ _) Hcalls i _ Hi). simpl in Hc. destruct Hc as (Hin & Hg & Hd).
    apply Forall_insert; [exact Hcalls|]. simpl. exists given. split; [done|lia].
Qed.
End cache.
End Cache.
