(* ===== verification/IdentityHTTP.v ===== *)
(** * The identity service's HTTP surface

    internal/identity/http.go, service.go, adminauthz.go and token.go: every route as a
    program over identity's tables.  jwt.Parse, UUID parsing, the round trip to the
    authorization service and Keycloak's answers are arguments. *)

From stdpp Require Import base gmap strings list.
From S2P Require Import Prelude GoStrings TupleStore AdminClient OrgTree Org OrgHTTP ModuleKit Identity IdentityKC.

(** [Claims]; a claim that is missing is empty. *)
Record IdClaims := mkIdClaims { cl_Sub : string; cl_Email : string; cl_PreferredUsername : string }.

(** strings.ToLower on the canonical, ASCII name of a header. *)
Definition lowerChar (c : Ascii.ascii) : Ascii.ascii :=
  let n := Ascii.N_of_ascii c in if ((65 <=? n) && (n <=? 90))%N then Ascii.ascii_of_N (n + 32) else c.
Definition identityHeader (name : string) : bool := HasPrefix (map_text lowerChar name) "x-user-".

(** A request: the names of its headers, its Authorization header, and what it asks;
    a body that does not decode is [None]. *)
Inductive idBody : Type :=
| BUser (u : User)
| BState (s : UserState)
| BPolicy (p : MfaPolicy)
| BRequired (required : bool)
| BUserID (id : string)
| BOutcomes (l : list SyncOutcome)
| BHealth.
Inductive idReply : Type :=
| IdData (status : Z) (body : idBody)
| IdError (status : Z) (code detail : string).

Record setPolicyRequest := mkSetPolicy { sp_required : bool; sp_method : string }.
Inductive userRequest : Type :=
| GetPolicy
| PutPolicy (body : option setPolicyRequest)
| DeletePolicy.
Inductive idRequest : Type :=
| ReqResolve
| ReqState (kcSub : string)
| ReqGetGlobal
| ReqSetGlobal (body : option setPolicyRequest)
| ReqUser (userId : string) (r : userRequest)
| ReqSubject (kcSub : string) (r : userRequest)
| ReqSync
| ReqHealth.
Record incoming := mkIncoming { rq_names : list string; rq_auth : string }.

Definition internalError : idReply := IdError 500 "INTERNAL_ERROR" "".
Definition notFound : idReply := IdError 404 "NOT_FOUND" "".

Section handlers.
Context `{UC : Unicode} `{UT : UUIDText} (parse : string -> option IdClaims) (parseUUID : string -> option UUID).
Context (send : string -> adminWire -> option adminResponse) (parseInsecure : string -> option string) (correlationID : string).
Context (kc : forall X, list Sent -> kcRequest X -> Clients.HTTP X) (source : string -> string * option kc_error).

Abbreviation P A := (prog IdDB id_error A).

(** [bearerToken] *)
Definition bearerToken (header : string) : string :=
  if negb (HasPrefix header "Bearer ") then "" else TrimSpace (TrimPrefix header "Bearer ").

(** [TokenVerifier.Verify]; [None] is ErrTokenInvalid. *)
Definition IdVerify (bearer : string) : option IdClaims :=
  if seqb bearer "" then None
  else c ← parse bearer; if seqb (cl_Sub c) "" then None else Some c.

(** [authenticate] *)
Definition authenticate (r : incoming) : result idReply IdClaims :=
  if existsb identityHeader (rq_names r) then Err (IdError 400 "BAD_REQUEST" "")
  else
    let token := bearerToken (rq_auth r) in
    if seqb token "" then Err (IdError 401 "AUTH_TOKEN_MISSING" "")
    else match IdVerify token with Some c => Ok c | None => Err (IdError 401 "AUTH_TOKEN_INVALID" "") end.

(** [handleResolve] *)
Definition kindOf (claims : IdClaims) : string :=
  match (IsServiceAccount kc (cl_Sub claims) []).1 with Ok true => UserKindService | _ => UserKindPerson end.
Definition handleResolve (r : incoming) : P idReply :=
  match authenticate r with
  | Err e => Ret e
  | Ok c =>
      orError (ResolveOrCreate (cl_Sub c) (cl_Email c) (cl_PreferredUsername c) (kindOf c)) (fun _ => internalError) (fun u =>
      Ret (IdData 200 (BUser u)))
  end.

(** [handleUserState] *)
Definition handleUserState (kcSub : string) : P idReply :=
  orError (ResolveUserState source kcSub) (fun e => match e with ErrUserNotFound => notFound | _ => internalError end) (fun st =>
  Ret (IdData 200 (BState st))).

(** [actorFor], the [Can] of [engineAdminAuthorizer], and audit.Denial: its own
    transaction, and a failed write is ignored. *)
Definition actorOf (header : string) : string := actorFor parseInsecure header.
Definition IdentityCan (header action : string) : result auth_error bool := mapDecision (Decide send header action correlationID).
Definition auditDenial (header action subject : string) : P unit :=
  run& _ := onPool (recordEvent (mkIdEvent (actorOf header) action subject)) in Ret tt.

(** [authorize] *)
Definition authorize (header action subject : string) (next : P idReply) : P idReply :=
  match IdentityCan header action with
  | Ok true => next
  | Err (DeniedError reason) => run& _ := auditDenial header action subject in Ret (IdError 403 "AUTHORIZATION_DENIED" reason)
  | _ => run& _ := auditDenial header action subject in Ret (IdError 503 "AUTHORIZATION_UNAVAILABLE" "")
  end.

(** [writeMfaPolicyError] *)
Definition writeMfaPolicyError (e : id_error) : idReply :=
  match e with
  | ErrMfaMethodUnenforceable => IdError 422 "VALIDATION_FAILED" "method"
  | ErrMfaPolicyWeakerThanGlobal => IdError 422 "VALIDATION_FAILED" "required"
  | ErrUserNotFound => notFound
  | IdDatabase => internalError
  end.

(** [parseUserID] *)
Definition parseUserID (userId : string) (next : UUID -> P idReply) : P idReply :=
  match parseUUID userId with Some id => next id | None => Ret (IdError 400 "BAD_REQUEST" "userId") end.

Definition badBody : idReply := IdError 400 "BAD_REQUEST" "".

(** [handleGetGlobalPolicy] and [handleSetGlobalPolicy] *)
Definition handleGetGlobalPolicy : P idReply := orError GetGlobalPolicy (fun _ => internalError) (fun p => Ret (IdData 200 (BPolicy p))).
Definition handleSetGlobalPolicy (header : string) (body : option setPolicyRequest) : P idReply :=
  authorize header "identity.mfa_policy.set_global" "mfa_policy:global"
    (match body with
     | None => Ret badBody
     | Some req =>
         orError (SetGlobalPolicy (sp_required req) (sp_method req) (mkIdEvent (actorOf header) "identity.mfa_policy.set_global" "mfa_policy:global"))
           writeMfaPolicyError (fun _ => Ret (IdData 200 (BRequired (sp_required req))))
     end).

(** [handleGetUserPolicy], [handleSetUserPolicy] and [handleClearUserPolicy] *)
Definition handleGetUserPolicy (userId : string) : P idReply :=
  parseUserID userId (fun id => orError (EffectivePolicy id) writeMfaPolicyError (fun p => Ret (IdData 200 (BPolicy p)))).
Definition handleSetUserPolicy (header userId : string) (body : option setPolicyRequest) : P idReply :=
  parseUserID userId (fun id =>
  let subject := "user:" +:+ uuidString id in
  authorize header "identity.mfa_policy.set_user" subject
    (match body with
     | None => Ret badBody
     | Some req =>
         orError (SetUserPolicy id (sp_required req) (sp_method req) (mkIdEvent (actorOf header) "identity.mfa_policy.set_user" subject))
           writeMfaPolicyError (fun _ => Ret (IdData 200 (BRequired (sp_required req))))
     end)).
Definition handleClearUserPolicy (header userId : string) : P idReply :=
  parseUserID userId (fun id =>
  let subject := "user:" +:+ uuidString id in
  authorize header "identity.mfa_policy.clear_user" subject
    (orError (ClearUserPolicy id (mkIdEvent (actorOf header) "identity.mfa_policy.clear_user" subject)) writeMfaPolicyError (fun _ =>
     Ret (IdData 200 (BUserID (uuidString id)))))).

Definition userHandler (header userId : string) (r : userRequest) : P idReply :=
  match r with
  | GetPolicy => handleGetUserPolicy userId
  | PutPolicy body => handleSetUserPolicy header userId body
  | DeletePolicy => handleClearUserPolicy header userId
  end.

(** [bySubject] *)
Definition bySubject (kcSub : string) (next : string -> P idReply) : P idReply :=
  orError (GetUserByKcSub kcSub) writeMfaPolicyError (fun u => next (uuidString (us_ID u))).

(** [recordPolicyAudit]: best effort. *)
Definition recordPolicyAudit (header action subject : string) : P unit :=
  run& _ := onPool (recordEvent (mkIdEvent (actorOf header) action subject)) in Ret tt.

(** [handleSyncPolicy] *)
Definition handleSyncPolicy (header : string) : P idReply :=
  authorize header "identity.mfa_policy.sync" "mfa_policy:sync"
    (orError (SyncMfaPolicy kc) (fun _ => internalError) (fun r =>
     run& _ := recordPolicyAudit header "identity.mfa_policy.sync" "mfa_policy:sync" in
     Ret (IdData 200 (BOutcomes r.1)))).

(** [Routes] *)
Definition serveIdentity (r : incoming) (req : idRequest) : P idReply :=
  match req with
  | ReqResolve => handleResolve r
  | ReqState kcSub => handleUserState kcSub
  | ReqGetGlobal => handleGetGlobalPolicy
  | ReqSetGlobal body => handleSetGlobalPolicy (rq_auth r) body
  | ReqUser userId u => userHandler (rq_auth r) userId u
  | ReqSubject kcSub u => bySubject kcSub (fun userId => userHandler (rq_auth r) userId u)
  | ReqSync => handleSyncPolicy (rq_auth r)
  | ReqHealth => Ret (IdData 200 BHealth)
  end.
End handlers.
