(* ===== verification/IdentityProps.v ===== *)
(** * Histories of the identity service

    What each call of a request may do to identity's tables, the tables' invariant, and
    the step relation of a service whose requests interleave call by call. *)

From stdpp Require Import base gmap strings list relations sorting.
From S2P Require Import Prelude GoStrings TupleStore Clients AuthzHTTP AdminClient OrgTree Org OrgHTTP ModuleKit Identity IdentityKC IdentityHTTP.

(** ** The tables *)

(** A policy that the synchronisation can write. *)
Definition enforceable (p : MfaPolicy) : Prop := is_Some (requiredModeFor p).

Lemma enforceable_iff p : enforceable p <-> (Required p = true -> isEnforceableMfaMethod (Method p) = true).
Proof.
  unfold enforceable, requiredModeFor, isEnforceableMfaMethod. destruct (Required p); simpl; [|split; [done|by eexists]].
  rewrite bool_decide_eq_true, !elem_of_cons, elem_of_nil.
  destruct (seqb (Method p) "otp") eqn:E1; breakb; [split; [tauto|by eexists]|].
  destruct (seqb (Method p) "passkey") eqn:E2; breakb; [split; [tauto|by eexists]|].
  destruct (seqb (Method p) "otp_or_passkey") eqn:E3; breakb; [split; [tauto|by eexists]|].
  split; [by intros []|]. intros H. by destruct (H eq_refl) as [|[|[|]]].
Qed.

Record identity_tables (db : IdDB) : Prop := {
  it_sub : forall i j a b, accounts db !! i = Some a -> accounts db !! j = Some b -> ac_KcSub a = ac_KcSub b -> i = j;
  it_account : forall i a, accounts db !! i = Some a -> accountChecks a = true;
  it_global : exists g, globalPolicy db = Some g /\ enforceable (policyFromRow g);
  it_override : forall i r, overrides db !! i = Some r -> is_Some (accounts db !! i) /\ enforceable (policyFromRow r)
}.

Lemma accountBySub_Some db sub i a : accountBySub db sub = Some (i, a) -> accounts db !! i = Some a /\ ac_KcSub a = sub.
Proof. apply (find_where_Some (fun r => ac_KcSub r = sub)). Qed.
Lemma accountBySub_None db sub : accountBySub db sub = None <-> forall i a, accounts db !! i = Some a -> ac_KcSub a <> sub.
Proof. apply (find_where_None (fun r => ac_KcSub r = sub)). Qed.

Lemma accountBySub_found db i a : identity_tables db -> accounts db !! i = Some a -> accountBySub db (ac_KcSub a) = Some (i, a).
Proof.
  intros Hdb Hi. destruct (accountBySub db (ac_KcSub a)) as [[j b]|] eqn:E.
  - apply accountBySub_Some in E as [Hj Hs]. pose proof (it_sub db Hdb j i b a Hj Hi Hs) as ->. by simplify_eq.
  - by destruct (proj1 (accountBySub_None db _) E i a Hi).
Qed.

(** ** What a call may do *)

Definition noted (ev : IdEvent) (db : IdDB) : IdDB := with_idAudit (fun l => l ++ [ev]) db.

(** [own]: the claims of the caller, where the route uses them; [service]: Keycloak
    names the caller as a client's service account; [may]: the caller is an
    administrator, whose subject the audit rows name. *)
Inductive id_effect (own : option IdClaims) (service may : Prop) (actor : string) (db : IdDB) : IdDB -> Prop :=
| ef_none : id_effect own service may actor db db
| ef_note action subject : id_effect own service may actor db (noted (mkIdEvent actor action subject) db)
| ef_account c id lifecycle kind :
    own = Some c ->
    (exists a, accountBySub db (cl_Sub c) = Some (id, a) /\ ac_Lifecycle a = lifecycle) \/
      (accountBySub db (cl_Sub c) = None /\ accounts db !! id = None /\ lifecycle = "active") ->
    kind = UserKindPerson \/ kind = UserKindService /\ service -> lifecycle ∈ ["active"; "disabled"] ->
    id_effect own service may actor db
      (with_accounts (<[id := mkAccount (cl_Sub c) (StrOrNil (cl_Email c)) (StrOrNil (cl_PreferredUsername c)) lifecycle kind]>) db)
| ef_global required method :
    may -> enforceable (mkPolicy required method) ->
    id_effect own service may actor db
      (noted (mkIdEvent actor "identity.mfa_policy.set_global" "mfa_policy:global")
         (with_global (if globalPolicy db then Some (policyRow required method) else None) db))
| ef_override id g required method subject :
    may -> enforceable (mkPolicy required method) -> is_Some (accounts db !! id) -> globalPolicy db = Some g ->
    (mfaPolicyRank (policyFromRow g) <= mfaPolicyRank (mkPolicy required method))%Z ->
    id_effect own service may actor db
      (noted (mkIdEvent actor "identity.mfa_policy.set_user" subject) (with_overrides (<[id := policyRow required method]>) db))
| ef_clear id subject :
    may -> is_Some (accounts db !! id) ->
    id_effect own service may actor db (noted (mkIdEvent actor "identity.mfa_policy.clear_user" subject) (with_overrides (delete id) db)).

(** A call of a request. *)
Definition id_call (own : option IdClaims) (service may : Prop) (actor : string) (X : Type) (c : call IdDB id_error X) : Prop :=
  match c in call _ _ X with
  | @Transact _ _ X m => forall env db a db', m env db = Ok (a, db') -> id_effect own service may actor db db'
  | _ => False
  end.

Section calls.
Context (own : option IdClaims) (service may : Prop) (actor : string).
Abbreviation served := (calls (id_call own service may actor)).

Lemma served_inTx {A} (m : UUID -> IdTx A) :
  (forall n db a db', m n db = Ok (a, db') -> id_effect own service may actor db db') -> served (inTx m).
Proof. intros Hm. split; [|done]. simpl. intros env db a db'. destruct (tx_broken env); [done|]. apply Hm. Qed.

Lemma served_onPool {A} (m : IdTx A) : (forall db a db', m db = Ok (a, db') -> db' = db) -> served (onPool m).
Proof. intros Hm. apply served_inTx. intros _ db a db' ->%Hm. constructor. Qed.

Lemma served_read {A} (f : IdDB -> A) : served (onPool (read f)).
Proof. apply served_onPool. by intros db a db' [= _ <-]. Qed.

Lemma served_note action subject : served (onPool (recordEvent (mkIdEvent actor action subject))).
Proof. apply served_inTx. intros _ db a db' [= _ <-]. by apply ef_note. Qed.

Lemma requireUser_ok id db u db' : requireUser id db = Ok (u, db') -> is_Some (accounts db !! id) /\ db' = db.
Proof.
  unfold requireUser. rewrite tbind_ok. intros (row & s & [= <- <-] & H). destruct (accounts db !! id); [|done]. injection H as _ <-. eauto.
Qed.

Lemma served_getUser kcSub : served (GetUserByKcSub kcSub).
Proof. apply calls_poolBind; [apply served_read|]. by intros [[]|]. Qed.

Lemma served_global : served GetGlobalPolicy.
Proof. apply calls_poolBind; [apply served_read|]. by intros []. Qed.

Lemma served_effective id : served (EffectivePolicy id).
Proof.
  apply calls_poolBind; [apply served_read|]. intros [r|]; [done|]. apply calls_poolBind; [|intros _; apply served_global].
  apply served_onPool. by intros db a db' [_ ?]%requireUser_ok.
Qed.

Lemma served_list : served ListEffectivePolicies.
Proof. apply calls_poolBind; [apply served_read|]. intros rows. apply calls_poolBind; [apply served_global|]. done. Qed.

Lemma not_unenforceable required method :
  required && negb (isEnforceableMfaMethod method) = false -> enforceable (mkPolicy required method).
Proof. intros H. apply enforceable_iff. simpl. intros ->. by destruct (isEnforceableMfaMethod method). Qed.

Lemma served_setGlobal required method subject :
  may -> subject = "mfa_policy:global" ->
  served (SetGlobalPolicy required method (mkIdEvent actor "identity.mfa_policy.set_global" subject)).
Proof.
  intros Hm ->. unfold SetGlobalPolicy. destruct (required && _) eqn:E; [done|]. apply served_inTx. intros _ db a db'.
  rewrite tbind_ok. intros (u & s & Hs & [= _ <-]). unfold SetGlobalMfaPolicy in Hs.
  enough (s = with_global (if globalPolicy db then Some (policyRow required method) else None) db) as -> by (apply ef_global; [done|by apply not_unenforceable]).
  destruct db as [acc [g|] ov au]; simpl in Hs; [destruct (methodCheck _); [|done]|]; by injection Hs as _ <-.
Qed.

Lemma setUserPolicyTx_ok id required method ev db u db' :
  setUserPolicyTx id required method ev db = Ok (u, db') ->
  is_Some (accounts db !! id) /\ (exists g, globalPolicy db = Some g /\ (mfaPolicyRank (policyFromRow g) <= mfaPolicyRank (mkPolicy required method))%Z) /\
  db' = noted ev (with_overrides (<[id := policyRow required method]>) db).
Proof.
  unfold setUserPolicyTx. rewrite tbind_ok. intros (x & s & [Ha ->]%requireUser_ok & H). split; [done|].
  apply tbind_ok in H as (g0 & s1 & [= <- <-] & H). destruct (globalPolicy db) as [g|] eqn:Eg; [|done].
  destruct (_ <? _)%Z eqn:Er; [done|]. apply Z.ltb_ge in Er. apply tbind_ok in H as (y & s2 & H & [= _ <-]).
  unfold UpsertUserMfaPolicy in H. destruct (_ && _); [|done]. injection H as _ <-. eauto.
Qed.

Lemma served_setUser id required method subject :
  may -> served (SetUserPolicy id required method (mkIdEvent actor "identity.mfa_policy.set_user" subject)).
Proof.
  intros Hm. unfold SetUserPolicy. destruct (required && _) eqn:E; [done|]. apply served_inTx.
  intros _ db a db' (Ha & (g & Hg & Hr) & ->)%setUserPolicyTx_ok. eapply ef_override; eauto using not_unenforceable.
Qed.

Lemma served_clear id subject : may -> served (ClearUserPolicy id (mkIdEvent actor "identity.mfa_policy.clear_user" subject)).
Proof.
  intros Hm. apply served_inTx. intros _ db a db'. rewrite tbind_ok. intros (x & s & [Ha ->]%requireUser_ok & H).
  apply tbind_ok in H as (y & s2 & [= _ <-] & [= _ <-]). by apply ef_clear.
Qed.

Lemma accountChecks_true a : accountChecks a = true <-> ac_Lifecycle a ∈ ["active"; "disabled"] /\ ac_Kind a ∈ [UserKindPerson; UserKindService].
Proof. unfold accountChecks. by rewrite andb_true_iff, !bool_decide_eq_true. Qed.

Lemma UpsertUserAccount_ok n sub email pu kind db r db' :
  UpsertUserAccount n sub email pu kind db = Ok (r, db') ->
  exists lifecycle,
    ((exists a, accountBySub db sub = Some (r.1, a) /\ ac_Lifecycle a = lifecycle) \/ (accountBySub db sub = None /\ r.1 = n /\ accounts db !! n = None /\ lifecycle = "active")) /\
    kind ∈ [UserKindPerson; UserKindService] /\ lifecycle ∈ ["active"; "disabled"] /\
    r.2 = mkAccount sub email pu lifecycle kind /\ db' = with_accounts (<[r.1 := r.2]>) db.
Proof.
  unfold UpsertUserAccount. destruct (accountBySub db sub) as [[i a]|] eqn:E.
  - destruct (accountChecks _) eqn:Ec; [|done]. apply accountChecks_true in Ec as [? ?]. intros [= <- <-]. exists (ac_Lifecycle a). eauto 10.
  - destruct (accounts db !! n) eqn:En; [done|]. destruct (accountChecks _) eqn:Ec; [|done]. apply accountChecks_true in Ec as [? ?].
    intros [= <- <-]. exists "active". eauto 10.
Qed.

Lemma served_resolve c kind :
  own = Some c -> kind = UserKindPerson \/ kind = UserKindService /\ service -> served (ResolveOrCreate (cl_Sub c) (cl_Email c) (cl_PreferredUsername c) kind).
Proof.
  intros Ho Hkind. unfold ResolveOrCreate. replace (if seqb kind "" then UserKindPerson else kind) with kind by by destruct Hkind as [->|[-> _]].
  apply calls_poolBind; [|done]. apply served_inTx. intros n db r db' (l & Hl & Hk & Hc & -> & ->)%UpsertUserAccount_ok.
  eapply ef_account; [exact Ho| |done..]. destruct Hl as [Hl|(? & -> & ? & ->)]; eauto.
Qed.
End calls.

(** ** The calls of a request *)

Section requests.
Context `{UC : Unicode} `{UT : UUIDText} (parse : string -> option IdClaims) (parseUUID : string -> option UUID).
Context (send : string -> adminWire -> option adminResponse) (parseInsecure : string -> option string) (correlationID : string).
Context (kc : forall X, list Sent -> kcRequest X -> Clients.HTTP X) (source : string -> string * option kc_error).

(** Somebody the authorization service takes for a superadmin, and the claims a request
    acts on. *)
Definition id_admin (header : string) : Prop := exists action, IdentityCan send correlationID header action = Ok true.
Definition own_claims (r : incoming) (req : idRequest) : option IdClaims :=
  match req, authenticate parse r with ReqResolve, Ok c => Some c | _, _ => None end.

(** Keycloak answers that the subject is some client's service account. *)
Definition vouched (own : option IdClaims) : Prop :=
  exists c log token client, own = Some c /\ kc _ log (ServiceUserRequest token client) = Ok (mkResponse 200 (Some (cl_Sub c))).

Lemma anyServiceUser_true kcSub clients log log' :
  anyServiceUser kc kcSub clients log = (true, log') ->
  exists log0 token client, kc _ log0 (ServiceUserRequest token client) = Ok (mkResponse 200 (Some kcSub)).
Proof.
  revert log. induction clients as [|cl rest IH]; intros log; simpl; [done|]. unfold withToken, orKc, kcBind, kcRet.
  destruct (token kc log) as [[t|e] log1]; [|apply IH]. unfold getJSON, ask, kcBind, kcRet.
  destruct (kc _ log1 (ServiceUserRequest t cl)) as [[code body]|e] eqn:E; simpl; [|apply IH].
  unfold expectOK, Clients.decoded. simpl. destruct (Z.eqb_spec code StatusOK) as [->|]; [|apply IH]. destruct body as [id|]; simpl; [|apply IH].
  destruct (seqb id kcSub) eqn:Es; [|apply IH]. apply seqb_true in Es as ->. eauto.
Qed.

Lemma kindOf_vouched c : kindOf kc c = UserKindPerson \/ kindOf kc c = UserKindService /\ vouched (Some c).
Proof.
  unfold kindOf, IsServiceAccount, orKc, kcBind, kcRet. destruct (getUser kc (cl_Sub c) []) as [[u|e] log]; [|by left].
  destruct (HasPrefix _ _); [|by left]. simpl. destruct (withToken _ _ log) as [[cs|e] log1]; [|by left].
  destruct (anyServiceUser kc (cl_Sub c) cs log1) as [[] log2] eqn:E; [|by left]. simpl. right. split; [done|].
  apply anyServiceUser_true in E as (log0 & t & cl & E). by exists c, log0, t, cl.
Qed.

Abbreviation serve := (serveIdentity parse parseUUID send parseInsecure correlationID kc source).
Abbreviation actor header := (actorOf parseInsecure header).

Lemma served_adminGate own service header action subject next :
  (id_admin header -> calls (id_call own service (id_admin header) (actor header)) next) ->
  calls (id_call own service (id_admin header) (actor header)) (authorize send parseInsecure correlationID header action subject next).
Proof.
  intros Hn. unfold authorize, auditDenial.
  assert (Hd : forall k : idReply, calls (id_call own service (id_admin header) (actor header)) (bind (onPool (recordEvent (mkIdEvent (actorOf parseInsecure header) action subject))) (fun _ => Ret (A := idReply) k))).
  { intros k. apply calls_bind; [apply served_note|done]. }
  destruct (IdentityCan _ _ _ _) as [[]|[]] eqn:E; [apply Hn; by exists action|by apply Hd..].
Qed.

Lemma served_parseUserID own service header userId next :
  (forall id, calls (id_call own service (id_admin header) (actor header)) (next id)) ->
  calls (id_call own service (id_admin header) (actor header)) (parseUserID parseUUID userId next).
Proof. intros Hn. unfold parseUserID. by destruct (parseUUID userId). Qed.

Lemma served_userHandler own service header userId u :
  calls (id_call own service (id_admin header) (actor header)) (userHandler parseUUID send parseInsecure correlationID header userId u).
Proof.
  destruct u as [|[req|]|]; cbn [userHandler]; apply served_parseUserID; intros id.
  - apply calls_orError; [apply served_effective|done].
  - apply served_adminGate. intros Ha. apply calls_orError; [by apply served_setUser|done].
  - by apply served_adminGate.
  - apply served_adminGate. intros Ha. apply calls_orError; [by apply served_clear|done].
Qed.

Lemma serveIdentity_calls r req :
  calls (id_call (own_claims r req) (vouched (own_claims r req)) (id_admin (rq_auth r)) (actor (rq_auth r))) (serve r req).
Proof.
  destruct req as [|kcSub| |[req|]|userId u|kcSub u| |]; cbn [serveIdentity]; try done.
  - unfold handleResolve, own_claims. destruct (authenticate parse r) as [c|e]; [|done].
    apply calls_orError; [|done]. apply served_resolve; [done|apply kindOf_vouched].
  - apply calls_orError; [|done]. apply calls_poolBind; [apply served_getUser|done].
  - apply calls_orError; [apply served_global|done].
  - apply served_adminGate. intros Ha. apply calls_orError; [by apply served_setGlobal|done].
  - by apply served_adminGate.
  - apply served_userHandler.
  - apply calls_orError; [apply served_getUser|]. intros x. apply served_userHandler.
  - apply served_adminGate. intros _. apply calls_orError; [apply calls_poolBind; [apply served_list|done]|]. intros x.
    apply calls_bind; [|done]. apply calls_bind; [apply served_note|done].
Qed.
End requests.

(** ** The invariant *)

Lemma policyFromRow_row required method : policyFromRow (policyRow required method) = mkPolicy required method.
Proof. unfold policyFromRow, policyRow. simpl. by rewrite Deref_StrOrNil. Qed.

Lemma noted_tables ev db : identity_tables db -> identity_tables (noted ev db).
Proof. by intros []. Qed.

Lemma id_effect_tables own service may actor db db' : id_effect own service may actor db db' -> identity_tables db -> identity_tables db'.
Proof.
  intros He Hdb. destruct He as [|action subject|c id l k Ho Hid Hk Hl|required method Hm Hen|id g required method subject Hm Hen Ha Hg Hr|id subject Hm Ha];
    [done|by apply noted_tables| |apply noted_tables..].
  - destruct Hdb as [H1 H2 H3 H4]. split; simpl.
    + assert (Hsub : forall i a, accounts db !! i = Some a -> ac_KcSub a = cl_Sub c -> i = id).
      { intros i a Hi Hs. destruct Hid as [(b & [Hb Hbs]%accountBySub_Some & _)|(Hn & _)]; [eapply H1; [exact Hi|exact Hb|congruence]|].
        by destruct (proj1 (accountBySub_None _ _) Hn i a Hi). }
      intros i j a b. rewrite !lookup_insert_Some. intros [[<- <-]|[Hi Ha]] [[<- <-]|[Hj Hb]]; simpl; [done| | |by eapply H1].
      * intros Hs. symmetry. by eapply Hsub.
      * intros Hs. by eapply Hsub.
    + intros i a. rewrite lookup_insert_Some. intros [[_ <-]|[_ Ha]]; [|by eapply H2]. apply accountChecks_true. split; [done|]. destruct Hk as [->|[-> _]]; simpl; set_solver.
    + done.
    + intros i r Hr. destruct (H4 i r Hr) as [Hx ?]. split; [|done]. destruct (decide (i = id)) as [->|Hne]; [by rewrite lookup_insert_eq|by rewrite lookup_insert_ne].
  - destruct Hdb as [H1 H2 H3 H4]. split; simpl; [done..| |done]. destruct H3 as (g & -> & _). eexists. split; [done|]. by rewrite policyFromRow_row.
  - destruct Hdb as [H1 H2 H3 H4]. split; simpl; [done..|]. intros i r [[<- <-]|[_ Hi]]%lookup_insert_Some; [|by apply H4]. by rewrite policyFromRow_row.
  - destruct Hdb as [H1 H2 H3 H4]. split; simpl; [done..|]. intros i r [_ Hi]%lookup_delete_Some. by apply H4.
Qed.

(** ** Identity in service *)

Section service.
Context `{UC : Unicode} `{UT : UUIDText} (parse : string -> option IdClaims) (parseUUID : string -> option UUID).
Context (send : string -> adminWire -> option adminResponse) (parseInsecure : string -> option string) (correlationID : string).
Context (verify : string -> option Claims) (uuid_ok : string -> bool) (authz : Service -> Prop).

Abbreviation serve kc source := (serveIdentity parse parseUUID send parseInsecure correlationID kc source).
Abbreviation IW := (MWorld IdDB).
Abbreviation pool := (list (prog IdDB id_error idReply) * IW)%type.

Definition at_id (w : IW) (db : IdDB) : IW := mkMWorld db (w_authz w) (w_sent w).

(** Requests in progress, whatever Keycloak answers to each; the installation's seeded
    superadmin; an operator who enables or disables an account. *)
Inductive id_step : pool -> pool -> Prop :=
| id_arrive ps w kc source r req : id_step (ps, w) (ps ++ [serve kc source r req], w)
| id_goes i ps w X (c : call IdDB id_error X) k x w' :
    ps !! i = Some (Call c k) -> exec verify uuid_ok authz c w x w' -> id_step (ps, w) (<[i := k x]> ps, w')
| id_seed ps w newID kcSub email preferredUsername u db :
    SeedSuperadmin newID kcSub email preferredUsername (w_store w) = Ok (u, db) -> id_step (ps, w) (ps, at_id w db)
| id_operator ps w id lifecycle :
    lifecycle ∈ ["active"; "disabled"] ->
    id_step (ps, w) (ps, at_id w (with_accounts (alter (fun a => mkAccount (ac_KcSub a) (ac_Email a) (ac_PreferredUsername a) lifecycle (ac_Kind a)) id) (w_store w))).

Definition id_servedBy (p : prog IdDB id_error idReply) : Prop := exists own service may actor, calls (id_call own service may actor) p.

Lemma exec_id own service may actor X (c : call IdDB id_error X) w x w' :
  id_call own service may actor X c -> exec verify uuid_ok authz c w x w' ->
  id_effect own service may actor (w_store w) (w_store w') /\ w_authz w' = w_authz w /\ w_sent w' = w_sent w.
Proof.
  destruct c; simpl; try done. intros Hm [env Hx]. destruct (m env (w_store w)) as [[a db]|e] eqn:E; destruct Hx as [-> ->]; simpl; [eauto|].
  split; [constructor|done].
Qed.

Lemma seeded_effect newID kcSub email pu u db db' :
  SeedSuperadmin newID kcSub email pu db = Ok (u, db') -> id_effect (Some (mkIdClaims kcSub email pu)) False False "" db db'.
Proof.
  unfold SeedSuperadmin. rewrite tbind_ok. intros (r & s & H & [= _ <-]). apply UpsertUserAccount_ok in H as (l & Hl & Hk & Hc & -> & ->).
  eapply (ef_account _ _ _ _ _ (mkIdClaims kcSub email pu)); [done| |by left|done]. destruct Hl as [?|(? & -> & ? & ->)]; simpl; eauto.
Qed.

Lemma operator_tables id lifecycle db :
  lifecycle ∈ ["active"; "disabled"] -> identity_tables db ->
  identity_tables (with_accounts (alter (fun a => mkAccount (ac_KcSub a) (ac_Email a) (ac_PreferredUsername a) lifecycle (ac_Kind a)) id) db).
Proof.
  intros Hl [H1 H2 H3 H4]. set (f a := mkAccount _ _ _ lifecycle _). split; simpl; [| |done|].
  - assert (Hal : forall i a, alter f id (accounts db) !! i = Some a -> exists a0, accounts db !! i = Some a0 /\ ac_KcSub a0 = ac_KcSub a).
    { intros i a [[<- (a0 & ? & ->)]|[_ ?]]%lookup_alter_Some; eauto. }
    intros i j a b (a0 & Ha & <-)%Hal (b0 & Hb & <-)%Hal. by apply H1.
  - intros i a [[<- (a0 & Ha & ->)]|[_ Ha]]%lookup_alter_Some; [|by eapply H2]. apply accountChecks_true. split; [done|].
    by apply H2, accountChecks_true in Ha as [_ ?].
  - intros i r Hr. by rewrite lookup_alter_is_Some; apply H4.
Qed.

Definition id_in_order (s : pool) : Prop := Forall id_servedBy s.1 /\ identity_tables (w_store s.2).

Lemma id_step_order s s' : id_step s s' -> id_in_order s -> id_in_order s'.
Proof.
  intros Hs [Hps Hdb]. destruct Hs as [ps w kc source r req|i ps w X c k x w' Hi Hx|ps w n sub em pu u db Hsd|ps w id l Hl]; simpl in *.
  - split; [|done]. apply Forall_app. split; [done|]. constructor; [|constructor]. do 4 eexists. apply serveIdentity_calls.
  - destruct (proj1 (Forall_lookup _ _) Hps i _ Hi) as (own & sv & may & ac & Hc & Hk). destruct (exec_id own sv may ac X c w x w' Hc Hx) as [He _].
    split; [|by eapply id_effect_tables]. apply Forall_insert; [done|]. by exists own, sv, may, ac.
  - split; [done|]. eapply id_effect_tables; [by eapply seeded_effect|done].
  - split; [done|]. by apply operator_tables.
Qed.

Lemma id_steps_order s s' : rtc id_step s s' -> id_in_order s -> id_in_order s'.
Proof. induction 1; eauto using id_step_order. Qed.
End service.

Lemma idMigrated_tables : identity_tables idMigrated.
Proof. split; simpl; try (intros *; by rewrite lookup_empty). exists (mkPolicyRow false None). split; [done|by eexists]. Qed.
