(* ===== verification/IdentityClaims.v ===== *)
(** * The identity service's theorems

    Who changes accounts and policies, the invariant of the tables, what the
    synchronisation writes, and how old a cached answer may be.  The examples are runs
    in which the code does less than its comments say. *)

From stdpp Require Import base gmap strings list relations sorting.
From S2P Require Import Prelude GoStrings Tuple TupleStore Decision Clients AuthzHTTP AuthzProps AuthzClaims AdminClient OrgTree Org OrgHTTP OrgProps OrgClaims OrgHTTPProps ModuleKit.
From S2P Require Import Identity IdentityKC IdentityHTTP IdentityProps.

(** ** Who changes what *)

Lemma id_effect_mono own service may may' actor db db' :
  (may -> may') -> id_effect own service may actor db db' -> id_effect own service may' actor db db'.
Proof. intros Hm []; econstructor; eauto. Qed.

(** C36: who changes accounts and policies.  Let every 200 the administration client sees
    come from the authorization service.  Whatever happens between the calls of a
    request, each of its steps leaves the tables as they were; or writes one audit row
    naming the bearer's subject; or, when the request resolves its caller, writes the
    one account of the verified bearer's own subject, with the bearer's claims, its
    lifecycle as it was, and as a service account only if Keycloak named it as one; or
    changes one policy, together with its audit row, while the bearer is a superadmin,
    to one that can be enforced and, for a user, is no weaker than the global one. *)
Theorem identity_authorized `{UC : Unicode} `{UT : UUIDText} parse parseUUID send parseInsecure correlationID kc source verify uuid_ok authz during between r req w steps a w' :
  authz_backed verify during send ->
  run verify uuid_ok authz between (serveIdentity parse parseUUID send parseInsecure correlationID kc source r req) w steps a w' ->
  Forall (fun s => id_effect (own_claims parse r req) (vouched kc (own_claims parse r req)) (superadmin_now verify during (rq_auth r))
                     (actorOf parseInsecure (rq_auth r)) (w_store s.1) (w_store s.2)) steps.
Proof.
  intros Hback Hr. pose proof (run_calls verify uuid_ok authz _ _ _ _ _ _ _ Hr (serveIdentity_calls parse parseUUID send parseInsecure correlationID kc source r req)) as Hf.
  eapply Forall_impl; [exact Hf|]. intros [w1 w2] (X & c & x & Hc & Hx). simpl.
  eapply id_effect_mono; [|exact (proj1 (exec_id verify uuid_ok authz _ _ _ _ _ _ _ _ _ Hc Hx))].
  intros (action & (d & Hd & Ha & _)%mapDecision_ok). by eapply Decide_allowed.
Qed.

(** Identity's tables.  In every state that requests, interleaved call by call and
    with whatever Keycloak answers, the seeded superadmin and operators who enable or
    disable accounts reach from the migrated tables: no two accounts have the same
    Keycloak subject, every account's lifecycle and kind are of the known ones, there is
    a global policy, every override is an account's, and every policy can be enforced. *)
Theorem identity_tables_hold `{UC : Unicode} `{UT : UUIDText} parse parseUUID send parseInsecure correlationID verify uuid_ok authz aw sent ps w :
  rtc (id_step parse parseUUID send parseInsecure correlationID verify uuid_ok authz) ([], mkMWorld idMigrated aw sent) (ps, w) ->
  identity_tables (w_store w).
Proof. intros Hs. apply id_steps_order in Hs as [_ ?]; [done|]. split; [constructor|apply idMigrated_tables]. Qed.

(** ** Synchronisation *)

(** An account's policy: its override, or the global one. *)
Definition effective (db : IdDB) (id : UUID) : option MfaPolicy :=
  match overrides db !! id, accounts db !! id with
  | Some r, _ => Some (policyFromRow r)
  | None, Some _ => policyFromRow <$> globalPolicy db
  | None, None => None
  end.

(** The requests of one attempt to write an account's mode, after [log]: nothing but its
    own user is updated, and with nothing but the mode's attribute changed; the attempt
    is a success exactly when its update was sent and accepted. *)
Section sync.
Context (kc : forall X, list Sent -> kcRequest X -> HTTP X).

Definition accepted (r : HTTP unit) : Prop := exists code body, r = Ok (mkResponse code body) /\ (code = 200 \/ code = 204)%Z.

Definition attempt (log seg : list Sent) (sub mode : string) (success : bool) : Prop :=
  (forall t s u, mkSent (UpdateRequest t s u) ∈ seg -> s = sub /\ exists log' t' user,
     kc _ log' (UserRequest t' sub) = Ok (mkResponse 200 (Some user)) /\ u = withAttribute RequiredModeAttribute mode user) /\
  (success = true <-> exists t t' user pre, seg = pre ++ [mkSent (UpdateRequest t' sub (withAttribute RequiredModeAttribute mode user))] /\
     mkSent (UserRequest t sub) ∈ pre /\ accepted (kc _ (log ++ pre) (UpdateRequest t' sub (withAttribute RequiredModeAttribute mode user)))).

Inductive attempts (db : IdDB) : list Sent -> list (UUID * Account) -> list SyncOutcome -> list Sent -> Prop :=
| at_nil log : attempts db log [] [] log
| at_cons log i a p mode success seg rest os log' :
    effective db i = Some p -> requiredModeFor p = Some mode -> attempt log seg (ac_KcSub a) mode success ->
    attempts db (log ++ seg) rest os log' ->
    attempts db log ((i, a) :: rest) (mkOutcome i (ac_KcSub a) (Required p) mode success :: os) log'.

(** ** The requests an attempt makes *)

Definition update_of (x : Sent) : option (string * string * kcUser) :=
  match s_request x with UpdateRequest t s u => Some (t, s, u) | _ => None end.

Lemma getJSON_sends {X} (r : kcRequest X) log :
  exists res, getJSON kc r log = (res, log ++ [mkSent r]) /\ forall x, res = Ok x -> kc _ log r = Ok (mkResponse 200 (Some x)).
Proof.
  unfold getJSON, ask, kcBind, kcRet. eexists. split; [reflexivity|]. intros x. destruct (kc _ log r) as [[code body]|e]; simpl; [|done].
  unfold expectOK, Clients.decoded. simpl. destruct (Z.eqb_spec code StatusOK) as [->|]; [|done]. destruct body; simpl; [by intros [= ->]|done].
Qed.

Lemma token_sends log : exists res, token kc log = (res, log ++ [mkSent TokenRequest]).
Proof.
  destruct (getJSON_sends TokenRequest log) as (res & E & _). unfold token, orKc, kcBind, kcRet. rewrite E. destruct res; by eexists.
Qed.

Lemma getUser_sends sub log :
  exists res seg, getUser kc sub log = (res, log ++ seg) /\ Forall (fun x => update_of x = None) seg /\
    forall u, res = Ok u -> exists log' t, kc _ log' (UserRequest t sub) = Ok (mkResponse 200 (Some u)) /\ mkSent (UserRequest t sub) ∈ seg.
Proof.
  unfold getUser, withToken, orKc, kcBind. destruct (token_sends log) as [[t|e] ->].
  - destruct (getJSON_sends (UserRequest t sub) (log ++ [mkSent TokenRequest])) as (res & -> & Hu). exists res, [mkSent TokenRequest; mkSent (UserRequest t sub)].
    rewrite <- app_assoc. split; [done|]. split; [by repeat constructor|]. intros u Hres%Hu. do 2 eexists. split; [exact Hres|]. right. left.
  - exists (Err e), [mkSent TokenRequest]. split; [done|]. split; [by repeat constructor|done].
Qed.

Lemma no_updates log seg sub mode : Forall (fun x => update_of x = None) seg -> attempt log seg sub mode false.
Proof.
  intros Hs. rewrite Forall_forall in Hs. split; [|split; [done|]].
  - intros t s u Hin. by specialize (Hs _ Hin).
  - intros (t & t' & user & pre & -> & _). specialize (Hs (mkSent (UpdateRequest t' sub (withAttribute RequiredModeAttribute mode user)))).
    rewrite elem_of_app in Hs. by discriminate Hs; right; left.
Qed.

Lemma SetUserAttribute_attempt sub mode log r log' :
  SetUserAttribute kc sub RequiredModeAttribute mode log = (r, log') -> exists seg, log' = log ++ seg /\ attempt log seg sub mode (is_ok r).
Proof.
  unfold SetUserAttribute, orKc at 1, kcBind. destruct (getUser_sends sub log) as (res & seg & -> & Hseg & Hu).
  destruct res as [u|e]; [|intros [= <- <-]; exists seg; split; [done|by apply no_updates]].
  destruct (Hu u eq_refl) as (logu & t & Hgot & Hasked). unfold updateUser, withToken, orKc, kcBind, kcRet. destruct (token_sends (log ++ seg)) as [[t'|e] ->].
  - unfold ask. rewrite <- (assoc_L app log). set (up := mkSent (UpdateRequest t' sub (withAttribute RequiredModeAttribute mode u))).
    intros [= <- <-]. exists ((seg ++ [mkSent TokenRequest]) ++ [up]). rewrite <- (assoc_L app log). split; [done|].
    rewrite Forall_forall in Hseg. split.
    + intros t1 s1 u1. rewrite !elem_of_app, !list_elem_of_singleton. intros [[Hin%Hseg|E]|E]; [done|by apply (f_equal update_of) in E|].
      apply (f_equal update_of) in E. injection E as -> -> ->. eauto 10.
    + split.
      * intros Hok. exists t, t', u, (seg ++ [mkSent TokenRequest]). split; [done|]. split; [rewrite elem_of_app; by left|].
        unfold accepted. destruct (kc unit _ _) as [[code body]|]; [|done]. exists code, body. split; [done|]. simpl in Hok.
        destruct (Z.eqb_spec code 204), (Z.eqb_spec code 200); simpl in Hok; [lia..|done].
      * intros (t1 & t2 & user & pre & E & _ & Hac). apply app_inj_2 in E as [<- E]; [|done].
        apply (f_equal (fun l => head l ≫= update_of)) in E. injection E as <- Hwa. rewrite <- Hwa in Hac.
        destruct Hac as (code & body & Hac & Hcode). rewrite Hac. simpl. by destruct Hcode as [->| ->].
  - intros [= <- <-]. exists (seg ++ [mkSent TokenRequest]). rewrite <- (assoc_L app). split; [done|]. apply no_updates, Forall_app. split; [done|by repeat constructor].
Qed.
End sync.

(** ** Requests that run alone *)

Section alone.
Context (verify : string -> option Claims) (uuid_ok : string -> bool) (authz : Service -> Prop).
Abbreviation alone := (alone verify uuid_ok authz).

Lemma alone_onPool {A} (m : IdTx A) w (Q : result id_error A -> MWorld IdDB -> Prop) :
  Q (Err IdDatabase) w -> (match m (w_store w) with Ok (a, db) => Q (Ok a) (at_id w db) | Err e => Q (Err e) w end) ->
  alone (onPool m) w Q.
Proof.
  intros He Hm x w' [env Hx]. simpl. destruct (tx_broken env); [by destruct Hx as [-> ->]|].
  destruct (m (w_store w)) as [[a db]|e]; by destruct Hx as [-> ->].
Qed.

Lemma alone_poolRead {A} (f : IdDB -> A) w (Q : result id_error A -> MWorld IdDB -> Prop) :
  Q (Err IdDatabase) w -> Q (Ok (f (w_store w))) w -> alone (onPool (read f)) w Q.
Proof. intros He Hf. apply alone_onPool; [done|]. simpl. by destruct w. Qed.

Lemma alone_GetGlobalPolicy w (Q : result id_error MfaPolicy -> MWorld IdDB -> Prop) :
  identity_tables (w_store w) -> Q (Err IdDatabase) w -> (forall g, globalPolicy (w_store w) = Some g -> Q (Ok (policyFromRow g)) w) ->
  alone GetGlobalPolicy w Q.
Proof.
  intros Hdb He Hg. apply alone_poolBind, alone_poolRead; [done|]. destruct (it_global _ Hdb) as (g & E & _). rewrite E. simpl. by apply Hg.
Qed.

Lemma EffectivePolicy_alone id w :
  identity_tables (w_store w) ->
  alone (EffectivePolicy id) w (fun r w' => w' = w /\
    (r = Err IdDatabase \/ r = match effective (w_store w) id with Some p => Ok p | None => Err ErrUserNotFound end)).
Proof.
  intros Hdb. apply alone_poolBind, alone_poolRead; [eauto|]. unfold effective. destruct (overrides (w_store w) !! id) as [r|] eqn:Eo; [simpl; eauto|].
  apply alone_poolBind, alone_onPool; [eauto|]. unfold requireUser, tbind, GetUserAccountByID, read. destruct (accounts (w_store w) !! id) eqn:Ea; simpl; [|eauto].
  replace (at_id w (w_store w)) with w by by destruct w. apply alone_GetGlobalPolicy; [done|eauto|]. intros g ->. eauto.
Qed.

Lemma ListEffectivePolicies_alone w Q :
  identity_tables (w_store w) -> Q (Err IdDatabase) w ->
  (forall g, globalPolicy (w_store w) = Some g ->
     Q (Ok ((fun kv => mkInput kv.1 (ac_KcSub kv.2) (match overrides (w_store w) !! kv.1 with Some row => policyFromRow row | None => policyFromRow g end))
            <$> accountsByID (w_store w))) w) ->
  alone ListEffectivePolicies w Q.
Proof.
  intros Hdb He Hg. apply alone_poolBind, alone_poolRead; [done|]. apply alone_poolBind, alone_GetGlobalPolicy; [done..|]. intros g E. simpl.
  rewrite <- list_fmap_compose. by apply Hg.
Qed.
End alone.

Lemma accountsByID_lookup db i a : (i, a) ∈ accountsByID db <-> accounts db !! i = Some a.
Proof. unfold accountsByID. by rewrite merge_sort_Permutation, elem_of_map_to_list. Qed.

Lemma syncAll_attempts kc db g accts log os log' :
  identity_tables db -> globalPolicy db = Some g -> (forall kv, kv ∈ accts -> accounts db !! kv.1 = Some kv.2) ->
  syncAll kc ((fun kv => mkInput kv.1 (ac_KcSub kv.2) (match overrides db !! kv.1 with Some row => policyFromRow row | None => policyFromRow g end)) <$> accts) log = (os, log') ->
  attempts kc db log accts os log'.
Proof.
  intros Hdb Hg. revert log os. induction accts as [|[i a] accts IH]; intros log os Hin; simpl; [intros [= <- <-]; constructor|].
  pose proof (Hin (i, a) (list_elem_of_here _ _)) as Ha. simpl in Ha. set (p := match overrides db !! i with Some row => policyFromRow row | None => _ end).
  assert (Hp : effective db i = Some p). { unfold effective. subst p. destruct (overrides db !! i); [done|]. by rewrite Ha, Hg. }
  assert (Hen : enforceable p). { subst p. destruct (overrides db !! i) eqn:E; [by eapply it_override|]. destruct (it_global _ Hdb) as (g' & Hg' & ?). by simplify_eq. }
  destruct Hen as [mode Hmode]. unfold kcBind at 1, syncOne. simpl. rewrite Hmode. unfold kcBind, kcRet.
  destruct (SetUserAttribute kc (ac_KcSub a) RequiredModeAttribute mode log) as [r log1] eqn:Es.
  destruct (SetUserAttribute_attempt kc _ _ _ _ _ Es) as (seg & -> & Hat).
  destruct (syncAll kc _ (log ++ seg)) as [os1 log2] eqn:Ea. intros [= <- <-]. econstructor; [done..|]. apply IH; [|done]. intros kv Hkv. apply Hin. by right.
Qed.

Lemma sync_performed kc verify uuid_ok an f n w :
  (forall i, tx_broken (an_env an i) = false) -> identity_tables (w_store w) ->
  is_ok (perform verify uuid_ok an f n (SyncMfaPolicy kc) w).1.1 = true.
Proof.
  intros Hb Hdb. destruct (it_global _ Hdb) as (g & E & _). cbn. rewrite Hb. cbn. rewrite Hb. cbn. rewrite E. done.
Qed.

(** C37: what a synchronisation writes and reports.  Run with nothing in between, it makes
    one attempt for each account, in the order of their ids and whatever the attempts
    before came to; an account's outcome carries the policy that a request for it
    answers, and the mode the authenticator reads for that policy, which always exists;
    an attempt updates no user but its own and changes nothing of it but the mode's
    attribute; and an outcome is a success exactly when its update was sent and
    accepted.  With no failing statement it does report. *)
Theorem policy_sync kc verify uuid_ok authz an f n w :
  identity_tables (w_store w) ->
  alone verify uuid_ok authz (SyncMfaPolicy kc) w (fun r w' => w' = w /\
    match r with
    | Ok (outcomes, sent) => attempts kc (w_store w) [] (accountsByID (w_store w)) outcomes sent
    | Err e => e = IdDatabase
    end) /\
  (forall id, alone verify uuid_ok authz (EffectivePolicy id) w (fun r w' => w' = w /\
     (r = Err IdDatabase \/ r = match effective (w_store w) id with Some p => Ok p | None => Err ErrUserNotFound end))) /\
  ((forall i, tx_broken (an_env an i) = false) -> is_ok (perform verify uuid_ok an f n (SyncMfaPolicy kc) w).1.1 = true).
Proof.
  intros Hdb. split_and!; [|intros id; by apply EffectivePolicy_alone|intros Hb; by apply sync_performed].
  apply alone_poolBind, ListEffectivePolicies_alone; [done..|]. intros g Hg. simpl. split; [done|].
  destruct (syncAll kc _ []) as [os log] eqn:E. eapply syncAll_attempts; [done..| |exact E].
  intros [i a] Hin. by apply accountsByID_lookup.
Qed.

(** ** The cache *)

(** C38: how old a cached answer is.  However the calls interleave, and however long each
    takes up to the client's timeout, what a call returns about a subject was answered
    by Keycloak at most the cache's time and one timeout before.  So from that long
    after Keycloak's last positive answer on, no call returns that the account is
    enabled. *)
Theorem cached_state_fresh ttl timeout now s i kcSub state at_ :
  (0 <= timeout)%Z ->
  rtc (Cache.cache_step ttl timeout) (Cache.mkCache now ∅ [] []) s ->
  Cache.ch_calls s !! i = Some (Cache.Finished kcSub state at_) ->
  (exists g, (kcSub, state, g) ∈ Cache.ch_told s /\ (g <= at_ <= g + Z.max 0 ttl + timeout)%Z) /\
  (forall last, (forall g, (kcSub, KCStateTrue, g) ∈ Cache.ch_told s -> (g <= last)%Z) -> (last + Z.max 0 ttl + timeout < at_)%Z -> state <> KCStateTrue).
Proof.
  intros Ht Hs Hi. assert (Hok : Cache.cache_ok ttl timeout s).
  { assert (H0 : Cache.cache_ok ttl timeout (Cache.mkCache now ∅ [] [])) by (split; simpl; [intros k e; by rewrite lookup_empty|constructor]).
    revert H0. clear Hi. induction Hs; [done|]. eauto using Cache.cache_step_ok. }
  pose proof (proj1 (Forall_lookup _ _) (Cache.co_calls _ _ _ Hok) i _ Hi) as (g & Hg & Hage). split; [by exists g|].
  intros last Hlast Hlate ->. specialize (Hlast g Hg). lia.
Qed.

(** ** Witnesses *)

Section witnesses.
#[local] Existing Instance demoUnicode.
#[local] Existing Instance demoUUIDText.

(** ann is a superadmin. *)
Definition idAdmins : Service := demoService {[SuperadminTuple "ann"]}.
Definition idSend : string -> adminWire -> option adminResponse := sendTo idAdmins.

Definition idParse (token : string) : option IdClaims := Some (mkIdClaims token (token +:+ "@acme") token).
Definition idParseUUID (s : string) : option UUID :=
  if seqb s (uuidString 0) then Some 0%N else if seqb s (uuidString 1) then Some 1%N else None.
Definition idUser (name : string) : kcUser := {["username" := AString name; "attributes" := AMap {["locale" := AList [AString "de"]]}]}.

(** Keycloak refuses to update bob. *)
Definition idKc (X : Type) (log : list Sent) (r : kcRequest X) : HTTP X :=
  match r in kcRequest X return HTTP X with
  | TokenRequest => Ok (mkResponse 200 (Some "t"))
  | EnabledRequest _ _ => Ok (mkResponse 200 (Some (Some true)))
  | UserRequest _ sub => Ok (mkResponse 200 (Some (idUser sub)))
  | UpdateRequest _ sub _ => Ok (mkResponse (if seqb sub "bob" then 500 else 204)%Z None)
  | ClientsRequest _ _ => Ok (mkResponse 200 (Some []))
  | ServiceUserRequest _ _ => Ok (mkResponse 404 None)
  end.
Definition idSource (_ : string) : string * option kc_error := (KCStateTrue, None).

Definition idAnswers : Answers :=
  mkAnswers (fun n => mkTxEnv false (fun _ => false) (Z.of_nat n) (fun _ => N.of_nat n)) (demoService ∅) (fun _ => false) (fun _ => true) (fun _ => false)
    (fun _ _ => None) (fun _ => None) (fun _ => None) (fun _ => None) (fun _ => None) (fun _ => None) (fun _ => true).
Abbreviation idPerform := (perform demoVerify demoUUID idAnswers noFaults).
Abbreviation idInterleave := (interleave demoVerify demoUUID idAnswers noFaults).
Definition idServe (bearer : string) (req : idRequest) : prog IdDB id_error idReply :=
  serveIdentity idParse idParseUUID idSend Some "" idKc idSource (mkIncoming ["Authorization"] ("Bearer " +:+ bearer)) req.
Definition idWorld (db : IdDB) : MWorld IdDB := mkMWorld db (mkWorld (mkDB ∅ [] ∅) []) [].

(** ann and bob resolve themselves, and ann requires a second factor of everyone. *)
Definition idRequests : list (prog IdDB id_error idReply) :=
  [idServe "ann" ReqResolve; idServe "bob" ReqResolve; idServe "ann" (ReqSetGlobal (Some (mkSetPolicy true "otp")))].
Definition idBusy := idInterleave [0; 1; 2]%nat 0 (idRequests, idWorld idMigrated).

Lemma idPerform_run {A} n (p : prog IdDB id_error A) w :
  let res := idPerform n p w in run demoVerify demoUUID (fun _ => True) eq p w res.1.2 res.1.1 res.2.
Proof. intros res. apply (perform_run _ _ _ idAnswers noFaults n); [exact I|]. fold res. by destruct res as [[]]. Qed.

Abbreviation idStep := (id_step idParse idParseUUID idSend Some "" demoVerify demoUUID (fun _ => True)).

Lemma idArrived ps w r req : idStep (ps, w) (ps ++ [serveIdentity idParse idParseUUID idSend Some "" idKc idSource r req], w).
Proof. apply id_arrive. Qed.
Lemma idCalls sched n s : rtc idStep s (idInterleave sched n s).
Proof. apply (interleave_steps _ _ (fun _ => True)); [|exact I]. intros i ps w X c k x w' Hi Hx. by eapply id_goes. Qed.

Lemma idBusy_reached : rtc idStep ([], idWorld idMigrated) idBusy.
Proof. do 3 (eapply rtc_l; [apply idArrived|]). exact (idCalls [0; 1; 2]%nat 0 (idRequests, idWorld idMigrated)). Qed.

Lemma identity_tables_hold_witness :
  idBusy.1 = [Ret (IdData 200 (BUser (mkUser 0 "ann" "ann@acme" "ann" "active" "person")));
              Ret (IdData 200 (BUser (mkUser 1 "bob" "bob@acme" "bob" "active" "person"))); Ret (IdData 200 (BRequired true))] /\
  identity_tables (w_store idBusy.2).
Proof.
  split; [vm_compute; reflexivity|].
  apply (identity_tables_hold idParse idParseUUID idSend Some "" demoVerify demoUUID (fun _ => True) (mkWorld (mkDB ∅ [] ∅) []) [] idBusy.1 idBusy.2).
  rewrite <- surjective_pairing. exact idBusy_reached.
Defined.

Definition idSet := idPerform 0 (idServe "ann" (ReqSetGlobal (Some (mkSetPolicy true "otp")))) (idWorld idMigrated).

Lemma identity_authorized_witness :
  globalPolicy (w_store idSet.2) = Some (mkPolicyRow true (Some "otp")) /\
  Forall (fun s => id_effect None (vouched idKc None) (superadmin_now demoVerify (eq idAdmins) "Bearer ann") "ann" (w_store s.1) (w_store s.2)) idSet.1.2.
Proof.
  split; [vm_compute; reflexivity|].
  apply (identity_authorized idParse idParseUUID idSend Some "" idKc idSource demoVerify demoUUID (fun _ => True) (eq idAdmins) eq
    (mkIncoming ["Authorization"] "Bearer ann") (ReqSetGlobal (Some (mkSetPolicy true "otp"))) (idWorld idMigrated) idSet.1.2 idSet.1.1 idSet.2 (sendTo_backed idAdmins)).
  exact (idPerform_run 0 _ (idWorld idMigrated)).
Defined.

Lemma idBusy_tables : identity_tables (w_store idBusy.2).
Proof. destruct (id_steps_order _ _ _ _ _ _ _ _ _ _ idBusy_reached) as [_ H]; [split; [constructor|apply idMigrated_tables]|exact H]. Qed.

Lemma policy_sync_witness :
  match (idPerform 0 (SyncMfaPolicy idKc) idBusy.2).1.1 with
  | Ok (outcomes, sent) => outcomes = [mkOutcome 0 "ann" true "otp_required" true; mkOutcome 1 "bob" true "otp_required" false] /\ length sent = 8%nat
  | Err _ => False
  end /\
  is_ok (idPerform 0 (SyncMfaPolicy idKc) idBusy.2).1.1 = true.
Proof.
  split; [vm_compute; split; reflexivity|].
  exact (proj2 (proj2 (policy_sync idKc demoVerify demoUUID (fun _ => True) idAnswers noFaults 0 idBusy.2 idBusy_tables)) (fun _ => eq_refl)).
Defined.

(** ** What the code lets through *)

(** Raising the global policy leaves weaker overrides: a user who may log in with a
    one-time password still may, although the platform now requires a passkey. *)
Definition idRaised := (idInterleave [0; 1; 2]%nat 1
  ([idServe "ann" (ReqUser (uuidString 0) (PutPolicy (Some (mkSetPolicy true "otp")))); idServe "ann" (ReqSetGlobal (Some (mkSetPolicy true "passkey")));
    idServe "ann" (ReqUser (uuidString 0) GetPolicy)], idBusy.2)).
Example global_raise_leaves_override :
  idRaised.1 = [Ret (IdData 200 (BRequired true)); Ret (IdData 200 (BRequired true)); Ret (IdData 200 (BPolicy (mkPolicy true "otp")))] /\
  (mfaPolicyRank (mkPolicy true "otp") < mfaPolicyRank (mkPolicy true "passkey"))%Z.
Proof. split; vm_compute; reflexivity. Qed.

(** A method that is not one of the three is a 422 when it is required, and otherwise
    the table's CHECK and a 500. *)
Example optional_method_unchecked :
  (idPerform 0 (idServe "ann" (ReqSetGlobal (Some (mkSetPolicy true "sms")))) (idWorld idMigrated)).1.1 = IdError 422 "VALIDATION_FAILED" "method" /\
  (idPerform 0 (idServe "ann" (ReqSetGlobal (Some (mkSetPolicy false "sms")))) (idWorld idMigrated)).1.1 = internalError.
Proof. split; vm_compute; reflexivity. Qed.

(** One call's positive answer is on its way while a second learns that the account is
    disabled; the first returns last and its answer is what the cache keeps.  A third
    call, more than the cache's five seconds after the disable was seen, still returns
    that the account is enabled. *)
Definition staleCalls : list Cache.cacheCall :=
  [Cache.Finished "bob" KCStateTrue 4; Cache.Finished "bob" KCStateFalse 1; Cache.Finished "bob" KCStateTrue 8].
Definition staleTold : list (string * string * Z) := [("bob", KCStateTrue, 0%Z); ("bob", KCStateFalse, 1%Z)].
Definition staleCache : Cache.cacheState :=
  Cache.mkCache 8 (<["bob" := Cache.mkCached KCStateTrue 9]> (<["bob" := Cache.mkCached KCStateFalse 6]> ∅)) staleCalls staleTold.

Definition staleMoves : list Cache.move :=
  let ask := [Cache.Begin "bob"] in
  ask ++ [Cache.LookUp 0; Cache.Tell 0 KCStateTrue; Cache.Wait 1] ++
  ask ++ [Cache.LookUp 1; Cache.Tell 1 KCStateFalse; Cache.Return 1; Cache.Wait 3; Cache.Return 0; Cache.Wait 4] ++
  ask ++ [Cache.LookUp 2].

Lemma stale_reached : rtc (Cache.cache_step 5 10) (Cache.mkCache 0 ∅ [] []) staleCache.
Proof. apply (Cache.moves_steps 5 10 staleMoves). vm_compute. reflexivity. Qed.

Example stale_true_outlives_ttl :
  rtc (Cache.cache_step 5 10) (Cache.mkCache 0 ∅ [] []) staleCache /\ ("bob", KCStateFalse, 1%Z) ∈ staleTold /\
  Cache.Finished "bob" KCStateTrue 8 ∈ staleCalls /\ (1 + 5 < 8)%Z.
Proof. split_and!; [exact stale_reached|right; left|right; right; left|lia]. Qed.

Lemma cached_state_fresh_witness :
  (0 <= 10)%Z /\ exists g, ("bob", KCStateTrue, g) ∈ staleTold /\ (g <= 8 <= g + Z.max 0 5 + 10)%Z.
Proof.
  split; [lia|]. exact (proj1 (cached_state_fresh 5 10 0 staleCache 2 "bob" KCStateTrue 8 ltac:(lia) stale_reached eq_refl)).
Defined.
End witnesses.
