(* ===== verification/Summary.v ===== *)
(** * The effective-access summary

    internal/authz/summary.go: what the shell shows of a user's rights, composed from
    decisions, engine checks and the user's direct tuples.  A question is asked of the
    services as they are at that moment: [at_ i] is the service at the i-th one. *)

From stdpp Require Import base gmap strings list sorting.
From S2P Require Import Prelude Model Tuple Eval EvalSpec EvalProofs Engine Fragment TupleStore Decision DecisionProps Clients AuthzHTTP AuthzProps AuthzClaims.

Definition summarySuperadminFeatureKey : string := "auth.platform_administration.access".
Definition summarySuperadminRole : string := "kiban-superadmin".
Definition summaryCompanyRelations : list string := ["admin"; "viewer"].

(** sort.Strings: by bytes. *)
Definition byteLe (a b : string) : Prop := String.leb a b = true.
#[export] Instance byteLe_dec : RelDecision byteLe := fun a b => decide (String.leb a b = true).
Definition sortStrings (l : list string) : list string := merge_sort byteLe l.

Inductive roleBinding : Type :=
| GlobalRole (role : string)
| CompanyRole (companyID role : string).
#[export] Instance roleBinding_eq_dec : EqDecision roleBinding.
Proof. solve_decision. Defined.

(** [ObjectRelation], and an entry of the listing. *)
Record ObjectRelation := mkObjectRelation { or_type : string; or_id : string; or_relation : string }.
Record objectEntry := mkObjectEntry { oe_type : string; oe_id : string; oe_relations : list string }.

Inductive summaryReply : Type :=
| SummaryBadRequest
| SummaryInternalError
| SummaryData (subjectId companyId : string) (featureKeys : list string) (roleBindings : list roleBinding) (objectAccess : list objectEntry).

(** [ListDirectTuplesForSubject]; [byColumns] is ORDER BY object_type, object_id,
    relation in the database's collation. *)
Definition ListDirectTuplesForSubject (byColumns : list ObjectRelation -> list ObjectRelation) (tbl : Table) (subjectType subjectID : string) : list ObjectRelation :=
  byColumns ((fun t => mkObjectRelation (ObjectType t) (ObjectID t) (Relation t)) <$>
    filter (fun t => SubjectType t = subjectType /\ SubjectID t = subjectID /\ SubjectRelation t = "") (elements tbl)).

(** One turn of [summaryObjectAccess]'s loop, and the function. *)
Definition groupOne (acc : list (string * string) * gmap (string * string) (list string)) (t : ObjectRelation) : list (string * string) * gmap (string * string) (list string) :=
  let k := (or_type t, or_id t) in
  (if bool_decide (is_Some (acc.2 !! k)) then acc.1 else acc.1 ++ [k], <[k := default [] (acc.2 !! k) ++ [or_relation t]]> acc.2).
Definition summaryObjectAccess (rows : list ObjectRelation) : list objectEntry :=
  let acc := foldl groupOne ([], ∅) rows in
  (fun k => mkObjectEntry k.1 k.2 (default [] (acc.2 !! k))) <$> acc.1.

Section summary.
Context (at_ : nat -> Service) (loaded : Loaded).

Definition isAllowed (d : AccessDecision) : bool := bool_decide (Why d = ReasonAllowed).

Definition superadminRequest (kcSub : string) : Request :=
  mkRequest kcSub summarySuperadminFeatureKey "" ScopeGlobal "" summarySuperadminRole false "" (mkRef "" "") "" false "".
Definition moduleRequest (kcSub companyID moduleKey : string) : Request :=
  mkRequest kcSub (moduleKey +:+ ".access") moduleKey ScopeCompany companyID "" false "" (mkRef "" "") "" false "".

(** The modules of a company's part, in the order they are asked about. *)
Definition enabledModules (known : gmap string bool) : list string :=
  sortStrings ((filter (fun kv => kv.2 = true) (map_to_list known)).*1).

(** [summaryFeatureKeys] *)
Definition summaryFeatureKeys (kcSub companyID : string) : list string :=
  let keys := if isAllowed (Evaluate (serviceDeps (at_ 1) loaded) (superadminRequest kcSub)) then [summarySuperadminFeatureKey] else [] in
  if seqb companyID "" then keys
  else match svc_KnownEnabled (at_ 2) with
       | Err _ => keys
       | Ok known =>
           keys ++ concat (imap (fun j m =>
             if isAllowed (Evaluate (serviceDeps (at_ (3 + j)) loaded) (moduleRequest kcSub companyID m)) then [m +:+ ".access"] else [])
             (enabledModules known))
       end.

Definition holdsRole (r : result dep_error bool) : bool := match r with Ok b => b | Err _ => false end.

(** [summaryRoleBindings], from its [n]-th question on. *)
Definition summaryRoleBindings (n : nat) (kcSub companyID : string) : list roleBinding :=
  (if holdsRole (enginePlatformRole (svc_db (at_ n)) loaded kcSub summarySuperadminRole) then [GlobalRole summarySuperadminRole] else []) ++
  if seqb companyID "" then []
  else concat (imap (fun j role =>
    if holdsRole (checkerCheck (svc_db (at_ (n + 1 + j))) loaded "company" companyID role "user" kcSub) then [CompanyRole companyID role] else [])
    summaryCompanyRelations).
End summary.

(** [handleSummary]; [listing] is what the query of the direct tuples answers. *)
Definition handleSummary (at_ : nat -> Service) (n : nat) (listing : string -> result dep_error (list ObjectRelation)) (kcSub companyID : string) : summaryReply :=
  if seqb kcSub "" then SummaryBadRequest
  else match effectiveEngine (at_ 0) with
       | None => SummaryInternalError
       | Some loaded =>
           match listing kcSub with
           | Err _ => SummaryInternalError
           | Ok rows => SummaryData kcSub companyID (summaryFeatureKeys at_ loaded kcSub companyID) (summaryRoleBindings at_ loaded n kcSub companyID) (summaryObjectAccess rows)
           end
       end.

(** ** Grouping *)

Definition keyOf (t : ObjectRelation) : string * string := (or_type t, or_id t).

Lemma grouped rows :
  let acc := foldl groupOne ([], ∅) rows in
  NoDup acc.1 /\ (forall k, k ∈ acc.1 <-> is_Some (acc.2 !! k)) /\ (forall k, is_Some (acc.2 !! k) <-> k ∈ (keyOf <$> rows)) /\
  (forall k, default [] (acc.2 !! k) = or_relation <$> filter (fun t => keyOf t = k) rows).
Proof.
  induction rows as [|t rows IH] using rev_ind; simpl.
  { split; [constructor|]. split; [|split]; intros k; rewrite ?lookup_empty; simpl; rewrite ?elem_of_nil; split; try done; by intros []. }
  rewrite foldl_snoc. set (acc := foldl groupOne ([], ∅) rows) in *. destruct IH as (Hnd & Hin & Hrow & Hrel).
  unfold groupOne. fold (keyOf t). simpl. split; [|split; [|split]].
  - case_bool_decide as H; [done|]. apply NoDup_app. split_and!; [done| |apply NoDup_singleton].
    intros k Hk ->%list_elem_of_singleton. by apply H, Hin.
  - intros k. setoid_rewrite lookup_insert_is_Some'. rewrite <- (Hin k). case_bool_decide as H; [apply Hin in H|]; set_solver.
  - intros k. setoid_rewrite lookup_insert_is_Some'. rewrite fmap_app, elem_of_app, (Hrow k). set_solver.
  - intros k. rewrite filter_app, fmap_app, <- Hrel, filter_cons, filter_nil. destruct (decide (keyOf t = k)) as [<-|Hne]; simpl.
    + by rewrite lookup_insert_eq.
    + rewrite lookup_insert_ne by done. by rewrite app_nil_r.
Qed.

(** Each object once, with its relations in the order of the rows. *)
Lemma summaryObjectAccess_spec rows :
  NoDup ((fun e => (oe_type e, oe_id e)) <$> summaryObjectAccess rows) /\
  forall e, e ∈ summaryObjectAccess rows <->
    (oe_type e, oe_id e) ∈ (keyOf <$> rows) /\ oe_relations e = or_relation <$> filter (fun t => keyOf t = (oe_type e, oe_id e)) rows.
Proof.
  destruct (grouped rows) as (Hnd & Hin & Hrow & Hrel). unfold summaryObjectAccess. set (acc := foldl groupOne ([], ∅) rows) in *. split.
  - rewrite <- list_fmap_compose. eapply NoDup_fmap_2_strong; [|exact Hnd]. by intros [] [] _ _ [= -> ->].
  - intros e. rewrite list_elem_of_fmap. split.
    + intros (k & -> & Hk). simpl. rewrite <- surjective_pairing, <- Hrow, <- Hin, <- Hrel. done.
    + intros [Hk He]. exists (oe_type e, oe_id e). simpl. rewrite Hrel, <- He. split; [by destruct e|]. by apply Hin, Hrow.
Qed.

Section direct.
Context (byColumns : list ObjectRelation -> list ObjectRelation) (Hby : forall l, byColumns l ≡ₚ l).

Lemma direct_rows tbl st si r :
  r ∈ ListDirectTuplesForSubject byColumns tbl st si <-> mkTuple (or_type r) (or_id r) (or_relation r) st si "" ∈ tbl.
Proof.
  unfold ListDirectTuplesForSubject. rewrite (Hby _), list_elem_of_fmap. setoid_rewrite list_elem_of_filter. setoid_rewrite elem_of_elements. split.
  - intros ([] & -> & (Ht & Hi & Hr) & Hin). simpl in *. by subst.
  - intros Hin. eexists. split; [|split; [|exact Hin]]; [by destruct r|done].
Qed.

Lemma direct_rows_NoDup tbl st si : NoDup (ListDirectTuplesForSubject byColumns tbl st si).
Proof.
  unfold ListDirectTuplesForSubject. rewrite (Hby _). eapply NoDup_fmap_2_strong; [|apply NoDup_filter, NoDup_elements].
  intros [] [] (H1 & _)%list_elem_of_filter (H2 & _)%list_elem_of_filter [= -> -> ->]. simpl in *. naive_solver.
Qed.

(** The objects shown are those the subject has a direct tuple on, each once and each
    relation once. *)
Lemma summary_objects tbl st si :
  let objs := summaryObjectAccess (ListDirectTuplesForSubject byColumns tbl st si) in
  NoDup ((fun e => (oe_type e, oe_id e)) <$> objs) /\
  (forall t i r, (exists e, e ∈ objs /\ oe_type e = t /\ oe_id e = i /\ r ∈ oe_relations e) <-> mkTuple t i r st si "" ∈ tbl) /\
  forall e, e ∈ objs -> oe_relations e <> [] /\ NoDup (oe_relations e).
Proof.
  intros objs. unfold objs. clear objs. set (rows := ListDirectTuplesForSubject _ _ _ _).
  destruct (summaryObjectAccess_spec rows) as [Hnd Hin]. split; [done|]. split.
  - intros t i r. pose proof (direct_rows tbl st si (mkObjectRelation t i r)) as Hr. fold rows in Hr. simpl in Hr. rewrite <- Hr. split.
    + intros (e & [_ He]%Hin & <- & <- & Hre). rewrite He, list_elem_of_fmap in Hre. destruct Hre as ([] & -> & [[= -> ->] Hrow]%list_elem_of_filter). done.
    + intros Hrow. exists (mkObjectEntry t i (or_relation <$> filter (fun x => keyOf x = (t, i)) rows)). split.
      * apply Hin. simpl. split; [|done]. apply list_elem_of_fmap. by exists (mkObjectRelation t i r).
      * split_and!; [done..|]. simpl. apply list_elem_of_fmap. exists (mkObjectRelation t i r). split; [done|]. by apply list_elem_of_filter.
  - intros e [Hk He]%Hin. rewrite He. split.
    + apply list_elem_of_fmap in Hk as (x & Hx & Hrow). intros Hnil%fmap_nil_inv. apply (not_elem_of_nil x). rewrite <- Hnil. by apply list_elem_of_filter.
    + eapply NoDup_fmap_2_strong; [|apply NoDup_filter, direct_rows_NoDup].
      intros [] [] [H1 _]%list_elem_of_filter [H2 _]%list_elem_of_filter ?. unfold keyOf in *. simpl in *. naive_solver.
Qed.
End direct.

(** ** Features *)

Lemma isAllowed_granted deps req : isAllowed (Evaluate deps req) = true <-> access_granted (E := dep_error) deps req.
Proof.
  destruct (Evaluate_decides deps req) as [Ho _]. rewrite <- gates_granted, <- first_stop_pass, <- Ho. unfold isAllowed, outcome.
  rewrite bool_decide_eq_true. by destruct (Why _).
Qed.

Section features.
Context (at_ : nat -> Service) (l : Loaded).

Lemma imap_concat_elem {A B} (f : nat -> A -> list B) xs y : y ∈ concat (imap f xs) <-> exists j x, xs !! j = Some x /\ y ∈ f j x.
Proof.
  rewrite list_elem_of_In, in_concat. setoid_rewrite <- list_elem_of_In. setoid_rewrite elem_of_lookup_imap. naive_solver.
Qed.

Lemma enabledModules_elem known m : m ∈ enabledModules known <-> known !! m = Some true.
Proof.
  unfold enabledModules, sortStrings. rewrite merge_sort_Permutation, list_elem_of_fmap. setoid_rewrite list_elem_of_filter. split.
  - intros ([k b] & -> & [Hb Hin]). simpl in *. subst. by apply elem_of_map_to_list.
  - intros H. exists (m, true). split; [done|]. split; [done|]. by apply elem_of_map_to_list.
Qed.

(** A feature key is shown exactly when the decision of its moment allows it. *)
Lemma feature_shown kcSub companyID key :
  key ∈ summaryFeatureKeys at_ l kcSub companyID <->
    key = summarySuperadminFeatureKey /\ access_granted (serviceDeps (at_ 1) l) (superadminRequest kcSub) \/
    companyID <> "" /\ exists known j m, svc_KnownEnabled (at_ 2) = Ok known /\ enabledModules known !! j = Some m /\ key = m +:+ ".access" /\
      access_granted (serviceDeps (at_ (3 + j)) l) (moduleRequest kcSub companyID m).
Proof.
  unfold summaryFeatureKeys. setoid_rewrite <- isAllowed_granted.
  set (adm := isAllowed (Evaluate _ (superadminRequest kcSub))).
  assert (Hadm : key ∈ (if adm then [summarySuperadminFeatureKey] else []) <-> key = summarySuperadminFeatureKey /\ adm = true) by (destruct adm; set_solver).
  destruct (seqb companyID "") eqn:Hc; [apply seqb_true in Hc|apply seqb_false in Hc]; [rewrite Hadm; naive_solver|].
  destruct (svc_KnownEnabled (at_ 2)) as [known|e]; [|rewrite Hadm; naive_solver].
  rewrite elem_of_app, Hadm, imap_concat_elem. apply or_iff_compat_l. split.
  - intros (j & m & Hj & Hk). destruct (isAllowed (Evaluate _ (moduleRequest _ _ m))) eqn:Ha; [|by apply elem_of_nil in Hk]. apply list_elem_of_singleton in Hk.
    split; [exact Hc|]. exists known, j, m. split_and!; [reflexivity|exact Hj|exact Hk|exact Ha].
  - intros (_ & known' & j & m & [= <-] & Hj & -> & Ha). exists j, m. split; [exact Hj|]. rewrite Ha. left.
Qed.

Lemma role_shown n kcSub companyID b :
  b ∈ summaryRoleBindings at_ l n kcSub companyID ->
  (exists i, b = GlobalRole summarySuperadminRole /\ enginePlatformRole (svc_db (at_ i)) l kcSub summarySuperadminRole = Ok true) \/
  exists i role, b = CompanyRole companyID role /\ role ∈ summaryCompanyRelations /\ checkerCheck (svc_db (at_ i)) l "company" companyID role "user" kcSub = Ok true.
Proof.
  unfold summaryRoleBindings. intros [Hb|Hb]%elem_of_app; [left|right].
  - destruct (enginePlatformRole _ _ _ _) as [[]|] eqn:E; cbn in Hb; [|by apply elem_of_nil in Hb..].
    apply list_elem_of_singleton in Hb. by exists n.
  - destruct (seqb companyID ""); [by apply elem_of_nil in Hb|]. apply imap_concat_elem in Hb as (j & role & Hj & Hb).
    destruct (checkerCheck _ _ _ _ _ _ _) as [[]|] eqn:E; cbn in Hb; [|by apply elem_of_nil in Hb..].
    apply list_elem_of_singleton in Hb. exists (n + 1 + j), role. split_and!; [done| |done]. by eapply list_elem_of_lookup_2.
Qed.
End features.

(** C16: what the summary shows.  Let each engine question be answered from the tuples of
    its moment.  A feature is shown exactly when the decision made for it allows it: the
    administration of the platform, or access to an enabled module of the company
    asked about; a platform role or a company role shown is one the tuples of that
    moment declare; and the objects shown are those the user has a direct tuple on, each
    once, with all and only the relations of its tuples, each once. *)
Theorem summary_shows at_ n listing kcSub companyID tables tbl byColumns sub c keys roles objs :
  (forall i, clean_table (tables i) /\ db_answers (tables i) True (svc_db (at_ i))) -> nul_free companyID ->
  (forall l, byColumns l ≡ₚ l) -> listing kcSub = Ok (ListDirectTuplesForSubject byColumns tbl "user" kcSub) ->
  handleSummary at_ n listing kcSub companyID = SummaryData sub c keys roles objs ->
  exists l, effectiveEngine (at_ 0) = Some l /\ sub = kcSub /\ c = companyID /\
    (forall key, key ∈ keys <->
       key = summarySuperadminFeatureKey /\ access_granted (serviceDeps (at_ 1) l) (superadminRequest kcSub) \/
       companyID <> "" /\ exists known j m, svc_KnownEnabled (at_ 2) = Ok known /\ enabledModules known !! j = Some m /\ key = m +:+ ".access" /\
         access_granted (serviceDeps (at_ (3 + j)) l) (moduleRequest kcSub companyID m)) /\
    (forall b, b ∈ roles -> exists i, match b with
       | GlobalRole r => r = summarySuperadminRole /\ grants (LModel l) (tables i) "user" kcSub "" "system" SystemPlatformID "superadmin"
       | CompanyRole c' r => c' = companyID /\ r ∈ summaryCompanyRelations /\ grants (LModel l) (tables i) "user" kcSub "" "company" companyID r
       end) /\
    NoDup ((fun e => (oe_type e, oe_id e)) <$> objs) /\
    (forall t i r, (exists e, e ∈ objs /\ oe_type e = t /\ oe_id e = i /\ r ∈ oe_relations e) <-> mkTuple t i r "user" kcSub "" ∈ tbl) /\
    forall e, e ∈ objs -> oe_relations e <> [] /\ NoDup (oe_relations e).
Proof.
  intros Htab Hn Hby Hlist. unfold handleSummary. destruct (seqb kcSub ""); [done|]. destruct (effectiveEngine (at_ 0)) as [l|]; [|done]. rewrite Hlist.
  intros H. injection H as <- <- <- <- <-. exists l. do 3 (split; [done|]). split; [apply feature_shown|]. split; [|by apply summary_objects].
  intros b Hb. apply role_shown in Hb as [(i & -> & He)|(i & role & -> & Hr & He)]; exists i; destruct (Htab i) as [Hcl Hdb].
  - split; [done|]. exact (checkerCheck_grants _ _ Hcl Hdb l "system" SystemPlatformID "superadmin" "user" kcSub eq_refl eq_refl He).
  - split; [done|]. split; [done|]. exact (checkerCheck_grants _ _ Hcl Hdb l "company" companyID role "user" kcSub eq_refl Hn He).
Qed.

(** ann administers a company and reads a page of it. *)
Definition summaryTuples : Table :=
  {[mkTuple "company" "c1" "admin" "user" "ann" ""; mkTuple "document_page" "7" "viewer" "user" "ann" ""; mkTuple "document_page" "7" "editor" "user" "ann" ""; mkTuple "document_page" "8" "viewer" "user" "bob" ""]}.
Definition annSummary : summaryReply :=
  handleSummary (fun _ => demoService summaryTuples) 9 (fun sub => Ok (ListDirectTuplesForSubject id summaryTuples "user" sub)) "ann" "c1".
Definition summaryObjects (r : summaryReply) : list (string * string * nat) :=
  match r with SummaryData _ _ _ _ objs => (fun e => (oe_type e, oe_id e, length (oe_relations e))) <$> objs | _ => [] end.
Definition summaryRoles (r : summaryReply) : list roleBinding := match r with SummaryData _ _ _ roles _ => roles | _ => [] end.
Definition summaryKeys (r : summaryReply) : list string := match r with SummaryData _ _ keys _ _ => keys | _ => [] end.

Lemma summary_shows_witness :
  summaryKeys annSummary = ["docs.access"] /\ summaryRoles annSummary = [CompanyRole "c1" "admin"; CompanyRole "c1" "viewer"] /\
  (("document_page", "7", 2) ∈ summaryObjects annSummary) /\
  exists l, effectiveEngine (demoService summaryTuples) = Some l /\ grants (LModel l) summaryTuples "user" "ann" "" "company" "c1" "viewer".
Proof.
  split; [vm_compute; reflexivity|]. split; [vm_compute; reflexivity|]. split; [apply (bool_decide_unpack _); vm_compute; exact I|].
  destruct (summary_shows (fun _ => demoService summaryTuples) 9 (fun sub => Ok (ListDirectTuplesForSubject id summaryTuples "user" sub)) "ann" "c1"
    (fun _ => summaryTuples) summaryTuples id "ann" "c1" (summaryKeys annSummary) (summaryRoles annSummary)
    (match annSummary with SummaryData _ _ _ _ objs => objs | _ => [] end)) as (l & Hl & _ & _ & _ & Hr & _).
  - intros i. split; [apply clean_table_check; vm_compute; reflexivity|exact (db_of_may_fail summaryTuples)].
  - reflexivity.
  - intros rows. reflexivity.
  - reflexivity.
  - vm_compute. reflexivity.
  - exists l. split; [exact Hl|]. destruct (Hr (CompanyRole "c1" "viewer")) as (i & _ & _ & Hg); [|exact Hg].
    apply (bool_decide_unpack _). vm_compute. exact I.
Defined.
