(* ===== verification/Mux.v ===== *)
(** * net/http's ServeMux

    The request multiplexer of the standard library, as the gateway uses it: patterns
    without a host, matched segment by segment on the escaped path, the more specific one
    first, with the redirects to a cleaned path and to a path with its trailing slash. *)

From stdpp Require Import base strings list.
From Stdlib Require Import Ascii.
From S2P Require Import Prelude GoStrings.

(** ** Paths *)

(** url.PathUnescape; an escape that is not two hexadecimal digits is an error, and the
    mux then keeps the text. *)
Definition hexDigit (c : ascii) : option N :=
  let n := N_of_ascii c in
  if (48 <=? n)%N && (n <=? 57)%N then Some (n - 48)%N
  else if (65 <=? n)%N && (n <=? 70)%N then Some (n - 55)%N
  else if (97 <=? n)%N && (n <=? 102)%N then Some (n - 87)%N
  else None.
Fixpoint PathUnescape (s : string) : option string :=
  match s with
  | EmptyString => Some EmptyString
  | String "%" (String a (String b rest)) =>
      x ← hexDigit a; y ← hexDigit b; String (ascii_of_N (x * 16 + y)) <$> PathUnescape rest
  | String "%" _ => None
  | String c rest => String c <$> PathUnescape rest
  end.
Definition pathUnescape (s : string) : string := default s (PathUnescape s).

(** path.Clean of a rooted path, as the segments that stay. *)
Definition cleanSegs (segs : list string) : list string :=
  rev (foldl (fun acc s => if seqb s "" || seqb s "." then acc else if seqb s ".." then tail acc else s :: acc) [] segs).

(** Whether a path ends in a slash. *)
Definition slashEnds (p : string) : bool := match last (Split "/" p) with Some s => seqb s "" | None => false end.

(** cleanPath *)
Definition cleanPath (p : string) : string :=
  let segs := cleanSegs (Split "/" p) in
  "/" +:+ Join segs "/" +:+ (if slashEnds p && (0 <? length segs)%nat then "/" else "").

(** What firstSegment yields of a path, one after the other: the segments unescaped, and
    "/" for a trailing slash. *)
Definition pathSegments (p : string) : list string :=
  let raw := tail (Split "/" p) in
  if slashEnds p then (pathUnescape <$> removelast raw) ++ ["/"] else pathUnescape <$> raw.

(** ** Patterns *)

Inductive seg : Type :=
| Lit (s : string)
| Wild (name : string)
| Multi (name : string).
#[export] Instance seg_eq_dec : EqDecision seg.
Proof. solve_decision. Defined.

Record pattern := mkPattern { p_method : string; p_segs : list seg }.

(** A segment of a pattern: a literal, [{name}] or [{name...}]. *)
Definition parseSeg (s : string) : seg :=
  match s with
  | String "{" rest =>
      match Cut rest "}" with
      | Some (name, "") => match Cut name "." with Some (n, "..") => Multi n | _ => Wild name end
      | _ => Lit s
      end
  | _ => Lit s
  end.

(** parsePattern, of the patterns the gateway mounts; a trailing slash stands for any
    rest of the path. *)
Definition parsePath (p : string) : list seg :=
  (fun s => if seqb s "" then Multi "" else parseSeg s) <$> tail (Split "/" p).
Definition parsePattern (s : string) : pattern :=
  match Cut s " " with
  | Some (method, p) => mkPattern method (parsePath p)
  | None => mkPattern "" (parsePath s)
  end.

(** ** Matching *)

Section matching.
Context {H : Type}.

(** What is left to match of a route, the values matched so far, and the route. *)
Record branch := mkBranch { b_rest : list seg; b_values : list (string * string); b_pattern : pattern; b_handler : H }.

Definition literalChild (s : string) (b : branch) : option branch :=
  match b_rest b with
  | Lit t :: rest => if seqb s t then Some (mkBranch rest (b_values b) (b_pattern b) (b_handler b)) else None
  | _ => None
  end.
Definition wildChild (s : string) (b : branch) : option branch :=
  match b_rest b with
  | Wild name :: rest => Some (mkBranch rest (b_values b ++ [(name, s)]) (b_pattern b) (b_handler b))
  | _ => None
  end.
Definition multiChild (b : branch) : option branch := match b_rest b with Multi _ :: _ => Some b | _ => None end.
Definition leaf (b : branch) : option branch := match b_rest b with [] => Some b | _ => None end.

(** matchPath: literals before wildcards before the rest of the path. *)
Fixpoint matchPath (bs : list branch) (path : list string) : option branch :=
  match path with
  | [] => head (omap leaf bs)
  | s :: rest =>
      match matchPath (omap (literalChild s) bs) rest with
      | Some b => Some b
      | None =>
          match if seqb s "/" then None else matchPath (omap (wildChild s) bs) rest with
          | Some b => Some b
          | None => head (omap multiChild bs)
          end
      end
  end.

Definition mux : Type := list (string * H).

Definition branches (routes : mux) (method : string) : list branch :=
  omap (fun r => let p := parsePattern r.1 in if seqb (p_method p) method then Some (mkBranch (p_segs p) [] p r.2) else None) routes.

(** matchMethodAndPath: the method's patterns, GET's for HEAD, those of any method. *)
Definition matchRoute (routes : mux) (method path : string) : option branch :=
  let try m := matchPath (branches routes m) (pathSegments path) in
  match try method with
  | Some b => Some b
  | None =>
      match if seqb method "HEAD" then try "GET" else None with
      | Some b => Some b
      | None => try ""
      end
  end.

(** exactMatch *)
Definition exactMatch (n : option branch) (path : string) : bool :=
  match n with
  | None => false
  | Some b =>
      match last (p_segs (b_pattern b)) with
      | Some (Multi _) => slashEnds path && (length (p_segs (b_pattern b)) =? pred (length (Split "/" path)))%nat
      | _ => true
      end
  end.

Inductive muxResult : Type :=
| RedirectTo (path : string)
| NoRoute
| Route (b : branch).

(** matchOrRedirect: with a trailing slash the path may match exactly. *)
Definition slashRedirect (routes : mux) (method path : string) : bool :=
  negb (exactMatch (matchRoute routes method path) path) && negb (slashEnds path) &&
  exactMatch (matchRoute routes method (path +:+ "/")) (path +:+ "/").

(** findHandler: [path] is the request's escaped path and [decoded] its path.  CONNECT
    requests are not cleaned. *)
Definition findHandler (routes : mux) (method path decoded : string) : muxResult :=
  let cleaned := if seqb method "CONNECT" then path else cleanPath path in
  if slashRedirect routes method cleaned then RedirectTo (cleanPath decoded +:+ "/")
  else if negb (seqb cleaned path) then RedirectTo cleaned
  else match matchRoute routes method path with Some b => Route b | None => NoRoute end.
End matching.
Arguments branch H : clear implicits.
Arguments mux H : clear implicits.
Arguments muxResult H : clear implicits.

(** Request.PathValue *)
Definition pathValue (values : list (string * string)) (name : string) : string :=
  default "" (snd <$> head (filter (fun kv => kv.1 = name) values)).
