(* ===== verification/Gateway.v ===== *)
(** * The gateway's handlers

    internal/gateway: middleware.go, superadmin.go, company_admin.go, hardening.go, cors.go,
    proxy.go, auth_proxy.go and the route tables.  A handler is a function of the request;
    what the services answer while it is served (the token's claims, the provisioner, the
    authorization service, org's reads, the catalog) are arguments.  A forwarded request is
    the outbound request ReverseProxy makes; what the upstream answers to it is left out. *)

From stdpp Require Import base gmap strings list.
From Stdlib Require Import Ascii.
From S2P Require Import Prelude GoStrings Clients AdminClient ModuleKit Mux.

(** ** Headers *)

Abbreviation Headers := (gmap string (list string)).
Abbreviation Values := (gmap string (list string)).

(** http.Header.Get, Set and Del on a canonical name; url.Values.Set. *)
Definition getHeader (h : Headers) (name : string) : string := default "" (h !! name ≫= head).
Definition setHeader (name value : string) (h : Headers) : Headers := <[name := [value]]> h.

(** textproto.CanonicalMIMEHeaderKey: a name with a byte that is no token is left alone. *)
Definition tokenChar (c : ascii) : bool :=
  let n := N_of_ascii c in
  ((48 <=? n)%N && (n <=? 57)%N) || ((65 <=? n)%N && (n <=? 90)%N) || ((97 <=? n)%N && (n <=? 122)%N) ||
  bool_decide (c ∈ ["!"; "#"; "$"; "%"; "&"; "'"; "*"; "+"; "-"; "."; "^"; "_"; "`"; "|"; "~"]%char).
Definition lowerChar (c : ascii) : ascii :=
  let n := N_of_ascii c in if ((65 <=? n) && (n <=? 90))%N then ascii_of_N (n + 32) else c.
Fixpoint canonicalFrom (start : bool) (s : string) : string :=
  match s with
  | EmptyString => EmptyString
  | String c rest => String (if start then upper c else lowerChar c) (canonicalFrom (bool_decide (c = "-"%char)) rest)
  end.
Definition canonical (s : string) : string := if all_chars tokenChar s then canonicalFrom true s else s.

(** removeHopByHopHeaders, and what ReverseProxy deletes before it calls Rewrite; the
    headers of a protocol upgrade, which it puts back, are left out. *)
Definition hopHeaders : list string :=
  ["Connection"; "Proxy-Connection"; "Keep-Alive"; "Proxy-Authenticate"; "Proxy-Authorization"; "Te"; "Trailer"; "Transfer-Encoding"; "Upgrade"].
Definition forwardedHeaders : list string := ["Forwarded"; "X-Forwarded-For"; "X-Forwarded-Host"; "X-Forwarded-Proto"].
Definition removeAll (names : list string) (h : Headers) : Headers := foldl (fun h n => delete n h) h names.

(** ** The catalog *)

(** [ModuleEntry] and the map of a [Snapshot]. *)
Record ModuleEntry := mkModuleEntry { me_Port : Z; me_Installed : bool; me_Enabled : bool; me_MissingDependencies : list string; me_External : bool; me_ServiceClientID : string }.
Abbreviation Snapshot := (gmap string ModuleEntry).

Section text.
Context `{UC : Unicode}.

Definition namedByConnection (h : Headers) : list string :=
  concat ((fun f => canonical <$> filter (fun s => s <> "") (TrimSpace <$> Split "," f)) <$> default [] (h !! "Connection")).
Definition proxiedHeaders (h : Headers) : Headers := removeAll (forwardedHeaders ++ hopHeaders ++ namedByConnection h) h.

(** [firstForwardedValue] *)
Definition firstForwardedValue (v : string) : string :=
  TrimSpace (match Cut v "," with Some (a, _) => a | None => v end).

(** ** Requests and replies *)

(** [AuthContext] *)
Record AuthContext := mkAuthContext { ac_Subject : string; ac_Email : string; ac_PreferredUsername : string; ac_ClientID : string }.

(** A body: its length, and the fields of it as a JSON object that are strings, the empty
    string for any other. *)
Record gwBody := mkBody { bd_length : Z; bd_field : string -> string }.

(** [gr_path] is the escaped path and [gr_urlPath] URL.Path; [gr_query] is what Query()
    makes of the raw query; [gr_host] the Host header and [gr_remote] the host of
    RemoteAddr, if it splits. *)
Record gwRequest := mkGwRequest {
  gr_method : string; gr_path : string; gr_rawQuery : string; gr_query : Values; gr_headers : Headers;
  gr_host : string; gr_remote : option string; gr_tls : bool; gr_body : gwBody; gr_limit : option Z;
  gr_auth : option AuthContext; gr_values : list (string * string)
}.
Definition gr_urlPath (r : gwRequest) : string := pathUnescape (gr_path r).
Definition with_headers (f : Headers -> Headers) (r : gwRequest) : gwRequest :=
  mkGwRequest (gr_method r) (gr_path r) (gr_rawQuery r) (gr_query r) (f (gr_headers r)) (gr_host r) (gr_remote r) (gr_tls r) (gr_body r) (gr_limit r) (gr_auth r) (gr_values r).
Definition with_limit (l : Z) (r : gwRequest) : gwRequest :=
  mkGwRequest (gr_method r) (gr_path r) (gr_rawQuery r) (gr_query r) (gr_headers r) (gr_host r) (gr_remote r) (gr_tls r) (gr_body r) (Some l) (gr_auth r) (gr_values r).
Definition with_auth (a : AuthContext) (r : gwRequest) : gwRequest :=
  mkGwRequest (gr_method r) (gr_path r) (gr_rawQuery r) (gr_query r) (gr_headers r) (gr_host r) (gr_remote r) (gr_tls r) (gr_body r) (gr_limit r) (Some a) (gr_values r).
Definition with_values (v : list (string * string)) (r : gwRequest) : gwRequest :=
  mkGwRequest (gr_method r) (gr_path r) (gr_rawQuery r) (gr_query r) (gr_headers r) (gr_host r) (gr_remote r) (gr_tls r) (gr_body r) (gr_limit r) (gr_auth r) v.
Definition PathValue (r : gwRequest) (name : string) : string := pathValue (gr_values r) name.

Inductive target : Type :=
| TRegistry | TAuthz | TOrg | TIdentity | TKeycloak
| TModule (key : string) (port : Z).
#[export] Instance target_eq_dec : EqDecision target.
Proof. solve_decision. Defined.

(** The outbound URL: the inbound one as it stands, or a path that replaces it. *)
Inductive outPath : Type := SamePath | NewPath (p : string).
Inductive outQuery : Type := SameQuery | NewQuery (q : Values).
Inductive outHost : Type := TargetHost | InboundHost | GivenHost (h : string).
Record outbound := mkOutbound {
  ob_target : target; ob_method : string; ob_path : outPath; ob_query : outQuery; ob_host : outHost; ob_headers : Headers; ob_limit : option Z
}.

Inductive gwReply : Type :=
| GwError (status : Z) (code : string) (challenge : bool)
| GwRedirect (path : string)
| GwNoRoute
| GwPreflight
| GwDemoMode (enabled : bool)
| GwMetrics
| GwStatic (path : string)
| GwForward (o : outbound).

Definition Handler : Type := gwRequest -> gwReply.

(** ** hardening.go *)

Definition defaultBodyLimit : Z := 1048576.
Definition moduleProxyBodyLimit : Z := 33554432.
Definition limitBody (limit : Z) (next : Handler) : Handler := fun r => next (with_limit limit r).

(** io.ReadAll of a limited body; [None] is its error. *)
Definition readBody (r : gwRequest) : option gwBody :=
  match gr_limit r with Some l => if (l <? bd_length (gr_body r))%Z then None else Some (gr_body r) | None => Some (gr_body r) end.

Definition keycloakPrefixes : list string := ["/auth/"; "/realms/"; "/resources/"].
Definition hasKeycloakPrefix (path : string) : bool := existsb (HasPrefix path) keycloakPrefixes.

(** [clientForwardedFor] *)
Definition clientForwardedFor (trustProxy : bool) (next : Handler) : Handler := fun r =>
  let prior := if trustProxy then TrimSpace (getHeader (gr_headers r) "X-Forwarded-For") else "" in
  let set v r := with_headers (setHeader "X-Forwarded-For" v) r in
  let r := with_headers (delete "X-Forwarded-For") r in
  next (match gr_remote r with
        | Some ip => set (if negb (seqb prior "") then prior +:+ ", " +:+ ip else ip) r
        | None => if negb (seqb prior "") then set prior r else r
        end).

(** [copyForwardedFor] *)
Definition copyForwardedFor (r : gwRequest) (out : Headers) : Headers :=
  let v := getHeader (gr_headers r) "X-Forwarded-For" in if negb (seqb v "") then setHeader "X-Forwarded-For" v out else out.

(** [writeInternalNotFound] *)
Definition writeInternalNotFound : Handler := fun _ => GwError 404 "NOT_FOUND" false.

(** ** Proxies *)

(** [newFixedProxy], with a rewrite of the path or without. *)
Definition newFixedProxy (t : target) (rewritePath : option (gwRequest -> string)) : Handler := fun r =>
  GwForward (mkOutbound t (gr_method r) (match rewritePath with Some f => NewPath (f r) | None => SamePath end) SameQuery TargetHost
    (copyForwardedFor r (proxiedHeaders (gr_headers r))) (gr_limit r)).

Definition fixedPath (p : string) : gwRequest -> string := fun _ => p.
Definition subjectOf (r : gwRequest) : string := default "" (ac_Subject <$> gr_auth r).

(** [newSubjectProxy], and [newSubjectScopedProxy], whose path is fixed. *)
Definition newSubjectProxy (t : target) (rewritePath : gwRequest -> string) : Handler := fun r =>
  GwForward (mkOutbound t (gr_method r) (NewPath (rewritePath r)) (NewQuery (<["kcSub" := [subjectOf r]]> (gr_query r))) TargetHost
    (copyForwardedFor r (proxiedHeaders (gr_headers r))) (gr_limit r)).
Definition newSubjectScopedProxy (t : target) (internalPath : string) : Handler := newSubjectProxy t (fixedPath internalPath).

(** [newDirectoryProxy] and [newMemberDirectoryProxy] *)
Definition newDirectoryProxy (t : target) (suffix : string) : Handler :=
  newSubjectProxy t (fun r => "/internal/org/companies/" +:+ PathValue r "companyId" +:+ suffix).
Definition newMemberDirectoryProxy (t : target) : Handler := newDirectoryProxy t "/members".

(** [newKeycloakProxy]: SetXForwarded and the rewrite; [publicOrigin] is a scheme and a
    host. *)
Definition newKeycloakProxy (trustForwardedHeaders : bool) (publicOrigin : option (string * string)) (stripAuthPrefix : bool) : Handler := fun r =>
  let h := copyForwardedFor r
    (setHeader "X-Forwarded-Host" (gr_host r) (setHeader "X-Forwarded-Proto" (if gr_tls r then "https" else "http")
      (match gr_remote r with Some ip => setHeader "X-Forwarded-For" ip (proxiedHeaders (gr_headers r)) | None => proxiedHeaders (gr_headers r) end))) in
  let keep name (h : Headers) := let v := firstForwardedValue (getHeader (gr_headers r) name) in if negb (seqb v "") then setHeader name v h else h in
  let '(out, h) :=
    if trustForwardedHeaders then (InboundHost, keep "X-Forwarded-Host" (keep "X-Forwarded-Proto" h))
    else match publicOrigin with
         | Some (scheme, origin) => (GivenHost origin, setHeader "X-Forwarded-Proto" scheme (setHeader "X-Forwarded-Host" origin h))
         | None => (InboundHost, h)
         end in
  let path :=
    if stripAuthPrefix then let rest := TrimPrefix (gr_urlPath r) "/auth" in NewPath (if seqb rest "" then "/" else rest) else SamePath in
  GwForward (mkOutbound TKeycloak (gr_method r) path SameQuery out h (gr_limit r)).
Definition NewAuthProxy (trust : bool) (origin : option (string * string)) : Handler := newKeycloakProxy trust origin true.
Definition NewKeycloakVerbatimProxy (trust : bool) (origin : option (string * string)) : Handler := newKeycloakProxy trust origin false.

(** ** Middleware *)

(** [hasUserHeader] *)
Definition userHeaderPrefix : string := "X-User-".
Definition hasUserHeader (h : Headers) : bool :=
  existsb (fun name => HasPrefix (map_text upper name) (map_text upper userHeaderPrefix)) (map_to_list h).*1.

Section served.
(** jwt.Parse with the platform's keys, issuer and audience; [Provisioner.Ensure] for a
    subject and an Authorization header; the authorization service behind the admin
    client, if there is one; org's answer to a read of a resource's company; the catalog,
    if there is one, and what its Get answers; the request's correlation id. *)
Context (parse : string -> option AuthContext) (ensure : string -> string -> bool).
Context (client : option (string -> adminWire -> option adminResponse)) (orgRead : string -> string -> string -> HTTP string).

(** [TokenVerifier.Verify] *)
Inductive token_error : Type := ErrTokenMissing | ErrTokenInvalid.
Definition VerifyToken (bearer : string) : result token_error AuthContext :=
  if seqb bearer "" then Err ErrTokenMissing
  else match parse bearer with
       | Some c => if seqb (ac_Subject c) "" then Err ErrTokenInvalid else Ok c
       | None => Err ErrTokenInvalid
       end.

(** [RequireAuth] *)
Definition authorization (r : gwRequest) : string := getHeader (gr_headers r) "Authorization".
Definition RequireAuth (next : Handler) : Handler := fun r =>
  if hasUserHeader (gr_headers r) then GwError 400 "BAD_REQUEST" false
  else match VerifyToken (BearerFromHeader (authorization r)) with
       | Err ErrTokenMissing => GwError 401 "AUTH_TOKEN_MISSING" true
       | Err ErrTokenInvalid => GwError 401 "AUTH_TOKEN_INVALID" true
       | Ok c => if ensure (ac_Subject c) (authorization r) then next (with_auth c r) else GwError 503 "AUTHORIZATION_UNAVAILABLE" false
       end.

(** [adminResult], and how the guard reads a decision. *)
Inductive adminResult : Type := adminUncertain | adminAllowed | adminDenied.
Definition readDecision (d : option AdminDecision) : adminResult :=
  match d with
  | None => adminUncertain
  | Some d => if dAllowed d && seqb (dReason d) "ALLOWED" then adminAllowed else if Denied d then adminDenied else adminUncertain
  end.

Context (correlationID : string).
Definition DecideAdmin send (header action : string) : adminResult := readDecision (Decide send header action correlationID).
Definition DecideAdminInCompany send (header action companyID : string) : adminResult := readDecision (DecideInCompany send header action companyID correlationID).
Definition DecideMember send (header action companyID : string) : adminResult := readDecision (DecideMemberInCompany send header action companyID correlationID).

Definition writeAdminUnavailable : gwReply := GwError 503 "AUTHORIZATION_UNAVAILABLE" false.
Definition onDecision (d : adminResult) (allowed : gwReply) : gwReply :=
  match d with adminAllowed => allowed | adminDenied => GwError 403 "FORBIDDEN" false | adminUncertain => writeAdminUnavailable end.

(** [RequireSuperadmin] *)
Definition RequireSuperadmin (action : string) (next : Handler) : Handler := fun r =>
  match client, gr_auth r with
  | Some send, Some _ =>
      if seqb (authorization r) "" then writeAdminUnavailable else onDecision (DecideAdmin send (authorization r) action) (next r)
  | _, _ => writeAdminUnavailable
  end.

(** ** company_admin.go *)

Inductive company_error : Type := errCompanyNotFound | errCompanyUnnamed | errCompanyOther.
Abbreviation companyOfFunc := (gwRequest -> result company_error string).

Definition companyFromPath (param : string) : companyOfFunc := fun r => Ok (PathValue r param).
Definition companyFromQuery (param : string) : companyOfFunc := fun r =>
  let v := default "" (gr_query r !! param ≫= head) in if seqb v "" then Err errCompanyUnnamed else Ok v.
Definition companyFromBody (field : string) : companyOfFunc := fun r =>
  match readBody r with
  | None => Err errCompanyOther
  | Some b => let v := bd_field b field in if seqb v "" then Err errCompanyUnnamed else Ok v
  end.

(** [companyFromOrg]: [orgRead] is the round trip for a kind, an id and the caller's
    Authorization header. *)
Definition companyFromOrg (kind pathParam : string) : companyOfFunc := fun r =>
  match orgRead kind (PathValue r pathParam) (authorization r) with
  | Err _ => Err errCompanyOther
  | Ok resp =>
      if (StatusCode resp =? StatusNotFound)%Z then Err errCompanyNotFound
      else match expectOK resp with
           | Ok c => if seqb c "" then Err errCompanyOther else Ok c
           | Err _ => Err errCompanyOther
           end
  end.

(** [requireInCompany], and its two uses. *)
Definition requireInCompany (action : string) (companyOf : companyOfFunc)
    (decide : (string -> adminWire -> option adminResponse) -> string -> string -> string -> adminResult) (next : Handler) : Handler := fun r =>
  match client, gr_auth r with
  | Some send, Some _ =>
      if seqb (authorization r) "" then writeAdminUnavailable
      else match companyOf r with
           | Err errCompanyNotFound => GwError 404 "NOT_FOUND" false
           | Err errCompanyUnnamed => GwError 400 "BAD_REQUEST" false
           | Err errCompanyOther => writeAdminUnavailable
           | Ok companyID => if seqb companyID "" then writeAdminUnavailable else onDecision (decide send (authorization r) action companyID) (next r)
           end
  | _, _ => writeAdminUnavailable
  end.
Definition RequireSuperadminOrCompanyAdmin (action : string) (companyOf : companyOfFunc) : Handler -> Handler := requireInCompany action companyOf DecideAdminInCompany.
Definition RequireSuperadminOrCompanyMember (action : string) (companyOf : companyOfFunc) : Handler -> Handler := requireInCompany action companyOf DecideMember.

(** [requireResourceInCompany] *)
Definition requireResourceInCompany (kind pathParam : string) (next : Handler) : Handler := fun r =>
  match companyFromOrg kind pathParam r with
  | Err errCompanyNotFound => GwError 404 "NOT_FOUND" false
  | Err _ => writeAdminUnavailable
  | Ok owner => if negb (seqb owner (PathValue r "companyId")) then GwError 404 "NOT_FOUND" false else next r
  end.

(** ** The module proxy *)

(** [AppForClient]: whether some entry is that client's. *)
Definition AppForClient (snap : Snapshot) (clientID : string) : bool :=
  negb (seqb clientID "") && existsb (fun e => me_External e && me_Installed e && seqb (me_ServiceClientID e) clientID) (map_to_list snap).*2.

Context (catalog : option (option Snapshot)).

(** [RequireSuperadminOrApp] *)
Definition RequireSuperadminOrApp (action : string) (next : Handler) : Handler := fun r =>
  match gr_auth r, catalog with
  | Some c, Some (Some snap) => if AppForClient snap (ac_ClientID c) then next r else RequireSuperadmin action next r
  | _, _ => RequireSuperadmin action next r
  end.

(** [ModuleProxy.ServeHTTP] *)
Definition moduleProxy : Handler := fun r =>
  let key := PathValue r "moduleKey" in
  match catalog with
  | Some (Some snap) =>
      match snap !! key with
      | None => GwError 404 "NOT_FOUND" false
      | Some e =>
          if me_External e then GwError 404 "NOT_FOUND" false
          else if negb (me_Installed e) then GwError 403 "MODULE_NOT_INSTALLED" false
          else if negb (me_Enabled e) then GwError 403 "MODULE_DISABLED" false
          else if (0 <? length (me_MissingDependencies e))%nat then GwError 403 "MODULE_DEPENDENCY_MISSING" false
          else
            let h := proxiedHeaders (gr_headers r) in
            let h := if negb (seqb correlationID "") then setHeader "X-Correlation-Id" correlationID h else h in
            GwForward (mkOutbound (TModule key (me_Port e)) (gr_method r) SamePath SameQuery InboundHost (copyForwardedFor r h) (gr_limit r))
      end
  | _ => GwError 503 "MODULE_UNAVAILABLE" false
  end.
End served.
End text.
