(* ===== verification/GatewayRoutes.v ===== *)
(** * The gateway's routes

    internal/gateway: routes.go, platform_routes.go, foundation_routes.go, the admin route
    files, hardening.go's and cors.go's wrappers: the table the multiplexer serves, with each
    route's chain of guards. *)

From stdpp Require Import base gmap strings list.
From Stdlib Require Import Ascii.
From S2P Require Import Prelude GoStrings Clients AdminClient ModuleKit Mux Gateway.

(** The part of [RoutesConfig] the routes read; [cf_publicOrigin] is the scheme and host of
    IssuerURL. *)
Record RoutesConfig := mkRoutesConfig {
  cf_StaticDir : bool; cf_KibanDomain : string; cf_ExtraOrigins : list string; cf_TrustProxyHeaders : bool;
  cf_publicOrigin : option (string * string); cf_DemoMode : bool
}.

Section routes.
Context `{UC : Unicode} (parse : string -> option AuthContext) (ensure : string -> string -> bool).
Context (client : option (string -> adminWire -> option adminResponse)) (orgRead : string -> string -> string -> HTTP string).
Context (correlationID : string) (catalog : option (option Snapshot)).

Abbreviation Auth := (RequireAuth parse ensure).
Abbreviation Superadmin := (RequireSuperadmin client correlationID).
Abbreviation CompanyAdmin := (RequireSuperadminOrCompanyAdmin client correlationID).
Abbreviation CompanyMember := (RequireSuperadminOrCompanyMember client correlationID).
Abbreviation AppOr := (RequireSuperadminOrApp client correlationID catalog).
Abbreviation FromOrg := (companyFromOrg orgRead).

Definition authed (h : Handler) : Handler := limitBody defaultBodyLimit (Auth h).

(** [rewriteAdminModulePath] *)
Definition rewriteAdminModulePath (action : string) (r : gwRequest) : string := "/internal/platform/modules/" +:+ PathValue r "key" +:+ "/" +:+ action.

(** [mountPlatformRoutes] and [mountDemoModeRoute] *)
Definition mountPlatformRoutes : mux Handler :=
  let passthrough := authed (newFixedProxy TRegistry None) in
  let admin action rewrite := authed (Superadmin action (newFixedProxy TRegistry (Some rewrite))) in
  [("GET /api/platform/capabilities", passthrough);
   ("GET /api/platform/capabilities/{module}", passthrough);
   ("GET /api/platform/catalog", passthrough);
   ("POST /api/platform/admin/modules/{key}/enable", admin "registry.modules.enable" (rewriteAdminModulePath "enable"));
   ("POST /api/platform/admin/modules/{key}/disable", admin "registry.modules.disable" (rewriteAdminModulePath "disable"));
   ("POST /api/platform/admin/apps", admin "registry.apps.register" (fixedPath "/internal/platform/apps"));
   ("GET /api/platform/metrics", authed (Superadmin "platform.metrics.read" (fun _ => GwMetrics)))].
Definition mountDemoModeRoute (demoMode : bool) : mux Handler :=
  [("GET /api/platform/demo-mode", limitBody defaultBodyLimit (fun _ => GwDemoMode demoMode))].

(** [mountFoundationRoutes] *)
Definition companyRead (action kind : string) (rewrite : gwRequest -> string) : Handler :=
  authed (CompanyMember action (companyFromPath "companyId") (requireResourceInCompany orgRead kind "id" (newSubjectProxy TOrg rewrite))).
Definition mountFoundationRoutes : mux Handler :=
  [("POST /api/auth/effective-access/can", authed (newFixedProxy TAuthz (Some (fixedPath "/internal/authz/effective-access/can"))));
   ("POST /api/auth/effective-access/batch-can", authed (newFixedProxy TAuthz (Some (fixedPath "/internal/authz/effective-access/batch-can"))));
   ("GET /api/auth/effective-access/summary", authed (newSubjectScopedProxy TAuthz "/internal/authz/effective-access/summary"));
   ("GET /api/org/me/companies", authed (newSubjectScopedProxy TOrg "/internal/org/me/companies"));
   ("GET /api/org/companies/{companyId}/members", authed (newMemberDirectoryProxy TOrg));
   ("GET /api/org/companies/{companyId}/positions", authed (newDirectoryProxy TOrg "/positions/directory"));
   ("GET /api/org/companies/{companyId}/groups", authed (newDirectoryProxy TOrg "/groups/directory"));
   ("GET /api/org/companies/{companyId}/positions/{id}/holder",
      companyRead "org.positions.holder" "positions" (fun r => "/internal/org/positions/" +:+ PathValue r "id" +:+ "/holder"));
   ("GET /api/org/companies/{companyId}/groups/{id}/members",
      companyRead "org.groups.members" "groups" (fun r => "/internal/org/groups/" +:+ PathValue r "id" +:+ "/members"));
   ("GET /api/org/companies/{companyId}/members/by-subject/{subject}",
      authed (AppOr "org.members.lookup" (newFixedProxy TOrg (Some (fun r =>
        "/internal/org/companies/" +:+ PathValue r "companyId" +:+ "/members/by-kcsub/" +:+ PathValue r "subject")))));
   ("POST /api/auth/grants", authed (AppOr "authz.grants.write" (newFixedProxy TAuthz (Some (fixedPath "/internal/authz/grants")))));
   ("POST /api/platform/admin/platform-roles",
      authed (Superadmin "authz.platform_role.grant" (newFixedProxy TAuthz (Some (fixedPath "/internal/authz/platform-roles")))));
   ("DELETE /api/platform/admin/platform-roles/{role}/{subjectId}",
      authed (Superadmin "authz.platform_role.revoke" (newFixedProxy TAuthz (Some (fun r =>
        "/internal/authz/platform-roles/" +:+ PathValue r "role" +:+ "/" +:+ PathValue r "subjectId")))))].

(** The [guarded] of the admin route files. *)
Definition orgGuarded (action : string) (rewrite : gwRequest -> string) : Handler := authed (Superadmin action (newFixedProxy TOrg (Some rewrite))).
Definition companyGuarded (action : string) (companyOf : gwRequest -> result company_error string) (rewrite : gwRequest -> string) : Handler :=
  authed (CompanyAdmin action companyOf (newFixedProxy TOrg (Some rewrite))).
Definition identityGuarded (action : string) (rewrite : gwRequest -> string) : Handler := authed (Superadmin action (newFixedProxy TIdentity (Some rewrite))).

(** [mountAdminOrgRoutes] *)
Definition unitByID (r : gwRequest) : string := "/internal/org/units/" +:+ PathValue r "id".
Definition memberByID (r : gwRequest) : string := "/internal/org/members/" +:+ PathValue r "id".
Definition mountAdminOrgRoutes : mux Handler :=
  let memberCompany := FromOrg "members" "id" in
  [("POST /api/org/admin/units", orgGuarded "org.unit.admin_create" (fixedPath "/internal/org/units"));
   ("GET /api/org/admin/units/{id}", orgGuarded "org.unit.admin_get" unitByID);
   ("GET /api/org/admin/units/{id}/subtree", orgGuarded "org.unit.admin_subtree" (fun r => unitByID r +:+ "/subtree"));
   ("POST /api/org/admin/members", companyGuarded "org.member.admin_create" (companyFromBody "companyId") (fixedPath "/internal/org/members"));
   ("GET /api/org/admin/members", authed (CompanyAdmin "org.member.admin_list" (companyFromQuery "companyId") (newSubjectScopedProxy TOrg "/internal/org/members")));
   ("PUT /api/org/admin/members/{id}", companyGuarded "org.member.admin_update" memberCompany memberByID);
   ("POST /api/org/admin/members/{id}/link-user", companyGuarded "org.member.admin_link_user" memberCompany (fun r => memberByID r +:+ "/link-user"));
   ("DELETE /api/org/admin/members/{id}/link-user", companyGuarded "org.member.admin_unlink_user" memberCompany (fun r => memberByID r +:+ "/link-user"))].

(** [mountAdminPositionRoutes] *)
Definition rewriteAdminCompanyPositionsPath (r : gwRequest) : string := "/internal/org/companies/" +:+ PathValue r "companyId" +:+ "/positions".
Definition rewriteAdminPositionUpdatePath (r : gwRequest) : string := "/internal/org/admin/positions/" +:+ PathValue r "id".
Definition rewriteAdminPositionAssignmentsPath (r : gwRequest) : string := "/internal/org/positions/" +:+ PathValue r "id" +:+ "/assignments".
Definition rewriteAdminPositionHandoverPath (r : gwRequest) : string := "/internal/org/positions/" +:+ PathValue r "id" +:+ "/handover".
Definition rewriteAdminAssignmentEndPath (r : gwRequest) : string := "/internal/org/assignments/" +:+ PathValue r "id" +:+ "/end".
Definition mountAdminPositionRoutes : mux Handler :=
  [("GET /api/org/admin/companies/{companyId}/positions", companyGuarded "org.position.admin_list" (companyFromPath "companyId") rewriteAdminCompanyPositionsPath);
   ("POST /api/org/admin/companies/{companyId}/positions", companyGuarded "org.position.admin_create" (companyFromPath "companyId") rewriteAdminCompanyPositionsPath);
   ("PUT /api/org/admin/positions/{id}", companyGuarded "org.position.admin_update" (FromOrg "positions" "id") rewriteAdminPositionUpdatePath);
   ("POST /api/org/admin/positions/{id}/assignments", companyGuarded "org.assignment.admin_create" (FromOrg "positions" "id") rewriteAdminPositionAssignmentsPath);
   ("POST /api/org/admin/positions/{id}/handover", companyGuarded "org.assignment.admin_handover" (FromOrg "positions" "id") rewriteAdminPositionHandoverPath);
   ("POST /api/org/admin/assignments/{id}/end", companyGuarded "org.assignment.admin_end" (FromOrg "assignments" "id") rewriteAdminAssignmentEndPath)].

(** [mountAdminGroupRoutes] *)
Definition rewriteAdminCompanyGroupsPath (r : gwRequest) : string := "/internal/org/companies/" +:+ PathValue r "companyId" +:+ "/groups".
Definition rewriteAdminGroupMembersPath (r : gwRequest) : string := "/internal/org/groups/" +:+ PathValue r "id" +:+ "/members".
Definition rewriteAdminGroupMemberPath (r : gwRequest) : string := "/internal/org/groups/" +:+ PathValue r "id" +:+ "/members/" +:+ PathValue r "memberId".
Definition mountAdminGroupRoutes : mux Handler :=
  let groupCompany := FromOrg "groups" "id" in
  [("GET /api/org/admin/companies/{companyId}/groups", companyGuarded "org.group.admin_list" (companyFromPath "companyId") rewriteAdminCompanyGroupsPath);
   ("POST /api/org/admin/companies/{companyId}/groups", companyGuarded "org.group.admin_create" (companyFromPath "companyId") rewriteAdminCompanyGroupsPath);
   ("GET /api/org/admin/groups/{id}/members", companyGuarded "org.group.admin_member_list" groupCompany rewriteAdminGroupMembersPath);
   ("POST /api/org/admin/groups/{id}/members", companyGuarded "org.group.admin_member_add" groupCompany rewriteAdminGroupMembersPath);
   ("DELETE /api/org/admin/groups/{id}/members/{memberId}", companyGuarded "org.group.admin_member_remove" groupCompany rewriteAdminGroupMemberPath)].

(** [mountAdminIdentityRoutes] *)
Definition mountAdminIdentityRoutes : mux Handler :=
  let bySubject r := "/internal/identity/mfa-policy/subjects/" +:+ PathValue r "subject" in
  [("GET /api/platform/admin/mfa-policy/global", identityGuarded "identity.mfa_policy.read" (fixedPath "/internal/identity/mfa-policy/global"));
   ("PUT /api/platform/admin/mfa-policy/global", identityGuarded "identity.mfa_policy.set_global" (fixedPath "/internal/identity/mfa-policy/global"));
   ("GET /api/platform/admin/mfa-policy/users/{subject}", identityGuarded "identity.mfa_policy.read" bySubject);
   ("PUT /api/platform/admin/mfa-policy/users/{subject}", identityGuarded "identity.mfa_policy.set_user" bySubject);
   ("DELETE /api/platform/admin/mfa-policy/users/{subject}", identityGuarded "identity.mfa_policy.clear_user" bySubject);
   ("POST /api/platform/admin/mfa-policy/sync", identityGuarded "identity.mfa_policy.sync" (fixedPath "/internal/identity/mfa-policy/sync"))].

Context (cfg : RoutesConfig).

(** The table of [Routes]. *)
Definition keycloakBlocked : list string := ["/auth/admin"; "/auth/admin/"; "/auth/realms/master"; "/auth/realms/master/"; "/realms/master"; "/realms/master/"].
Definition protected : Handler := limitBody moduleProxyBodyLimit (Auth (moduleProxy correlationID catalog)).
Definition static : Handler := if cf_StaticDir cfg then fun r => GwStatic (gr_urlPath r) else writeInternalNotFound.
Definition routes : mux Handler :=
  [("/api/{moduleKey}", protected); ("/api/{moduleKey}/{rest...}", protected)] ++
  mountPlatformRoutes ++ mountDemoModeRoute (cf_DemoMode cfg) ++ mountFoundationRoutes ++
  mountAdminOrgRoutes ++ mountAdminPositionRoutes ++ mountAdminGroupRoutes ++ mountAdminIdentityRoutes ++
  [("/internal/", limitBody defaultBodyLimit writeInternalNotFound);
   ("/auth/", limitBody defaultBodyLimit (NewAuthProxy (cf_TrustProxyHeaders cfg) (cf_publicOrigin cfg)))] ++
  ((fun p => (p, limitBody defaultBodyLimit writeInternalNotFound)) <$> keycloakBlocked) ++
  [("/resources/", limitBody defaultBodyLimit (NewKeycloakVerbatimProxy (cf_TrustProxyHeaders cfg) (cf_publicOrigin cfg)));
   ("/realms/", limitBody defaultBodyLimit (NewKeycloakVerbatimProxy (cf_TrustProxyHeaders cfg) (cf_publicOrigin cfg)));
   ("/", limitBody defaultBodyLimit static)].

(** ServeHTTP of the mux. *)
Definition serveMux : Handler := fun r =>
  match findHandler routes (gr_method r) (gr_path r) (gr_urlPath r) with
  | RedirectTo p => GwRedirect p
  | NoRoute => GwNoRoute
  | Route b => b_handler b (with_values (b_values b) r)
  end.

(** [allowedOrigins]; strings.Contains and strings.TrimRight. *)
Fixpoint Contains (s sub : string) : bool := HasPrefix s sub || match s with EmptyString => false | String _ rest => Contains rest sub end.
Fixpoint TrimRight (s : string) (c : ascii) : string :=
  match s with
  | EmptyString => EmptyString
  | String d rest => let t := TrimRight rest c in if seqb t "" && Ascii.eqb d c then EmptyString else String d t
  end.
Definition allowedOrigins (kibanDomain : string) (extra : list string) : list string :=
  (if seqb kibanDomain "" then ["http://localhost:3000"; "http://localhost:5173"; "http://localhost"] else ["https://" +:+ kibanDomain]) ++
  ((fun e => TrimRight e "/") <$> filter (fun e => Contains e "://" = true) extra).

(** A reply with the headers the wrappers add: the allowed origin, and whether the baseline
    security headers are set and with HSTS. *)
Record gwResponse := mkGwResponse { rs_reply : gwReply; rs_origin : option string; rs_security : option bool }.

(** [securityHeaders], whose headers are written with the status. *)
Definition securityHeaders (trustProxy : bool) (r : gwRequest) : option bool :=
  if hasKeycloakPrefix (gr_urlPath r) then None
  else Some (gr_tls r || (trustProxy && seqb (firstForwardedValue (getHeader (gr_headers r) "X-Forwarded-Proto")) "https")).

(** [CORS] *)
Definition CORS (origins : list string) (next : gwRequest -> gwReply * option bool) (r : gwRequest) : gwResponse :=
  let origin := getHeader (gr_headers r) "Origin" in
  if seqb origin "" || negb (bool_decide (origin ∈ origins)) || hasKeycloakPrefix (gr_urlPath r)
  then let '(reply, sec) := next r in mkGwResponse reply None sec
  else if seqb (gr_method r) "OPTIONS" then mkGwResponse GwPreflight (Some origin) None
  else let '(reply, sec) := next r in mkGwResponse reply (Some origin) sec.

(** [Routes] *)
Definition Routes (r : gwRequest) : gwResponse :=
  CORS (allowedOrigins (cf_KibanDomain cfg) (cf_ExtraOrigins cfg)) (fun r =>
    (clientForwardedFor (cf_TrustProxyHeaders cfg) serveMux r, securityHeaders (cf_TrustProxyHeaders cfg) r)) r.
End routes.
