(* ===== verification/GatewayClaims.v ===== *)
(** * The edge: what the gateway lets through

    Every request that reaches a service behind the gateway carries a verified bearer and
    passed the guard of its route, and which paths of Keycloak and of the platform's own
    services stay off the edge. *)

From stdpp Require Import base gmap strings list.
From Stdlib Require Import Ascii.
From S2P Require Import Prelude GoStrings Tuple TupleStore Decision DecisionProps Clients AuthzHTTP AuthzClaims AdminClient OrgClaims OrgHTTPProps ModuleKit Mux Gateway GatewayRoutes.

(** ** Matching *)

Section matching.
Context {H : Type}.

Lemma omap_elem {A B} (f : A -> option B) (l : list A) b : b ∈ omap f l <-> exists a, a ∈ l /\ f a = Some b.
Proof. apply list_elem_of_omap. Qed.

Lemma head_elem {A} (l : list A) a : head l = Some a -> a ∈ l.
Proof. destruct l; [done|]. intros [= ->]. left. Qed.

Definition same_route (b0 b : branch H) : Prop := b_handler b = b_handler b0 /\ b_pattern b = b_pattern b0.

Lemma matchPath_from (bs : list (branch H)) path b : matchPath bs path = Some b -> exists b0, b0 ∈ bs /\ same_route b0 b.
Proof.
  revert bs. induction path as [|s rest IH]; intros bs; simpl.
  - intros (b0 & Hb & Hl)%head_elem%omap_elem. exists b0. split; [done|]. unfold leaf in Hl. destruct (b_rest b0); [|done]. by injection Hl as <-.
  - assert (Hstep : forall f, (forall b1 b2, f b1 = Some b2 -> same_route b1 b2) -> matchPath (omap f bs) rest = Some b -> exists b0, b0 ∈ bs /\ same_route b0 b).
    { intros f Hf (b1 & (b0 & Hb & Hf0)%omap_elem & Hs)%IH. apply Hf in Hf0. exists b0. split; [done|]. destruct Hs, Hf0. split; congruence. }
    destruct (matchPath (omap (literalChild s) bs) rest) as [b1|] eqn:E1.
    { intros [= <-]. apply (Hstep (literalChild s)); [|exact E1]. intros b2 b3. unfold literalChild. destruct (b_rest b2) as [|[t| |] ?]; try done. destruct (seqb s t); [|done]. by intros [= <-]. }
    destruct (if seqb s "/" then None else matchPath (omap (wildChild s) bs) rest) as [b1|] eqn:E2.
    { intros [= <-]. destruct (seqb s "/"); [done|]. apply (Hstep (wildChild s)); [|exact E2]. intros b2 b3. unfold wildChild. destruct (b_rest b2) as [|[| |] ?]; try done. by intros [= <-]. }
    intros (b0 & Hb & Hm)%head_elem%omap_elem. exists b0. split; [done|]. unfold multiChild in Hm. destruct (b_rest b0) as [|[| |] ?]; try done. by injection Hm as <-.
Qed.

Lemma matchPath_nil path : matchPath ([] : list (branch H)) path = None.
Proof. induction path as [|s rest IH]; simpl; [done|]. rewrite IH. by destruct (seqb s "/"). Qed.

(** Patterns that begin with another literal do not match. *)
Lemma matchPath_other (bs : list (branch H)) t s rest :
  Forall (fun b => head (b_rest b) = Some (Lit t)) bs -> s <> t -> matchPath bs (s :: rest) = None.
Proof.
  intros Hbs Hst.
  assert (Hn : forall f : branch H -> option (branch H), (forall b rest0, b_rest b = Lit t :: rest0 -> f b = None) -> omap f bs = []).
  { intros f Hf. apply elem_of_nil_inv. intros x (b & Hb & E)%omap_elem. rewrite Forall_forall in Hbs. specialize (Hbs b Hb).
    destruct (b_rest b) as [|x0 rest0] eqn:Er; [done|]. injection Hbs as ->. by rewrite (Hf b rest0) in E. }
  simpl. rewrite !Hn, !matchPath_nil.
  - by destruct (seqb s "/").
  - intros b rest0 E. unfold multiChild. by rewrite E.
  - intros b rest0 E. unfold wildChild. by rewrite E.
  - intros b rest0 E. unfold literalChild. rewrite E. destruct (seqb s t) eqn:Es; [|done]. by apply seqb_true in Es.
Qed.

Lemma branches_elem (routes : mux H) m b0 : b0 ∈ branches routes m -> exists r, r ∈ routes /\ b_handler b0 = r.2 /\ b_pattern b0 = parsePattern r.1 /\ p_method (parsePattern r.1) = m.
Proof.
  intros (r & Hr & E)%omap_elem. exists r. split; [done|]. cbv zeta in E. destruct (seqb (p_method (parsePattern r.1)) m) eqn:Em; [|done]. apply seqb_true in Em.
  by injection E as <-.
Qed.

(** A request is served by a route of the table whose method is its own, or any, or GET
    for HEAD. *)
Definition method_fits (m method : string) : Prop := m = method \/ m = "" \/ method = "HEAD" /\ m = "GET".
Lemma matchRoute_from (routes : mux H) method path b :
  matchRoute routes method path = Some b -> exists r, r ∈ routes /\ b_handler b = r.2 /\ method_fits (p_method (parsePattern r.1)) method.
Proof.
  assert (Hfrom : forall m, matchPath (branches routes m) (pathSegments path) = Some b -> exists r, r ∈ routes /\ b_handler b = r.2 /\ p_method (parsePattern r.1) = m).
  { intros m (b0 & (r & Hr & Hh & _ & Hm)%branches_elem & Hs & _)%matchPath_from. exists r. split; [done|]. split; [congruence|done]. }
  unfold matchRoute. destruct (matchPath (branches routes method) _) as [b1|] eqn:E1.
  { intros [= ->]. destruct (Hfrom _ E1) as (r & ? & ? & ?). exists r. split_and!; [done..|]. by left. }
  destruct (if seqb method "HEAD" then _ else None) as [b1|] eqn:E2.
  { intros [= ->]. destruct (seqb method "HEAD") eqn:Eh; [|done]. apply seqb_true in Eh. destruct (Hfrom _ E2) as (r & ? & ? & ?). exists r. split_and!; [done..|]. right; right. done. }
  intros E3. destruct (Hfrom _ E3) as (r & ? & ? & ?). exists r. split_and!; [done..|]. by right; left.
Qed.

Lemma findHandler_route (routes : mux H) method path decoded b : findHandler routes method path decoded = Route b -> matchRoute routes method path = Some b.
Proof.
  unfold findHandler. destruct (slashRedirect _ _ _); [done|]. destruct (negb _); [done|]. destruct (matchRoute routes method path); [|done]. by intros [= ->].
Qed.

Lemma findHandler_clean (routes : mux H) method path decoded b : findHandler routes method path decoded = Route b -> method = "CONNECT" \/ cleanPath path = path.
Proof.
  unfold findHandler. destruct (slashRedirect _ _ _); [done|]. destruct (seqb method "CONNECT") eqn:Em; [left; by apply seqb_true in Em|].
  destruct (seqb (cleanPath path) path) eqn:Ep; [right; by apply seqb_true in Ep|done].
Qed.
End matching.

(** Goes through a table of routes. *)
Ltac each_route tac := repeat (apply Forall_cons_2; [tac|]); apply Forall_nil_2.

(** ** What a guarded handler forwards

    A property of what a handler forwards is one of what its guards forward. *)

Lemma onDecision_forward d allowed o : onDecision d allowed = GwForward o -> d = adminAllowed /\ allowed = GwForward o.
Proof. by destruct d. Qed.

Section guards.
Context `{UC : Unicode} (parse : string -> option AuthContext) (ensure : string -> string -> bool).
Context (client : option (string -> adminWire -> option adminResponse)) (orgRead : string -> string -> string -> HTTP string).
Context (correlationID : string) (catalog : option (option Snapshot)).
Context (P : gwRequest -> outbound -> Prop) (HP : forall c r o, P (with_auth c r) o -> P r o).

Definition forwards (h : Handler) : Prop := forall r o, h r = GwForward o -> P r o.

Lemma forwards_auth h : forwards h -> forwards (RequireAuth parse ensure h).
Proof.
  intros Hh r o. unfold RequireAuth. destruct (hasUserHeader _); [done|]. destruct (VerifyToken _ _) as [c|[]]; [|done..]. destruct (ensure _ _); [|done].
  intros Hf. exact (HP _ _ _ (Hh _ _ Hf)).
Qed.
Lemma forwards_superadmin action h : forwards h -> forwards (RequireSuperadmin client correlationID action h).
Proof.
  intros Hh r o. unfold RequireSuperadmin. destruct client; [|done]. destruct (gr_auth r); [|done]. destruct (seqb _ _); [done|].
  intros [_ Hf]%onDecision_forward. by apply Hh.
Qed.
Lemma forwards_inCompany action companyOf decide h : forwards h -> forwards (requireInCompany client action companyOf decide h).
Proof.
  intros Hh r o. unfold requireInCompany. destruct client; [|done]. destruct (gr_auth r); [|done]. destruct (seqb (authorization r) ""); [done|].
  destruct (companyOf r) as [cid|[]]; [|done..]. destruct (seqb cid ""); [done|]. intros [_ Hf]%onDecision_forward. by apply Hh.
Qed.
Lemma forwards_resource kind param h : forwards h -> forwards (requireResourceInCompany orgRead kind param h).
Proof. intros Hh r o. unfold requireResourceInCompany. destruct (companyFromOrg _ _ _ _) as [owner|[]]; [|done..]. destruct (negb _); [done|]. apply Hh. Qed.
Lemma forwards_app action h : forwards h -> forwards (RequireSuperadminOrApp client correlationID catalog action h).
Proof.
  intros Hh r o. pose proof (forwards_superadmin action h Hh r o) as Hs. unfold RequireSuperadminOrApp. destruct (gr_auth r); [|done].
  destruct catalog as [[snap|]|]; [|done..]. destruct (AppForClient _ _); [apply Hh|done].
Qed.
Lemma forwards_never h : (forall r o, h r <> GwForward o) -> forwards h.
Proof. intros Hn r o Hf. by destruct (Hn r o). Qed.
End guards.

(** Goes through the guards of a handler; [tac] does what they guard. *)
Ltac each_guard tac :=
  repeat first [apply forwards_auth; [by intros ? ? ?|] | apply forwards_superadmin | apply forwards_inCompany | apply forwards_resource | apply forwards_app]; tac.

(** ** The wrappers *)

Section wrappers.
Context `{UC : Unicode} (parse : string -> option AuthContext) (ensure : string -> string -> bool).
Context (client : option (string -> adminWire -> option adminResponse)) (orgRead : string -> string -> string -> HTTP string).
Context (correlationID : string) (catalog : option (option Snapshot)) (cfg : RoutesConfig).

Abbreviation table := (routes parse ensure client orgRead correlationID catalog cfg).

Lemma setHeader_other n v (h : Headers) name : n <> name -> setHeader n v h !! name = h !! name.
Proof. apply lookup_insert_ne. Qed.

Lemma HasPrefix_forwarded : HasPrefix (map_text upper "X-Forwarded-For") (map_text upper userHeaderPrefix) = false.
Proof. reflexivity. Qed.

(** The names under X-User- have no values. *)
Lemma hasUserHeader_false (h : Headers) :
  hasUserHeader h = false <-> forall name, HasPrefix (map_text upper name) (map_text upper userHeaderPrefix) = true -> h !! name = None.
Proof.
  unfold hasUserHeader. split.
  - intros Hf name Hp. destruct (h !! name) as [v|] eqn:E; [|done]. exfalso.
    assert (Ht : existsb (fun n => HasPrefix (map_text upper n) (map_text upper userHeaderPrefix)) (map_to_list h).*1 = true); [|congruence].
    apply existsb_exists. exists name. split; [|exact Hp]. apply list_elem_of_In, list_elem_of_fmap. exists (name, v). split; [reflexivity|]. by apply elem_of_map_to_list.
  - intros Hn. apply not_true_is_false. intros (name & Hin & Hp)%existsb_exists. apply list_elem_of_In, list_elem_of_fmap in Hin as ([n v] & -> & Hin).
    apply elem_of_map_to_list in Hin. simpl in Hp. rewrite (Hn n Hp) in Hin. done.
Qed.

(** The request the mux sees. *)
Definition seenByMux (trust : bool) (r r' : gwRequest) : Prop :=
  gr_method r' = gr_method r /\ gr_path r' = gr_path r /\ gr_query r' = gr_query r /\ gr_body r' = gr_body r /\ forall name, name <> "X-Forwarded-For" -> gr_headers r' !! name = gr_headers r !! name.

Lemma clientForwardedFor_seen trust next r : exists r', clientForwardedFor trust next r = next r' /\ seenByMux trust r r'.
Proof.
  unfold clientForwardedFor. eexists. split; [reflexivity|]. unfold seenByMux. cbn [gr_remote with_headers]. destruct (gr_remote r); [|destruct (negb _)]; split_and!; try done; cbn [gr_headers with_headers].
  all: intros name Hn; rewrite ?setHeader_other by congruence; by rewrite lookup_delete_ne by congruence.
Qed.

Lemma seen_authorization trust r r' : seenByMux trust r r' -> authorization r' = authorization r.
Proof. intros (_ & _ & _ & _ & Hh). unfold authorization, getHeader. by rewrite Hh. Qed.

Abbreviation edge := (Routes parse ensure client orgRead correlationID catalog cfg).

(** A forwarded request was forwarded by a route of the table. *)
Lemma edge_route r o : rs_reply (edge r) = GwForward o ->
  exists r' b, seenByMux (cf_TrustProxyHeaders cfg) r r' /\ matchRoute table (gr_method r) (gr_path r) = Some b /\ b_handler b (with_values (b_values b) r') = GwForward o /\
    (gr_method r = "CONNECT" \/ cleanPath (gr_path r) = gr_path r).
Proof.
  intros H. assert (Hm : clientForwardedFor (cf_TrustProxyHeaders cfg) (serveMux parse ensure client orgRead correlationID catalog cfg) r = GwForward o).
  { revert H. unfold Routes, CORS. destruct (_ || _ || _); [done|]. by destruct (seqb _ _). }
  destruct (clientForwardedFor_seen (cf_TrustProxyHeaders cfg) (serveMux parse ensure client orgRead correlationID catalog cfg) r) as (r' & Hr' & Hs).
  rewrite Hr' in Hm. unfold serveMux in Hm. destruct (findHandler _ _ _ _) as [| |b] eqn:Hb; [done|done|].
  exists r', b. split; [done|]. destruct Hs as (Hmeth & Hpath & _). rewrite Hmeth, Hpath in Hb. split_and!; [by eapply findHandler_route|exact Hm|by eapply findHandler_clean].
Qed.
End wrappers.

(** ** What is forwarded *)

Section edge.
Context `{UC : Unicode} (parse : string -> option AuthContext) (ensure : string -> string -> bool).
Context (send : string -> adminWire -> option adminResponse) (orgRead : string -> string -> string -> HTTP string).
Context (correlationID : string) (catalog : option (option Snapshot)) (cfg : RoutesConfig).
Context (verify : string -> option Claims) (during : Service -> Prop) (Hback : authz_backed verify during send).

(** An admitted member of the active company. *)
Definition member_now (header companyID : string) : Prop :=
  exists c svc l, during svc /\ bearerClaims verify header = Ok c /\ effectiveEngine svc = Some l /\ subject_live (serviceDeps svc l) (Subject c) /\
    (exists cs, Company_State (serviceDeps svc l) companyID = Ok cs /\ CExists cs = true /\ CActive cs = true) /\
    (exists ms, Membership_Membership (serviceDeps svc l) companyID (Subject c) = Ok ms /\ Decision.IsMember ms = true /\ Blocked ms = false).

Lemma DecideMember_allowed header action companyID corr d :
  DecideMemberInCompany send header action companyID corr = Some d -> dAllowed d = true ->
  superadmin_now verify during header \/ member_now header companyID.
Proof.
  unfold DecideMemberInCompany, decideInCompany. destruct (seqb companyID ""); [done|]. intros Hd Ha.
  destruct (decide_allowed _ _ _ Hback _ _ _ Hd Ha) as (c & svc & l & Hdur & Hc & Hl & Hlive & Hco & _). simpl in Hco.
  destruct (Hco eq_refl) as [Hact [[_ Hop]|[_ [Hmem _]]]]; [left|right]; by exists c, svc, l.
Qed.

Lemma readDecision_allowed d : readDecision d = adminAllowed -> exists x, d = Some x /\ dAllowed x = true.
Proof.
  destruct d as [x|]; [|done]. simpl. destruct (dAllowed x && seqb (dReason x) "ALLOWED") eqn:E; [|by destruct (Denied x)].
  rewrite andb_true_iff in E. naive_solver.
Qed.

(** The caller of a request: a verified bearer, no header that only the gateway sets, and
    an account provisioned. *)
Definition caller (r : gwRequest) (c : AuthContext) : Prop :=
  hasUserHeader (gr_headers r) = false /\ VerifyToken parse (BearerFromHeader (authorization r)) = Ok c /\ ensure (ac_Subject c) (authorization r) = true.

(** What the catalog must say of a module that is proxied to. *)
Definition module_open (key : string) (port : Z) : Prop :=
  exists snap e, catalog = Some (Some snap) /\ snap !! key = Some e /\ me_External e = false /\ me_Installed e = true /\ me_Enabled e = true /\
    me_MissingDependencies e = [] /\ me_Port e = port.
(** The caller is an installed app. *)
Definition is_app (c : AuthContext) : Prop := exists snap, catalog = Some (Some snap) /\ AppForClient snap (ac_ClientID c) = true.
(** The request asks about the caller itself. *)
Definition about_caller (c : AuthContext) (o : outbound) : Prop := exists q, ob_query o = NewQuery q /\ q !! "kcSub" = Some [ac_Subject c].

Definition ask_paths : list string := ["/internal/authz/effective-access/can"; "/internal/authz/effective-access/batch-can"].
(** A read, and the path of a company of org. *)
Definition is_read (method : string) : Prop := method = "GET" \/ method = "HEAD".
Definition companyPath (cid suffix : string) : string := "/internal/org/companies/" +:+ cid +:+ suffix.

(** The paths of a request [r] that the caller may read about itself: the directories are
    those of the company that the path of [r] names. *)
Definition own_path (r : gwRequest) (p : string) : Prop :=
  p = "/internal/authz/effective-access/summary" \/ p = "/internal/org/me/companies" \/
  exists suffix, p = companyPath (PathValue r "companyId") suffix /\ suffix ∈ ["/members"; "/positions/directory"; "/groups/directory"].

(** What an app may ask: to write grants, and which member of the company that the path of
    [r] names a subject is. *)
Definition app_path (r : gwRequest) (method p : string) : Prop :=
  method = "POST" /\ p = "/internal/authz/grants" \/
  is_read method /\ p = companyPath (PathValue r "companyId") ("/members/by-kcsub/" +:+ PathValue r "subject").

(** The paths that name a resource by the id in the path of [r], each with the kind org is
    asked for: those a company's members read, and those its admins use. *)
Definition member_paths (r : gwRequest) : list (string * string) :=
  let id := PathValue r "id" in
  [("positions", "/internal/org/positions/" +:+ id +:+ "/holder"); ("groups", "/internal/org/groups/" +:+ id +:+ "/members")].
Definition admin_paths (r : gwRequest) : list (string * string) :=
  let id := PathValue r "id" in
  [("members", "/internal/org/members/" +:+ id); ("members", ("/internal/org/members/" +:+ id) +:+ "/link-user");
   ("positions", "/internal/org/admin/positions/" +:+ id); ("positions", "/internal/org/positions/" +:+ id +:+ "/assignments");
   ("positions", "/internal/org/positions/" +:+ id +:+ "/handover"); ("assignments", "/internal/org/assignments/" +:+ id +:+ "/end");
   ("groups", "/internal/org/groups/" +:+ id +:+ "/members"); ("groups", "/internal/org/groups/" +:+ id +:+ "/members/" +:+ PathValue r "memberId")].
(** org answers, for this bearer, that the resource is this company's. *)
Definition company_of (r : gwRequest) (kind cid : string) : Prop :=
  exists resp, orgRead kind (PathValue r "id") (authorization r) = Ok resp /\ expectOK resp = Ok cid.

(** The company that a request to org administers: the one its path names, the one the
    member list is asked for, the one the body of a new member names under this very key
    (org's decoder takes the key in any case, and org decides again on what it decoded), or
    the one of the resource that its path names. *)
Inductive administers (r : gwRequest) (o : outbound) (cid : string) : Prop :=
| by_path p : cid = PathValue r "companyId" -> ob_path o = NewPath p -> p ∈ [companyPath cid "/positions"; companyPath cid "/groups"] -> administers r o cid
| by_query q : is_read (ob_method o) -> ob_path o = NewPath "/internal/org/members" -> ob_query o = NewQuery q -> q !! "companyId" ≫= head = Some cid -> administers r o cid
| by_body : ob_method o = "POST" -> ob_path o = NewPath "/internal/org/members" -> bd_field (gr_body r) "companyId" = cid -> administers r o cid
| by_resource kind p : (kind, p) ∈ admin_paths r -> ob_path o = NewPath p -> company_of r kind cid -> administers r o cid.

(** Why the request [r], with the values of its path, may be forwarded as [o] for its caller
    [c]. *)
Inductive entitled (r : gwRequest) (c : AuthContext) (o : outbound) : Prop :=
| to_module key port : ob_target o = TModule key port -> module_open key port -> key = PathValue r "moduleKey" -> ob_path o = SamePath -> ob_query o = SameQuery -> entitled r c o
| reads_registry : is_read (ob_method o) -> ob_target o = TRegistry -> ob_path o = SamePath -> ob_query o = SameQuery -> entitled r c o
| asks_authz p : ob_target o = TAuthz -> ob_method o = "POST" -> ob_path o = NewPath p -> p ∈ ask_paths -> entitled r c o
| about_itself p : is_read (ob_method o) -> ob_path o = NewPath p -> own_path r p -> about_caller c o -> entitled r c o
| as_member kind p : is_read (ob_method o) -> ob_target o = TOrg -> ob_path o = NewPath p -> (kind, p) ∈ member_paths r ->
    company_of r kind (PathValue r "companyId") -> member_now (authorization r) (PathValue r "companyId") -> about_caller c o -> entitled r c o
| as_company_admin cid : ob_target o = TOrg -> administers r o cid -> company_admin_now verify during (authorization r) cid -> entitled r c o
| as_app p : is_app c -> ob_path o = NewPath p -> app_path r (ob_method o) p -> entitled r c o
| as_superadmin : superadmin_now verify during (authorization r) -> entitled r c o.

(** A handler behind RequireAuth, mounted for a method. *)
Definition guarded (m : string) (h : Handler) : Prop :=
  forall r c o, method_fits m (gr_method r) -> gr_auth r = Some c -> h r = GwForward o -> entitled r c o.

Lemma fits_read method : method_fits "GET" method -> is_read method.
Proof. intros [<-|[?|[-> _]]]; [by left|done|by right]. Qed.
Lemma fits_post method : method_fits "POST" method -> method = "POST".
Proof. by intros [?|[?|[_ ?]]]. Qed.

Abbreviation Superadmin := (RequireSuperadmin (Some send) correlationID).

Lemma guarded_superadmin m action h : guarded m (Superadmin action h).
Proof.
  intros r c o _ Hc. unfold RequireSuperadmin. rewrite Hc. destruct (seqb (authorization r) ""); [done|]. intros [Hd _]%onDecision_forward.
  apply readDecision_allowed in Hd as (d & Hd & Hal). apply as_superadmin. by eapply Decide_allowed.
Qed.

Lemma guarded_inCompany m action companyOf decide h :
  (forall r c cid o, method_fits m (gr_method r) -> gr_auth r = Some c -> companyOf r = Ok cid -> decide send (authorization r) action cid = adminAllowed -> h r = GwForward o -> entitled r c o) ->
  guarded m (requireInCompany (Some send) action companyOf decide h).
Proof.
  intros Hh r c o Hm Hc. unfold requireInCompany. rewrite Hc. destruct (seqb (authorization r) ""); [done|].
  destruct (companyOf r) as [cid|e] eqn:Hco; [|by destruct e]. destruct (seqb cid ""); [done|]. intros [Hd Hf]%onDecision_forward. by eapply Hh.
Qed.

Lemma guarded_companyAdmin m action companyOf h :
  (forall r cid o, method_fits m (gr_method r) -> companyOf r = Ok cid -> h r = GwForward o -> ob_target o = TOrg /\ administers r o cid) ->
  guarded m (RequireSuperadminOrCompanyAdmin (Some send) correlationID action companyOf h).
Proof.
  intros Ht. apply guarded_inCompany. intros r c cid o Hm _ Hco (d & Hd & Hal)%readDecision_allowed Hf. destruct (Ht r cid o Hm Hco Hf).
  destruct (DecideInCompany_allowed _ _ _ Hback _ _ _ _ _ Hd Hal) as [Hs|Hs]; [by apply as_superadmin|]. by eapply as_company_admin.
Qed.

(** The ways the admin routes name their company. *)
Lemma guarded_byPath m action rewrite :
  (forall r, let cid := PathValue r "companyId" in rewrite r ∈ [companyPath cid "/positions"; companyPath cid "/groups"]) ->
  guarded m (RequireSuperadminOrCompanyAdmin (Some send) correlationID action (companyFromPath "companyId") (newFixedProxy TOrg (Some rewrite))).
Proof. intros Hp. apply guarded_companyAdmin. intros r cid o _ [= <-] [= <-]. split; [done|]. by eapply by_path. Qed.

Lemma companyFromOrg_of kind r cid : companyFromOrg orgRead kind "id" r = Ok cid -> company_of r kind cid.
Proof.
  unfold companyFromOrg, company_of. destruct (orgRead _ _ _) as [resp|]; [|done]. destruct (_ =? _)%Z; [done|].
  destruct (expectOK resp) as [x|] eqn:Hx; [|done]. destruct (seqb x ""); [done|]. intros [= <-]. by exists resp.
Qed.

Lemma guarded_byResource m action kind rewrite : (forall r, (kind, rewrite r) ∈ admin_paths r) ->
  guarded m (RequireSuperadminOrCompanyAdmin (Some send) correlationID action (companyFromOrg orgRead kind "id") (newFixedProxy TOrg (Some rewrite))).
Proof. intros Hp. apply guarded_companyAdmin. intros r cid o _ Hco%companyFromOrg_of [= <-]. split; [done|]. by eapply by_resource. Qed.

Lemma guarded_byBody action :
  guarded "POST" (RequireSuperadminOrCompanyAdmin (Some send) correlationID action (companyFromBody "companyId") (newFixedProxy TOrg (Some (fixedPath "/internal/org/members")))).
Proof.
  apply guarded_companyAdmin. intros r cid o Hm%fits_post Hco [= <-]. split; [done|]. apply by_body; [done..|].
  unfold companyFromBody, readBody in Hco. destruct (gr_limit r) as [l|]; [destruct (l <? _)%Z; [done|]|].
  all: destruct (seqb (bd_field (gr_body r) "companyId") ""); [done|]; by injection Hco.
Qed.

Lemma guarded_byQuery action :
  guarded "GET" (RequireSuperadminOrCompanyAdmin (Some send) correlationID action (companyFromQuery "companyId") (newSubjectScopedProxy TOrg "/internal/org/members")).
Proof.
  apply guarded_companyAdmin. intros r cid o Hm%fits_read Hco [= <-]. split; [done|]. eapply by_query; [done..|]. rewrite lookup_insert_ne by done.
  revert Hco. unfold companyFromQuery. destruct (gr_query r !! "companyId" ≫= head) as [v|]; [|done]. simpl. destruct (seqb v ""); [done|]. congruence.
Qed.

Lemma guarded_app m action t rewrite : (forall r, method_fits m (gr_method r) -> app_path r (gr_method r) (rewrite r)) ->
  guarded m (RequireSuperadminOrApp (Some send) correlationID catalog action (newFixedProxy t (Some rewrite))).
Proof.
  intros Hp r c o Hm Hc. pose proof (guarded_superadmin m action (newFixedProxy t (Some rewrite)) r c o Hm Hc) as Hs. unfold RequireSuperadminOrApp. rewrite Hc.
  destruct catalog as [[snap|]|] eqn:Hcat; [|exact Hs..]. destruct (AppForClient snap (ac_ClientID c)) eqn:Happ; [|exact Hs].
  intros [= <-]. eapply as_app; [|done|by apply Hp]. by exists snap.
Qed.

Lemma guarded_module m : guarded m (moduleProxy correlationID catalog).
Proof.
  intros r c o _ Hc. unfold moduleProxy. destruct catalog as [[snap|]|] eqn:Hcat; [|done..]. destruct (snap !! PathValue r "moduleKey") as [e|] eqn:He; [|done].
  destruct (me_External e) eqn:E1; [done|]. destruct (me_Installed e) eqn:E2; [|done]. destruct (me_Enabled e) eqn:E3; [|done].
  destruct (me_MissingDependencies e) as [|x l] eqn:E4; [|done]. cbn [negb length Nat.ltb Nat.leb]. intros [= <-].
  eapply to_module; [reflexivity| |reflexivity..]. by exists snap, e.
Qed.

Lemma subjectProxy_about c t rewrite r o : gr_auth r = Some c -> newSubjectProxy t rewrite r = GwForward o ->
  about_caller c o /\ ob_path o = NewPath (rewrite r) /\ ob_target o = t /\ ob_method o = gr_method r.
Proof.
  intros Hc [= <-]. split; [|done]. exists (<["kcSub" := [ac_Subject c]]> (gr_query r)). simpl. unfold subjectOf. rewrite Hc. simpl.
  split; [done|]. by rewrite lookup_insert_eq.
Qed.

Lemma guarded_own t rewrite : (forall r, own_path r (rewrite r)) -> guarded "GET" (newSubjectProxy t rewrite).
Proof.
  intros Hp r c o Hm%fits_read Hc Hf. destruct (subjectProxy_about _ _ _ _ _ Hc Hf) as (Hab & Hpath & _ & Hmeth). rewrite <- Hmeth in Hm. by eapply about_itself.
Qed.

Lemma guarded_companyRead action kind rewrite : (forall r, (kind, rewrite r) ∈ member_paths r) ->
  guarded "GET" (RequireSuperadminOrCompanyMember (Some send) correlationID action (companyFromPath "companyId") (requireResourceInCompany orgRead kind "id" (newSubjectProxy TOrg rewrite))).
Proof.
  intros Hp. apply guarded_inCompany. intros r c cid o Hm%fits_read Hc [= <-] (d & Hd & Hal)%readDecision_allowed Hf.
  destruct (DecideMember_allowed _ _ _ _ _ Hd Hal) as [Hs|Hs]; [by apply as_superadmin|].
  unfold requireResourceInCompany in Hf. destruct (companyFromOrg orgRead kind "id" r) as [owner|e] eqn:Ho; [|by destruct e].
  destruct (seqb owner _) eqn:Heq; [|done]. apply seqb_true in Heq as ->. apply companyFromOrg_of in Ho.
  destruct (subjectProxy_about _ _ _ _ _ Hc Hf) as (Hab & Hpath & Ht & Hmeth). rewrite <- Hmeth in Hm. by eapply as_member.
Qed.

(** A whole request: what reaches a handler through RequireAuth. *)
Definition lets_through (m : string) (h : Handler) : Prop :=
  forall r o, method_fits m (gr_method r) -> h r = GwForward o -> ob_target o = TKeycloak \/ exists c, caller r c /\ entitled r c o.

(** What entitles a request is in neither its headers, Authorization apart, nor in what the
    middleware adds to it. *)
Lemma entitled_same r r' c o : gr_body r' = gr_body r -> gr_values r' = gr_values r -> authorization r' = authorization r -> entitled r' c o -> entitled r c o.
Proof.
  intros Hb Hv Ha.
  assert (Hp : forall name, PathValue r' name = PathValue r name) by (intros name; unfold PathValue; by rewrite Hv).
  assert (Hc : forall kind cid, company_of r' kind cid -> company_of r kind cid) by (intros kind cid; unfold company_of; by rewrite Hp, Ha).
  destruct 1 as [| | |p ? ? Hown|kind p ? ? ? Hin Hof Hnow|cid ? Had Hnow|p ? ? Happ|Hnow].
  - eapply to_module; [done..| |done|done]. by rewrite <- Hp.
  - by apply reads_registry.
  - by eapply asks_authz.
  - eapply about_itself; [done..| |done]. unfold own_path in *. by rewrite <- Hp.
  - rewrite Hp in *. rewrite Ha in Hnow. eapply as_member; [done..| |by apply Hc|done|done]. unfold member_paths in *. by rewrite Hp in Hin.
  - rewrite Ha in Hnow. eapply as_company_admin; [done| |exact Hnow]. destruct Had as [p ? ? Hin|q|? ? Hf|kind p Hin ? Hof].
    + eapply by_path; [by rewrite <- Hp|done..].
    + by eapply by_query.
    + apply by_body; [done..|]. by rewrite <- Hb.
    + eapply by_resource; [|done|by apply Hc]. unfold admin_paths in *. by rewrite !Hp in Hin.
  - eapply as_app; [done..|]. unfold app_path in *. by rewrite !Hp in Happ.
  - apply as_superadmin. by rewrite <- Ha.
Qed.

Lemma limited_auth m limit h : guarded m h -> lets_through m (limitBody limit (RequireAuth parse ensure h)).
Proof.
  intros Hh r o Hm. unfold limitBody, RequireAuth. cbn [gr_headers with_limit]. change (authorization (with_limit limit r)) with (authorization r).
  destruct (hasUserHeader (gr_headers r)) eqn:Hu; [done|]. destruct (VerifyToken parse _) as [c|[]] eqn:Hv; [|done..].
  destruct (ensure (ac_Subject c) (authorization r)) eqn:He; [|done]. intros Hf. right. exists c. split; [done|].
  by apply (entitled_same r (with_auth c (with_limit limit r))), Hh.
Qed.

Lemma never_forwards m h : (forall r o, h r <> GwForward o) -> lets_through m h.
Proof. intros Hn r o _ Hf. by destruct (Hn r o). Qed.

Lemma keycloakProxy_target trust origin strip r o : newKeycloakProxy trust origin strip r = GwForward o -> ob_target o = TKeycloak.
Proof. unfold newKeycloakProxy. destruct trust; [by intros [= <-]|]. by destruct origin as [[]|]; intros [= <-]. Qed.

Abbreviation table := (routes parse ensure (Some send) orgRead correlationID catalog cfg).

Lemma routes_let_through : Forall (fun x => lets_through (p_method (parsePattern x.1)) x.2) table.
Proof.
  assert (Hadmin : forall m action t rewrite, lets_through m (authed parse ensure (Superadmin action (newFixedProxy t rewrite)))).
  { intros. apply limited_auth, guarded_superadmin. }
  assert (Hread : lets_through "GET" (authed parse ensure (newFixedProxy TRegistry None))).
  { apply limited_auth. intros r c o Hm%fits_read _ [= <-]. by apply reads_registry. }
  assert (Hask : forall p, p ∈ ask_paths -> lets_through "POST" (authed parse ensure (newFixedProxy TAuthz (Some (fixedPath p))))).
  { intros p Hp. apply limited_auth. intros r c o Hm%fits_post _ [= <-]. by eapply asks_authz. }
  assert (Hkc : forall m f, (forall r o, f r = GwForward o -> ob_target o = TKeycloak) -> lets_through m (limitBody defaultBodyLimit f)).
  { intros m f Hf r o _ H. left. by eapply Hf. }
  unfold routes. rewrite !Forall_app. split_and!.
  - each_route ltac:(apply limited_auth, guarded_module).
  - each_route ltac:(first [exact Hread | apply Hadmin | apply limited_auth, guarded_superadmin]).
  - each_route ltac:(by apply never_forwards).
  - assert (Hdir : forall t suffix, suffix ∈ ["/members"; "/positions/directory"; "/groups/directory"] -> lets_through "GET" (authed parse ensure (newDirectoryProxy t suffix))).
    { intros t suffix Hs. apply limited_auth, guarded_own. intros r. right; right. by exists suffix. }
    each_route ltac:(first [apply Hask; set_solver | apply Hdir; set_solver | apply Hadmin
      | apply limited_auth, guarded_own; intros r; unfold own_path, fixedPath; by auto
      | apply limited_auth, guarded_companyRead; intros r; by repeat constructor
      | apply limited_auth, guarded_app; intros r Hm; first [left; split; [by apply fits_post|done] | right; split; [by apply fits_read|done]]]).
  - each_route ltac:(first [apply Hadmin | apply limited_auth; first [apply guarded_byBody | apply guarded_byQuery | apply guarded_byResource; intros r; by repeat constructor]]).
  - each_route ltac:(apply limited_auth; first [apply guarded_byPath; intros r cid; by repeat constructor | apply guarded_byResource; intros r; by repeat constructor]).
  - each_route ltac:(apply limited_auth; first [apply guarded_byPath; intros r cid; by repeat constructor | apply guarded_byResource; intros r; by repeat constructor]).
  - each_route ltac:(apply Hadmin).
  - each_route ltac:(first [by apply never_forwards | apply Hkc; by intros r o ?%keycloakProxy_target]).
  - each_route ltac:(by apply never_forwards).
  - each_route ltac:(first [apply Hkc; by intros r o ?%keycloakProxy_target | apply never_forwards; intros r o; unfold limitBody, static; by destruct (cf_StaticDir cfg)]).
Qed.

(** *** Headers and bodies *)

Definition edge_headers : list string := ["X-Forwarded-For"; "X-Forwarded-Host"; "X-Forwarded-Proto"; "X-Correlation-Id"].

(** The outbound headers are the inbound ones, or fewer, but for those of the edge; the
    body keeps its limit. *)
Definition carried (r : gwRequest) (o : outbound) : Prop := ob_limit o = gr_limit r /\
  forall name, name ∉ edge_headers -> ob_headers o !! name = None \/ ob_headers o !! name = gr_headers r !! name.
Abbreviation carries := (forwards carried).

Lemma not_edge name : name ∉ edge_headers ->
  "X-Forwarded-For" <> name /\ "X-Forwarded-Host" <> name /\ "X-Forwarded-Proto" <> name /\ "X-Correlation-Id" <> name.
Proof. unfold edge_headers. rewrite !not_elem_of_cons. naive_solver. Qed.

Lemma removeAll_lookup names (h : Headers) name : removeAll names h !! name = None \/ removeAll names h !! name = h !! name.
Proof.
  unfold removeAll. revert h. induction names as [|n names IH]; intros h; simpl; [by right|].
  destruct (IH (delete n h)) as [->| ->]; [by left|]. destruct (decide (n = name)) as [->|]; [left; by rewrite lookup_delete_eq|right; by rewrite lookup_delete_ne].
Qed.

Lemma copied_lookup r h name : name <> "X-Forwarded-For" -> copyForwardedFor r h !! name = h !! name.
Proof. intros Hn. unfold copyForwardedFor, setHeader. destruct (negb _); [|done]. by rewrite lookup_insert_ne. Qed.

Lemma carries_fixed t rewrite : carries (newFixedProxy t rewrite).
Proof. intros r o [= <-]. split; [done|]. intros name (Hff & _ & _ & Hcor)%not_edge. simpl. rewrite copied_lookup by congruence. apply removeAll_lookup. Qed.

Lemma carries_subject t rewrite : carries (newSubjectProxy t rewrite).
Proof. intros r o [= <-]. split; [done|]. intros name (Hff & _ & _ & Hcor)%not_edge. simpl. rewrite copied_lookup by congruence. apply removeAll_lookup. Qed.

Lemma carries_module : carries (moduleProxy correlationID catalog).
Proof.
  intros r o. unfold moduleProxy. destruct catalog as [[snap|]|]; [|done..]. destruct (snap !! _) as [e|]; [|done].
  destruct (me_External e); [done|]. destruct (negb (me_Installed e)); [done|]. destruct (negb (me_Enabled e)); [done|].
  destruct (0 <? _)%nat; [done|]. intros [= <-]. split; [done|]. intros name (Hff & _ & _ & Hcor)%not_edge. simpl. rewrite copied_lookup by congruence.
  unfold setHeader. destruct (negb _); [rewrite lookup_insert_ne by congruence|]; apply removeAll_lookup.
Qed.

Lemma keepHeader_other (b : bool) n v (h : Headers) name : n <> name -> (if b then setHeader n v h else h) !! name = h !! name.
Proof. destruct b; [apply setHeader_other|done]. Qed.

Lemma carries_keycloak trust origin strip : carries (newKeycloakProxy trust origin strip).
Proof.
  intros r o H.
  assert (Hl : ob_limit o = gr_limit r) by (unfold newKeycloakProxy in H; destruct trust; [|destruct origin as [[]|]]; by injection H as <-).
  split; [exact Hl|]. intros name (Hff & Hfh & Hfp & _)%not_edge. destruct (removeAll_lookup (forwardedHeaders ++ hopHeaders ++ namedByConnection (gr_headers r)) (gr_headers r) name) as [Hr|Hr]; [left|right].
  all: rewrite <- Hr; unfold newKeycloakProxy in H; destruct trust; [|destruct origin as [[]|]]; injection H as <-; cbn [ob_headers].
  all: repeat first [rewrite keepHeader_other by assumption | rewrite setHeader_other by assumption | rewrite copied_lookup by congruence].
  all: destruct (gr_remote r); [rewrite setHeader_other by assumption|]; reflexivity.
Qed.

(** A limit of at most 32 MB. *)
Definition capped (h : Handler) : Prop := forall r o, h r = GwForward o -> (exists l, ob_limit o = Some l /\ (l <= moduleProxyBodyLimit)%Z) /\
    forall name, name ∉ edge_headers -> ob_headers o !! name = None \/ ob_headers o !! name = gr_headers r !! name.
Lemma capped_limit l h : (l <= moduleProxyBodyLimit)%Z -> carries h -> capped (limitBody l h).
Proof. intros Hl Hh r o Hf. destruct (Hh _ _ Hf) as [Hlim Hn]. split; [by exists l|exact Hn]. Qed.
Lemma capped_never h : (forall r o, h r <> GwForward o) -> capped h.
Proof. intros Hn r o Hf. by destruct (Hn r o). Qed.

Lemma routes_capped : Forall (fun x => capped x.2) table.
Proof.
  unfold routes. rewrite !Forall_app. split_and!.
  all: each_route ltac:(first [by apply capped_never
    | apply capped_limit; [done|];
      each_guard ltac:(first [apply carries_fixed | apply carries_subject | apply carries_module | apply carries_keycloak | intros r o; done
        | intros r o; unfold static; by destruct (cf_StaticDir cfg)])]).
Qed.

(** *** The whole edge *)

Lemma seen_caller trust r r' c : seenByMux trust r r' -> caller r' c -> caller r c.
Proof.
  intros Hs (Hu & Hv & He). unfold caller. rewrite <- (seen_authorization _ _ _ Hs). split_and!; [|done..]. destruct Hs as (_ & _ & _ & _ & Hh).
  apply hasUserHeader_false. intros name Hp. rewrite hasUserHeader_false in Hu. rewrite <- Hh; [by apply Hu|]. intros ->. by rewrite HasPrefix_forwarded in Hp.
Qed.

Abbreviation edge := (Routes parse ensure (Some send) orgRead correlationID catalog cfg).

(** C13: what the gateway lets through.  If a request is forwarded to anything but Keycloak,
    it carried no header that only the gateway may set, its bearer verified, its account is
    provisioned, and its caller is entitled to the very request that is forwarded, by the
    values that the route took from its path: a module that the path names and the catalog
    has installed, enabled and with its dependencies, at the port it registered; a read of
    the registry; a question to the authorization service; a read about the caller itself,
    by its own subject; a read of a position's holder or a group's members that org says is
    of the company in the path, of which the caller is an admitted member; the
    administration of a company it is admitted to as its admin, which is the company that
    the forwarded path, query or body names or that org says owns the resource in the
    forwarded path; an installed app's grants and lookups; or anything, for a superadmin.
    Every forwarded body is limited to 32 MB, and no forwarded header is made up but the
    edge's own. *)
Theorem edge_authorized r o : rs_reply (edge r) = GwForward o ->
  (ob_target o = TKeycloak \/ exists b c, matchRoute table (gr_method r) (gr_path r) = Some b /\ caller r c /\ entitled (with_values (b_values b) r) c o /\
    hasUserHeader (ob_headers o) = false) /\
  (exists l, ob_limit o = Some l /\ (l <= moduleProxyBodyLimit)%Z) /\
  forall name, name ∉ edge_headers -> ob_headers o !! name = None \/ ob_headers o !! name = gr_headers r !! name.
Proof.
  intros (r' & b & Hs & Hmatch & Hf & _)%edge_route. destruct (matchRoute_from _ _ _ _ Hmatch) as (x & Hx & Hh & Hmeth). rewrite Hh in Hf.
  pose proof (proj1 (Forall_forall _ _) routes_let_through x Hx) as Hlet. pose proof (proj1 (Forall_forall _ _) routes_capped x Hx) as Hcap.
  destruct (Hcap _ _ Hf) as [Hl Hn]. pose proof Hs as (Hsm & _ & _ & Hsb & Heq).
  assert (Hn' : forall name, name ∉ edge_headers -> ob_headers o !! name = None \/ ob_headers o !! name = gr_headers r !! name).
  { intros name Hin. destruct (Hn name Hin) as [|Hv]; [by left|right]. rewrite Hv. apply Heq. apply not_edge in Hin. naive_solver. }
  split_and!; [|done|exact Hn']. rewrite <- Hsm in Hmeth. destruct (Hlet (with_values (b_values b) r') o Hmeth Hf) as [|(c & Hc & He)]; [by left|right]. exists b, c.
  assert (Hc' : caller r c) by (apply (seen_caller _ _ _ _ Hs); exact Hc). split_and!; [exact Hmatch|exact Hc'| |].
  { apply (entitled_same _ (with_values (b_values b) r')); [exact Hsb|done|exact (seen_authorization _ _ _ Hs)|exact He]. }
  destruct Hc' as (Hu & _). rewrite hasUserHeader_false in Hu. apply hasUserHeader_false. intros name Hp.
  destruct (Hn' name) as [|Hv]; [|done|by rewrite Hv, Hu].
  unfold edge_headers. intros Hin. repeat (apply elem_of_cons in Hin as [->|Hin]; [done|]). by apply not_elem_of_nil in Hin.
Qed.
End edge.

(** ** An edge

    ann is a superadmin, docs is installed and served on port 8084, and the provisioner
    knows every subject. *)

Section witnesses.
#[local] Existing Instance demoUnicode.

Definition gwParse (token : string) : option AuthContext := if seqb token "" then None else Some (mkAuthContext token "" "" "").
Definition gwEnsure (_ _ : string) : bool := true.
Definition gwAdmins : Service := demoService {[SuperadminTuple "ann"]}.
Definition gwOrgRead (kind id _ : string) : HTTP string :=
  if seqb kind "groups" && seqb id "g1" then Ok (mkResponse 200 (Some "c1"))
  else if seqb kind "groups" && seqb id "g2" then Ok (mkResponse 200 (Some "c2")) else Ok (mkResponse 404 None).
Definition gwCatalog : Snapshot := {["docs" := mkModuleEntry 8084 true true [] false ""]}.
Definition gwConfig : RoutesConfig := mkRoutesConfig true "" [] false None false.

Definition gwEdge : gwRequest -> gwResponse := Routes gwParse gwEnsure (Some (sendTo gwAdmins)) gwOrgRead "" (Some (Some gwCatalog)) gwConfig.

Definition gwAsk (method path : string) (headers : Headers) : gwRequest :=
  mkGwRequest method path "" ∅ headers "localhost" (Some "10.0.0.1") false (mkBody 2 (fun _ => "")) None None [].
Definition gwEnables : gwRequest := gwAsk "POST" "/api/platform/admin/modules/docs/enable" {["Authorization" := ["Bearer ann"]]}.
Definition gwEnabled : outbound := match rs_reply (gwEdge gwEnables) with GwForward o => o | _ => mkOutbound TKeycloak "" SamePath SameQuery TargetHost ∅ None end.

Lemma gwEnables_forwarded : rs_reply (gwEdge gwEnables) = GwForward gwEnabled.
Proof. vm_compute. reflexivity. Qed.

Lemma edge_authorized_witness :
  ob_target gwEnabled = TRegistry /\ ob_path gwEnabled = NewPath "/internal/platform/modules/docs/enable" /\
  exists (b : branch Handler) c, caller gwParse gwEnsure gwEnables c /\ PathValue (with_values (b_values b) gwEnables) "key" = "docs" /\
    entitled gwOrgRead (Some (Some gwCatalog)) demoVerify (eq gwAdmins) (with_values (b_values b) gwEnables) c gwEnabled.
Proof.
  split; [vm_compute; reflexivity|]. split; [vm_compute; reflexivity|].
  destruct (edge_authorized gwParse gwEnsure (sendTo gwAdmins) gwOrgRead "" (Some (Some gwCatalog)) gwConfig demoVerify (eq gwAdmins) (sendTo_backed gwAdmins)
    gwEnables gwEnabled gwEnables_forwarded) as [[Hk|(b & c & Hb & Hc & He & _)] _].
  - exfalso. revert Hk. vm_compute. discriminate.
  - exists b, c. split; [exact Hc|]. split; [|exact He].
    assert (Hv : option_map b_values (Some b) = Some [("key", "docs")]) by (rewrite <- Hb; vm_compute; reflexivity).
    injection Hv as Hv. unfold PathValue. cbn [gr_values with_values]. rewrite Hv. reflexivity.
Defined.

(** The same request by another account is refused, and one that names its own subject is
    not read. *)
Example others_are_refused :
  rs_reply (gwEdge (gwAsk "POST" "/api/platform/admin/modules/docs/enable" {["Authorization" := ["Bearer bob"]]})) = GwError 403 "FORBIDDEN" false /\
  rs_reply (gwEdge (gwAsk "POST" "/api/platform/admin/modules/docs/enable" {["Authorization" := ["Bearer ann"]; "X-User-Id" := ["ann"]]})) = GwError 400 "BAD_REQUEST" false.
Proof. vm_compute. done. Qed.

(** The members of a group are read in its own company only, whoever asks. *)
Example groups_stay_in_company :
  let ask path := rs_reply (gwEdge (gwAsk "GET" path {["Authorization" := ["Bearer ann"]]})) in
  (exists o, ask "/api/org/companies/c1/groups/g1/members" = GwForward o /\ ob_path o = NewPath "/internal/org/groups/g1/members") /\
  ask "/api/org/companies/c1/groups/g2/members" = GwError 404 "NOT_FOUND" false.
Proof. split; [eexists|]; by vm_compute. Qed.

(** A path value is decoded into the rewritten path: a member read with an escaped slash
    reaches the lookup by subject, which only apps and superadmins are served. *)
Example directory_reaches_by_kcsub :
  exists o, rs_reply (gwEdge (gwAsk "GET" "/api/org/companies/c1%2Fmembers%2Fby-kcsub/members" {["Authorization" := ["Bearer bob"]]})) = GwForward o /\
    ob_target o = TOrg /\ ob_path o = NewPath "/internal/org/companies/c1/members/by-kcsub/members".
Proof. eexists. vm_compute. done. Qed.
End witnesses.
