(* ===== verification/GatewayPaths.v ===== *)
(** * The edge: which paths stay off it

    Which paths are forwarded at all, and which of Keycloak's; the paths that get past the
    blocked ones. *)

From stdpp Require Import base gmap strings list.
From Stdlib Require Import Ascii.
From S2P Require Import Prelude GoStrings Clients AuthzHTTP AuthzClaims AdminClient OrgClaims OrgHTTPProps ModuleKit Mux Gateway GatewayRoutes GatewayClaims.

(** ** Patterns that fit a path *)

Fixpoint fits (segs : list seg) (path : list string) : Prop :=
  match segs, path with
  | [], [] => True
  | Lit t :: segs, s :: path => s = t /\ fits segs path
  | Wild _ :: segs, _ :: path => fits segs path
  | Multi _ :: _, _ :: _ => True
  | _, _ => False
  end.

Section fits.
Context {H : Type}.

Lemma matchPath_fits (bs : list (branch H)) path b : matchPath bs path = Some b -> exists b0, b0 ∈ bs /\ same_route b0 b /\ fits (b_rest b0) path.
Proof.
  revert bs. induction path as [|s rest IH]; intros bs; simpl.
  - intros (b0 & Hb & Hl)%head_elem%omap_elem. exists b0. unfold leaf in Hl. destruct (b_rest b0); [|done]. by injection Hl as <-.
  - assert (Hstep : forall f, (forall b1 b2, f b1 = Some b2 -> same_route b1 b2 /\ (fits (b_rest b2) rest -> fits (b_rest b1) (s :: rest))) ->
      matchPath (omap f bs) rest = Some b -> exists b0, b0 ∈ bs /\ same_route b0 b /\ fits (b_rest b0) (s :: rest)).
    { intros f Hf (b1 & (b0 & Hb & Hf0)%omap_elem & Hs & Hfit)%IH. destruct (Hf _ _ Hf0) as [Hs0 Hf1]. exists b0. split_and!; [done| |by apply Hf1].
      destruct Hs, Hs0. split; congruence. }
    destruct (matchPath (omap (literalChild s) bs) rest) as [b1|] eqn:E1.
    { intros [= <-]. apply (Hstep (literalChild s)); [|exact E1]. intros b2 b3. unfold literalChild. destruct (b_rest b2) as [|[t| |] ?]; try done.
      destruct (seqb s t) eqn:Es; [|done]. apply seqb_true in Es as ->. by intros [= <-]. }
    destruct (if seqb s "/" then None else matchPath (omap (wildChild s) bs) rest) as [b1|] eqn:E2.
    { intros [= <-]. destruct (seqb s "/"); [done|]. apply (Hstep (wildChild s)); [|exact E2]. intros b2 b3. unfold wildChild. destruct (b_rest b2) as [|[| |] ?]; try done. by intros [= <-]. }
    intros (b0 & Hb & Hm)%head_elem%omap_elem. exists b0. unfold multiChild in Hm. destruct (b_rest b0) as [|[| |] ?] eqn:Er; try done. by injection Hm as <-.
Qed.

Lemma branches_fits (routes : mux H) m path b : matchPath (branches routes m) path = Some b ->
  exists r, r ∈ routes /\ b_handler b = r.2 /\ p_method (parsePattern r.1) = m /\ fits (p_segs (parsePattern r.1)) path.
Proof.
  intros (b0 & Hb & [Hh _] & Hf)%matchPath_fits. unfold branches in Hb. apply omap_elem in Hb as (r & Hr & E). cbv zeta in E.
  destruct (seqb (p_method (parsePattern r.1)) m) eqn:Em; [|done]. apply seqb_true in Em. injection E as <-. exists r. by split_and!.
Qed.

(** A match that fits no pattern of the request's own method is of any method. *)
Lemma matchRoute_fits (routes : mux H) method path b : matchRoute routes method path = Some b ->
  (exists r, r ∈ routes /\ b_handler b = r.2 /\ p_method (parsePattern r.1) <> "" /\ fits (p_segs (parsePattern r.1)) (pathSegments path)) \/
  matchPath (branches routes "") (pathSegments path) = Some b.
Proof.
  assert (Hm : forall m, matchPath (branches routes m) (pathSegments path) = Some b ->
    (exists r, r ∈ routes /\ b_handler b = r.2 /\ p_method (parsePattern r.1) <> "" /\ fits (p_segs (parsePattern r.1)) (pathSegments path)) \/
    matchPath (branches routes "") (pathSegments path) = Some b).
  { intros m Hb. destruct (decide (m = "")) as [->|Hne]; [by right|left]. apply branches_fits in Hb as (r & ? & ? & <- & ?). by exists r. }
  unfold matchRoute. destruct (matchPath (branches routes method) _) as [b1|] eqn:E1; [intros [= ->]; by eapply Hm|].
  destruct (seqb method "HEAD"); [|by eauto]. destruct (matchPath (branches routes "GET") _) as [b1|] eqn:E2; [intros [= ->]; by eapply Hm|]. by eauto.
Qed.
End fits.

(** ** The first segments of a path *)

(** [p] is [pre] or under it. *)
Definition under (pre p : string) : Prop := p = pre \/ exists t, p = pre +:+ "/" +:+ t.
Definition no_escapes (p : string) : bool := all_chars (fun c => negb (Ascii.eqb c "%")) p.

Lemma pathUnescape_plain p : no_escapes p = true -> pathUnescape p = p.
Proof.
  intros Hp. unfold pathUnescape. enough (PathUnescape p = Some p) as -> by done. revert Hp. unfold no_escapes. induction p as [|c p IH]; [done|].
  cbn [all_chars]. rewrite andb_true_iff. intros [Hc Hp%IH]. destruct (Ascii.eqb_spec c "%"); [done|]. cbn [PathUnescape]. rewrite Hp.
  destruct c as [[] [] [] [] [] [] [] []]; try reflexivity. done.
Qed.

Lemma Split_cons sep s : exists x l, Split sep s = x :: l.
Proof. destruct s as [|c s]; simpl; [eauto|]. destruct (bool_decide _); [eauto|]. destruct (Split sep s); eauto. Qed.

(** The segments of [pre] are the first of a path under it. *)
Lemma under_segments pre segs z p :
  Split "/" pre = "" :: segs -> (forall t, Split "/" (pre +:+ "/" +:+ t) = "" :: segs ++ Split "/" t) -> last segs = Some z -> z <> "" ->
  under pre p -> exists rest, pathSegments p = (pathUnescape <$> segs) ++ rest.
Proof.
  intros H1 H2 Hl Hz [->|(t & ->)]; unfold pathSegments.
  - exists []. unfold slashEnds. rewrite H1, last_cons, Hl, (proj2 (seqb_false z "") Hz), app_nil_r. reflexivity.
  - rewrite H2. destruct (Split_cons "/" t) as (x & l & ->). cbn [tail]. destruct (slashEnds _).
    + rewrite removelast_app, fmap_app, <- app_assoc by done. eauto.
    + rewrite fmap_app. eauto.
Qed.

(** ** What reaches Keycloak *)

Section paths.
Context `{UC : Unicode} (parse : string -> option AuthContext) (ensure : string -> string -> bool).
Context (client : option (string -> adminWire -> option adminResponse)) (orgRead : string -> string -> string -> HTTP string).
Context (correlationID : string) (catalog : option (option Snapshot)) (cfg : RoutesConfig).

Abbreviation table := (routes parse ensure client orgRead correlationID catalog cfg).
Abbreviation edge := (Routes parse ensure client orgRead correlationID catalog cfg).
Abbreviation protected_ := (protected parse ensure correlationID catalog).
Abbreviation notFound := (limitBody defaultBodyLimit writeInternalNotFound).
Abbreviation authProxy := (limitBody defaultBodyLimit (NewAuthProxy (cf_TrustProxyHeaders cfg) (cf_publicOrigin cfg))).
Abbreviation verbatim := (limitBody defaultBodyLimit (NewKeycloakVerbatimProxy (cf_TrustProxyHeaders cfg) (cf_publicOrigin cfg))).
Abbreviation staticRoute := (limitBody defaultBodyLimit (static cfg)).

Definition anyMethod (segs : list seg) (pattern : string) (h : Handler) : branch Handler := mkBranch segs [] (parsePattern pattern) h.
Lemma any_method_branches : branches table "" =
  [anyMethod [Lit "api"; Wild "moduleKey"] "/api/{moduleKey}" protected_; anyMethod [Lit "api"; Wild "moduleKey"; Multi "rest"] "/api/{moduleKey}/{rest...}" protected_;
   anyMethod [Lit "internal"; Multi ""] "/internal/" notFound; anyMethod [Lit "auth"; Multi ""] "/auth/" authProxy;
   anyMethod [Lit "auth"; Lit "admin"] "/auth/admin" notFound; anyMethod [Lit "auth"; Lit "admin"; Multi ""] "/auth/admin/" notFound;
   anyMethod [Lit "auth"; Lit "realms"; Lit "master"] "/auth/realms/master" notFound; anyMethod [Lit "auth"; Lit "realms"; Lit "master"; Multi ""] "/auth/realms/master/" notFound;
   anyMethod [Lit "realms"; Lit "master"] "/realms/master" notFound; anyMethod [Lit "realms"; Lit "master"; Multi ""] "/realms/master/" notFound;
   anyMethod [Lit "resources"; Multi ""] "/resources/" verbatim; anyMethod [Lit "realms"; Multi ""] "/realms/" verbatim; anyMethod [Multi ""] "/" staticRoute].
Proof. reflexivity. Qed.

Lemma methods_under_api : forallb (fun x => seqb (p_method (parsePattern x.1)) "" || bool_decide (head (p_segs (parsePattern x.1)) = Some (Lit "api"))) table = true.
Proof. vm_compute. reflexivity. Qed.

Abbreviation elsewhere := (forwards (fun _ o => ob_target o <> TKeycloak)).

Lemma elsewhere_limit l h : elsewhere h -> elsewhere (limitBody l h).
Proof. intros Hh r o. apply Hh. Qed.
Lemma elsewhere_fixed t rewrite : t <> TKeycloak -> elsewhere (newFixedProxy t rewrite).
Proof. by intros Ht r o [= <-]. Qed.
Lemma elsewhere_subject t rewrite : t <> TKeycloak -> elsewhere (newSubjectProxy t rewrite).
Proof. by intros Ht r o [= <-]. Qed.
Lemma elsewhere_module : elsewhere (moduleProxy correlationID catalog).
Proof.
  intros r o. unfold moduleProxy. destruct catalog as [[snap|]|]; [|done..]. destruct (snap !! _) as [e|]; [|done].
  destruct (me_External e); [done|]. destruct (negb (me_Installed e)); [done|]. destruct (negb (me_Enabled e)); [done|].
  destruct (0 <? _)%nat; [done|]. by intros [= <-].
Qed.

(** No route under /api is Keycloak's. *)
Lemma api_elsewhere : Forall (fun x => head (p_segs (parsePattern x.1)) = Some (Lit "api") -> elsewhere x.2) table.
Proof.
  unfold routes. rewrite !Forall_app. split_and!.
  all: each_route ltac:(intros Hx; first [discriminate Hx
    | apply elsewhere_limit; each_guard ltac:(first [by apply elsewhere_fixed | by apply elsewhere_subject | apply elsewhere_module | by apply forwards_never])]).
Qed.

(** The path Keycloak gets for a path at the edge. *)
Definition sentPath (path : string) (o : outbound) : string := match ob_path o with SamePath => path | NewPath p => p end.

(** The segments, decoded, of a path that may reach Keycloak. *)
Inductive keycloak_path (path : string) (o : outbound) : list string -> Prop :=
| under_auth rest : ob_path o = NewPath (let p := TrimPrefix (pathUnescape path) "/auth" in if seqb p "" then "/" else p) ->
    head rest <> Some "admin" -> ~ (exists more, rest = "realms" :: "master" :: more) -> keycloak_path path o ("auth" :: rest)
| under_realms rest : ob_path o = SamePath -> head rest <> Some "master" -> keycloak_path path o ("realms" :: rest)
| under_resources rest : ob_path o = SamePath -> keycloak_path path o ("resources" :: rest).

Lemma authProxy_forward r o : authProxy r = GwForward o ->
  ob_target o = TKeycloak /\ ob_path o = NewPath (let p := TrimPrefix (gr_urlPath r) "/auth" in if seqb p "" then "/" else p).
Proof.
  unfold limitBody, NewAuthProxy, newKeycloakProxy. cbn [gr_path with_limit]. change (gr_urlPath (with_limit defaultBodyLimit r)) with (gr_urlPath r).
  destruct (cf_TrustProxyHeaders cfg); [by intros [= <-]|]. by destruct (cf_publicOrigin cfg) as [[]|]; intros [= <-].
Qed.
Lemma verbatim_forward r o : verbatim r = GwForward o -> ob_target o = TKeycloak /\ ob_path o = SamePath.
Proof.
  unfold limitBody, NewKeycloakVerbatimProxy, newKeycloakProxy.
  destruct (cf_TrustProxyHeaders cfg); [by intros [= <-]|]. by destruct (cf_publicOrigin cfg) as [[]|]; intros [= <-].
Qed.
Lemma static_never r o : staticRoute r <> GwForward o.
Proof. unfold limitBody, static. by destruct (cf_StaticDir cfg). Qed.

(** The blocked paths are served by their own routes. *)
Lemma blocked_first path b :
  matchPath (branches table "") path = Some b ->
  (exists rest, path = "auth" :: "admin" :: rest) \/ (exists rest, path = "auth" :: "realms" :: "master" :: rest) \/ (exists rest, path = "realms" :: "master" :: rest) ->
  b_handler b = notFound.
Proof.
  rewrite any_method_branches. intros Hm [(rest & ->)|[(rest & ->)|(rest & ->)]]; revert Hm.
  all: destruct rest as [|s rest]; simpl; rewrite ?matchPath_nil; [by intros [= <-]|].
  all: destruct (seqb s "/"); by intros [= <-].
Qed.

Lemma any_method_forward path b r o :
  matchPath (branches table "") path = Some b -> b_handler b r = GwForward o ->
  (head path = Some "api" /\ ob_target o <> TKeycloak) \/ (ob_target o = TKeycloak /\ keycloak_path (gr_path r) o path).
Proof.
  intros Hm Hf. pose proof Hm as Hb. rewrite any_method_branches in Hm. apply matchPath_fits in Hm as (b0 & Hin & [Hh _] & Hfit).
  assert (Hopen : b_handler b <> notFound) by (intros E; by rewrite E in Hf). rewrite Hh in Hf.
  assert (Hnot : forall p, path = p -> ~ ((exists rest, p = "auth" :: "admin" :: rest) \/ (exists rest, p = "auth" :: "realms" :: "master" :: rest) \/ (exists rest, p = "realms" :: "master" :: rest))).
  { intros p <- Hbl. by apply Hopen, (blocked_first path). }
  assert (Hprot : elsewhere protected_) by (apply elsewhere_limit; each_guard ltac:(apply elsewhere_module)).
  repeat (apply elem_of_cons in Hin as [->|Hin]; [|]); [..|by apply not_elem_of_nil in Hin]; cbn [b_handler b_rest anyMethod] in Hf, Hfit; try discriminate Hf.
  all: destruct path as [|s rest]; [done|]; cbn [fits] in Hfit.
  - destruct Hfit as [-> _]. left. split; [done|]. by apply Hprot in Hf.
  - destruct Hfit as [-> _]. left. split; [done|]. by apply Hprot in Hf.
  - destruct Hfit as [-> _]. apply authProxy_forward in Hf as [Ht Hp]. right. split; [done|]. apply under_auth; [exact Hp| |].
    + destruct rest as [|s rest]; [done|]. intros [= ->]. eapply Hnot; [reflexivity|]. eauto.
    + intros (more & ->). eapply Hnot; [reflexivity|]. eauto.
  - destruct Hfit as [-> _]. apply verbatim_forward in Hf as [Ht Hp]. right. split; [done|]. by apply under_resources.
  - destruct Hfit as [-> _]. apply verbatim_forward in Hf as [Ht Hp]. right. split; [done|]. apply under_realms; [exact Hp|].
    destruct rest as [|s rest]; [done|]. intros [= ->]. eapply Hnot; [reflexivity|]. eauto.
  - by apply static_never in Hf.
Qed.

(** Where a path that may reach Keycloak does not go. *)
Lemma keycloak_path_plain path o : keycloak_path path o (pathSegments path) -> no_escapes path = true ->
  ~ under "/admin" (sentPath path o) /\ ~ under "/realms/master" (sentPath path o).
Proof.
  intros Hk Hplain.
  assert (Hseg : forall pre segs z p, Split "/" pre = "" :: segs -> (forall t, Split "/" (pre +:+ "/" +:+ t) = "" :: segs ++ Split "/" t) -> last segs = Some z -> z <> "" ->
    forall s rest, pathSegments p = s :: rest -> (forall more, (pathUnescape <$> segs) ++ more <> s :: rest) -> ~ under pre p).
  { intros pre segs z p H1 H2 H3 H4 s rest Hs Hne Hu. destruct (under_segments _ _ _ _ H1 H2 H3 H4 Hu) as (more & E). apply (Hne more). congruence. }
  unfold sentPath. inversion Hk as [rest Hp Hna Hnm Hs|rest Hp Hnm Hs|rest Hp Hs]; symmetry in Hs; rewrite Hp.
  - rewrite (pathUnescape_plain _ Hplain). cbv zeta. unfold TrimPrefix. destruct (HasPrefix path "/auth") eqn:Hpre.
    + apply HasPrefix_spec in Hpre as (t & ->). rewrite drop_str_app. destruct (seqb t ""); [split; by intros [|(t' & ?)]|].
      split; intros [->|(t' & ->)]; revert Hs.
      * intros [= <-]. by apply Hna.
      * intros Hs. eapply (Hseg "/auth/admin" ["auth"; "admin"]); [done..|exact Hs| |by right; exists t']. intros more [= <-]. by apply Hna.
      * intros [= <-]. apply Hnm. by exists [].
      * intros Hs. eapply (Hseg "/auth/realms/master" ["auth"; "realms"; "master"]); [done..|exact Hs| |by right; exists t']. intros more [= <-]. apply Hnm. by exists more.
    + destruct (seqb path ""); [split; by intros [|(t' & ?)]|]. split; [eapply (Hseg "/admin" ["admin"])|eapply (Hseg "/realms/master" ["realms"; "master"])]; done.
  - split; [by eapply (Hseg "/admin" ["admin"])|]. eapply (Hseg "/realms/master" ["realms"; "master"]); [done..|exact Hs|]. intros more [= <-]. by apply Hnm.
  - split; [by eapply (Hseg "/admin" ["admin"])|by eapply (Hseg "/realms/master" ["realms"; "master"])].
Qed.

(** C14: what stays off the edge.  A forwarded request goes to a service, and its path is
    under /api; or it goes to Keycloak, and its decoded segments are under /auth but
    neither /auth/admin nor /auth/realms/master, under /realms but not /realms/master, or
    under /resources.  Nothing under /internal, /metrics or any other path is forwarded,
    with any method.  If the path has no escapes, what Keycloak is asked for is under
    neither /admin nor /realms/master, and but for CONNECT no dot segment is left in it. *)
Theorem edge_closed r o : rs_reply (edge r) = GwForward o ->
  ((head (pathSegments (gr_path r)) = Some "api" /\ ob_target o <> TKeycloak) \/
   (ob_target o = TKeycloak /\ keycloak_path (gr_path r) o (pathSegments (gr_path r)) /\
    (no_escapes (gr_path r) = true -> ~ under "/admin" (sentPath (gr_path r) o) /\ ~ under "/realms/master" (sentPath (gr_path r) o)))) /\
  (gr_method r = "CONNECT" \/ cleanPath (gr_path r) = gr_path r).
Proof.
  intros (r' & b & (_ & Hpath & _) & Hm & Hf & Hclean)%edge_route. split; [|exact Hclean].
  apply matchRoute_fits in Hm as [(x & Hx & Hh & Hne & Hfit)|Hm].
  - left. pose proof (proj1 (forallb_forall _ _) methods_under_api x (proj1 (list_elem_of_In _ _) Hx)) as Hapi.
    apply orb_true_iff in Hapi as [E|E]; [by apply seqb_true in E|]. apply bool_decide_eq_true in E. rewrite Hh in Hf.
    split; [|exact (proj1 (Forall_forall _ _) api_elsewhere x Hx E _ _ Hf)].
    destruct (p_segs (parsePattern x.1)) as [|y l]; [done|]. injection E as ->. destruct (pathSegments _) as [|s rest]; [done|]. by destruct Hfit as [-> _].
  - destruct (any_method_forward _ _ _ _ Hm Hf) as [Ha|[Ht Hk]]; [by left|right]. split; [done|].
    change (gr_path (with_values (b_values b) r')) with (gr_path r') in Hk. rewrite Hpath in Hk. split; [done|]. by apply keycloak_path_plain.
Qed.
End paths.

(** ** The escapes *)

Section witnesses.
#[local] Existing Instance demoUnicode.

Definition gwLogin : gwRequest := gwAsk "GET" "/auth/realms/kiban/account" ∅.
Definition gwLoggedIn : outbound := match rs_reply (gwEdge gwLogin) with GwForward o => o | _ => mkOutbound TOrg "" SamePath SameQuery TargetHost ∅ None end.
Lemma gwLogin_forwarded : rs_reply (gwEdge gwLogin) = GwForward gwLoggedIn.
Proof. vm_compute. reflexivity. Qed.

Lemma edge_closed_witness : ob_target gwLoggedIn = TKeycloak /\ sentPath (gr_path gwLogin) gwLoggedIn = "/realms/kiban/account" /\
  ~ under "/admin" (sentPath (gr_path gwLogin) gwLoggedIn).
Proof.
  split; [vm_compute; reflexivity|]. split; [vm_compute; reflexivity|].
  destruct (edge_closed gwParse gwEnsure (Some (sendTo gwAdmins)) gwOrgRead "" (Some (Some gwCatalog)) gwConfig gwLogin gwLoggedIn gwLogin_forwarded) as [[[_ Hk]|(_ & _ & Hp)] _].
  - exfalso. apply Hk. vm_compute. reflexivity.
  - apply Hp. vm_compute. reflexivity.
Defined.

(** With an escaped slash the blocked paths are passed by: the mux matches the segment
    "master/protocol", and the proxy sends the decoded path, without a bearer. *)
Example keycloak_through_escapes :
  (exists o, rs_reply (gwEdge (gwAsk "GET" "/auth/realms/master%2Fprotocol/openid-connect/auth" ∅)) = GwForward o /\
     ob_target o = TKeycloak /\ ob_path o = NewPath "/realms/master/protocol/openid-connect/auth") /\
  (exists o, rs_reply (gwEdge (gwAsk "GET" "/auth/admin%2Fmaster/console/" ∅)) = GwForward o /\
     ob_target o = TKeycloak /\ ob_path o = NewPath "/admin/master/console/").
Proof. split; eexists; vm_compute; done. Qed.

(** Unescaped they are not forwarded. *)
Example keycloak_blocked :
  rs_reply (gwEdge (gwAsk "GET" "/auth/realms/master/protocol/openid-connect/auth" ∅)) = GwError 404 "NOT_FOUND" false /\
  rs_reply (gwEdge (gwAsk "GET" "/auth/admin/master/console/" ∅)) = GwError 404 "NOT_FOUND" false.
Proof. vm_compute. done. Qed.
End witnesses.
