(* ===== verification/GatewayCatalog.v ===== *)
(** * The gateway's catalog

    internal/gateway/catalog.go: the snapshot of the registry's modules, refreshed by one
    request at a time and shared by those that wait for it, as a step relation on the calls
    of Get in progress; and how old what a call returns can be. *)

From stdpp Require Import base gmap strings list relations.
From Stdlib Require Import Lia.
From S2P Require Import Prelude GoStrings ModuleKit Mux Gateway.

(** ** What the registry answers *)

(** [catalogRow] and [capabilityRow], in the fields the routes read. *)
Record catalogRow := mkCatalogRow { cr_ModuleKey : string; cr_Port : Z; cr_Installed : bool; cr_Enabled : bool; cr_External : bool; cr_ServiceClientID : string }.
Record capabilityRow := mkCapabilityRow { cap_Module : string; cap_MissingDependencies : list string }.

(** [fetch]: the snapshot of two answers; of two rows with one key the later one counts. *)
Definition missingByKey (caps : list capabilityRow) : gmap string (list string) :=
  foldl (fun m r => <[cap_Module r := cap_MissingDependencies r]> m) ∅ caps.
Definition entryOf (missing : gmap string (list string)) (r : catalogRow) : ModuleEntry :=
  mkModuleEntry (cr_Port r) (cr_Installed r) (cr_Enabled r) (default [] (missing !! cr_ModuleKey r)) (cr_External r) (cr_ServiceClientID r).
Definition snapshotOf (rows : list catalogRow) (caps : list capabilityRow) : Snapshot :=
  foldl (fun m r => <[cr_ModuleKey r := entryOf (missingByKey caps) r]> m) ∅ rows.

Lemma snapshotOf_row rows caps key e : snapshotOf rows caps !! key = Some e -> exists r, r ∈ rows /\ cr_ModuleKey r = key /\ e = entryOf (missingByKey caps) r.
Proof.
  unfold snapshotOf. generalize (missingByKey caps). intros missing.
  induction rows as [|r rows IH] using rev_ind; [simpl; by rewrite lookup_empty|]. rewrite foldl_snoc, lookup_insert_Some.
  intros [[<- <-]|[_ (r' & Hr & Hk)%IH]]; [exists r|exists r']; rewrite elem_of_app, list_elem_of_singleton; auto.
Qed.

(** catalogCacheTTL, catalogTimeout and defaultCatalogMaxStale, in seconds. *)
Definition catalogCacheTTL : Z := 5.
Definition catalogTimeout : Z := 5.
Definition defaultCatalogMaxStale : Z := 60.

(** ** Calls of Get *)

(** A call: [at_] is when it took the lock first.  It returned at [done], or waits for the
    fetch of call [k], or fetches: it has asked for the catalog, or has its rows of [g] and
    asked for the capabilities, or has both or an error and waits for the lock. *)
Inductive catalogCall : Type :=
| Waiting (at_ : Z) (k : nat)
| Fetching (at_ : Z)
| Listed (at_ : Z) (rows : list catalogRow) (g : Z)
| Fetched (at_ : Z) (got : option (Snapshot * Z))
| Got (at_ done : Z) (res : option Snapshot).

(** The client: the snapshot with its [fetchedAt], the call whose fetch is in flight, whether
    the last one failed; the calls, and what the registry's catalog answered when. *)
Record catalogState := mkCatalogState {
  ct_now : Z; ct_snapshot : option (Snapshot * Z); ct_inflight : option nat; ct_lastErr : bool;
  ct_calls : list catalogCall; ct_told : list (list catalogRow * Z)
}.

Section catalog.
Context (ttl maxStale timeout : Z).

(** [resultLocked] *)
Definition resultLocked (s : catalogState) : option Snapshot :=
  match ct_snapshot s with
  | None => None
  | Some (snap, fetchedAt) => if ct_lastErr s then if (ct_now s - fetchedAt <? maxStale)%Z then Some snap else None else Some snap
  end.

(** The snapshot a call returns at once. *)
Definition fresh (s : catalogState) : option Snapshot :=
  match ct_snapshot s with
  | Some (snap, fetchedAt) => if (ct_now s - fetchedAt <? ttl)%Z then Some snap else None
  | None => None
  end.

(** A fetch lasts no longer than its context. *)
Definition within (now : Z) (c : catalogCall) : Prop :=
  match c with Fetching a | Listed a _ _ | Fetched a _ => (now <= a + timeout)%Z | _ => True end.

Definition with_calls (f : list catalogCall -> list catalogCall) (s : catalogState) : catalogState :=
  mkCatalogState (ct_now s) (ct_snapshot s) (ct_inflight s) (ct_lastErr s) (f (ct_calls s)) (ct_told s).
(** What a finished fetch leaves. *)
Definition settle (got : option (Snapshot * Z)) (s : catalogState) : catalogState :=
  mkCatalogState (ct_now s) (match got with Some x => Some x | None => ct_snapshot s end) None (match got with Some _ => false | None => true end) (ct_calls s) (ct_told s).

(** [Get], by the calls in progress. *)
Inductive catalog_step : catalogState -> catalogState -> Prop :=
| ct_time d s : (0 <= d)%Z -> Forall (within (ct_now s + d)) (ct_calls s) ->
    catalog_step s (mkCatalogState (ct_now s + d) (ct_snapshot s) (ct_inflight s) (ct_lastErr s) (ct_calls s) (ct_told s))
| ct_hit snap s : fresh s = Some snap -> catalog_step s (with_calls (fun cs => cs ++ [Got (ct_now s) (ct_now s) (Some snap)]) s)
| ct_wait k s : fresh s = None -> ct_inflight s = Some k -> catalog_step s (with_calls (fun cs => cs ++ [Waiting (ct_now s) k]) s)
| ct_fetch s : fresh s = None -> ct_inflight s = None ->
    catalog_step s (mkCatalogState (ct_now s) (ct_snapshot s) (Some (length (ct_calls s))) (ct_lastErr s) (ct_calls s ++ [Fetching (ct_now s)]) (ct_told s))
| ct_list i a rows s : ct_calls s !! i = Some (Fetching a) ->
    catalog_step s (mkCatalogState (ct_now s) (ct_snapshot s) (ct_inflight s) (ct_lastErr s) (<[i := Listed a rows (ct_now s)]> (ct_calls s)) (ct_told s ++ [(rows, ct_now s)]))
| ct_fetched i a rows g caps s : ct_calls s !! i = Some (Listed a rows g) ->
    catalog_step s (with_calls (<[i := Fetched a (Some (snapshotOf rows caps, ct_now s))]>) s)
| ct_no_list i a s : ct_calls s !! i = Some (Fetching a) -> catalog_step s (with_calls (<[i := Fetched a None]>) s)
| ct_no_caps i a rows g s : ct_calls s !! i = Some (Listed a rows g) -> catalog_step s (with_calls (<[i := Fetched a None]>) s)
| ct_store i a got s : ct_calls s !! i = Some (Fetched a got) ->
    catalog_step s (with_calls (<[i := Got a (ct_now s) (resultLocked (settle got s))]>) (settle got s))
| ct_wake i a k b r d s : ct_calls s !! i = Some (Waiting a k) -> ct_calls s !! k = Some (Got b d r) ->
    catalog_step s (with_calls (<[i := Got a (ct_now s) (resultLocked s)]>) s).

Definition catalogNew (now : Z) : catalogState := mkCatalogState now None None false [] [].

(** *** What every state keeps *)

(** The snapshot is of an answer given since [lo]. *)
Definition sourced (told : list (list catalogRow * Z)) (now : Z) (snap : Snapshot) (lo : Z) : Prop :=
  exists rows caps g, (rows, g) ∈ told /\ snap = snapshotOf rows caps /\ (lo <= g <= now)%Z.

(** A waiting call finds a result that is not older than it, or an error. *)
Definition settled (s : catalogState) (a : Z) : Prop :=
  ct_lastErr s = false -> exists snap f, ct_snapshot s = Some (snap, f) /\ sourced (ct_told s) (ct_now s) snap (a - timeout).

Definition in_flight (c : catalogCall) : option Z := match c with Fetching a | Listed a _ _ | Fetched a _ => Some a | _ => None end.

(** How old what a call returns can be. *)
Definition recent (told : list (list catalogRow * Z)) (a done : Z) (snap : Snapshot) : Prop :=
  exists rows caps g, (rows, g) ∈ told /\ snap = snapshotOf rows caps /\ (g <= done)%Z /\ (a - timeout <= g \/ done < g + Z.max ttl maxStale + timeout)%Z.

Definition call_ok (s : catalogState) (i : nat) (c : catalogCall) : Prop :=
  match c with
  | Waiting a k => (a <= ct_now s)%Z /\ exists c, ct_calls s !! k = Some c /\
      match c with Got _ _ _ => settled s a | Waiting _ _ => False | Fetching b | Listed b _ _ | Fetched b _ => ct_inflight s = Some k end
  | Fetching a => (a <= ct_now s <= a + timeout)%Z /\ ct_inflight s = Some i
  | Listed a rows g => (a <= g <= ct_now s)%Z /\ (ct_now s <= a + timeout)%Z /\ (rows, g) ∈ ct_told s /\ ct_inflight s = Some i
  | Fetched a got => (a <= ct_now s <= a + timeout)%Z /\ ct_inflight s = Some i /\
      match got with Some (snap, f) => (f <= ct_now s)%Z /\ (f <= a + timeout)%Z /\ sourced (ct_told s) (ct_now s) snap a | None => True end
  | Got a done res => (done <= ct_now s)%Z /\ match res with Some snap => recent (ct_told s) a done snap | None => True end
  end.

Record catalog_ok (s : catalogState) : Prop := {
  co_snapshot : forall snap f, ct_snapshot s = Some (snap, f) -> (f <= ct_now s)%Z /\ sourced (ct_told s) (ct_now s) snap (f - timeout);
  co_inflight : forall k, ct_inflight s = Some k -> exists c, ct_calls s !! k = Some c /\ is_Some (in_flight c);
  co_call : forall i c, ct_calls s !! i = Some c -> call_ok s i c
}.

Lemma sourced_mono told told' now now' snap lo lo' :
  told ⊆ told' -> (now <= now')%Z -> (lo' <= lo)%Z -> sourced told now snap lo -> sourced told' now' snap lo'.
Proof. intros Ht Hn Hl (rows & caps & g & Hg & Hs & Hb). exists rows, caps, g. split; [by apply Ht|]. split; [done|lia]. Qed.

Lemma recent_mono told told' a done snap : told ⊆ told' -> recent told a done snap -> recent told' a done snap.
Proof. intros Ht (rows & caps & g & Hg & H). exists rows, caps, g. split; [by apply Ht|done]. Qed.

(** What is returned under the lock. *)
Lemma resultLocked_recent s a snap :
  (forall snap f, ct_snapshot s = Some (snap, f) -> (f <= ct_now s)%Z /\ sourced (ct_told s) (ct_now s) snap (f - timeout)) -> settled s a -> resultLocked s = Some snap -> recent (ct_told s) a (ct_now s) snap.
Proof.
  intros Hok Hset. unfold resultLocked. destruct (ct_snapshot s) as [[sn f]|] eqn:Hs; [|done].
  destruct (Hok _ _ eq_refl) as [Hf (rows & caps & g & Hg & Hsn & Hb)]. destruct (ct_lastErr s) eqn:He.
  - destruct (ct_now s - f <? maxStale)%Z eqn:Hage; [|done]. intros [= <-]. apply Z.ltb_lt in Hage. exists rows, caps, g. split_and!; [done..|lia|right; lia].
  - intros [= <-]. destruct (Hset He) as (sn' & f' & Hs' & (rows' & caps' & g' & Hg' & Hsn' & Hb')). rewrite Hs in Hs'. injection Hs' as <- <-.
    exists rows', caps', g'. split_and!; [done..|lia|left; lia].
Qed.

Lemma fresh_recent s snap : catalog_ok s -> fresh s = Some snap -> recent (ct_told s) (ct_now s) (ct_now s) snap.
Proof.
  intros Hok. unfold fresh. destruct (ct_snapshot s) as [[sn f]|] eqn:Hs; [|done]. destruct (_ <? ttl)%Z eqn:Hage; [|done]. intros [= <-]. apply Z.ltb_lt in Hage.
  destruct (co_snapshot _ Hok _ _ Hs) as [Hf (rows & caps & g & Hg & Hsn & Hb)]. exists rows, caps, g. split_and!; [done..|lia|right; lia].
Qed.

(** The kinds of a call a waiting one sees. *)
Inductive kind : Type := Waits | Flies | Done.
Definition kind_of (c : catalogCall) : kind := match c with Waiting _ _ => Waits | Got _ _ _ => Done | _ => Flies end.

Lemma call_ok_within s i c : call_ok s i c -> within (ct_now s) c.
Proof. destruct c as [| | |a [[]|]|]; simpl; lia || tauto. Qed.

(** A step that moves no fetch past its end keeps a call. *)
Lemma call_ok_step s s' i c :
  (ct_told s ⊆ ct_told s') -> (ct_now s <= ct_now s')%Z -> within (ct_now s') c ->
  (ct_inflight s' = ct_inflight s \/ ct_inflight s = None) ->
  (forall k c0, ct_calls s !! k = Some c0 -> kind_of c0 <> Waits -> exists c1, ct_calls s' !! k = Some c1 /\ kind_of c1 = kind_of c0) ->
  (forall a, settled s a -> settled s' a) ->
  call_ok s i c -> call_ok s' i c.
Proof.
  intros Ht Hn Hw Hfl Hcalls Hset. assert (Hin : forall k, ct_inflight s = Some k -> ct_inflight s' = Some k) by (intros k E; destruct Hfl; congruence).
  destruct c as [a k|a|a rows g|a got|a d res]; simpl in *.
  - intros (Ha & c & Hc & Hk). split; [lia|]. destruct (Hcalls k c Hc) as (c1 & Hc1 & Hkind); [by destruct c|]. exists c1. split; [done|].
    destruct c, c1; try done; eauto.
  - intros [? ?]. split; [lia|auto].
  - intros (? & ? & ? & ?). split_and!; [lia..|by apply Ht|auto].
  - intros (? & ? & Hg). split_and!; [lia..|auto|]. destruct got as [[snap f]|]; [|done]. destruct Hg as (? & ? & Hs). split_and!; [lia..|].
    by eapply sourced_mono; [..|exact Hs]; [done|lia|lia].
  - intros (? & Hr). split; [lia|]. destruct res; [|done]. by eapply recent_mono.
Qed.

Lemma settled_keep s s' a :
  (ct_told s ⊆ ct_told s') -> (ct_now s <= ct_now s')%Z -> ct_snapshot s' = ct_snapshot s -> ct_lastErr s' = ct_lastErr s -> settled s a -> settled s' a.
Proof.
  intros Ht Hn Hs He H Hl. rewrite He in Hl. destruct (H Hl) as (snap & f & Hsn & Hg). exists snap, f. rewrite Hs. split; [done|]. by eapply sourced_mono; [..|exact Hg]; [done|lia|lia].
Qed.

(** The call that changed, and the others. *)
Lemma calls_insert (cs : list catalogCall) i c c' j d : cs !! i = Some c -> <[i:=c']> cs !! j = Some d -> (j = i /\ d = c') \/ (j <> i /\ cs !! j = Some d).
Proof. intros Hi. rewrite list_lookup_insert_Some. intros [(-> & -> & _)|[? ?]]; [by left|by right]. Qed.

(** A step that changes one call from one stage of its fetch to the next. *)
Lemma stage_ok s s' i c c' :
  catalog_ok s -> ct_calls s !! i = Some c -> ct_calls s' = <[i := c']> (ct_calls s) -> kind_of c = Flies -> kind_of c' = Flies ->
  (ct_told s ⊆ ct_told s') -> ct_now s' = ct_now s -> ct_snapshot s' = ct_snapshot s -> ct_lastErr s' = ct_lastErr s -> ct_inflight s' = ct_inflight s ->
  call_ok s' i c' -> catalog_ok s'.
Proof.
  intros Hok Hi Hcs Hk Hk' Ht Hn Hsn He Hfl Hc'.
  assert (Hlook : forall k c0, ct_calls s !! k = Some c0 -> exists c1, ct_calls s' !! k = Some c1 /\ kind_of c1 = kind_of c0).
  { intros k c0 Hc0. rewrite Hcs. destruct (decide (k = i)) as [->|Hne].
    - exists c'. rewrite list_lookup_insert_eq by (by eapply lookup_lt_Some). split; [done|congruence].
    - exists c0. by rewrite list_lookup_insert_ne. }
  split.
  - intros snap f. rewrite Hsn, Hn. intros Hs. destruct (co_snapshot _ Hok _ _ Hs) as [? Hg]. split; [done|]. by eapply sourced_mono; [..|exact Hg]; [done|lia|lia].
  - intros k. rewrite Hfl. intros Hin. destruct (co_inflight _ Hok k Hin) as (c0 & Hc0 & Hf0). destruct (Hlook k c0 Hc0) as (c1 & Hc1 & E). exists c1. split; [done|].
    destruct c0, c1; try done; by apply is_Some_None in Hf0.
  - intros j d. rewrite Hcs. intros [[-> ->]|[Hne Hd]]%(calls_insert _ _ _ _ _ _ Hi); [done|]. pose proof (co_call _ Hok j d Hd) as Hd'.
    apply (call_ok_step s s'); [done|lia|rewrite Hn; exact (call_ok_within s j d Hd')|by left|intros; by apply Hlook| |done].
    intros a. apply settled_keep; [done|lia|done|done].
Qed.

(** A call that begins. *)
Lemma arrival_ok s c fl :
  catalog_ok s -> (fl = ct_inflight s \/ ct_inflight s = None /\ fl = Some (length (ct_calls s)) /\ kind_of c = Flies) ->
  let s' := mkCatalogState (ct_now s) (ct_snapshot s) fl (ct_lastErr s) (ct_calls s ++ [c]) (ct_told s) in
  call_ok s' (length (ct_calls s)) c -> catalog_ok s'.
Proof.
  intros Hok Hfl s' Hc. split.
  - exact (co_snapshot _ Hok).
  - intros k Hk. cbn in Hk. subst fl. destruct Hfl as [E|(E & [= ->] & Hf)].
    + destruct (co_inflight _ Hok k (eq_sym E)) as (c0 & Hc0 & Hf0). exists c0. split; [|done]. cbn. by apply lookup_app_l_Some.
    + exists c. cbn. rewrite list_lookup_middle by done. split; [done|]. destruct c; try discriminate Hf; simpl; eauto.
  - intros i d. cbn. rewrite lookup_app_Some, list_lookup_singleton_Some. intros [Hd|(Hlen & Hi & <-)].
    + pose proof (co_call _ Hok i d Hd) as Hd'.
      apply (call_ok_step s s'); [done|done|exact (call_ok_within s i d Hd')|cbn; destruct Hfl as [->|(-> & _)]; auto| |done|done].
      intros k c0 Hc0 _. exists c0. split; [|done]. cbn. by apply lookup_app_l_Some.
    + replace i with (length (ct_calls s)) by lia. exact Hc.
Qed.

(** A call that returns. *)
Lemma return_ok s s' i c a0 res :
  catalog_ok s -> ct_calls s !! i = Some c ->
  (kind_of c = Flies /\ ct_inflight s' = None \/ kind_of c = Waits /\ ct_inflight s' = ct_inflight s) ->
  ct_told s' = ct_told s -> ct_now s' = ct_now s ->
  (forall snap f, ct_snapshot s' = Some (snap, f) -> (f <= ct_now s)%Z /\ sourced (ct_told s) (ct_now s) snap (f - timeout)) ->
  (forall a, (a <= ct_now s)%Z -> settled s a \/ kind_of c = Flies -> settled s' a) ->
  ct_calls s' = <[i := Got a0 (ct_now s) res]> (ct_calls s) -> call_ok s' i (Got a0 (ct_now s) res) -> catalog_ok s'.
Proof.
  intros Hok Hi Hk Ht Hn Hsn Hset Hcs Hgot. pose proof (co_call _ Hok i c Hi) as Hci.
  assert (Hlt : (i < length (ct_calls s))%nat) by (by eapply lookup_lt_Some).
  assert (Hflight : kind_of c = Flies -> ct_inflight s = Some i) by (intros E; destruct c; try discriminate E; simpl in Hci; tauto).
  split.
  - intros snap f. rewrite Ht, Hn. apply Hsn.
  - intros k Hin. destruct Hk as [[_ E]|[Hw E]]; [congruence|]. rewrite E in Hin. destruct (co_inflight _ Hok k Hin) as (c0 & Hc0 & Hf0).
    exists c0. split; [|done]. rewrite Hcs, list_lookup_insert_ne; [done|]. intros <-. rewrite Hi in Hc0. injection Hc0 as <-. destruct c; try done. by apply is_Some_None in Hf0.
  - intros j d. rewrite Hcs. intros [[-> ->]|[Hne Hd]]%(calls_insert _ _ _ _ _ _ Hi).
    { exact Hgot. }
    pose proof (co_call _ Hok j d Hd) as Hd'.
    destruct d as [a k|a|a rows g|a got|a d r]; simpl in Hd' |- *; rewrite ?Ht, ?Hn; try exact Hd'.
    + destruct Hd' as (Ha & ck & Hck & Hk'). split; [lia|]. destruct (decide (k = i)) as [->|Hki].
      * eexists. rewrite Hcs, list_lookup_insert_eq by done. split; [done|]. rewrite Hi in Hck. injection Hck as <-. apply Hset; [done|].
        destruct c; first [by right | by left].
      * exists ck. rewrite Hcs, list_lookup_insert_ne by done. split; [done|]. destruct ck as [| | | |? ? ?]; try done.
        1-3: destruct Hk as [[Hf E]|[Hw E]]; [exfalso; rewrite (Hflight Hf) in Hk'; congruence|by rewrite E].
        apply Hset; [done|by left].
    + destruct Hk as [[Hf E]|[Hw E]]; [exfalso; rewrite (Hflight Hf) in Hd'; naive_solver|by rewrite E].
    + destruct Hk as [[Hf E]|[Hw E]]; [exfalso; rewrite (Hflight Hf) in Hd'; naive_solver|by rewrite E].
    + destruct Hk as [[Hf E]|[Hw E]]; [exfalso; rewrite (Hflight Hf) in Hd'; naive_solver|by rewrite E].
Qed.

Lemma catalog_step_ok s s' : (0 <= timeout)%Z -> catalog_step s s' -> catalog_ok s -> catalog_ok s'.
Proof.
  intros Htm Hstep Hok. destruct Hstep as [d s Hd Hw|snap s Hf|k s Hf Hk|s Hf Hk|i a rows s Hi|i a rows g caps s Hi|i a s Hi|i a rows g s Hi|i a got s Hi|i a k b r d s Hi Hk].
  - split; cbn.
    + intros snap f Hs. destruct (co_snapshot _ Hok _ _ Hs) as [? Hg]. split; [lia|]. by eapply sourced_mono; [..|exact Hg]; [done|lia|lia].
    + exact (co_inflight _ Hok).
    + intros i c Hc. rewrite Forall_lookup in Hw. apply (call_ok_step s); [done|cbn; lia|exact (Hw i c Hc)|by left|eauto| |by apply co_call].
      intros a. apply settled_keep; [done|cbn; lia|done|done].
  - apply arrival_ok; [done|by left|]. simpl. split; [lia|]. by apply fresh_recent.
  - apply arrival_ok; [done|by left|]. simpl. split; [lia|]. destruct (co_inflight _ Hok k Hk) as (c & Hc & Hfl). exists c.
    split; [by apply lookup_app_l_Some|]. destruct c; try done; by apply is_Some_None in Hfl.
  - apply arrival_ok; [done|by right|]. simpl. split; [lia|done].
  - pose proof (co_call _ Hok i _ Hi) as [Hb Hfl]. eapply stage_ok; [done|exact Hi|done|done|done|cbn; set_solver|done..|].
    simpl. split_and!; [lia..|set_solver|done].
  - pose proof (co_call _ Hok i _ Hi) as (? & ? & Hin & Hfl). eapply stage_ok; [done|exact Hi|done..|]. simpl. split_and!; [lia..|done|lia|lia|]. exists rows, caps, g. split_and!; [done..|lia|lia].
  - pose proof (co_call _ Hok i _ Hi) as [Hb Hfl]. eapply stage_ok; [done|exact Hi|done..|]. simpl. split_and!; [lia..|done|done].
  - pose proof (co_call _ Hok i _ Hi) as (? & ? & Hin & Hfl). eapply stage_ok; [done|exact Hi|done..|]. simpl. split_and!; [lia..|done|done].
  - pose proof (co_call _ Hok i _ Hi) as (Hb & Hfl & Hgot).
    assert (Hset : forall a', (a' <= ct_now s)%Z -> settled (settle got s) a').
    { intros a' Ha'. unfold settled, settle. destruct got as [[snap f]|]; cbn; [|done]. intros _. exists snap, f. split; [done|].
      destruct Hgot as (_ & _ & Hg). by eapply sourced_mono; [..|exact Hg]; [done|lia|lia]. }
    assert (Hsn : forall snap f, ct_snapshot (settle got s) = Some (snap, f) -> (f <= ct_now s)%Z /\ sourced (ct_told s) (ct_now s) snap (f - timeout)).
    { destruct got as [[sn f']|]; cbn; [|apply (co_snapshot _ Hok)]. intros snap f [= <- <-]. destruct Hgot as (? & ? & Hg). split; [done|].
      by eapply sourced_mono; [..|exact Hg]; [done|lia|lia]. }
    eapply (return_ok s _ i _ a); [done|exact Hi|by left|done|done|exact Hsn| |done|].
    + intros a' Ha' _. exact (Hset a' Ha').
    + cbn. split; [lia|]. destruct (resultLocked (settle got s)) as [snap|] eqn:Hr; [|done].
      refine (resultLocked_recent (settle got s) a snap Hsn (Hset a _) Hr). lia.
  - pose proof (co_call _ Hok i _ Hi) as (Ha & c & Hc & Hs). rewrite Hk in Hc. injection Hc as <-.
    eapply (return_ok s _ i _ a); [done|exact Hi|by right|done|done|apply (co_snapshot _ Hok)| |done|].
    + intros a' Ha' [Hset|Hfl]; [|done]. by eapply settled_keep.
    + cbn. split; [lia|]. destruct (resultLocked s) as [snap|] eqn:Hr; [|done]. exact (resultLocked_recent s a snap (co_snapshot _ Hok) Hs Hr).
Qed.
End catalog.

(** The registry's answer has the module off. *)
Definition module_off (key : string) (rows : list catalogRow) : Prop := forall r, r ∈ rows -> cr_ModuleKey r = key -> cr_Installed r && cr_Enabled r = false.

Lemma off_not_forwarded `{UC : Unicode} key rows caps correlationID r o :
  module_off key rows -> PathValue r "moduleKey" = key -> moduleProxy correlationID (Some (Some (snapshotOf rows caps))) r <> GwForward o.
Proof.
  intros Hoff Hkey. unfold moduleProxy. rewrite Hkey. destruct (snapshotOf rows caps !! key) as [e|] eqn:He; [|done].
  apply snapshotOf_row in He as (row & Hrow & Hk & ->). specialize (Hoff row Hrow Hk). apply andb_false_iff in Hoff. cbn.
  destruct (cr_External row); [done|]. destruct Hoff as [->|Hoff]; [done|]. destruct (cr_Installed row); [|done]. by rewrite Hoff.
Qed.

(** C15: how old the catalog can be.  However calls of Get interleave, at most one fetches
    at a time, and one that waits waits for it or for one that is done.  What a call returns
    was answered by the registry at most one timeout before the call began, or less than the
    time to live or the bound on staleness, and one timeout, before it returned.  So from
    that long after a module was switched off on, no request is proxied to it. *)
Theorem catalog_fresh `{UC : Unicode} ttl maxStale timeout now s :
  (0 <= timeout)%Z -> rtc (catalog_step ttl maxStale timeout) (catalogNew now) s ->
  (forall i j c d, ct_calls s !! i = Some c -> ct_calls s !! j = Some d -> is_Some (in_flight c) -> is_Some (in_flight d) -> i = j) /\
  (forall i a k, ct_calls s !! i = Some (Waiting a k) -> exists c, ct_calls s !! k = Some c /\ kind_of c <> Waits) /\
  forall i a done snap, ct_calls s !! i = Some (Got a done (Some snap)) ->
    (exists rows caps g, (rows, g) ∈ ct_told s /\ snap = snapshotOf rows caps /\ (g <= done)%Z /\ (a - timeout <= g \/ done < g + Z.max ttl maxStale + timeout)%Z) /\
    forall key since, (forall rows g, (rows, g) ∈ ct_told s -> (since <= g)%Z -> module_off key rows) ->
      (since + timeout <= a)%Z -> (since + Z.max ttl maxStale + timeout <= done)%Z ->
      forall correlationID r o, PathValue r "moduleKey" = key -> moduleProxy correlationID (Some (Some snap)) r <> GwForward o.
Proof.
  intros Ht Hs. assert (Hok : catalog_ok ttl maxStale timeout s).
  { assert (H0 : catalog_ok ttl maxStale timeout (catalogNew now)) by (split; [done|done|done]).
    revert H0. induction Hs; eauto using catalog_step_ok. }
  assert (Hfl : forall i c, ct_calls s !! i = Some c -> is_Some (in_flight c) -> ct_inflight s = Some i).
  { intros i c Hc Hf. pose proof (co_call _ _ _ _ Hok i c Hc) as H. destruct c; simpl in H; [by apply is_Some_None in Hf|tauto..|by apply is_Some_None in Hf]. }
  split_and!.
  - intros i j c d Hc Hd Hfc Hfd. apply Hfl in Hc; [|done]. apply Hfl in Hd; [|done]. congruence.
  - intros i a k Hc. destruct (co_call _ _ _ _ Hok i _ Hc) as (_ & c & Hk & H). exists c. split; [done|]. by destruct c.
  - intros i a d snap Hc. destruct (co_call _ _ _ _ Hok i _ Hc) as (_ & rows & caps & g & Hg & -> & Hgd & Hage). split; [by exists rows, caps, g|].
    intros key since Hoff Ha Hd cid r o. apply off_not_forwarded. apply (Hoff rows g Hg). lia.
Qed.

(** ** A switched-off module *)

Section witnesses.
#[local] Instance plainText : Unicode := {| unicodeTrimSpace := id; unicodeToUpper := id; unicodeFields := fun s => [s] |}.

Definition docsOff : list catalogRow := [mkCatalogRow "docs" 8084 true false false ""].
Definition gotOff : catalogState :=
  mkCatalogState 2 (Some (snapshotOf docsOff [], 2%Z)) None false [Got 0 2 (Some (snapshotOf docsOff []))] [(docsOff, 1%Z)].
Definition asksDocs : gwRequest :=
  mkGwRequest "GET" "/api/docs" "" ∅ ∅ "localhost" None false (mkBody 0 (fun _ => "")) None None [("moduleKey", "docs")].

Lemma gotOff_reached : rtc (catalog_step catalogCacheTTL defaultCatalogMaxStale catalogTimeout) (catalogNew 0) gotOff.
Proof.
  eapply rtc_l; [by apply ct_fetch|]. eapply rtc_l; [apply (ct_time _ _ _ 1); [lia|by repeat constructor]|].
  eapply rtc_l; [by apply (ct_list _ _ _ 0 0 docsOff)|]. eapply rtc_l; [apply (ct_time _ _ _ 1); [lia|by repeat constructor]|].
  eapply rtc_l; [by apply (ct_fetched _ _ _ 0 0 docsOff 1 [])|]. eapply rtc_l; [by apply (ct_store _ _ _ 0 0 (Some (snapshotOf docsOff [], 2%Z)))|]. apply rtc_refl.
Qed.

Definition toDocs : outbound := mkOutbound (TModule "docs" 8084) "GET" SamePath SameQuery InboundHost ∅ None.

Lemma catalog_fresh_witness : ct_calls gotOff !! 0%nat = Some (Got 0 2 (Some (snapshotOf docsOff []))) /\
  moduleProxy "" (Some (Some (snapshotOf docsOff []))) asksDocs <> GwForward toDocs.
Proof.
  split; [reflexivity|].
  refine (proj2 (proj2 (proj2 (catalog_fresh catalogCacheTTL defaultCatalogMaxStale catalogTimeout 0 gotOff ltac:(done) gotOff_reached)) 0%nat 0 2 _ eq_refl)
    "docs" (-100) _ _ _ "" asksDocs toDocs eq_refl)%Z.
  - intros rows g Hin _. apply list_elem_of_singleton in Hin as [= -> ->]. intros r Hr _. by apply list_elem_of_singleton in Hr as ->.
  - done.
  - done.
Defined.
End witnesses.
