(* ===== verification/Platform.v ===== *)
(** * The services together

    The decision's upstream answers are the replies of identity's, registry's and org's
    own handlers: what an allowed request says of the tables of all four services. *)

From stdpp Require Import base gmap strings list relations.
From S2P Require Import Prelude GoStrings Model Tuple Eval EvalSpec EvalProofs Engine Fragment TupleStore Decision DecisionProps Clients AuthzHTTP AuthzProps AuthzClaims.
From S2P Require Import OrgTree Org OrgStore OrgClaims OrgHTTP ModuleKit ModuleRules.
From S2P Require Import Registry RegistrySeed RegistryHTTP RegistryEffects RegistryTables RegistryClaims.
From S2P Require Import Identity IdentityKC IdentityHTTP OrgReads OrgReadsClaims.

(** ** Wires

    What the clients of clients.go decode from the body of a 200. *)

Definition decodeUserState (r : idReply) : option userState :=
  match r with IdData 200 (BState st) => Some (mkUserState (st_Lifecycle st) (st_KCEnabled st)) | _ => None end.
Definition decodeCapability (r : rgReply) : option bool :=
  match r with RgData 200 (BCapability c) => Some (cap_Enabled c) | _ => None end.
Definition decodeCompanyState (r : readReply) : option companyStateData :=
  match r with ReadData (DCompanyState exists_ isActive) => Some (mkCompanyData exists_ isActive) | _ => None end.
Definition decodeMembership (r : readReply) : option membershipData :=
  match r with ReadData (DMemberFact isMember isActive _) => Some (mkMembershipData isMember isActive) | _ => None end.

Section platform.
Context `{UT : UUIDText} `{OR : OrgReading} (parseUUID : string -> option UUID).
Context (verify : string -> option Claims) (uuid_ok : string -> bool) (authz : Service -> Prop).

(** A handler answered [a]: some run of it whose calls met states of which [P] holds,
    whatever other requests did in between. *)
Definition answered {DB E A} (P : DB -> Prop) (p : prog DB E A) (a : A) : Prop :=
  exists w steps w', run verify uuid_ok authz (fun _ _ => True) p w steps a w' /\ Forall (fun s => P (w_store s)) (steps.*1).

(** The states of the services while the request is decided, and what Keycloak, or its
    cache, says of the enabled flags. *)
Context (idSeen : IdDB -> Prop) (regSeen : RegDB -> Prop) (orgSeen : OrgDB -> Prop).
Context (sources : (string -> string * option kc_error) -> Prop).

(** A 200 is decoded from a reply of the upstream's handler. *)
Definition from_handler {DB E A R} (P : DB -> Prop) (p : prog DB E R) (decode : R -> option A) (answer : HTTP A) : Prop :=
  forall resp a, answer = Ok resp -> StatusCode resp = StatusOK -> Decoded resp = Some a ->
    exists r, answered P p r /\ decode r = Some a.

Record backed (svc : Service) : Prop := {
  backed_state : forall sub, exists source, sources source /\
    from_handler idSeen (handleUserState source sub) decodeUserState (svc_state svc sub);
  backed_capability : forall m, from_handler regSeen (handleCapabilityOne m) decodeCapability (svc_capability svc m);
  backed_company : forall c, from_handler orgSeen (handleCompanyState parseUUID c) decodeCompanyState (svc_company svc c);
  backed_membership : forall c sub, from_handler orgSeen (handleMemberByKcSub parseUUID c sub) decodeMembership (svc_membership svc c sub)
}.

(** ** What the replies say of the tables *)

Abbreviation says P := (safe verify uuid_ok authz (fun w => P (w_store w)) (fun w w' => w' = w)).

Lemma answered_says {DB E A} (P : DB -> Prop) (p : prog DB E A) a (Q : A -> Prop) : answered P p a -> says P p Q -> Q a.
Proof. intros (w & steps & w' & Hr & Hs) Hp. exact (proj2 (run_safe _ _ _ _ _ _ _ _ _ _ _ _ Hr Hs Hp)). Qed.

(** A read that runs alone meets one state. *)
Lemma says_alone {DB E A} (P : DB -> Prop) (p : prog DB E A) Q w steps a w' :
  says P p Q -> P (w_store w) -> run verify uuid_ok authz eq p w steps a w' -> answered P p a.
Proof.
  intros Hp Hw Hr. assert (Hs : Forall (fun s => P (w_store s)) (steps.*1)).
  { induction Hr as [a w|X c k w x w1 w2 steps a w3 Hx <- Hr IH]; [constructor|]. destruct (Hp w x w1 Hw Hx) as [-> Hk]. constructor; [done|by apply IH]. }
  exists w, steps, w'. split; [|done]. clear -Hr. induction Hr as [|X c k w x w1 w2 steps a w3 Hx Hb Hr IH]; [constructor|by econstructor].
Qed.

(** The account a state answer is about. *)
Definition account_of (sub lifecycle : string) : Prop :=
  exists db id r, idSeen db /\ accounts db !! id = Some r /\ ac_KcSub r = sub /\ ac_Lifecycle r = lifecycle.

Lemma state_says source sub :
  says idSeen (handleUserState source sub) (fun r => forall st, decodeUserState r = Some st -> account_of sub (Lifecycle st) /\ KCEnabled st = (source sub).1).
Proof.
  apply safe_orError, safe_poolBind, safe_poolBind. intros w x w' Hw [env Hx]. unfold GetUserAccountByKcSub, read in Hx.
  destruct (tx_broken env); [by destruct Hx as [-> ->]|]. destruct Hx as [-> ->]. split; [by destruct w|]. cbn.
  destruct (accountBySub (w_store w) sub) as [[id row]|] eqn:E; cbn; [|done]. intros st [= <-]. split; [|done].
  apply find_where_Some in E as [E Es]. by exists (w_store w), id, row.
Qed.

Definition ready_seen (m : string) : Prop := exists db, regSeen db /\ module_ready db m = true.

Lemma says_reg_select {A} (f : RegDB -> A) (Q : result reg_error A -> Prop) :
  Q (Err RegDatabase) -> (forall db, regSeen db -> Q (Ok (f db))) -> says regSeen (Registry.select (M := Registry.Pool) f) Q.
Proof.
  intros He Hok w x w' Hw [env Hx]. unfold autocommit in Hx. destruct (tx_broken env); destruct Hx as [-> ->]; simpl; [done|].
  split; [by destruct w|auto].
Qed.

Lemma capabilityOf_enabled db k entry features client deps :
  cap_Enabled (capabilityOf k entry features client deps (statusRows db (k :: deps))).1 = module_ready db k.
Proof.
  unfold capabilityOf, module_ready. cbn [fst cap_Enabled]. rewrite status_rows by left. by destruct (installation db !! k).
Qed.

Lemma capability_says m : says regSeen (Capability_ m) (fun r => match r with Ok a => cap_Enabled a.1 = true -> ready_seen m | Err _ => True end).
Proof.
  unfold Capability_, ex_bind, pool_executor.
  apply safe_bind, says_reg_select; [done|]. intros db1 _. destruct (catalog db1 !! m) as [entry|]; [|done].
  apply safe_bind, says_reg_select; [done|]. intros db2 _. destruct (c_Features <$> catalog db2 !! m) as [features|]; [|done].
  apply safe_bind. apply (safe_mono _ _ _ _ _ _ (fun _ => True)).
  2:{ destruct (_ =? 0)%Z; [by apply says_reg_select|done]. }
  intros [client|] _; [|done]. apply safe_bind, says_reg_select; [done|]. intros db3 _. apply safe_bind, says_reg_select; [done|]. intros db4 H4.
  intros Hen. exists db4. split; [done|]. etransitivity; [symmetry; apply capabilityOf_enabled|exact Hen].
Qed.

Lemma handleCapabilityOne_says m : says regSeen (handleCapabilityOne m) (fun r => decodeCapability r = Some true -> ready_seen m).
Proof.
  apply safe_orError. eapply safe_mono; [|exact (capability_says m)]. intros [a|e]; cbn; [intros Hc [= Hen]; auto|by destruct e].
Qed.

(** The company is a company of org, and active. *)
Definition active_company (c : UUID) : Prop :=
  exists db u, orgSeen db /\ units db !! c = Some u /\ is_company db c = true /\ u_active u = true.
(** The subject is linked to an active member of the company. *)
Definition linked_member (c : UUID) (sub : string) : Prop :=
  exists db i m, orgSeen db /\ members db !! i = Some m /\ m_company m = c /\ memberKcSub db m = Some sub /\ m_active m = true.

Lemma says_query {A} (f : OrgDB -> result org_error A) (Q : result org_error A -> Prop) :
  Q (Err ErrDatabase) -> (forall db, orgSeen db -> Q (f db)) -> says orgSeen (OrgReads.onPool (fun env => query (tx_fails env) f)) Q.
Proof. intros He Hf. apply (safe_query verify uuid_ok authz (fun w => orgSeen (w_store w)) (fun _ => f) Q); auto. Qed.

Lemma company_says c :
  says orgSeen (handleCompanyState parseUUID c) (fun r => forall d, decodeCompanyState r = Some d -> ExistsField d = true -> Clients.IsActive d = true ->
    exists cid, parseUUID c = Some cid /\ active_company cid).
Proof.
  unfold handleCompanyState, pathUUID.
  destruct (parseUUID c) as [cid|]; cbn [orReply bind]; [|done].
  apply safe_orError, says_query; [done|]. intros db Hdb.
  destruct (units db !! cid) as [u|] eqn:E; [|by intros d [= <-]]. destruct (is_company db cid) eqn:Hc; [|by intros d [= <-]].
  intros d [= <-] _ Hu. exists cid. split; [done|]. by exists db, u.
Qed.

Lemma membership_says c sub :
  says orgSeen (handleMemberByKcSub parseUUID c sub) (fun r => forall d, decodeMembership r = Some d -> IsMemberField d = true -> MemberActive d = true ->
    exists cid, parseUUID c = Some cid /\ linked_member cid sub).
Proof.
  unfold handleMemberByKcSub, pathUUID.
  destruct (parseUUID c) as [cid|]; cbn [orReply bind]; [|done].
  apply safe_orError, says_query; [done|]. intros db Hdb.
  destruct (memberByKcSub db cid sub) as [[i m]|] eqn:E; [|by intros d [= <-]].
  intros d [= <-] _ Hm. exists cid. split; [done|]. apply fmap_Some in E as ([j [k v]] & E & [= <- <-]).
  apply list_find_Some in E as (E & [Hco Hs] & _). exists db, i, m. split_and!; [done| |done..]. by apply elem_of_map_to_list, list_elem_of_lookup_2 with j.
Qed.

(** ** What an allowed request means *)

Section allowed.
Context (svc : Service) (l : Loaded) (tbl : Table).
Context (Hback : backed svc) (Hclean : clean_table tbl) (Hdb : db_answers tbl True (svc_db svc)).

Lemma from_reply {DB E A R} (P : DB -> Prop) (p : prog DB E R) (decode : R -> option A) answer resp a :
  from_handler P p decode answer -> answer = Ok resp -> expectOK resp = Ok a -> exists r, answered P p r /\ decode r = Some a.
Proof.
  intros Hf Ha. unfold expectOK, decoded. destruct (StatusCode resp =? StatusOK)%Z eqn:Hs; [|done]. destruct (Decoded resp) as [x|] eqn:Hd; [|done].
  intros [= ->]. eapply Hf; [done| |done]. by apply Z.eqb_eq.
Qed.

Lemma fetched sub st : fetchState (svc_state svc) sub = Ok (Some st) ->
  account_of sub (Lifecycle st) /\ exists source, sources source /\ KCEnabled st = (source sub).1.
Proof.
  unfold fetchState. intros (resp & Hr & H)%result_bind_ok. destruct (_ =? StatusNotFound)%Z; [done|].
  apply result_bind_ok in H as (out & Ho & [= ->]). destruct (backed_state _ Hback sub) as (source & Hs & Hf).
  destruct (from_reply _ _ _ _ _ _ Hf Hr Ho) as (r & Hans & Hd). destruct (answered_says _ _ _ _ Hans (state_says source sub) _ Hd). eauto.
Qed.

(** The subject has an active account, and its enabled flag is "true". *)
Definition account_enabled (sub : string) : Prop :=
  account_of sub "active" /\ exists source, sources source /\ (source sub).1 = KCStateTrue.

Lemma subject_enabled req : subject_active (serviceDeps svc l) req -> account_enabled (req_SubjectID req).
Proof.
  intros [(s & Hs & Hf & Ha) (kc & Hkc & Hu & Hfalse)]. cbn in Hs, Hkc. unfold Lookup in Hs. unfold IdentityEnabled in Hkc.
  apply result_bind_ok in Hs as (o & Ho & Hs). apply result_bind_ok in Hkc as (o' & Ho' & Hkc). rewrite Ho in Ho'. injection Ho' as <-.
  destruct o as [st|]; [|by injection Hs as <-]. injection Hs as <-. destruct (fetched _ _ Ho) as [Hacc (source & Hsrc & Hk)].
  apply seqb_true in Ha. rewrite Ha in Hacc. split; [done|]. exists source. split; [done|]. rewrite <- Hk.
  destruct (seqb (KCEnabled st) "true") eqn:Et; [by apply seqb_true in Et|].
  destruct (seqb (KCEnabled st) "false"); by injection Hkc as <-.
Qed.

Lemma company_active c :
  (exists cs, Company_State (serviceDeps svc l) c = Ok cs /\ CExists cs = true /\ CActive cs = true) ->
  exists cid, parseUUID c = Some cid /\ active_company cid.
Proof.
  intros (cs & Hc & Hex & Hac). cbn in Hc. unfold OrgState in Hc. apply result_bind_ok in Hc as (resp & Hr & (out & Ho & [= <-])%result_bind_ok).
  destruct (from_reply _ _ _ _ _ _ (backed_company _ Hback c) Hr Ho) as (r & Hans & Hd). exact (answered_says _ _ _ _ Hans (company_says c) _ Hd Hex Hac).
Qed.

Lemma member_linked c sub :
  (exists ms, Membership_Membership (serviceDeps svc l) c sub = Ok ms /\ Decision.IsMember ms = true /\ Blocked ms = false) ->
  exists cid, parseUUID c = Some cid /\ linked_member cid sub.
Proof.
  intros (ms & Hm & Hin & Hbl). cbn in Hm. unfold OrgMembership in Hm. apply result_bind_ok in Hm as (resp & Hr & (out & Ho & Hms)%result_bind_ok).
  destruct (from_reply _ _ _ _ _ _ (backed_membership _ Hback c sub) Hr Ho) as (r & Hans & Hd).
  destruct (IsMemberField out) eqn:E; injection Hms as <-; [|done]. apply negb_false_iff in Hbl. exact (answered_says _ _ _ _ Hans (membership_says c sub) _ Hd E Hbl).
Qed.

Lemma module_seen m : ModuleState_Enabled (serviceDeps svc l) m = Ok true -> ready_seen m.
Proof.
  cbn. unfold RegistryEnabled. intros (resp & Hr & H)%result_bind_ok. destruct (_ =? StatusNotFound)%Z; [done|].
  destruct (from_reply _ _ _ _ _ _ (backed_capability _ Hback m) Hr H) as (r & Hans & Hd). exact (answered_says _ _ _ _ Hans (handleCapabilityOne_says m) Hd).
Qed.

Lemma operator_granted sub role : PlatformRole_HasRole (serviceDeps svc l) sub role = Ok true ->
  role = PlatformRoleSuperadmin /\ grants (LModel l) tbl "user" sub "" "system" "platform" "superadmin".
Proof.
  cbn. unfold enginePlatformRole. destruct (seqb role PlatformRoleSuperadmin) eqn:E; [|done]. apply seqb_true in E. intros H.
  split; [done|]. by apply (checkerCheck_grants svc tbl Hclean Hdb) in H.
Qed.

(** Everything an allowed request at company scope says, of a subject. *)
Definition platform_operator (req : canRequestWire) (sub : string) : Prop :=
  wAllowPlatformOperator req = true /\ wRequiredPlatformRole req = PlatformRoleSuperadmin /\
  grants (LModel l) tbl "user" sub "" "system" "platform" "superadmin".
Definition holds_company_role (req : canRequestWire) (sub : string) : Prop :=
  wRequiredCompanyRole req <> "" -> grants (LModel l) tbl "user" sub "" "company" (wCompanyID req) (wRequiredCompanyRole req).
Definition in_company_of (req : canRequestWire) (sub : string) : Prop :=
  exists cid, parseUUID (wCompanyID req) = Some cid /\ active_company cid /\
    (platform_operator req sub \/ linked_member cid sub /\ holds_company_role req sub).
Definition module_available (req : canRequestWire) : Prop := canModule req = FoundationModuleKey \/ ready_seen (canModule req).
Definition object_reached (req : canRequestWire) (sub : string) : Prop :=
  wRelation req <> "" -> bound_to tbl l (wCompanyID req) (canModule req) (wObject req) /\
    grants (LModel l) tbl "user" sub (wCompanyID req) (RType (wObject req)) (RID (wObject req)) (wRelation req).

Lemma company_scope_means req sub :
  nul_free (wCompanyID req) -> in_active_company (serviceDeps svc l) (toDecisionRequest req (canModule req) sub) -> in_company_of req sub.
Proof.
  intros Hn [Hco Hin]. destruct (company_active _ Hco) as (cid & Hp & Hact). exists cid. split; [done|]. split; [done|].
  destruct Hin as [[Hop Hrole]|[_ [Hm Hrole]]].
  - left. destruct (operator_granted _ _ Hrole) as [He Hg]. by split_and!.
  - right. destruct (member_linked _ _ Hm) as (cid' & Hp' & Hl). cbn in Hp, Hp'. rewrite Hp in Hp'. injection Hp' as <-. split; [done|].
    intros Hne. specialize (Hrole Hne). by apply (checkerCheck_grants svc tbl Hclean Hdb) in Hrole.
Qed.
End allowed.

(** C12: what an allowed request means across the services.  Let every 200 of identity,
    registry and org be decoded from a reply of their own handlers, run over the states
    their tables were in while the request was decided, whatever other requests did in
    between.  If /can allows a request at company scope, then the bearer's subject had an
    account of lifecycle active that Keycloak, or its cache, said was enabled; the
    company id names an active company unit; the subject was linked to an active member
    of that company and has the role asked for by its tuples, or the request admits
    platform operators and the tuples make the subject a superadmin; the module is the
    foundation or its installation was installed and enabled; and a relation asked for
    is the one the tuples declare on an object bound to that company and module. *)
Theorem allowed_across_services svc l tbl f header req w d w' :
  backed svc -> effectiveEngine svc = Some l -> clean_table tbl -> db_answers tbl True (svc_db svc) ->
  nul_free (wCompanyID req) -> nul_free (RType (wObject req)) -> nul_free (RID (wObject req)) -> wScope req <> "global" ->
  handleCan verify svc f header (Some req) w = (WriteDecision d, w') -> Allowed d = true ->
  exists c, bearerClaims verify header = Ok c /\ account_enabled (Subject c) /\ in_company_of l tbl req (Subject c) /\
    module_available req /\ object_reached l tbl req (Subject c).
Proof.
  intros Hback Hl Hcl Hdb Hn Ht Hi Hsc H Had. pose proof H as Hcan.
  apply handleCan_allowed in H as (c & req' & l' & Hc & [= <-] & Hl' & Hg); [|done].
  rewrite Hl in Hl'. injection Hl' as <-. fold (canModule req) in Hg. exists c. split; [done|].
  assert (Hs : req_Scope (toDecisionRequest req (canModule req) (Subject c)) = ScopeCompany).
  { simpl. by rewrite (proj2 (seqb_false _ _) Hsc). }
  unfold access_granted in Hg. destruct Hg as [Hsub Hg]. rewrite Hs in Hg. change (seqb ScopeCompany ScopeGlobal) with false in Hg.
  destruct Hg as (Hin & Hmod & _). specialize (Hin eq_refl).
  split; [by apply (subject_enabled svc l Hback) in Hsub|]. split; [by eapply company_scope_means|]. split.
  { destruct Hmod as [Hf|Hf]; [by left|right; by eapply module_seen]. }
  intros Hrel. by destruct (handleCan_object _ _ _ _ _ _ _ _ _ _ Hl Hcl Hdb Ht Hi Hsc Hrel Hcan Had) as (c' & Hc' & _ & Hb & He); rewrite Hc in Hc'; injection Hc' as <-.
Qed.
End platform.

(** ** A platform

    The registry as it boots, org and identity as ann set them up, and upstreams that
    answer with what their handlers compute. *)

Section witnesses.
#[local] Existing Instance demoUUIDText.
#[local] Existing Instance demoUnicode.
#[local] Existing Instance demoReading.

Definition platAnswers : Answers :=
  mkAnswers (fun n => mkTxEnv false (fun _ => false) (Z.of_nat n) (fun _ => 0%N)) (demoService ∅) (fun _ => false) (fun _ => true) (fun _ => false)
    (fun _ _ => None) (fun _ => None) (fun _ => None) (fun _ => None) (fun _ => None) (fun _ => None) (fun _ => true).
Definition platWorld {DB} (db : DB) : MWorld DB := mkMWorld db (mkWorld (mkDB ∅ [] ∅) []) [].
Definition platRun {DB E A} (p : prog DB E A) (db : DB) := perform demoVerify demoUUID platAnswers noFaults 0 p (platWorld db).

(** A 200 with what the client decodes, or a 500. *)
Definition wired {DB E A R} (decode : R -> option A) (p : prog DB E R) (db : DB) : HTTP A :=
  let a := decode (platRun p db).1.1 in Ok (mkResponse (match a with Some _ => StatusOK | None => 500%Z end) a).

Lemma wired_backed {DB E A R} (decode : R -> option A) (p : prog DB E R) db Q :
  safe demoVerify demoUUID (fun _ => True) (fun w => db = w_store w) (fun w w' => w' = w) p Q ->
  from_handler demoVerify demoUUID (fun _ => True) (eq db) p decode (wired decode p db).
Proof.
  intros Hp resp a [= <-] _ Hd. exists (platRun p db).1.1. split; [|exact Hd].
  eapply (says_alone demoVerify demoUUID (fun _ => True) (eq db) p Q (platWorld db) (platRun p db).1.2 _ (platRun p db).2 Hp); [done|].
  apply (perform_run _ _ _ platAnswers noFaults 0); [exact I|]. unfold platRun. by destruct (perform _ _ _ _ _ _ _) as [[]].
Qed.

Definition platParse (s : string) : option UUID := if seqb s "0" then Some 0%N else None.
Definition platSource (_ : string) : string * option kc_error := (KCStateTrue, None).
Definition platIdentity : IdDB := with_accounts (fun _ => {[0%N := mkAccount "ann" None None "active" "person"]}) idMigrated.
Definition platTuples : Table :=
  {[mkTuple "document_page" "7" "company_module" "company_module" "0/docs" ""; mkTuple "document_page" "7" "viewer" "user" "ann" ""]}.
Definition platService : Service :=
  mkService (fun sub => wired decodeUserState (handleUserState platSource sub) platIdentity)
    (fun m => wired decodeCapability (handleCapabilityOne m) rgBooted)
    (fun c => wired decodeCompanyState (handleCompanyState platParse c) demoOrg)
    (fun c sub => wired decodeMembership (handleMemberByKcSub platParse c sub) demoOrg)
    (Ok demoEnabled) None None (Ok demoRows) (db_of platTuples)
    (fun cid i => Ok (member_of_company platTuples cid i)) (fun t i => Ok (anchor_of platTuples t i)).

Lemma plat_backed : backed platParse demoVerify demoUUID (fun _ => True) (eq platIdentity) (eq rgBooted) (eq demoOrg) (eq platSource) platService.
Proof.
  split.
  - intros sub. exists platSource. split; [done|].
    exact (wired_backed decodeUserState (handleUserState platSource sub) platIdentity _ (state_says demoVerify demoUUID (fun _ => True) (eq platIdentity) platSource sub)).
  - intros m. exact (wired_backed decodeCapability (handleCapabilityOne m) rgBooted _ (handleCapabilityOne_says demoVerify demoUUID (fun _ => True) (eq rgBooted) m)).
  - intros c. exact (wired_backed decodeCompanyState (handleCompanyState platParse c) demoOrg _ (company_says platParse demoVerify demoUUID (fun _ => True) (eq demoOrg) c)).
  - intros c sub. exact (wired_backed decodeMembership (handleMemberByKcSub platParse c sub) demoOrg _ (membership_says platParse demoVerify demoUUID (fun _ => True) (eq demoOrg) c sub)).
Qed.

Lemma plat_engine : effectiveEngine platService = Some demoLoaded.
Proof. exact (demo_engine platTuples). Qed.

Definition annReads : canRequestWire := mkCan "" "docs.read" "" "company" "0" "" false "" (mkRef "document_page" "7") "viewer" false "".
Definition annAsked := handleCan demoVerify platService noFaults "Bearer ann" (Some annReads) demoWorld.
Definition annDecision : AccessDecision := match annAsked.1 with WriteDecision d => d | _ => mkDecision false ReasonEngineDenied [] "" "" end.

Lemma ann_asked : annAsked = (WriteDecision annDecision, demoWorld).
Proof. vm_compute. reflexivity. Qed.

Lemma allowed_across_services_witness :
  exists c, bearerClaims demoVerify "Bearer ann" = Ok c /\ account_enabled (eq platIdentity) (eq platSource) (Subject c) /\
    in_company_of platParse (eq demoOrg) demoLoaded platTuples annReads (Subject c) /\
    module_available (eq rgBooted) annReads /\ object_reached demoLoaded platTuples annReads (Subject c).
Proof.
  apply (allowed_across_services platParse demoVerify demoUUID (fun _ => True) (eq platIdentity) (eq rgBooted) (eq demoOrg) (eq platSource)
    platService demoLoaded platTuples noFaults "Bearer ann" annReads demoWorld annDecision demoWorld plat_backed plat_engine).
  - apply clean_table_check. vm_compute. reflexivity.
  - exact (db_of_may_fail platTuples).
  - reflexivity.
  - reflexivity.
  - reflexivity.
  - intros H. discriminate H.
  - exact ann_asked.
  - vm_compute. reflexivity.
Defined.
End witnesses.
